(* ===== verification/_CoqProject ===== *)
-Q . S2P
Prelude.v
Spinlock.v
Kernel.v
DemoEnv.v
Queue.v
Mlfq.v
MlfqView.v
MlfqInv.v
MlfqSteps.v
MlfqOps.v
MlfqCalls.v
MlfqSched.v
MlfqProc.v
MlfqExit.v
MlfqSystem.v
MlfqDemo.v
MlfqProps.v
Threads.v
ThreadsFamily.v
ThreadsProps.v
ThreadsDemo.v
Bytes.v
CString.v
CStringProps.v
Printf.v
Kctx.v
Bio.v
BioRing.v
BioRep.v
Ide.v
Log.v
LogRep.v
LogProps.v
LogOps.v
Store.v
Fs.v
FsBlocks.v
FsDemo.v
FsFile.v
FsWrite.v
FsName.v
FsLookup.v
FsNamei.v
Pipe.v
File.v
Kalloc.v
Vm.v
VmProps.v
Grep.v
GrepProps.v
Shell.v
ShellProps.v
ShellTree.v
ShellRun.v
Syscall.v
Sysfile.v
SysfileProps.v
FdTable.v
Umalloc.v
UmallocRep.v
UmallocProps.v
UmallocAlloc.v
UmallocThm.v
Console.v
ConsoleProps.v
Kbd.v
Exec.v
ExecProps.v
Pmanager.v
Mkfs.v
MkfsRep.v
MkfsOps.v
MkfsImage.v
MkfsMain.v
MkfsProps.v
Trap.v
TrapSteps.v
TrapProps.v
LwpTrap.v
UserProgs.v
