(* ===== verification/Prelude.v ===== *)
(** * HYU-OS: a verification development

    The repository holds two variants of the teaching kernel xv6 with its user
    programs: [src/Project1], whose scheduler is a multi-level feedback queue
    (MLFQ), and [src/Project2], which adds threads (light-weight processes,
    LWP), memory limits and a process manager.  Every other C file is the same
    in both; below, a file name without a directory is the one of Project1.

    ** Conventions

    A component is a file [X.v] with its state as a record and one definition
    per C function, under the name it has in the source (a suffix or a prefix
    where a name is taken).  Code is written in the state and error monad [M]
    of this file.  Its outcomes are a result, [Panic], [Fault] (a null or wild
    pointer, or another undefined behaviour) and [Diverge] (a lock that is
    never released, or a loop that runs out of fuel).  A machine integer is a
    [Z] with its width written out ([u32], [i32], [u8] of Prelude and Bytes):
    an [int] is in the signed range, a [uint] in the unsigned one, and
    operations that can leave it reduce their result.  Bytes are numbers from
    0 to 255; [Bytes] reads and writes little-endian fields.  Files named
    [XRep], [XRing], [XOps], [XInv] ... hold the invariants, the abstract
    states and the lemmas of a component, [XDemo] concrete states, [XProps]
    its theorems.  Statements about runs are total ([wpg true]: the code
    returns) unless they say otherwise; a [wpg false] or [wlp] statement is a
    lemma about the runs that return.

    ** The parts

    Locks and the shared kernel interface.
    - [Spinlock]: [spinlock.c], [mycpu] and [myproc]: per-core nesting of
      [pushcli], the interrupt flag, the lock table.
    - [Kernel]: process states, trap frames, and the interface of the memory
      and file calls that [proc.c] makes ([KernelEnv], with the laws it
      relies on); [DemoEnv] instantiates it.

    The MLFQ kernel (Project1).
    - [Queue], [Mlfq]: [proc.c] and [scheduler.h], pointer by pointer.  A
      function that calls [sched] ends where the core goes to the scheduler,
      and [resume] does what is left of it.
    - [MlfqView] abstracts queues to lists ([R]); [MlfqInv], [MlfqSteps] give
      the invariant ([KInv]); [MlfqOps], [MlfqCalls], [MlfqSched], [MlfqProc],
      [MlfqExit] run each operation on the abstract state;
      [MlfqSystem] composes them to a transition system ([kstep]);
      [MlfqDemo] is a run; [MlfqProps] has the theorems.
    - [Trap], [TrapSteps], [TrapProps]: [trap.c], [sysproc.c] and the dispatch of
      [syscall.c] over these processes; every trap is a sequence of [kstep]s.
      The handlers of the disk, the keyboard and the serial port take their
      lock, do their work and wake sleepers here; the work itself is in [Ide],
      [Console] and [Kbd], and [TrapSteps] puts the three together.  The calls
      on files are parameters.

    The LWP kernel (Project2).
    - [Threads]: [proc.c] of Project2 (families of threads that share a
      [th_share]); [ThreadsFamily] lemmas on the family lists;
      [ThreadsProps] the theorems, [ThreadsDemo] runs.
    - [LwpTrap]: [trap.c], [sysproc.c] and the dispatch of [syscall.c] of
      Project2 over these threads.

    Storage.
    - [Kctx]: what storage code needs of the rest of the kernel: the locks the
      core holds, [sleeplock.c], the running process, the channels woken.
    - [Bio] ([bio.c], [memide.c]), [BioRing], [BioRep]: the buffer cache, over
      a disk held in memory.
    - [Ide] ([ide.c]): the driver of the real disk, its queue of requests and
      the registers of the controller.
    - [Log] ([log.c]), [LogRep], [LogOps], [LogProps]: the redo log.
    - [Store]: the interface [BlockStore] between [fs.c] and the log, with its
      laws, which the log and the cache implement.
    - [Fs] ([fs.c]) against that interface: [FsBlocks] the block allocator,
      [FsFile] and [FsWrite] the contents of files, [FsName],
      [FsLookup], [FsNamei] inodes, directories and paths; [FsDemo] a disk.
    - [Pipe] ([pipe.c]); [File] ([file.c] and [pipealloc]).
    - [Mkfs] ([mkfs.c]), [MkfsRep], [MkfsOps], [MkfsImage], [MkfsMain],
      [MkfsProps]: the image that the kernel starts from.

    Memory, programs and system calls.
    - [Kalloc] ([kalloc.c]); [Vm], [VmProps] ([vm.c]).
    - [Exec], [ExecProps]: [exec.c] of both projects, [loaduvm].
    - [Syscall]: arguments of system calls ([syscall.c]).
    - [Sysfile], [SysfileProps], [FdTable]: [sysfile.c], and the descriptors of
      all processes.

    Devices: [Console], [Kbd], [ConsoleProps]: [console.c], [uart.c], [kbd.c].

    User programs: [CString], [CStringProps] ([string.c], [ulib.c]),
    [Printf] ([printf.c]), [Umalloc] with its lemmas and [UmallocThm]
    ([umalloc.c]), [Grep], [GrepProps] ([grep.c]), [Shell], [ShellProps],
    [ShellTree] (the parser of [sh.c]), [ShellRun] ([runcmd] and [main]),
    [UserProgs] ([cat.c], [wc.c], [ls.c], [echo.c], [kill.c], [ln.c],
    [mkdir.c], [rm.c]), [Pmanager] ([pmanager.c] of Project2 and the call
    [exec2] it makes).

    ** What the theorems show

    - MLFQ: in every reachable state the queues are well formed, every process
      is on the queue of its state and at most one core runs it, unless
      [setPrioity_arrangeQueue] was called for a process of level 2 that the
      scheduler lock had left on queue 0: the code does not look, and
      [set_priority_corrupts_queues] shows what becomes of the queues; no
      operation gets stuck between sections; [yield], the scheduler, [fork],
      [exit], [wait], [kill], [wakeup] and the priority calls refine operations
      on lists of processes; the hundredth tick boosts; traps keep all this.
    - LWP: what [kill], [thread_create], [thread_join], [wait] and [growproc]
      do to the families, including where they lose a thread or memory, or
      follow the null pointer of a free slot; a thread that joins gets the value
      with which the other one exits when both have the same [th_main], and
      else sleeps on; [sbrk] keeps a family within its memory limit.
    - Storage: the cache is a map from block numbers to contents, the log is
      atomic under a crash after any write, the allocators and the inode
      cache refine sets and maps, what is written is read back, paths lead
      where a walk over the directories leads, and [mkfs] makes an image
      that satisfies what [fs.c] relies on.
    - The driver serves the requests for the disk in order, also after a read
      that failed, whose buffer it marks valid all the same; pipes are bounded
      queues, consoles line disciplines, page allocation a
      stack; [allocuvm] maps fresh pages; [exec] is all or nothing;
      descriptors count as references; arguments are inside the process.
    - User programs: [match] decides its language, [grep] filters lines, the
      parser of the shell is total and inverts printing; however the processes
      of a command line interleave, the commands run in the order and with the
      descriptors that their syntax asks for, and the shell waits for them;
      [malloc] and [free] keep the heap (and for sizes of 2^31 - 15 bytes or
      more it is said what goes wrong); [execute] of the process manager never
      reaches [exec2]; [wc] counts and [cat] copies whatever the sizes of the reads, and
      [rm] and [mkdir] stop at the first failure.

    ** Fuel

    Loops and recursions over linked structures take fuel: as much as the
    structure can have (the number of processes along a queue, the buffers of
    the ring, blocks of the free list, bytes of the line or of the request,
    entries of a directory).  The theorems give the code's own call its fuel
    and state that it returns, so the bound is enough where they apply.
    [acquire] of a lock that is held is [Diverge]: one core at a time is
    inside the kernel here, and nobody else would release it.

    ** Interleaving

    [kstep] interleaves kernel sections of any cores, among them the pieces
    between [acquire], [sleep] and [release] of another lock; inside a
    section one core runs.  Storage code runs for one process between two
    points where it sleeps; pipes, descriptors and the console are systems of
    such pieces in any order.  The processes of a command line ([ShellRun]) run
    concurrently, one system call of one of them at a time.

    ** Not modelled

    - Assembly, start-up ([main.c], [bootmain.c]), interrupt controllers and
      processors ([lapic.c], [ioapic.c], [picirq.c], [mp.c]): device registers
      and tables of the hardware.
    - [seginit], [tvinit], [idtinit]: descriptor tables; [procdump] and the
      messages of [cprintf]: debug output.
    - The files of Project2 that equal those of Project1: what is said of
      one holds of the other.
    - [init] and [zombie]: the calls they make are modelled, and they keep no
      state.  Test programs and [lab4_systemcall]: no contract of their own.
    - The loading of registers by [iret] and [swtch], the TLB and user-mode
      execution; the memory of a process is its bytes. *)

From Stdlib Require Export ZArith Lia.
From stdpp Require Export base functions numbers strings gmap list.

(** ** Outcomes of kernel code

    [Ok a]      the code returns [a];
    [Panic m]   the code calls [panic(m)] and the machine stops;
    [Fault]     the code dereferences a null or out-of-range pointer, or does
                something else C leaves undefined;
    [Diverge]   the code spins (a lock that nobody releases) or a loop of the
                model runs out of fuel. *)

Inductive res (A : Type) : Type :=
  | Ok (a : A)
  | Panic (msg : string)
  | Fault
  | Diverge.
Arguments Ok {A} a.
Arguments Panic {A} msg.
Arguments Fault {A}.
Arguments Diverge {A}.

(** State-and-outcome monad: [St] is the state a component owns. *)
Definition M (St A : Type) : Type := St → res (A * St).

#[export] Instance M_ret {St} : MRet (M St) := λ A a s, Ok (a, s).
#[export] Instance M_bind {St} : MBind (M St) := λ A B k m s,
  match m s with
  | Ok (a, s') => k a s'
  | Panic e => Panic e
  | Fault => Fault
  | Diverge => Diverge
  end.

Section Primitives.
Context {St : Type}.

Definition gets {A} (f : St → A) : M St A := λ s, Ok (f s, s).
Definition modify (f : St → St) : M St unit := λ s, Ok (tt, f s).
Definition panic {A} (msg : string) : M St A := λ _, Panic msg.
Definition fault {A} : M St A := λ _, Fault.
Definition diverge {A} : M St A := λ _, Diverge.

(** Read through a partial function: [None] is a bad pointer. *)
Definition deref {A} (f : St → option A) : M St A := λ s,
  match f s with Some a => Ok (a, s) | None => Fault end.

Definition when (b : bool) (m : M St unit) : M St unit :=
  if b then m else mret tt.

(** [for (x : xs) body] over a list fixed before the loop starts. *)
Fixpoint for_each {A} (xs : list A) (body : A → M St unit) : M St unit :=
  match xs with
  | [] => mret tt
  | x :: xs' => body x ;; for_each xs' body
  end.

(** [for (x : xs) if (test x) return x;] *)
Fixpoint find_first {A} (xs : list A) (test : A → M St bool) : M St (option A) :=
  match xs with
  | [] => mret None
  | x :: xs' => b ← test x; if (b : bool) then mret (Some x) else find_first xs' test
  end.
End Primitives.

(** Run a component on the part of a larger state that it owns. *)
Definition zoom {St T A} (get : St → T) (put : T → St → St) (m : M T A) : M St A :=
  λ s, match m (get s) with
       | Ok (a, t) => Ok (a, put t s)
       | Panic e => Panic e
       | Fault => Fault
       | Diverge => Diverge
       end.

(** ** Weakest preconditions

    [wpg true m Q s]: from [s] the code returns (it neither panics, faults nor
    diverges) and [Q] holds of the result.  [wpg false m Q s]: if it returns
    then [Q] holds. *)

Definition wpg (total : bool) {St A} (m : M St A) (Q : A → St → Prop) (s : St) : Prop :=
  match m s with
  | Ok (a, s') => Q a s'
  | _ => total = false
  end.

Abbreviation wp := (wpg true).
Abbreviation wlp := (wpg false).

Section Wp.
Context {St : Type} (t : bool).
Implicit Types (s : St).

Lemma wpg_mono {A} (m : M St A) (Q Q' : A → St → Prop) s :
  wpg t m Q s → (∀ a s', Q a s' → Q' a s') → wpg t m Q' s.
Proof. unfold wpg. destruct (m s) as [[a s']|?| |]; auto. Qed.

Lemma wpg_total {A} (m : M St A) (Q : A → St → Prop) s :
  wpg true m Q s → wpg t m Q s.
Proof. unfold wpg. destruct (m s) as [[a s']|?| |]; auto; discriminate. Qed.

Lemma wpg_ret {A} (a : A) (Q : A → St → Prop) s : Q a s → wpg t (mret a) Q s.
Proof. exact id. Qed.

Lemma wpg_bind {A B} (m : M St A) (k : A → M St B) (Q : B → St → Prop) s :
  wpg t m (λ a s', wpg t (k a) Q s') s → wpg t (m ≫= k) Q s.
Proof.
  unfold wpg, mbind, M_bind. destruct (m s) as [[a s']|?| |]; auto.
Qed.

Lemma wpg_bind_inv {A B} (m : M St A) (k : A → M St B) (Q : B → St → Prop) s :
  wpg t (m ≫= k) Q s → wpg t m (λ a s', wpg t (k a) Q s') s.
Proof.
  unfold wpg, mbind, M_bind. destruct (m s) as [[a s']|?| |]; auto.
Qed.

Lemma wpg_assoc {A B C} (m : M St A) (k : A → M St B) (h : B → M St C) (Q : C → St → Prop) s :
  wpg t ((m ≫= k) ≫= h) Q s → wpg t (m ≫= λ x, k x ≫= h) Q s.
Proof. unfold wpg, mbind, M_bind. by destruct (m s) as [[a s']|?| |]. Qed.

Lemma wpg_assoc' {A B C} (m : M St A) (k : A → M St B) (h : B → M St C) (Q : C → St → Prop) s :
  wpg t (m ≫= λ x, k x ≫= h) Q s → wpg t ((m ≫= k) ≫= h) Q s.
Proof. unfold wpg, mbind, M_bind. by destruct (m s) as [[a s']|?| |]. Qed.

Lemma wpg_gets {A} (f : St → A) (Q : A → St → Prop) s : Q (f s) s → wpg t (gets f) Q s.
Proof. exact id. Qed.

Lemma wpg_modify (f : St → St) (Q : unit → St → Prop) s :
  Q tt (f s) → wpg t (modify f) Q s.
Proof. exact id. Qed.

Lemma wpg_deref {A} (f : St → option A) a (Q : A → St → Prop) s :
  f s = Some a → Q a s → wpg t (deref f) Q s.
Proof. unfold wpg, deref. by intros ->. Qed.

Lemma wpg_when_true (m : M St unit) Q s (b : bool) :
  b = true → wpg t m Q s → wpg t (when b m) Q s.
Proof. by intros ->. Qed.

Lemma wpg_when_false (m : M St unit) (Q : unit → St → Prop) s (b : bool) :
  b = false → Q tt s → wpg t (when b m) Q s.
Proof. by intros ->. Qed.

Lemma wpg_zoom {T A} (get : St → T) (put : T → St → St) (m : M T A) Q s :
  wpg t m (λ a t', Q a (put t' s)) (get s) → wpg t (zoom get put m) Q s.
Proof. unfold wpg, zoom. by destruct (m (get s)) as [[a s']|?| |]. Qed.

(** A loop over a fixed list keeps an invariant indexed by what is left. *)
Lemma wpg_for_each {A} (xs : list A) (body : A → M St unit) (I : list A → St → Prop)
    (Q : unit → St → Prop) s :
  I xs s →
  (∀ x xs' s', I (x :: xs') s' → wpg t (body x) (λ _ s'', I xs' s'') s') →
  (∀ s', I [] s' → Q tt s') →
  wpg t (for_each xs body) Q s.
Proof.
  intros HI Hbody HQ. revert s HI.
  induction xs as [|x xs IH]; intros s HI; cbn [for_each].
  - apply wpg_ret, HQ, HI.
  - apply wpg_bind. eapply wpg_mono; [apply Hbody, HI|]. intros [] s'. apply IH.
Qed.

(** A counting loop keeps an invariant indexed by the counter. *)
Lemma wpg_for_seq (body : nat → M St unit) (I : nat → St → Prop) (Q : unit → St → Prop) n : ∀ k s,
  I k s →
  (∀ i s', (k ≤ i < k + n)%nat → I i s' → wpg t (body i) (λ _ s'', I (S i) s'') s') →
  (∀ s', I (k + n)%nat s' → Q tt s') →
  wpg t (for_each (seq k n) body) Q s.
Proof.
  induction n as [|n IH]; intros k s HI Hb HQ; cbn [seq for_each].
  - apply wpg_ret, HQ. by rewrite Nat.add_0_r.
  - apply wpg_bind. eapply wpg_mono; [apply Hb; [lia|done]|]. intros [] s1 H1.
    apply IH; [done|intros i s' Hi; apply Hb; lia|]. intros s' Hs'. apply HQ. by rewrite <- Nat.add_succ_comm.
Qed.
End Wp.

Lemma wp_ok {St A} (m : M St A) (Q : A → St → Prop) s :
  wp m Q s → ∃ a s', m s = Ok (a, s') ∧ Q a s'.
Proof. unfold wpg. destruct (m s) as [[a s']|?| |]; try discriminate; eauto. Qed.

(** Code that panics after a part that returns. *)
Lemma bind_panic {St A B} (m : M St A) (k : A → M St B) s e :
  wp m (λ a s', k a s' = Panic e) s → (m ≫= k) s = Panic e.
Proof. intros H. destruct (wp_ok _ _ _ H) as (a & s' & E & Hk). unfold mbind, M_bind. by rewrite E. Qed.

(** A partial specification that says nothing holds of any code. *)
Lemma wlp_true {St A} (m : M St A) (Q : A → St → Prop) s : (∀ a s', Q a s') → wlp m Q s.
Proof. intros H. unfold wpg. by destruct (m s) as [[a s']|?| |]. Qed.

Lemma wpg_ok_inv t {St A} (m : M St A) (Q : A → St → Prop) s a s' :
  wpg t m Q s → m s = Ok (a, s') → Q a s'.
Proof. unfold wpg. intros H E. by rewrite E in H. Qed.

Lemma ok_wpg t {St A} (m : M St A) (Q : A → St → Prop) s a s' :
  m s = Ok (a, s') → Q a s' → wpg t m Q s.
Proof. unfold wpg. by intros ->. Qed.

Lemma bind_ok {St A B} (m : M St A) (k : A → M St B) s a s' :
  m s = Ok (a, s') → (m ≫= k) s = k a s'.
Proof. unfold mbind, M_bind. by intros ->. Qed.

Lemma bind_ok_inv {St A B} (m : M St A) (k : A → M St B) s b s'' :
  (m ≫= k) s = Ok (b, s'') → ∃ a s', m s = Ok (a, s') ∧ k a s' = Ok (b, s'').
Proof. unfold mbind, M_bind. destruct (m s) as [[a s']|?| |]; naive_solver. Qed.

(** [wstep] symbolically executes one construct of the monad; [wsteps] as far
    as it goes. *)
Ltac wstep :=
  lazymatch goal with
  | |- wpg _ (mret _) _ _ => apply wpg_ret
  | |- wpg _ (mbind _ _) _ _ => apply wpg_bind
  | |- wpg _ (gets _) _ _ => apply wpg_gets
  | |- wpg _ (modify _) _ _ => apply wpg_modify
  | |- wpg _ (deref _) _ _ => eapply wpg_deref; [first [eassumption | reflexivity]|]
  | |- wpg _ (zoom _ _ _) _ _ => apply wpg_zoom
  | |- wpg _ (when true _) _ _ => apply wpg_when_true; [reflexivity|]
  | |- wpg _ (when false _) _ _ => apply wpg_when_false; [reflexivity|]
  end; cbv beta.
Ltac wsteps := repeat wstep.

(** ** Invariants of pieces of code *)

(** A property of the state that a piece of code keeps, if it returns. *)
Definition keeps {St A} (I : St → Prop) (m : M St A) : Prop := ∀ s, I s → wlp m (λ _, I) s.

Section Keeps.
Context {St : Type} (I : St → Prop).
Lemma keeps_ret {A} (a : A) : keeps I (mret a).
Proof. intros s H. by apply wpg_ret. Qed.
Lemma keeps_bind {A B} (m : M St A) (k : A → M St B) : keeps I m → (∀ a, keeps I (k a)) → keeps I (m ≫= k).
Proof. intros Hm Hk s H. apply wpg_bind. eapply wpg_mono; [by apply Hm|]. intros a s' H'. by apply Hk. Qed.
Lemma keeps_gets {A} (f : St → A) : keeps I (gets f).
Proof. intros s H. by apply wpg_gets. Qed.
Lemma keeps_modify f : (∀ s, I s → I (f s)) → keeps I (modify f).
Proof. intros Hf s H. apply wpg_modify. by apply Hf. Qed.
Lemma keeps_deref {A} (f : St → option A) : keeps I (deref f).
Proof. intros s H. unfold wpg, deref. by destruct (f s). Qed.
Lemma keeps_panic {A} e : keeps I (@panic St A e).
Proof. done. Qed.
Lemma keeps_diverge {A} : keeps I (@diverge St A).
Proof. done. Qed.
End Keeps.

(** A call's own code, up to what [keeps] is known of. *)
Ltac keep_step :=
  lazymatch goal with
  | |- keeps _ (mret _) => apply keeps_ret
  | |- keeps _ (mbind _ _) => apply keeps_bind; [|intros ?]
  | |- keeps _ (gets _) => apply keeps_gets
  | |- keeps _ (deref _) => apply keeps_deref
  | |- keeps _ (panic _) => apply keeps_panic
  | |- keeps _ diverge => apply keeps_diverge
  | |- keeps _ (match ?x with _ => _ end) => destruct x
  | |- keeps _ (when ?b _) => destruct b; unfold when
  end.
Ltac keep := repeat first [keep_step | progress cbv beta iota zeta | solve [eauto with keep nocore]].
Create HintDb keep.

(** ** Lists *)

Lemma list_filter_ext {A} (P1 P2 : A → Prop) `{!∀ x, Decision (P1 x), !∀ x, Decision (P2 x)} (l : list A) :
  (∀ x, x ∈ l → P1 x ↔ P2 x) → filter P1 l = filter P2 l.
Proof.
  induction l as [|x l IH]; intros HP; [done|]. rewrite !filter_cons.
  rewrite IH by (intros y Hy; apply HP; by right).
  assert (P1 x ↔ P2 x) by (apply HP; by left). repeat case_decide; tauto.
Qed.

Lemma list_filter_all {A} (P : A → Prop) `{!∀ x, Decision (P x)} (l : list A) :
  (∀ x, x ∈ l → P x) → filter P l = l.
Proof.
  induction l as [|x l IH]; intros HP; [done|]. rewrite filter_cons_True by (apply HP; by left).
  f_equal. apply IH. intros y Hy. apply HP. by right.
Qed.

Local Open Scope Z_scope.

(** ** Machine integers: C's [uint] and [int] on the 32-bit target *)

Definition u32 (z : Z) : Z := z `mod` 2 ^ 32.
Definition i32 (z : Z) : Z := (z + 2 ^ 31) `mod` 2 ^ 32 - 2 ^ 31.
Definition u8 (z : Z) : Z := z `mod` 2 ^ 8.

Lemma u32_range z : 0 ≤ u32 z < 2 ^ 32.
Proof. apply Z.mod_pos_bound. lia. Qed.

Lemma u32_id z : 0 ≤ z < 2 ^ 32 → u32 z = z.
Proof. apply Z.mod_small. Qed.

Lemma i32_id z : - 2 ^ 31 ≤ z < 2 ^ 31 → i32 z = z.
Proof. intros H. unfold i32. rewrite Z.mod_small; lia. Qed.

Lemma i32_u32 z : i32 (u32 z) = i32 z.
Proof. unfold i32, u32. by rewrite Zplus_mod_idemp_l. Qed.

Create HintDb kernel.
#[export] Hint Rewrite u32_id i32_id using lia : kernel.

(** ** Constants of param.h *)

Definition NPROC : nat := 64%nat.
Definition NQUEUE : nat := 3%nat.
Definition NCPU : nat := 8%nat.
Definition NOFILE : nat := 16%nat.
