(* ===== verification/Spinlock.v ===== *)
(** * Spin locks and per-CPU interrupt nesting (spinlock.c, mycpu/myproc of proc.c)

    The state is what the kernel keeps per CPU ([struct cpu]), what the
    hardware keeps per core (the interrupt flag of EFLAGS and the local APIC
    id) and the table of spin locks.  Every operation takes the index [c] of
    the core that executes it.  The debugging fields of [struct spinlock]
    ([name], [pcs]) are not modelled. *)

From S2P Require Export Prelude.
Local Open Scope Z_scope.

(** The spin locks of the kernel: the named ones and any other by address. *)
Inductive lockid := ptable_lock | tickslock | log_lock | lock_at (a : Z).
#[export] Instance lockid_eq_dec : EqDecision lockid.
Proof. solve_decision. Defined.
#[export] Instance lockid_countable : Countable lockid.
Proof.
  refine (inj_countable'
    (λ l, match l with ptable_lock => inl 0%nat | tickslock => inl 1%nat
          | log_lock => inl 2%nat | lock_at a => inr a end)
    (λ x, match x with inl 0%nat => ptable_lock | inl 1%nat => tickslock
          | inl _ => log_lock | inr a => lock_at a end) _).
  by intros [].
Defined.

(** [struct cpu]: the fields used by scheduling and locking. *)
Record cpu := mkCpu {
  apicid : Z;
  ncli : Z;
  intena : bool;
  cproc : option nat
}.

(** The hardware side of a core. *)
Record core := mkCore { eflags_if : bool; lapic_id : Z }.

Record spinlock := mkLock { locked : bool; lk_cpu : option nat }.

(** Zeroed memory is a free lock. *)
#[export] Instance spinlock_inhabited : Inhabited spinlock := populate (mkLock false None).

(** [locks]: the lock objects written so far; the others are zeroed memory. *)
Record mach := mkMach {
  cpus : list cpu;
  cores : list core;
  locks : gmap lockid spinlock
}.

Definition set_cpu (i : nat) (cp : cpu) (m : mach) : mach :=
  mkMach (<[i := cp]> (cpus m)) (cores m) (locks m).
Definition set_core (c : nat) (k : core) (m : mach) : mach :=
  mkMach (cpus m) (<[c := k]> (cores m)) (locks m).
Definition set_lock (lk : lockid) (l : spinlock) (m : mach) : mach :=
  mkMach (cpus m) (cores m) (<[lk := l]> (locks m)).

Section Ops.
Context (c : nat).

Definition readeflags_if : M mach bool :=
  k ← deref (λ m, cores m !! c); mret (eflags_if k).

Definition cli : M mach unit :=
  k ← deref (λ m, cores m !! c); modify (set_core c (mkCore false (lapic_id k))).

Definition sti : M mach unit :=
  k ← deref (λ m, cores m !! c); modify (set_core c (mkCore true (lapic_id k))).

Definition lapicid : M mach Z :=
  k ← deref (λ m, cores m !! c); mret (lapic_id k).

(** Index in [cpus] of the structure of the executing core. *)
Definition mycpu : M mach nat :=
  b ← readeflags_if;
  if (b : bool) then panic "mycpu called with interrupts enabled\n"
  else
    a ← lapicid;
    r ← gets (λ m, list_find (λ cp, apicid cp = a) (cpus m));
    match r with
    | Some (i, _) => mret i
    | None => panic "unknown apicid\n"
    end.

Definition pushcli : M mach unit :=
  eflags ← readeflags_if;
  cli ;;
  i ← mycpu;
  cp ← deref (λ m, cpus m !! i);
  modify (set_cpu i (mkCpu (apicid cp) (ncli cp + 1)
                           (if ncli cp =? 0 then eflags else intena cp) (cproc cp))).

Definition popcli : M mach unit :=
  b ← readeflags_if;
  if (b : bool) then panic "popcli - interruptible"
  else
    i ← mycpu;
    cp ← deref (λ m, cpus m !! i);
    modify (set_cpu i (mkCpu (apicid cp) (ncli cp - 1) (intena cp) (cproc cp))) ;;
    if ncli cp - 1 <? 0 then panic "popcli"
    else when ((ncli cp - 1 =? 0) && intena cp) sti.

Definition myproc : M mach (option nat) :=
  pushcli ;;
  i ← mycpu;
  cp ← deref (λ m, cpus m !! i);
  popcli ;;
  mret (cproc cp).

(** [mycpu()->ncli], [mycpu()->intena] and its assignment, as [sched] uses them. *)
Definition cpu_ncli : M mach Z :=
  i ← mycpu; cp ← deref (λ m, cpus m !! i); mret (ncli cp).
Definition cpu_intena : M mach bool :=
  i ← mycpu; cp ← deref (λ m, cpus m !! i); mret (intena cp).
Definition set_intena (b : bool) : M mach unit :=
  i ← mycpu; cp ← deref (λ m, cpus m !! i);
  modify (set_cpu i (mkCpu (apicid cp) (ncli cp) b (cproc cp))).

Definition initlock (lk : lockid) : M mach unit :=
  modify (set_lock lk (mkLock false None)).

Definition holding (lk : lockid) : M mach bool :=
  pushcli ;;
  l ← gets (λ m, locks m !!! lk);
  r ← (if locked l then i ← mycpu; mret (bool_decide (lk_cpu l = Some i))
       else mret false);
  popcli ;;
  mret r.

(** The spinning [while(xchg(...))] returns only when the lock is free:
    with the lock taken by another core this call diverges, until that core
    has run and released it (another interleaving). *)
Definition acquire (lk : lockid) : M mach unit :=
  pushcli ;;
  h ← holding lk;
  if (h : bool) then panic "acquire"
  else
    l ← gets (λ m, locks m !!! lk);
    if locked l then diverge
    else
      modify (set_lock lk (mkLock true (lk_cpu l))) ;;
      i ← mycpu;
      modify (set_lock lk (mkLock true (Some i))).

Definition release (lk : lockid) : M mach unit :=
  h ← holding lk;
  if (h : bool) then
    modify (set_lock lk (mkLock false None)) ;;
    popcli
  else panic "release".
End Ops.

(** ** Well-formed machines *)

(** Each core has its [struct cpu] at its own index, found by APIC id, and the
    interrupt flag is off inside a [pushcli]. *)
Record mach_ok (m : mach) : Prop := {
  mo_len : length (cpus m) = length (cores m);
  mo_apic : ∀ i cp k, cpus m !! i = Some cp → cores m !! i = Some k → apicid cp = lapic_id k;
  mo_nodup : NoDup (apicid <$> cpus m)
}.

(** State of one core: [k] and [cp] are what core [c] has. *)
Definition cpu_at (m : mach) (c : nat) (k : core) (cp : cpu) : Prop :=
  cores m !! c = Some k ∧ cpus m !! c = Some cp.

Definition with_cpu (c : nat) (k : core) (cp : cpu) (m : mach) : mach :=
  set_cpu c cp (set_core c k m).

Definition pushed (k : core) (cp : cpu) : cpu :=
  mkCpu (apicid cp) (ncli cp + 1) (if ncli cp =? 0 then eflags_if k else intena cp) (cproc cp).
Definition popped (cp : cpu) : cpu := mkCpu (apicid cp) (ncli cp - 1) (intena cp) (cproc cp).
Definition core_off (k : core) : core := mkCore false (lapic_id k).
Definition pop_core (k : core) (cp : cpu) : core :=
  mkCore ((ncli cp - 1 =? 0) && intena cp) (lapic_id k).

Lemma mycpu_ok m c k cp :
  mach_ok m → cpu_at m c k cp → eflags_if k = false → mycpu c m = Ok (c, m).
Proof.
  intros [_ Ha Hnd] [Hk Hcp] Hif.
  unfold mycpu, readeflags_if, lapicid, mbind, M_bind, deref, gets, mret, M_ret.
  rewrite Hk; cbn. rewrite Hif; cbn. rewrite Hk; cbn.
  assert (list_find (λ cp0, apicid cp0 = lapic_id k) (cpus m) = Some (c, cp)) as ->; [|done].
  apply list_find_Some. split; [done|]. split; [by eapply Ha|].
  intros j y Hj Hlt Heq.
  assert (j = c); [|lia].
  eapply (NoDup_lookup (apicid <$> cpus m)); [done|by rewrite list_lookup_fmap, Hj|].
  rewrite list_lookup_fmap, Hcp; cbn. f_equal. rewrite Heq. by eapply Ha.
Qed.

Lemma cpu_at_lt m c k cp : cpu_at m c k cp → (c < length (cores m))%nat ∧ (c < length (cpus m))%nat.
Proof. intros [Hk Hcp]. split; by eapply lookup_lt_Some. Qed.

Lemma with_cpu_at m c k cp k' cp' : cpu_at m c k cp → cpu_at (with_cpu c k' cp' m) c k' cp'.
Proof.
  intros [??]%cpu_at_lt. split; cbn; by apply list_lookup_insert_eq.
Qed.

Lemma with_cpu_with c k cp k' cp' m : with_cpu c k' cp' (with_cpu c k cp m) = with_cpu c k' cp' m.
Proof. unfold with_cpu, set_cpu, set_core; cbn. by rewrite !list_insert_insert_eq. Qed.

Lemma with_cpu_id m c k cp : cpu_at m c k cp → with_cpu c k cp m = m.
Proof.
  intros [??]. destruct m; unfold with_cpu, set_cpu, set_core; cbn in *.
  by rewrite !list_insert_id.
Qed.

Lemma mach_ok_with m c k cp k' cp' :
  mach_ok m → cpu_at m c k cp → apicid cp' = apicid cp → lapic_id k' = lapic_id k →
  mach_ok (with_cpu c k' cp' m).
Proof.
  intros [Hl Ha Hnd] [Hk Hcp] Eap Elap. split; cbn.
  - by rewrite !length_insert.
  - intros i cpi ki Hi Hki. destruct (decide (i = c)) as [->|].
    + rewrite list_lookup_insert_eq in Hi by (by eapply lookup_lt_Some).
      rewrite list_lookup_insert_eq in Hki by (by eapply lookup_lt_Some).
      simplify_eq. rewrite Eap, Elap. by eapply Ha.
    + rewrite list_lookup_insert_ne in Hi by done. rewrite list_lookup_insert_ne in Hki by done. by eapply Ha.
  - rewrite list_fmap_insert, Eap, list_insert_id; [done|].
    by rewrite list_lookup_fmap, Hcp.
Qed.

Lemma mach_ok_set_lock m lk l : mach_ok m → mach_ok (set_lock lk l m).
Proof. by intros []; split. Qed.

Lemma cpu_at_set_lock m lk l c k cp : cpu_at m c k cp → cpu_at (set_lock lk l m) c k cp.
Proof. by intros []. Qed.

#[export] Hint Resolve mach_ok_set_lock cpu_at_set_lock with_cpu_at : kernel.

(** ** What each operation does *)

Lemma pushcli_ok m c k cp :
  mach_ok m → cpu_at m c k cp →
  pushcli c m = Ok (tt, with_cpu c (core_off k) (pushed k cp) m).
Proof.
  intros Hok Hat. pose proof Hat as [Hk Hcp]. destruct (cpu_at_lt _ _ _ _ Hat).
  unfold pushcli, readeflags_if, cli.
  erewrite bind_ok by (unfold mbind, M_bind, deref; rewrite Hk; reflexivity).
  erewrite bind_ok by (unfold mbind, M_bind, deref; rewrite Hk; reflexivity).
  assert (cpu_at (set_core c (core_off k) m) c (core_off k) cp) as Hat'
    by (split; [by apply list_lookup_insert_eq|done]).
  erewrite bind_ok.
  2:{ eapply mycpu_ok; [|exact Hat'|done].
      replace (set_core c _ m) with (with_cpu c (core_off k) cp m).
      - by eapply mach_ok_with.
      - unfold with_cpu, set_cpu; cbn. by rewrite list_insert_id; [destruct m|]. }
  erewrite bind_ok by (unfold deref; cbn; rewrite Hcp; reflexivity).
  reflexivity.
Qed.

Lemma popcli_ok m c k cp :
  mach_ok m → cpu_at m c k cp → eflags_if k = false → 1 ≤ ncli cp →
  popcli c m = Ok (tt, with_cpu c (pop_core k cp) (popped cp) m).
Proof.
  intros Hok Hat Hif Hn. pose proof Hat as [Hk Hcp]. destruct (cpu_at_lt _ _ _ _ Hat).
  unfold popcli.
  erewrite bind_ok by (unfold readeflags_if, mbind, M_bind, deref; rewrite Hk; reflexivity).
  rewrite Hif.
  erewrite bind_ok by (by eapply mycpu_ok).
  erewrite bind_ok by (unfold deref; rewrite Hcp; reflexivity).
  erewrite bind_ok by reflexivity.
  destruct (Z.ltb_spec (ncli cp - 1) 0); [lia|].
  unfold when, pop_core. destruct ((ncli cp - 1 =? 0) && intena cp).
  - unfold sti, mbind, M_bind, deref; cbn. rewrite Hk. reflexivity.
  - unfold mret, M_ret, with_cpu, set_cpu, set_core; cbn. do 3 f_equal.
    rewrite list_insert_id; [done|]. rewrite Hk. f_equal. destruct k; cbn in *; congruence.
Qed.

(** A [pushcli]/[popcli] pair inside a critical section changes nothing. *)
Lemma push_pop_inside m c k cp :
  mach_ok m → cpu_at m c k cp → eflags_if k = false → 1 ≤ ncli cp →
  with_cpu c (pop_core (core_off k) (pushed k cp)) (popped (pushed k cp)) m = m.
Proof.
  intros Hok Hat Hif Hn. rewrite <- (with_cpu_id m c k cp Hat) at 2. f_equal.
  - unfold pop_core, core_off, pushed; cbn. destruct k; cbn in *.
    destruct (Z.eqb_spec (ncli cp + 1 - 1) 0); [lia|]. by rewrite Hif.
  - unfold popped, pushed; cbn. destruct cp; cbn in *.
    destruct (Z.eqb_spec ncli0 0); [lia|]. f_equal; lia.
Qed.

Lemma pushed_ok m c k cp :
  mach_ok m → cpu_at m c k cp → mach_ok (with_cpu c (core_off k) (pushed k cp) m).
Proof. intros. by eapply mach_ok_with. Qed.

Lemma myproc_ok m c k cp :
  mach_ok m → cpu_at m c k cp → 0 ≤ ncli cp →
  myproc c m =
    Ok (cproc cp, with_cpu c (pop_core (core_off k) (pushed k cp)) (popped (pushed k cp)) m).
Proof.
  intros Hok Hat Hn. unfold myproc.
  erewrite bind_ok by (by eapply pushcli_ok).
  pose proof (with_cpu_at m c k cp (core_off k) (pushed k cp) Hat) as Hat'.
  pose proof (pushed_ok _ _ _ _ Hok Hat) as Hok'.
  erewrite bind_ok by (by eapply mycpu_ok).
  erewrite bind_ok by (unfold deref; rewrite (proj2 Hat'); reflexivity).
  erewrite bind_ok by (eapply popcli_ok; [done|done|done|cbn; lia]).
  by rewrite with_cpu_with.
Qed.

Lemma myproc_inside m c k cp :
  mach_ok m → cpu_at m c k cp → eflags_if k = false → 1 ≤ ncli cp →
  myproc c m = Ok (cproc cp, m).
Proof.
  intros. erewrite myproc_ok by (eauto; lia). by rewrite push_pop_inside.
Qed.

Lemma holding_inside m c k cp lk l :
  mach_ok m → cpu_at m c k cp → eflags_if k = false → 1 ≤ ncli cp →
  locks m !!! lk = l →
  holding c lk m = Ok (locked l && bool_decide (lk_cpu l = Some c), m).
Proof.
  intros Hok Hat Hif Hn Hl. unfold holding.
  erewrite bind_ok by (by eapply pushcli_ok).
  pose proof (with_cpu_at m c k cp (core_off k) (pushed k cp) Hat) as Hat'.
  pose proof (pushed_ok _ _ _ _ Hok Hat) as Hok'.
  erewrite bind_ok by reflexivity. cbn [locks with_cpu set_cpu set_core]. rewrite Hl.
  erewrite (bind_ok _ _ _ (locked l && bool_decide (lk_cpu l = Some c))).
  2:{ destruct (locked l); [|reflexivity].
      erewrite bind_ok by (by eapply mycpu_ok). reflexivity. }
  erewrite bind_ok by (eapply popcli_ok; [done|done|done|cbn; lia]).
  rewrite with_cpu_with, push_pop_inside by done. reflexivity.
Qed.

Lemma acquire_ok m c k cp lk l :
  mach_ok m → cpu_at m c k cp → 0 ≤ ncli cp →
  locks m !!! lk = l → locked l = false →
  acquire c lk m =
    Ok (tt, set_lock lk (mkLock true (Some c)) (with_cpu c (core_off k) (pushed k cp) m)).
Proof.
  intros Hok Hat Hn Hl Hfree. unfold acquire.
  erewrite bind_ok by (by eapply pushcli_ok).
  pose proof (with_cpu_at m c k cp (core_off k) (pushed k cp) Hat) as Hat'.
  pose proof (pushed_ok _ _ _ _ Hok Hat) as Hok'.
  erewrite bind_ok by (eapply holding_inside; [done|done|done|cbn; lia|exact Hl]).
  rewrite Hfree; cbn [andb].
  erewrite bind_ok by reflexivity. cbn [locks with_cpu set_cpu set_core]. rewrite Hl, Hfree.
  erewrite bind_ok by reflexivity.
  erewrite bind_ok by (eapply mycpu_ok; eauto with kernel).
  unfold modify, set_lock; cbn. by rewrite insert_insert_eq.
Qed.

Lemma release_ok m c k cp lk :
  mach_ok m → cpu_at m c k cp → eflags_if k = false → 1 ≤ ncli cp →
  locks m !!! lk = mkLock true (Some c) →
  release c lk m =
    Ok (tt, with_cpu c (pop_core k cp) (popped cp) (set_lock lk (mkLock false None) m)).
Proof.
  intros Hok Hat Hif Hn Hl. unfold release.
  erewrite bind_ok by (by eapply holding_inside).
  cbn. rewrite bool_decide_true by done.
  erewrite bind_ok by reflexivity.
  eapply popcli_ok; eauto with kernel.
Qed.

(** ** Critical sections

    [idle m]: no core has a [pushcli] pending, and every lock is free: the
    state between two kernel sections.  Interrupts may be on or off: the
    hardware turns them off when it enters an interrupt handler.
    [in_crit c lk m]: core [c] is inside the section of lock [lk], and that is
    the only pending lock. *)

Definition core_idle (m : mach) (c : nat) : Prop :=
  ∀ k cp, cpu_at m c k cp → ncli cp = 0.

Record idle (m : mach) : Prop := {
  idle_ok : mach_ok m;
  idle_cores : ∀ c, core_idle m c;
  idle_locks : ∀ lk, locked (locks m !!! lk) = false
}.

(** A test of [idle]. *)
Definition idleb (m : mach) : bool :=
  bool_decide (length (cpus m) = length (cores m)) &&
  forallb (λ x, (apicid x.1 =? lapic_id x.2) && (ncli x.1 =? 0)) (zip (cpus m) (cores m)) &&
  bool_decide (NoDup (apicid <$> cpus m)) &&
  bool_decide (map_Forall (λ _ l, locked l = false) (locks m)).

Lemma idleb_sound m : idleb m = true → idle m.
Proof.
  unfold idleb. rewrite !andb_true_iff, !bool_decide_eq_true, forallb_forall.
  intros [[[Hlen Hall] Hnd] Hlk].
  assert (∀ i cp k, cpus m !! i = Some cp → cores m !! i = Some k →
            apicid cp = lapic_id k ∧ ncli cp = 0) as Hz.
  { intros i cp k Hcp Hk. specialize (Hall (cp, k)).
    rewrite !andb_true_iff, !Z.eqb_eq in Hall. destruct Hall as [??]; [|done].
    apply list_elem_of_In, list_elem_of_lookup. exists i. rewrite lookup_zip_with, Hcp. cbn. by rewrite Hk. }
  split; [split; [done| |done]| |].
  - intros i cp k Hcp Hk. by eapply Hz.
  - intros c k cp [Hk Hcp]. by destruct (Hz _ _ _ Hcp Hk).
  - intros lk. destruct (locks m !! lk) as [l|] eqn:E.
    + rewrite (lookup_total_correct _ _ _ E). by apply (Hlk lk).
    + by rewrite lookup_total_alt, E.
Qed.

Record in_crit (c : nat) (lk : lockid) (m : mach) : Prop := {
  ic_ok : mach_ok m;
  ic_self : ∃ k cp, cpu_at m c k cp ∧ ncli cp = 1 ∧ eflags_if k = false;
  ic_cores : ∀ c', c' ≠ c → core_idle m c';
  ic_lock : locks m !!! lk = mkLock true (Some c);
  ic_locks : ∀ lk', lk' ≠ lk → locked (locks m !!! lk') = false
}.

(** The processes the cores run, as [myproc] sees them. *)
Definition cprocs (m : mach) : list (option nat) := cproc <$> cpus m.

Lemma cpu_at_exists m c p : mach_ok m → cprocs m !! c = Some p → ∃ k cp, cpu_at m c k cp ∧ cproc cp = p.
Proof.
  intros Hok Hp. unfold cprocs in Hp. rewrite list_lookup_fmap in Hp.
  destruct (cpus m !! c) as [cp|] eqn:Hcp; [|done]. simplify_eq/=.
  destruct (cores m !! c) as [k|] eqn:Hk; [by exists k, cp|].
  apply lookup_ge_None in Hk. apply lookup_lt_Some in Hcp.
  rewrite (mo_len _ Hok) in Hcp. lia.
Qed.

Lemma cprocs_with m c k cp k' cp' :
  cpu_at m c k cp → cproc cp' = cproc cp → cprocs (with_cpu c k' cp' m) = cprocs m.
Proof.
  intros [_ Hcp] E. unfold cprocs; cbn. rewrite list_fmap_insert, E, list_insert_id; [done|].
  by rewrite list_lookup_fmap, Hcp.
Qed.

Lemma cpu_at_ne m c c' k cp k0 cp0 :
  c' ≠ c → cpu_at (with_cpu c k cp m) c' k0 cp0 → cpu_at m c' k0 cp0.
Proof.
  intros Hne [Hk Hcp]; cbn in *.
  rewrite list_lookup_insert_ne in Hk by done. rewrite list_lookup_insert_ne in Hcp by done.
  by split.
Qed.

Lemma cpu_at_inj m c k cp k' cp' : cpu_at m c k cp → cpu_at m c k' cp' → k' = k ∧ cp' = cp.
Proof. intros [??] [??]. by simplify_eq. Qed.

Section Critical.
Context (c : nat) (lk : lockid) (m : mach) (p : option nat) (Hc : cprocs m !! c = Some p).

Lemma acquire_idle :
  idle m →
  ∃ m', acquire c lk m = Ok (tt, m') ∧ in_crit c lk m' ∧ cprocs m' = cprocs m.
Proof.
  intros Hi. pose proof (idle_ok _ Hi) as Hok.
  destruct (cpu_at_exists _ _ _ Hok Hc) as (k & cp & Hat & Hp).
  pose proof (idle_locks _ Hi lk) as Hfree.
  pose proof (idle_cores _ Hi c _ _ Hat) as Hn.
  eexists. split; [eapply acquire_ok; [done|exact Hat|lia|reflexivity|exact Hfree]|]. split_and!.
  - split.
    + eauto using mach_ok_set_lock, pushed_ok.
    + exists (core_off k), (pushed k cp). split; [by apply cpu_at_set_lock, with_cpu_at with k cp|].
      unfold pushed; cbn. rewrite Hn. done.
    + intros c' Hne k0 cp0 Hat'. eapply (idle_cores _ Hi c'). exact (cpu_at_ne m c c' (core_off k) (pushed k cp) _ _ Hne Hat').
    + cbn. apply lookup_total_insert_eq.
    + intros lk' Hne. cbn. rewrite lookup_total_insert_ne by done. apply (idle_locks _ Hi).
  - change (cprocs (set_lock lk (mkLock true (Some c)) (with_cpu c (core_off k) (pushed k cp) m)))
      with (cprocs (with_cpu c (core_off k) (pushed k cp) m)). by eapply cprocs_with.
Qed.

Lemma myproc_idle :
  idle m →
  ∃ m', myproc c m = Ok (p, m') ∧ idle m' ∧ cprocs m' = cprocs m ∧ locks m' = locks m.
Proof.
  intros Hi. pose proof (idle_ok _ Hi) as Hok.
  destruct (cpu_at_exists _ _ _ Hok Hc) as (k & cp & Hat & <-).
  pose proof (idle_cores _ Hi c _ _ Hat) as Hn.
  eexists. split; [eapply myproc_ok; eauto; lia|]. split_and!; [|by eapply cprocs_with|done].
  split; [by eapply mach_ok_with| |exact (idle_locks _ Hi)].
  intros c' k0 cp0 Hat'. destruct (decide (c' = c)) as [->|Hne].
  - apply (cpu_at_inj _ _ _ _ _ _ (with_cpu_at m c k cp _ _ Hat)) in Hat' as [-> ->].
    unfold popped, pushed; cbn. lia.
  - eapply (idle_cores _ Hi c'). by eapply cpu_at_ne.
Qed.

Lemma push_pop_idle :
  idle m →
  ∃ m1 m', pushcli c m = Ok (tt, m1) ∧ popcli c m1 = Ok (tt, m') ∧ idle m' ∧ cprocs m' = cprocs m.
Proof.
  intros Hi. pose proof (idle_ok _ Hi) as Hok.
  destruct (cpu_at_exists _ _ _ Hok Hc) as (k & cp & Hat & <-).
  pose proof (idle_cores _ Hi c _ _ Hat) as Hn.
  pose proof (with_cpu_at m c k cp (core_off k) (pushed k cp) Hat) as Hat'.
  eexists _, _. split_and!; [by eapply pushcli_ok| | |].
  - eapply popcli_ok; [by eapply pushed_ok|exact Hat'|done|cbn; lia].
  - rewrite with_cpu_with. split; [by eapply mach_ok_with| |exact (idle_locks _ Hi)].
    intros c' k0 cp0 Hat2. destruct (decide (c' = c)) as [->|Hne].
    + apply (cpu_at_inj _ _ _ _ _ _ (with_cpu_at m c k cp _ _ Hat)) in Hat2 as [-> ->].
      unfold popped, pushed; cbn. lia.
    + eapply (idle_cores _ Hi c'). by eapply cpu_at_ne.
  - rewrite with_cpu_with. by eapply cprocs_with.
Qed.

Lemma myproc_crit : in_crit c lk m → myproc c m = Ok (p, m).
Proof.
  intros [Hok (k & cp & Hat & Hn & Hif) _ _ _].
  destruct (cpu_at_exists _ _ _ Hok Hc) as (k' & cp' & Hat' & <-).
  destruct (cpu_at_inj _ _ _ _ _ _ Hat Hat') as [-> ->]. eapply myproc_inside; eauto; lia.
Qed.

Lemma holding_crit : in_crit c lk m → holding c lk m = Ok (true, m).
Proof.
  intros [Hok (k & cp & Hat & Hn & Hif) _ Hl _].
  erewrite holding_inside; eauto; [|lia]. cbn. by rewrite bool_decide_true.
Qed.

Lemma release_crit :
  in_crit c lk m →
  ∃ m', release c lk m = Ok (tt, m') ∧ idle m' ∧ cprocs m' = cprocs m.
Proof.
  intros [Hok (k & cp & Hat & Hn & Hif) Hothers Hl Hlocks].
  eexists. split; [eapply release_ok; eauto; lia|]. split_and!.
  - split.
    + eapply mach_ok_with; eauto using mach_ok_set_lock, cpu_at_set_lock.
    + intros c' k0 cp0 Hat'. destruct (decide (c' = c)) as [->|Hne].
      * pose proof (with_cpu_at _ c k cp (pop_core k cp) (popped cp)
                      (cpu_at_set_lock m lk (mkLock false None) _ _ _ Hat)) as Hat2.
        destruct (cpu_at_inj _ _ _ _ _ _ Hat2 Hat') as [-> ->].
        unfold popped; cbn. lia.
      * apply cpu_at_ne in Hat'; [|done]. by eapply (Hothers c').
    + intros lk'. cbn. destruct (decide (lk' = lk)) as [->|].
      * by rewrite lookup_total_insert_eq.
      * rewrite lookup_total_insert_ne by done. by apply Hlocks.
  - eapply (cprocs_with (set_lock lk _ m)); [by apply cpu_at_set_lock|done].
Qed.
End Critical.

(** Whether interrupts are on when no [pushcli] is pending: the flag itself,
    or what [popcli] will restore. *)
Definition irq_on (m : mach) (c : nat) : bool :=
  match cores m !! c, cpus m !! c with
  | Some k, Some cp => if ncli cp =? 0 then eflags_if k else intena cp
  | _, _ => true
  end.

Lemma irq_at m c k cp : cpu_at m c k cp → irq_on m c = if ncli cp =? 0 then eflags_if k else intena cp.
Proof. intros [H1 H2]. unfold irq_on. by rewrite H1, H2. Qed.
Lemma irq_with_ne m c c' k cp : c' ≠ c → irq_on (with_cpu c k cp m) c' = irq_on m c'.
Proof. intros Hne. unfold irq_on; cbn. by rewrite !list_lookup_insert_ne by done. Qed.

(** [pushcli] and [popcli] keep it. *)
Lemma irq_pushed m c c' k cp : cpu_at m c k cp → 0 ≤ ncli cp → irq_on (with_cpu c (core_off k) (pushed k cp) m) c' = irq_on m c'.
Proof.
  intros Hat Hn. destruct (decide (c' = c)) as [->|Hne]; [|by apply irq_with_ne].
  rewrite (irq_at _ _ _ _ Hat), (irq_at _ _ _ _ (with_cpu_at m c k cp _ _ Hat)). unfold pushed; cbn.
  rewrite (proj2 (Z.eqb_neq (ncli cp + 1) 0)) by lia. done.
Qed.
Lemma irq_popped m c c' k cp :
  cpu_at m c k cp → 1 ≤ ncli cp → eflags_if k = false → irq_on (with_cpu c (pop_core k cp) (popped cp) m) c' = irq_on m c'.
Proof.
  intros Hat Hn Hif. destruct (decide (c' = c)) as [->|Hne]; [|by apply irq_with_ne].
  rewrite (irq_at _ _ _ _ Hat), (irq_at _ _ _ _ (with_cpu_at m c k cp _ _ Hat)). unfold popped, pop_core; cbn.
  rewrite (proj2 (Z.eqb_neq (ncli cp) 0)) by lia. by destruct (ncli cp - 1 =? 0).
Qed.

Lemma acquire_irq c lk m m' p c' : cprocs m !! c = Some p → idle m → acquire c lk m = Ok (tt, m') → irq_on m' c' = irq_on m c'.
Proof.
  intros Hc Hi E. pose proof (idle_ok _ Hi) as Hok. destruct (cpu_at_exists _ _ _ Hok Hc) as (k & cp & Hat & _).
  pose proof (idle_cores _ Hi c _ _ Hat) as Hn. pose proof (idle_locks _ Hi lk) as Hfree.
  erewrite acquire_ok in E; [|done|exact Hat|lia|reflexivity|exact Hfree]. injection E as <-. apply (irq_pushed m); [done|lia].
Qed.
Lemma release_irq c lk m m' c' : in_crit c lk m → release c lk m = Ok (tt, m') → irq_on m' c' = irq_on m c'.
Proof.
  intros [Hok (k & cp & Hat & Hn & Hif) Hothers Hl Hlocks] E. erewrite release_ok in E; eauto; [|lia]. injection E as <-.
  rewrite irq_popped by (try apply cpu_at_set_lock; done || lia). done.
Qed.
Lemma myproc_irq c m m' p o c' : cprocs m !! c = Some p → idle m → myproc c m = Ok (o, m') → irq_on m' c' = irq_on m c'.
Proof.
  intros Hc Hi E. pose proof (idle_ok _ Hi) as Hok. destruct (cpu_at_exists _ _ _ Hok Hc) as (k & cp & Hat & _).
  pose proof (idle_cores _ Hi c _ _ Hat) as Hn. erewrite myproc_ok in E by (eauto; lia). injection E as _ <-.
  rewrite <- (with_cpu_with c (core_off k) (pushed k cp)).
  rewrite irq_popped; [|by apply with_cpu_at with k cp|cbn; lia|done]. apply irq_pushed; [done|lia].
Qed.

(** Taking a second lock and dropping the first, as [sleep] does when it goes
    from the caller's lock to [ptable.lock]. *)
Lemma handoff_crit c lk lk' m p :
  cprocs m !! c = Some p → in_crit c lk m → lk' ≠ lk →
  ∃ m1 m2, acquire c lk' m = Ok (tt, m1) ∧ release c lk m1 = Ok (tt, m2) ∧
    in_crit c lk' m2 ∧ cprocs m2 = cprocs m.
Proof.
  intros Hc [Hok (k & cp & Hat & Hn & Hif) Hothers Hl Hlocks] Hne.
  eexists _, _. split; [eapply acquire_ok; eauto; lia|].
  pose proof (with_cpu_at m c k cp (core_off k) (pushed k cp) Hat) as Hat'.
  split; [eapply release_ok|split_and!].
  - by eapply mach_ok_set_lock, pushed_ok.
  - by apply cpu_at_set_lock.
  - done.
  - cbn; lia.
  - cbn. by rewrite lookup_total_insert_ne.
  - split.
    + eapply mach_ok_with; [|do 2 apply cpu_at_set_lock; exact Hat'|done|done].
      eauto using mach_ok_set_lock, pushed_ok.
    + exists (pop_core (core_off k) (pushed k cp)), (popped (pushed k cp)).
      split; [eapply with_cpu_at; do 2 apply cpu_at_set_lock; exact Hat'|].
      unfold pop_core, popped, pushed; cbn. rewrite Hn. cbn. split; [lia|done].
    + intros c' Hne' k0 cp0 Hat0. apply cpu_at_ne in Hat0; [|done].
      eapply (Hothers c' Hne'). exact (cpu_at_ne m c c' (core_off k) (pushed k cp) _ _ Hne' Hat0).
    + cbn. rewrite lookup_total_insert_ne by done. apply lookup_total_insert_eq.
    + intros lk0 Hne0. cbn. destruct (decide (lk0 = lk)) as [->|].
      * by rewrite lookup_total_insert_eq.
      * rewrite !lookup_total_insert_ne by done. by apply Hlocks.
  - etrans; [eapply cprocs_with; [do 2 apply cpu_at_set_lock; exact Hat'|done]|].
    change (cprocs (with_cpu c (core_off k) (pushed k cp) m) = cprocs m). by eapply cprocs_with.
Qed.

Lemma handoff_irq c lk lk' m m1 m2 c' :
  in_crit c lk m → lk' ≠ lk → acquire c lk' m = Ok (tt, m1) → release c lk m1 = Ok (tt, m2) → irq_on m2 c' = irq_on m c'.
Proof.
  intros [Hok (k & cp & Hat & Hn & Hif) Hothers Hl Hlocks] Hne E1 E2.
  pose proof (with_cpu_at m c k cp (core_off k) (pushed k cp) Hat) as Hat'.
  erewrite acquire_ok in E1; [|done|exact Hat|lia|reflexivity|by apply Hlocks]. injection E1 as <-.
  erewrite release_ok in E2; [|by eapply mach_ok_set_lock, pushed_ok|by apply cpu_at_set_lock|done|cbn; lia|].
  2:{ cbn. by rewrite lookup_total_insert_ne. }
  injection E2 as <-. rewrite irq_popped; [|do 2 apply cpu_at_set_lock; exact Hat'|cbn; lia|done].
  change (irq_on (with_cpu c (core_off k) (pushed k cp) m) c' = irq_on m c'). apply irq_pushed; [done|lia].
Qed.

(** A second lock taken inside the section of the first, and released
    there. *)
Lemma nested_crit c lk lk' m :
  in_crit c lk m → lk' ≠ lk →
  ∃ m1 m2, acquire c lk' m = Ok (tt, m1) ∧ release c lk' m1 = Ok (tt, m2) ∧ in_crit c lk m2 ∧
    cprocs m1 = cprocs m ∧ cprocs m2 = cprocs m.
Proof.
  intros [Hok (k & cp & Hat & Hn & Hif) Hothers Hl Hlocks] Hne.
  pose proof (with_cpu_at m c k cp (core_off k) (pushed k cp) Hat) as Hat'.
  eexists _, _. split; [eapply acquire_ok; [done|exact Hat|lia|reflexivity|by apply Hlocks]|].
  split; [eapply release_ok|split_and!].
  - by eapply mach_ok_set_lock, pushed_ok.
  - by apply cpu_at_set_lock.
  - done.
  - cbn; lia.
  - cbn. by rewrite lookup_total_insert_eq.
  - split.
    + eapply mach_ok_with; [|do 2 apply cpu_at_set_lock; exact Hat'|done|done].
      eauto using mach_ok_set_lock, pushed_ok.
    + exists (pop_core (core_off k) (pushed k cp)), (popped (pushed k cp)).
      split; [eapply with_cpu_at; do 2 apply cpu_at_set_lock; exact Hat'|].
      unfold pop_core, popped, pushed; cbn. rewrite Hn. cbn. split; [lia|done].
    + intros c' Hne' k0 cp0 Hat0. apply cpu_at_ne in Hat0; [|done].
      eapply (Hothers c' Hne'). exact (cpu_at_ne m c c' (core_off k) (pushed k cp) _ _ Hne' Hat0).
    + cbn. by rewrite !lookup_total_insert_ne.
    + intros lk0 Hne0. cbn. destruct (decide (lk0 = lk')) as [->|].
      * by rewrite lookup_total_insert_eq.
      * rewrite !lookup_total_insert_ne by done. by apply Hlocks.
  - change (cprocs (with_cpu c (core_off k) (pushed k cp) m) = cprocs m). by eapply cprocs_with.
  - etrans; [eapply cprocs_with; [do 2 apply cpu_at_set_lock; exact Hat'|done]|].
    change (cprocs (with_cpu c (core_off k) (pushed k cp) m) = cprocs m). by eapply cprocs_with.
Qed.

Lemma nested_irq c lk lk' m m1 m2 c' :
  in_crit c lk m → lk' ≠ lk → acquire c lk' m = Ok (tt, m1) → release c lk' m1 = Ok (tt, m2) → irq_on m2 c' = irq_on m c'.
Proof.
  intros [Hok (k & cp & Hat & Hn & Hif) Hothers Hl Hlocks] Hne E1 E2.
  pose proof (with_cpu_at m c k cp (core_off k) (pushed k cp) Hat) as Hat'.
  erewrite acquire_ok in E1; [|done|exact Hat|lia|reflexivity|by apply Hlocks]. injection E1 as <-.
  erewrite release_ok in E2; [|by eapply mach_ok_set_lock, pushed_ok|by apply cpu_at_set_lock|done|cbn; lia|cbn; apply lookup_total_insert_eq].
  injection E2 as <-. rewrite irq_popped by (try apply cpu_at_set_lock, cpu_at_set_lock; done || (cbn; lia)).
  apply (irq_pushed m); [done|lia].
Qed.

(** [c->proc = p] inside the section of a lock. *)
Definition set_cproc (c : nat) (p : option nat) (m : mach) : mach :=
  match cpus m !! c with
  | Some cp => set_cpu c (mkCpu (apicid cp) (ncli cp) (intena cp) p) m
  | None => m
  end.

Lemma set_cproc_crit c lk p q m :
  cprocs m !! c = Some q → in_crit c lk m →
  in_crit c lk (set_cproc c p m) ∧ cprocs (set_cproc c p m) = <[c := p]> (cprocs m).
Proof.
  intros Hc [Hok (k & cp & Hat & Hn & Hif) Hothers Hl Hlocks].
  unfold set_cproc. rewrite (proj2 Hat).
  set (cp' := mkCpu _ _ _ _).
  assert (set_cpu c cp' m = with_cpu c k cp' m) as ->.
  { unfold with_cpu, set_core, set_cpu; cbn. f_equal. rewrite list_insert_id; [done|apply Hat]. }
  split; [split|].
  - by eapply mach_ok_with.
  - exists k, cp'. split; [by eapply with_cpu_at|done].
  - intros c' Hne k0 cp0 Hat'. apply cpu_at_ne in Hat'; [|done]. by eapply (Hothers c').
  - done.
  - done.
  - unfold cprocs; cbn. by rewrite list_fmap_insert.
Qed.

(** ** Properties *)

Lemma acquire_held c c' lk m o :
  in_crit c lk m → cprocs m !! c' = Some o →
  acquire c' lk m = (if decide (c' = c) then Panic "acquire" else Diverge).
Proof.
  intros [Hok (k & cp & Hat & Hn & Hif) Hothers Hl Hlocks] Hc'.
  destruct (cpu_at_exists _ _ _ Hok Hc') as (k' & cp' & Hat' & _).
  assert (0 ≤ ncli cp') as Hn'.
  { destruct (decide (c' = c)) as [->|Hne].
    - destruct (cpu_at_inj _ _ _ _ _ _ Hat Hat') as [-> ->]. lia.
    - destruct (Hothers c' Hne _ _ Hat') as [-> _]. lia. }
  unfold acquire. erewrite bind_ok by (by eapply pushcli_ok).
  pose proof (with_cpu_at m c' k' cp' (core_off k') (pushed k' cp') Hat') as Hat2.
  pose proof (pushed_ok _ _ _ _ Hok Hat') as Hok2.
  erewrite bind_ok by (eapply holding_inside; [done|done|done|cbn; lia|exact Hl]).
  cbn [locked lk_cpu andb]. case_decide as Hcc.
  - subst c'. by rewrite bool_decide_true.
  - rewrite bool_decide_false by congruence.
    erewrite bind_ok by reflexivity. cbn [locks with_cpu set_cpu set_core]. by rewrite Hl.
Qed.

(** What [sched] and the code that [swtch] returns to do with the interrupt
    state of the core, inside the section. *)
Lemma set_intena_crit c lk m o b :
  in_crit c lk m → cprocs m !! c = Some o →
  ∃ m', set_intena c b m = Ok (tt, m') ∧ in_crit c lk m' ∧ cprocs m' = cprocs m ∧ irq_on m' c = b.
Proof.
  intros [Hok (k & cp & Hat & Hn & Hif) Ho Hl Hls] Hc. set (cp' := mkCpu (apicid cp) (ncli cp) b (cproc cp)).
  exists (with_cpu c k cp' m). split_and!.
  - unfold set_intena. erewrite bind_ok by (by eapply mycpu_ok). unfold mbind, M_bind, deref. rewrite (proj2 Hat).
    unfold modify, with_cpu, set_cpu, set_core; cbn. do 3 f_equal. rewrite list_insert_id; [done|apply Hat].
  - split; [by eapply mach_ok_with| | |done|done].
    + exists k, cp'. split; [by eapply with_cpu_at|done].
    + intros c' Hne k0 cp0 Hat'. apply cpu_at_ne in Hat'; [|done]. by eapply (Ho c').
  - by eapply cprocs_with.
  - rewrite (irq_at _ _ _ _ (with_cpu_at m c k cp k cp' Hat)). cbn. by rewrite Hn.
Qed.

Lemma crit_reads c lk m :
  in_crit c lk m →
  cpu_ncli c m = Ok (1, m) ∧ readeflags_if c m = Ok (false, m) ∧ cpu_intena c m = Ok (irq_on m c, m).
Proof.
  intros [Hok (k & cp & Hat & Hn & Hif) _ _ _]. pose proof (mycpu_ok _ _ _ _ Hok Hat Hif) as Hmy.
  split_and!.
  - unfold cpu_ncli. erewrite bind_ok by exact Hmy. unfold deref, mbind, M_bind. rewrite (proj2 Hat), <- Hn. done.
  - unfold readeflags_if, deref, mbind, M_bind. rewrite (proj1 Hat), <- Hif. done.
  - unfold cpu_intena. erewrite bind_ok by exact Hmy. unfold deref, mbind, M_bind.
    rewrite (proj2 Hat), (irq_at _ _ _ _ Hat), Hn. done.
Qed.

Lemma release_free c lk m o :
  idle m → cprocs m !! c = Some o → release c lk m = Panic "release".
Proof.
  intros Hi Hc. destruct (cpu_at_exists _ _ _ (idle_ok _ Hi) Hc) as (k & cp & Hat & _).
  pose proof (idle_cores _ Hi c _ _ Hat) as Hn. unfold release, holding.
  unfold mbind at 1, M_bind at 1.
  erewrite bind_ok by (by eapply pushcli_ok, Hat; apply Hi).
  pose proof (with_cpu_at m c k cp (core_off k) (pushed k cp) Hat) as Hat2.
  pose proof (pushed_ok _ _ _ _ (idle_ok _ Hi) Hat) as Hok2.
  erewrite bind_ok by reflexivity. cbn [locks with_cpu set_cpu set_core].
  rewrite (idle_locks _ Hi lk). erewrite bind_ok by reflexivity.
  erewrite bind_ok by (eapply popcli_ok; [done|done|done|cbn; lia]). done.
Qed.

(** C12. A spin lock is a critical section: from a machine where nothing is
    locked, [acquire] makes the core the owner with its interrupts off and
    [release] restores the machine to that condition, with the interrupts of
    each core on or off as they were; meanwhile the owner
    cannot take the lock again (panic), another core that tries spins, and a
    lock that is not held cannot be released (panic). *)
Theorem spinlock_section c lk m o :
  idle m → cprocs m !! c = Some o →
  release c lk m = Panic "release" ∧
  ∃ m1 m2, acquire c lk m = Ok (tt, m1) ∧ in_crit c lk m1 ∧
    release c lk m1 = Ok (tt, m2) ∧ idle m2 ∧ cprocs m2 = cprocs m ∧ (∀ c', irq_on m2 c' = irq_on m c') ∧
    (∀ c' o', cprocs m !! c' = Some o' →
       acquire c' lk m1 = (if decide (c' = c) then Panic "acquire" else Diverge)).
Proof.
  intros Hi Hc. split; [by eapply release_free|].
  destruct (acquire_idle c lk m o Hc Hi) as (m1 & H1 & Hcr & Hcp).
  destruct (release_crit c lk m1 Hcr) as (m2 & H2 & Hi2 & Hcp2).
  exists m1, m2. split_and!; [done..|by rewrite Hcp2| |].
  - intros c'. rewrite (release_irq _ _ _ _ _ Hcr H2). by eapply acquire_irq.
  - intros c' o' Hc'. eapply acquire_held; [done|]. by rewrite Hcp.
Qed.

Lemma spinlock_section_witness :
  let m := mkMach [mkCpu 0 0 false None; mkCpu 1 0 false None] [mkCore true 0; mkCore true 1] ∅ in
  ∃ m1, acquire 0 tickslock m = Ok (tt, m1) ∧ acquire 1 tickslock m1 = Diverge.
Proof.
  intros m. destruct (spinlock_section 0 tickslock m None) as (_ & m1 & m2 & H1 & _ & _ & _ & _ & _ & H2);
    [by apply idleb_sound|done|]. exists m1. split; [exact H1|exact (H2 1%nat None eq_refl)].
Defined.
