(* ===== verification/Kernel.v ===== *)
(** * What the two kernels share: process states, wait channels, trap frames
    and the interface of the memory and file subsystems

    [proc.h] (the enumeration, [struct context]), [x86.h] ([struct trapframe])
    and the calls [proc.c] makes into [kalloc.c], [vm.c], [fs.c], [file.c] and
    [log.c]. *)

From S2P Require Export Prelude Spinlock.
Local Open Scope Z_scope.

(** A [struct proc *]: an index into [ptable.proc], or 0. *)
Abbreviation ptr := (option nat).

Inductive procstate := UNUSED | EMBRYO | SLEEPING | RUNNABLE | RUNNING | ZOMBIE.
#[export] Instance procstate_eq_dec : EqDecision procstate.
Proof. solve_decision. Defined.

(** A [void *chan]: null, a process (as in [wait]) or any other kernel object
    (a lock, a buffer, the [ticks] counter) by its address. *)
Inductive chan := ch_null | ch_proc (p : nat) | ch_addr (a : Z).
#[export] Instance chan_eq_dec : EqDecision chan.
Proof. solve_decision. Defined.

Definition chan_of (p : ptr) : chan :=
  match p with None => ch_null | Some i => ch_proc i end.

(** Where [swtch] resumes a process: the saved [%eip] of its [struct context],
    told apart by the call to [sched] it returns from (or the [forkret] that
    [allocproc] plants).  The [bool] is the local variable [intena] of the
    interrupted [sched]; the lock is the argument [lk] of the interrupted
    [sleep]. *)
Inductive kcont :=
  | K_forkret
  | K_yield (intena : bool)
  | K_sleep (lk : lockid) (intena : bool)
  | K_wait (intena : bool)
  | K_exit (intena : bool).
#[export] Instance kcont_eq_dec : EqDecision kcont.
Proof. solve_decision. Defined.

Record trapframe := mkTf {
  tf_edi : Z; tf_esi : Z; tf_ebp : Z; tf_oesp : Z;
  tf_ebx : Z; tf_edx : Z; tf_ecx : Z; tf_eax : Z;
  tf_gs : Z; tf_fs : Z; tf_es : Z; tf_ds : Z; tf_trapno : Z;
  tf_err : Z; tf_eip : Z; tf_cs : Z; tf_eflags : Z;
  tf_esp : Z; tf_ss : Z
}.

(** [memset] of the whole trap frame to 0. *)
Definition tf_zero : trapframe := mkTf 0 0 0 0 0 0 0 0 0 0 0 0 0 0 0 0 0 0 0.

Definition tf_set_eax (v : Z) (f : trapframe) : trapframe :=
  mkTf (tf_edi f) (tf_esi f) (tf_ebp f) (tf_oesp f) (tf_ebx f) (tf_edx f) (tf_ecx f) v
       (tf_gs f) (tf_fs f) (tf_es f) (tf_ds f) (tf_trapno f)
       (tf_err f) (tf_eip f) (tf_cs f) (tf_eflags f) (tf_esp f) (tf_ss f).

Definition tf_set_start (eip esp : Z) (f : trapframe) : trapframe :=
  mkTf (tf_edi f) (tf_esi f) (tf_ebp f) (tf_oesp f) (tf_ebx f) (tf_edx f) (tf_ecx f) (tf_eax f)
       (tf_gs f) (tf_fs f) (tf_es f) (tf_ds f) (tf_trapno f)
       (tf_err f) eip (tf_cs f) (tf_eflags f) esp (tf_ss f).

(** The trap frame [userinit] builds: user segments ([SEG_UCODE] is 3,
    [SEG_UDATA] is 4, [DPL_USER] is 3), interrupts on ([FL_IF] is 0x200), the
    stack at the end of the first page, entry at 0. *)
Definition tf_userinit : trapframe :=
  let cs := Z.lor (Z.shiftl 3 3) 3 in
  let ds := Z.lor (Z.shiftl 4 3) 3 in
  mkTf 0 0 0 0 0 0 0 0 0 0 ds ds 0 0 0 cs 512 4096 ds.

(** ** The interface to the rest of the kernel

    [env] is the state of the memory allocator, the page tables, the file
    table and the inode cache.  Pointers into it are addresses; 0 is null, as
    in C.  Process code is written against this interface. *)
Class KernelEnv := {
  env : Type;
  (* kalloc.c *)
  kalloc : M env Z;
  kfree : Z → M env unit;
  (* vm.c *)
  setupkvm : M env Z;
  inituvm : Z → M env unit;
  allocuvm : Z → Z → Z → M env Z;
  deallocuvm : Z → Z → Z → M env Z;
  copyuvm : Z → Z → M env Z;
  freevm : Z → M env unit;
  clearpteu : Z → Z → M env unit;
  store_user : Z → Z → Z → M env unit;
  (* file.c, fs.c, log.c *)
  filedup : Z → M env Z;
  fileclose : Z → M env unit;
  idup : Z → M env Z;
  iput : Z → M env unit;
  namei_root : M env Z;
  iinit : M env unit;
  initlog : M env unit;
  begin_op : M env unit;
  end_op : M env unit
}.

(** Calls that take and return a reference without creating another object. *)
Class KernelEnvLaws (E : KernelEnv) : Prop := {
  filedup_same : ∀ f e f' e', filedup f e = Ok (f', e') → f' = f;
  idup_same : ∀ ip e ip' e', idup ip e = Ok (ip', e') → ip' = ip
}.

(** [allocuvm] and [deallocuvm] return the new size: the one asked for, the
    old one when the request goes the other way, or 0 from [allocuvm] when
    memory runs out. *)
Class UvmLaws (E : KernelEnv) : Prop := {
  allocuvm_size : ∀ d o n e v e', allocuvm d o n e = Ok (v, e') → v = 0 ∨ v = if n <? o then o else n;
  deallocuvm_size : ∀ d o n e v e', deallocuvm d o n e = Ok (v, e') → v = if o <=? n then o else n
}.

(** [safestrcpy(dst, src, 16)] on names without an embedded NUL: at most 15
    characters are copied. *)
Definition name_copy (s : string) : string := String.substring 0 15 s.

(** ** Constants of mmu.h and param.h *)

Definition PGSIZE : Z := 4096.
Definition KSTACKSIZE : Z := 4096.
