(* ===== verification/DemoEnv.v ===== *)
(** * A concrete environment and machine

    A small kernel environment (a page allocator that counts, calls that
    succeed) and a two-core machine, on which the properties of the two
    kernels are instantiated. *)

From S2P Require Export Kernel.
Local Open Scope Z_scope.

(** Pages are handed out in order; page 0 is never one of them. *)
#[export] Instance demo_env : KernelEnv := {|
  env := Z;
  kalloc := λ e, Ok (4096 * (e + 1), e + 1);
  kfree := λ _, mret tt;
  setupkvm := λ e, Ok (4096 * (e + 1), e + 1);
  inituvm := λ _, mret tt;
  allocuvm := λ _ o n, mret (if n <? o then o else n);
  deallocuvm := λ _ o n, mret (if o <=? n then o else n);
  copyuvm := λ _ _ e, Ok (4096 * (e + 1), e + 1);
  freevm := λ _, mret tt;
  clearpteu := λ _ _, mret tt;
  store_user := λ _ _ _, mret tt;
  filedup := λ f, mret f;
  fileclose := λ _, mret tt;
  idup := λ ip, mret ip;
  iput := λ _, mret tt;
  namei_root := mret 1;
  iinit := mret tt;
  initlog := mret tt;
  begin_op := mret tt;
  end_op := mret tt
|}.

#[export] Instance demo_laws : KernelEnvLaws demo_env.
Proof. split; cbn; intros f e g e' [= <- _]; done. Qed.

#[export] Instance demo_uvm : UvmLaws demo_env.
Proof. split; cbn; intros d o n e v e' [= <- _]; auto. Qed.

(** Two cores, as both Makefiles configure. *)
Definition two_cores : mach :=
  mkMach [mkCpu 0 0 false None; mkCpu 1 0 false None] [mkCore true 0; mkCore true 1] ∅.
