(* ===== verification/Queue.v ===== *)
(** * The run queues of the MLFQ scheduler (Project1/scheduler.h, proc.c)

    The process table, the five queues threaded through it by the [prev] and
    [next] fields of [struct proc], and the queue operations of [proc.c].
    The operations are translated pointer by pointer; the representation
    predicate [queue_rep] relates a queue to the list of the processes on it,
    and each operation is shown to perform the list operation it stands for. *)

From S2P Require Export Prelude Spinlock Kernel.
Local Open Scope Z_scope.

(** ** State *)

(** [struct proc] of Project1/proc.h.  [tf] and [context] are what the two
    pointers of the same names point to on the kernel stack; [pchan] is the
    field [chan]. *)
Record proc := mkProc {
  sz : Z;
  pgdir : Z;
  kstack : Z;
  state : procstate;
  pid : Z;
  parent : ptr;
  tf : trapframe;
  context : kcont;
  pchan : chan;
  killed : Z;
  ofile : list Z;
  cwd : Z;
  name : string;
  priority : Z;
  queuelevel : Z;
  ticks : Z;
  prev : ptr;
  next : ptr
}.

Definition set_sz (v : Z) (p : proc) : proc :=
  mkProc v (pgdir p) (kstack p) (state p) (pid p)
   (parent p) (tf p) (context p) (pchan p) (killed p) (ofile p) (cwd p) (name p) (priority p)
   (queuelevel p) (ticks p) (prev p) (next p).
Definition set_pgdir (v : Z) (p : proc) : proc :=
  mkProc (sz p) v (kstack p) (state p) (pid p)
   (parent p) (tf p) (context p) (pchan p) (killed p) (ofile p) (cwd p) (name p) (priority p)
   (queuelevel p) (ticks p) (prev p) (next p).
Definition set_kstack (v : Z) (p : proc) : proc :=
  mkProc (sz p) (pgdir p) v (state p) (pid p)
   (parent p) (tf p) (context p) (pchan p) (killed p) (ofile p) (cwd p) (name p) (priority p)
   (queuelevel p) (ticks p) (prev p) (next p).
Definition set_state (v : procstate) (p : proc) : proc :=
  mkProc (sz p) (pgdir p) (kstack p) v
   (pid p) (parent p) (tf p) (context p) (pchan p) (killed p) (ofile p) (cwd p) (name p) (priority
   p) (queuelevel p) (ticks p) (prev p) (next p).
Definition set_pid (v : Z) (p : proc) : proc :=
  mkProc (sz p) (pgdir p) (kstack p) (state p) v
   (parent p) (tf p) (context p) (pchan p) (killed p) (ofile p) (cwd p) (name p) (priority p)
   (queuelevel p) (ticks p) (prev p) (next p).
Definition set_parent (v : ptr) (p : proc) : proc :=
  mkProc (sz p) (pgdir p) (kstack p) (state
   p) (pid p) v (tf p) (context p) (pchan p) (killed p) (ofile p) (cwd p) (name p) (priority p)
   (queuelevel p) (ticks p) (prev p) (next p).
Definition set_tf (v : trapframe) (p : proc) : proc :=
  mkProc (sz p) (pgdir p) (kstack p) (state
   p) (pid p) (parent p) v (context p) (pchan p) (killed p) (ofile p) (cwd p) (name p) (priority
   p) (queuelevel p) (ticks p) (prev p) (next p).
Definition set_context (v : kcont) (p : proc) : proc :=
  mkProc (sz p) (pgdir p) (kstack p)
   (state p) (pid p) (parent p) (tf p) v (pchan p) (killed p) (ofile p) (cwd p) (name p) (priority
   p) (queuelevel p) (ticks p) (prev p) (next p).
Definition set_pchan (v : chan) (p : proc) : proc :=
  mkProc (sz p) (pgdir p) (kstack p) (state
   p) (pid p) (parent p) (tf p) (context p) v (killed p) (ofile p) (cwd p) (name p) (priority p)
   (queuelevel p) (ticks p) (prev p) (next p).
Definition set_killed (v : Z) (p : proc) : proc :=
  mkProc (sz p) (pgdir p) (kstack p) (state p)
   (pid p) (parent p) (tf p) (context p) (pchan p) v (ofile p) (cwd p) (name p) (priority p)
   (queuelevel p) (ticks p) (prev p) (next p).
Definition set_ofile (v : list Z) (p : proc) : proc :=
  mkProc (sz p) (pgdir p) (kstack p) (state
   p) (pid p) (parent p) (tf p) (context p) (pchan p) (killed p) v (cwd p) (name p) (priority p)
   (queuelevel p) (ticks p) (prev p) (next p).
Definition set_cwd (v : Z) (p : proc) : proc :=
  mkProc (sz p) (pgdir p) (kstack p) (state p)
   (pid p) (parent p) (tf p) (context p) (pchan p) (killed p) (ofile p) v (name p) (priority p)
   (queuelevel p) (ticks p) (prev p) (next p).
Definition set_name (v : string) (p : proc) : proc :=
  mkProc (sz p) (pgdir p) (kstack p) (state
   p) (pid p) (parent p) (tf p) (context p) (pchan p) (killed p) (ofile p) (cwd p) v (priority p)
   (queuelevel p) (ticks p) (prev p) (next p).
Definition set_priority (v : Z) (p : proc) : proc :=
  mkProc (sz p) (pgdir p) (kstack p) (state
   p) (pid p) (parent p) (tf p) (context p) (pchan p) (killed p) (ofile p) (cwd p) (name p) v
   (queuelevel p) (ticks p) (prev p) (next p).
Definition set_queuelevel (v : Z) (p : proc) : proc :=
  mkProc (sz p) (pgdir p) (kstack p) (state
   p) (pid p) (parent p) (tf p) (context p) (pchan p) (killed p) (ofile p) (cwd p) (name p)
   (priority p) v (ticks p) (prev p) (next p).
Definition set_ticks (v : Z) (p : proc) : proc :=
  mkProc (sz p) (pgdir p) (kstack p) (state p)
   (pid p) (parent p) (tf p) (context p) (pchan p) (killed p) (ofile p) (cwd p) (name p) (priority
   p) (queuelevel p) v (prev p) (next p).
Definition set_prev (v : ptr) (p : proc) : proc :=
  mkProc (sz p) (pgdir p) (kstack p) (state p)
   (pid p) (parent p) (tf p) (context p) (pchan p) (killed p) (ofile p) (cwd p) (name p) (priority
   p) (queuelevel p) (ticks p) v (next p).
Definition set_next (v : ptr) (p : proc) : proc :=
  mkProc (sz p) (pgdir p) (kstack p) (state p)
   (pid p) (parent p) (tf p) (context p) (pchan p) (killed p) (ofile p) (cwd p) (name p) (priority
   p) (queuelevel p) (ticks p) (prev p) v.

(** The type [queue] of scheduler.h. *)
Record queue := mkQueue {
  head : ptr;
  tail : ptr;
  count : Z
}.

Definition set_head (v : ptr) (p : queue) : queue :=
  mkQueue v (tail p) (count p).
Definition set_tail (v : ptr) (p : queue) : queue :=
  mkQueue (head p) v (count p).
Definition set_count (v : Z) (p : queue) : queue :=
  mkQueue (head p) (tail p) v.

(** The queues: [mlfq.l_queue[i]], [mlfq.sleep_queue], [mlfq.unused_queue]. *)
Inductive qid := LQ (i : nat) | SleepQ | UnusedQ.
#[export] Instance qid_eq_dec : EqDecision qid.
Proof. solve_decision. Defined.
#[export] Instance qid_countable : Countable qid.
Proof.
  refine (inj_countable' (λ q, match q with LQ i => inl i | SleepQ => inr true | UnusedQ => inr false end)
    (λ x, match x with inl i => LQ i | inr true => SleepQ | inr false => UnusedQ end) _).
  by intros [].
Defined.

Section State.
Context {KE : KernelEnv}.

(** The globals of proc.c: [ptable.proc], [mlfq], [nextpid], [initproc], the
    static [first] of [forkret]; the machine ([cpus], locks) and the rest of the kernel. *)
Record kst := mkKst {
  procs : gmap nat proc;
  queues : gmap qid queue;
  global_ticks : Z;
  lockproc : ptr;
  unlockproc : ptr;
  nextpid : Z;
  initproc : ptr;
  first : bool;
  kmach : mach;
  kenv : env
}.

Definition set_procs (v : gmap nat proc) (s : kst) : kst :=
  mkKst v (queues s) (global_ticks s)
   (lockproc s) (unlockproc s) (nextpid s) (initproc s) (first s) (kmach s) (kenv s).
Definition set_queues (v : gmap qid queue) (s : kst) : kst :=
  mkKst (procs s) v (global_ticks s)
   (lockproc s) (unlockproc s) (nextpid s) (initproc s) (first s) (kmach s) (kenv s).
Definition set_global_ticks (v : Z) (s : kst) : kst :=
  mkKst (procs s) (queues s) v (lockproc s)
   (unlockproc s) (nextpid s) (initproc s) (first s) (kmach s) (kenv s).
Definition set_lockproc (v : ptr) (s : kst) : kst :=
  mkKst (procs s) (queues s) (global_ticks s)
   v (unlockproc s) (nextpid s) (initproc s) (first s) (kmach s) (kenv s).
Definition set_unlockproc (v : ptr) (s : kst) : kst :=
  mkKst (procs s) (queues s) (global_ticks
   s) (lockproc s) v (nextpid s) (initproc s) (first s) (kmach s) (kenv s).
Definition set_nextpid (v : Z) (s : kst) : kst :=
  mkKst (procs s) (queues s) (global_ticks s)
   (lockproc s) (unlockproc s) v (initproc s) (first s) (kmach s) (kenv s).
Definition set_initproc (v : ptr) (s : kst) : kst :=
  mkKst (procs s) (queues s) (global_ticks s)
   (lockproc s) (unlockproc s) (nextpid s) v (first s) (kmach s) (kenv s).
Definition set_first (v : bool) (s : kst) : kst :=
  mkKst (procs s) (queues s) (global_ticks s)
   (lockproc s) (unlockproc s) (nextpid s) (initproc s) v (kmach s) (kenv s).
Definition set_kmach (v : mach) (s : kst) : kst :=
  mkKst (procs s) (queues s) (global_ticks s)
   (lockproc s) (unlockproc s) (nextpid s) (initproc s) (first s) v (kenv s).
Definition set_kenv (v : env) (s : kst) : kst :=
  mkKst (procs s) (queues s) (global_ticks s)
   (lockproc s) (unlockproc s) (nextpid s) (initproc s) (first s) (kmach s) v.

(** ** Memory accesses *)

(** [p->...]: the process [p] points to; a null [p] faults. *)
Definition pget (p : ptr) : M kst proc := deref (λ s, i ← p; procs s !! i).

(** [p->field = v] *)
Definition pset (p : ptr) (f : proc → proc) : M kst unit :=
  pr ← pget p;
  match p with
  | Some i => modify (λ s, set_procs (<[i := f pr]> (procs s)) s)
  | None => fault
  end.

(** [q->...] and [q->field = v]; [&mlfq.l_queue[i]] beyond [NQUEUE] is a bad
    pointer. *)
Definition qget (q : qid) : M kst queue := deref (λ s, queues s !! q).
Definition qset (q : qid) (f : queue → queue) : M kst unit :=
  qv ← qget q; modify (λ s, set_queues (<[q := f qv]> (queues s)) s).

(** [if (q->head == p) ...] and the like *)
Definition ptr_eqb (p p' : ptr) : bool := bool_decide (p = p').

(** ** The operations of proc.c *)

Definition setproc_default (p : ptr) : M kst unit :=
  pset p (set_priority 3) ;;
  pset p (set_queuelevel 0) ;;
  pset p (set_ticks 0) ;;
  pset p (set_prev None) ;;
  pset p (set_next None).

Definition initqueue (q : qid) : M kst unit :=
  qset q (set_head None) ;;
  qset q (set_tail None) ;;
  qset q (set_count 0).

Definition queue_is_empty (q : qid) : M kst bool :=
  qv ← qget q; mret (ptr_eqb (head qv) None).

Definition count_add (n : Z) (qv : queue) : queue := set_count (count qv + n) qv.

(** Insert [new] in front of [base], at the end when [base] is null. *)
Definition insert (q : qid) (new base : ptr) : M kst unit :=
  e ← queue_is_empty q;
  if (e : bool) then
    qset q (set_head new) ;;
    pset new (set_prev None) ;;
    pset new (set_next None) ;;
    qset q (set_tail new) ;;
    qset q (count_add 1)
  else if ptr_eqb base None then
    qv ← qget q;
    pset (tail qv) (set_next new) ;;
    qv ← qget q;
    pset new (set_prev (tail qv)) ;;
    pset new (set_next base) ;;
    qset q (set_tail new) ;;
    qset q (count_add 1)
  else
    b ← pget base;
    if ptr_eqb (prev b) None then
      qv ← qget q;
      pset new (set_next (head qv)) ;;
      qset q (set_head new) ;;
      pset base (set_prev new) ;;
      pset new (set_prev None) ;;
      qset q (count_add 1)
    else
      pset new (set_next base) ;;
      b ← pget base;
      pset (prev b) (set_next new) ;;
      b ← pget base;
      pset new (set_prev (prev b)) ;;
      pset base (set_prev new) ;;
      qset q (count_add 1).

Definition delete (q : qid) (p : ptr) : M kst unit :=
  e ← queue_is_empty q;
  if (e : bool) then mret tt
  else
    qv ← qget q;
    when (ptr_eqb (head qv) p) (pr ← pget p; qset q (set_head (next pr))) ;;
    pr ← pget p;
    when (negb (ptr_eqb (next pr) None)) (pset (next pr) (set_prev (prev pr))) ;;
    pr ← pget p;
    when (negb (ptr_eqb (prev pr) None)) (pset (prev pr) (set_next (next pr))) ;;
    qv ← qget q;
    when (ptr_eqb (tail qv) p) (pr ← pget p; qset q (set_tail (prev pr))) ;;
    pset p (set_prev None) ;;
    pset p (set_next None) ;;
    qset q (count_add (-1)).

Definition dequeue (q : qid) : M kst ptr :=
  e ← queue_is_empty q;
  if negb e then
    qv ← qget q;
    let p := head qv in
    pr ← pget p;
    (if ptr_eqb (next pr) None then
       qset q (set_head None) ;;
       qset q (set_tail None)
     else
       qset q (set_head (next pr)) ;;
       pset (next pr) (set_prev None)) ;;
    qset q (count_add (-1)) ;;
    pset p (set_next None) ;;
    pset p (set_prev None) ;;
    mret p
  else mret None.

(** Append [q2] to [q1] and empty it; the result is [q1] itself. *)
Definition merge_queue (q1 q2 : qid) : M kst qid :=
  e1 ← queue_is_empty q1;
  e2 ← queue_is_empty q2;
  if negb e1 then
    when (negb e2)
      (v1 ← qget q1; v2 ← qget q2;
       pset (tail v1) (set_next (head v2)) ;;
       pset (head v2) (set_prev (tail v1)) ;;
       qset q1 (set_tail (tail v2)) ;;
       v1 ← qget q1; v2 ← qget q2;
       qset q1 (set_count (count v1 + count v2)) ;;
       qset q2 (set_head None) ;;
       qset q2 (set_tail None) ;;
       qset q2 (set_count 0)) ;;
    mret q1
  else
    when (negb e2)
      (v2 ← qget q2;
       qset q1 (set_head (head v2)) ;;
       qset q1 (set_tail (tail v2)) ;;
       qset q1 (count_add (count v2)) ;;
       qset q2 (set_head None) ;;
       qset q2 (set_tail None) ;;
       qset q2 (set_count 0)) ;;
    mret q1.

(** ** Symbolic execution of pointer code

    States are kept in the form [set_pq ps qs s]: process table [ps], queues
    [qs], everything else as in [s]. *)

Definition set_pq (ps : gmap nat proc) (qs : gmap qid queue) (s : kst) : kst :=
  set_procs ps (set_queues qs s).

Lemma kst_pq s : s = set_pq (procs s) (queues s) s.
Proof. by destruct s. Qed.

Section Rules.
Context (t : bool) (ps : gmap nat proc) (qs : gmap qid queue) (s : kst).

Lemma wpg_pget i pr (Q : proc → kst → Prop) :
  ps !! i = Some pr → Q pr (set_pq ps qs s) → wpg t (pget (Some i)) Q (set_pq ps qs s).
Proof. intros H HQ. eapply wpg_deref; [exact H|exact HQ]. Qed.

Lemma wpg_pset i f pr (Q : unit → kst → Prop) :
  ps !! i = Some pr → Q tt (set_pq (<[i := f pr]> ps) qs s) →
  wpg t (pset (Some i) f) Q (set_pq ps qs s).
Proof. intros H HQ. apply wpg_bind, (wpg_pget _ pr); [done|]. by apply wpg_modify. Qed.

Lemma wpg_qget q qv (Q : queue → kst → Prop) :
  qs !! q = Some qv → Q qv (set_pq ps qs s) → wpg t (qget q) Q (set_pq ps qs s).
Proof. intros H HQ. eapply wpg_deref; [exact H|exact HQ]. Qed.

Lemma wpg_qset q f qv (Q : unit → kst → Prop) :
  qs !! q = Some qv → Q tt (set_pq ps (<[q := f qv]> qs) s) →
  wpg t (qset q f) Q (set_pq ps qs s).
Proof. intros H HQ. apply wpg_bind, (wpg_qget _ qv); [done|]. by apply wpg_modify. Qed.
End Rules.

(** ** Doubly linked lists in the process table *)

Definition links (ps : gmap nat proc) (x : nat) : option (ptr * ptr) :=
  (λ p, (prev p, next p)) <$> ps !! x.

Definition hd_or (l : list nat) (d : ptr) : ptr :=
  match l with [] => d | x :: _ => Some x end.
Fixpoint last_or (l : list nat) (d : ptr) : ptr :=
  match l with [] => d | x :: l' => last_or l' (Some x) end.

(** [dll ps b l a]: the processes of [l] are chained in this order, between
    the neighbours [b] and [a]. *)
Fixpoint dll (ps : gmap nat proc) (b : ptr) (l : list nat) (a : ptr) : Prop :=
  match l with
  | [] => True
  | x :: l' => links ps x = Some (b, hd_or l' a) ∧ dll ps (Some x) l' a
  end.

Record queue_rep (ps : gmap nat proc) (qv : queue) (l : list nat) : Prop := {
  qr_head : head qv = hd_or l None;
  qr_tail : tail qv = last_or l None;
  qr_count : count qv = Z.of_nat (length l);
  qr_dll : dll ps None l None;
  qr_nodup : NoDup l
}.

(** A process without its links: what the queue operations do not touch. *)
Definition unlink (p : proc) : proc := set_prev None (set_next None p).
Definition data (ps : gmap nat proc) : gmap nat proc := unlink <$> ps.

Lemma ptr_eqb_true p p' : p = p' → ptr_eqb p p' = true.
Proof. apply bool_decide_eq_true_2. Qed.
Lemma ptr_eqb_false p p' : p ≠ p' → ptr_eqb p p' = false.
Proof. apply bool_decide_eq_false_2. Qed.

Lemma hd_or_app l1 l2 d : hd_or (l1 ++ l2) d = hd_or l1 (hd_or l2 d).
Proof. by destruct l1. Qed.
Lemma last_or_app l1 l2 d : last_or (l1 ++ l2) d = last_or l2 (last_or l1 d).
Proof. revert d. by induction l1; cbn. Qed.
Lemma last_or_snoc l x d : last_or (l ++ [x]) d = Some x.
Proof. by rewrite last_or_app. Qed.

Lemma last_or_cons_ne l z x : x ∉ z :: l → last_or l (Some z) ≠ Some x.
Proof.
  revert z. induction l as [|y l IH]; intros z Hx; cbn; [set_solver|].
  apply IH. set_solver.
Qed.

Lemma dll_app ps b l1 l2 a :
  dll ps b (l1 ++ l2) a ↔ dll ps b l1 (hd_or l2 a) ∧ dll ps (last_or l1 b) l2 a.
Proof.
  revert b. induction l1 as [|x l1 IH]; intros b; cbn; [naive_solver|].
  rewrite IH, hd_or_app. naive_solver.
Qed.

Lemma dll_frame ps ps' b l a :
  (∀ x, x ∈ l → links ps' x = links ps x) → dll ps b l a → dll ps' b l a.
Proof.
  revert b. induction l as [|x l IH]; intros b Hl; cbn; [done|].
  intros [Hx Hd]. split; [rewrite Hl by set_solver; done|].
  apply IH; [|done]. intros y Hy. apply Hl. set_solver.
Qed.

Lemma dll_elem ps b l a x : dll ps b l a → x ∈ l → is_Some (ps !! x).
Proof.
  revert b. induction l as [|y l IH]; intros b; cbn; [by intros _ ?%not_elem_of_nil|].
  intros [Hy Hd] [->|Hx]%elem_of_cons; [|by eapply IH].
  unfold links in Hy. destruct (ps !! y); [eauto|done].
Qed.

Lemma queue_rep_frame ps ps' qv l :
  (∀ x, x ∈ l → links ps' x = links ps x) → queue_rep ps qv l → queue_rep ps' qv l.
Proof. intros Hl []. split; eauto using dll_frame. Qed.

Lemma queue_rep_empty ps qv l : queue_rep ps qv l → ptr_eqb (head qv) None = bool_decide (l = []).
Proof. intros []. unfold ptr_eqb. apply bool_decide_ext. rewrite qr_head0. by destruct l. Qed.

Lemma links_insert_eq ps i p : links (<[i := p]> ps) i = Some (prev p, next p).
Proof. unfold links. by rewrite lookup_insert_eq. Qed.
Lemma links_insert_ne ps i j p : i ≠ j → links (<[i := p]> ps) j = links ps j.
Proof. intros. unfold links. by rewrite lookup_insert_ne. Qed.

Lemma links_lookup ps i p : ps !! i = Some p → links ps i = Some (prev p, next p).
Proof. unfold links. by intros ->. Qed.

Lemma links_Some ps i b a :
  links ps i = Some (b, a) → ∃ p, ps !! i = Some p ∧ prev p = b ∧ next p = a.
Proof. unfold links. destruct (ps !! i) as [p|]; [|done]. intros [= <- <-]. eauto. Qed.

Lemma data_insert ps i p p' :
  ps !! i = Some p → unlink p' = unlink p → data (<[i := p']> ps) = data ps.
Proof.
  intros H E. unfold data. rewrite fmap_insert, E. apply insert_id.
  by rewrite lookup_fmap, H.
Qed.

Lemma data_lookup ps i d : data ps !! i = Some d ↔ ∃ p, ps !! i = Some p ∧ unlink p = d.
Proof. unfold data. rewrite lookup_fmap. destruct (ps !! i); naive_solver. Qed.

(** ** What a queue operation may change

    [qstep q S l s s']: the operation left the processes' data alone, changed
    the links of the processes in [S] only, and made [q] represent [l]. *)

Record qstep (q : qid) (S l : list nat) (s s' : kst) : Prop := {
  qs_frame : s' = set_pq (procs s') (queues s') s;
  qs_data : data (procs s') = data (procs s);
  qs_other : ∀ q', q' ≠ q → queues s' !! q' = queues s !! q';
  qs_links : ∀ x, x ∉ S → links (procs s') x = links (procs s) x;
  qs_rep : ∃ qv, queues s' !! q = Some qv ∧ queue_rep (procs s') qv l
}.

Ltac lk :=
  repeat first [ rewrite lookup_insert_eq | rewrite lookup_insert_ne by congruence ];
  first [ eassumption | reflexivity ].
Ltac lks := repeat first [ rewrite links_insert_eq | rewrite links_insert_ne by congruence ].
Ltac pstep :=
  lazymatch goal with
  | |- wpg _ (mbind _ _) _ _ => apply wpg_bind
  | |- wpg _ (mret _) _ _ => apply wpg_ret
  | |- wpg _ (pget _) _ _ => eapply wpg_pget; [lk|]
  | |- wpg _ (pset _ _) _ _ => eapply wpg_pset; [lk|]
  | |- wpg _ (qget _) _ _ => eapply wpg_qget; [lk|]
  | |- wpg _ (qset _ _) _ _ => eapply wpg_qset; [lk|]
  end; cbv beta.
Ltac psteps := repeat pstep.
Ltac pdata := repeat (erewrite data_insert; [|lk|reflexivity]); try reflexivity.

Section Ops.
Context (t : bool).
Implicit Types (s : kst) (q : qid) (l : list nat).

Lemma wpg_queue_is_empty q qv ps qs s l (Q : bool → kst → Prop) :
  qs !! q = Some qv → queue_rep ps qv l →
  Q (bool_decide (l = [])) (set_pq ps qs s) →
  wpg t (queue_is_empty q) Q (set_pq ps qs s).
Proof.
  intros Hq Hr HQ. unfold queue_is_empty. psteps. by rewrite (queue_rep_empty _ _ _ Hr).
Qed.

Lemma qstep_intro q S l s ps qs qv :
  data ps = data (procs s) →
  (∀ q', q' ≠ q → qs !! q' = queues s !! q') →
  (∀ x, x ∉ S → links ps x = links (procs s) x) →
  qs !! q = Some qv → queue_rep ps qv l → qstep q S l s (set_pq ps qs s).
Proof. intros. split; cbn; eauto. Qed.

(** [qframe] leaves the new queue of a [qstep]; [dframe H] carries a chain [H]
    over writes to other processes. *)
Local Ltac qlinks := intros ? ?; rewrite !links_insert_ne; set_solver.
Local Ltac qframe :=
  eapply qstep_intro; [pdata|intros ? ?; by rewrite !lookup_insert_ne|qlinks|lk|].
Local Ltac dframe H := eapply dll_frame; [|exact H]; qlinks.

(** Inserting with a null [base] appends. *)
Lemma insert_end_wp s q qv l new :
  queues s !! q = Some qv → queue_rep (procs s) qv l →
  new ∉ l → is_Some (procs s !! new) →
  wpg t (insert q (Some new) None) (λ _ s', qstep q (new :: l) (l ++ [new]) s s') s.
Proof.
  intros Hq Hr Hnew [pn Hpn]. pose proof Hr as [Hh Ht Hc Hd Hnd].
  rewrite (kst_pq s) at 1. unfold insert.
  apply wpg_bind. eapply wpg_queue_is_empty; [done..|].
  destruct l as [|x l _] using rev_ind.
  - rewrite bool_decide_true by done. psteps.
    qframe.
    split; cbn; [done..|by rewrite Hc| |apply NoDup_singleton].
      by lks.
  - rewrite bool_decide_false by (by destruct l).
    rewrite last_or_snoc in Ht.
    apply dll_app in Hd as [Hd1 Hd2]. destruct Hd2 as [Hx _]. cbn in Hx.
    apply links_Some in Hx as (px & Hpx & Hprev & Hnext).
    assert (x ≠ new) by set_solver.
    rewrite ptr_eqb_true by done.
    pstep. pstep. rewrite Ht. psteps. cbn [tail]. rewrite Ht.
    qframe.
    split; cbn.
      * rewrite Hh. by destruct l.
      * by rewrite last_or_snoc.
      * rewrite Hc, !length_app; cbn. lia.
      * rewrite <- app_assoc. apply dll_app. split; cbn.
        { eapply dll_frame; [|exact Hd1]. intros y Hy.
          apply NoDup_app in Hnd as (_ & Hdis & _). rewrite !links_insert_ne; set_solver. }
        { lks. cbn. by rewrite Hprev. }
      * apply NoDup_app. split_and!; [done| |apply NoDup_singleton]. set_solver.
Qed.

(** Inserting with [base] puts the process just before it. *)
Lemma insert_before_wp s q qv l1 b l2 new :
  queues s !! q = Some qv → queue_rep (procs s) qv (l1 ++ b :: l2) →
  new ∉ l1 ++ b :: l2 → is_Some (procs s !! new) →
  wpg t (insert q (Some new) (Some b))
    (λ _ s', qstep q (new :: l1 ++ b :: l2) (l1 ++ new :: b :: l2) s s') s.
Proof.
  intros Hq Hr Hnew [pn Hpn]. pose proof Hr as [Hh Ht Hc Hd Hnd].
  rewrite (kst_pq s) at 1. unfold insert.
  apply wpg_bind. eapply wpg_queue_is_empty; [done..|].
  rewrite bool_decide_false by (by destruct l1).
  rewrite ptr_eqb_false by done.
  apply dll_app in Hd as [Hd1 Hd2]. destruct Hd2 as [Hb Hd2].
  apply links_Some in Hb as (pb & Hpb & Hprev & Hnext).
  assert (new ≠ b) by set_solver.
  apply NoDup_app in Hnd as (Hnd1 & Hdis & Hnd2).
  assert (b ∉ l1) by set_solver.
  assert (b ∉ l2) by (by apply NoDup_cons in Hnd2 as [? _]).
  assert (NoDup (l1 ++ new :: b :: l2)).
  { apply NoDup_app. split_and!; [done|set_solver|]. apply NoDup_cons. split; [set_solver|done]. }
  pstep. pstep. destruct l1 as [|x l1 _] using rev_ind.
  - cbn in Hprev. rewrite ptr_eqb_true by done. psteps.
    qframe.
    cbn in Hh. split; cbn; [done| |rewrite Hc; cbn; lia| |done].
      { by rewrite Ht. }
      rewrite Hh. lks. split_and!; [done|by cbn; rewrite Hnext|].
      dframe Hd2.
  - rewrite last_or_snoc in Hprev. rewrite ptr_eqb_false by congruence.
    apply dll_app in Hd1 as [Hd1 Hx]. destruct Hx as [Hx _].
    apply links_Some in Hx as (px & Hpx & Hxprev & Hxnext).
    assert (x ≠ new) by set_solver. assert (x ≠ b) by set_solver.
    apply NoDup_app in Hnd1 as (_ & Hdis1 & _).
    psteps. rewrite Hprev. psteps. rewrite Hprev.
    qframe.
    split; cbn; [| | | |done].
      { rewrite Hh. by destruct l1. }
      { rewrite Ht, !last_or_app. done. }
      { rewrite Hc, !length_app; cbn. lia. }
      rewrite <- app_assoc. apply dll_app. split; cbn.
      * dframe Hd1.
      * lks. split_and!; [cbn; by rewrite Hxprev|done|cbn; by rewrite Hnext|].
        dframe Hd2.
Qed.

(** A process is on a queue only once, and the rest is still a list. *)
Lemma queue_rep_split ps qv l1 x l2 :
  queue_rep ps qv (l1 ++ x :: l2) →
  dll ps None l1 (Some x) ∧
  (∃ px, ps !! x = Some px ∧ prev px = last_or l1 None ∧ next px = hd_or l2 None) ∧
  dll ps (Some x) l2 None ∧
  NoDup l1 ∧ NoDup l2 ∧ x ∉ l1 ∧ x ∉ l2 ∧ (∀ y, y ∈ l1 → y ∉ l2) ∧ NoDup (l1 ++ l2) ∧
  count qv + -1 = Z.of_nat (length (l1 ++ l2)).
Proof.
  intros [_ _ Hc [Hd1 [Hx Hd2]]%dll_app (Hn1 & Hdis & [Hx2 Hn2]%NoDup_cons)%NoDup_app].
  apply links_Some in Hx. assert (x ∉ l1) by set_solver.
  split_and!; try done; [set_solver|apply NoDup_app; split_and!; [done|set_solver|done]|].
  rewrite Hc, !length_app; cbn. lia.
Qed.

(** Taking a process out of the queue it is on: the first one, and one that
    has a predecessor. *)
Lemma delete_first_wp s q qv x l2 :
  queues s !! q = Some qv → queue_rep (procs s) qv (x :: l2) →
  wpg t (delete q (Some x))
    (λ _ s', qstep q (x :: l2) l2 s s' ∧ links (procs s') x = Some (None, None)) s.
Proof.
  intros Hq Hr. pose proof Hr as [Hh Ht _ _ _].
  destruct (queue_rep_split _ _ [] x l2 Hr) as (_ & (px & Hpx & Hprev & Hnext) & Hd2 & _ & Hnd2 & _ & Hx2 & _ & _ & Hc).
  rewrite (kst_pq s) at 1. unfold delete.
  apply wpg_bind. eapply wpg_queue_is_empty; [done..|]. rewrite bool_decide_false by done.
  pstep. pstep. apply wpg_bind. rewrite Hh. cbn [hd_or last_or app] in *.
  rewrite ptr_eqb_true by done. apply wpg_when_true; [done|]. psteps.
  destruct l2 as [|z l2]; cbn [hd_or last_or] in *.
  - rewrite ptr_eqb_true by done. cbn [negb]. apply wpg_when_false; [done|]. psteps.
    rewrite ptr_eqb_true by done. cbn [negb]. apply wpg_when_false; [done|]. psteps.
    cbn [tail set_head]. rewrite ptr_eqb_true by done. apply wpg_when_true; [done|]. psteps.
    split; [|cbn; lks; done]. qframe. by split.
  - destruct Hd2 as [Hz Hd2]. apply links_Some in Hz as (pz & Hpz & Hzprev & Hznext).
    assert (x ≠ z) by set_solver. pose proof Hnd2 as [Hz2 _]%NoDup_cons.
    rewrite ptr_eqb_false by congruence. cbn [negb]. apply wpg_when_true; [done|].
    rewrite Hnext. psteps.
    rewrite ptr_eqb_true by done. cbn [negb]. apply wpg_when_false; [done|]. psteps.
    cbn [tail set_head]. rewrite Ht. rewrite ptr_eqb_false by by apply last_or_cons_ne.
    apply wpg_when_false; [done|]. psteps.
    split; [|cbn; lks; done]. qframe.
    split; cbn; [done..| |done]. lks. split; [cbn; by rewrite Hprev, Hznext|]. dframe Hd2.
Qed.

Lemma delete_behind_wp s q qv l1 y x l2 :
  queues s !! q = Some qv → queue_rep (procs s) qv ((l1 ++ [y]) ++ x :: l2) →
  wpg t (delete q (Some x))
    (λ _ s', qstep q ((l1 ++ [y]) ++ x :: l2) ((l1 ++ [y]) ++ l2) s s' ∧
             links (procs s') x = Some (None, None)) s.
Proof.
  intros Hq Hr. pose proof Hr as [Hh Ht _ _ _].
  destruct (queue_rep_split _ _ _ _ _ Hr)
    as ([Hd1 [Hy _]]%dll_app & (px & Hpx & Hprev & Hnext) & Hd2 & Hnd1 & Hnd2 & Hx1 & Hx2 & Hdis & Hnd & Hc).
  apply links_Some in Hy as (py & Hpy & Hyprev & Hynext).
  apply NoDup_app in Hnd1 as (_ & Hdis1 & _).
  rewrite (kst_pq s) at 1. unfold delete.
  apply wpg_bind. eapply wpg_queue_is_empty; [done..|]. rewrite bool_decide_false by (by destruct l1).
  pstep. pstep. apply wpg_bind. rewrite Hh, hd_or_app. cbn [hd_or].
  rewrite last_or_snoc in *. assert (y ≠ x) by set_solver.
  rewrite ptr_eqb_false by (destruct l1; cbn; set_solver).
  apply wpg_when_false; [done|]. psteps. rewrite !last_or_app in Ht.
  destruct l2 as [|z l2]; cbn [hd_or last_or] in *.
  - rewrite ptr_eqb_true by done. cbn [negb]. apply wpg_when_false; [done|]. psteps.
    rewrite ptr_eqb_false by congruence. cbn [negb]. apply wpg_when_true; [done|].
    rewrite Hprev. psteps. rewrite Ht.
    rewrite ptr_eqb_true by done. apply wpg_when_true; [done|]. psteps.
    split; [|cbn; lks; done]. qframe.
    rewrite app_nil_r in *. split; cbn; [|by rewrite last_or_snoc|done| |done].
    { rewrite Hh. by destruct l1. }
    apply dll_app. split; cbn; [dframe Hd1|]. lks. cbn. by rewrite Hyprev, Hnext.
  - destruct Hd2 as [Hz Hd2]. apply links_Some in Hz as (pz & Hpz & Hzprev & Hznext).
    assert (x ≠ z) by set_solver. apply NoDup_cons in Hnd2 as [Hz2 Hnd2].
    assert (y ≠ z) by set_solver.
    rewrite ptr_eqb_false by congruence. cbn [negb]. apply wpg_when_true; [done|].
    rewrite Hnext. psteps.
    rewrite ptr_eqb_false by congruence. cbn [negb]. apply wpg_when_true; [done|].
    rewrite Hprev. psteps. rewrite Ht.
    rewrite ptr_eqb_false by by apply last_or_cons_ne.
    apply wpg_when_false; [done|]. psteps.
    split; [|cbn; lks; done]. qframe.
    split; cbn; [|by rewrite Ht, !last_or_app|done| |done].
    { rewrite Hh. by destruct l1. }
    rewrite <- app_assoc. apply dll_app. split; cbn; [dframe Hd1|].
    lks. cbn. rewrite Hyprev, Hnext, Hznext. split_and!; [done..|]. dframe Hd2.
Qed.

Lemma delete_wp s q qv l1 x l2 :
  queues s !! q = Some qv → queue_rep (procs s) qv (l1 ++ x :: l2) →
  wpg t (delete q (Some x))
    (λ _ s', qstep q (l1 ++ x :: l2) (l1 ++ l2) s s' ∧ links (procs s') x = Some (None, None)) s.
Proof.
  destruct l1 as [|y l1 _] using rev_ind; [apply delete_first_wp|apply delete_behind_wp].
Qed.

(** Taking the first process; an empty queue gives a null pointer. *)
Lemma dequeue_wp s q qv x l :
  queues s !! q = Some qv → queue_rep (procs s) qv (x :: l) →
  wpg t (dequeue q)
    (λ r s', r = Some x ∧ qstep q (x :: l) l s s' ∧ links (procs s') x = Some (None, None)) s.
Proof.
  intros Hq Hr. pose proof Hr as [Hh Ht Hc Hd Hnd].
  rewrite (kst_pq s) at 1. unfold dequeue.
  apply wpg_bind. eapply wpg_queue_is_empty; [done..|].
  rewrite bool_decide_false by done. cbn [negb].
  destruct Hd as [Hx Hd]. apply links_Some in Hx as (px & Hpx & Hprev & Hnext).
  apply NoDup_cons in Hnd as [Hxl Hnd].
  assert (count qv + -1 = Z.of_nat (length l)) by (rewrite Hc; cbn; lia).
  pstep. pstep. rewrite Hh. cbn [hd_or]. pstep. pstep. apply wpg_bind.
  destruct l as [|z l]; cbn [hd_or last_or] in *.
  - rewrite ptr_eqb_true by done. psteps. split; [done|]. split; [|cbn; lks; done].
    qframe.
    by split.
  - destruct Hd as [Hz Hd]. apply links_Some in Hz as (pz & Hpz & Hzprev & Hznext).
    assert (x ≠ z) by set_solver. pose proof Hnd as [Hz2 Hnd2]%NoDup_cons.
    rewrite ptr_eqb_false by congruence. rewrite Hnext. psteps.
    split; [done|]. split; [|cbn; lks; done].
    qframe.
    split; cbn; [done..| |done]. lks. split; [cbn; by rewrite Hznext|].
      dframe Hd.
Qed.

Lemma dequeue_empty_wp s q qv (Q : ptr → kst → Prop) :
  queues s !! q = Some qv → queue_rep (procs s) qv [] → Q None s → wpg t (dequeue q) Q s.
Proof.
  intros Hq Hr HQ. rewrite (kst_pq s) at 1. unfold dequeue.
  apply wpg_bind. eapply wpg_queue_is_empty; [done..|].
  rewrite bool_decide_true by done. cbn [negb]. pstep. by rewrite <- kst_pq.
Qed.

(** [merge_queue q1 q2] appends the second queue to the first. *)
Lemma merge_queue_wp s q1 q2 v1 v2 l1 l2 :
  q1 ≠ q2 → queues s !! q1 = Some v1 → queues s !! q2 = Some v2 →
  queue_rep (procs s) v1 l1 → queue_rep (procs s) v2 l2 → (∀ x, x ∈ l1 → x ∉ l2) →
  wpg t (merge_queue q1 q2)
    (λ r s', r = q1 ∧ s' = set_pq (procs s') (queues s') s ∧
       data (procs s') = data (procs s) ∧
       (∀ q, q ≠ q1 → q ≠ q2 → queues s' !! q = queues s !! q) ∧
       (∀ x, x ∉ l1 → x ∉ l2 → links (procs s') x = links (procs s) x) ∧
       (∃ w1, queues s' !! q1 = Some w1 ∧ queue_rep (procs s') w1 (l1 ++ l2)) ∧
       (∃ w2, queues s' !! q2 = Some w2 ∧ queue_rep (procs s') w2 [])) s.
Proof.
  intros Hne Hq1 Hq2 Hr1 Hr2 Hdis.
  pose proof Hr1 as [Hh1 Ht1 Hc1 Hd1 Hnd1]. pose proof Hr2 as [Hh2 Ht2 Hc2 Hd2 Hnd2].
  assert (NoDup (l1 ++ l2)) by (apply NoDup_app; done).
  rewrite (kst_pq s) at 1. unfold merge_queue.
  apply wpg_bind. eapply wpg_queue_is_empty; [done..|].
  apply wpg_bind. eapply wpg_queue_is_empty; [done..|].
  destruct l1 as [|x l1 _] using rev_ind; [|destruct l2 as [|z l2]].
  - rewrite bool_decide_true by done. cbn [negb]. apply wpg_bind.
    destruct l2 as [|z l2].
    + rewrite bool_decide_true by done. apply wpg_when_false; [done|]. pstep.
      cbn. split_and!; eauto.
    + rewrite bool_decide_false by done. apply wpg_when_true; [done|]. psteps.
      cbn. split_and!; [done..| | | |].
      * intros q ??. by rewrite !lookup_insert_ne.
      * done.
      * eexists; split; [lk|]. split; cbn; [done..| |done|done]. rewrite Hc1, Hc2. done.
      * eexists; split; [lk|]. split; cbn; try done; constructor.
  - rewrite bool_decide_false by (by destruct l1). cbn [negb]. apply wpg_bind.
    rewrite bool_decide_true by done. apply wpg_when_false; [done|]. pstep.
    rewrite app_nil_r. cbn. split_and!; eauto.
  - rewrite bool_decide_false by (by destruct l1). cbn [negb]. apply wpg_bind.
    rewrite bool_decide_false by done. apply wpg_when_true; [done|].
    apply dll_app in Hd1 as [Hd1 [Hx _]]. apply links_Some in Hx as (px & Hpx & Hxp & Hxn).
    destruct Hd2 as [Hz Hd2]. apply links_Some in Hz as (pz & Hpz & Hzp & Hzn).
    assert (x ≠ z) by set_solver.
    apply NoDup_app in Hnd1 as (_ & Hx1 & _). apply NoDup_cons in Hnd2 as [Hz2 Hnd2].
    rewrite last_or_snoc in Ht1. cbn [hd_or last_or] in Hh2, Ht2.
    psteps. rewrite Ht1, Hh2. psteps. cbn [procs queues set_pq set_procs set_queues].
    split_and!; [done|done|pdata| | | |].
    + intros q ??. by rewrite !lookup_insert_ne.
    + intros w ??. rewrite !links_insert_ne; set_solver.
    + eexists; split; [lk|]. split; cbn; [| | | |done].
      * rewrite Hh1. by destruct l1.
      * rewrite Ht2, !last_or_app. done.
      * rewrite Hc1, Hc2, !length_app; cbn. lia.
      * rewrite <- app_assoc. apply dll_app. split; cbn.
        { dframe Hd1. }
        { lks. cbn. rewrite Hxp, Hzn. split_and!; [done..|].
          dframe Hd2. }
    + eexists; split; [lk|]. split; cbn; try done; constructor.
Qed.
End Ops.
End State.
