(* ===== verification/Mlfq.v ===== *)
(** * The MLFQ kernel: process management of Project1/proc.c

    Every function of [proc.c] that touches the process table or the
    scheduler, for the core [c] that executes it.  A function that calls
    [sched] gives the core to the scheduler in the middle: what precedes the
    [swtch] is in the function itself, [sched] continues with the part of
    [scheduler] that follows its own [swtch] ([scheduler_leave]), and what
    follows [sched] in the process runs when [scheduler_enter] picks the
    process again ([resume]).  Because [ptable.lock] is held across both
    [swtch]es, each of these runs is one atomic step of the system. *)

From S2P Require Export Prelude Spinlock Kernel Queue.
Local Open Scope Z_scope.

Section Mlfq.
Context {KE : KernelEnv}.

(** Run a lock operation, or a call into another subsystem. *)
Definition onm {A} (m : M mach A) : M kst A := zoom kmach set_kmach m.
Definition one {A} (m : M env A) : M kst A := zoom kenv set_kenv m.

(** [for(p = ptable.proc; p < &ptable.proc[NPROC]; p++)] *)
Definition proc_table : list nat := seq 0 NPROC.

(** The zeroed memory the kernel starts from. *)
Definition proc0 : proc :=
  mkProc 0 0 0 UNUSED 0 None tf_zero K_forkret ch_null 0 (replicate NOFILE 0) 0 "" 0 0 0 None None.
Definition queue0 : queue := mkQueue None None 0.
Definition boot (m : mach) (e : env) : kst :=
  mkKst (list_to_map ((λ i, (i, proc0)) <$> proc_table))
        (list_to_map ((λ q, (q, queue0)) <$> [LQ 0; LQ 1; LQ 2; SleepQ; UnusedQ]))
        0 None None 1 None true m e.

Definition pinit : M kst unit :=
  onm (initlock ptable_lock) ;;
  modify (set_lockproc None) ;;
  modify (set_unlockproc None) ;;
  for_each (seq 0 NQUEUE) (λ i, initqueue (LQ i)) ;;
  initqueue SleepQ ;;
  initqueue UnusedQ ;;
  for_each proc_table (λ p, insert UnusedQ (Some p) None).

(** The contents of the new kernel stack page are whatever the allocator left
    there; [tf] keeps its previous contents until the caller fills it. *)
Definition allocproc (c : nat) : M kst ptr :=
  onm (acquire c ptable_lock) ;;
  p ← dequeue UnusedQ;
  if ptr_eqb p None then
    onm (release c ptable_lock) ;;
    mret None
  else
    pset p (set_state EMBRYO) ;;
    n ← gets nextpid;
    pset p (set_pid n) ;;
    modify (set_nextpid (i32 (n + 1))) ;;
    setproc_default p ;;
    onm (release c ptable_lock) ;;
    k ← one kalloc;
    pset p (set_kstack k) ;;
    if k =? 0 then
      pset p (set_state UNUSED) ;;
      insert UnusedQ p None ;;
      mret None
    else
      pset p (set_context K_forkret) ;;
      mret p.

Definition userinit (c : nat) : M kst unit :=
  p ← allocproc c;
  pget p ;;
  modify (set_initproc p) ;;
  d ← one setupkvm;
  pset p (set_pgdir d) ;;
  if d =? 0 then panic "userinit: out of memory?"
  else
    one (inituvm d) ;;
    pset p (set_sz PGSIZE) ;;
    pset p (set_tf tf_userinit) ;;
    pset p (set_name (name_copy "initcode")) ;;
    ip ← one namei_root;
    pset p (set_cwd ip) ;;
    onm (acquire c ptable_lock) ;;
    pset p (set_state RUNNABLE) ;;
    insert (LQ 0) p None ;;
    onm (release c ptable_lock).

(** [switchuvm] of vm.c: its checks; the task segment and the page table
    register it loads are not modelled. *)
Definition switchuvm (c : nat) (p : ptr) : M kst unit :=
  if ptr_eqb p None then panic "switchuvm: no process"
  else
    pr ← pget p;
    if kstack pr =? 0 then panic "switchuvm: no kstack"
    else if pgdir pr =? 0 then panic "switchuvm: no pgdir"
    else onm (pushcli c) ;; onm (popcli c).

Definition growproc (c : nat) (n : Z) : M kst Z :=
  curproc ← onm (myproc c);
  pr ← pget curproc;
  let fin sz :=
    pset curproc (set_sz sz) ;;
    switchuvm c curproc ;;
    mret 0 in
  if n >? 0 then
    s ← one (allocuvm (pgdir pr) (sz pr) (u32 (sz pr + n)));
    if s =? 0 then mret (-1) else fin s
  else if n <? 0 then
    s ← one (deallocuvm (pgdir pr) (sz pr) (u32 (sz pr + n)));
    if s =? 0 then mret (-1) else fin s
  else fin (sz pr).

(** [for(i = 0; i < NOFILE; i++) if(curproc->ofile[i]) np->ofile[i] = filedup(...)] *)
Definition dup_files (curproc np : ptr) : M kst unit :=
  for_each (seq 0 NOFILE) (λ i,
    cur ← pget curproc;
    f ← deref (λ _, ofile cur !! i);
    when (negb (f =? 0))
      (g ← one (filedup f);
       pr ← pget np;
       pset np (set_ofile (<[i := g]> (ofile pr))))).

Definition fork (c : nat) : M kst Z :=
  curproc ← onm (myproc c);
  np ← allocproc c;
  if ptr_eqb np None then mret (-1)
  else
    cur ← pget curproc;
    d ← one (copyuvm (pgdir cur) (sz cur));
    pset np (set_pgdir d) ;;
    if d =? 0 then
      pr ← pget np;
      one (kfree (kstack pr)) ;;
      pset np (set_kstack 0) ;;
      pset np (set_state UNUSED) ;;
      insert UnusedQ np None ;;
      mret (-1)
    else
      cur ← pget curproc;
      pset np (set_sz (sz cur)) ;;
      pset np (set_parent curproc) ;;
      cur ← pget curproc;
      pset np (set_tf (tf cur)) ;;
      pr ← pget np;
      pset np (set_tf (tf_set_eax 0 (tf pr))) ;;
      dup_files curproc np ;;
      cur ← pget curproc;
      ip ← one (idup (cwd cur));
      pset np (set_cwd ip) ;;
      cur ← pget curproc;
      pset np (set_name (name_copy (name cur))) ;;
      pr ← pget np;
      let pid := pid pr in
      onm (acquire c ptable_lock) ;;
      pset np (set_state RUNNABLE) ;;
      insert (LQ 0) np None ;;
      onm (release c ptable_lock) ;;
      mret pid.

Definition releasemlfq : M kst unit :=
  l ← gets lockproc;
  when (negb (ptr_eqb l None)) (modify (set_lockproc None)).

(** ** Queue scans

    The loops follow [next] pointers; their fuel is one more than the number
    of processes, which no well-formed queue exhausts. *)

Definition scan_fuel : nat := S NPROC.

(** Body of [higherpriority_proc]: the first process from [tmp] on with a
    priority above [pri]. *)
Fixpoint hp_scan (fuel : nat) (tmp : ptr) (pri : Z) : M kst ptr :=
  match fuel with
  | O => diverge
  | S fuel =>
      if ptr_eqb tmp None then mret None
      else
        pr ← pget tmp;
        if priority pr >? pri then mret tmp else hp_scan fuel (next pr) pri
  end.

Definition higherpriority_proc (p : ptr) : M kst ptr :=
  qv ← qget (LQ 2);
  pr ← pget p;
  hp_scan scan_fuel (head qv) (priority pr).

(** [&mlfq.l_queue[level]]; a negative index is no queue either. *)
Definition l_queue (level : Z) : qid :=
  LQ (if level <? 0 then NQUEUE else Z.to_nat level).

(** Put a process that becomes runnable on the queue of its level: at the end
    of queue 0 or 1, by priority in queue 2. *)
Definition enqueue_level (p : ptr) : M kst unit :=
  pr ← pget p;
  if queuelevel pr =? 2 then
    base ← higherpriority_proc p;
    insert (l_queue (queuelevel pr)) p base
  else insert (l_queue (queuelevel pr)) p None.

Fixpoint wakeup_scan (fuel : nat) (p : ptr) (ch : chan) : M kst unit :=
  match fuel with
  | O => diverge
  | S fuel =>
      if ptr_eqb p None then mret tt
      else
        pr ← pget p;
        let nxt := next pr in
        (if bool_decide (pchan pr = ch) then
           delete SleepQ p ;;
           pset p (set_state RUNNABLE) ;;
           enqueue_level p
         else mret tt) ;;
        wakeup_scan fuel nxt ch
  end.

Definition wakeup1 (ch : chan) : M kst unit :=
  qv ← qget SleepQ;
  wakeup_scan scan_fuel (head qv) ch.

Definition wakeup (c : nat) (ch : chan) : M kst unit :=
  onm (acquire c ptable_lock) ;;
  wakeup1 ch ;;
  onm (release c ptable_lock).

(** [p->queuelevel = 0; p->priority = 3; p->ticks = 0;] down a queue *)
Fixpoint reset_scan (fuel : nat) (p : ptr) : M kst unit :=
  match fuel with
  | O => diverge
  | S fuel =>
      if ptr_eqb p None then mret tt
      else
        pset p (set_queuelevel 0) ;;
        pset p (set_priority 3) ;;
        pset p (set_ticks 0) ;;
        pr ← pget p;
        reset_scan fuel (next pr)
  end.

Definition priority_boosting : M kst unit :=
  merge_queue (LQ 1) (LQ 2) ;;
  merge_queue (LQ 0) (LQ 1) ;;
  qv ← qget SleepQ;
  reset_scan scan_fuel (head qv) ;;
  qv ← qget (LQ 0);
  reset_scan scan_fuel (head qv).

(** ** The scheduler *)

(** The rest of an iteration of [scheduler]'s loop, after [swtch] came back. *)
Definition scheduler_leave (c : nat) : M kst unit :=
  g ← gets global_ticks;
  when (g =? 100)
    (modify (set_global_ticks 0) ;;
     priority_boosting ;;
     releasemlfq) ;;
  onm (modify (set_cproc c None)) ;;
  onm (release c ptable_lock).

(** [k] is where the process resumes: the call of [sched] it makes here. *)
Definition sched (c : nat) (k : bool → kcont) : M kst unit :=
  p ← onm (myproc c);
  h ← onm (holding c ptable_lock);
  if negb h then panic "sched ptable.lock" else
  n ← onm (cpu_ncli c);
  if negb (n =? 1) then panic "sched locks" else
  pr ← pget p;
  if bool_decide (state pr = RUNNING) then panic "sched running" else
  f ← onm (readeflags_if c);
  if (f : bool) then panic "sched interruptible" else
  i ← onm (cpu_intena c);
  pset p (set_context (k i)) ;;
  scheduler_leave c.

Definition yield (c : nat) : M kst unit :=
  p ← onm (myproc c);
  onm (acquire c ptable_lock) ;;
  pr ← pget p;
  pset p (set_ticks (ticks pr + 1)) ;;
  g ← gets global_ticks;
  modify (set_global_ticks (g + 1)) ;;
  me ← onm (myproc c);
  pset me (set_state RUNNABLE) ;;
  lp ← gets lockproc;
  up ← gets unlockproc;
  (if ptr_eqb lp p || ptr_eqb up p then
     when (ptr_eqb up p) (modify (set_unlockproc None)) ;;
     qv ← qget (LQ 0);
     insert (LQ 0) p (head qv)
   else
     pr ← pget p;
     when (ticks pr =? queuelevel pr * 2 + 4)
       (pset p (set_ticks 0) ;;
        when (queuelevel pr =? 2)
          (pset p (set_priority (if priority pr =? 0 then 0 else priority pr - 1))) ;;
        pset p (set_queuelevel (if queuelevel pr =? 0 then 1 else 2))) ;;
     pr ← pget p;
     if negb (queuelevel pr =? 2) then
       insert (l_queue (queuelevel pr)) p None
     else
       base ← higherpriority_proc p;
       insert (LQ 2) p base) ;;
  sched c K_yield.

(** [lk] is the caller's lock; [k] tells [sleep]'s callers apart ([wait]
    sleeps with [ptable.lock] itself and then loops). *)
Definition sleep (c : nat) (ch : chan) (lk : lockid) (k : bool → kcont) : M kst unit :=
  p ← onm (myproc c);
  if ptr_eqb p None then panic "sleep" else
  when (negb (bool_decide (lk = ptable_lock)))
    (onm (acquire c ptable_lock) ;;
     onm (release c lk)) ;;
  releasemlfq ;;
  pset p (set_pchan ch) ;;
  pset p (set_state SLEEPING) ;;
  insert SleepQ p None ;;
  sched c k.

(** What [sleep] does once it is scheduled again. *)
Definition sleep_return (c : nat) (p : ptr) (lk : lockid) : M kst unit :=
  pset p (set_pchan ch_null) ;;
  when (negb (bool_decide (lk = ptable_lock)))
    (onm (release c ptable_lock) ;;
     onm (acquire c lk)).

(** [exit], from closing the files to the jump into the scheduler. *)
Definition close_files (curproc : ptr) : M kst unit :=
  for_each (seq 0 NOFILE) (λ fd,
    pr ← pget curproc;
    f ← deref (λ _, ofile pr !! fd);
    when (negb (f =? 0))
      (one (fileclose f) ;;
       pr ← pget curproc;
       pset curproc (set_ofile (<[fd := 0]> (ofile pr))))).

Definition exit (c : nat) : M kst unit :=
  curproc ← onm (myproc c);
  ini ← gets initproc;
  if ptr_eqb curproc ini then panic "init exiting" else
  close_files curproc ;;
  one begin_op ;;
  pr ← pget curproc;
  one (iput (cwd pr)) ;;
  one end_op ;;
  pset curproc (set_cwd 0) ;;
  onm (acquire c ptable_lock) ;;
  pr ← pget curproc;
  wakeup1 (chan_of (parent pr)) ;;
  for_each proc_table (λ p,
    pr ← pget (Some p);
    when (ptr_eqb (parent pr) curproc)
      (ini ← gets initproc;
       pset (Some p) (set_parent ini) ;;
       pr ← pget (Some p);
       when (bool_decide (state pr = ZOMBIE)) (wakeup1 (chan_of ini)))) ;;
  pset curproc (set_state ZOMBIE) ;;
  releasemlfq ;;
  sched c K_exit.

(** Freeing a zombie child, in [wait]. *)
Definition reap (p : ptr) : M kst Z :=
  pr ← pget p;
  let pid := pid pr in
  one (kfree (kstack pr)) ;;
  pset p (set_kstack 0) ;;
  pr ← pget p;
  one (freevm (pgdir pr)) ;;
  pset p (set_pid 0) ;;
  pset p (set_parent None) ;;
  pset p (set_name "") ;;
  pset p (set_killed 0) ;;
  pset p (set_state UNUSED) ;;
  setproc_default p ;;
  insert UnusedQ p None ;;
  mret pid.

(** The scan of the table: [inl pid] of the zombie it freed, or [inr
    havekids]. *)
Fixpoint wait_scan (ps : list nat) (curproc : ptr) (havekids : bool) : M kst (Z + bool) :=
  match ps with
  | [] => mret (inr havekids)
  | p :: ps =>
      pr ← pget (Some p);
      if negb (ptr_eqb (parent pr) curproc) then wait_scan ps curproc havekids
      else if bool_decide (state pr = ZOMBIE) then
        pid ← reap (Some p); mret (inl pid)
      else wait_scan ps curproc true
  end.

(** One turn of [wait]'s loop, with [ptable.lock] held: [Some v] when [wait]
    returns [v], [None] when it went to sleep. *)
Definition wait_turn (c : nat) (curproc : ptr) : M kst (option Z) :=
  r ← wait_scan proc_table curproc false;
  match r with
  | inl pid => onm (release c ptable_lock) ;; mret (Some pid)
  | inr havekids =>
      cur ← pget curproc;
      if negb havekids || negb (killed cur =? 0) then
        onm (release c ptable_lock) ;; mret (Some (-1))
      else
        sleep c (chan_of curproc) ptable_lock K_wait ;; mret None
  end.

Definition wait (c : nat) : M kst (option Z) :=
  curproc ← onm (myproc c);
  onm (acquire c ptable_lock) ;;
  wait_turn c curproc.

Definition forkret (c : nat) : M kst unit :=
  onm (release c ptable_lock) ;;
  f ← gets first;
  when f (modify (set_first false) ;; one iinit ;; one initlog).

(** [swtch(&(c->scheduler), p->context)]: the process goes on after the call
    to [sched] it made last.  The result is [wait]'s, if it was in [wait]. *)
Definition resume (c : nat) (p : ptr) : M kst (option Z) :=
  pr ← pget p;
  match context pr with
  | K_forkret => forkret c ;; mret None
  | K_yield i => onm (set_intena c i) ;; onm (release c ptable_lock) ;; mret None
  | K_sleep lk i => onm (set_intena c i) ;; sleep_return c p lk ;; mret None
  | K_wait i => onm (set_intena c i) ;; sleep_return c p ptable_lock ;; wait_turn c p
  | K_exit i => onm (set_intena c i) ;; panic "zombie exit"
  end.

(** The queue [scheduler] takes its next process from. *)
Definition scheduler_pick : M kst (option ptr) :=
  e0 ← queue_is_empty (LQ 0);
  if negb e0 then p ← dequeue (LQ 0); mret (Some p) else
  e1 ← queue_is_empty (LQ 1);
  if negb e1 then p ← dequeue (LQ 1); mret (Some p) else
  e2 ← queue_is_empty (LQ 2);
  if negb e2 then p ← dequeue (LQ 2); mret (Some p) else
  mret None.

(** An iteration of [scheduler]'s loop, up to and including the [swtch]. *)
Definition scheduler_enter (c : nat) : M kst (option Z) :=
  onm (sti c) ;;
  onm (acquire c ptable_lock) ;;
  r ← scheduler_pick;
  match r with
  | None => onm (release c ptable_lock) ;; mret None
  | Some p =>
      onm (modify (set_cproc c p)) ;;
      switchuvm c p ;;
      pset p (set_state RUNNING) ;;
      resume c p
  end.

(** ** The MLFQ system calls *)

Definition mlfqunlock (c : nat) : M kst unit :=
  p ← onm (myproc c);
  l ← gets lockproc;
  when (negb (ptr_eqb l None))
    (modify (set_lockproc None) ;;
     modify (set_unlockproc p) ;;
     pset p (set_queuelevel 0) ;;
     pset p (set_priority 3) ;;
     pset p (set_ticks 0)).

Definition mlfqlock (c : nat) : M kst unit :=
  p ← onm (myproc c);
  l ← gets lockproc;
  when (ptr_eqb l None)
    (modify (set_lockproc p) ;;
     modify (set_global_ticks 0)).

(** The last process of the table with this pid: the loop has no [break]. *)
Fixpoint last_with_pid (ps : list nat) (pid0 : Z) (p : ptr) : M kst ptr :=
  match ps with
  | [] => mret p
  | tmp :: ps =>
      pr ← pget (Some tmp);
      last_with_pid ps pid0 (if pid pr =? pid0 then Some tmp else p)
  end.

Definition setPrioity_arrangeQueue (c : nat) (pid prio : Z) : M kst unit :=
  onm (acquire c ptable_lock) ;;
  p ← last_with_pid proc_table pid None;
  (if ptr_eqb p None then mret tt
   else
     pr ← pget p;
     if bool_decide (state pr = UNUSED) then mret tt
     else
       pset p (set_priority prio) ;;
       pr ← pget p;
       if (queuelevel pr =? 2) && bool_decide (state pr = RUNNABLE) then
         base ← higherpriority_proc p;
         delete (LQ 2) p ;;
         insert (LQ 2) p base
       else mret tt) ;;
  onm (release c ptable_lock).

Fixpoint kill_scan (c : nat) (ps : list nat) (pid0 : Z) : M kst Z :=
  match ps with
  | [] => onm (release c ptable_lock) ;; mret (-1)
  | p :: ps =>
      pr ← pget (Some p);
      if pid pr =? pid0 then
        pset (Some p) (set_killed 1) ;;
        pr ← pget (Some p);
        when (bool_decide (state pr = SLEEPING))
          (pset (Some p) (set_state RUNNABLE) ;;
           delete SleepQ (Some p) ;;
           enqueue_level (Some p)) ;;
        onm (release c ptable_lock) ;;
        mret 0
      else kill_scan c ps pid0
  end.

Definition kill (c : nat) (pid : Z) : M kst Z :=
  onm (acquire c ptable_lock) ;;
  kill_scan c proc_table pid.

Definition scheduler_password : Z := 2017029416.

Definition schedulerLock (c : nat) (password : Z) : M kst unit :=
  p ← onm (myproc c);
  if negb (password =? scheduler_password) then
    pget p ;; exit c
  else
    onm (acquire c ptable_lock) ;;
    mlfqlock c ;;
    onm (release c ptable_lock).

Definition schedulerUnlock (c : nat) (password : Z) : M kst unit :=
  p ← onm (myproc c);
  if negb (password =? scheduler_password) then
    pget p ;; exit c
  else
    onm (acquire c ptable_lock) ;;
    mlfqunlock c ;;
    onm (release c ptable_lock).
End Mlfq.
