(* ===== verification/MlfqView.v ===== *)
(** * The abstract view of the MLFQ state

    An abstract state is a kernel state whose processes have no links and
    whose queues are lists.  [R s A] relates the kernel state [s] to the
    abstract state [A]; one rule per operation of [Queue] and [Mlfq] executes
    it on the abstract state.  Clients never look at a pointer. *)

From S2P Require Export Mlfq.
Local Open Scope Z_scope.

Section View.
Context {KE : KernelEnv}.

(** [aproc]: [kst] with the links erased and no queues; [aq]: the queues. *)
Record ast := mkAst { abase : kst; aq : qid → list nat }.

Definition valid_q (q : qid) : Prop :=
  match q with LQ i => (i < NQUEUE)%nat | _ => True end.

Record reps (s : kst) (a : qid → list nat) : Prop := {
  rp_valid : ∀ q, is_Some (queues s !! q) ↔ valid_q q;
  rp_rep : ∀ q qv, queues s !! q = Some qv → queue_rep (procs s) qv (a q);
  rp_none : ∀ q, ¬ valid_q q → a q = [];
  rp_disj : ∀ q q' x, x ∈ a q → x ∈ a q' → q = q'
}.

Definition abs_of (s : kst) : kst := set_pq (data (procs s)) ∅ s.

Definition R (s : kst) (A : ast) : Prop := reps s (aq A) ∧ abase A = abs_of s.

Definition aprocs (A : ast) : gmap nat proc := procs (abase A).
Definition aput (i : nat) (p : proc) (A : ast) : ast :=
  mkAst (set_procs (<[i := p]> (aprocs A)) (abase A)) (aq A).
Definition aset (q : qid) (l : list nat) (A : ast) : ast :=
  mkAst (abase A) (<[q := l]> (aq A)).
Definition amod (f : kst → kst) (A : ast) : ast := mkAst (f (abase A)) (aq A).

(** On no queue. *)
Definition off (x : nat) (A : ast) : Prop := ∀ q, x ∉ aq A q.

Lemma abs_of_frame s s' :
  s' = set_pq (procs s') (queues s') s → data (procs s') = data (procs s) → abs_of s' = abs_of s.
Proof. intros Hf Hd. unfold abs_of. rewrite Hd, Hf. reflexivity. Qed.

Lemma R_procs s A i d : R s A → aprocs A !! i = Some d → ∃ p, procs s !! i = Some p ∧ unlink p = d.
Proof. intros [_ E] H. unfold aprocs in H. rewrite E in H. by apply data_lookup in H. Qed.

Lemma R_aprocs s A i p : R s A → procs s !! i = Some p → aprocs A !! i = Some (unlink p).
Proof. intros [_ E] H. unfold aprocs. rewrite E. apply data_lookup. eauto. Qed.

Lemma R_queue s A q : R s A → valid_q q → ∃ qv, queues s !! q = Some qv ∧ queue_rep (procs s) qv (aq A q).
Proof. intros [Hr _] [qv Hq]%(rp_valid _ _ Hr). eauto using rp_rep. Qed.

Lemma R_elem s A q x : R s A → x ∈ aq A q → valid_q q ∧ is_Some (procs s !! x).
Proof.
  intros [Hr _] Hx. assert (valid_q q) as Hv.
  { destruct (decide (is_Some (queues s !! q))) as [?|Hn]; [by apply (rp_valid _ _ Hr)|].
    exfalso. rewrite (rp_none _ _ Hr) in Hx; [by apply elem_of_nil in Hx|].
    intros ?%(rp_valid _ _ Hr). done. }
  split; [done|]. destruct (proj2 (rp_valid _ _ Hr q) Hv) as [qv Hq].
  eapply dll_elem; [apply (rp_rep _ _ Hr _ _ Hq)|done].
Qed.

Lemma R_nodup s A q : R s A → NoDup (aq A q).
Proof.
  intros HR. destruct (decide (is_Some (queues s !! q))) as [[qv Hq]|Hn].
  - apply (rp_rep _ _ (proj1 HR) _ _ Hq).
  - rewrite (rp_none _ _ (proj1 HR)); [constructor|]. by intros ?%(rp_valid _ _ (proj1 HR)).
Qed.

(** ** Rules for accesses outside the queues *)

(** A field assignment that does not touch the links. *)
Definition data_upd (f : proc → proc) : Prop :=
  ∀ p, unlink (f p) = f (unlink p) ∧ prev (f p) = prev p ∧ next (f p) = next p.

(** The fields other than links, read through the abstract state. *)
Lemma unlink_fields p d : unlink p = d →
  sz p = sz d ∧ pgdir p = pgdir d ∧ kstack p = kstack d ∧ state p = state d ∧ pid p = pid d ∧
  parent p = parent d ∧ tf p = tf d ∧ context p = context d ∧ pchan p = pchan d ∧
  killed p = killed d ∧ ofile p = ofile d ∧ cwd p = cwd d ∧ name p = name d ∧
  priority p = priority d ∧ queuelevel p = queuelevel d ∧ ticks p = ticks d.
Proof. intros <-. by repeat split. Qed.

Section RRules.
Context (t : bool) (s : kst) (A : ast) (HR : R s A).

Lemma R_pget i d (Q : proc → kst → Prop) :
  aprocs A !! i = Some d → (∀ p, unlink p = d → Q p s) → wpg t (pget (Some i)) Q s.
Proof.
  intros H HQ. destruct (R_procs _ _ _ _ HR H) as (p & Hp & Hd).
  rewrite (kst_pq s). eapply wpg_pget; [done|]. rewrite <- kst_pq. eauto.
Qed.

Lemma reps_links ps s' (a : qid → list nat) :
  reps s a → queues s' = queues s → procs s' = ps →
  (∀ q x, x ∈ a q → links ps x = links (procs s) x) → reps s' a.
Proof.
  intros [] Eq Ep Hl. split; rewrite ?Eq; [done| |done..].
  intros q qv Hq. rewrite Ep. eapply queue_rep_frame; [|by eauto]. eauto.
Qed.

Lemma R_pset i d f (Q : unit → kst → Prop) :
  data_upd f → aprocs A !! i = Some d →
  (∀ s', R s' (aput i (f d) A) → Q tt s') → wpg t (pset (Some i) f) Q s.
Proof.
  intros Hf H HQ. destruct (R_procs _ _ _ _ HR H) as (p & Hp & <-).
  rewrite (kst_pq s). eapply wpg_pset; [done|]. apply HQ. split.
  - eapply reps_links; [exact (proj1 HR)|done|done|].
    intros q x _. cbn. destruct (decide (x = i)) as [->|].
    + rewrite links_insert_eq, (links_lookup _ _ _ Hp). by destruct (Hf p) as (_ & -> & ->).
    + by rewrite links_insert_ne.
  - unfold aput, aprocs, abs_of; cbn. rewrite (proj2 HR). unfold abs_of, data; cbn.
    rewrite fmap_insert. by rewrite (proj1 (Hf p)).
Qed.

(** Clearing the links of a process that is on no queue. *)
Lemma R_pset_links i f (Q : unit → kst → Prop) :
  (∀ p, unlink (f p) = unlink p) → off i A → is_Some (aprocs A !! i) →
  (∀ s', R s' A → Q tt s') → wpg t (pset (Some i) f) Q s.
Proof.
  intros Hf Hoff [d H] HQ. destruct (R_procs _ _ _ _ HR H) as (p & Hp & <-).
  rewrite (kst_pq s). eapply wpg_pset; [done|]. apply HQ. split.
  - eapply reps_links; [exact (proj1 HR)|done|done|].
    intros q x Hx. cbn. rewrite links_insert_ne; [done|]. intros ->. by eapply Hoff.
  - rewrite (proj2 HR). unfold abs_of. cbn. unfold set_pq; cbn.
    by rewrite (data_insert _ _ _ _ Hp).
Qed.

(** A change of the rest of the state. *)
Lemma R_modify f (Q : unit → kst → Prop) :
  procs (f s) = procs s → queues (f s) = queues s → abs_of (f s) = f (abs_of s) →
  (∀ s', R s' (amod f A) → Q tt s') → wpg t (modify f) Q s.
Proof.
  intros Hp Hq Ha HQ. apply HQ. split.
  - destruct (proj1 HR). cbn. split; rewrite ?Hp, ?Hq; eauto.
  - cbn. by rewrite (proj2 HR), Ha.
Qed.

Lemma R_gets {B} (f : kst → B) (Q : B → kst → Prop) :
  f (abs_of s) = f s → Q (f (abase A)) s → wpg t (gets f) Q s.
Proof. intros E HQ. unfold wpg, gets. rewrite <- E. by rewrite (proj2 HR) in HQ. Qed.

Lemma R_onm {B} (m : M mach B) (Q : B → kst → Prop) :
  wpg t m (λ b m', ∀ s', R s' (amod (set_kmach m') A) → Q b s') (kmach (abase A)) →
  wpg t (onm m) Q s.
Proof.
  intros H. apply wpg_zoom. rewrite (proj2 HR) in H. cbn in H.
  eapply wpg_mono; [exact H|]. cbn. intros b m' HQ. apply HQ. split.
  - destruct (proj1 HR). by split.
  - cbn. by rewrite (proj2 HR).
Qed.

Lemma R_one {B} (m : M env B) (Q : B → kst → Prop) :
  wpg t m (λ b e', ∀ s', R s' (amod (set_kenv e') A) → Q b s') (kenv (abase A)) →
  wpg t (one m) Q s.
Proof.
  intros H. apply wpg_zoom. rewrite (proj2 HR) in H. cbn in H.
  eapply wpg_mono; [exact H|]. cbn. intros b m' HQ. apply HQ. split.
  - destruct (proj1 HR). by split.
  - cbn. by rewrite (proj2 HR).
Qed.

(** ** Rules for the queue operations *)

Lemma reps_qstep q S l s' :
  valid_q q → qstep q S l s s' →
  (∀ x q', q' ≠ q → x ∈ S → x ∉ aq A q') → (∀ x, x ∈ l → x ∈ S) →
  R s' (aset q l A).
Proof.
  intros Hv [Hf Hd Ho Hl (qv & Hqv & Hrep)] HS HlS. destruct HR as [[Hval Hrp Hnone Hdis] Hb].
  split; [split|]; cbn.
  - intros q'. destruct (decide (q' = q)) as [->|Hne]; [|by rewrite Ho].
    rewrite Hqv. split; eauto.
  - intros q' qv' Hq'. destruct (decide (q' = q)) as [->|Hne].
    + rewrite fn_lookup_insert. by simplify_eq.
    + rewrite fn_lookup_insert_ne by done. rewrite Ho in Hq' by done.
      eapply queue_rep_frame; [|by eauto]. intros x Hx. apply Hl. intros HxS.
      by eapply HS.
  - intros q' Hq'. rewrite fn_lookup_insert_ne by (by intros ->). by apply Hnone.
  - intros q1 q2 x. destruct (decide (q1 = q)) as [->|]; destruct (decide (q2 = q)) as [->|];
      rewrite ?fn_lookup_insert, ?fn_lookup_insert_ne by done; [done| | |by eauto].
    + intros Hx Hx2. exfalso. eapply HS; eauto.
    + intros Hx2 Hx. exfalso. eapply HS; eauto.
  - cbn. rewrite Hb. symmetry. by apply abs_of_frame.
Qed.

Lemma R_disj q q' x : x ∈ aq A q → q' ≠ q → x ∉ aq A q'.
Proof. intros H Hne H'. apply Hne. by eapply (rp_disj _ _ (proj1 HR)). Qed.

Lemma R_queue_is_empty q (Q : bool → kst → Prop) :
  valid_q q → Q (bool_decide (aq A q = [])) s → wpg t (queue_is_empty q) Q s.
Proof.
  intros Hv HQ. destruct (R_queue _ _ _ HR Hv) as (qv & Hq & Hr).
  rewrite (kst_pq s). eapply wpg_queue_is_empty; [done..|]. by rewrite <- kst_pq.
Qed.

Lemma R_insert_end q new (Q : unit → kst → Prop) :
  valid_q q → off new A → is_Some (aprocs A !! new) →
  (∀ s', R s' (aset q (aq A q ++ [new]) A) → Q tt s') → wpg t (insert q (Some new) None) Q s.
Proof.
  intros Hv Hoff [d Hd] HQ. destruct (R_queue _ _ _ HR Hv) as (qv & Hq & Hr).
  destruct (R_procs _ _ _ _ HR Hd) as (p & Hp & _).
  eapply wpg_mono; [eapply insert_end_wp; eauto|]. cbn. intros [] s' Hs. apply HQ.
  eapply reps_qstep; [done|exact Hs| |].
  - intros x q' Hne [->|Hx]%elem_of_cons; [done|]. by eapply R_disj.
  - intros x. set_solver.
Qed.

Lemma R_insert_before q new b l1 l2 (Q : unit → kst → Prop) :
  valid_q q → off new A → is_Some (aprocs A !! new) → aq A q = l1 ++ b :: l2 →
  (∀ s', R s' (aset q (l1 ++ new :: b :: l2) A) → Q tt s') →
  wpg t (insert q (Some new) (Some b)) Q s.
Proof.
  intros Hv Hoff [d Hd] Hl HQ. destruct (R_queue _ _ _ HR Hv) as (qv & Hq & Hr).
  destruct (R_procs _ _ _ _ HR Hd) as (p & Hp & _). rewrite Hl in Hr.
  eapply wpg_mono.
  - eapply insert_before_wp; eauto. rewrite <- Hl. apply Hoff.
  - cbn. intros [] s' Hs. apply HQ. eapply reps_qstep; [done|exact Hs| |].
    + intros x q' Hne [->|Hx]%elem_of_cons; [done|]. rewrite <- Hl in Hx. by eapply R_disj.
    + intros x. rewrite elem_of_cons, !elem_of_app, !elem_of_cons. naive_solver.
Qed.

Lemma R_delete q x l1 l2 (Q : unit → kst → Prop) :
  valid_q q → aq A q = l1 ++ x :: l2 →
  (∀ s', R s' (aset q (l1 ++ l2) A) → Q tt s') → wpg t (delete q (Some x)) Q s.
Proof.
  intros Hv Hl HQ. destruct (R_queue _ _ _ HR Hv) as (qv & Hq & Hr). rewrite Hl in Hr.
  eapply wpg_mono; [eapply delete_wp; eauto|]. cbn. intros [] s' [Hs _]. apply HQ.
  eapply reps_qstep; [done|exact Hs| |].
  - intros y q' Hne Hy. rewrite <- Hl in Hy. by eapply R_disj.
  - intros y. rewrite !elem_of_app, !elem_of_cons. naive_solver.
Qed.

Lemma R_dequeue q x l (Q : ptr → kst → Prop) :
  valid_q q → aq A q = x :: l →
  (∀ s', R s' (aset q l A) → Q (Some x) s') → wpg t (dequeue q) Q s.
Proof.
  intros Hv Hl HQ. destruct (R_queue _ _ _ HR Hv) as (qv & Hq & Hr). rewrite Hl in Hr.
  eapply wpg_mono; [eapply dequeue_wp; eauto|]. cbn. intros r s' (-> & Hs & _). apply HQ.
  eapply reps_qstep; [done|exact Hs| |].
  - intros y q' Hne Hy. rewrite <- Hl in Hy. by eapply R_disj.
  - intros y Hy. apply elem_of_cons. by right.
Qed.

Lemma R_dequeue_empty q (Q : ptr → kst → Prop) :
  valid_q q → aq A q = [] → Q None s → wpg t (dequeue q) Q s.
Proof.
  intros Hv Hl HQ. destruct (R_queue _ _ _ HR Hv) as (qv & Hq & Hr). rewrite Hl in Hr.
  by eapply dequeue_empty_wp.
Qed.

Lemma R_merge_queue q1 q2 (Q : qid → kst → Prop) :
  valid_q q1 → valid_q q2 → q1 ≠ q2 →
  (∀ s', R s' (aset q2 [] (aset q1 (aq A q1 ++ aq A q2) A)) → Q q1 s') →
  wpg t (merge_queue q1 q2) Q s.
Proof.
  intros Hv1 Hv2 Hne HQ.
  destruct (R_queue _ _ _ HR Hv1) as (w1 & Hq1 & Hr1).
  destruct (R_queue _ _ _ HR Hv2) as (w2 & Hq2 & Hr2).
  eapply wpg_mono; [eapply merge_queue_wp; eauto|].
  { intros x Hx. by eapply R_disj. }
  cbn. intros r s' (-> & Hf & Hd & Ho & Hl & (u1 & Hu1 & Hu1r) & (u2 & Hu2 & Hu2r)). apply HQ.
  destruct HR as [[Hval Hrp Hnone Hdis] Hb]. split; [split|]; cbn.
  - intros q. destruct (decide (q = q1)) as [->|]; [rewrite Hu1; split; eauto|].
    destruct (decide (q = q2)) as [->|]; [rewrite Hu2; split; eauto|]. by rewrite Ho.
  - intros q qv Hq. destruct (decide (q = q2)) as [->|].
    { rewrite fn_lookup_insert. by simplify_eq. }
    rewrite fn_lookup_insert_ne by done. destruct (decide (q = q1)) as [->|].
    { rewrite fn_lookup_insert. by simplify_eq. }
    rewrite fn_lookup_insert_ne by done. rewrite Ho in Hq by done.
    eapply queue_rep_frame; [|by eauto]. intros x Hx.
    apply Hl; intros Hx'; [by assert (q = q1) by eauto|by assert (q = q2) by eauto].
  - intros q Hq. rewrite !fn_lookup_insert_ne; [by apply Hnone|by intros ->..].
  - assert (∀ q x, x ∈ (<[q2:=[]]> (<[q1:=aq A q1 ++ aq A q2]> (aq A))) q →
              (q = q1 ∧ (x ∈ aq A q1 ∨ x ∈ aq A q2)) ∨ (q ≠ q1 ∧ q ≠ q2 ∧ x ∈ aq A q)) as Hcase.
    { intros q x. destruct (decide (q = q2)) as [->|].
      { rewrite fn_lookup_insert. by intros ?%elem_of_nil. }
      rewrite fn_lookup_insert_ne by done. destruct (decide (q = q1)) as [->|].
      - rewrite fn_lookup_insert, elem_of_app. auto.
      - rewrite fn_lookup_insert_ne by done. auto. }
    intros q q' x Hx Hx'. apply Hcase in Hx, Hx'. naive_solver.
  - cbn. rewrite Hb. symmetry. by apply abs_of_frame.
Qed.

(** [mlfq....head] of a queue. *)
Lemma R_qget_head q (Q : queue → kst → Prop) :
  valid_q q → (∀ qv, head qv = hd_or (aq A q) None → Q qv s) → wpg t (qget q) Q s.
Proof.
  intros Hv HQ. destruct (R_queue _ _ _ HR Hv) as (qv & Hq & Hr).
  rewrite (kst_pq s). eapply wpg_qget; [done|]. rewrite <- kst_pq. apply HQ, Hr.
Qed.

(** The cell of a process inside a queue: its data and its successor. *)
Lemma R_pget_link q l1 x l2 (Q : proc → kst → Prop) :
  aq A q = l1 ++ x :: l2 →
  (∀ p, aprocs A !! x = Some (unlink p) → next p = hd_or l2 None → Q p s) →
  wpg t (pget (Some x)) Q s.
Proof.
  intros Hl HQ. assert (x ∈ aq A q) as Hx by (rewrite Hl; set_solver).
  destruct (R_elem _ _ _ _ HR Hx) as [Hv _].
  destruct (R_queue _ _ _ HR Hv) as (qv & Hq & Hr). rewrite Hl in Hr.
  pose proof (qr_dll _ _ _ Hr) as [_ [Hd _]]%dll_app.
  apply links_Some in Hd as (p & Hp & _ & Hn).
  rewrite (kst_pq s). eapply wpg_pget; [done|]. rewrite <- kst_pq.
  apply HQ; [by eapply R_aprocs|done].
Qed.
End RRules.

(** ** Rules for the scans *)

(** The process table is [ptable.proc[NPROC]]. *)
Definition table_ok (A : ast) : Prop := ∀ i, is_Some (aprocs A !! i) ↔ (i < NPROC)%nat.

Lemma table_ok_aput i p A : table_ok A → (i < NPROC)%nat → table_ok (aput i p A).
Proof.
  intros H Hi j. unfold aput, aprocs; cbn. destruct (decide (j = i)) as [->|].
  - rewrite lookup_insert_eq. split; eauto.
  - rewrite lookup_insert_ne by done. apply H.
Qed.

Lemma NoDup_bounded (l : list nat) n : NoDup l → (∀ x, x ∈ l → (x < n)%nat) → (length l ≤ n)%nat.
Proof.
  intros Hnd Hl. rewrite <- (length_seq n 0). apply submseteq_length, NoDup_submseteq; [done|].
  intros x Hx%Hl. apply elem_of_seq. lia.
Qed.

Lemma R_length s A q : R s A → table_ok A → (length (aq A q) ≤ NPROC)%nat.
Proof.
  intros HR Ht. apply NoDup_bounded; [by eapply R_nodup|]. intros x Hx.
  apply Ht. destruct (R_elem _ _ _ _ HR Hx) as [_ [p Hp]].
  rewrite (R_aprocs _ _ _ _ HR Hp). eauto.
Qed.

Definition prio_of (ps : gmap nat proc) (x : nat) : Z := from_option priority 0 (ps !! x).

(** The first process of [l] whose priority value exceeds [pri]. *)
Fixpoint first_above (ps : gmap nat proc) (pri : Z) (l : list nat) : ptr :=
  match l with
  | [] => None
  | x :: l' => if prio_of ps x >? pri then Some x else first_above ps pri l'
  end.

(** [x] inserted in front of that process. *)
Fixpoint ins_prio (ps : gmap nat proc) (pri : Z) (x : nat) (l : list nat) : list nat :=
  match l with
  | [] => [x]
  | y :: l' => if prio_of ps y >? pri then x :: y :: l' else y :: ins_prio ps pri x l'
  end.

Lemma first_above_split ps pri l :
  match first_above ps pri l with
  | Some b => ∃ l1 l2, l = l1 ++ b :: l2 ∧ ∀ x, ins_prio ps pri x l = l1 ++ x :: b :: l2
  | None => ∀ x, ins_prio ps pri x l = l ++ [x]
  end.
Proof.
  induction l as [|y l IH]; cbn; [done|].
  destruct (prio_of ps y >? pri); [by exists [], l|].
  destruct (first_above ps pri l) as [b|].
  - destruct IH as (l1 & l2 & -> & Hx). exists (y :: l1), l2. split; [done|].
    intros x. by rewrite Hx.
  - intros x. by rewrite IH.
Qed.

Lemma ins_prio_elem ps pri x l y : y ∈ ins_prio ps pri x l ↔ y = x ∨ y ∈ l.
Proof.
  induction l as [|z l IH]; cbn; [set_solver|].
  destruct (prio_of ps z >? pri); set_solver.
Qed.

Section ScanRules.
Context (t : bool).

Lemma R_hp_scan s A q l1 l2 fuel pri (Q : ptr → kst → Prop) :
  R s A → aq A q = l1 ++ l2 → (length l2 < fuel)%nat →
  Q (first_above (aprocs A) pri l2) s → wpg t (hp_scan fuel (hd_or l2 None) pri) Q s.
Proof.
  intros HR. revert l1 fuel. induction l2 as [|x l2 IH]; intros l1 fuel Hl Hf HQ;
    (destruct fuel as [|fuel]; [cbn in Hf; lia|]); cbn [hp_scan hd_or].
  - rewrite ptr_eqb_true by done. by apply wpg_ret.
  - rewrite ptr_eqb_false by done. apply wpg_bind. eapply R_pget_link; [done..|].
    intros p Hp Hn. cbn in HQ. unfold prio_of in HQ. rewrite Hp in HQ. cbn in HQ.
    destruct (priority p >? pri); [by apply wpg_ret|]. rewrite Hn.
    apply (IH (l1 ++ [x])); [by rewrite <- app_assoc|cbn in Hf; lia|done].
Qed.

Lemma R_higherpriority_proc s A i d (Q : ptr → kst → Prop) :
  R s A → table_ok A → aprocs A !! i = Some d →
  Q (first_above (aprocs A) (priority d) (aq A (LQ 2))) s →
  wpg t (higherpriority_proc (Some i)) Q s.
Proof.
  intros HR Ht Hd HQ. apply wpg_bind. eapply R_qget_head; [done|unfold valid_q, NQUEUE; lia|].
  intros qv Hh. apply wpg_bind. eapply R_pget; [done..|]. intros p Hp. rewrite Hh.
  eapply (R_hp_scan _ _ _ []); [done..| |].
  - pose proof (R_length _ _ (LQ 2) HR Ht). unfold scan_fuel. lia.
  - by assert (priority p = priority d) as -> by (by subst d).
Qed.

(** Insertion in queue 2 at the place [higherpriority_proc] finds. *)
Lemma R_insert_prio s A i d (Q : unit → kst → Prop) :
  R s A → aprocs A !! i = Some d → off i A →
  (∀ s', R s' (aset (LQ 2) (ins_prio (aprocs A) (priority d) i (aq A (LQ 2))) A) → Q tt s') →
  wpg t (insert (LQ 2) (Some i) (first_above (aprocs A) (priority d) (aq A (LQ 2)))) Q s.
Proof.
  intros HR Hd Hoff HQ.
  pose proof (first_above_split (aprocs A) (priority d) (aq A (LQ 2))) as Hs.
  destruct (first_above _ _ _) as [b|].
  - destruct Hs as (l1 & l2 & Hl & Hx). eapply R_insert_before; eauto.
    { unfold valid_q, NQUEUE; lia. }
    by rewrite <- Hx.
  - eapply R_insert_end; eauto; [unfold valid_q, NQUEUE; lia|]. by rewrite <- Hs.
Qed.

(** *** Entering the queue of one's level *)

Definition enq (x : nat) (A : ast) : ast :=
  match aprocs A !! x with
  | Some d =>
      if queuelevel d =? 2
      then aset (LQ 2) (ins_prio (aprocs A) (priority d) x (aq A (LQ 2))) A
      else aset (l_queue (queuelevel d)) (aq A (l_queue (queuelevel d)) ++ [x]) A
  | None => A
  end.

Definition level_ok (d : proc) : Prop := 0 ≤ queuelevel d ≤ 2.

Lemma l_queue_valid d : level_ok d → valid_q (l_queue (queuelevel d)).
Proof.
  unfold level_ok, l_queue, valid_q, NQUEUE. intros H.
  destruct (Z.ltb_spec (queuelevel d) 0); lia.
Qed.

Lemma R_enqueue_level s A x d (Q : unit → kst → Prop) :
  R s A → table_ok A → aprocs A !! x = Some d → off x A → level_ok d →
  (∀ s', R s' (enq x A) → Q tt s') → wpg t (enqueue_level (Some x)) Q s.
Proof.
  intros HR Ht Hd Hoff Hlv HQ. unfold enq in HQ. rewrite Hd in HQ.
  apply wpg_bind. eapply R_pget; [done..|]. intros p Hp.
  assert (queuelevel p = queuelevel d) as E by (by subst d). rewrite E.
  destruct (Z.eqb_spec (queuelevel d) 2) as [E2|].
  - apply wpg_bind. eapply R_higherpriority_proc; [done..|].
    rewrite E2. eapply R_insert_prio; eauto.
  - eapply R_insert_end; eauto. by apply l_queue_valid.
Qed.

(** *** [wakeup1] *)

Definition wake (x : nat) (d : proc) (A : ast) : ast := enq x (aput x (set_state RUNNABLE d) A).

(** [kept]: the sleepers already passed over. *)
Fixpoint wake_list (ch : chan) (kept l : list nat) (A : ast) : ast :=
  match l with
  | [] => A
  | x :: l' =>
      match aprocs A !! x with
      | Some d =>
          if bool_decide (pchan d = ch)
          then wake_list ch kept l' (wake x d (aset SleepQ (kept ++ l') A))
          else wake_list ch (kept ++ [x]) l' A
      | None => A
      end
  end.

Definition awakeup (ch : chan) (A : ast) : ast := wake_list ch [] (aq A SleepQ) A.

Definition levels_ok (A : ast) : Prop := ∀ x d, aprocs A !! x = Some d → level_ok d.

Lemma aprocs_enq x A : aprocs (enq x A) = aprocs A.
Proof. unfold enq. destruct (aprocs A !! x); [|done]. by destruct (_ =? 2). Qed.

Lemma aq_enq_other x A q : (∀ k, q ≠ LQ k) → aq (enq x A) q = aq A q.
Proof.
  intros Hq. unfold enq. destruct (aprocs A !! x); [|done].
  destruct (_ =? 2); cbn; by rewrite fn_lookup_insert_ne by (by intros <-; eapply Hq).
Qed.

Lemma wake_table x d A : table_ok A → aprocs A !! x = Some d → table_ok (wake x d A).
Proof.
  intros Ht Hd. unfold wake, table_ok. rewrite aprocs_enq. apply table_ok_aput; [done|].
  apply Ht. eauto.
Qed.

Lemma wake_levels x d A : levels_ok A → aprocs A !! x = Some d → levels_ok (wake x d A).
Proof.
  intros Hl Hd y e. unfold wake. rewrite aprocs_enq. unfold aput, aprocs; cbn.
  destruct (decide (y = x)) as [->|].
  - rewrite lookup_insert_eq. intros [= <-]. change (level_ok d). by eapply Hl.
  - rewrite lookup_insert_ne by done. apply Hl.
Qed.

Lemma R_wakeup_scan ch s A kept l fuel (Q : unit → kst → Prop) :
  R s A → table_ok A → levels_ok A → aq A SleepQ = kept ++ l → (length l < fuel)%nat →
  (∀ s', R s' (wake_list ch kept l A) → Q tt s') →
  wpg t (wakeup_scan fuel (hd_or l None) ch) Q s.
Proof.
  revert s A kept fuel. induction l as [|x l IH]; intros s A kept fuel HR Ht Hlv Hl Hf HQ;
    (destruct fuel as [|fuel]; [cbn in Hf; lia|]); cbn [wakeup_scan hd_or].
  - rewrite ptr_eqb_true by done. by apply wpg_ret, HQ.
  - rewrite ptr_eqb_false by done. apply wpg_bind. eapply R_pget_link; [done..|].
    intros p Hp Hn. rewrite Hn. cbn [wake_list] in HQ. rewrite Hp in HQ.
    change (pchan (unlink p)) with (pchan p) in HQ.
    apply wpg_bind. destruct (bool_decide (pchan p = ch)).
    + apply wpg_bind. eapply R_delete; [done|done|exact Hl|]. intros s1 HR1.
      assert (aprocs (aset SleepQ (kept ++ l) A) !! x = Some (unlink p)) as Hx by exact Hp.
      assert (off x (aset SleepQ (kept ++ l) A)) as Hoff.
      { intros q. unfold aset; cbn. destruct (decide (q = SleepQ)) as [->|Hne].
        - rewrite fn_lookup_insert. pose proof (R_nodup _ _ SleepQ HR) as Hnd. rewrite Hl in Hnd.
          apply NoDup_app in Hnd as (_ & Hk & [Hxl _]%NoDup_cons). set_solver.
        - rewrite fn_lookup_insert_ne by done. eapply R_disj; [done|rewrite Hl; set_solver|done]. }
      apply wpg_bind. eapply R_pset; [exact HR1|by intros ?|exact Hx|]. intros s2 HR2.
      assert (table_ok (aput x (set_state RUNNABLE (unlink p)) (aset SleepQ (kept ++ l) A))).
      { apply table_ok_aput; [exact Ht|]. apply Ht. eauto. }
      eapply (R_enqueue_level _ _ x (set_state RUNNABLE (unlink p))); [exact HR2|done| |exact Hoff|change (level_ok (unlink p)); by eapply Hlv|].
      { unfold aput, aprocs; cbn. apply lookup_insert_eq. }
      intros s3 HR3. eapply IH; [exact HR3| | | |cbn in Hf; lia|exact HQ].
      * by apply wake_table.
      * by apply wake_levels.
      * change (aq (enq x (aput x (set_state RUNNABLE (unlink p)) (aset SleepQ (kept ++ l) A))) SleepQ = kept ++ l).
        rewrite aq_enq_other by done. cbn. apply fn_lookup_insert.
    + apply wpg_ret. eapply (IH _ _ (kept ++ [x])); [done..| |cbn in Hf; lia|done].
      by rewrite <- app_assoc.
Qed.

Lemma R_wakeup1 ch s A (Q : unit → kst → Prop) :
  R s A → table_ok A → levels_ok A →
  (∀ s', R s' (awakeup ch A) → Q tt s') → wpg t (wakeup1 ch) Q s.
Proof.
  intros HR Ht Hlv HQ. apply wpg_bind. eapply R_qget_head; [done..|]. intros qv ->.
  eapply (R_wakeup_scan _ _ _ []); eauto.
  pose proof (R_length _ _ SleepQ HR Ht). unfold scan_fuel. lia.
Qed.

(** *** [priority_boosting] *)

Definition reset (d : proc) : proc := set_ticks 0 (set_priority 3 (set_queuelevel 0 d)).
Definition areset (l : list nat) (A : ast) : ast :=
  mkAst (set_procs (foldl (λ ps x, alter reset x ps) (aprocs A) l) (abase A)) (aq A).

Lemma R_reset_scan q s A l1 l2 fuel (Q : unit → kst → Prop) :
  R s A → aq A q = l1 ++ l2 → (length l2 < fuel)%nat →
  (∀ s', R s' (areset l2 A) → Q tt s') → wpg t (reset_scan fuel (hd_or l2 None)) Q s.
Proof.
  revert s A l1 fuel. induction l2 as [|x l2 IH]; intros s A l1 fuel HR Hl Hf HQ;
    (destruct fuel as [|fuel]; [cbn in Hf; lia|]); cbn [reset_scan hd_or].
  - rewrite ptr_eqb_true by done. apply wpg_ret, HQ.
    unfold areset; cbn. destruct HR as [? HA]. split; [done|]. cbn. unfold aprocs. by rewrite HA.
  - rewrite ptr_eqb_false by done.
    assert (x ∈ aq A q) as Hx by (rewrite Hl; set_solver).
    destruct (R_elem _ _ _ _ HR Hx) as [_ [p Hp]]. pose proof (R_aprocs _ _ _ _ HR Hp) as Hd.
    apply wpg_bind. eapply R_pset; [exact HR|by intros ?|exact Hd|]. intros s1 HR1.
    apply wpg_bind. eapply R_pset; [exact HR1|by intros ?|apply lookup_insert_eq|]. intros s2 HR2.
    apply wpg_bind. eapply R_pset; [exact HR2|by intros ?|apply lookup_insert_eq|]. intros s3 HR3.
    assert (R s3 (aput x (reset (unlink p)) A)) as HR3'.
    { replace (aput x (reset (unlink p)) A) with
        (aput x (set_ticks 0 (set_priority 3 (set_queuelevel 0 (unlink p))))
          (aput x (set_priority 3 (set_queuelevel 0 (unlink p)))
            (aput x (set_queuelevel 0 (unlink p)) A))); [done|].
      unfold aput, aprocs; cbn. by rewrite !insert_insert_eq. }
    apply wpg_bind. eapply R_pget_link; [exact HR3'|exact Hl|]. intros p' Hp' ->.
    eapply (IH _ _ (l1 ++ [x])); [exact HR3'|by rewrite <- app_assoc|cbn in Hf; lia|].
    intros s4 HR4. apply HQ. destruct HR4 as [Hr4 Hb4]. split; [done|]. cbn in *. rewrite <- Hb4.
    unfold set_procs. f_equal. cbn. f_equal.
    unfold aprocs, aput; cbn. apply map_eq. intros y. destruct (decide (y = x)) as [->|].
    + rewrite lookup_alter_eq. unfold aprocs in Hd. rewrite Hd. by rewrite lookup_insert_eq.
    + by rewrite lookup_alter_ne, lookup_insert_ne.
Qed.

Definition amerge (q1 q2 : qid) (A : ast) : ast :=
  aset q2 [] (aset q1 (aq A q1 ++ aq A q2) A).

Definition aboost (A : ast) : ast :=
  let A2 := amerge (LQ 0) (LQ 1) (amerge (LQ 1) (LQ 2) A) in
  let A3 := areset (aq A2 SleepQ) A2 in
  areset (aq A3 (LQ 0)) A3.

Lemma areset_table l A : table_ok A → table_ok (areset l A).
Proof.
  intros Ht i. rewrite <- (Ht i). unfold areset, aprocs; cbn.
  fold (aprocs A). generalize (aprocs A) as ps. induction l as [|x l IH]; intros ps; cbn; [done|].
  rewrite IH. destruct (decide (i = x)) as [->|].
  - rewrite lookup_alter_eq. apply fmap_is_Some.
  - by rewrite lookup_alter_ne.
Qed.

Lemma R_priority_boosting s A (Q : unit → kst → Prop) :
  R s A → table_ok A → (∀ s', R s' (aboost A) → Q tt s') → wpg t priority_boosting Q s.
Proof.
  intros HR Ht HQ. unfold priority_boosting.
  apply wpg_bind. eapply R_merge_queue; [done|unfold valid_q, NQUEUE; lia..|done|]. intros s1 HR1.
  apply wpg_bind. eapply R_merge_queue; [done|unfold valid_q, NQUEUE; lia..|done|]. intros s2 HR2.
  apply wpg_bind. eapply R_qget_head; [exact HR2|done|]. intros qv ->.
  apply wpg_bind. eapply (R_reset_scan SleepQ _ _ []); [exact HR2|done| |].
  { pose proof (R_length _ _ SleepQ HR2 Ht). unfold scan_fuel. lia. }
  intros s3 HR3.
  apply wpg_bind. eapply R_qget_head; [exact HR3|unfold valid_q, NQUEUE; lia|]. intros qv' ->.
  eapply (R_reset_scan (LQ 0) _ _ []); [exact HR3|done| |exact HQ].
  pose proof (areset_table (aq (amerge (LQ 0) (LQ 1) (amerge (LQ 1) (LQ 2) A)) SleepQ) _ Ht) as Ht3.
  pose proof (R_length _ _ (LQ 0) HR3 Ht3). unfold scan_fuel. lia.
Qed.
End ScanRules.
End View.
