(* ===== verification/MlfqInv.v ===== *)
(** * Invariant of the MLFQ kernel: queues, levels, priorities

    [QInv X A]: every process on a queue is in the state of that queue and,
    for the levels above 0, on the queue of its own level; every process that
    is unused, sleeping or runnable is on the queue of its state, except those
    of [X] (processes an operation is moving); queue 2 is sorted by priority. *)

From Stdlib Require Import Sorted.
From S2P Require Export MlfqView.
Local Open Scope Z_scope.

Section Inv.
Context {KE : KernelEnv}.

Definition fits (q : qid) (d : proc) : Prop :=
  match q with
  | UnusedQ => state d = UNUSED
  | SleepQ => state d = SLEEPING
  | LQ k => state d = RUNNABLE ∧ (k = 0%nat ∨ queuelevel d = Z.of_nat k)
  end.

Definition queued (st : procstate) : bool :=
  match st with UNUSED | SLEEPING | RUNNABLE => true | _ => false end.

(** [x] is on the queue of its state. *)
Definition home (A : ast) (x : nat) (st : procstate) : Prop :=
  match st with
  | UNUSED => x ∈ aq A UnusedQ
  | SLEEPING => x ∈ aq A SleepQ
  | RUNNABLE => ∃ k, x ∈ aq A (LQ k)
  | _ => True
  end.

Definition prio_le (ps : gmap nat proc) (x y : nat) : Prop := prio_of ps x ≤ prio_of ps y.

Record QInv (X : list nat) (A : ast) : Prop := {
  qi_table : table_ok A;
  qi_levels : levels_ok A;
  qi_fits : ∀ q x, x ∈ aq A q → ∃ d, aprocs A !! x = Some d ∧ fits q d;
  qi_home : ∀ x d, aprocs A !! x = Some d → x ∉ X → home A x (state d);
  qi_sorted : StronglySorted (prio_le (aprocs A)) (aq A (LQ 2))
}.

(** ** Queues under updates *)

Lemma aq_aset_eq q l A : aq (aset q l A) q = l.
Proof. apply fn_lookup_insert. Qed.
Lemma aq_aset_ne q q' l A : q' ≠ q → aq (aset q l A) q' = aq A q'.
Proof. intros. by apply fn_lookup_insert_ne. Qed.
Lemma aprocs_aput_eq x d A : aprocs (aput x d A) !! x = Some d.
Proof. apply lookup_insert_eq. Qed.
Lemma aprocs_aput_ne x y d A : y ≠ x → aprocs (aput x d A) !! y = aprocs A !! y.
Proof. intros. by apply lookup_insert_ne. Qed.

Lemma prio_of_ne ps x y d : y ≠ x → prio_of (<[x := d]> ps) y = prio_of ps y.
Proof. intros. unfold prio_of. by rewrite lookup_insert_ne. Qed.

Lemma sorted_ext (R R' : nat → nat → Prop) l :
  (∀ x y, x ∈ l → y ∈ l → R x y → R' x y) → StronglySorted R l → StronglySorted R' l.
Proof.
  intros HR Hs. induction Hs as [|x l Hs IH Hx]; constructor.
  - apply IH. intros y z Hy Hz. apply HR; set_solver.
  - rewrite Forall_forall in *. intros y Hy. apply HR; [set_solver..|by apply Hx].
Qed.

Lemma ins_prio_sorted ps x l :
  StronglySorted (prio_le ps) l → StronglySorted (prio_le ps) (ins_prio ps (prio_of ps x) x l).
Proof.
  induction 1 as [|y l Hs IH Hy]; cbn; [repeat constructor|].
  destruct (Z.gtb_spec (prio_of ps y) (prio_of ps x)).
  - constructor; [by constructor|]. constructor; [unfold prio_le; lia|].
    rewrite Forall_forall in *. intros z Hz. specialize (Hy z Hz). unfold prio_le in *. lia.
  - constructor; [done|]. rewrite Forall_forall in *. intros z [->|Hz]%ins_prio_elem; [|by apply Hy].
    unfold prio_le. lia.
Qed.

Lemma sorted_sublist (R : nat → nat → Prop) l1 x l2 :
  StronglySorted R (l1 ++ x :: l2) → StronglySorted R (l1 ++ l2).
Proof.
  induction l1 as [|y l1 IH]; cbn; intros Hs; apply StronglySorted_inv in Hs as [Hs Hy]; [done|].
  constructor; [by apply IH|]. rewrite Forall_forall in *. intros z Hz. apply Hy. set_solver.
Qed.

(** ** How the invariant moves *)

Lemma qinv_weaken X Y A : (∀ x, x ∈ X → x ∈ Y) → QInv X A → QInv Y A.
Proof. intros HXY []. split; eauto. Qed.

(** Anything may happen to the rest of the state. *)
Lemma qinv_amod X f A :
  (procs (f (abase A)) = procs (abase A)) → QInv X A → QInv X (amod f A).
Proof.
  intros E [Ht Hl Hf Hh Hs].
  assert (aprocs (amod f A) = aprocs A) as Ea by exact E.
  split; unfold table_ok, levels_ok; rewrite ?Ea; done.
Qed.

(** New data for a process that is on no queue. *)
Lemma qinv_put X x d A :
  (x < NPROC)%nat → off x A → level_ok d → QInv X A → QInv (x :: X) (aput x d A).
Proof.
  intros Hx Hoff Hlv [Ht Hl Hf Hh Hs]. split.
  - by apply table_ok_aput.
  - intros y e. destruct (decide (y = x)) as [->|].
    + rewrite aprocs_aput_eq. by intros [= <-].
    + rewrite aprocs_aput_ne by done. apply Hl.
  - intros q y Hy. rewrite aprocs_aput_ne; [by apply Hf|]. intros ->. by eapply Hoff.
  - intros y e Hy HyX. rewrite aprocs_aput_ne in Hy by set_solver.
    apply (Hh y e Hy). set_solver.
  - eapply sorted_ext; [|exact Hs]. intros y z Hy Hz. unfold prio_le, aput, aprocs; cbn.
    rewrite !prio_of_ne; [done|intros ->; by eapply Hoff..].
Qed.

(** New data that keeps state, level and priority. *)
Lemma qinv_put_same X x d d' A :
  aprocs A !! x = Some d → state d' = state d → queuelevel d' = queuelevel d →
  priority d' = priority d → QInv X A → QInv X (aput x d' A).
Proof.
  intros Hx Es El Ep [Ht Hl Hf Hh Hs]. split.
  - apply table_ok_aput; [done|]. apply Ht. eauto.
  - intros y e. destruct (decide (y = x)) as [->|].
    + rewrite aprocs_aput_eq. intros [= <-]. unfold level_ok. rewrite El. by eapply Hl.
    + rewrite aprocs_aput_ne by done. apply Hl.
  - intros q y Hy. destruct (Hf q y Hy) as (e & He & Hfit). destruct (decide (y = x)) as [->|].
    + rewrite aprocs_aput_eq. eexists; split; [done|]. simplify_eq.
      unfold fits in *. by destruct q; rewrite ?Es, ?El.
    + rewrite aprocs_aput_ne by done. eauto.
  - intros y e. destruct (decide (y = x)) as [->|].
    + rewrite aprocs_aput_eq. intros [= <-] HX. rewrite Es. by apply (Hh x d).
    + rewrite aprocs_aput_ne by done. apply Hh.
  - eapply sorted_ext; [|exact Hs]. intros y z _ _. unfold prio_le.
    assert (∀ w, prio_of (aprocs (aput x d' A)) w = prio_of (aprocs A) w) as E; [|by rewrite !E].
    intros w. unfold prio_of. destruct (decide (w = x)) as [->|].
    + by rewrite aprocs_aput_eq, Hx; cbn.
    + by rewrite aprocs_aput_ne.
Qed.

(** A process in a state without a queue needs no exception. *)
Lemma qinv_unqueued X x d A :
  aprocs A !! x = Some d → queued (state d) = false → QInv (x :: X) A → QInv X A.
Proof.
  intros Hx Hq []. split; auto. intros y e Hy HyX. destruct (decide (y = x)) as [->|].
  - simplify_eq. by destruct (state d).
  - apply (qi_home0 y e Hy). set_solver.
Qed.

(** Entering a queue. *)
Lemma qinv_enter X q x d l A :
  aprocs A !! x = Some d → fits q d → (∀ y, y ∈ l ↔ y = x ∨ y ∈ aq A q) →
  (q = LQ 2 → StronglySorted (prio_le (aprocs A)) l) →
  QInv (x :: X) A → QInv X (aset q l A).
Proof.
  intros Hx Hfit Hl Hsort [Ht Hlv Hf Hh Hs].
  assert (∀ q' y, y ∈ aq A q' → y ∈ aq (aset q l A) q') as Hmono.
  { intros q' y Hy. destruct (decide (q' = q)) as [->|].
    - rewrite aq_aset_eq. apply Hl. auto.
    - by rewrite aq_aset_ne. }
  assert (x ∈ aq (aset q l A) q) as Hxq by (rewrite aq_aset_eq; apply Hl; auto).
  split; [done|done| | |].
  - intros q' y. destruct (decide (q' = q)) as [->|].
    + rewrite aq_aset_eq. intros [->|Hy]%Hl; [by exists d|by apply Hf].
    + rewrite aq_aset_ne by done. apply Hf.
  - intros y e Hy HyX. destruct (decide (y = x)) as [->|].
    + change (aprocs A !! x = Some e) in Hy. simplify_eq.
      destruct q; cbn in Hfit; [destruct Hfit as [-> _]; eexists|rewrite Hfit..]; exact Hxq.
    + specialize (Hh y e Hy ltac:(set_solver)).
      destruct (state e); cbn in *; try done; [by apply Hmono..|].
      destruct Hh as [k Hk]. exists k. by apply Hmono.
  - change (aprocs (aset q l A)) with (aprocs A). destruct (decide (q = LQ 2)) as [->|].
    + rewrite aq_aset_eq. by apply Hsort.
    + by rewrite aq_aset_ne.
Qed.

(** Leaving a queue. *)
Lemma qinv_leave X q x l1 l2 A :
  aq A q = l1 ++ x :: l2 → QInv X A → QInv (x :: X) (aset q (l1 ++ l2) A).
Proof.
  intros Hq [Ht Hlv Hf Hh Hs].
  assert (∀ q' y, y ≠ x → y ∈ aq A q' → y ∈ aq (aset q (l1 ++ l2) A) q') as Hmono.
  { intros q' y Hne Hy. destruct (decide (q' = q)) as [->|].
    - rewrite aq_aset_eq. rewrite Hq in Hy. set_solver.
    - by rewrite aq_aset_ne. }
  split; [done|done| | |].
  - intros q' y. destruct (decide (q' = q)) as [->|].
    + rewrite aq_aset_eq. intros Hy. apply Hf. rewrite Hq. set_solver.
    + rewrite aq_aset_ne by done. apply Hf.
  - intros y e Hy HyX. specialize (Hh y e Hy ltac:(set_solver)).
    assert (y ≠ x) by set_solver.
    destruct (state e); cbn in *; try done; [by apply Hmono..|].
    destruct Hh as [k Hk]. exists k. by apply Hmono.
  - change (aprocs (aset q (l1 ++ l2) A)) with (aprocs A). destruct (decide (q = LQ 2)) as [->|].
    + rewrite aq_aset_eq. eapply sorted_sublist. by rewrite <- Hq.
    + by rewrite aq_aset_ne.
Qed.

(** [enq] puts a runnable process on the queue of its level. *)
Lemma qinv_enq X x d A :
  aprocs A !! x = Some d → state d = RUNNABLE → level_ok d →
  QInv (x :: X) A → QInv X (enq x A).
Proof.
  intros Hx Hst Hlv Hi. unfold enq. rewrite Hx. destruct (Z.eqb_spec (queuelevel d) 2).
  - eapply qinv_enter; [exact Hx|split; [done|right; lia]| | |exact Hi].
    + intros y. apply ins_prio_elem.
    + intros _. assert (priority d = prio_of (aprocs A) x) as ->
        by (unfold prio_of; by rewrite Hx).
      apply ins_prio_sorted, Hi.
  - unfold level_ok in Hlv.
    eapply qinv_enter; [exact Hx| | | |exact Hi].
    + split; [done|]. right. destruct (Z.ltb_spec (queuelevel d) 0); lia.
    + intros y. rewrite elem_of_app. set_solver.
    + unfold l_queue. destruct (Z.ltb_spec (queuelevel d) 0); [lia|]. intros [= E]. lia.
Qed.

(** Waking a sleeper. *)
Lemma qinv_wake X x d kept l A :
  aq A SleepQ = kept ++ x :: l → (∀ q, q ≠ SleepQ → x ∉ aq A q) → NoDup (aq A SleepQ) →
  aprocs A !! x = Some d → QInv X A → QInv X (wake x d (aset SleepQ (kept ++ l) A)).
Proof.
  intros Hq Hoth Hnd Hx Hi. unfold wake.
  assert (level_ok d) as Hlv by (by eapply qi_levels).
  eapply qinv_enq; [apply aprocs_aput_eq|done|done|].
  eapply (qinv_weaken (x :: x :: X)); [set_solver|].
  apply qinv_put; [apply (qi_table _ _ Hi); eauto| |done|by apply qinv_leave].
  intros q. destruct (decide (q = SleepQ)) as [->|].
  - rewrite aq_aset_eq. rewrite Hq in Hnd. apply NoDup_app in Hnd as (_ & ? & [? _]%NoDup_cons).
    set_solver.
  - rewrite aq_aset_ne by done. by apply Hoth.
Qed.

(** The lists of the abstract state are queues: disjoint and without
    repetition. *)
Record qdisj (A : ast) : Prop := {
  qd_nodup : ∀ q, NoDup (aq A q);
  qd_disj : ∀ q q' x, x ∈ aq A q → x ∈ aq A q' → q = q';
  qd_valid : ∀ q x, x ∈ aq A q → valid_q q
}.

Lemma R_qdisj s A : R s A → qdisj A.
Proof.
  intros HR. split; [intros q; by eapply R_nodup|apply (rp_disj _ _ (proj1 HR))|].
  intros q x Hx. by destruct (R_elem _ _ _ _ HR Hx).
Qed.

Lemma aq_enq x d A q y :
  aprocs A !! x = Some d → y ∈ aq (enq x A) q → y ∈ aq A q ∨ (y = x ∧ q = l_queue (queuelevel d)).
Proof.
  intros Hx. unfold enq. rewrite Hx. destruct (Z.eqb_spec (queuelevel d) 2) as [E|].
  - destruct (decide (q = LQ 2)) as [->|].
    + rewrite aq_aset_eq. intros [->|?]%ins_prio_elem; [right|by left]. by rewrite E.
    + rewrite aq_aset_ne by done. by left.
  - destruct (decide (q = l_queue (queuelevel d))) as [->|].
    + rewrite aq_aset_eq. set_solver.
    + rewrite aq_aset_ne by done. by left.
Qed.

(** ** The invariant through [wakeup1] *)

Definition on_chan (ps : gmap nat proc) (ch : chan) (x : nat) : Prop :=
  from_option (λ d, pchan d = ch) False (ps !! x).
#[export] Instance on_chan_dec ps ch x : Decision (on_chan ps ch x).
Proof. unfold on_chan. destruct (ps !! x); cbn; apply _. Defined.

Lemma qdisj_leave q x l1 l2 A :
  aq A q = l1 ++ x :: l2 → qdisj A → qdisj (aset q (l1 ++ l2) A) ∧ off x (aset q (l1 ++ l2) A).
Proof.
  intros Hq [Hnd Hdis Hval].
  assert (∀ q' y, y ∈ aq (aset q (l1 ++ l2) A) q' → y ∈ aq A q') as Hsub.
  { intros q' y. destruct (decide (q' = q)) as [->|]; [|by rewrite aq_aset_ne].
    rewrite aq_aset_eq, Hq. set_solver. }
  pose proof (Hnd q) as Hndq. rewrite Hq in Hndq. apply NoDup_app in Hndq as (Hn1 & Hx & [Hx2 Hn2]%NoDup_cons).
  split; [split|].
  - intros q'. destruct (decide (q' = q)) as [->|]; [|by rewrite aq_aset_ne].
    rewrite aq_aset_eq. apply NoDup_app. split_and!; [done|set_solver|done].
  - intros q1 q2 y H1 H2. eapply Hdis; by apply Hsub.
  - intros q' y Hy%Hsub. by eapply Hval.
  - intros q' Hx'. destruct (decide (q' = q)) as [->|Hne].
    + rewrite aq_aset_eq in Hx'. set_solver.
    + apply Hne. apply (Hdis q' q x); [by rewrite aq_aset_ne in Hx'|]. rewrite Hq. set_solver.
Qed.

Lemma qdisj_enter q x l A :
  valid_q q → off x A → (∀ y, y ∈ l ↔ y = x ∨ y ∈ aq A q) → NoDup l → qdisj A → qdisj (aset q l A).
Proof.
  intros Hv Hoff Hl Hndl [Hnd Hdis Hval]. split.
  - intros q'. destruct (decide (q' = q)) as [->|]; [by rewrite aq_aset_eq|by rewrite aq_aset_ne].
  - assert (∀ q' y, y ∈ aq (aset q l A) q' → (y = x ∧ q' = q) ∨ y ∈ aq A q') as Hsub.
    { intros q' y. destruct (decide (q' = q)) as [->|]; [|rewrite aq_aset_ne; auto].
      rewrite aq_aset_eq, Hl. naive_solver. }
    intros q1 q2 y H1%Hsub H2%Hsub. destruct H1 as [[-> ->]|H1], H2 as [[E ->]|H2]; subst; try done.
    + by apply Hoff in H2.
    + by apply Hoff in H1.
    + by eapply Hdis.
  - intros q' y. destruct (decide (q' = q)) as [->|]; [done|]. rewrite aq_aset_ne by done. apply Hval.
Qed.

Lemma NoDup_ins_prio ps pri x l : x ∉ l → NoDup l → NoDup (ins_prio ps pri x l).
Proof.
  intros Hx Hnd. induction l as [|y l IH]; cbn; [apply NoDup_singleton|].
  apply NoDup_cons in Hnd as [Hy Hnd]. destruct (prio_of ps y >? pri).
  - rewrite !NoDup_cons. set_solver.
  - apply NoDup_cons. rewrite ins_prio_elem. set_solver.
Qed.

Lemma qdisj_enq x d A :
  aprocs A !! x = Some d → level_ok d → off x A → qdisj A → qdisj (enq x A).
Proof.
  intros Hx Hlv Hoff Hq. unfold enq. rewrite Hx.
  destruct (queuelevel d =? 2); eapply qdisj_enter; eauto.
  - unfold valid_q, NQUEUE; lia.
  - intros y. apply ins_prio_elem.
  - apply NoDup_ins_prio; [apply Hoff|apply Hq].
  - by apply l_queue_valid.
  - intros y. rewrite elem_of_app. set_solver.
  - apply NoDup_app. split_and!; [apply Hq| |apply NoDup_singleton]. intros y Hy ->%list_elem_of_singleton.
    by apply Hoff in Hy.
Qed.

(** What [wakeup1] does, besides keeping the invariant: the sleepers on [ch]
    become runnable and leave the sleep queue, in their order; nobody else's
    data changes. *)
Record woken (X : list nat) (ch : chan) (kept l : list nat) (A A' : ast) : Prop := {
  wk_inv : QInv X A';
  wk_disj : qdisj A';
  wk_base : abase A' = set_procs (aprocs A') (abase A);
  wk_sleep : aq A' SleepQ = kept ++ filter (λ x, ¬ on_chan (aprocs A) ch x) l;
  wk_unused : aq A' UnusedQ = aq A UnusedQ;
  wk_yes : ∀ x d, aprocs A !! x = Some d → x ∈ l → on_chan (aprocs A) ch x →
             aprocs A' !! x = Some (set_state RUNNABLE d);
  wk_no : ∀ x, x ∉ l ∨ ¬ on_chan (aprocs A) ch x → aprocs A' !! x = aprocs A !! x
}.

Lemma set_procs_id s : set_procs (procs s) s = s.
Proof. by destruct s. Qed.

Lemma wake_list_woken X ch l : ∀ kept A,
  qdisj A → QInv X A → aq A SleepQ = kept ++ l → woken X ch kept l A (wake_list ch kept l A).
Proof.
  induction l as [|x l IH]; intros kept A Hq Hi Hl; cbn [wake_list].
  { split; [done|done| |done|done|by intros ??? ?%not_elem_of_nil|done].
    unfold aprocs. by rewrite set_procs_id. }
  assert (x ∈ aq A SleepQ) as HxS by (rewrite Hl; set_solver).
  destruct (qi_fits _ _ Hi _ _ HxS) as (d & Hd & Hst). rewrite Hd.
  assert (x ∉ l) as Hxl.
  { pose proof (qd_nodup _ Hq SleepQ) as Hn. rewrite Hl in Hn.
    by apply NoDup_app in Hn as (_ & _ & [? _]%NoDup_cons). }
  assert (on_chan (aprocs A) ch x ↔ pchan d = ch) as Hon by (unfold on_chan; by rewrite Hd).
  case_bool_decide as Hch.
  - set (A1 := wake x d (aset SleepQ (kept ++ l) A)).
    destruct (qdisj_leave _ _ _ _ _ Hl Hq) as [Hq1 Hoff1].
    assert (qdisj A1) as HqA1.
    { eapply qdisj_enq; [apply aprocs_aput_eq| |exact Hoff1|by destruct Hq1; split].
      change (level_ok d). by eapply qi_levels. }
    assert (QInv X A1) as HiA1.
    { apply qinv_wake; [done| |apply Hq|done|done].
      intros q Hne Hx. apply Hne. by apply (qd_disj _ Hq q SleepQ x). }
    assert (aq A1 SleepQ = kept ++ l) as HlA1.
    { unfold A1, wake. rewrite aq_enq_other by done. apply aq_aset_eq. }
    assert (∀ y, y ≠ x → aprocs A1 !! y = aprocs A !! y) as Hne.
    { intros y Hy. unfold A1, wake. rewrite aprocs_enq. by rewrite aprocs_aput_ne. }
    assert (aprocs A1 !! x = Some (set_state RUNNABLE d)) as Hx1.
    { unfold A1, wake. rewrite aprocs_enq. apply aprocs_aput_eq. }
    assert (abase A1 = set_procs (aprocs A1) (abase A)) as Hb1.
    { unfold A1, wake. rewrite aprocs_enq. unfold enq. rewrite aprocs_aput_eq.
      by destruct (queuelevel (set_state RUNNABLE d) =? 2). }
    destruct (IH kept A1 HqA1 HiA1 HlA1) as [Hinv Hdis Hbase Hsl Hun Hyes Hno].
    assert (∀ y, y ∈ l → on_chan (aprocs A1) ch y ↔ on_chan (aprocs A) ch y) as Hsame.
    { intros y Hy. unfold on_chan. rewrite Hne by (intros ->; done). done. }
    split; [done|done| | | | |].
    + rewrite Hbase, Hb1. done.
    + rewrite Hsl. f_equal. rewrite filter_cons_False by (rewrite Hon; tauto).
      apply list_filter_ext. intros y Hy. by rewrite Hsame.
    + rewrite Hun. unfold A1, wake. rewrite aq_enq_other by done. by apply aq_aset_ne.
    + intros y e Hy [->|Hyl]%elem_of_cons Hony.
      * simplify_eq. rewrite Hno by auto. done.
      * assert (y ≠ x) by set_solver. apply Hyes; [by rewrite Hne|done|by apply Hsame].
    + intros y Hyn. destruct (decide (y = x)) as [->|Hyx].
      { destruct Hyn as [Hyn|Hyn]; [set_solver|]. by rewrite Hon in Hyn. }
      rewrite Hno, Hne; [done|done|]. destruct (decide (y ∈ l)); [|by left].
      right. rewrite Hsame by done. destruct Hyn as [Hyn|]; [set_solver|done].
  - destruct (IH (kept ++ [x]) A Hq Hi) as [Hinv Hdis Hbase Hsl Hun Hyes Hno].
    { by rewrite <- app_assoc. }
    split; [done|done|done| |done| |].
    + rewrite Hsl, <- app_assoc. f_equal. rewrite filter_cons_True by (by rewrite Hon). done.
    + intros y e Hy [->|Hyl]%elem_of_cons Hony; [by rewrite Hon in Hony|by apply Hyes].
    + intros y Hyn. apply Hno. destruct (decide (y = x)) as [->|]; [by left|].
      destruct Hyn as [Hyn|]; [left; set_solver|by right].
Qed.

Lemma awakeup_woken X ch A : qdisj A → QInv X A → woken X ch [] (aq A SleepQ) A (awakeup ch A).
Proof. intros. by apply wake_list_woken. Qed.

(** ** The invariant through [priority_boosting] *)

Lemma areset_lookup l A x :
  aprocs (areset l A) !! x = (if decide (x ∈ l) then reset <$> aprocs A !! x else aprocs A !! x).
Proof.
  unfold areset, aprocs; cbn [abase procs set_procs]. fold (aprocs A).
  generalize (aprocs A) as ps. assert (∀ d, reset (reset d) = reset d) as Hid by done.
  induction l as [|y l IH]; intros ps; cbn [foldl].
  - rewrite decide_False; [done|]. by apply not_elem_of_nil.
  - rewrite IH. destruct (decide (x = y)) as [->|Hne].
    + rewrite lookup_alter_eq. rewrite (decide_True (P := y ∈ y :: l)) by set_solver.
      case_decide; [|done]. by destruct (ps !! y).
    + rewrite lookup_alter_ne by done.
      assert (x ∈ l ↔ x ∈ y :: l) as Hiff by set_solver.
      by repeat case_decide; try tauto.
Qed.

Definition boosted (A : ast) : list nat := aq A (LQ 0) ++ aq A (LQ 1) ++ aq A (LQ 2).

Lemma aq_aboost A q :
  aq (aboost A) q =
    match q with
    | LQ 0 => boosted A
    | LQ 1 | LQ 2 => []
    | _ => aq A q
    end.
Proof.
  unfold aboost, amerge, boosted; cbn.
  destruct q as [k| |].
  - destruct k as [|[|[|k]]]; repeat first [rewrite fn_lookup_insert | rewrite fn_lookup_insert_ne by done]; done.
  - by rewrite !fn_lookup_insert_ne.
  - by rewrite !fn_lookup_insert_ne.
Qed.

Lemma aprocs_aboost A x :
  aprocs (aboost A) !! x =
    (if decide (x ∈ aq A SleepQ ++ boosted A) then reset <$> aprocs A !! x else aprocs A !! x).
Proof.
  unfold aboost. rewrite !areset_lookup.
  set (A2 := amerge _ _ _).
  assert (aq (areset (aq A2 SleepQ) A2) (LQ 0) = boosted A) as ->.
  { unfold A2, amerge, boosted; cbn.
    by repeat first [rewrite fn_lookup_insert | rewrite fn_lookup_insert_ne by done]. }
  assert (aq A2 SleepQ = aq A SleepQ) as ->.
  { unfold A2, amerge; cbn. by rewrite !fn_lookup_insert_ne. }
  change (aprocs A2) with (aprocs A).
  assert (∀ d, reset (reset d) = reset d) as Hid by done.
  pose proof (elem_of_app (aq A SleepQ) (boosted A) x) as Happ.
  repeat case_decide; try tauto. by destruct (aprocs A !! x).
Qed.

Lemma abase_aboost A : abase (aboost A) = set_procs (aprocs (aboost A)) (abase A).
Proof. done. Qed.

Lemma aprocs_aboost_Some A x d :
  aprocs A !! x = Some d →
  aprocs (aboost A) !! x = Some (if decide (x ∈ aq A SleepQ ++ boosted A) then reset d else d).
Proof. intros H. rewrite aprocs_aboost, H. by case_decide. Qed.

Lemma qinv_boost A : qdisj A → QInv [] A → QInv [] (aboost A).
Proof.
  intros Hq [Ht Hl Hf Hh Hs].
  assert (∀ x d', aprocs (aboost A) !! x = Some d' →
    ∃ d, aprocs A !! x = Some d ∧ (d' = d ∨ d' = reset d)) as Hinv.
  { intros x d'. rewrite aprocs_aboost. case_decide; [|eauto].
    intros (d & Hd & ->)%fmap_Some. eauto. }
  assert (∀ x, (∃ k, x ∈ aq A (LQ k)) ↔ x ∈ boosted A) as Hb.
  { intros x. unfold boosted. rewrite !elem_of_app. split; [|naive_solver].
    intros [k Hk]. pose proof (qd_valid _ Hq _ _ Hk) as Hv. cbn in Hv. unfold NQUEUE in Hv.
    destruct k as [|[|[|k]]]; [auto..|lia]. }
  assert (∀ x d, aprocs A !! x = Some d →
    ∃ d', aprocs (aboost A) !! x = Some d' ∧ state d' = state d) as Hst.
  { intros x d Hd. eexists. split; [by apply aprocs_aboost_Some|]. by case_decide. }
  split.
  - intros i. rewrite <- (Ht i), aprocs_aboost. case_decide; [|done]. apply fmap_is_Some.
  - intros x d' (d & Hd & [-> | ->])%Hinv; [by eapply Hl|]. unfold level_ok; cbn. lia.
  - intros q x. rewrite aq_aboost. destruct q as [k| |].
    + destruct k as [|[|[|k]]]; [|by intros ?%not_elem_of_nil..|].
      * intros [k Hk]%Hb. destruct (Hf _ _ Hk) as (d & Hd & [Hr _]).
        destruct (Hst _ _ Hd) as (d' & Hd' & E). exists d'. cbn. rewrite E. auto.
      * intros Hx. pose proof (qd_valid _ Hq _ _ Hx) as Hv. cbn in Hv. unfold NQUEUE in Hv. lia.
    + intros Hx. destruct (Hf _ _ Hx) as (d & Hd & Hr).
      destruct (Hst _ _ Hd) as (d' & Hd' & E). exists d'. cbn in *. by rewrite E.
    + intros Hx. destruct (Hf _ _ Hx) as (d & Hd & Hr).
      destruct (Hst _ _ Hd) as (d' & Hd' & E). exists d'. cbn in *. by rewrite E.
  - intros x d' (d & Hd & Hd')%Hinv _. specialize (Hh x d Hd ltac:(set_solver)).
    assert (state d' = state d) as -> by (by destruct Hd' as [-> | ->]).
    destruct (state d); unfold home in *; try done.
    exists 0%nat. rewrite aq_aboost. by apply Hb.
  - rewrite aq_aboost. constructor.
Qed.
End Inv.
