(* ===== verification/MlfqSteps.v ===== *)
(** * The MLFQ kernel keeps its invariant

    [KInv s]: between kernel sections, the queues are well formed, every
    process is on the queue of its state ([QInv]), a process is RUNNING
    exactly when one core runs it ([CInv]), and fewer than 100 ticks have been
    counted since the last boost.  Each scheduler operation runs to the end
    from such a state (no panic, no bad pointer, no deadlock) and restores
    it. *)

From S2P Require Export MlfqInv.
Local Open Scope Z_scope.

Section Steps.
Context {KE : KernelEnv}.

Definition amach (A : ast) : mach := kmach (abase A).

(** [ex]: cores whose process an operation is taking off. *)
Record CInv (ex : list nat) (A : ast) : Prop := {
  ci_run : ∀ c x, cprocs (amach A) !! c = Some (Some x) →
    ∃ d, aprocs A !! x = Some d ∧ (c ∈ ex ∨ state d = RUNNING);
  ci_uniq : ∀ c c' x, cprocs (amach A) !! c = Some (Some x) →
    cprocs (amach A) !! c' = Some (Some x) → c = c';
  ci_conv : ∀ x d, aprocs A !! x = Some d → state d = RUNNING →
    ∃ c, cprocs (amach A) !! c = Some (Some x)
}.

(** A process that can run or go on running has a kernel stack and a page
    table, and resumes after a [sched] other than [exit]'s. *)
Definition ctx_ok (k : kcont) : Prop :=
  match k with
  | K_forkret => True
  | K_yield _ | K_wait _ => True
  | K_sleep lk _ => lk ≠ ptable_lock
  | K_exit _ => False
  end.

(** The file table has its [NOFILE] entries as well. *)
Definition live_ok (d : proc) : Prop :=
  length (ofile d) = NOFILE ∧
  match state d with
  | RUNNING => kstack d ≠ 0 ∧ pgdir d ≠ 0
  | SLEEPING | RUNNABLE => kstack d ≠ 0 ∧ pgdir d ≠ 0 ∧ ctx_ok (context d)
  | _ => True
  end.

Definition Live (A : ast) : Prop := ∀ x d, aprocs A !! x = Some d → live_ok d.

(** [I]: the condition on the locks. *)
Record Inv (I : mach → Prop) (A : ast) : Prop := {
  inv_q : QInv [] A;
  inv_c : CInv [] A;
  inv_t : 0 ≤ global_ticks (abase A) < 100;
  inv_m : I (amach A);
  inv_live : Live A
}.

Definition KInv (s : kst) : Prop := ∃ A, R s A ∧ Inv idle A.

(** The process core [c] runs. *)
Definition runs (s : kst) (c p : nat) : Prop := cprocs (kmach s) !! c = Some (Some p).
Definition aruns (A : ast) (c p : nat) : Prop := cprocs (amach A) !! c = Some (Some p).

Lemma R_runs s A c p : R s A → runs s c p → aruns A c p.
Proof. intros [_ E]. unfold aruns, amach. by rewrite E. Qed.

Lemma off_unqueued X A x d :
  QInv X A → aprocs A !! x = Some d → queued (state d) = false → off x A.
Proof.
  intros Hi Hx Hq q Hin. destruct (qi_fits _ _ Hi _ _ Hin) as (e & He & Hf).
  simplify_eq. by destruct q; cbn in Hf; [destruct Hf as [Hf _]|..]; rewrite Hf in Hq.
Qed.

(** ** Locks on the abstract state *)

Section MachRules.
Context (t : bool) (s : kst) (A : ast) (HR : R s A).

Lemma R_acquire c o (Q : unit → kst → Prop) :
  idle (amach A) → cprocs (amach A) !! c = Some o →
  (∀ s' m', R s' (amod (set_kmach m') A) → in_crit c ptable_lock m' →
     cprocs m' = cprocs (amach A) → (∀ c', irq_on m' c' = irq_on (amach A) c') → Q tt s') →
  wpg t (onm (acquire c ptable_lock)) Q s.
Proof.
  intros Hi Hc HQ. eapply R_onm; [done|].
  destruct (acquire_idle c ptable_lock _ _ Hc Hi) as (m' & Hm & Hcrit & Hcp).
  eapply ok_wpg; [exact Hm|]. intros s' HR'. eapply HQ; [done..|]. intros c'. by eapply acquire_irq.
Qed.

Lemma R_release c o (Q : unit → kst → Prop) :
  in_crit c ptable_lock (amach A) → cprocs (amach A) !! c = Some o →
  (∀ s' m', R s' (amod (set_kmach m') A) → idle m' →
     cprocs m' = cprocs (amach A) → Q tt s') →
  wpg t (onm (release c ptable_lock)) Q s.
Proof.
  intros Hcrit Hc HQ. eapply R_onm; [done|].
  destruct (release_crit c ptable_lock _ Hcrit) as (m' & Hm & Hi & Hcp).
  eapply ok_wpg; [exact Hm|]. intros s' HR'. by eapply HQ.
Qed.

Lemma R_myproc_idle c p (Q : ptr → kst → Prop) :
  idle (amach A) → aruns A c p →
  (∀ s' m', R s' (amod (set_kmach m') A) → idle m' →
     cprocs m' = cprocs (amach A) → (∀ c', irq_on m' c' = irq_on (amach A) c') → Q (Some p) s') →
  wpg t (onm (myproc c)) Q s.
Proof.
  intros Hi Hc HQ. eapply R_onm; [done|].
  destruct (myproc_idle c _ _ Hc Hi) as (m' & Hm & Hi' & Hcp & _).
  eapply ok_wpg; [exact Hm|]. intros s' HR'. eapply HQ; [done..|]. intros c'. by eapply myproc_irq.
Qed.

Lemma R_myproc_crit c lk p (Q : ptr → kst → Prop) :
  in_crit c lk (amach A) → aruns A c p → Q (Some p) s → wpg t (onm (myproc c)) Q s.
Proof.
  intros Hcrit Hc HQ. apply wpg_zoom. destruct HR as [_ E].
  unfold aruns, amach in *. rewrite E in Hcrit. rewrite E in Hc. eapply ok_wpg; [by eapply myproc_crit|].
  unfold abs_of in *. by destruct s.
Qed.
End MachRules.

(** ** Moving the invariant of the cores *)

Lemma cinv_ext ex A A' :
  cprocs (amach A') = cprocs (amach A) → aprocs A' = aprocs A → CInv ex A → CInv ex A'.
Proof. intros Em Ep []. split; rewrite ?Em, ?Ep; done. Qed.

(** New data for the process of a core that is being taken off, or data that
    keeps RUNNING where it was. *)
Lemma cinv_put ex x d d' A :
  aprocs A !! x = Some d →
  (state d' = RUNNING ↔ state d = RUNNING) ∨
    (state d' ≠ RUNNING ∧ ∀ c, cprocs (amach A) !! c = Some (Some x) → c ∈ ex) →
  CInv ex A → CInv ex (aput x d' A).
Proof.
  intros Hx Hd [Hr Hu Hc]. split.
  - intros c y Hy. destruct (decide (y = x)) as [->|].
    + exists d'. split; [apply aprocs_aput_eq|]. destruct (Hr c x Hy) as (e & He & [?|He']); [by left|].
      simplify_eq. destruct Hd as [Hd|[_ Hd]]; [right; by apply Hd|left; by apply Hd].
    + rewrite aprocs_aput_ne by done. by apply Hr.
  - exact Hu.
  - intros y e. destruct (decide (y = x)) as [->|].
    + rewrite aprocs_aput_eq. intros [= <-] Hrun. destruct Hd as [Hd|[Hd _]]; [|done].
      apply (Hc x d Hx). by apply Hd.
    + rewrite aprocs_aput_ne by done. apply Hc.
Qed.

Lemma cinv_weaken ex ex' A : (∀ c, c ∈ ex → c ∈ ex') → CInv ex A → CInv ex' A.
Proof.
  intros H [Hr Hu Hc]. split; [|done..]. intros c x Hx.
  destruct (Hr c x Hx) as (d & Hd & [?|?]); eauto.
Qed.

Lemma cinv_same_states ex A A' :
  amach A' = amach A →
  (∀ x d, aprocs A !! x = Some d → ∃ d', aprocs A' !! x = Some d' ∧
     (state d' = RUNNING ↔ state d = RUNNING)) →
  (∀ x d', aprocs A' !! x = Some d' → is_Some (aprocs A !! x)) →
  CInv ex A → CInv ex A'.
Proof.
  intros Em Hst Hback [Hr Hu Hc]. split; rewrite ?Em.
  - intros c x Hx. destruct (Hr c x Hx) as (d & Hd & Hd').
    destruct (Hst x d Hd) as (d' & Hx' & Hiff). exists d'. split; [done|].
    destruct Hd'; [by left|right; by apply Hiff].
  - done.
  - intros x d' Hx' Hrun. destruct (Hback x d' Hx') as [d Hd].
    destruct (Hst x d Hd) as (e & He & Hiff). simplify_eq. apply (Hc x d Hd). by apply Hiff.
Qed.

Lemma cinv_boost ex A : CInv ex A → CInv ex (aboost A).
Proof.
  apply cinv_same_states; [done| |].
  - intros x d Hd. eexists. split; [by apply aprocs_aboost_Some|]. by case_decide.
  - intros x d'. rewrite aprocs_aboost. case_decide; [|eauto]. by intros (d & -> & _)%fmap_Some.
Qed.

Lemma cinv_woken ex X ch l A A' : QInv X A → woken X ch [] l A A' → l = aq A SleepQ → CInv ex A → CInv ex A'.
Proof.
  intros Hi Hw ->. apply cinv_same_states.
  - unfold amach. by rewrite (wk_base _ _ _ _ _ _ Hw).
  - intros x d Hd. destruct (decide (x ∈ aq A SleepQ)) as [Hx|Hx];
      [destruct (decide (on_chan (aprocs A) ch x)) as [Ho|Ho]|].
    + eexists; split; [by eapply (wk_yes _ _ _ _ _ _ Hw)|]. cbn.
      destruct (qi_fits _ _ Hi _ _ Hx) as (e & He & Hf). cbn in Hf. simplify_eq. by rewrite Hf.
    + exists d. split; [|done]. rewrite (wk_no _ _ _ _ _ _ Hw); auto.
    + exists d. split; [|done]. rewrite (wk_no _ _ _ _ _ _ Hw); auto.
  - intros x d' Hd'. destruct (decide (x ∈ aq A SleepQ ∧ on_chan (aprocs A) ch x)) as [[Hx Ho]|Hn].
    + destruct (qi_fits _ _ Hi _ _ Hx) as (e & He & _). eauto.
    + rewrite (wk_no _ _ _ _ _ _ Hw) in Hd'; [eauto|]. destruct (decide (x ∈ aq A SleepQ)); tauto.
Qed.

Lemma live_put x d A : Live A → live_ok d → Live (aput x d A).
Proof.
  intros H Hd y e. destruct (decide (y = x)) as [->|].
  - rewrite aprocs_aput_eq. by intros [= <-].
  - rewrite aprocs_aput_ne by done. apply H.
Qed.

Lemma live_boost A : Live A → Live (aboost A).
Proof.
  intros H x d'. rewrite aprocs_aboost. case_decide; [|apply H].
  intros (d & Hd & ->)%fmap_Some. exact (H x d Hd).
Qed.

Lemma live_woken X ch A A' : QInv X A → woken X ch [] (aq A SleepQ) A A' → Live A → Live A'.
Proof.
  intros Hi Hw H x d' Hd'. destruct (decide (x ∈ aq A SleepQ ∧ on_chan (aprocs A) ch x)) as [[Hx Ho]|Hn].
  - destruct (qi_fits _ _ Hi _ _ Hx) as (e & He & Hf). cbn in Hf.
    rewrite (wk_yes _ _ _ _ _ _ Hw x e He Hx Ho) in Hd'. simplify_eq.
    specialize (H x e He). unfold live_ok in *. rewrite Hf in H. exact H.
  - rewrite (wk_no _ _ _ _ _ _ Hw) in Hd'; [by apply (H x)|].
    destruct (decide (x ∈ aq A SleepQ)); tauto.
Qed.

(** ** Leaving the processor *)

Definition aleave (A : ast) : ast :=
  if global_ticks (abase A) =? 100
  then amod (set_lockproc None) (aboost (amod (set_global_ticks 0) A)) else A.

Lemma R_releasemlfq t s A (Q : unit → kst → Prop) :
  R s A → (∀ s', R s' (amod (set_lockproc None) A) → Q tt s') → wpg t releasemlfq Q s.
Proof.
  intros HR HQ. apply wpg_bind. eapply R_gets; [done..|].
  destruct (ptr_eqb (lockproc (abase A)) None) eqn:E; cbn [negb].
  - apply wpg_when_false; [done|]. apply HQ. destruct HR as [Hr Hb]. split; [done|].
    cbn. apply bool_decide_eq_true in E. rewrite <- Hb. destruct (abase A); cbn in *. by rewrite E.
  - apply wpg_when_true; [done|]. by eapply R_modify.
Qed.

Lemma R_scheduler_leave t s A c o (Q : unit → kst → Prop) :
  R s A → table_ok A → in_crit c ptable_lock (amach A) → cprocs (amach A) !! c = Some o →
  (∀ s' m', R s' (amod (set_kmach m') (aleave A)) → idle m' →
     cprocs m' = <[c := None]> (cprocs (amach A)) → Q tt s') →
  wpg t (scheduler_leave c) Q s.
Proof.
  intros HR Ht Hcrit Hc HQ. unfold scheduler_leave.
  apply wpg_bind. eapply R_gets; [done..|]. apply wpg_bind.
  assert (∀ s1, R s1 (aleave A) →
    wpg t (onm (modify (set_cproc c None)) ;; onm (release c ptable_lock)) Q s1) as Hrest.
  { intros s1 HR1. assert (amach (aleave A) = amach A) as Em.
    { unfold aleave. by destruct (global_ticks (abase A) =? 100). }
    apply wpg_bind. eapply R_onm; [done|]. apply wpg_modify. intros s2 HR2.
    destruct (set_cproc_crit c ptable_lock None _ _ Hc Hcrit) as [Hcrit2 Hcp2].
    unfold amach in Em. rewrite Em in HR2.
    eapply (R_release _ _ _ HR2 c None); [done| |].
    - cbn. unfold amach in *. rewrite Hcp2. apply list_lookup_insert_eq. by eapply lookup_lt_Some.
    - intros s3 m' HR3 Hi Hcp. eapply HQ; [|done|].
      + destruct HR3 as [? HA]. by split.
      + rewrite Hcp. exact Hcp2. }
  unfold aleave in Hrest. destruct (Z.eqb_spec (global_ticks (abase A)) 100).
  - apply wpg_when_true; [done|]. apply wpg_bind. eapply R_modify; [done..|]. intros s1 HR1.
    apply wpg_bind. eapply R_priority_boosting; [done|exact Ht|]. intros s2 HR2.
    eapply R_releasemlfq; [done|]. intros s3 HR3. by apply Hrest.
  - apply wpg_when_false; [done|]. by apply Hrest.
Qed.

(** State of an operation about to call [sched]. *)
Record leaving (c p : nat) (A : ast) : Prop := {
  lv_q : QInv [] A;
  lv_disj : qdisj A;
  lv_c : CInv [c] A;
  lv_t : 0 ≤ global_ticks (abase A) ≤ 100;
  lv_crit : in_crit c ptable_lock (amach A);
  lv_runs : aruns A c p;
  lv_live : Live A;
  lv_state : ∀ d, aprocs A !! p = Some d → state d ≠ RUNNING
}.

Lemma leave_inv c p A m' :
  leaving c p A → idle m' → cprocs m' = <[c := None]> (cprocs (amach A)) →
  Inv idle (amod (set_kmach m') (aleave A)).
Proof.
  intros [Hq Hd Hc Ht Hcrit Hr Hlive Hst] Hi Hcp.
  assert (QInv [] (aleave A) ∧ CInv [c] (aleave A) ∧ 0 ≤ global_ticks (abase (aleave A)) < 100 ∧
          amach (aleave A) = amach A ∧
          (∀ d, aprocs (aleave A) !! p = Some d → state d ≠ RUNNING)) as (Hq' & Hc' & Ht' & Em & Hst').
  { unfold aleave. destruct (Z.eqb_spec (global_ticks (abase A)) 100); [|split; [done|split; [done|split; [lia|by split]]]].
    split; [|split; [|split; [cbn; lia|split; [done|]]]].
    - apply qinv_amod; [done|]. apply (qinv_boost (amod (set_global_ticks 0) A)); [by destruct Hd; split|by apply qinv_amod].
    - apply (cinv_ext _ (aboost (amod (set_global_ticks 0) A))); [done..|].
      apply cinv_boost. by apply (cinv_ext _ A).
    - intros d Hx. change (aprocs (aboost (amod (set_global_ticks 0) A)) !! p = Some d) in Hx.
      rewrite aprocs_aboost in Hx. change (aprocs (amod _ A)) with (aprocs A) in Hx.
      case_decide; [|by apply Hst]. apply fmap_Some in Hx as (d0 & Hd0 & ->). exact (Hst _ Hd0). }
  split; [by apply qinv_amod| |done|done|].
  2:{ assert (Live (aboost A)) as Hb by (by apply live_boost). unfold aleave.
      destruct (global_ticks (abase A) =? 100); [|exact Hlive]. exact Hb. }
  destruct Hc' as [Hrun Huniq Hconv]. rewrite Em in *.
  assert (c < length (cprocs (amach A)))%nat as Hlt by (by eapply lookup_lt_Some).
  assert (∀ c' x, cprocs m' !! c' = Some (Some x) ↔ c' ≠ c ∧ cprocs (amach A) !! c' = Some (Some x)) as Hcp'.
  { intros c' x. rewrite Hcp. destruct (decide (c' = c)) as [->|].
    - rewrite list_lookup_insert_eq by done. naive_solver.
    - rewrite list_lookup_insert_ne by done. naive_solver. }
  split; unfold amach at 1; cbn.
  - intros c' x [Hne Hx]%Hcp'. destruct (Hrun c' x Hx) as (d & Hdx & [Hin|?]); [set_solver|eauto].
  - intros c' c'' x. unfold amach; cbn. rewrite !Hcp'. intros [_ H1] [_ H2]. by eapply Huniq.
  - intros x d Hx Hs. destruct (Hconv x d Hx Hs) as [c' Hc']. exists c'. apply Hcp'. split; [|done].
    intros ->. unfold aruns in Hr. simplify_eq. by eapply Hst'.
Qed.

(** [sched] gives the core back; [i] tells whether interrupts were on. *)
Lemma R_sched t s A c p d k i (Q : unit → kst → Prop) :
  R s A → irq_on (amach A) c = i → aprocs A !! p = Some d → leaving c p (aput p (set_context (k i) d) A) →
  (∀ s' m', R s' (amod (set_kmach m') (aleave (aput p (set_context (k i) d) A))) →
     Inv idle (amod (set_kmach m') (aleave (aput p (set_context (k i) d) A))) →
     cprocs m' = <[c := None]> (cprocs (amach A)) → Q tt s') →
  wpg t (sched c k) Q s.
Proof.
  intros HR Hirq Hd Hlv HQ. pose proof (lv_crit _ _ _ Hlv) as Hcrit. pose proof (lv_runs _ _ _ Hlv) as Hr.
  change (in_crit c ptable_lock (amach A)) in Hcrit. change (aruns A c p) in Hr.
  destruct (crit_reads _ _ _ Hcrit) as (Hncli & Hif & Hint). rewrite Hirq in Hint.
  assert (kmach s = amach A) as Em by (unfold amach; by rewrite (proj2 HR)).
  assert (∀ {B} (m : M mach B) b (Q' : B → kst → Prop), m (amach A) = Ok (b, amach A) → Q' b s →
            wpg t (onm m) Q' s) as Hread.
  { intros B m b Q' Hm HQ'. apply wpg_zoom. rewrite Em. eapply ok_wpg; [exact Hm|].
    rewrite <- Em. by destruct s. }
  unfold sched. apply wpg_bind. eapply Hread; [by eapply myproc_crit|].
  apply wpg_bind. eapply Hread; [by eapply holding_crit|]. cbn [negb].
  apply wpg_bind. eapply Hread; [exact Hncli|].
  cbn [Z.eqb Pos.eqb negb]. apply wpg_bind. eapply R_pget; [done..|]. intros pr Hpr.
  rewrite bool_decide_false.
  2:{ assert (state pr = state d) as -> by (by subst d).
      apply (lv_state _ _ _ Hlv (set_context (k i) d)). apply aprocs_aput_eq. }
  apply wpg_bind. eapply Hread; [exact Hif|]. apply wpg_bind. eapply Hread; [exact Hint|].
  apply wpg_bind. eapply R_pset; [exact HR|by intros ?|exact Hd|]. intros s1 HR1.
  eapply R_scheduler_leave; [exact HR1|apply (lv_q _ _ _ Hlv)|exact Hcrit|exact Hr|].
  intros s2 m' HR2 Hi Hcp. eapply HQ; [exact HR2| |exact Hcp]. by eapply leave_inv.
Qed.
End Steps.
