(* ===== verification/MlfqOps.v ===== *)
(** * The MLFQ operations on the abstract state

    One lemma per operation of proc.c: from a state of the invariant it
    returns, its result is the given abstract state, and the invariant holds
    again. *)

From S2P Require Export MlfqSteps.
From Stdlib Require Import Sorted.
Local Open Scope Z_scope.

Section Ops.
Context {KE : KernelEnv}.

(** ** Entering and leaving the section of [ptable.lock] *)

Lemma inv_amod I I' A m' :
  Inv I A → I' m' → cprocs m' = cprocs (amach A) →
  Inv I' (amod (set_kmach m') A).
Proof.
  intros [Hq Hc Ht _ Hv] HI Hcp. split; [by apply qinv_amod| |done|done|exact Hv].
  by apply (cinv_ext _ A).
Qed.

Section EnterExit.
Context (t : bool) (s : kst) (A : ast) (c : nat) (HR : R s A).

Lemma R_enter_irq p (Q : unit → kst → Prop) :
  Inv idle A → cprocs (amach A) !! c = Some p →
  (∀ s' m', R s' (amod (set_kmach m') A) → Inv (in_crit c ptable_lock) (amod (set_kmach m') A) →
     cprocs m' = cprocs (amach A) → (∀ c', irq_on m' c' = irq_on (amach A) c') → Q tt s') →
  wpg t (onm (acquire c ptable_lock)) Q s.
Proof.
  intros Hi Hr HQ. eapply R_acquire; [done|apply Hi|done|].
  intros s' m' HR' Hcrit Hcp Hirq. eapply HQ; [done| |done..].
  by eapply inv_amod.
Qed.
Lemma R_enter p (Q : unit → kst → Prop) :
  Inv idle A → cprocs (amach A) !! c = Some p →
  (∀ s' m', R s' (amod (set_kmach m') A) → Inv (in_crit c ptable_lock) (amod (set_kmach m') A) →
     cprocs m' = cprocs (amach A) → Q tt s') →
  wpg t (onm (acquire c ptable_lock)) Q s.
Proof. intros Hi Hr HQ. eapply R_enter_irq; eauto. Qed.

Lemma R_exit p (Q : unit → kst → Prop) :
  Inv (in_crit c ptable_lock) A → cprocs (amach A) !! c = Some p →
  (∀ s' m', R s' (amod (set_kmach m') A) → Inv idle (amod (set_kmach m') A) →
     cprocs m' = cprocs (amach A) → Q tt s') →
  wpg t (onm (release c ptable_lock)) Q s.
Proof.
  intros Hi Hr HQ. eapply R_release; [done|apply Hi|done|].
  intros s' m' HR' Hid Hcp. eapply HQ; [done| |done]. by eapply inv_amod.
Qed.

Lemma R_me_irq p (Q : ptr → kst → Prop) :
  Inv idle A → aruns A c p →
  (∀ s' m', R s' (amod (set_kmach m') A) → Inv idle (amod (set_kmach m') A) →
     cprocs m' = cprocs (amach A) → (∀ c', irq_on m' c' = irq_on (amach A) c') → Q (Some p) s') →
  wpg t (onm (myproc c)) Q s.
Proof.
  intros Hi Hr HQ. eapply R_myproc_idle; [done|apply Hi|done|].
  intros s' m' HR' Hid Hcp Hirq. eapply HQ; [done| |done..]. by eapply inv_amod.
Qed.
Lemma R_me p (Q : ptr → kst → Prop) :
  Inv idle A → aruns A c p →
  (∀ s' m', R s' (amod (set_kmach m') A) → Inv idle (amod (set_kmach m') A) →
     cprocs m' = cprocs (amach A) → Q (Some p) s') →
  wpg t (onm (myproc c)) Q s.
Proof. intros Hi Hr HQ. eapply R_me_irq; eauto. Qed.
End EnterExit.

Lemma inv_running I A c p : Inv I A → aruns A c p → ∃ d, aprocs A !! p = Some d ∧ state d = RUNNING.
Proof. intros Hi Hr. destruct (ci_run _ _ (inv_c _ _ Hi) c p Hr) as (d & Hd & [?|?]); [set_solver|eauto]. Qed.

Lemma inv_running_off I A c p : Inv I A → aruns A c p → off p A.
Proof.
  intros Hi Hr. destruct (inv_running _ _ _ _ Hi Hr) as (d & Hd & Hs).
  eapply off_unqueued; [apply (inv_q _ _ Hi)|done|by rewrite Hs].
Qed.

(** Process [p], on core [c], inside the section of [ptable.lock]: the state in
    which the operations prepare to call [sched]. *)
Record busy (c p : nat) (A : ast) : Prop := {
  bz_q : QInv [] A;
  bz_c : CInv [] A;
  bz_t : 0 ≤ global_ticks (abase A) ≤ 100;
  bz_m : in_crit c ptable_lock (amach A);
  bz_r : aruns A c p;
  bz_live : Live A
}.

Lemma inv_busy A c p : Inv (in_crit c ptable_lock) A → aruns A c p → busy c p A.
Proof. intros [Hq Hc Ht Hm Hv] Hr. split; [done..|lia|done|done|done]. Qed.

Lemma busy_off c p A d : busy c p A → aprocs A !! p = Some d → state d = RUNNING ∧ off p A.
Proof.
  intros [Hq Hc _ _ Hr _] Hd. destruct (ci_run _ _ Hc c p Hr) as (e & He & [?|Hs]); [set_solver|].
  simplify_eq. split; [done|]. eapply off_unqueued; [done|exact Hd|by rewrite Hs].
Qed.

Lemma busy_amod c p f A :
  procs (f (abase A)) = procs (abase A) → kmach (f (abase A)) = kmach (abase A) →
  0 ≤ global_ticks (f (abase A)) ≤ 100 → busy c p A → busy c p (amod f A).
Proof.
  intros Hp Hm Ht [Hq Hc _ Hcr Hr Hv]. unfold aruns, amach in *.
  split; unfold aruns, amach; cbn; rewrite ?Hm; [by apply qinv_amod| |done..|].
  2:{ unfold Live, aprocs; cbn. by rewrite Hp. }
  apply (cinv_ext _ A); [unfold amach; cbn; by rewrite Hm|exact Hp|done].
Qed.

Lemma live_resume d d' :
  live_ok d → state d = RUNNING → ofile d' = ofile d → kstack d' = kstack d → pgdir d' = pgdir d →
  ctx_ok (context d') → live_ok d'.
Proof.
  unfold live_ok. intros H E -> -> -> Hc. rewrite E in H. destruct H as (? & ? & ?). by destruct (state d').
Qed.

(** ** Giving the processor up

    [d'] is the data of the running process when it calls [sched], [q] the
    queue it joins and [l] what is then on it. *)
Definition queue_up (p : nat) (d' : proc) (q : qid) (l : list nat) (A : ast) : ast :=
  aset q l (aput p d' A).

Lemma leaving_queue_up A c p d d' q l :
  busy c p A → qdisj A →
  aprocs A !! p = Some d → level_ok d' → live_ok d' → fits q d' → valid_q q →
  (∀ y, y ∈ l ↔ y = p ∨ y ∈ aq A q) → NoDup l →
  (q = LQ 2 → StronglySorted (prio_le (<[p := d']> (aprocs A))) l) →
  leaving c p (queue_up p d' q l A).
Proof.
  intros Hb Hqd Hd Hlv Hlive Hf Hv Hl Hnd Hsort.
  destruct (busy_off _ _ _ _ Hb Hd) as [_ Hoff]. destruct Hb as [Hq Hc Ht Hm Hr Hv0].
  assert (state d' ≠ RUNNING) as Hst.
  { destruct q; cbn in Hf; [destruct Hf as [-> _]|rewrite Hf..]; done. }
  split.
  - eapply (qinv_enter _ _ p d'); [apply aprocs_aput_eq|done|exact Hl|exact Hsort|].
    apply qinv_put; [|exact Hoff|done|done].
    apply (qi_table _ _ Hq). eauto.
  - eapply qdisj_enter; [done|exact Hoff|exact Hl|done|by destruct Hqd; split].
  - apply (cinv_ext _ (aput p d' A)); [done..|]. eapply cinv_put; [exact Hd| |].
    + right. split; [done|]. intros c' Hc'.
      rewrite (ci_uniq _ _ Hc c c' p Hr Hc'). set_solver.
    + eapply cinv_weaken; [|exact Hc]. set_solver.
  - exact Ht.
  - exact Hm.
  - exact Hr.
  - by apply (live_put p d' A).
  - intros e. change (aprocs (queue_up p d' q l A)) with (aprocs (aput p d' A)).
    rewrite aprocs_aput_eq. by intros [= <-].
Qed.

Lemma aput_aput p d d' A : aput p d' (aput p d A) = aput p d' A.
Proof. unfold aput, aprocs. cbn. by rewrite insert_insert_eq. Qed.

Lemma aput_queue_up p d d' q l A : aput p d' (queue_up p d q l A) = queue_up p d' q l A.
Proof. unfold queue_up. rewrite <- (aput_aput p d d' A). done. Qed.

Lemma ins_prio_ext ps ps' pri x l :
  (∀ y, y ∈ l → prio_of ps' y = prio_of ps y) → ins_prio ps' pri x l = ins_prio ps pri x l.
Proof.
  induction l as [|y l IH]; intros H; cbn; [done|]. rewrite H by set_solver.
  destruct (prio_of ps y >? pri); [done|]. rewrite IH; [done|]. set_solver.
Qed.

(** Where [sched] is called: the process is queued up, the core is left. *)
Lemma R_queue_sched t s A c p d d' q l k (Q : unit → kst → Prop) :
  R s (queue_up p d' q l A) →
  busy c p A → qdisj A →
  aprocs A !! p = Some d → level_ok d' →
  live_ok (set_context (k (irq_on (amach A) c)) d') → fits q d' → valid_q q →
  (∀ y, y ∈ l ↔ y = p ∨ y ∈ aq A q) → NoDup l →
  (q = LQ 2 → StronglySorted (prio_le (<[p := set_context (k (irq_on (amach A) c)) d']> (aprocs A))) l) →
  (∀ s' m',
     let A' := amod (set_kmach m') (aleave (queue_up p (set_context (k (irq_on (amach A) c)) d') q l A)) in
     R s' A' → Inv idle A' → cprocs m' = <[c := None]> (cprocs (amach A)) → Q tt s') →
  wpg t (sched c k) Q s.
Proof.
  intros HR Hb Hqd Hd Hlv Hlive Hf Hv Hl Hnd Hsort HQ.
  eapply (R_sched _ _ _ _ _ _ _ (irq_on (amach A) c)); [exact HR|done|apply (aprocs_aput_eq p)| |].
  - rewrite aput_queue_up. eapply leaving_queue_up; [exact Hb|exact Hqd|exact Hd|exact Hlv|exact Hlive| |done..].
    by destruct q.
  - rewrite aput_queue_up. exact HQ.
Qed.

Lemma R_insert_head t s A q new (Q : unit → kst → Prop) :
  R s A → valid_q q → off new A → is_Some (aprocs A !! new) →
  (∀ s', R s' (aset q (new :: aq A q) A) → Q tt s') →
  wpg t (insert q (Some new) (hd_or (aq A q) None)) Q s.
Proof.
  intros HR Hv Hoff Hn HQ. destruct (aq A q) as [|b l] eqn:E; cbn [hd_or].
  - eapply R_insert_end; eauto. by rewrite E.
  - eapply (R_insert_before _ _ _ HR q new b [] l); eauto.
Qed.

(** ** [yield] *)

(** A tick of the running process. *)
Definition tick (d : proc) : proc := set_state RUNNABLE (set_ticks (ticks d + 1) d).

(** Its quantum, [queuelevel * 2 + 4] ticks, is used up. *)
Definition quantum_over (d : proc) : bool := ticks d =? queuelevel d * 2 + 4.

Definition demote (d : proc) : proc :=
  if quantum_over d then
    set_queuelevel (if queuelevel d =? 0 then 1 else 2)
      (if queuelevel d =? 2
       then set_priority (if priority d =? 0 then 0 else priority d - 1) (set_ticks 0 d)
       else set_ticks 0 d)
  else d.

(** The process queued by level, or by priority on level 2. *)
Definition queue_level (p : nat) (d : proc) (k : kcont) (A : ast) : ast :=
  queue_up p (set_context k d) (l_queue (queuelevel d))
    (if queuelevel d =? 2 then ins_prio (aprocs A) (priority d) p (aq A (LQ 2))
     else aq A (l_queue (queuelevel d)) ++ [p]) A.

Definition count_tick (A : ast) : ast := amod (λ s, set_global_ticks (global_ticks s + 1) s) A.

(** The holder of the scheduler lock, or the process that just dropped it,
    goes to the front of queue 0. *)
Definition privileged (p : nat) (A : ast) : bool :=
  ptr_eqb (lockproc (abase A)) (Some p) || ptr_eqb (unlockproc (abase A)) (Some p).

Definition clear_unlock (p : nat) (A : ast) : ast :=
  if ptr_eqb (unlockproc (abase A)) (Some p) then amod (set_unlockproc None) A else A.

Definition yield_queue (p : nat) (d : proc) (i : bool) (A : ast) : ast :=
  if privileged p A then
    queue_up p (set_context (K_yield i) d) (LQ 0) (p :: aq A (LQ 0)) (clear_unlock p A)
  else queue_level p (demote d) (K_yield i) A.

(** [i] tells whether interrupts were on at the call. *)
Definition ayield (p : nat) (i : bool) (A : ast) : ast :=
  match aprocs A !! p with
  | None => A
  | Some d => yield_queue p (tick d) i (count_tick A)
  end.

Lemma demote_level d : level_ok d → level_ok (demote d).
Proof.
  unfold level_ok, demote. destruct (quantum_over d); [|done].
  destruct (Z.eqb_spec (queuelevel d) 0); cbn; lia.
Qed.

Lemma demote_state d : state (demote d) = state d.
Proof. unfold demote. destruct (quantum_over d); [|done]. by destruct (queuelevel d =? 2). Qed.

Lemma demote_frame d :
  ofile (demote d) = ofile d ∧ kstack (demote d) = kstack d ∧ pgdir (demote d) = pgdir d.
Proof. unfold demote. destruct (quantum_over d); [|done]. by destruct (queuelevel d =? 2). Qed.

(** What [yield] does between its two branches and [sched]. *)
Lemma R_demote t s A p d (Q : unit → kst → Prop) :
  R s (aput p d A) →
  (∀ s', R s' (aput p (demote d) A) → Q tt s') →
  wpg t (pr ← pget (Some p);
    when (ticks pr =? queuelevel pr * 2 + 4)
       (pset (Some p) (set_ticks 0) ;;
        when (queuelevel pr =? 2)
          (pset (Some p) (set_priority (if priority pr =? 0 then 0 else priority pr - 1))) ;;
        pset (Some p) (set_queuelevel (if queuelevel pr =? 0 then 1 else 2)))) Q s.
Proof.
  intros HR HQ. apply wpg_bind. eapply R_pget; [exact HR|apply aprocs_aput_eq|]. intros pr Hpr.
  assert (ticks pr = ticks d ∧ queuelevel pr = queuelevel d ∧ priority pr = priority d) as (-> & -> & ->)
    by (by subst d).
  unfold demote, quantum_over in HQ. destruct (ticks d =? queuelevel d * 2 + 4).
  2:{ apply wpg_when_false; [done|]. by apply HQ. }
  apply wpg_when_true; [done|].
  apply wpg_bind. eapply R_pset; [exact HR|by intros ?|apply aprocs_aput_eq|]. intros s1 HR1.
  rewrite aput_aput in HR1. apply wpg_bind. destruct (queuelevel d =? 2).
  - apply wpg_when_true; [done|]. eapply R_pset; [exact HR1|by intros ?|apply aprocs_aput_eq|]. intros s2 HR2.
    rewrite aput_aput in HR2. eapply R_pset; [exact HR2|by intros ?|apply aprocs_aput_eq|]. intros s3 HR3.
    rewrite aput_aput in HR3. by apply HQ.
  - apply wpg_when_false; [done|]. eapply R_pset; [exact HR1|by intros ?|apply aprocs_aput_eq|]. intros s3 HR3.
    rewrite aput_aput in HR3. by apply HQ.
Qed.

Lemma prio_of_lookup ps x d : ps !! x = Some d → prio_of ps x = priority d.
Proof. intros H. unfold prio_of. by rewrite H. Qed.

Lemma ins_prio_aput A p d l :
  p ∉ l → ins_prio (aprocs (aput p d A)) (priority d) p l = ins_prio (aprocs A) (priority d) p l.
Proof.
  intros Hp. apply ins_prio_ext. intros y Hy. apply prio_of_ne. intros ->. done.
Qed.

(** Queueing up by level, then [sched]. *)
Lemma R_queue_level_sched t s A c p d d0 k (Q : unit → kst → Prop) :
  R s (aput p d A) → aprocs A !! p = Some d0 →
  busy c p A → qdisj A → level_ok d → state d = RUNNABLE → live_ok (set_context (k (irq_on (amach A) c)) d) →
  (∀ s' m', let A' := amod (set_kmach m') (aleave (queue_level p d (k (irq_on (amach A) c)) A)) in
     R s' A' → Inv idle A' → cprocs m' = <[c := None]> (cprocs (amach A)) → Q tt s') →
  wpg t (pr ← pget (Some p);
    (if negb (queuelevel pr =? 2) then insert (l_queue (queuelevel pr)) (Some p) None
     else base ← higherpriority_proc (Some p); insert (LQ 2) (Some p) base) ;;
    sched c k) Q s.
Proof.
  intros HR Hd0 Hb Hqd Hlv Hst Hlive HQ.
  destruct (busy_off _ _ _ _ Hb Hd0) as [_ Hoff]. pose proof (bz_q _ _ _ Hb) as Hi.
  assert (valid_q (l_queue (queuelevel d))) as Hv by (by apply l_queue_valid).
  assert (fits (l_queue (queuelevel d)) d) as Hfit.
  { unfold level_ok in Hlv. unfold l_queue, fits. split; [done|]. right.
    destruct (Z.ltb_spec (queuelevel d) 0); lia. }
  apply wpg_bind. eapply R_pget; [exact HR|apply aprocs_aput_eq|]. intros pr Hpr.
  assert (queuelevel pr = queuelevel d) as -> by (by subst d).
  apply wpg_bind. unfold queue_level in HQ. destruct (Z.eqb_spec (queuelevel d) 2) as [E2|E2]; cbn [negb].
  - rewrite E2 in *. apply wpg_bind. eapply R_higherpriority_proc; [exact HR| |apply aprocs_aput_eq|].
    { apply table_ok_aput; [apply Hi|]. apply (qi_table _ _ Hi). eauto. }
    eapply R_insert_prio; [exact HR|apply aprocs_aput_eq|exact Hoff|]. intros s1 HR1.
    rewrite ins_prio_aput in HR1 by apply Hoff.
    assert (StronglySorted (prio_le (<[p := set_context (k (irq_on (amach A) c)) d]> (aprocs A)))
              (ins_prio (aprocs A) (priority d) p (aq A (LQ 2)))) as Hsort.
    { rewrite <- (ins_prio_ext _ (<[p := set_context (k (irq_on (amach A) c)) d]> (aprocs A))).
      2:{ intros y Hy. apply prio_of_ne. intros ->. by eapply Hoff. }
      replace (priority d) with (prio_of (<[p := set_context (k (irq_on (amach A) c)) d]> (aprocs A)) p)
        by (erewrite prio_of_lookup by apply lookup_insert_eq; done).
      apply ins_prio_sorted. eapply sorted_ext; [|apply (qi_sorted _ _ Hi)].
      intros y z Hy Hz. unfold prio_le. rewrite !prio_of_ne; [done|intros ->; by eapply Hoff..]. }
    eapply (R_queue_sched _ _ A); [exact HR1|done|done|done|done|done|done|done| | |done|exact HQ].
    + intros y. apply ins_prio_elem.
    + apply NoDup_ins_prio; [apply Hoff|apply Hqd].
  - eapply R_insert_end; [exact HR|done|exact Hoff|rewrite aprocs_aput_eq; eauto|]. intros s1 HR1.
    eapply (R_queue_sched _ _ A); [exact HR1|done|done|done|done|done|done|done| | | |exact HQ].
    + intros y. change (aq (aput p d A)) with (aq A). rewrite elem_of_app. set_solver.
    + apply NoDup_app. split_and!; [apply Hqd| |apply NoDup_singleton].
      intros y Hy ->%list_elem_of_singleton. by apply Hoff in Hy.
    + unfold l_queue, level_ok in *. destruct (Z.ltb_spec (queuelevel d) 0); [lia|]. intros [= E]. lia.
Qed.

(** A state of the invariant reached from [s]: [A'] and what core [c] runs. *)
Definition reaches (A' : ast) (c : nat) (o : ptr) (A : ast) (s' : kst) : Prop :=
  ∃ m', R s' (amod (set_kmach m') A') ∧ Inv idle (amod (set_kmach m') A') ∧
        cprocs m' = <[c := o]> (cprocs (amach A)).

Lemma R_front_sched t s A c p d d0 k (Q : unit → kst → Prop) :
  R s (aput p d A) → aprocs A !! p = Some d0 →
  busy c p A → qdisj A → level_ok d → state d = RUNNABLE → live_ok (set_context (k (irq_on (amach A) c)) d) →
  (∀ s' m', let A' := amod (set_kmach m')
                (aleave (queue_up p (set_context (k (irq_on (amach A) c)) d) (LQ 0) (p :: aq A (LQ 0)) A)) in
     R s' A' → Inv idle A' → cprocs m' = <[c := None]> (cprocs (amach A)) → Q tt s') →
  wpg t ((qv ← qget (LQ 0); insert (LQ 0) (Some p) (head qv)) ;; sched c k) Q s.
Proof.
  intros HR Hd Hb Hqd Hlv Hst Hlive HQ. destruct (busy_off _ _ _ _ Hb Hd) as [_ Hoff].
  assert (valid_q (LQ 0)) as Hv by (unfold valid_q, NQUEUE; lia).
  apply wpg_bind, wpg_bind. eapply R_qget_head; [exact HR|done|]. intros qv ->.
  eapply R_insert_head; [exact HR|done|exact Hoff|rewrite aprocs_aput_eq; eauto|].
  intros s7 HR7. eapply R_queue_sched; [exact HR7|exact Hb|exact Hqd|exact Hd|exact Hlv|exact Hlive| |done| | |done|exact HQ].
  - split; [done|by left].
  - intros y. apply elem_of_cons.
  - apply NoDup_cons. split; [apply Hoff|apply Hqd].
Qed.

Lemma R_yield_queue t s A c p d (Q : unit → kst → Prop) :
  R s (aput p (tick d) A) → aprocs A !! p = Some d → busy c p A → qdisj A →
  (∀ s' m', let A' := amod (set_kmach m') (aleave (yield_queue p (tick d) (irq_on (amach A) c) A)) in
     R s' A' → Inv idle A' → cprocs m' = <[c := None]> (cprocs (amach A)) → Q tt s') →
  wpg t (lp ← gets lockproc;
    up ← gets unlockproc;
    (if ptr_eqb lp (Some p) || ptr_eqb up (Some p) then
       when (ptr_eqb up (Some p)) (modify (set_unlockproc None)) ;;
       qv ← qget (LQ 0);
       insert (LQ 0) (Some p) (head qv)
     else
       pr ← pget (Some p);
       when (ticks pr =? queuelevel pr * 2 + 4)
         (pset (Some p) (set_ticks 0) ;;
          when (queuelevel pr =? 2)
            (pset (Some p) (set_priority (if priority pr =? 0 then 0 else priority pr - 1))) ;;
          pset (Some p) (set_queuelevel (if queuelevel pr =? 0 then 1 else 2))) ;;
       pr ← pget (Some p);
       if negb (queuelevel pr =? 2) then
         insert (l_queue (queuelevel pr)) (Some p) None
       else
         base ← higherpriority_proc (Some p);
         insert (LQ 2) (Some p) base) ;;
    sched c K_yield) Q s.
Proof.
  intros HR Hd Hb Hqd HQ.
  assert (level_ok d) as Hlv by (by eapply (qi_levels _ _ (bz_q _ _ _ Hb))).
  destruct (busy_off _ _ _ _ Hb Hd) as [Hst _]. pose proof (bz_live _ _ _ Hb _ _ Hd) as Hlive.
  apply wpg_bind. eapply (R_gets _ _ _ HR); [done|].
  apply wpg_bind. eapply (R_gets _ _ _ HR); [done|].
  unfold yield_queue in HQ. fold (privileged p (aput p (tick d) A)).
  change (privileged p (aput p (tick d) A)) with (privileged p A).
  destruct (privileged p A).
  - apply wpg_assoc', wpg_bind. unfold clear_unlock in HQ.
    change (unlockproc (abase (aput p (tick d) A))) with (unlockproc (abase A)).
    destruct (ptr_eqb (unlockproc (abase A)) (Some p)) eqn:E.
    + apply wpg_when_true; [done|]. eapply (R_modify _ _ _ HR); [done..|]. intros s6 HR6.
      eapply (R_front_sched _ _ (amod (set_unlockproc None) A)); [exact HR6|exact Hd| |by destruct Hqd; split|exact Hlv|done| |exact HQ]; [|by eapply live_resume].
      apply busy_amod; [done..| |exact Hb]. apply (bz_t _ _ _ Hb).
    + apply wpg_when_false; [done|]. eapply R_front_sched; [done..| |exact HQ]. by eapply live_resume.
  - apply wpg_assoc', wpg_bind.
    pose proof (R_demote t s A p (tick d) (λ _ s', wpg t ((pr ← pget (Some p);
       if negb (queuelevel pr =? 2) then insert (l_queue (queuelevel pr)) (Some p) None
       else base ← higherpriority_proc (Some p); insert (LQ 2) (Some p) base) ;;
       sched c K_yield) Q s') HR) as Hdem.
    lapply Hdem; [clear Hdem; intros Hdem|].
    + apply wpg_bind_inv in Hdem. eapply wpg_mono; [exact Hdem|]. cbn beta. intros pr s' H. 
      apply wpg_assoc', wpg_bind. exact H.
    + intros s' HR'. apply wpg_assoc'. eapply R_queue_level_sched; [exact HR'|exact Hd|done|done| | | |exact HQ].
      * by apply demote_level.
      * by rewrite demote_state.
      * destruct (demote_frame (tick d)) as (Eo & Ek & Ep). by eapply live_resume.
Qed.

(** The machine is not looked at by the operations on the queues. *)
Lemma aleave_mach m m' A :
  amod (set_kmach m') (aleave (amod (set_kmach m) A)) = amod (set_kmach m') (aleave A).
Proof. unfold aleave; cbn. by destruct (global_ticks (abase A) =? 100). Qed.

Lemma aleave_yield_mach p d i m m' A :
  amod (set_kmach m') (aleave (yield_queue p d i (count_tick (amod (set_kmach m) A)))) =
  amod (set_kmach m') (aleave (yield_queue p d i (count_tick A))).
Proof.
  rewrite <- (aleave_mach m m' (yield_queue p d i (count_tick A))). do 2 f_equal.
  unfold yield_queue, privileged, clear_unlock; cbn.
  destruct (ptr_eqb (lockproc (abase A)) (Some p)), (ptr_eqb (unlockproc (abase A)) (Some p)); done.
Qed.

Lemma R_yield t s A c p :
  R s A → Inv idle A → aruns A c p →
  wpg t (yield c) (λ _, reaches (aleave (ayield p (irq_on (amach A) c) A)) c None A) s.
Proof.
  intros HR Hi Hr. unfold yield.
  apply wpg_bind. eapply R_me_irq; [done..|]. intros s1 m1 HR1 Hi1 Hcp1 Hq1.
  apply wpg_bind. eapply R_enter_irq; [exact HR1|exact Hi1|cbn; rewrite Hcp1; exact Hr|].
  intros s2 m2 HR2 Hi2 Hcp2 Hq2. cbn in Hcp2.
  assert (aruns (amod (set_kmach m2) A) c p) as Hr2 by (unfold aruns; cbn; rewrite Hcp2, Hcp1; exact Hr).
  change (amod (set_kmach m2) (amod (set_kmach m1) A)) with (amod (set_kmach m2) A) in *.
  destruct (inv_running _ _ _ _ Hi Hr) as (d & Hd & _). unfold ayield. rewrite Hd.
  set (A2 := amod (set_kmach m2) A) in *.
  assert (aprocs A2 !! p = Some d) as Hd2 by exact Hd.
  apply wpg_bind. eapply R_pget; [exact HR2|exact Hd2|]. intros pr Hpr.
  assert (ticks pr = ticks d) as -> by (by subst d).
  apply wpg_bind. eapply R_pset; [exact HR2|by intros ?|exact Hd2|]. intros s3 HR3.
  apply wpg_bind. eapply R_gets; [exact HR3|done|].
  apply wpg_bind. eapply (R_modify _ _ _ HR3); [done..|]. intros s4 HR4.
  apply wpg_bind. eapply (R_myproc_crit _ _ _ HR4); [exact (inv_m _ _ Hi2)|exact Hr2|].
  apply wpg_bind. eapply R_pset; [exact HR4|by intros ?|apply aprocs_aput_eq|]. intros s5 HR5.
  eapply (R_yield_queue _ _ (count_tick A2)); [|exact Hd| | |].
  - pose proof (aput_aput p (set_ticks (ticks d + 1) d) (tick d) (count_tick A2)) as <-. exact HR5.
  - apply busy_amod; [done..| |by apply inv_busy]. pose proof (inv_t _ _ Hi2). cbn in *. lia.
  - by destruct (R_qdisj _ _ HR2); split.
  - assert (irq_on (amach (count_tick A2)) c = irq_on (amach A) c) as Hq. { change (irq_on m2 c = irq_on (amach A) c). by rewrite Hq2, <- Hq1. }
    rewrite Hq. intros s' m' A' HR' Hi' Hcp'. subst A'. unfold A2 in HR', Hi'. rewrite aleave_yield_mach in HR', Hi'.
    exists m'. split_and!; [done..|]. rewrite Hcp'. cbn. by rewrite Hcp2, Hcp1.
Qed.

(** ** [sleep] *)

Definition asleep (p : nat) (ch : chan) (k : kcont) (A : ast) : ast :=
  match aprocs A !! p with
  | None => A
  | Some d =>
      queue_up p (set_context k (set_state SLEEPING (set_pchan ch d))) SleepQ (aq A SleepQ ++ [p])
        (amod (set_lockproc None) A)
  end.

(** The part of [sleep] that runs with [ptable.lock] held. *)
Lemma R_sleep_locked t s A c p ch k (Q : unit → kst → Prop) :
  R s A → busy c p A → qdisj A → ctx_ok (k (irq_on (amach A) c)) →
  (∀ s' m', let A' := amod (set_kmach m') (aleave (asleep p ch (k (irq_on (amach A) c)) A)) in
     R s' A' → Inv idle A' → cprocs m' = <[c := None]> (cprocs (amach A)) → Q tt s') →
  wpg t (releasemlfq ;; pset (Some p) (set_pchan ch) ;; pset (Some p) (set_state SLEEPING) ;;
         insert SleepQ (Some p) None ;; sched c k) Q s.
Proof.
  intros HR Hb Hqd Hk HQ.
  destruct (ci_run _ _ (bz_c _ _ _ Hb) c p (bz_r _ _ _ Hb)) as (d & Hd & _).
  destruct (busy_off _ _ _ _ Hb Hd) as [Hst Hoff]. unfold asleep in HQ. rewrite Hd in HQ.
  apply wpg_bind. eapply R_releasemlfq; [exact HR|]. intros s1 HR1.
  apply wpg_bind. eapply R_pset; [exact HR1|by intros ?|exact Hd|]. intros s2 HR2.
  apply wpg_bind. eapply R_pset; [exact HR2|by intros ?|apply aprocs_aput_eq|]. intros s3 HR3.
  rewrite aput_aput in HR3.
  apply wpg_bind. eapply R_insert_end; [exact HR3|done|exact Hoff|rewrite aprocs_aput_eq; eauto|]. intros s4 HR4.
  eapply (R_queue_sched _ _ (amod (set_lockproc None) A)); [exact HR4| | |exact Hd| | |done|done| | |done|exact HQ].
  - apply busy_amod; [done..| |done]. apply (bz_t _ _ _ Hb).
  - by destruct Hqd; split.
  - change (level_ok d). by eapply (qi_levels _ _ (bz_q _ _ _ Hb)).
  - eapply (live_resume d); [|done..]. by apply (bz_live _ _ _ Hb _ _ Hd).
  - intros y. change (aq (amod _ A)) with (aq A). rewrite elem_of_app. set_solver.
  - apply NoDup_app. split_and!; [apply Hqd| |apply NoDup_singleton].
    intros y Hy ->%list_elem_of_singleton. by apply Hoff in Hy.
Qed.

Lemma asleep_mach p ch k m m' A :
  amod (set_kmach m') (aleave (asleep p ch k (amod (set_kmach m) A))) =
  amod (set_kmach m') (aleave (asleep p ch k A)).
Proof.
  rewrite <- (aleave_mach m m' (asleep p ch k A)). do 2 f_equal. unfold asleep.
  change (aprocs (amod (set_kmach m) A)) with (aprocs A). by destruct (aprocs A !! p).
Qed.

(** [sleep] called with another lock, which it gives up. *)
Lemma R_sleep t s A c p ch lk k :
  R s A → Inv (in_crit c lk) A → lk ≠ ptable_lock → aruns A c p → ctx_ok (k (irq_on (amach A) c)) →
  wpg t (sleep c ch lk k) (λ _, reaches (aleave (asleep p ch (k (irq_on (amach A) c)) A)) c None A) s.
Proof.
  intros HR Hi Hne Hr Hk. unfold sleep.
  apply wpg_bind. eapply R_myproc_crit; [exact HR|apply (inv_m _ _ Hi)|exact Hr|].
  rewrite ptr_eqb_false by done. rewrite bool_decide_false by done. cbn [negb].
  destruct (handoff_crit c lk ptable_lock _ _ Hr (inv_m _ _ Hi) (not_eq_sym Hne))
    as (m1 & m2 & H1 & H2 & Hcrit & Hcp).
  apply wpg_bind, wpg_when_true; [done|]. apply wpg_bind.
  eapply R_onm; [exact HR|]. eapply ok_wpg; [exact H1|]. intros s1 HR1.
  eapply R_onm; [exact HR1|]. eapply ok_wpg; [exact H2|]. intros s2 HR2.
  change (amod (set_kmach m2) (amod (set_kmach m1) A)) with (amod (set_kmach m2) A) in HR2.
  assert (irq_on (amach (amod (set_kmach m2) A)) c = irq_on (amach A) c) as Hirq.
  { exact (handoff_irq _ _ _ _ _ _ c (inv_m _ _ Hi) (not_eq_sym Hne) H1 H2). }
  eapply R_sleep_locked; [exact HR2| |by eapply R_qdisj|by rewrite Hirq|].
  - destruct Hi as [Hq Hc Ht _ Hv]. split; [by apply qinv_amod| | cbn; lia |done| |exact Hv].
    + by apply (cinv_ext _ A).
    + unfold aruns, amach; cbn. by rewrite Hcp.
  - rewrite Hirq. intros s' m' A' HR' Hi' Hcp'. subst A'. rewrite asleep_mach in HR', Hi'.
    exists m'. split_and!; [done..|]. rewrite Hcp'. unfold amach; cbn. by rewrite Hcp.
Qed.

(** ** [wakeup] *)

Lemma has_levels I A : Inv I A → levels_ok A.
Proof. intros Hi. apply (inv_q _ _ Hi). Qed.

(** The invariant of the cores and the ticks after the sleepers of a channel
    woke up. *)
Lemma inv_awakeup I ch A : qdisj A → Inv I A → Inv I (awakeup ch A).
Proof.
  intros Hqd [Hq Hc Ht Hm Hv]. pose proof (awakeup_woken [] ch A Hqd Hq) as Hw.
  assert (amach (awakeup ch A) = amach A) as Em by (unfold amach; by rewrite (wk_base _ _ _ _ _ _ Hw)).
  split; rewrite ?Em; [apply Hw| |by rewrite (wk_base _ _ _ _ _ _ Hw)|done|].
  - by eapply cinv_woken.
  - by eapply live_woken.
Qed.

Lemma abase_wake_list_mach ch m l : ∀ kept A,
  wake_list ch kept l (amod (set_kmach m) A) = amod (set_kmach m) (wake_list ch kept l A).
Proof.
  induction l as [|x l IH]; intros kept A; cbn [wake_list]; [done|].
  change (aprocs (amod (set_kmach m) A)) with (aprocs A). destruct (aprocs A !! x) as [d|]; [|done].
  destruct (bool_decide (pchan d = ch)); [|apply IH]. rewrite <- IH. f_equal.
  unfold wake, enq. change (aprocs (aput x (set_state RUNNABLE d) (aset SleepQ (kept ++ l) (amod (set_kmach m) A))))
    with (aprocs (aput x (set_state RUNNABLE d) (aset SleepQ (kept ++ l) A))).
  destruct (aprocs _ !! x) as [e|]; [|done]. by destruct (queuelevel e =? 2).
Qed.

Lemma R_wakeup t s A c o ch :
  R s A → Inv idle A → cprocs (amach A) !! c = Some o →
  wpg t (wakeup c ch) (λ _, reaches (awakeup ch A) c o A) s.
Proof.
  intros HR Hi Hc. unfold wakeup.
  apply wpg_bind. eapply R_enter; [done..|]. intros s1 m1 HR1 Hi1 Hcp1.
  apply wpg_bind. eapply R_wakeup1; [exact HR1|apply (inv_q _ _ Hi1)|by eapply has_levels|]. intros s2 HR2.
  unfold awakeup in HR2. change (aq (amod _ A)) with (aq A) in HR2. rewrite abase_wake_list_mach in HR2.
  assert (Inv (in_crit c ptable_lock) (amod (set_kmach m1) (awakeup ch A))) as Hi2.
  { eapply (inv_amod idle); [by apply inv_awakeup; [eapply R_qdisj|]|apply Hi1|].
    change (cprocs m1 = cprocs (kmach (abase (awakeup ch A)))).
    rewrite (wk_base _ _ _ _ _ _ (awakeup_woken [] ch A (R_qdisj _ _ HR) (inv_q _ _ Hi))). exact Hcp1. }
  eapply R_exit; [exact HR2|exact Hi2|unfold amach; cbn; rewrite Hcp1; exact Hc|].
  intros s3 m3 HR3 Hi3 Hcp3. exists m3. split_and!; [exact HR3|exact Hi3|].
  rewrite Hcp3. unfold amach; cbn. rewrite Hcp1. symmetry. by apply list_insert_id.
Qed.

(** [wakeup] called inside the section of another lock, as the interrupt
    handlers, pipes, the log and sleep locks do. *)
Lemma R_wakeup_crit t s A c lk o ch :
  R s A → Inv (in_crit c lk) A → lk ≠ ptable_lock → cprocs (amach A) !! c = Some o →
  wpg t (wakeup c ch) (λ _ s', ∃ m', R s' (amod (set_kmach m') (awakeup ch A)) ∧
    Inv (in_crit c lk) (amod (set_kmach m') (awakeup ch A)) ∧ cprocs m' = cprocs (amach A) ∧
    (∀ c', irq_on m' c' = irq_on (amach A) c')) s.
Proof.
  intros HR Hi Hne Hc. unfold wakeup.
  destruct (nested_crit c lk ptable_lock _ (inv_m _ _ Hi) (not_eq_sym Hne)) as (m1 & m2 & H1 & H2 & Hcr & Hcp1 & Hcp2).
  apply wpg_bind. eapply R_onm; [exact HR|]. eapply ok_wpg; [exact H1|]. intros s1 HR1.
  apply wpg_bind. eapply R_wakeup1; [exact HR1|apply (inv_q _ _ Hi)|exact (has_levels _ _ Hi)|]. intros s2 HR2.
  unfold awakeup in HR2. change (aq (amod _ A)) with (aq A) in HR2. rewrite abase_wake_list_mach in HR2.
  eapply R_onm; [exact HR2|]. eapply ok_wpg; [exact H2|]. intros s3 HR3.
  exists m2. split_and!; [exact HR3| |exact Hcp2|intros c'; exact (nested_irq c lk ptable_lock _ _ _ c' (inv_m _ _ Hi) (not_eq_sym Hne) H1 H2)].
  eapply (inv_amod (in_crit c lk)); [by apply inv_awakeup; [eapply R_qdisj|]|exact Hcr|].
  change (cprocs m2 = cprocs (kmach (abase (awakeup ch A)))).
  rewrite (wk_base _ _ _ _ _ _ (awakeup_woken [] ch A (R_qdisj _ _ HR) (inv_q _ _ Hi))). exact Hcp2.
Qed.

(** ** [kill] *)

Definition pid_of (ps : gmap nat proc) (x : nat) : Z := from_option pid 0 (ps !! x).

Fixpoint first_pid (ps : gmap nat proc) (n : Z) (l : list nat) : option nat :=
  match l with
  | [] => None
  | x :: l => if pid_of ps x =? n then Some x else first_pid ps n l
  end.

Definition without (x : nat) (l : list nat) : list nat := filter (λ y, y ≠ x) l.

Lemma without_split x l1 l2 : NoDup (l1 ++ x :: l2) → without x (l1 ++ x :: l2) = l1 ++ l2.
Proof.
  intros Hnd. apply NoDup_app in Hnd as (_ & H1 & [H2 _]%NoDup_cons).
  unfold without. rewrite filter_app, filter_cons_False by tauto.
  f_equal; apply list_filter_all; intros y Hy ->; [|done]. apply (H1 x Hy). set_solver.
Qed.

(** The process gets [killed]; a sleeper becomes runnable and joins the queue
    of its level. *)
Definition akill_at (x : nat) (A : ast) : ast :=
  match aprocs A !! x with
  | None => A
  | Some d =>
      if bool_decide (state d = SLEEPING)
      then wake x (set_killed 1 d) (aset SleepQ (without x (aq A SleepQ)) A)
      else aput x (set_killed 1 d) A
  end.

Definition akill (n : Z) (A : ast) : ast :=
  match first_pid (aprocs A) n proc_table with Some x => akill_at x A | None => A end.

Lemma queued_split A x q : x ∈ aq A q → ∃ l1 l2, aq A q = l1 ++ x :: l2.
Proof. apply list_elem_of_split. Qed.

Lemma inv_akill_at I x A : qdisj A → Inv I A → Inv I (akill_at x A).
Proof.
  intros Hqd [Hq Hc Ht Hm Hv]. unfold akill_at. destruct (aprocs A !! x) as [d|] eqn:Hd; [|by split].
  case_bool_decide as Hst.
  - pose proof (qi_home _ _ Hq x d Hd (not_elem_of_nil _)) as Hx. rewrite Hst in Hx. cbn in Hx.
    destruct (queued_split _ _ _ Hx) as (l1 & l2 & E).
    rewrite E, without_split by (rewrite <- E; apply Hqd).
    set (B := wake x (set_killed 1 d) (aset SleepQ (l1 ++ l2) A)).
    assert (aprocs B = aprocs (aput x (set_state RUNNABLE (set_killed 1 d)) A)) as Ep
      by (unfold B, wake; by rewrite aprocs_enq).
    assert (abase B = set_procs (aprocs B) (abase A)) as Eb.
    { unfold B, wake, enq. rewrite aprocs_aput_eq. by destruct (queuelevel _ =? 2). }
    assert (amach B = amach A) as Em by (unfold amach; by rewrite Eb).
    split; rewrite ?Em; [| |by rewrite Eb|done|].
    + assert (QInv [] (aput x (set_killed 1 d) A)) as Hq' by (by eapply qinv_put_same).
      replace B with (wake x (set_killed 1 d) (aset SleepQ (l1 ++ l2) (aput x (set_killed 1 d) A))).
      * eapply qinv_wake; [exact E| |apply Hqd|apply aprocs_aput_eq|exact Hq'].
        intros q' Hne Hin. apply Hne. by apply (qd_disj _ Hqd q' SleepQ x).
      * unfold B, wake. f_equal.
        exact (aput_aput x (set_killed 1 d) _ (aset SleepQ (l1 ++ l2) A)).
    + eapply (cinv_ext _ (aput x (set_state RUNNABLE (set_killed 1 d)) A)); [by rewrite Em|exact Ep|]. eapply cinv_put; [exact Hd| |exact Hc]. left. cbn. rewrite Hst. by split.
    + unfold Live. rewrite Ep. apply live_put; [done|]. specialize (Hv x d Hd).
      unfold live_ok in *. by rewrite Hst in Hv.
  - split; [by eapply qinv_put_same| |done|done|apply live_put; [done|exact (Hv x d Hd)]].
    eapply cinv_put; [exact Hd| |exact Hc]. by left.
Qed.

Lemma akill_at_mach x m A : akill_at x (amod (set_kmach m) A) = amod (set_kmach m) (akill_at x A).
Proof.
  unfold akill_at. change (aprocs (amod (set_kmach m) A)) with (aprocs A).
  destruct (aprocs A !! x) as [d|]; [|done]. case_bool_decide; [|done].
  unfold wake, enq. rewrite !aprocs_aput_eq. by destruct (queuelevel _ =? 2).
Qed.

Lemma amach_akill_at x A : amach (akill_at x A) = amach A.
Proof.
  unfold akill_at. destruct (aprocs A !! x) as [d|]; [|done]. case_bool_decide; [|done].
  unfold wake, enq. rewrite !aprocs_aput_eq. by destruct (queuelevel _ =? 2).
Qed.

Lemma R_kill_at t s A c o x d (Q : unit → kst → Prop) :
  R s A → Inv (in_crit c ptable_lock) A → cprocs (amach A) !! c = Some o → aprocs A !! x = Some d →
  (∀ s' m', R s' (amod (set_kmach m') (akill_at x A)) → idle m' →
     cprocs m' = cprocs (amach A) → Q tt s') →
  wpg t (pset (Some x) (set_killed 1) ;;
         pr ← pget (Some x);
         when (bool_decide (state pr = SLEEPING))
          (pset (Some x) (set_state RUNNABLE) ;;
           delete SleepQ (Some x) ;;
           enqueue_level (Some x)) ;;
         onm (release c ptable_lock)) Q s.
Proof.
  intros HR Hi Hc Hd HQ. pose proof (R_qdisj _ _ HR) as Hqd.
  assert (∀ s1, R s1 (akill_at x A) → wpg t (onm (release c ptable_lock)) Q s1) as Hrel.
  { intros s1 HR1. eapply R_exit; [exact HR1|by apply inv_akill_at| |].
    - by rewrite amach_akill_at.
    - intros s2 m2 HR2 Hi2 Hcp2. eapply HQ; [exact HR2|apply Hi2|]. by rewrite Hcp2, amach_akill_at. }
  apply wpg_bind. eapply R_pset; [exact HR|by intros ?|exact Hd|]. intros s1 HR1.
  apply wpg_bind. eapply R_pget; [exact HR1|apply aprocs_aput_eq|]. intros pr Hpr.
  assert (state pr = state d) as -> by (change (state d) with (state (set_killed 1 d)); by rewrite <- Hpr).
  unfold akill_at in Hrel. rewrite Hd in Hrel. apply wpg_bind. case_bool_decide as Hst.
  - apply wpg_when_true; [done|].
    pose proof (qi_home _ _ (inv_q _ _ Hi) x d Hd (not_elem_of_nil _)) as Hx. rewrite Hst in Hx. cbn in Hx.
    destruct (queued_split _ _ _ Hx) as (l1 & l2 & E).
    rewrite E, without_split in Hrel by (rewrite <- E; apply Hqd).
    apply wpg_bind. eapply R_pset; [exact HR1|by intros ?|apply aprocs_aput_eq|]. intros s2 HR2.
    rewrite aput_aput in HR2.
    apply wpg_bind. eapply R_delete; [exact HR2|done|exact E|]. intros s3 HR3.
    eapply (R_enqueue_level t _ _ x (set_state RUNNABLE (set_killed 1 d))); [exact HR3| |apply aprocs_aput_eq| | |].
    + apply table_ok_aput; [apply (inv_q _ _ Hi)|]. apply (qi_table _ _ (inv_q _ _ Hi)). eauto.
    + exact (proj2 (qdisj_leave _ _ _ _ _ E Hqd)).
    + change (level_ok d). by eapply has_levels.
    + intros s4 HR4. apply Hrel. exact HR4.
  - apply wpg_when_false; [done|]. by apply Hrel.
Qed.

Lemma R_kill t s A c o n :
  R s A → Inv idle A → cprocs (amach A) !! c = Some o →
  wpg t (kill c n) (λ r s', reaches (akill n A) c o A s' ∧
     r = if first_pid (aprocs A) n proc_table then 0 else -1) s.
Proof.
  intros HR Hi Hc. unfold kill, akill.
  apply wpg_bind. eapply R_enter; [done..|]. intros s1 m1 HR1 Hi1 Hcp1.
  assert (∀ l, (∀ x, x ∈ l → (x < NPROC)%nat) →
    wpg t (kill_scan c l n) (λ r s', reaches
      (match first_pid (aprocs A) n l with Some x => akill_at x A | None => A end) c o A s' ∧
      r = if first_pid (aprocs A) n l then 0 else -1) s1) as Hscan.
  2:{ apply Hscan. intros x [_ Hx]%elem_of_seq. unfold NPROC in *; lia. }
  induction l as [|x l IH]; intros Hl; cbn [kill_scan first_pid].
  - apply wpg_bind. eapply R_exit; [exact HR1|exact Hi1|unfold amach; cbn; rewrite Hcp1; exact Hc|].
    intros s3 m3 HR3 Hi3 Hcp3. apply wpg_ret. split; [|done]. exists m3. split_and!; [done..|].
    rewrite Hcp3. unfold amach; cbn. rewrite Hcp1. symmetry. by apply list_insert_id.
  - destruct (proj2 (qi_table _ _ (inv_q _ _ Hi) x)) as [d Hd]; [apply Hl; set_solver|].
    apply wpg_bind. eapply R_pget; [exact HR1|exact Hd|]. intros pr Hpr.
    assert (pid pr = pid_of (aprocs A) x) as -> by (unfold pid_of; rewrite Hd; by subst d).
    destruct (pid_of (aprocs A) x =? n); [|apply IH; set_solver].
    pose proof (R_kill_at t s1 _ c o x d (λ _ s', wpg t (mret 0) (λ r s'', reaches (akill_at x A) c o A s'' ∧ r = 0) s')
                  HR1 Hi1 ltac:(unfold amach; cbn; rewrite Hcp1; exact Hc) Hd) as H.
    lapply H; [clear H; intros H|].
    + apply wpg_bind_inv in H. apply wpg_bind. eapply wpg_mono; [exact H|]. cbn beta. intros _ s2 H2.
      apply wpg_bind_inv in H2. apply wpg_bind. eapply wpg_mono; [exact H2|]. cbn beta. intros pr2 s3 H3.
      apply wpg_bind_inv in H3. apply wpg_bind. eapply wpg_mono; [exact H3|]. cbn beta. intros _ s4 H4.
      apply wpg_bind. exact H4.
    + intros s2 m2 HR2 Hid Hcp2. apply wpg_ret. split; [|done]. exists m2.
      rewrite akill_at_mach in HR2. split_and!; [exact HR2| |].
      * eapply (inv_amod idle); [apply inv_akill_at; [by eapply R_qdisj|done]|done|].
        rewrite amach_akill_at, Hcp2. exact Hcp1.
      * rewrite Hcp2. unfold amach; cbn. rewrite Hcp1. symmetry. by apply list_insert_id.
Qed.
End Ops.
