(* ===== verification/MlfqCalls.v ===== *)
(** * The MLFQ operations on the abstract state: lock, priority, scheduler,
    process creation and exit *)

From S2P Require Export MlfqOps.
From Stdlib Require Import Sorted.
Local Open Scope Z_scope.

Section Calls.
Context {KE : KernelEnv}.

(** ** States with the same queues *)

Lemma R_aq_ext s A A' : abase A' = abase A → (∀ q, aq A' q = aq A q) → R s A → R s A'.
Proof.
  intros Eb Eq [[Hval Hrep Hnone Hdis] Hb]. split; [split|by rewrite Eb]; [done|..].
  - intros q qv. rewrite Eq. apply Hrep.
  - intros q. rewrite Eq. apply Hnone.
  - intros q q' x. rewrite !Eq. apply Hdis.
Qed.

Lemma qinv_aq_ext X A A' : abase A' = abase A → (∀ q, aq A' q = aq A q) → QInv X A → QInv X A'.
Proof.
  intros Eb Eq [Ht Hl Hf Hh Hs]. assert (aprocs A' = aprocs A) as Ep by (unfold aprocs; by rewrite Eb).
  split; unfold table_ok, levels_ok; rewrite ?Ep; [done..| | |by rewrite Eq].
  - intros q x. rewrite Eq. apply Hf.
  - intros x d Hx HX. specialize (Hh x d Hx HX). destruct (state d); unfold home in *; rewrite ?Eq; try done.
    destruct Hh as [k Hk]. exists k. by rewrite Eq.
Qed.

Lemma aset_same q q' A : aq (aset q (aq A q) A) q' = aq A q'.
Proof. destruct (decide (q' = q)) as [->|]; [by rewrite aq_aset_eq|by rewrite aq_aset_ne]. Qed.

(** ** Moves of the invariant *)

Lemma inv_gmod I f A :
  procs (f (abase A)) = procs (abase A) → kmach (f (abase A)) = kmach (abase A) →
  0 ≤ global_ticks (f (abase A)) < 100 → Inv I A → Inv I (amod f A).
Proof.
  intros Hp Hm Ht [Hq Hc _ HI Hv]. split; [by apply qinv_amod| |done| |].
  - apply (cinv_ext _ A); [unfold amach; cbn; by rewrite Hm|exact Hp|done].
  - unfold amach; cbn. by rewrite Hm.
  - unfold Live, aprocs; cbn. by rewrite Hp.
Qed.

(** New data for a process that is on no queue. *)
Lemma inv_put I x d d' A :
  aprocs A !! x = Some d → queued (state d) = false → queued (state d') = false →
  (state d' = RUNNING ↔ state d = RUNNING) → level_ok d' → live_ok d' →
  Inv I A → Inv I (aput x d' A).
Proof.
  intros Hd Hq Hq' Hr Hlv Hl [HQ Hc Ht HI Hv]. split; [|by eapply cinv_put; eauto|done|done|by apply live_put].
  eapply qinv_unqueued; [apply aprocs_aput_eq|done|].
  apply qinv_put; [apply (qi_table _ _ HQ); eauto|by eapply off_unqueued|done|done].
Qed.

(** Such a process joins a queue at its end. *)
Lemma inv_put_end I q x d d' A :
  aprocs A !! x = Some d → queued (state d) = false → state d ≠ RUNNING → fits q d' → q ≠ LQ 2 →
  level_ok d' → live_ok d' → Inv I A → Inv I (aset q (aq A q ++ [x]) (aput x d' A)).
Proof.
  intros Hd Hq Hnr Hf Hne Hlv Hl [HQ Hc Ht HI Hv].
  assert (state d' ≠ RUNNING) by (by destruct q; cbn in Hf; [destruct Hf as [-> _]|rewrite Hf..]).
  split; [| |done|done|].
  - eapply (qinv_enter _ _ x d'); [apply aprocs_aput_eq|done| |done|].
    + intros y. change (aq (aput x d' A)) with (aq A). rewrite elem_of_app. set_solver.
    + apply qinv_put; [apply (qi_table _ _ HQ); eauto|by eapply off_unqueued|done|done].
  - apply (cinv_ext _ (aput x d' A)); [done..|]. eapply cinv_put; [exact Hd| |done]. left. tauto.
  - by apply (live_put x d' A).
Qed.

(** The first process of a queue leaves it. *)
Lemma inv_take I q x d d' l A :
  qdisj A → aq A q = x :: l → aprocs A !! x = Some d → queued (state d') = false → state d' ≠ RUNNING →
  level_ok d' → live_ok d' → Inv I A → Inv I (aput x d' (aset q l A)).
Proof.
  intros Hqd Hq Hd Hq' Hnr Hlv Hl [HQ Hc Ht HI Hv].
  destruct (qi_fits _ _ HQ q x) as (e & He & Hf); [rewrite Hq; set_solver|]. simplify_eq.
  assert (state d ≠ RUNNING) by (by destruct q; cbn in Hf; [destruct Hf as [-> _]|rewrite Hf..]).
  split; [| |done|done|by apply live_put].
  - eapply qinv_unqueued; [apply aprocs_aput_eq|done|]. eapply (qinv_weaken (x :: x :: [])); [set_solver|].
    apply qinv_put; [apply (qi_table _ _ HQ); eauto| |done|by apply (qinv_leave _ _ _ [])].
    exact (proj2 (qdisj_leave q x [] l A Hq Hqd)).
  - apply (cinv_put _ x d); [exact Hd|left; tauto|]. by apply (cinv_ext _ A).
Qed.

(** ** The scheduler lock *)

Definition alock (p : nat) (A : ast) : ast :=
  if ptr_eqb (lockproc (abase A)) None
  then amod (set_global_ticks 0) (amod (set_lockproc (Some p)) A) else A.

Definition aunlock (p : nat) (A : ast) : ast :=
  match aprocs A !! p with
  | Some d =>
      if ptr_eqb (lockproc (abase A)) None then A
      else aput p (reset d) (amod (set_unlockproc (Some p)) (amod (set_lockproc None) A))
  | None => A
  end.

Lemma inv_alock I p A : Inv I A → Inv I (alock p A).
Proof.
  intros Hi. unfold alock. destruct (ptr_eqb _ _); [|done].
  apply inv_gmod; [done..|cbn; lia|]. apply inv_gmod; [done..| |done]. apply Hi.
Qed.

Lemma inv_aunlock I c p A : aruns A c p → Inv I A → Inv I (aunlock p A).
Proof.
  intros Hr Hi. unfold aunlock. destruct (inv_running _ _ _ _ Hi Hr) as (d & Hd & Hst). rewrite Hd.
  destruct (ptr_eqb _ _); [done|]. eapply (inv_put _ p d); [exact Hd|by rewrite Hst|cbn; by rewrite Hst|done| | |].
  - unfold level_ok; cbn; lia.
  - exact (inv_live _ _ Hi p d Hd).
  - apply inv_gmod; [done..|apply Hi|]. apply inv_gmod; [done..|apply Hi|done].
Qed.

Lemma reaches_intro A' c o A s' m' :
  R s' (amod (set_kmach m') A') → Inv idle (amod (set_kmach m') A') →
  cprocs (amach A) !! c = Some o → cprocs m' = cprocs (amach A) → reaches A' c o A s'.
Proof. intros HR Hi Hc Hcp. exists m'. split_and!; [done..|]. rewrite Hcp. symmetry. by apply list_insert_id. Qed.

Lemma R_mlfqlock t s A c p (Q : unit → kst → Prop) :
  R s A → in_crit c ptable_lock (amach A) → aruns A c p →
  (∀ s', R s' (alock p A) → Q tt s') → wpg t (mlfqlock c) Q s.
Proof.
  intros HR Hc Hr HQ. unfold mlfqlock.
  apply wpg_bind. eapply R_myproc_crit; [exact HR|exact Hc|exact Hr|].
  apply wpg_bind. eapply R_gets; [exact HR|done|]. unfold alock in HQ. destruct (ptr_eqb _ _).
  - apply wpg_when_true; [done|]. apply wpg_bind. eapply R_modify; [exact HR|done..|]. intros s1 HR1.
    eapply R_modify; [exact HR1|done..|]. exact HQ.
  - apply wpg_when_false; [done|]. by apply HQ.
Qed.

Lemma R_mlfqunlock t s A c p (Q : unit → kst → Prop) :
  R s A → in_crit c ptable_lock (amach A) → aruns A c p → is_Some (aprocs A !! p) →
  (∀ s', R s' (aunlock p A) → Q tt s') → wpg t (mlfqunlock c) Q s.
Proof.
  intros HR Hc Hr [d Hd] HQ. unfold mlfqunlock.
  apply wpg_bind. eapply R_myproc_crit; [exact HR|exact Hc|exact Hr|].
  apply wpg_bind. eapply R_gets; [exact HR|done|]. unfold aunlock in HQ. rewrite Hd in HQ. destruct (ptr_eqb _ _).
  - apply wpg_when_false; [done|]. by apply HQ.
  - apply wpg_when_true; [done|]. apply wpg_bind. eapply R_modify; [exact HR|done..|]. intros s1 HR1.
    apply wpg_bind. eapply R_modify; [exact HR1|done..|]. intros s2 HR2.
    apply wpg_bind. eapply R_pset; [exact HR2|by intros ?|exact Hd|]. intros s3 HR3.
    apply wpg_bind. eapply R_pset; [exact HR3|by intros ?|apply aprocs_aput_eq|]. intros s4 HR4.
    eapply R_pset; [exact HR4|by intros ?|apply aprocs_aput_eq|]. intros s5 HR5.
    apply HQ. by rewrite !aput_aput in HR5.
Qed.

(** The two system calls, with the right password. *)
Lemma R_schedulerLock t s A c p :
  R s A → Inv idle A → aruns A c p →
  wpg t (schedulerLock c scheduler_password) (λ _, reaches (alock p A) c (Some p) A) s.
Proof.
  intros HR Hi Hr. unfold schedulerLock. apply wpg_bind. eapply R_me; [done..|]. intros s1 m1 HR1 Hi1 Hcp1.
  rewrite Z.eqb_refl. cbn [negb].
  apply wpg_bind. eapply R_enter; [exact HR1|exact Hi1|cbn; rewrite Hcp1; exact Hr|]. intros s2 m2 HR2 Hi2 Hcp2.
  cbn in Hcp2. assert (cprocs m2 = cprocs (amach A)) as Ecp by congruence.
  apply wpg_bind. eapply (R_mlfqlock _ _ _ _ p); [exact HR2|apply (inv_m _ _ Hi2)|unfold aruns, amach; cbn; by rewrite Ecp|].
  intros s3 HR3. eapply R_exit; [exact HR3|by apply inv_alock| |].
  - unfold alock; cbn. destruct (ptr_eqb _ _); unfold amach; cbn; by rewrite Ecp.
  - intros s4 m4 HR4 Hi4 Hcp4. eapply (reaches_intro _ _ _ _ _ m4); [| |exact Hr|].
    + unfold alock in *; cbn in *. destruct (ptr_eqb _ _); exact HR4.
    + unfold alock in *; cbn in *. destruct (ptr_eqb _ _); exact Hi4.
    + rewrite Hcp4. unfold alock; cbn. destruct (ptr_eqb _ _); exact Ecp.
Qed.

Lemma R_schedulerUnlock t s A c p :
  R s A → Inv idle A → aruns A c p →
  wpg t (schedulerUnlock c scheduler_password) (λ _, reaches (aunlock p A) c (Some p) A) s.
Proof.
  intros HR Hi Hr. unfold schedulerUnlock. apply wpg_bind. eapply R_me; [done..|]. intros s1 m1 HR1 Hi1 Hcp1.
  rewrite Z.eqb_refl. cbn [negb].
  apply wpg_bind. eapply R_enter; [exact HR1|exact Hi1|cbn; rewrite Hcp1; exact Hr|]. intros s2 m2 HR2 Hi2 Hcp2.
  cbn in Hcp2. assert (cprocs m2 = cprocs (amach A)) as Ecp by congruence.
  destruct (inv_running _ _ _ _ Hi Hr) as (d & Hd & _).
  apply wpg_bind. eapply (R_mlfqunlock _ _ _ _ p); [exact HR2|apply (inv_m _ _ Hi2)|unfold aruns, amach; cbn; by rewrite Ecp|by exists d|].
  assert (aunlock p (amod (set_kmach m2) A) = amod (set_kmach m2) (aunlock p A)) as Eu.
  { unfold aunlock. change (aprocs (amod _ A)) with (aprocs A). rewrite Hd. cbn. by destruct (ptr_eqb _ _). }
  assert (amach (aunlock p A) = amach A) as Em.
  { unfold aunlock. rewrite Hd. by destruct (ptr_eqb _ _). }
  intros s3 HR3. eapply R_exit; [exact HR3| | |].
  - eapply inv_aunlock; [|exact Hi2]. unfold aruns, amach; cbn. by rewrite Ecp.
  - change (amod (set_kmach m2) (amod (set_kmach m1) A)) with (amod (set_kmach m2) A).
    rewrite Eu. unfold amach; cbn. by rewrite Ecp.
  - change (amod (set_kmach m2) (amod (set_kmach m1) A)) with (amod (set_kmach m2) A).
    rewrite Eu. intros s4 m4 HR4 Hi4 Hcp4. eapply (reaches_intro _ _ _ _ _ m4); [exact HR4|exact Hi4|exact Hr|].
    rewrite Hcp4. exact Ecp.
Qed.

(** ** [setPrioity_arrangeQueue] *)

Fixpoint last_pid (ps : gmap nat proc) (n : Z) (l : list nat) (o : ptr) : ptr :=
  match l with
  | [] => o
  | x :: l => last_pid ps n l (if pid_of ps x =? n then Some x else o)
  end.

Definition in_l2 (d : proc) : bool := (queuelevel d =? 2) && bool_decide (state d = RUNNABLE).

Definition asetprio_at (x : nat) (prio : Z) (A : ast) : ast :=
  match aprocs A !! x with
  | Some d =>
      if bool_decide (state d = UNUSED) then A
      else if in_l2 d then
        aset (LQ 2) (ins_prio (aprocs A) prio x (without x (aq A (LQ 2)))) (aput x (set_priority prio d) A)
      else aput x (set_priority prio d) A
  | None => A
  end.

Definition asetprio (n prio : Z) (A : ast) : ast :=
  match last_pid (aprocs A) n proc_table None with
  | Some x => asetprio_at x prio A
  | None => A
  end.

(** The target of the call is where its level says. *)
Definition settled (A : ast) (x : nat) : Prop :=
  ∀ d, aprocs A !! x = Some d → in_l2 d = true → x ∈ aq A (LQ 2).

Lemma R_last_with_pid t s A n l o (Q : ptr → kst → Prop) :
  R s A → (∀ x, x ∈ l → is_Some (aprocs A !! x)) →
  Q (last_pid (aprocs A) n l o) s → wpg t (last_with_pid l n o) Q s.
Proof.
  intros HR. revert o. induction l as [|x l IH]; intros o Hl HQ; cbn in *; [by apply wpg_ret|].
  destruct (Hl x) as [d Hd]; [set_solver|]. apply wpg_bind. eapply R_pget; [done..|]. intros pr Hpr.
  assert (pid pr = pid_of (aprocs A) x) as -> by (unfold pid_of; rewrite Hd; by subst d).
  apply IH; [|done]. intros y Hy. apply Hl. set_solver.
Qed.

Lemma table_elems A : table_ok A → ∀ x, x ∈ proc_table → is_Some (aprocs A !! x).
Proof. intros Ht x [_ Hx]%elem_of_seq. apply Ht. unfold NPROC in *; lia. Qed.

Lemma last_pid_table ps n l : ∀ o x, last_pid ps n l o = Some x → o = Some x ∨ x ∈ l.
Proof.
  induction l as [|y l IH]; intros o x; cbn; [by left|]. intros [H|H]%IH; [|set_solver].
  destruct (pid_of ps y =? n); [|by left]. simplify_eq. set_solver.
Qed.

Lemma first_above_skip ps pri l1 x l2 :
  prio_of ps x ≤ pri → first_above ps pri (l1 ++ x :: l2) = first_above ps pri (l1 ++ l2).
Proof.
  intros Hx. induction l1 as [|y l1 IH]; cbn.
  - destruct (Z.gtb_spec (prio_of ps x) pri); [lia|done].
  - by rewrite IH.
Qed.

(** A new priority for a process, with queue 2 in the order of the new
    priorities. *)
Lemma qinv_reprio X x d d' l A :
  aprocs A !! x = Some d → state d' = state d → queuelevel d' = queuelevel d →
  (∀ y, y ∈ l ↔ y ∈ aq A (LQ 2)) → StronglySorted (prio_le (aprocs (aput x d' A))) l →
  QInv X A → QInv X (aset (LQ 2) l (aput x d' A)).
Proof.
  intros Hx Es El Hl2 Hsort [Ht Hl Hf Hh Hs].
  assert (∀ q y, y ∈ aq (aset (LQ 2) l (aput x d' A)) q ↔ y ∈ aq A q) as Hin.
  { intros q y. destruct (decide (q = LQ 2)) as [->|]; [by rewrite aq_aset_eq|by rewrite aq_aset_ne]. }
  split; [| | | |by rewrite aq_aset_eq].
  - apply (table_ok_aput x d' A); [done|]. apply Ht. eauto.
  - intros y e. change (aprocs (aset (LQ 2) l (aput x d' A))) with (aprocs (aput x d' A)).
    destruct (decide (y = x)) as [->|].
    + rewrite aprocs_aput_eq. intros [= <-]. unfold level_ok. rewrite El. by eapply Hl.
    + rewrite aprocs_aput_ne by done. apply Hl.
  - intros q y. rewrite Hin. intros Hy. destruct (Hf q y Hy) as (e & He & Hfit).
    change (aprocs (aset (LQ 2) l (aput x d' A))) with (aprocs (aput x d' A)).
    destruct (decide (y = x)) as [->|].
    + rewrite aprocs_aput_eq. eexists; split; [done|]. simplify_eq.
      unfold fits in *. by destruct q; rewrite ?Es, ?El.
    + rewrite aprocs_aput_ne by done. eauto.
  - intros y e. change (aprocs (aset (LQ 2) l (aput x d' A))) with (aprocs (aput x d' A)).
    assert (∀ st, home A y st → home (aset (LQ 2) l (aput x d' A)) y st) as Hhome.
    { intros []; unfold home; try done; intros H; [by apply Hin..|].
      destruct H as [k Hk]. exists k. by apply Hin. }
    destruct (decide (y = x)) as [->|].
    + rewrite aprocs_aput_eq. intros [= <-] HX. rewrite Es. by apply Hhome, (Hh x d).
    + rewrite aprocs_aput_ne by done. intros Hy HX. by apply Hhome, Hh.
Qed.

Lemma in_l2_true d : in_l2 d = true ↔ queuelevel d = 2 ∧ state d = RUNNABLE.
Proof. unfold in_l2. by rewrite andb_true_iff, Z.eqb_eq, bool_decide_eq_true. Qed.

Lemma sorted_aput_off x d' l A :
  x ∉ l → StronglySorted (prio_le (aprocs A)) l → StronglySorted (prio_le (aprocs (aput x d' A))) l.
Proof.
  intros Hx. apply sorted_ext. intros y z Hy Hz. unfold prio_le, aput, aprocs; cbn.
  rewrite !prio_of_ne; [done|by intros ->..].
Qed.

Lemma qinv_asetprio x prio d A :
  qdisj A → settled A x → aprocs A !! x = Some d → QInv [] A →
  QInv [] (if in_l2 d
           then aset (LQ 2) (ins_prio (aprocs A) prio x (without x (aq A (LQ 2)))) (aput x (set_priority prio d) A)
           else aput x (set_priority prio d) A).
Proof.
  intros Hqd Hset Hd HQ. destruct (in_l2 d) eqn:E2.
  - destruct (queued_split _ _ _ (Hset d Hd E2)) as (l1 & l2 & E).
    pose proof (qd_nodup _ Hqd (LQ 2)) as Hnd. rewrite E in Hnd. rewrite E, without_split by done.
    apply NoDup_app in Hnd as (_ & Hx1 & [Hx2 _]%NoDup_cons).
    assert (x ∉ l1 ++ l2) as Hx by set_solver.
    eapply qinv_reprio; [exact Hd|done|done| | |done].
    + intros y. rewrite ins_prio_elem, E. set_solver.
    + change prio with (priority (set_priority prio d)) at 2.
      rewrite <- (ins_prio_aput A x (set_priority prio d) _ Hx).
      assert (priority (set_priority prio d) = prio_of (aprocs (aput x (set_priority prio d) A)) x) as ->
        by (by erewrite prio_of_lookup by apply aprocs_aput_eq).
      apply ins_prio_sorted, sorted_aput_off; [done|].
      eapply sorted_sublist. rewrite <- E. apply (qi_sorted _ _ HQ).
  - assert (x ∉ aq A (LQ 2)) as Hx.
    { intros Hin. destruct (qi_fits _ _ HQ _ _ Hin) as (e & He & Hs & Hl). simplify_eq.
      destruct Hl as [?|Hl]; [done|]. by rewrite (proj2 (in_l2_true d)) in E2. }
    eapply qinv_aq_ext; [|by intros q; symmetry; apply aset_same|
      apply (qinv_reprio [] x d (set_priority prio d) (aq A (LQ 2)) A); try done]; [done|].
    by apply sorted_aput_off, HQ.
Qed.

Lemma inv_asetprio_at I x prio A : qdisj A → settled A x → Inv I A → Inv I (asetprio_at x prio A).
Proof.
  intros Hqd Hset [HQ Hc Ht HI Hv]. unfold asetprio_at. destruct (aprocs A !! x) as [d|] eqn:Hd; [|by split].
  case_bool_decide as Hu; [by split|].
  pose proof (qinv_asetprio x prio d A Hqd Hset Hd HQ) as HQ'.
  assert (CInv [] (aput x (set_priority prio d) A)) as Hc' by (eapply cinv_put; [exact Hd|by left|done]).
  assert (Live (aput x (set_priority prio d) A)) as Hv' by (apply live_put; [done|exact (Hv x d Hd)]).
  destruct (in_l2 d); split; try done. by apply (cinv_ext _ (aput x (set_priority prio d) A)).
Qed.

Lemma R_asetprio_at t s A x prio d (Q : unit → kst → Prop) :
  R s A → table_ok A → settled A x → aprocs A !! x = Some d →
  (∀ s', R s' (asetprio_at x prio A) → Q tt s') →
  wpg t (pr ← pget (Some x);
     if bool_decide (state pr = UNUSED) then mret tt
     else
       pset (Some x) (set_priority prio) ;;
       pr ← pget (Some x);
       if (queuelevel pr =? 2) && bool_decide (state pr = RUNNABLE) then
         base ← higherpriority_proc (Some x);
         delete (LQ 2) (Some x) ;;
         insert (LQ 2) (Some x) base
       else mret tt) Q s.
Proof.
  intros HR Ht Hset Hd HQ. pose proof (R_qdisj _ _ HR) as Hqd. unfold asetprio_at in HQ. rewrite Hd in HQ.
  apply wpg_bind. eapply R_pget; [done..|]. intros pr Hpr.
  assert (state pr = state d) as -> by (by subst d). case_bool_decide; [by apply wpg_ret, HQ|].
  apply wpg_bind. eapply R_pset; [exact HR|by intros ?|exact Hd|]. intros s1 HR1.
  apply wpg_bind. eapply R_pget; [exact HR1|apply aprocs_aput_eq|]. intros pr2 Hpr2.
  assert (((queuelevel pr2 =? 2) && bool_decide (state pr2 = RUNNABLE)) = in_l2 d) as ->.
  { change (in_l2 (unlink pr2) = in_l2 d). by rewrite Hpr2. }
  destruct (in_l2 d) eqn:E2; [|by apply wpg_ret, HQ].
  destruct (queued_split _ _ _ (Hset d Hd E2)) as (l1 & l2 & E).
  pose proof (qd_nodup _ Hqd (LQ 2)) as Hnd. rewrite E in Hnd. rewrite E, without_split in HQ by done.
  pose proof (proj2 (qdisj_leave _ _ _ _ _ E Hqd)) as Hoff.
  assert (valid_q (LQ 2)) as Hv2 by (unfold valid_q, NQUEUE; lia).
  apply wpg_bind. eapply R_higherpriority_proc; [exact HR1| |apply aprocs_aput_eq|].
  { apply table_ok_aput; [done|]. apply Ht. eauto. }
  apply wpg_bind. eapply R_delete; [exact HR1|done|exact E|]. intros s2 HR2.
  change (aq (aput x (set_priority prio d) A) (LQ 2)) with (aq A (LQ 2)). rewrite E, first_above_skip.
  2:{ erewrite prio_of_lookup by apply aprocs_aput_eq. done. }
  pose proof (R_insert_prio t s2 (aset (LQ 2) (l1 ++ l2) (aput x (set_priority prio d) A)) x (set_priority prio d)) as Hins.
  rewrite aq_aset_eq in Hins. eapply Hins; [exact HR2|apply aprocs_aput_eq|exact Hoff|]. intros s3 HR3.
  apply HQ. eapply R_aq_ext; [| |exact HR3]; [done|].
  intros q. destruct (decide (q = LQ 2)) as [->|]; [|by rewrite !aq_aset_ne]. rewrite !aq_aset_eq.
  symmetry. apply (ins_prio_aput A x (set_priority prio d)). pose proof (Hoff (LQ 2)) as Ho.
  by rewrite aq_aset_eq in Ho.
Qed.

(** Every process the call may pick is where its level says; the one it picks
    is. *)
Definition all_settled (A : ast) : Prop := ∀ x, settled A x.
Definition target_settled (n : Z) (A : ast) : Prop := ∀ x, last_pid (aprocs A) n proc_table None = Some x → settled A x.

Lemma all_target_settled n A : all_settled A → target_settled n A.
Proof. intros H x _. apply H. Qed.

(** The process that the call picks is runnable and of level 2, but waits on
    another queue: queue 0, where [yield] puts the holder of the scheduler
    lock. *)
Definition misplaced (n : Z) (A : ast) : Prop :=
  ∃ x d, last_pid (aprocs A) n proc_table None = Some x ∧ aprocs A !! x = Some d ∧
    queuelevel d = 2 ∧ state d = RUNNABLE ∧ x ∉ aq A (LQ 2).

Lemma settled_or_misplaced n A : target_settled n A ∨ misplaced n A.
Proof.
  destruct (last_pid (aprocs A) n proc_table None) as [x|] eqn:Ex; [|left; intros ? H; by rewrite Ex in H].
  destruct (aprocs A !! x) as [d|] eqn:Ed; [|left; intros y Hy d H; rewrite Ex in Hy; injection Hy as <-; by rewrite Ed in H].
  destruct (in_l2 d) eqn:E2; [|left; intros y Hy e H; rewrite Ex in Hy; injection Hy as <-; rewrite Ed in H; injection H as <-; by rewrite E2].
  destruct (decide (x ∈ aq A (LQ 2))) as [Hin|Hin]; [left; intros y Hy e H _; rewrite Ex in Hy; by injection Hy as <-|].
  right. exists x, d. apply in_l2_true in E2 as [? ?]. by split_and!.
Qed.

Lemma asetprio_at_mach x prio m A :
  asetprio_at x prio (amod (set_kmach m) A) = amod (set_kmach m) (asetprio_at x prio A).
Proof.
  unfold asetprio_at. change (aprocs (amod (set_kmach m) A)) with (aprocs A).
  destruct (aprocs A !! x) as [d|]; [|done]. by destruct (bool_decide _), (in_l2 d).
Qed.

Lemma amach_asetprio_at x prio A : amach (asetprio_at x prio A) = amach A.
Proof.
  unfold asetprio_at. destruct (aprocs A !! x) as [d|]; [|done]. by destruct (bool_decide _), (in_l2 d).
Qed.

Lemma R_setPrioity t s A c o n prio :
  R s A → Inv idle A → cprocs (amach A) !! c = Some o → target_settled n A →
  wpg t (setPrioity_arrangeQueue c n prio) (λ _, reaches (asetprio n prio A) c o A) s.
Proof.
  intros HR Hi Hc Hset. unfold setPrioity_arrangeQueue.
  apply wpg_bind. eapply R_enter; [done..|]. intros s1 m1 HR1 Hi1 Hcp1.
  apply wpg_bind. eapply R_last_with_pid; [exact HR1|apply table_elems, Hi1|].
  unfold asetprio. change (aprocs (amod (set_kmach m1) A)) with (aprocs A).
  assert (∀ B s2, R s2 (amod (set_kmach m1) B) → Inv (in_crit c ptable_lock) (amod (set_kmach m1) B) →
    wpg t (onm (release c ptable_lock)) (λ _, reaches B c o A) s2) as Hrel.
  { intros B s2 HR2 Hi2. eapply R_exit; [exact HR2|exact Hi2|unfold amach; cbn; rewrite Hcp1; exact Hc|].
    intros s3 m3 HR3 Hi3 Hcp3. eapply reaches_intro; [exact HR3|exact Hi3|exact Hc|].
    rewrite Hcp3. exact Hcp1. }
  destruct (last_pid (aprocs A) n proc_table None) as [x|] eqn:Ex.
  - rewrite ptr_eqb_false by done. apply wpg_bind.
    destruct (last_pid_table _ _ _ _ _ Ex) as [?|Hx]; [done|].
    destruct (table_elems A (qi_table _ _ (inv_q _ _ Hi)) x Hx) as [d Hd].
    eapply R_asetprio_at; [exact HR1|apply Hi1|exact (Hset x Ex)|exact Hd|]. intros s2 HR2.
    rewrite asetprio_at_mach in HR2. apply Hrel; [exact HR2|].
    rewrite <- asetprio_at_mach. apply inv_asetprio_at; [by eapply R_qdisj|exact (Hset x Ex)|exact Hi1].
  - rewrite ptr_eqb_true by done. apply wpg_bind, wpg_ret. by apply Hrel.
Qed.
End Calls.
