(* ===== verification/MlfqSched.v ===== *)
(** * The MLFQ scheduler, process creation, exit and wait on the abstract state *)

From S2P Require Export MlfqCalls.
Local Open Scope Z_scope.

Section Sched.
Context {KE : KernelEnv}.

(** ** Picking a process *)

(** The head of the first queue that is not empty. *)
Definition apick (A : ast) : option (qid * nat * list nat) :=
  match aq A (LQ 0), aq A (LQ 1), aq A (LQ 2) with
  | x :: l, _, _ => Some (LQ 0, x, l)
  | [], x :: l, _ => Some (LQ 1, x, l)
  | [], [], x :: l => Some (LQ 2, x, l)
  | [], [], [] => None
  end.

Lemma apick_some A q x l : apick A = Some (q, x, l) → aq A q = x :: l ∧ valid_q q ∧ ∃ k, q = LQ k.
Proof.
  unfold apick, valid_q, NQUEUE.
  destruct (aq A (LQ 0)) eqn:E0; [|intros [= <- <- <-]; rewrite E0; split_and!; [done|lia|eauto]].
  destruct (aq A (LQ 1)) eqn:E1; [|intros [= <- <- <-]; rewrite E1; split_and!; [done|lia|eauto]].
  destruct (aq A (LQ 2)) eqn:E2; [done|intros [= <- <- <-]; rewrite E2; split_and!; [done|lia|eauto]].
Qed.

Lemma R_scheduler_pick t s A (Q : option ptr → kst → Prop) :
  R s A →
  match apick A with
  | Some (q, x, l) => ∀ s', R s' (aset q l A) → Q (Some (Some x)) s'
  | None => Q None s
  end → wpg t scheduler_pick Q s.
Proof.
  intros HR HQ. unfold scheduler_pick.
  assert (∀ k, (k < NQUEUE)%nat → valid_q (LQ k)) as Hv by done.
  apply wpg_bind. eapply R_queue_is_empty; [exact HR|apply Hv; unfold NQUEUE; lia|]. unfold apick in HQ.
  destruct (aq A (LQ 0)) as [|x l] eqn:E0; cbn [bool_decide negb].
  2:{ rewrite bool_decide_false by done. apply wpg_bind. eapply R_dequeue; [exact HR|apply Hv; unfold NQUEUE; lia|exact E0|].
      intros s' HR'. by apply wpg_ret, HQ. }
  rewrite bool_decide_true by done. cbn [negb].
  apply wpg_bind. eapply R_queue_is_empty; [exact HR|apply Hv; unfold NQUEUE; lia|].
  destruct (aq A (LQ 1)) as [|x l] eqn:E1.
  2:{ rewrite bool_decide_false by done. apply wpg_bind. eapply R_dequeue; [exact HR|apply Hv; unfold NQUEUE; lia|exact E1|].
      intros s' HR'. by apply wpg_ret, HQ. }
  rewrite bool_decide_true by done. cbn [negb].
  apply wpg_bind. eapply R_queue_is_empty; [exact HR|apply Hv; unfold NQUEUE; lia|].
  destruct (aq A (LQ 2)) as [|x l] eqn:E2.
  2:{ rewrite bool_decide_false by done. apply wpg_bind. eapply R_dequeue; [exact HR|apply Hv; unfold NQUEUE; lia|exact E2|].
      intros s' HR'. by apply wpg_ret, HQ. }
  rewrite bool_decide_true by done. cbn [negb]. by apply wpg_ret.
Qed.

(** ** The machine under the scheduler *)

Lemma flag_idle c b m o :
  idle m → cprocs m !! c = Some o →
  ∃ m', (k ← deref (λ m, cores m !! c); modify (set_core c (mkCore b (lapic_id k)))) m = Ok (tt, m') ∧ idle m' ∧ cprocs m' = cprocs m.
Proof.
  intros Hi Hc. destruct (cpu_at_exists _ _ _ (idle_ok _ Hi) Hc) as (k & cp & Hat & _).
  pose proof (idle_cores _ Hi c _ _ Hat) as Hn. exists (with_cpu c (mkCore b (lapic_id k)) cp m). split_and!.
  - unfold mbind, M_bind, deref. rewrite (proj1 Hat). unfold modify, with_cpu, set_cpu, set_core; cbn. do 3 f_equal.
    symmetry. apply list_insert_id, Hat.
  - split; [eapply mach_ok_with; [apply Hi|exact Hat|done|done]| |exact (idle_locks _ Hi)].
    intros c' k0 cp0 Hat'. destruct (decide (c' = c)) as [->|Hne].
    + by apply (cpu_at_inj _ _ _ _ _ _ (with_cpu_at m c k cp _ _ Hat)) in Hat' as [-> ->].
    + eapply (idle_cores _ Hi c'). by eapply cpu_at_ne.
  - by eapply cprocs_with.
Qed.
Lemma sti_idle c m o : idle m → cprocs m !! c = Some o → ∃ m', sti c m = Ok (tt, m') ∧ idle m' ∧ cprocs m' = cprocs m.
Proof. apply flag_idle. Qed.
Lemma cli_idle c m o : idle m → cprocs m !! c = Some o → ∃ m', cli c m = Ok (tt, m') ∧ idle m' ∧ cprocs m' = cprocs m.
Proof. apply flag_idle. Qed.

Lemma pushpop_crit c lk m o :
  in_crit c lk m → cprocs m !! c = Some o → (pushcli c ;; popcli c) m = Ok (tt, m).
Proof.
  intros [Hok (k & cp & Hat & Hn & Hif) _ _ _] Hc.
  erewrite bind_ok by (by eapply pushcli_ok).
  erewrite popcli_ok; [| |by eapply with_cpu_at|done|cbn; lia].
  - by rewrite with_cpu_with, push_pop_inside by (try done; lia).
  - by eapply pushed_ok.
Qed.

Lemma R_pure t {B} s A (m : M mach B) b (Q : B → kst → Prop) :
  R s A → m (amach A) = Ok (b, amach A) → Q b s → wpg t (onm m) Q s.
Proof.
  intros HR Hm HQ. apply wpg_zoom. unfold amach in Hm. rewrite (proj2 HR) in Hm. cbn in Hm.
  eapply ok_wpg; [exact Hm|]. by destruct s.
Qed.

Lemma set_kmach_id A : amod (set_kmach (amach A)) A = A.
Proof. destruct A as [b ?]. unfold amod, amach; cbn. by destruct b. Qed.

Lemma R_switchuvm t s A c lk o x d (Q : unit → kst → Prop) :
  R s A → in_crit c lk (amach A) → cprocs (amach A) !! c = Some o →
  aprocs A !! x = Some d → kstack d ≠ 0 → pgdir d ≠ 0 → (∀ s', R s' A → Q tt s') →
  wpg t (switchuvm c (Some x)) Q s.
Proof.
  intros HR Hcr Hc Hd Hk Hp HQ. unfold switchuvm. rewrite ptr_eqb_false by done.
  apply wpg_bind. eapply R_pget; [done..|]. intros pr Hpr.
  assert (kstack pr = kstack d ∧ pgdir pr = pgdir d) as [-> ->] by (by subst d).
  apply Z.eqb_neq in Hk, Hp. rewrite Hk, Hp.
  pose proof (pushpop_crit _ _ _ _ Hcr Hc) as Hpp. apply bind_ok_inv in Hpp as ([] & m1 & H1 & H2).
  apply wpg_bind. eapply R_onm; [exact HR|]. eapply ok_wpg; [exact H1|]. intros s1 HR1.
  eapply R_onm; [exact HR1|]. eapply ok_wpg; [exact H2|]. intros s2 HR2.
  apply HQ. change (R s2 (amod (set_kmach (amach A)) A)) in HR2. by rewrite set_kmach_id in HR2.
Qed.

(** ** The process that gets the core *)

Definition arun (x : nat) (q : qid) (l : list nat) (A : ast) : ast :=
  match aprocs A !! x with
  | Some d => aput x (set_state RUNNING d) (aset q l A)
  | None => A
  end.

Lemma inv_arun c q x l A m m' :
  Inv (in_crit c ptable_lock) (amod (set_kmach m) A) → qdisj A → cprocs m !! c = Some None →
  apick A = Some (q, x, l) →
  in_crit c ptable_lock m' → cprocs m' = <[c := Some x]> (cprocs m) →
  Inv (in_crit c ptable_lock) (amod (set_kmach m') (arun x q l A)) ∧
  ∃ d, aprocs A !! x = Some d ∧ state d = RUNNABLE.
Proof.
  intros [HQ Hc Ht HI Hv] Hqd Hnone Hp Hcr Hcp. apply apick_some in Hp as (Eq & Hval & k & ->).
  destruct (qi_fits _ _ HQ (LQ k) x) as (d & Hd & Hst & _); [change (x ∈ aq A (LQ k)); rewrite Eq; set_solver|].
  change (aprocs A !! x = Some d) in Hd. split; [|by exists d]. unfold arun. rewrite Hd.
  pose proof (qinv_amod [] (set_kmach (amach A)) _ eq_refl HQ) as HQA.
  change (QInv [] (amod (set_kmach (amach A)) A)) in HQA. rewrite set_kmach_id in HQA.
  assert (c < length (cprocs m))%nat as Hlt by (by eapply lookup_lt_Some).
  assert (∀ c' y, cprocs m' !! c' = Some (Some y) ↔
            (c' = c ∧ y = x) ∨ (c' ≠ c ∧ cprocs m !! c' = Some (Some y))) as Hcp'.
  { intros c' y. rewrite Hcp. destruct (decide (c' = c)) as [->|].
    - rewrite list_lookup_insert_eq by done. naive_solver.
    - rewrite list_lookup_insert_ne by done. naive_solver. }
  destruct Hc as [Hrun Huniq Hconv]. unfold amach in *; cbn in *.
  assert (∀ c', cprocs m !! c' ≠ Some (Some x)) as Hxfree.
  { intros c' Hc'. destruct (Hrun c' x Hc') as (e & He & [?|?]); [set_solver|].
    change (aprocs A !! x = Some e) in He. rewrite Hd in He. injection He as <-. congruence. }
  split; [| |done|exact Hcr|].
  - apply qinv_amod; [done|]. eapply qinv_unqueued; [apply aprocs_aput_eq|done|].
    eapply (qinv_weaken (x :: x :: [])); [set_solver|].
    apply qinv_put; [apply (qi_table _ _ HQA); eauto| | |by apply (qinv_leave _ _ _ [])].
    + exact (proj2 (qdisj_leave _ x [] l A Eq Hqd)).
    + exact (qi_levels _ _ HQA x d Hd).
  - split; unfold amach; cbn.
    + intros c' y [[-> ->]|[Hne Hy]]%Hcp'.
      * exists (set_state RUNNING d). split; [apply lookup_insert_eq|by right].
      * destruct (Hrun c' y Hy) as (e & He & [?|?]); [set_solver|]. exists e. split; [|by right].
        change (aprocs A !! y = Some e) in He. change (aprocs (aput x (set_state RUNNING d) (aset (LQ k) l A)) !! y = Some e).
        rewrite aprocs_aput_ne; [done|]. intros ->. by eapply Hxfree.
    + intros c1 c2 y H1%Hcp' H2%Hcp'. destruct H1 as [[-> ->]|[? H1]], H2 as [[-> ?]|[? H2]]; subst; try done.
      * by apply Hxfree in H2. * by apply Hxfree in H1. * by eapply Huniq.
    + intros y e. change (aprocs (aput x (set_state RUNNING d) (aset (LQ k) l A)) !! y = Some e → state e = RUNNING → ∃ c0, cprocs m' !! c0 = Some (Some y)).
      destruct (decide (y = x)) as [->|Hne].
      * intros _ _. exists c. apply Hcp'. by left.
      * rewrite aprocs_aput_ne by done. intros He Hs. destruct (Hconv y e He Hs) as [c' Hc'].
        exists c'. apply Hcp'. right. split; [|done]. intros ->. by rewrite Hnone in Hc'.
  - apply (live_put x (set_state RUNNING d) A); [exact Hv|]. specialize (Hv x d Hd).
    unfold live_ok in *. rewrite Hst in Hv. cbn. tauto.
Qed.

(** ** Freeing a zombie *)

Lemma R_setproc_default t s A x d (Q : unit → kst → Prop) :
  R s A → aprocs A !! x = Some d → off x A →
  (∀ s', R s' (aput x (reset d) A) → Q tt s') → wpg t (setproc_default (Some x)) Q s.
Proof.
  intros HR Hd Hoff HQ. unfold setproc_default.
  apply wpg_bind. eapply R_pset; [exact HR|by intros ?|exact Hd|]. intros s1 HR1.
  apply wpg_bind. eapply R_pset; [exact HR1|by intros ?|apply aprocs_aput_eq|]. intros s2 HR2.
  apply wpg_bind. eapply R_pset; [exact HR2|by intros ?|apply aprocs_aput_eq|]. intros s3 HR3.
  rewrite !aput_aput in HR3.
  apply wpg_bind. eapply R_pset_links; [exact HR3|done|exact Hoff|rewrite aprocs_aput_eq; eauto|]. intros s4 HR4.
  eapply R_pset_links; [exact HR4|done|exact Hoff|rewrite aprocs_aput_eq; eauto|]. intros s5 HR5.
  by apply HQ.
Qed.

(** The process as [wait] leaves it. *)
Definition freed (d : proc) : proc :=
  reset (set_state UNUSED (set_killed 0 (set_name "" (set_parent None (set_pid 0 (set_kstack 0 d)))))).

Definition areap (x : nat) (d : proc) (A : ast) : ast :=
  aset UnusedQ (aq A UnusedQ ++ [x]) (aput x (freed d) A).

Lemma R_reap t s A x d (Q : Z → kst → Prop) :
  R s A → aprocs A !! x = Some d → off x A →
  wpg t (kfree (kstack d)) (λ _ e1, wpg t (freevm (pgdir d)) (λ _ e2,
     ∀ s', R s' (amod (set_kenv e2) (areap x d A)) → Q (pid d) s') e1) (kenv (abase A)) →
  wpg t (reap (Some x)) Q s.
Proof.
  intros HR Hd Hoff HQ. unfold reap.
  apply wpg_bind. eapply R_pget; [exact HR|exact Hd|]. intros pr Hpr.
  assert (kstack pr = kstack d ∧ pid pr = pid d) as [-> ->] by (by subst d).
  apply wpg_bind. eapply R_one; [exact HR|]. eapply wpg_mono; [exact HQ|]. cbn beta. intros [] e1 HQ1 s1 HR1.
  apply wpg_bind. eapply R_pset; [exact HR1|by intros ?|exact Hd|]. intros s2 HR2.
  apply wpg_bind. eapply R_pget; [exact HR2|apply aprocs_aput_eq|]. intros pr2 Hpr2.
  assert (pgdir pr2 = pgdir d) as -> by (change (pgdir d) with (pgdir (set_kstack 0 d)); by rewrite <- Hpr2).
  apply wpg_bind. eapply R_one; [exact HR2|]. eapply wpg_mono; [exact HQ1|]. cbn beta. intros [] e2 HQ2 s3 HR3.
  change (R s3 (aput x (set_kstack 0 d) (amod (set_kenv e2) A))) in HR3.
  apply wpg_bind. eapply R_pset; [exact HR3|by intros ?|apply aprocs_aput_eq|]. intros s4 HR4.
  apply wpg_bind. eapply R_pset; [exact HR4|by intros ?|apply aprocs_aput_eq|]. intros s5 HR5.
  apply wpg_bind. eapply R_pset; [exact HR5|by intros ?|apply aprocs_aput_eq|]. intros s6 HR6.
  apply wpg_bind. eapply R_pset; [exact HR6|by intros ?|apply aprocs_aput_eq|]. intros s7 HR7.
  apply wpg_bind. eapply R_pset; [exact HR7|by intros ?|apply aprocs_aput_eq|]. intros s8 HR8.
  rewrite !aput_aput in HR8.
  apply wpg_bind. eapply R_setproc_default; [exact HR8|apply aprocs_aput_eq|exact Hoff|]. intros s9 HR9.
  rewrite aput_aput in HR9.
  apply wpg_bind. eapply R_insert_end; [exact HR9|done|exact Hoff|rewrite aprocs_aput_eq; eauto|].
  intros s10 HR10. apply wpg_ret, HQ2. exact HR10.
Qed.

(** ** [wait] *)

Definition child_of (ps : gmap nat proc) (p x : nat) : Prop := from_option (λ d, parent d = Some p) False (ps !! x).
#[export] Instance child_of_dec ps p x : Decision (child_of ps p x).
Proof. unfold child_of. destruct (ps !! x); cbn; apply _. Defined.

(** The first zombie child in the table. *)
Fixpoint zombie_child (ps : gmap nat proc) (p : nat) (l : list nat) : option (nat * proc) :=
  match l with
  | [] => None
  | x :: l =>
      match ps !! x with
      | Some d => if ptr_eqb (parent d) (Some p) && bool_decide (state d = ZOMBIE) then Some (x, d)
                  else zombie_child ps p l
      | None => zombie_child ps p l
      end
  end.

Definition has_kids (ps : gmap nat proc) (p : nat) (l : list nat) : bool :=
  bool_decide (Exists (child_of ps p) l).

Lemma zombie_child_some ps p l x d :
  zombie_child ps p l = Some (x, d) → x ∈ l ∧ ps !! x = Some d ∧ parent d = Some p ∧ state d = ZOMBIE.
Proof.
  induction l as [|y l IH]; cbn; [done|]. destruct (ps !! y) as [e|] eqn:E.
  - destruct (ptr_eqb (parent e) (Some p) && bool_decide (state e = ZOMBIE)) eqn:Ec.
    + intros [= -> ->]. apply andb_true_iff in Ec as [H1%bool_decide_eq_true H2%bool_decide_eq_true]. set_solver.
    + intros H. destruct (IH H) as (? & ? & ? & ?). set_solver.
  - intros H. destruct (IH H) as (? & ? & ? & ?). set_solver.
Qed.

(** What the scan of the table does: free the first zombie child, or say
    whether there are children. *)
Lemma R_wait_scan t s A p l hk (Q : Z + bool → kst → Prop) :
  R s A → QInv [] A → (∀ x, x ∈ l → is_Some (aprocs A !! x)) →
  match zombie_child (aprocs A) p l with
  | Some (x, d) => ∀ s1, R s1 A → wpg t (reap (Some x)) (λ n, Q (inl n)) s1
  | None => Q (inr (hk || has_kids (aprocs A) p l)) s
  end →
  wpg t (wait_scan l (Some p) hk) Q s.
Proof.
  intros HR HQI. revert hk. induction l as [|x l IH]; intros hk Hl HQ; cbn [wait_scan zombie_child] in *.
  - apply wpg_ret. unfold has_kids in HQ. rewrite bool_decide_false, orb_false_r in HQ by (by intros ?%Exists_nil).
    done.
  - destruct (Hl x) as [d Hd]; [set_solver|]. rewrite Hd in HQ.
    apply wpg_bind. eapply R_pget; [done..|]. intros pr Hpr.
    assert (parent pr = parent d ∧ state pr = state d) as [-> ->] by (by subst d).
    assert (has_kids (aprocs A) p (x :: l) = bool_decide (parent d = Some p) || has_kids (aprocs A) p l) as Hhk.
    { unfold has_kids. apply eq_true_iff_eq. rewrite orb_true_iff, !bool_decide_eq_true, Exists_cons.
      unfold child_of at 1. by rewrite Hd. }
    unfold ptr_eqb in *. case_bool_decide as Hpar; cbn [negb andb] in *.
    + case_bool_decide as Hz.
      * apply wpg_bind. eapply wpg_mono; [by apply HQ|]. cbn. intros n s' H. by apply wpg_ret.
      * apply IH; [set_solver|]. destruct (zombie_child _ _ _) as [[??]|]; [done|].
        rewrite Hhk, orb_true_l, orb_true_r in HQ. done.
    + apply IH; [set_solver|]. destruct (zombie_child _ _ _) as [[??]|]; [done|].
      by rewrite Hhk in HQ.
Qed.

(** The calls into the rest of the kernel return, when [t]. *)
Definition reap_runs (t : bool) (A : ast) (d : proc) : Prop :=
  wpg t (kfree (kstack d)) (λ _, wpg t (freevm (pgdir d)) (λ _ _, True)) (kenv (abase A)).

Lemma reap_runs_wlp A d : reap_runs false A d.
Proof. apply wlp_true. intros ??. by apply wlp_true. Qed.

(** [i] tells whether interrupts were on. *)
Definition wait_res (c p : nat) (i : bool) (A : ast) (r : option Z) (s' : kst) : Prop :=
  match zombie_child (aprocs A) p proc_table with
  | Some (x, d) => r = Some (pid d) ∧ ∃ e, reaches (amod (set_kenv e) (areap x d A)) c (Some p) A s'
  | None =>
      if negb (has_kids (aprocs A) p proc_table) || negb (from_option killed 0 (aprocs A !! p) =? 0)
      then r = Some (-1) ∧ reaches A c (Some p) A s'
      else r = None ∧ reaches (aleave (asleep p (ch_proc p) (K_wait i) A)) c None A s'
  end.

Lemma inv_areap I A x d e :
  aprocs A !! x = Some d → state d = ZOMBIE → Inv I A → Inv I (amod (set_kenv e) (areap x d A)).
Proof.
  intros Hd Hz Hi. apply inv_gmod; [done..|apply Hi|].
  eapply inv_put_end; [exact Hd|by rewrite Hz|by rewrite Hz|done|done| | |done].
  - unfold level_ok; cbn; lia.
  - split; [|done]. apply (inv_live _ _ Hi x d Hd).
Qed.

(** Back to another process's view of the machine. *)
Lemma reaches_from A' c o A m s' :
  cprocs m = cprocs (amach A) → reaches A' c o (amod (set_kmach m) A) s' → reaches A' c o A s'.
Proof. intros E (m' & HR & Hi & Hcp). exists m'. split_and!; [done..|]. rewrite Hcp. cbn. by rewrite E. Qed.

Lemma R_wait_turn t s A c p :
  R s A → Inv (in_crit c ptable_lock) A → aruns A c p →
  (∀ x d, zombie_child (aprocs A) p proc_table = Some (x, d) → reap_runs t A d) →
  wpg t (wait_turn c (Some p)) (wait_res c p (irq_on (amach A) c) A) s.
Proof.
  intros HR Hi Hr Hruns. unfold wait_turn, wait_res.
  destruct (inv_running _ _ _ _ Hi Hr) as (dp & Hdp & _). rewrite Hdp. cbn [from_option].
  pose proof (table_elems A (qi_table _ _ (inv_q _ _ Hi))) as Htab.
  apply wpg_bind. eapply R_wait_scan; [exact HR|apply Hi|done|].
  destruct (zombie_child (aprocs A) p proc_table) as [[x d]|] eqn:Ez.
  - destruct (zombie_child_some _ _ _ _ _ Ez) as (Hx & Hd & Hpar & Hz).
    specialize (Hruns x d eq_refl). intros s1 HR1. eapply R_reap; [exact HR1|exact Hd| |].
    { eapply off_unqueued; [apply (inv_q _ _ Hi)|exact Hd|by rewrite Hz]. }
    eapply wpg_mono; [exact Hruns|]. cbn beta. intros [] e1 H1.
    eapply wpg_mono; [exact H1|]. cbn beta. intros [] e2 _ s2 HR2.
    apply wpg_bind. eapply R_exit; [exact HR2|by apply inv_areap|exact Hr|]. intros s3 m3 HR3 Hi3 Hcp3.
    apply wpg_ret. split; [done|]. exists e2. by eapply reaches_intro.
  - cbn [orb]. apply wpg_bind. eapply R_pget; [exact HR|exact Hdp|]. intros pr Hpr.
    assert (killed pr = killed dp) as -> by (by subst dp).
    destruct (negb (has_kids (aprocs A) p proc_table) || negb (killed dp =? 0)).
    + apply wpg_bind. eapply R_exit; [exact HR|exact Hi|exact Hr|]. intros s3 m3 HR3 Hi3 Hcp3.
      apply wpg_ret. split; [done|]. by eapply reaches_intro.
    + apply wpg_bind. unfold sleep.
      apply wpg_bind. eapply R_myproc_crit; [exact HR|apply (inv_m _ _ Hi)|exact Hr|].
      rewrite ptr_eqb_false by done. rewrite bool_decide_true by done. cbn [negb].
      apply wpg_bind, wpg_when_false; [done|].
      eapply R_sleep_locked; [exact HR|by apply inv_busy|by eapply R_qdisj|done|].
      intros s' m' A' HR' Hi' Hcp'. apply wpg_ret. split; [done|]. by exists m'.
Qed.

Lemma wait_res_from c p i A m r s' :
  cprocs m = cprocs (amach A) → wait_res c p i (amod (set_kmach m) A) r s' → wait_res c p i A r s'.
Proof.
  intros Ecp. unfold wait_res. change (aprocs (amod (set_kmach m) A)) with (aprocs A).
  destruct (zombie_child (aprocs A) p proc_table) as [[x d]|].
  - intros [-> [e He]]. split; [done|]. exists e. apply (reaches_from _ _ _ _ m); [done|].
    destruct He as (m' & H1 & H2 & H3). by exists m'.
  - destruct (_ || _).
    + intros [-> (m' & H1 & H2 & H3)]. split; [done|]. apply (reaches_from _ _ _ _ m); [done|]. by exists m'.
    + intros [-> (m' & H1 & H2 & H3)]. split; [done|]. apply (reaches_from _ _ _ _ m); [done|].
      rewrite asleep_mach in H1, H2. by exists m'.
Qed.

Lemma R_wait t s A c p :
  R s A → Inv idle A → aruns A c p →
  (∀ x d, zombie_child (aprocs A) p proc_table = Some (x, d) → reap_runs t A d) →
  wpg t (wait c) (wait_res c p (irq_on (amach A) c) A) s.
Proof.
  intros HR Hi Hr Hruns. unfold wait.
  apply wpg_bind. eapply R_me_irq; [done..|]. intros s1 m1 HR1 Hi1 Hcp1 Hq1.
  apply wpg_bind. eapply R_enter_irq; [exact HR1|exact Hi1|cbn; rewrite Hcp1; exact Hr|]. intros s2 m2 HR2 Hi2 Hcp2 Hq2.
  change (amod (set_kmach m2) (amod (set_kmach m1) A)) with (amod (set_kmach m2) A) in *.
  assert (cprocs m2 = cprocs (amach A)) as Ecp by (rewrite Hcp2; exact Hcp1).
  assert (irq_on m2 c = irq_on (amach A) c) as Eq by (rewrite Hq2; exact (Hq1 c)).
  eapply wpg_mono; [eapply R_wait_turn; [exact HR2|exact Hi2|unfold aruns, amach; cbn; by rewrite Ecp|exact Hruns]|].
  intros r s'. change (amach (amod (set_kmach m2) A)) with m2. rewrite Eq. by apply wait_res_from.
Qed.

(** ** Going on after [sched] *)

Definition awoke (x : nat) (A : ast) : ast :=
  match aprocs A !! x with Some d => aput x (set_pchan ch_null d) A | None => A end.

(** [A]: the scheduler's state at the [swtch], with [x] running on core [c]
    and [ptable.lock] held. *)
Definition resume_res (c x : nat) (d : proc) (A : ast) (r : option Z) (s' : kst) : Prop :=
  match context d with
  | K_forkret => r = None ∧ ∃ e, reaches (amod (set_kenv e) (amod (set_first false) A)) c (Some x) A s'
  | K_yield _ => r = None ∧ reaches A c (Some x) A s'
  | K_sleep lk _ =>
      r = None ∧ ∃ m', R s' (amod (set_kmach m') (awoke x A)) ∧
        Inv (in_crit c lk) (amod (set_kmach m') (awoke x A)) ∧ cprocs m' = cprocs (amach A)
  | K_wait i => wait_res c x i (awoke x A) r s'
  | K_exit _ => False
  end.

Definition resume_runs (t : bool) (A : ast) (x : nat) (d : proc) : Prop :=
  match context d with
  | K_forkret =>
      first (abase A) = true → wpg t iinit (λ _, wpg t initlog (λ _ _, True)) (kenv (abase A))
  | K_wait _ => ∀ y e, zombie_child (aprocs A) x proc_table = Some (y, e) → reap_runs t A e
  | _ => True
  end.

Lemma resume_runs_wlp A x d : resume_runs false A x d.
Proof.
  unfold resume_runs. destruct (context d); try done.
  - intros _. apply wlp_true. intros ??. by apply wlp_true.
  - intros y e _. apply reap_runs_wlp.
Qed.

Lemma R_forkret t s A c x d :
  R s A → Inv (in_crit c ptable_lock) A → aruns A c x → context d = K_forkret → resume_runs t A x d →
  wpg t (forkret c) (λ _, λ s', ∃ e, reaches (amod (set_kenv e) (amod (set_first false) A)) c (Some x) A s') s.
Proof.
  intros HR Hi Hr Hk Hrun. unfold resume_runs in Hrun. rewrite Hk in Hrun. unfold forkret.
  apply wpg_bind. eapply R_exit; [exact HR|exact Hi|exact Hr|]. intros s1 m1 HR1 Hi1 Hcp1.
  apply wpg_bind. eapply (R_gets _ _ _ HR1); [done|]. cbn [abase amod set_kmach first].
  destruct (first (abase A)) eqn:Ef.
  - apply wpg_when_true; [done|]. apply wpg_bind. eapply (R_modify _ _ _ HR1); [done..|]. intros s2 HR2.
    apply wpg_bind. eapply R_one; [exact HR2|]. eapply wpg_mono; [by apply Hrun|]. cbn beta. intros [] e1 H1 s3 HR3.
    eapply R_one; [exact HR3|]. eapply wpg_mono; [exact H1|]. cbn beta. intros [] e2 _ s4 HR4.
    exists e2. eapply (reaches_intro _ _ _ _ _ m1); [exact HR4| |exact Hr|exact Hcp1].
    apply (inv_gmod idle (set_kenv e2) (amod (set_kmach m1) (amod (set_first false) A))); [done..|apply Hi|].
    apply (inv_gmod idle (set_first false) (amod (set_kmach m1) A)); [done..|apply Hi|done].
  - apply wpg_when_false; [done|]. exists (kenv (abase A)).
    assert (amod (set_kenv (kenv (abase A))) (amod (set_first false) A) = A) as ->.
    { destruct A as [b ?]. unfold amod; cbn in *. destruct b; cbn in *. by rewrite Ef. }
    by eapply reaches_intro.
Qed.

(** [sleep] gives up [ptable.lock] and takes its caller's lock again. *)
Lemma R_sleep_return t s A c x d lk (Q : unit → kst → Prop) :
  R s A → Inv (in_crit c ptable_lock) A → aruns A c x → aprocs A !! x = Some d → lk ≠ ptable_lock →
  (∀ s' m', R s' (amod (set_kmach m') (awoke x A)) →
     Inv (in_crit c lk) (amod (set_kmach m') (awoke x A)) → cprocs m' = cprocs (amach A) → Q tt s') →
  wpg t (sleep_return c (Some x) lk) Q s.
Proof.
  intros HR Hi Hr Hd Hne HQ. unfold awoke in HQ. rewrite Hd in HQ. unfold sleep_return.
  destruct (inv_running _ _ _ _ Hi Hr) as (d' & Hd' & Hst). rewrite Hd in Hd'. injection Hd' as <-.
  apply wpg_bind. eapply R_pset; [exact HR|by intros ?|exact Hd|]. intros s1 HR1.
  rewrite bool_decide_false by done. cbn [negb]. apply wpg_when_true; [done|].
  assert (Inv (in_crit c ptable_lock) (aput x (set_pchan ch_null d) A)) as Hi1.
  { eapply inv_put; [exact Hd|by rewrite Hst|cbn; by rewrite Hst|done| | |exact Hi].
    - exact (qi_levels _ _ (inv_q _ _ Hi) x d Hd).
    - exact (inv_live _ _ Hi x d Hd). }
  apply wpg_bind. eapply R_exit; [exact HR1|exact Hi1|exact Hr|]. intros s2 m2 HR2 Hi2 Hcp2.
  cbn in Hcp2. destruct (acquire_idle c lk m2 (Some x)) as (m3 & H3 & Hcr & Hcp3).
  { rewrite Hcp2. exact Hr. } { apply (inv_m _ _ Hi2). }
  eapply R_onm; [exact HR2|]. eapply ok_wpg; [exact H3|]. intros s3 HR3.
  assert (cprocs m3 = cprocs (amach A)) as Ecp by (rewrite Hcp3; exact Hcp2).
  eapply HQ; [exact HR3| |exact Ecp]. by eapply inv_amod.
Qed.

Lemma R_resume t s A c x d :
  R s A → Inv (in_crit c ptable_lock) A → aruns A c x → aprocs A !! x = Some d → ctx_ok (context d) →
  resume_runs t A x d →
  wpg t (resume c (Some x)) (resume_res c x d A) s.
Proof.
  intros HR Hi Hr Hd Hk Hrun. unfold resume.
  apply wpg_bind. eapply R_pget; [exact HR|exact Hd|]. intros pr Hpr.
  assert (context pr = context d) as -> by (by subst d).
  assert (∀ {B} i (k : M kst B) (Q' : B → kst → Prop),
    (∀ s1 m1, R s1 (amod (set_kmach m1) A) → Inv (in_crit c ptable_lock) (amod (set_kmach m1) A) → cprocs m1 = cprocs (amach A) →
       irq_on m1 c = i → wpg t k Q' s1) → wpg t (onm (set_intena c i) ;; k) Q' s) as Hint.
  { intros B i k Q' Hk'. destruct (set_intena_crit _ _ _ _ i (inv_m _ _ Hi) Hr) as (m1 & H1 & H2 & H3 & H4).
    apply wpg_bind. eapply R_onm; [exact HR|]. eapply ok_wpg; [exact H1|]. intros s1 HR1. eapply Hk'; [exact HR1|by eapply inv_amod|done..]. }
  unfold resume_res. destruct (context d) as [|i|lk i|i|i] eqn:Ek; cbn in Hk; [| | | |done].
  - apply wpg_bind. eapply wpg_mono; [by eapply R_forkret|]. cbn. intros _ s' H. by apply wpg_ret.
  - apply Hint. intros s0 m0 HR0 Hi0 Hcp0 _. assert (aruns (amod (set_kmach m0) A) c x) as Hr0 by (unfold aruns; cbn; by rewrite Hcp0).
    apply wpg_bind. eapply R_exit; [exact HR0|exact Hi0|exact Hr0|]. intros s1 m1 HR1 Hi1 Hcp1.
    apply wpg_ret. split; [done|]. eapply reaches_intro; [exact HR1|exact Hi1|exact Hr|]. by rewrite Hcp1, <- Hcp0.
  - apply Hint. intros s0 m0 HR0 Hi0 Hcp0 _. assert (aruns (amod (set_kmach m0) A) c x) as Hr0 by (unfold aruns; cbn; by rewrite Hcp0).
    assert (∀ m', amod (set_kmach m') (awoke x (amod (set_kmach m0) A)) = amod (set_kmach m') (awoke x A)) as Ea.
    { intros m'. unfold awoke. change (aprocs (amod (set_kmach m0) A)) with (aprocs A). by rewrite Hd. }
    apply wpg_bind. eapply R_sleep_return; [exact HR0|exact Hi0|exact Hr0|exact Hd|exact Hk|].
    intros s1 m1 HR1 Hi1 Hcp1. rewrite Ea in HR1, Hi1. apply wpg_ret. split; [done|]. exists m1. split_and!; [done..|]. by rewrite Hcp1, <- Hcp0.
  - apply Hint. clear s HR Hint. intros s m0 HR Hi0 Hcp0 Hq0. assert (aruns (amod (set_kmach m0) A) c x) as Hr0 by (unfold aruns; cbn; by rewrite Hcp0).
    apply wpg_bind. unfold sleep_return. rewrite bool_decide_true by done. cbn [negb].
    apply wpg_bind. eapply R_pset; [exact HR|by intros ?|exact Hd|]. intros s1 HR1.
    apply wpg_when_false; [done|].
    destruct (inv_running _ _ _ _ Hi Hr) as (d' & Hd' & Hst). rewrite Hd in Hd'. injection Hd' as <-.
    unfold awoke. rewrite Hd.
    set (A1 := aput x (set_pchan ch_null d) A). change (aput x (set_pchan ch_null d) (amod (set_kmach m0) A)) with (amod (set_kmach m0) A1) in HR1.
    eapply wpg_mono; [eapply R_wait_turn; [exact HR1| |exact Hr0|]|].
    3:{ intros r' s'. change (amach (amod (set_kmach m0) A1)) with m0. rewrite Hq0. by apply wait_res_from. }
    + eapply inv_amod; [|apply (inv_m _ _ Hi0)|exact Hcp0].
      eapply inv_put; [exact Hd|by rewrite Hst|cbn; by rewrite Hst|done| | |exact Hi].
      * exact (qi_levels _ _ (inv_q _ _ Hi) x d Hd).
      * exact (inv_live _ _ Hi x d Hd).
    + intros y e Hz. change (aprocs (amod (set_kmach m0) A1)) with (aprocs (aput x (set_pchan ch_null d) A)) in Hz.
      change (reap_runs t A e). unfold resume_runs in Hrun. rewrite Ek in Hrun. apply (Hrun y).
      destruct (zombie_child_some _ _ _ _ _ Hz) as (Hy & He & Hpar & Hze).
      revert Hz. generalize proc_table. intros l. induction l as [|z l IH]; cbn [zombie_child]; [done|].
      destruct (decide (z = x)) as [->|Hne].
      * rewrite aprocs_aput_eq, Hd. cbn [parent state set_pchan]. destruct (_ && _); [|exact IH].
        intros [= -> <-]. cbn in Hze. by rewrite Hst in Hze.
      * rewrite aprocs_aput_ne by done. destruct (aprocs A !! z) as [dz|]; [|exact IH].
        destruct (_ && _); [done|exact IH].
Qed.

(** ** [scheduler] *)

Definition enter_res (c : nat) (A : ast) (r : option Z) (s' : kst) : Prop :=
  match apick A with
  | None => r = None ∧ reaches A c None A s'
  | Some (q, x, l) => ∃ d m,
      aprocs A !! x = Some d ∧ state d = RUNNABLE ∧ cprocs m = <[c := Some x]> (cprocs (amach A)) ∧
      Inv (in_crit c ptable_lock) (amod (set_kmach m) (arun x q l A)) ∧
      resume_res c x (set_state RUNNING d) (amod (set_kmach m) (arun x q l A)) r s'
  end.

Definition enter_runs (t : bool) (A : ast) : Prop :=
  ∀ q x l d m, apick A = Some (q, x, l) → aprocs A !! x = Some d →
    resume_runs t (amod (set_kmach m) (arun x q l A)) x (set_state RUNNING d).

Lemma R_scheduler_enter t s A c :
  R s A → Inv idle A → cprocs (amach A) !! c = Some None → enter_runs t A →
  wpg t (scheduler_enter c) (enter_res c A) s.
Proof.
  intros HR Hi Hc Hrun. unfold scheduler_enter, enter_res.
  destruct (sti_idle c _ _ (inv_m _ _ Hi) Hc) as (m0 & Hm0 & Hid0 & Hcp0).
  apply wpg_bind. eapply R_onm; [exact HR|]. eapply ok_wpg; [exact Hm0|]. intros s0 HR0.
  apply wpg_bind. eapply R_enter; [exact HR0|by eapply inv_amod|cbn; rewrite Hcp0; exact Hc|]. intros s1 m1 HR1 Hi1 Hcp1.
  change (amod (set_kmach m1) (amod (set_kmach m0) A)) with (amod (set_kmach m1) A) in HR1, Hi1.
  change (cprocs m1 = cprocs m0) in Hcp1. rewrite Hcp0 in Hcp1.
  assert (cprocs m1 !! c = Some None) as Hc1 by (by rewrite Hcp1).
  apply wpg_bind. eapply R_scheduler_pick; [exact HR1|].
  change (apick (amod (set_kmach m1) A)) with (apick A).
  destruct (apick A) as [[[q x] l]|] eqn:Ep.
  - intros s2 HR2. destruct (set_cproc_crit c ptable_lock (Some x) _ _ Hc1 (inv_m _ _ Hi1)) as [Hcr2 Hcp2].
    destruct (inv_arun c q x l A m1 _ Hi1 ltac:(by eapply R_qdisj) Hc1 Ep Hcr2 Hcp2) as (Hi3 & d & Hd & Hst).
    set (m2 := set_cproc c (Some x) m1) in *.
    assert (kstack d ≠ 0 ∧ pgdir d ≠ 0 ∧ ctx_ok (context d)) as (Hks & Hpg & Hk).
    { destruct (inv_live _ _ Hi x d Hd) as [_ H]. by rewrite Hst in H. }
    assert (cprocs m2 !! c = Some (Some x)) as Hrx
      by (rewrite Hcp2; apply list_lookup_insert_eq; by eapply lookup_lt_Some).
    apply wpg_bind. eapply (R_onm _ _ _ HR2). apply wpg_modify. intros s3 HR3.
    apply wpg_bind. eapply R_switchuvm; [exact HR3|exact Hcr2| |exact Hd|exact Hks|exact Hpg|].
    { exact Hrx. }
    intros s4 HR4. apply wpg_bind. eapply R_pset; [exact HR4|by intros ?|exact Hd|]. intros s5 HR5.
    assert (R s5 (amod (set_kmach m2) (arun x q l A))) as HR5' by (unfold arun; rewrite Hd; exact HR5).
    eapply wpg_mono; [eapply (R_resume t s5 _ c x (set_state RUNNING d)); [exact HR5'|exact Hi3| | |exact Hk|]|].
    + exact Hrx.
    + unfold arun. rewrite Hd. apply aprocs_aput_eq.
    + by apply (Hrun q x l d m2).
    + intros r s' Hres. exists d, m2. split_and!; [done|done|by rewrite Hcp2, Hcp1|done|done].
  - apply wpg_bind. eapply R_exit; [exact HR1|exact Hi1|exact Hc1|]. intros s2 m2 HR2 Hi2 Hcp2.
    apply wpg_ret. split; [done|]. eapply (reaches_intro _ _ _ _ _ m2); [exact HR2|exact Hi2|exact Hc|].
    rewrite Hcp2. exact Hcp1.
Qed.
End Sched.
