(* ===== verification/MlfqProc.v ===== *)
(** * Process creation and exit on the abstract state *)

From S2P Require Export MlfqSched.
Local Open Scope Z_scope.

(** Computes the setters applied to a process. *)
Ltac flat H :=
  cbv [set_sz set_pgdir set_kstack set_state set_pid set_parent set_tf set_context set_pchan set_killed
    set_ofile set_cwd set_name set_priority set_queuelevel set_ticks reset
    sz pgdir kstack state pid parent tf context pchan killed ofile cwd name priority queuelevel ticks
    prev next] in H.

Section Proc.
Context {KE : KernelEnv}.

(** ** [allocproc] *)

(** A process as [allocproc] marks it, with pid [n]. *)
Definition embryo (n : Z) (d : proc) : proc := reset (set_pid n (set_state EMBRYO d)).

(** The process [x] taken off the list of unused processes, with data [d']. *)
Definition atake (x : nat) (d' : proc) (l : list nat) (A : ast) : ast :=
  amod (set_nextpid (i32 (nextpid (abase A) + 1))) (aput x d' (aset UnusedQ l A)).

Lemma inv_atake I x d d' l A :
  qdisj A → aq A UnusedQ = x :: l → aprocs A !! x = Some d → queued (state d') = false →
  state d' ≠ RUNNING → level_ok d' → live_ok d' → Inv I A → Inv I (atake x d' l A).
Proof.
  intros Hqd Hq Hd H1 H2 H3 H4 Hi. apply inv_gmod; [done..|apply Hi|]. by eapply inv_take.
Qed.

Lemma embryo_fine n d : live_ok d → level_ok (embryo n d) ∧ live_ok (embryo n d).
Proof. intros [H _]. split; [unfold level_ok; cbn; lia|by split]. Qed.

Lemma take_off A q x l : qdisj A → aq A q = x :: l → off x (aset q l A).
Proof. intros Hqd Hq. exact (proj2 (qdisj_leave q x [] l A Hq Hqd)). Qed.

(** ** Updates of the process taken *)

Lemma aput_atake x d d' l A : aput x d' (atake x d l A) = atake x d' l A.
Proof. exact (f_equal (amod (set_nextpid (i32 (nextpid (abase A) + 1)))) (aput_aput x d d' (aset UnusedQ l A))). Qed.

Lemma aprocs_atake x d l A : aprocs (atake x d l A) !! x = Some d.
Proof. apply (aprocs_aput_eq x d). Qed.

Lemma aq_atake_unused x d l A : aq (atake x d l A) UnusedQ = l.
Proof. apply (aq_aset_eq UnusedQ). Qed.

(** Still an embryo. *)
Lemma inv_embryo I x d d' l A :
  Inv I (atake x d l A) → state d = EMBRYO → state d' = EMBRYO → queuelevel d' = queuelevel d →
  length (ofile d') = NOFILE → Inv I (atake x d' l A).
Proof.
  intros Hi Hs Hs' El Hlen. rewrite <- (aput_atake x d).
  eapply inv_put; [apply aprocs_atake|by rewrite Hs|by rewrite Hs'|by rewrite Hs, Hs'| | |exact Hi].
  - unfold level_ok. rewrite El. apply (qi_levels _ _ (inv_q _ _ Hi) x), aprocs_atake.
  - split; [done|by rewrite Hs'].
Qed.

(** It goes to a queue: back to the unused ones, or to the front queue. *)
Lemma inv_embryo_queue I q x d d' l A :
  Inv I (atake x d l A) → state d = EMBRYO → fits q d' → q ≠ LQ 2 → queuelevel d' = queuelevel d →
  live_ok d' → Inv I (aset q (aq (atake x d' l A) q ++ [x]) (atake x d' l A)).
Proof.
  intros Hi Hs Hf Hne El Hlive. rewrite <- (aput_atake x d d').
  refine (inv_put_end I q x d d' (atake x d l A) (aprocs_atake _ _ _ _) _ _ Hf Hne _ Hlive Hi);
    [by rewrite Hs|by rewrite Hs|].
  unfold level_ok. rewrite El. apply (qi_levels _ _ (inv_q _ _ Hi) x), aprocs_atake.
Qed.

Lemma atake_mach m x d l A : atake x d l (amod (set_kmach m) A) = amod (set_kmach m) (atake x d l A).
Proof. done. Qed.

(** The process given back. *)
Definition put_back (x : nat) (d : proc) (l : list nat) (A : ast) : ast :=
  aset UnusedQ (l ++ [x]) (atake x d l A).

(** What [allocproc] returns; [e] is the rest of the kernel after [kalloc]. *)
Definition alloc_res (A : ast) (r : ptr) (s' : kst) : Prop :=
  ∃ m' e, cprocs m' = cprocs (amach A) ∧
  match aq A UnusedQ with
  | [] => r = None ∧ e = kenv (abase A) ∧ R s' (amod (set_kmach m') A) ∧ Inv idle (amod (set_kmach m') A)
  | x :: l => ∃ d k,
      aprocs A !! x = Some d ∧ kalloc (kenv (abase A)) = Ok (k, e) ∧
      let n := nextpid (abase A) in
      let A' := amod (set_kenv e) (amod (set_kmach m')
                  (if k =? 0 then put_back x (set_state UNUSED (set_kstack 0 (embryo n d))) l A
                   else atake x (set_context K_forkret (set_kstack k (embryo n d))) l A)) in
      r = (if k =? 0 then None else Some x) ∧ R s' A' ∧ Inv idle A'
  end.

Lemma inv_env I A e : Inv I A → Inv I (amod (set_kenv e) A).
Proof. intros Hi. apply inv_gmod; [done..|apply Hi|done]. Qed.

(** From [kalloc] on, without the lock. *)
Lemma R_alloc_tail t s A c o m x l d :
  let n := nextpid (abase A) in
  R s (amod (set_kmach m) (atake x (embryo n d) l A)) →
  Inv idle (amod (set_kmach m) (atake x (embryo n d) l A)) →
  qdisj A → aq A UnusedQ = x :: l → aprocs A !! x = Some d → live_ok d →
  cprocs m = cprocs (amach A) → cprocs (amach A) !! c = Some o →
  wpg t kalloc (λ _ _, True) (kenv (abase A)) →
  wpg t (k ← one kalloc;
      pset (Some x) (set_kstack k) ;;
      if k =? 0 then
        pset (Some x) (set_state UNUSED) ;;
        insert UnusedQ (Some x) None ;;
        mret None
      else
        pset (Some x) (set_context K_forkret) ;;
        mret (Some x)) (alloc_res A) s.
Proof.
  intros n HR Hi Hqd Hq Hd Hlive Hcp Hc Hk.
  set (A1 := amod (set_kmach m) A). change (Inv idle (atake x (embryo n d) l A1)) in Hi.
  change (R s (atake x (embryo n d) l A1)) in HR.
  apply wpg_bind. eapply R_one; [exact HR|].
  change (kenv (abase (atake x (embryo n d) l A1))) with (kenv (abase A)).
  unfold wpg in *. destruct (kalloc (kenv (abase A))) as [[k e]|?| |] eqn:Ek; try exact Hk.
  intros s1 HR1. change (wpg t (pset (Some x) (set_kstack k) ;;
      if k =? 0 then pset (Some x) (set_state UNUSED) ;; insert UnusedQ (Some x) None ;; mret None
      else pset (Some x) (set_context K_forkret) ;; mret (Some x)) (alloc_res A) s1).
  set (A2 := amod (set_kenv e) A1). change (R s1 (atake x (embryo n d) l A2)) in HR1.
  assert (Inv idle (atake x (embryo n d) l A2)) as Hi2 by (by apply (inv_env _ (atake x (embryo n d) l A1))).
  apply wpg_bind. eapply R_pset; [exact HR1|by intros ?|apply aprocs_atake|]. intros s2 HR2.
  rewrite aput_atake in HR2. destruct (k =? 0) eqn:E0.
  - apply Z.eqb_eq in E0. subst k.
    apply wpg_bind. eapply R_pset; [exact HR2|by intros ?|apply aprocs_atake|]. intros s3 HR3. rewrite aput_atake in HR3.
    apply wpg_bind. eapply R_insert_end; [exact HR3|done| |rewrite aprocs_atake; eauto|].
    { exact (take_off _ _ _ _ Hqd Hq). }
    intros s4 HR4. apply wpg_ret. exists m, e. split; [done|]. rewrite Hq. exists d, 0. split_and!; [done..|].
    rewrite aq_atake_unused in HR4. split_and!; [done|exact HR4|].
    pose proof (inv_embryo_queue idle UnusedQ x (embryo n d) (set_state UNUSED (set_kstack 0 (embryo n d))) l A2 Hi2) as H.
    rewrite aq_atake_unused in H. apply H; try done. split; [apply Hlive|done].
  - apply wpg_bind. eapply R_pset; [exact HR2|by intros ?|apply aprocs_atake|]. intros s3 HR3. rewrite aput_atake in HR3.
    apply wpg_ret. exists m, e. split; [done|]. rewrite Hq. exists d, k. split_and!; [done..|]. rewrite E0.
    split_and!; [done|exact HR3|]. eapply (inv_embryo _ _ _ _ _ A2 Hi2); try done. apply Hlive.
Qed.

Lemma R_allocproc t s A c o :
  R s A → Inv idle A → cprocs (amach A) !! c = Some o →
  (aq A UnusedQ ≠ [] → wpg t kalloc (λ _ _, True) (kenv (abase A))) →
  wpg t (allocproc c) (alloc_res A) s.
Proof.
  intros HR Hi Hc Hk. unfold allocproc.
  apply wpg_bind. eapply R_enter; [done..|]. intros s1 m1 HR1 Hi1 Hcp1.
  assert (cprocs m1 !! c = Some o) as Hc1 by (by rewrite Hcp1).
  apply wpg_bind. destruct (aq A UnusedQ) as [|x l] eqn:Eq.
  - eapply R_dequeue_empty; [exact HR1|done|exact Eq|]. rewrite ptr_eqb_true by done.
    apply wpg_bind. eapply R_exit; [exact HR1|exact Hi1|exact Hc1|]. intros s2 m2 HR2 Hi2 Hcp2.
    apply wpg_ret. exists m2, (kenv (abase A)). rewrite Hcp2, Eq. done.
  - eapply R_dequeue; [exact HR1|done|exact Eq|]. intros s2 HR2. rewrite ptr_eqb_false by done.
    destruct (qi_fits _ _ (inv_q _ _ Hi) UnusedQ x) as (d & Hd & _); [rewrite Eq; set_solver|].
    pose proof (R_qdisj _ _ HR) as Hqd. pose proof (inv_live _ _ Hi x d Hd) as Hlive.
    apply wpg_bind. eapply R_pset; [exact HR2|by intros ?|exact Hd|]. intros s3 HR3.
    apply wpg_bind. eapply R_gets; [exact HR3|done|].
    apply wpg_bind. eapply R_pset; [exact HR3|by intros ?|apply aprocs_aput_eq|]. intros s4 HR4.
    rewrite aput_aput in HR4.
    apply wpg_bind. eapply R_modify; [exact HR4|done..|]. intros s5 HR5.
    apply wpg_bind. eapply R_setproc_default; [exact HR5|apply aprocs_aput_eq|exact (take_off _ _ _ _ Hqd Eq)|].
    intros s6 HR6. set (A1 := amod (set_kmach m1) A) in *.
    assert (R s6 (atake x (embryo (nextpid (abase A)) d) l A1)) as HR6'.
    { change (R s6 (amod (set_nextpid (i32 (nextpid (abase A) + 1))) (aput x (embryo (nextpid (abase A)) d)
        (aput x (set_pid (nextpid (abase A)) (set_state EMBRYO d)) (aset UnusedQ l A1))))) in HR6.
      rewrite aput_aput in HR6. exact HR6. }
    destruct (embryo_fine (nextpid (abase A)) d Hlive).
    apply wpg_bind. eapply R_exit; [exact HR6'| |exact Hc1|].
    { eapply (inv_atake _ x d); try done. by destruct Hqd; split. }
    intros s7 m7 HR7 Hi7 Hcp7.
    eapply (R_alloc_tail t s7 A c o m7 x l d); [exact HR7|exact Hi7|done|done|done|done| |done|by apply Hk].
    rewrite <- Hcp1. exact Hcp7.
Qed.

(** ** [fork] *)

(** What [fork] needs of the rest of the kernel to return: [J] is kept by the
    calls it makes, [page] holds of what [kalloc] returns. *)
Record fork_env (t : bool) (J : env → Prop) (page : Z → Prop) (dp : proc) : Prop := {
  fe_kalloc : ∀ e, J e → wpg t kalloc (λ k e', J e' ∧ (k ≠ 0 → page k)) e;
  fe_copy : ∀ e, J e → wpg t (copyuvm (pgdir dp) (sz dp)) (λ _, J) e;
  fe_kfree : ∀ k e, page k → J e → wpg t (kfree k) (λ _, J) e;
  fe_dup : ∀ f e, f ∈ ofile dp → f ≠ 0 → J e → wpg t (filedup f) (λ g e', g = f ∧ J e') e;
  fe_idup : ∀ e, J e → wpg t (idup (cwd dp)) (λ ip e', ip = cwd dp ∧ J e') e
}.

(** The open files of the parent, over those the slot already had. *)
Definition dup1 (fp fl : list Z) (i : nat) : list Z :=
  match fp !! i with
  | Some f => if f =? 0 then fl else <[i := f]> fl
  | None => fl
  end.
Definition copied_files (fp fl : list Z) : list Z := foldl (dup1 fp) fl (seq 0 NOFILE).

Section Fork.
Context (t : bool) (J : env → Prop) (page : Z → Prop) (p x : nat) (dp : proc) (l : list nat).
Context (Hfe : fork_env t J page dp) (Hlen : length (ofile dp) = NOFILE) (Hne : p ≠ x).

Lemma aprocs_atake_ne y d B : y ≠ x → aprocs (atake x d l B) !! y = aprocs B !! y.
Proof. exact (aprocs_aput_ne x y d (aset UnusedQ l B)). Qed.

Lemma R_dup_files ids : ∀ fl dd B s (Q : unit → kst → Prop),
  (∀ i, i ∈ ids → (i < NOFILE)%nat) → aprocs B !! p = Some dp →
  R s (atake x (set_ofile fl dd) l B) → J (kenv (abase B)) →
  (∀ e' s', J e' → R s' (atake x (set_ofile (foldl (dup1 (ofile dp)) fl ids) dd) l (amod (set_kenv e') B)) → Q tt s') →
  wpg t (for_each ids (λ i,
    cur ← pget (Some p);
    f ← deref (λ _, ofile cur !! i);
    when (negb (f =? 0))
      (g ← one (filedup f);
       pr ← pget (Some x);
       pset (Some x) (set_ofile (<[i := g]> (ofile pr)))))) Q s.
Proof.
  induction ids as [|i ids IH]; intros fl dd B s Q His Hp HR HJ HQ; cbn [for_each foldl] in *.
  { apply wpg_ret. apply (HQ (kenv (abase B))); [done|].
    assert (amod (set_kenv (kenv (abase B))) B = B) as ->; [|done].
    destruct B as [b ?]. unfold amod; cbn. by destruct b. }
  apply wpg_bind, wpg_bind. eapply R_pget; [exact HR|by rewrite aprocs_atake_ne|]. intros cur Hcur.
  assert (ofile cur = ofile dp) as -> by (by subst dp).
  assert (∃ f, ofile dp !! i = Some f) as [f Hf].
  { apply lookup_lt_is_Some. rewrite Hlen. apply His. set_solver. }
  apply wpg_bind. eapply wpg_deref; [exact Hf|]. unfold dup1 at 2 in HQ. rewrite Hf in HQ.
  assert (∀ s1 fl1 B1, R s1 (atake x (set_ofile fl1 dd) l B1) → J (kenv (abase B1)) → aprocs B1 !! p = Some dp →
     (∀ e' s', J e' → R s' (atake x (set_ofile (foldl (dup1 (ofile dp)) fl1 ids) dd) l (amod (set_kenv e') B1)) → Q tt s') →
     wpg t (for_each ids (λ i,
    cur ← pget (Some p);
    f ← deref (λ _, ofile cur !! i);
    when (negb (f =? 0))
      (g ← one (filedup f);
       pr ← pget (Some x);
       pset (Some x) (set_ofile (<[i := g]> (ofile pr)))))) Q s1) as Hrest.
  { intros s1 fl1 B1 HR1 HJ1 Hp1 HQ1. eapply IH; [|exact Hp1|exact HR1|exact HJ1|exact HQ1].
    intros j Hj. apply His. set_solver. }
  destruct (f =? 0) eqn:E0; cbn [negb].
  - apply wpg_when_false; [done|]. by eapply Hrest.
  - apply wpg_when_true; [done|]. apply wpg_bind. eapply R_one; [exact HR|].
    eapply wpg_mono; [eapply (fe_dup _ _ _ _ Hfe f); [by eapply list_elem_of_lookup_2|by apply Z.eqb_neq|exact HJ]|].
    cbn beta. intros g e' [-> HJ'] s1 HR1.
    change (R s1 (atake x (set_ofile fl dd) l (amod (set_kenv e') B))) in HR1.
    apply wpg_bind. eapply R_pget; [exact HR1|apply aprocs_atake|]. intros pr Hpr.
    assert (ofile pr = fl) as -> by (change fl with (ofile (set_ofile fl dd)); by rewrite <- Hpr).
    eapply R_pset; [exact HR1|by intros ?|apply aprocs_atake|]. intros s2 HR2. rewrite aput_atake in HR2.
    eapply (Hrest s2 _ (amod (set_kenv e') B)); [exact HR2|done|done|]. exact HQ.
Qed.

Lemma R_dup_all fl dd B s (Q : unit → kst → Prop) :
  aprocs B !! p = Some dp → R s (atake x (set_ofile fl dd) l B) → J (kenv (abase B)) →
  (∀ e' s', J e' → R s' (atake x (set_ofile (copied_files (ofile dp) fl) dd) l (amod (set_kenv e') B)) →
     Q tt s') →
  wpg t (dup_files (Some p) (Some x)) Q s.
Proof.
  unfold copied_files. intros Hp HR HJ HQ. eapply R_dup_files; [|exact Hp|exact HR|exact HJ|exact HQ].
  by intros i [_ ?]%elem_of_seq.
Qed.
End Fork.

(** The child of [p]: [d] is what the slot held, [k] its kernel stack, [pg]
    its page table, [n] its pid. *)
Definition child (p : nat) (dp : proc) (n k pg : Z) (d : proc) : proc :=
  mkProc (sz dp) pg k RUNNABLE n (Some p) (tf_set_eax 0 (tf dp)) K_forkret (pchan d) (killed d)
    (copied_files (ofile dp) (ofile d)) (cwd dp) (name_copy (name dp)) 3 0 0 (prev d) (next d).

(** The child on the unused slot [x], at the end of queue 0. *)
Definition afork (x : nat) (dx : proc) (l : list nat) (A : ast) : ast :=
  aset (LQ 0) (aq A (LQ 0) ++ [x]) (atake x dx l A).

Definition fork_res (p : nat) (dp : proc) (A : ast) (r : Z) (s' : kst) : Prop :=
  ∃ m e, cprocs m = cprocs (amach A) ∧
  ((∃ x l d k pg,
      aq A UnusedQ = x :: l ∧ aprocs A !! x = Some d ∧ k ≠ 0 ∧ pg ≠ 0 ∧ r = nextpid (abase A) ∧
      let A' := amod (set_kmach m) (amod (set_kenv e) (afork x (child p dp r k pg d) l A)) in
      R s' A' ∧ Inv idle A') ∨
   (r = -1 ∧ ∃ A', R s' A' ∧ Inv idle A' ∧ amach A' = m ∧
      (∀ q, q ≠ UnusedQ → aq A' q = aq A q) ∧ aq A' UnusedQ ≡ₚ aq A UnusedQ ∧
      (∀ y, y ∉ aq A UnusedQ → aprocs A' !! y = aprocs A !! y))).

Lemma length_dup1 fp ids : ∀ fl, length (foldl (dup1 fp) fl ids) = length fl.
Proof.
  induction ids as [|i ids IH]; intros fl; cbn; [done|]. rewrite IH. unfold dup1.
  destruct (fp !! i) as [f|]; [|done]. destruct (f =? 0); [done|]. apply length_insert.
Qed.

Lemma length_copied fp fl : length (copied_files fp fl) = length fl.
Proof. apply length_dup1. Qed.

#[local] Opaque copied_files.

(** The part of [fork] after [copyuvm] succeeded. *)
Lemma R_fork_tail t J page s A c p x dp d n k pg l m e :
  fork_env t J page dp → length (ofile dp) = NOFILE → p ≠ x → 
  let B := amod (set_kenv e) (amod (set_kmach m) A) in
  let dx := set_pgdir pg (set_context K_forkret (set_kstack k (embryo n d))) in
  R s (atake x dx l B) → Inv idle (atake x dx l B) → qdisj A →
  aprocs A !! p = Some dp → aprocs A !! x = Some d → aq A UnusedQ = x :: l → J e →
  n = nextpid (abase A) → k ≠ 0 → pg ≠ 0 → length (ofile d) = NOFILE →
  cprocs m = cprocs (amach A) → aruns A c p →
  wpg t (cur ← pget (Some p);
      pset (Some x) (set_sz (sz cur)) ;;
      pset (Some x) (set_parent (Some p)) ;;
      cur ← pget (Some p);
      pset (Some x) (set_tf (tf cur)) ;;
      pr ← pget (Some x);
      pset (Some x) (set_tf (tf_set_eax 0 (tf pr))) ;;
      dup_files (Some p) (Some x) ;;
      cur ← pget (Some p);
      ip ← one (idup (cwd cur));
      pset (Some x) (set_cwd ip) ;;
      cur ← pget (Some p);
      pset (Some x) (set_name (name_copy (name cur))) ;;
      pr ← pget (Some x);
      let pid := pid pr in
      onm (acquire c ptable_lock) ;;
      pset (Some x) (set_state RUNNABLE) ;;
      insert (LQ 0) (Some x) None ;;
      onm (release c ptable_lock) ;;
      mret pid) (fork_res p dp A) s.
Proof.
  intros Hfe Hlen Hne B dx HR Hi Hqd Hp Hd Hq HJ Hn Hk Hpg Hld Hcp Hr.
  assert (∀ dd B', aprocs B' = aprocs A → aprocs (atake x dd l B') !! p = Some dp) as Hpar.
  { intros dd B' E. rewrite aprocs_atake_ne by done. by rewrite E. }
  apply wpg_bind. eapply R_pget; [exact HR|by apply Hpar|]. intros cur Hcur.
  assert (sz cur = sz dp) as -> by (by subst dp). clear cur Hcur.
  apply wpg_bind. eapply R_pset; [exact HR|by intros ?|apply aprocs_atake|]. intros s1 HR1. rewrite aput_atake in HR1.
  apply wpg_bind. eapply R_pset; [exact HR1|by intros ?|apply aprocs_atake|]. intros s2 HR2. rewrite aput_atake in HR2.
  apply wpg_bind. eapply R_pget; [exact HR2|by apply Hpar|]. intros cur Hcur.
  assert (tf cur = tf dp) as -> by (by subst dp). clear cur Hcur.
  apply wpg_bind. eapply R_pset; [exact HR2|by intros ?|apply aprocs_atake|]. intros s3 HR3. rewrite aput_atake in HR3.
  apply wpg_bind. eapply R_pget; [exact HR3|apply aprocs_atake|]. intros pr Hpr.
  assert (tf pr = tf dp) as -> by (change (tf pr) with (tf (unlink pr)); by rewrite Hpr). clear pr Hpr.
  apply wpg_bind. eapply R_pset; [exact HR3|by intros ?|apply aprocs_atake|]. intros s4 HR4. rewrite aput_atake in HR4.
  apply wpg_bind.
  match type of HR4 with R _ (atake x ?dd l B) =>
    eapply (R_dup_all t J page p x dp l Hfe Hlen Hne (ofile d) dd B) end;
    [exact Hp|exact HR4|exact HJ|].
  intros e5 s5 HJ5 HR5. set (B5 := amod (set_kenv e5) B) in *.
  apply wpg_bind. eapply R_pget; [exact HR5|by apply Hpar|]. intros cur Hcur.
  assert (cwd cur = cwd dp) as -> by (by subst dp). clear cur Hcur.
  apply wpg_bind. eapply R_one; [exact HR5|]. eapply wpg_mono; [by eapply (fe_idup _ _ _ _ Hfe)|].
  cbn beta. intros ip e6 [-> HJ6] s6 HR6.
  match type of HR6 with R _ (amod _ (atake x ?dd l _)) => change (R s6 (atake x dd l (amod (set_kenv e6) B5))) in HR6 end.
  set (B6 := amod (set_kenv e6) B5) in *.
  apply wpg_bind. eapply R_pset; [exact HR6|by intros ?|apply aprocs_atake|]. intros s7 HR7. rewrite aput_atake in HR7.
  apply wpg_bind. eapply R_pget; [exact HR7|by apply Hpar|]. intros cur Hcur.
  assert (name cur = name dp) as -> by (by subst dp). clear cur Hcur.
  apply wpg_bind. eapply R_pset; [exact HR7|by intros ?|apply aprocs_atake|]. intros s8 HR8. rewrite aput_atake in HR8.
  subst dx. unfold embryo in HR8. flat HR8.
  match type of HR8 with R _ (atake x ?dd l B6) => set (d8 := dd) in * end.
  assert (set_state RUNNABLE d8 = child p dp n k pg d) as Hchild by reflexivity.
  assert (pid d8 = n ∧ state d8 = EMBRYO ∧ queuelevel d8 = 0 ∧ kstack d8 = k ∧ pgdir d8 = pg ∧ context d8 = K_forkret)
    as (Hpid & Hst8 & Hlv8 & Hk8 & Hpg8 & Hcx8) by done.
  assert (length (ofile d8) = NOFILE) as Hl8
    by (change (length (copied_files (ofile dp) (ofile d)) = NOFILE); by rewrite length_copied).
  clearbody d8.
  apply wpg_bind. eapply R_pget; [exact HR8|apply aprocs_atake|]. intros pr Hpr.
  assert (pid pr = n) as -> by (change (pid pr) with (pid (unlink pr)); by rewrite Hpr, Hpid). clear pr Hpr. cbv zeta.
  assert (Inv idle (atake x d8 l B6)) as Hi8.
  { eapply (inv_embryo idle x _ d8 l B6); [exact (inv_env _ _ e6 Hi)|done..]. }
  assert (cprocs (amach (atake x d8 l B6)) !! c = Some (Some p)) as Hr8 by (change (cprocs m !! c = Some (Some p)); by rewrite Hcp).
  apply wpg_bind. eapply R_enter; [exact HR8|exact Hi8|exact Hr8|]. intros s9 m9 HR9 Hi9 Hcp9.
  assert (cprocs m9 !! c = Some (Some p)) as Hr9 by (by rewrite Hcp9).
  set (B9 := amod (set_kmach m9) B6) in *. change (R s9 (atake x d8 l B9)) in HR9. change (Inv (in_crit c ptable_lock) (atake x d8 l B9)) in Hi9.
  apply wpg_bind. eapply R_pset; [exact HR9|by intros ?|apply aprocs_atake|]. intros s10 HR10. rewrite aput_atake in HR10.
  apply wpg_bind. eapply R_insert_end; [exact HR10|unfold valid_q, NQUEUE; lia|exact (take_off _ _ _ _ Hqd Hq)|rewrite aprocs_atake; eauto|].
  intros s11 HR11.
  assert (live_ok (set_state RUNNABLE d8)) as Hl11
    by (unfold live_ok; cbn; rewrite Hk8, Hpg8, Hcx8; done).
  pose proof (inv_embryo_queue (in_crit c ptable_lock) (LQ 0) x d8 (set_state RUNNABLE d8) l B9 Hi9 Hst8
    (conj eq_refl (or_introl eq_refl)) ltac:(discriminate) eq_refl Hl11) as Hi11.
  apply wpg_bind. eapply R_exit; [exact HR11| |exact Hr9|].
  { exact Hi11. }
  intros s12 m12 HR12 Hi12 Hcp12. rewrite Hchild in HR12, Hi12. apply wpg_ret. exists m12, e6. split.
  { rewrite Hcp12, <- Hcp. exact Hcp9. }
  left. exists x, l, d, k, pg. split_and!; [done..|]. split; [exact HR12|exact Hi12].
Qed.

(** The process given back keeps the invariant and the other processes. *)
Lemma fork_failed p dp A s' m e x d d' l :
  aq A UnusedQ = x :: l → cprocs m = cprocs (amach A) →
  Inv idle (atake x d l (amod (set_kenv e) (amod (set_kmach m) A))) → state d = EMBRYO →
  state d' = UNUSED → queuelevel d' = queuelevel d → length (ofile d') = NOFILE →
  R s' (aset UnusedQ (l ++ [x]) (atake x d' l (amod (set_kenv e) (amod (set_kmach m) A)))) →
  fork_res p dp A (-1) s'.
Proof.
  intros Hq Hcp Hi Hs Hs' El Hlen HR. exists m, e. split; [done|]. right. split; [done|].
  eexists. split; [exact HR|]. split.
  { pose proof (inv_embryo_queue idle UnusedQ x d d' l _ Hi Hs) as H. rewrite aq_atake_unused in H.
    apply H; try done. split; [done|by rewrite Hs']. }
  split; [done|]. split.
  { intros q Hne. rewrite aq_aset_ne by done. exact (aq_aset_ne UnusedQ q l A Hne). }
  split.
  { rewrite aq_aset_eq, Hq. symmetry. apply Permutation_cons_append. }
  intros y Hy. rewrite Hq in Hy.
  exact (aprocs_aput_ne x y d' (aset UnusedQ l A) ltac:(set_solver)).
Qed.

Lemma R_fork t J page s A c p dp :
  R s A → Inv idle A → aruns A c p → aprocs A !! p = Some dp → fork_env t J page dp → J (kenv (abase A)) →
  wpg t (fork c) (fork_res p dp A) s.
Proof.
  intros HR Hi Hr Hp Hfe HJ. pose proof (R_qdisj _ _ HR) as Hqd. unfold fork.
  apply wpg_bind. eapply R_me; [done..|]. intros s1 m1 HR1 Hi1 Hcp1. set (A1 := amod (set_kmach m1) A) in *.
  assert (aruns A1 c p) as Hr1 by (unfold aruns, A1, amach; cbn; rewrite Hcp1; exact Hr).
  pose proof (R_allocproc t s1 A1 c _ HR1 Hi1 Hr1) as Halloc.
  apply wpg_bind. eapply wpg_mono.
  { eapply Halloc. intros _. eapply wpg_mono; [by apply (fe_kalloc _ _ _ _ Hfe)|done]. }
  cbn beta. intros np s2 (m2 & e2 & Hcp2 & Hres). change (aq A1 UnusedQ) with (aq A UnusedQ) in Hres.
  assert (cprocs m2 = cprocs (amach A)) as Hcp by (rewrite Hcp2; exact Hcp1).
  destruct (aq A UnusedQ) as [|x l] eqn:Hq.
  { destruct Hres as (-> & _ & HR2 & Hi2). rewrite ptr_eqb_true by done. apply wpg_ret.
    exists m2, (kenv (abase A)). split; [done|]. right. split; [done|]. eexists. split_and!; [exact HR2|exact Hi2|done..]. }
  destruct Hres as (d & k & Hd & Hk & Hnp & HR2 & Hi2). change (aprocs A !! x = Some d) in Hd.
  change (nextpid (abase A1)) with (nextpid (abase A)) in *. set (n := nextpid (abase A)) in *.
  change (kalloc (kenv (abase A)) = Ok (k, e2)) in Hk.
  pose proof (fe_kalloc _ _ _ _ Hfe _ HJ) as Hpage. unfold wpg in Hpage. rewrite Hk in Hpage. destruct Hpage as [HJ2 Hpage].
  set (B := amod (set_kenv e2) (amod (set_kmach m2) A)).
  pose proof (inv_live _ _ Hi x d Hd) as [Hld _].
  destruct (Z.eqb_spec k 0) as [Hk0|Hk0]; subst np.
  { rewrite ptr_eqb_true by done. apply wpg_ret.
    exists m2, e2. split; [done|]. right. split; [done|]. eexists. split; [exact HR2|]. split; [exact Hi2|].
    split; [done|]. split.
    { intros q Hne. change (aq (put_back x (set_state UNUSED (set_kstack 0 (embryo n d))) l A) q = aq A q).
      unfold put_back. rewrite aq_aset_ne by done. exact (aq_aset_ne UnusedQ q l A Hne). }
    split.
    { change (aq (put_back x (set_state UNUSED (set_kstack 0 (embryo n d))) l A) UnusedQ ≡ₚ aq A UnusedQ).
      unfold put_back. rewrite aq_aset_eq, Hq. symmetry. apply Permutation_cons_append. }
    intros y Hy. rewrite Hq in Hy. exact (aprocs_aput_ne x y _ (aset UnusedQ l A) ltac:(set_solver)). }
  rewrite ptr_eqb_false by done.
  assert (p ≠ x) as Hne.
  { intros ->. destruct (inv_running _ _ _ _ Hi Hr) as (d' & Hd' & Hs'). eapply (inv_running_off _ _ _ _ Hi Hr UnusedQ).
    rewrite Hq. set_solver. }
  set (dx := set_context K_forkret (set_kstack k (embryo n d))) in *.
  change (R s2 (atake x dx l B)) in HR2. change (Inv idle (atake x dx l B)) in Hi2.
  apply wpg_bind. eapply R_pget; [exact HR2|by rewrite aprocs_atake_ne|]. intros cur Hcur.
  assert (pgdir cur = pgdir dp ∧ sz cur = sz dp) as [-> ->] by (by subst dp). clear cur Hcur.
  apply wpg_bind. eapply R_one; [exact HR2|]. eapply wpg_mono; [by apply (fe_copy _ _ _ _ Hfe)|].
  cbn beta. intros pg e3 HJ3 s3 HR3. set (B3 := amod (set_kenv e3) (amod (set_kmach m2) A)).
  change (R s3 (atake x dx l B3)) in HR3. assert (Inv idle (atake x dx l B3)) as Hi3 by exact (inv_env _ _ e3 Hi2).
  apply wpg_bind. eapply R_pset; [exact HR3|by intros ?|apply aprocs_atake|]. intros s4 HR4. rewrite aput_atake in HR4.
  assert (Inv idle (atake x (set_pgdir pg dx) l B3)) as Hi4 by (by eapply (inv_embryo _ _ _ _ _ B3 Hi3)).
  destruct (Z.eqb_spec pg 0) as [Hpg|Hpg].
  - apply wpg_bind. eapply R_pget; [exact HR4|apply aprocs_atake|]. intros pr Hpr.
    assert (kstack pr = k) as -> by (change (kstack pr) with (kstack (unlink pr)); by rewrite Hpr).
    apply wpg_bind. eapply R_one; [exact HR4|]. eapply wpg_mono; [exact (fe_kfree _ _ _ _ Hfe k e3 (Hpage Hk0) HJ3)|].
    cbn beta. intros [] e5 HJ5 s5 HR5. set (B5 := amod (set_kenv e5) (amod (set_kmach m2) A)).
    change (R s5 (atake x (set_pgdir pg dx) l B5)) in HR5.
    assert (Inv idle (atake x (set_pgdir pg dx) l B5)) as Hi5 by exact (inv_env _ _ e5 Hi4).
    apply wpg_bind. eapply R_pset; [exact HR5|by intros ?|apply aprocs_atake|]. intros s6 HR6. rewrite aput_atake in HR6.
    apply wpg_bind. eapply R_pset; [exact HR6|by intros ?|apply aprocs_atake|]. intros s7 HR7. rewrite aput_atake in HR7.
    apply wpg_bind. eapply R_insert_end; [exact HR7|done|exact (take_off _ _ _ _ Hqd Hq)|rewrite aprocs_atake; eauto|].
    intros s8 HR8. rewrite aq_atake_unused in HR8. apply wpg_ret.
    eapply (fork_failed p dp A s8 m2 e5 x (set_pgdir pg dx) (set_state UNUSED (set_kstack 0 (set_pgdir pg dx))));
      [exact Hq|exact Hcp|exact Hi5|done|done|by transitivity 0|exact Hld|exact HR8].
  - eapply (R_fork_tail t J page s4 A c p x dp d n k pg l m2 e3); try done.
    apply (inv_live _ _ Hi p dp Hp).
Qed.
End Proc.
