(* ===== verification/MlfqExit.v ===== *)
(** * [exit], [pinit] and [userinit] on the abstract state *)

From S2P Require Export MlfqProc.
Local Open Scope Z_scope.

Section Exit.
Context {KE : KernelEnv}.

(** What [exit] needs of the rest of the kernel to reach [sched]. *)
Record exit_env (t : bool) (J : env → Prop) (dp : proc) : Prop := {
  xe_close : ∀ f e, f ∈ ofile dp → f ≠ 0 → J e → wpg t (fileclose f) (λ _, J) e;
  xe_begin : ∀ e, J e → wpg t begin_op (λ _, J) e;
  xe_iput : ∀ e, J e → wpg t (iput (cwd dp)) (λ _, J) e;
  xe_end : ∀ e, J e → wpg t end_op (λ _, J) e
}.

Lemma exit_env_wlp dp : exit_env false (λ _, True) dp.
Proof. split; intros; by apply wlp_true. Qed.

Lemma fork_env_wlp dp :
  (∀ f e g e', filedup f e = Ok (g, e') → g = f) → (∀ i e j e', idup i e = Ok (j, e') → j = i) →
  fork_env false (λ _, True) (λ _, True) dp.
Proof.
  intros Hf Hi. split; intros; try by apply wlp_true.
  - unfold wpg. destruct (filedup f e) as [[g e']|?| |] eqn:E; [|done..]. split; [by eapply Hf|done].
  - unfold wpg. destruct (idup (cwd dp) e) as [[g e']|?| |] eqn:E; [|done..]. split; [by eapply Hi|done].
Qed.

(** ** Closing the files *)

Section Close.
Context (t : bool) (J : env → Prop) (p : nat) (dp : proc) (Hxe : exit_env t J dp).

Lemma R_close_from n : ∀ k fl B s (Q : unit → kst → Prop),
  (k + n)%nat = NOFILE → length fl = NOFILE → (∀ j, (j < k)%nat → fl !! j = Some 0) →
  (∀ j, (k ≤ j)%nat → fl !! j = ofile dp !! j) →
  R s (aput p (set_ofile fl dp) B) → J (kenv (abase B)) →
  (∀ e' s', J e' → R s' (aput p (set_ofile (replicate NOFILE 0) dp) (amod (set_kenv e') B)) → Q tt s') →
  wpg t (for_each (seq k n) (λ fd,
    pr ← pget (Some p);
    f ← deref (λ _, ofile pr !! fd);
    when (negb (f =? 0))
      (one (fileclose f) ;;
       pr ← pget (Some p);
       pset (Some p) (set_ofile (<[fd := 0]> (ofile pr)))))) Q s.
Proof.
  induction n as [|n IH]; intros k fl B s Q Hk Hlen Hz Hrest HR HJ HQ; cbn [seq for_each].
  { apply wpg_ret. apply (HQ (kenv (abase B))); [done|].
    assert (amod (set_kenv (kenv (abase B))) B = B) as -> by (destruct B as [b ?]; unfold amod; cbn; by destruct b).
    assert (replicate NOFILE 0 = fl) as ->; [|done].
    apply list_eq. intros j. destruct (decide (j < NOFILE)%nat).
    - rewrite lookup_replicate_2 by done. symmetry. apply Hz. lia.
    - rewrite !lookup_ge_None_2; [done|lia|rewrite length_replicate; lia]. }
  assert (∀ s1 fl1 B1, length fl1 = NOFILE → fl1 !! k = Some 0 → (∀ j, j ≠ k → fl1 !! j = fl !! j) →
    R s1 (aput p (set_ofile fl1 dp) B1) → J (kenv (abase B1)) →
    (∀ e' s', J e' → R s' (aput p (set_ofile (replicate NOFILE 0) dp) (amod (set_kenv e') B1)) → Q tt s') →
    wpg t (for_each (seq (S k) n) (λ fd,
    pr ← pget (Some p);
    f ← deref (λ _, ofile pr !! fd);
    when (negb (f =? 0))
      (one (fileclose f) ;;
       pr ← pget (Some p);
       pset (Some p) (set_ofile (<[fd := 0]> (ofile pr)))))) Q s1) as Hgo.
  { intros s1 fl1 B1 Hl1 Hk1 Hj1 HR1 HJ1 HQ1. eapply (IH (S k) fl1 B1); [lia|done| | |exact HR1|exact HJ1|exact HQ1].
    - intros j Hj. destruct (decide (j = k)) as [->|]; [done|]. rewrite Hj1 by done. apply Hz. lia.
    - intros j Hj. rewrite Hj1 by lia. apply Hrest. lia. }
  apply wpg_bind, wpg_bind. eapply R_pget; [exact HR|apply aprocs_aput_eq|]. intros pr Hpr.
  assert (ofile pr = fl) as -> by (change (ofile (unlink pr) = fl); by rewrite Hpr).
  assert (∃ f, fl !! k = Some f) as [f Hf] by (apply lookup_lt_is_Some; lia).
  apply wpg_bind. eapply wpg_deref; [exact Hf|]. destruct (Z.eqb_spec f 0) as [->|Hf0]; cbn [negb].
  - apply wpg_when_false; [done|]. by eapply Hgo.
  - apply wpg_when_true; [done|]. apply wpg_bind. eapply R_one; [exact HR|].
    eapply wpg_mono; [eapply (xe_close _ _ _ Hxe f); [|done|exact HJ]|].
    { rewrite Hrest in Hf by lia. by eapply list_elem_of_lookup_2. }
    cbn beta. intros [] e' HJ' s1 HR1.
    change (R s1 (aput p (set_ofile fl dp) (amod (set_kenv e') B))) in HR1.
    apply wpg_bind. eapply R_pget; [exact HR1|apply aprocs_aput_eq|]. intros pr1 Hpr1.
    assert (ofile pr1 = fl) as -> by (change (ofile (unlink pr1) = fl); by rewrite Hpr1).
    eapply R_pset; [exact HR1|by intros ?|apply aprocs_aput_eq|]. intros s2 HR2. rewrite aput_aput in HR2.
    eapply (Hgo s2 (<[k := 0]> fl) (amod (set_kenv e') B)); [by rewrite length_insert| | |exact HR2|done|exact HQ].
    + apply list_lookup_insert_eq. lia.
    + intros j Hj. by apply list_lookup_insert_ne.
Qed.
End Close.

(** ** Handing the children over *)

Definition adopt_step (p : nat) (ini : ptr) (A : ast) (x : nat) : ast :=
  match aprocs A !! x with
  | Some d =>
      if ptr_eqb (parent d) (Some p) then
        let A1 := aput x (set_parent ini d) A in
        if bool_decide (state d = ZOMBIE) then awakeup (chan_of ini) A1 else A1
      else A
  | None => A
  end.

Definition aadopt (p : nat) (ini : ptr) (A : ast) : ast := foldl (adopt_step p ini) A proc_table.

Lemma inv_put_data I x d d' A :
  aprocs A !! x = Some d → state d' = state d → queuelevel d' = queuelevel d → priority d' = priority d →
  live_ok d' → Inv I A → Inv I (aput x d' A).
Proof.
  intros Hd Es El Ep Hl [HQ Hc Ht HI Hv]. split; [by eapply qinv_put_same| |done|done|by apply live_put].
  eapply cinv_put; [exact Hd| |done]. left. by rewrite Es.
Qed.

Lemma abase_awakeup ch A : qdisj A → QInv [] A → abase (awakeup ch A) = set_procs (aprocs (awakeup ch A)) (abase A).
Proof. intros Hqd HQ. apply (wk_base _ _ _ _ _ _ (awakeup_woken [] ch A Hqd HQ)). Qed.

Lemma R_adopt t c o p ini s A l (Q : unit → kst → Prop) :
  R s A → Inv (in_crit c ptable_lock) A → cprocs (amach A) !! c = Some o → initproc (abase A) = ini →
  (∀ x, x ∈ l → (x < NPROC)%nat) →
  (∀ s', let A' := foldl (adopt_step p ini) A l in
     R s' A' → Inv (in_crit c ptable_lock) A' → abase A' = set_procs (aprocs A') (abase A) → Q tt s') →
  wpg t (for_each l (λ y,
    pr ← pget (Some y);
    when (ptr_eqb (parent pr) (Some p))
      (ini ← gets initproc;
       pset (Some y) (set_parent ini) ;;
       pr ← pget (Some y);
       when (bool_decide (state pr = ZOMBIE)) (wakeup1 (chan_of ini))))) Q s.
Proof.
  revert s A. induction l as [|x l IH]; intros s A HR Hi Hc Hini Hl HQ; cbn [for_each foldl] in *.
  { apply wpg_ret. apply HQ; [done|done|]. unfold aprocs. by rewrite set_procs_id. }
  assert (∃ d, aprocs A !! x = Some d) as [d Hd] by (apply (qi_table _ _ (inv_q _ _ Hi)), Hl; set_solver).
  assert (∀ s1, R s1 (adopt_step p ini A x) → Inv (in_crit c ptable_lock) (adopt_step p ini A x) →
     abase (adopt_step p ini A x) = set_procs (aprocs (adopt_step p ini A x)) (abase A) →
     wpg t (for_each l (λ y,
    pr ← pget (Some y);
    when (ptr_eqb (parent pr) (Some p))
      (ini ← gets initproc;
       pset (Some y) (set_parent ini) ;;
       pr ← pget (Some y);
       when (bool_decide (state pr = ZOMBIE)) (wakeup1 (chan_of ini))))) Q s1) as Hgo.
  { intros s1 HR1 Hi1 Hb1. apply (IH s1 _ HR1 Hi1); [unfold amach; by rewrite Hb1|by rewrite Hb1|set_solver|].
    intros s2 HR2 Hi2 Hb2. apply HQ; [done|done|]. rewrite Hb2, Hb1. done. }
  clear IH HQ. apply wpg_bind, wpg_bind. eapply R_pget; [exact HR|exact Hd|]. intros pr Hpr.
  assert (parent pr = parent d) as -> by (by subst d). unfold adopt_step in Hgo. rewrite Hd in Hgo.
  destruct (ptr_eqb (parent d) (Some p)).
  2:{ apply wpg_when_false; [done|]. apply Hgo; [done|done|]. unfold aprocs. by rewrite set_procs_id. }
  apply wpg_when_true; [done|]. apply wpg_bind. eapply (R_gets _ _ _ HR); [done|]. rewrite Hini.
  apply wpg_bind. eapply R_pset; [exact HR|by intros ?|exact Hd|]. intros s1 HR1.
  assert (Inv (in_crit c ptable_lock) (aput x (set_parent ini d) A)) as Hi1.
  { eapply inv_put_data; [exact Hd|done..| |exact Hi]. apply (inv_live _ _ Hi x d Hd). }
  apply wpg_bind. eapply R_pget; [exact HR1|apply aprocs_aput_eq|]. intros pr1 Hpr1.
  assert (state pr1 = state d) as -> by (change (state (unlink pr1) = state d); by rewrite Hpr1).
  destruct (bool_decide (state d = ZOMBIE)).
  - apply wpg_when_true; [done|]. pose proof (R_qdisj _ _ HR1) as Hqd1.
    eapply R_wakeup1; [exact HR1|apply Hi1|by eapply has_levels|]. intros s2 HR2.
    apply Hgo; [exact HR2|by apply inv_awakeup|]. rewrite (abase_awakeup _ _ Hqd1 (inv_q _ _ Hi1)) at 1. done.
  - apply wpg_when_false; [done|]. by apply Hgo.
Qed.

(** ** [exit] *)

(** The process with its files closed and its directory given up. *)
Definition closed (d : proc) : proc := set_cwd 0 (set_ofile (replicate NOFILE 0) d).

(** The kernel with the parent woken and the children handed over. *)
Definition abandon (p : nat) (A : ast) : ast :=
  match aprocs A !! p with
  | Some d => aadopt p (initproc (abase A)) (awakeup (chan_of (parent d)) (aput p (closed d) A))
  | None => A
  end.

Definition azombie (p : nat) (i : bool) (A : ast) : ast :=
  match aprocs A !! p with
  | Some d => aput p (set_context (K_exit i) (set_state ZOMBIE d)) (amod (set_lockproc None) A)
  | None => A
  end.

(** The last words of [exit]: the caller becomes a zombie and leaves. *)
Lemma R_exit_leave t s A c p (Q : unit → kst → Prop) :
  R s A → Inv (in_crit c ptable_lock) A → aruns A c p →
  (∀ s' m', let A' := amod (set_kmach m') (aleave (azombie p (irq_on (amach A) c) A)) in
     R s' A' → Inv idle A' → cprocs m' = <[c := None]> (cprocs (amach A)) → Q tt s') →
  wpg t (pset (Some p) (set_state ZOMBIE) ;; releasemlfq ;; sched c K_exit) Q s.
Proof.
  intros HR Hi Hr HQ. destruct (inv_running _ _ _ _ Hi Hr) as (d & Hd & Hst).
  unfold azombie in HQ. rewrite Hd in HQ.
  apply wpg_bind. eapply R_pset; [exact HR|by intros ?|exact Hd|]. intros s1 HR1.
  apply wpg_bind. eapply R_releasemlfq; [exact HR1|]. intros s2 HR2.
  set (d' := set_context (K_exit (irq_on (amach A) c)) (set_state ZOMBIE d)) in *.
  assert (leaving c p (aput p d' (amod (set_lockproc None) A))) as Hlv.
  { destruct Hi as [HQ0 Hc Ht Hm Hv]. split; [| | |cbn; lia|exact Hm|exact Hr| |].
    - eapply qinv_unqueued; [apply aprocs_aput_eq|done|].
      assert (off p A) as Hoff by (eapply off_unqueued; [exact HQ0|exact Hd|by rewrite Hst]).
      apply qinv_put; [|exact Hoff| |by apply qinv_amod].
      + apply (qi_table _ _ HQ0). eauto.
      + change (level_ok d). by eapply (qi_levels _ _ HQ0).
    - by destruct (R_qdisj _ _ HR); split.
    - eapply (cinv_put _ p d); [exact Hd| |].
      + right. split; [done|]. intros c' Hc'. rewrite (ci_uniq _ _ Hc c c' p Hr Hc'). set_solver.
      + apply (cinv_ext _ A); [done..|]. eapply cinv_weaken; [|exact Hc]. set_solver.
    - apply live_put; [exact Hv|]. split; [|done]. apply (Hv p d Hd).
    - intros e. rewrite aprocs_aput_eq. by intros [= <-]. }
  assert (aput p (set_context (K_exit (irq_on (amach A) c)) (set_state ZOMBIE d)) (amod (set_lockproc None) (aput p (set_state ZOMBIE d) A)) =
          aput p d' (amod (set_lockproc None) A)) as E.
  { exact (f_equal (amod (set_lockproc None)) (aput_aput p (set_state ZOMBIE d) d' A)). }
  eapply (R_sched t s2 _ c p (set_state ZOMBIE d) _ (irq_on (amach A) c)); [exact HR2|done|apply (aprocs_aput_eq p)| |]; rewrite E; [done|exact HQ].
Qed.

Definition exit_res (c p : nat) (A : ast) (s' : kst) : Prop :=
  ∃ m e, cprocs m = cprocs (amach A) ∧
    reaches (aleave (azombie p (irq_on (amach A) c) (abandon p (amod (set_kenv e) (amod (set_kmach m) A))))) c None A s'.

(** From taking the lock on, with the files closed. *)
Lemma R_exit_locked t s A c p d (Q : unit → kst → Prop) :
  R s (aput p (closed d) A) → Inv idle (aput p (closed d) A) → aruns A c p → aprocs A !! p = Some d →
  (∀ s' m m', cprocs m = cprocs (amach A) →
     let A' := amod (set_kmach m') (aleave (azombie p (irq_on (amach A) c) (abandon p (amod (set_kmach m) A)))) in
     R s' A' → Inv idle A' → cprocs m' = <[c := None]> (cprocs (amach A)) → Q tt s') →
  wpg t (onm (acquire c ptable_lock) ;;
    pr ← pget (Some p);
    wakeup1 (chan_of (parent pr)) ;;
    for_each proc_table (λ y,
      pr ← pget (Some y);
      when (ptr_eqb (parent pr) (Some p))
        (ini ← gets initproc;
         pset (Some y) (set_parent ini) ;;
         pr ← pget (Some y);
         when (bool_decide (state pr = ZOMBIE)) (wakeup1 (chan_of ini)))) ;;
    pset (Some p) (set_state ZOMBIE) ;;
    releasemlfq ;;
    sched c K_exit) Q s.
Proof.
  intros HR Hi Hr Hd HQ. unfold abandon in HQ. 
  apply wpg_bind. eapply R_enter_irq; [exact HR|exact Hi|exact Hr|]. intros s1 m1 HR1 Hi1 Hcp1 Hq1.
  specialize (Hq1 c). change (irq_on m1 c = irq_on (amach A) c) in Hq1. set (A1 := amod (set_kmach m1) A) in *.
  change (R s1 (aput p (closed d) A1)) in HR1. change (Inv (in_crit c ptable_lock) (aput p (closed d) A1)) in Hi1.
  apply wpg_bind. eapply R_pget; [exact HR1|apply aprocs_aput_eq|]. intros pr Hpr.
  assert (parent pr = parent d) as -> by (change (parent (unlink pr) = parent d); by rewrite Hpr).
  pose proof (R_qdisj _ _ HR1) as Hqd1.
  apply wpg_bind. eapply R_wakeup1; [exact HR1|apply Hi1|by eapply has_levels|]. intros s2 HR2.
  pose proof (inv_awakeup _ (chan_of (parent d)) _ Hqd1 Hi1) as Hi2.
  pose proof (abase_awakeup (chan_of (parent d)) _ Hqd1 (inv_q _ _ Hi1)) as Hb2.
  set (A2 := awakeup (chan_of (parent d)) (aput p (closed d) A1)) in *.
  assert (aruns A2 c p) as Hr2.
  { unfold aruns, amach. rewrite Hb2. change (cprocs m1 !! c = Some (Some p)). rewrite Hcp1. exact Hr. }
  apply wpg_bind. eapply (R_adopt t c _ p (initproc (abase A))); [exact HR2|exact Hi2|exact Hr2|by rewrite Hb2| |].
  { intros x [_ Hx]%elem_of_seq. unfold NPROC in *; lia. }
  intros s3 A3 HR3 Hi3 Hb3.
  assert (amach A3 = m1) as Hm3 by (unfold amach; rewrite Hb3, Hb2; done).
  eapply R_exit_leave; [exact HR3|exact Hi3|unfold aruns; rewrite Hm3, Hcp1; exact Hr|].
  intros s4 m4 A4 HR4 Hi4 Hcp4. subst A4. rewrite Hm3, Hq1 in HR4, Hi4. eapply (HQ s4 m1 m4); [exact Hcp1| | |].
  - change (aprocs (amod (set_kmach m1) A) !! p) with (aprocs A !! p). rewrite Hd. exact HR4.
  - change (aprocs (amod (set_kmach m1) A) !! p) with (aprocs A !! p). rewrite Hd. exact Hi4.
  - rewrite Hcp4, Hm3. by rewrite Hcp1.
Qed.

Lemma R_exit_call t J s A c p d :
  R s A → Inv idle A → aruns A c p → aprocs A !! p = Some d → initproc (abase A) ≠ Some p →
  exit_env t J d → J (kenv (abase A)) →
  wpg t (exit c) (λ _, exit_res c p A) s.
Proof.
  intros HR Hi Hr Hd Hini Hxe HJ. unfold exit.
  destruct (inv_running _ _ _ _ Hi Hr) as (d0 & Hd0 & Hst). rewrite Hd in Hd0. injection Hd0 as <-.
  destruct (inv_live _ _ Hi p d Hd) as [Hlen Hlive]. rewrite Hst in Hlive.
  apply wpg_bind. eapply R_me_irq; [done..|]. intros s1 m1 HR1 Hi1 Hcp1 Hq1. cbn in Hcp1. specialize (Hq1 c).
  apply wpg_bind. eapply (R_gets _ _ _ HR1); [done|].
  rewrite ptr_eqb_false by (intros E; by apply Hini).
  set (A1 := amod (set_kmach m1) A) in *.
  assert (R s1 (aput p (set_ofile (ofile d) d) A1)) as HR1'.
  { replace (aput p (set_ofile (ofile d) d) A1) with A1; [done|]. unfold aput. rewrite insert_id.
    - destruct A1 as [b q]. unfold aprocs; cbn. by rewrite set_procs_id.
    - assert (set_ofile (ofile d) d = d) as -> by (by destruct d). exact Hd. }
  apply wpg_bind. eapply (R_close_from t J p d Hxe NOFILE 0 (ofile d) A1); [done|done|by intros j ?; lia|done|exact HR1'|exact HJ|].
  intros e2 s2 HJ2 HR2. 
  apply wpg_bind. eapply R_one; [exact HR2|]. eapply wpg_mono; [exact (xe_begin _ _ _ Hxe e2 HJ2)|].
  cbn beta. intros [] e3 HJ3 s3 HR3.
  apply wpg_bind. eapply R_pget; [exact HR3|apply (aprocs_aput_eq p)|]. intros pr Hpr.
  assert (cwd pr = cwd d) as -> by (change (cwd (unlink pr) = cwd d); by rewrite Hpr).
  apply wpg_bind. eapply R_one; [exact HR3|]. eapply wpg_mono; [exact (xe_iput _ _ _ Hxe e3 HJ3)|].
  cbn beta. intros [] e4 HJ4 s4 HR4.
  apply wpg_bind. eapply R_one; [exact HR4|]. eapply wpg_mono; [exact (xe_end _ _ _ Hxe e4 HJ4)|].
  cbn beta. intros [] e5 HJ5 s5 HR5. set (A5 := amod (set_kenv e5) A1).
  change (R s5 (aput p (set_ofile (replicate NOFILE 0) d) A5)) in HR5.
  apply wpg_bind. eapply R_pset; [exact HR5|by intros ?|apply aprocs_aput_eq|]. intros s6 HR6. rewrite aput_aput in HR6.
  assert (Inv idle A5) as Hi5 by (by apply inv_env).
  eapply (R_exit_locked t s6 A5 c p d); [exact HR6| |unfold aruns; change (cprocs m1 !! c = Some (Some p)); by rewrite Hcp1|exact Hd|].
  - eapply inv_put_data; [exact Hd|done..| |exact Hi5].
    split; [apply length_replicate|]. cbn [state closed set_cwd set_ofile]. by rewrite Hst.
  - intros s7 m7 m8 Hcp7 A8 HR8 Hi8 Hcp8. exists m7, e5. change (cprocs (amach A5)) with (cprocs m1) in *.
    subst A8. change (irq_on (amach A5) c) with (irq_on m1 c) in HR8, Hi8. rewrite Hq1 in HR8, Hi8. split; [by rewrite Hcp7|]. exists m8. split; [exact HR8|]. split; [exact Hi8|]. by rewrite Hcp8, Hcp1.
Qed.
End Exit.

(** ** Booting: [pinit] and [userinit] *)

Section Boot.
Context {KE : KernelEnv}.

(** The abstract state of the zeroed memory: all queues are empty. *)
Definition boot_ast (m : mach) (e : env) : ast := mkAst (abs_of (boot m e)) (λ _, []).

Lemma boot_queue m e q qv : queues (boot m e) !! q = Some qv → qv = queue0.
Proof.
  unfold boot; cbn. intros H. repeat (rewrite lookup_insert_Some in H; destruct H as [[_ H]|[_ H]]; [done|]).
  by rewrite lookup_empty in H.
Qed.

Lemma boot_valid m e q : is_Some (queues (boot m e) !! q) ↔ valid_q q.
Proof.
  unfold boot; cbn. rewrite !lookup_insert_is_Some, lookup_empty.
  unfold valid_q, NQUEUE. destruct q as [k| |]; split; intros H.
  - destruct k as [|[|[|k]]]; [lia..|]. naive_solver.
  - destruct k as [|[|[|k]]]; [naive_solver..|lia].
  - done.
  - naive_solver.
  - done.
  - naive_solver.
Qed.

Lemma R_boot m e : R (boot m e) (boot_ast m e).
Proof.
  split; [|done]. split; [apply (boot_valid m e)| |done|by intros ??? ?%not_elem_of_nil].
  intros q qv Hq. rewrite (boot_queue m e q qv Hq). by split; [..|constructor].
Qed.

Lemma lookup_table (f : nat → proc) n : ∀ k x,
  (list_to_map ((λ i, (i, f i)) <$> seq k n) : gmap nat proc) !! x =
    (if decide (k ≤ x < k + n)%nat then Some (f x) else None).
Proof.
  induction n as [|n IH]; intros k x; cbn.
  - rewrite lookup_empty. by rewrite decide_False by lia.
  - destruct (decide (x = k)) as [->|].
    + rewrite lookup_insert_eq. by rewrite decide_True by lia.
    + rewrite lookup_insert_ne by done. rewrite IH. repeat case_decide; try done; lia.
Qed.

Lemma boot_procs m e x : aprocs (boot_ast m e) !! x = (if decide (x < NPROC)%nat then Some proc0 else None).
Proof.
  unfold aprocs, boot_ast, abs_of, data; cbn [abase procs set_pq set_procs].
  rewrite lookup_fmap. change (procs (boot m e)) with (list_to_map ((λ i, (i, proc0)) <$> seq 0 NPROC) : gmap nat proc).
  rewrite (lookup_table (λ _, proc0)). repeat case_decide; try done; lia.
Qed.

Lemma inv_boot m e : idle m → (∀ o, o ∈ cprocs m → o = None) →
  QInv proc_table (boot_ast m e) ∧ CInv [] (boot_ast m e) ∧ Live (boot_ast m e).
Proof.
  intros Hi Hnone. split; [|split].
  - split.
    + intros x. rewrite boot_procs. case_decide; [by split|]. by split; [intros [? ?]|].
    + intros x d. rewrite boot_procs. case_decide; [|done]. intros [= <-]. unfold level_ok; cbn; lia.
    + by intros q x ?%not_elem_of_nil.
    + intros x d. rewrite boot_procs. case_decide as Hx; [|done]. intros _ Hn. exfalso. apply Hn.
      apply elem_of_seq. unfold NPROC in *; lia.
    + constructor.
  - assert (∀ c x, cprocs (amach (boot_ast m e)) !! c ≠ Some (Some x)) as Hno.
    { intros c x Hc. assert (Some x = None) by (by eapply Hnone, list_elem_of_lookup_2). done. }
    split; [intros c x Hc; by apply Hno in Hc|intros c c' x Hc; by apply Hno in Hc|].
    intros x d. rewrite boot_procs. case_decide; [|done]. by intros [= <-].
  - intros x d. rewrite boot_procs. case_decide; [|done]. by intros [= <-].
Qed.

(** One queue emptied: it already was. *)
Lemma R_initqueue t s A q (Q : unit → kst → Prop) :
  R s A → valid_q q → aq A q = [] → (∀ s', R s' A → Q tt s') → wpg t (initqueue q) Q s.
Proof.
  intros HR Hv Hq HQ. destruct (R_queue _ _ _ HR Hv) as (qv & Hqv & Hrep). rewrite Hq in Hrep.
  assert (queue0 = qv) as E.
  { destruct Hrep as [Hh Ht Hc _ _]. cbn in *. destruct qv; cbn in *. by subst. }
  unfold initqueue. rewrite (kst_pq s).
  apply wpg_bind. eapply wpg_qset; [exact Hqv|]. apply wpg_bind. eapply wpg_qset; [apply lookup_insert_eq|].
  eapply wpg_qset; [apply lookup_insert_eq|]. apply HQ. rewrite !insert_insert_eq.
  assert (set_count 0 (set_tail None (set_head None qv)) = qv) as -> by (by subst qv).
  rewrite insert_id by done. by rewrite <- kst_pq.
Qed.

(** The insertion of the whole table in the unused queue. *)
Lemma R_fill t l : ∀ s A (Q : unit → kst → Prop),
  R s A → QInv l A → NoDup l → (∀ x, x ∈ l → off x A ∧ ∃ d, aprocs A !! x = Some d ∧ state d = UNUSED) →
  (∀ s', R s' (aset UnusedQ (aq A UnusedQ ++ l) A) → QInv [] (aset UnusedQ (aq A UnusedQ ++ l) A) → Q tt s') →
  wpg t (for_each l (λ p, insert UnusedQ (Some p) None)) Q s.
Proof.
  induction l as [|x l IH]; intros s A Q HR HQ Hnd Hl Hk; cbn [for_each].
  - apply wpg_ret. apply Hk.
    + eapply R_aq_ext; [| |exact HR]; [done|]. intros q. rewrite app_nil_r. apply aset_same.
    + eapply qinv_aq_ext; [| |exact HQ]; [done|]. intros q. rewrite app_nil_r. apply aset_same.
  - apply NoDup_cons in Hnd as [Hxl Hnd]. destruct (Hl x) as (Hoff & d & Hd & Hst); [set_solver|].
    apply wpg_bind. eapply R_insert_end; [exact HR|done|exact Hoff|eauto|]. intros s1 HR1.
    eapply IH; [exact HR1| |exact Hnd| |].
    + eapply (qinv_enter _ UnusedQ x d); [exact Hd|done| |done|exact HQ].
      intros y. rewrite elem_of_app. set_solver.
    + intros y Hy. destruct (Hl y) as (Hoffy & e & He & Hse); [set_solver|]. split; [|by exists e].
      intros q. destruct (decide (q = UnusedQ)) as [->|]; [|rewrite aq_aset_ne by done; apply Hoffy].
      rewrite aq_aset_eq, elem_of_app. intros [H|H]; [by eapply Hoffy|]. set_solver.
    + rewrite aq_aset_eq, <- app_assoc. cbn [app]. intros s2 HR2 HQ2. apply Hk.
      * eapply R_aq_ext; [| |exact HR2]; [done|]. intros q.
        destruct (decide (q = UnusedQ)) as [->|]; [by rewrite !aq_aset_eq|by rewrite !aq_aset_ne].
      * eapply qinv_aq_ext; [| |exact HQ2]; [done|]. intros q.
        destruct (decide (q = UnusedQ)) as [->|]; [by rewrite !aq_aset_eq|by rewrite !aq_aset_ne].
Qed.

(** The machine as [main] starts it: no lock taken, nothing running. *)
Record fresh (m : mach) : Prop := {
  fr_idle : idle m;
  fr_none : ∀ o, o ∈ cprocs m → o = None
}.

Lemma idle_initlock m lk : idle m → idle (set_lock lk (mkLock false None) m).
Proof.
  intros [Hok Hc Hl]. split; [by apply mach_ok_set_lock|exact Hc|]. intros lk'. cbn.
  destruct (decide (lk' = lk)) as [->|]; [by rewrite lookup_total_insert_eq|by rewrite lookup_total_insert_ne].
Qed.

Definition pinit_ast (m : mach) (e : env) : ast := aset UnusedQ proc_table (boot_ast m e).

Lemma R_pinit t m e :
  fresh m →
  wpg t pinit (λ _ s', ∃ m', R s' (amod (set_kmach m') (pinit_ast m e)) ∧
     Inv idle (amod (set_kmach m') (pinit_ast m e)) ∧ cprocs m' = cprocs m) (boot m e).
Proof.
  intros [Hi Hnone]. unfold pinit.
  set (m' := set_lock ptable_lock (mkLock false None) m).
  assert (fresh m') as [Hi' Hnone'] by (split; [by apply idle_initlock|exact Hnone]).
  apply wpg_bind. eapply R_onm; [apply R_boot|]. apply wpg_modify. intros s1 HR1.
  change (amod (set_kmach (set_lock ptable_lock (mkLock false None) (kmach (abase (boot_ast m e))))) (boot_ast m e))
    with (boot_ast m' e) in HR1.
  apply wpg_bind. eapply R_modify; [exact HR1|done..|]. intros s2 HR2.
  apply wpg_bind. eapply R_modify; [exact HR2|done..|]. intros s3 HR3.
  change (R s3 (boot_ast m' e)) in HR3. clear HR1 HR2.
  destruct (inv_boot m' e Hi' Hnone') as (HQ & HC & HL).
  assert (∀ q s (Q : unit → kst → Prop), R s (boot_ast m' e) → valid_q q →
    (∀ s', R s' (boot_ast m' e) → Q tt s') → wpg t (initqueue q) Q s) as Hini.
  { intros q s Q HR Hv HQ'. by eapply R_initqueue. }
  apply wpg_bind. cbn [seq for_each NQUEUE].
  do 3 (apply wpg_bind; eapply Hini; [eassumption|unfold valid_q, NQUEUE; lia|]; intros ? ?).
  apply wpg_ret. apply wpg_bind; eapply Hini; [eassumption|done|]; intros s7 HR7.
  apply wpg_bind; eapply Hini; [eassumption|done|]; intros s8 HR8.
  eapply R_fill; [exact HR8|exact HQ|apply NoDup_seq| |].
  - intros x [_ Hx]%elem_of_seq. split; [by intros q ?%not_elem_of_nil|]. exists proc0.
    rewrite boot_procs, decide_True by (unfold NPROC in *; lia). done.
  - intros s9 HR' HQ'. exists m'. split; [exact HR'|]. split; [|done].
    split; [exact HQ'| |cbn; lia|exact Hi'|exact HL].
    by apply (cinv_ext _ (boot_ast m' e)).
Qed.

(** The first process, on slot [x]. *)
Definition init_proc (n k pg ip : Z) (d : proc) : proc :=
  mkProc PGSIZE pg k RUNNABLE n (parent d) tf_userinit K_forkret (pchan d) (killed d)
    (ofile d) ip "initcode" 3 0 0 (prev d) (next d).

Definition userinit_res (A : ast) (s' : kst) : Prop :=
  ∃ m e x l d k pg ip,
    cprocs m = cprocs (amach A) ∧ aq A UnusedQ = x :: l ∧ aprocs A !! x = Some d ∧
    let A' := amod (set_kmach m) (amod (set_kenv e) (amod (set_initproc (Some x))
                (afork x (init_proc (nextpid (abase A)) k pg ip d) l A))) in
    R s' A' ∧ Inv idle A'.

(** If it returns: whether there is memory for it is the machine's affair
    ([userinit] panics otherwise). *)
Lemma R_userinit s A c o :
  R s A → Inv idle A → cprocs (amach A) !! c = Some o →
  wlp (userinit c) (λ _, userinit_res A) s.
Proof.
  intros HR Hi Hc. pose proof (R_qdisj _ _ HR) as Hqd. unfold userinit.
  apply wpg_bind. eapply wpg_mono; [eapply R_allocproc; [done..|intros _; by apply wlp_true]|].
  cbn beta. intros np s2 (m2 & e2 & Hcp & Hres). destruct (aq A UnusedQ) as [|x l] eqn:Hq.
  { by destruct Hres as (-> & _). }
  destruct Hres as (d & k & Hd & _ & -> & HR2 & Hi2). set (n := nextpid (abase A)) in *.
  destruct (Z.eqb_spec k 0) as [|Hk]; [done|].
  set (B := amod (set_kenv e2) (amod (set_kmach m2) A)).
  set (dx := set_context K_forkret (set_kstack k (embryo n d))) in *.
  change (R s2 (atake x dx l B)) in HR2. change (Inv idle (atake x dx l B)) in Hi2.
  apply wpg_bind. eapply R_pget; [exact HR2|apply aprocs_atake|]. intros _ _.
  apply wpg_bind. eapply R_modify; [exact HR2|done..|]. intros s3 HR3.
  set (B3 := amod (set_initproc (Some x)) B). change (R s3 (atake x dx l B3)) in HR3.
  assert (Inv idle (atake x dx l B3)) as Hi3.
  { exact (inv_gmod idle (set_initproc (Some x)) _ eq_refl eq_refl (inv_t _ _ Hi2) Hi2). }
  assert (∀ {T} (mm : M env T) (Q : T → kst → Prop) s dd B', R s (atake x dd l B') →
     (∀ b e' s', R s' (atake x dd l (amod (set_kenv e') B')) → Q b s') → wlp (one mm) Q s) as Hone.
  { intros T mm Q s0 dd B' HR0 HQ. eapply R_one; [exact HR0|]. apply wlp_true. intros b e' s' HR'.
    eapply HQ. exact HR'. }
  apply wpg_bind. eapply Hone; [exact HR3|]. intros pg e4 s4 HR4.
  apply wpg_bind. eapply R_pset; [exact HR4|by intros ?|apply aprocs_atake|]. intros s5 HR5. rewrite aput_atake in HR5.
  destruct (Z.eqb_spec pg 0) as [|Hpg]; [done|].
  apply wpg_bind. eapply Hone; [exact HR5|]. intros _ e6 s6 HR6.
  apply wpg_bind. eapply R_pset; [exact HR6|by intros ?|apply aprocs_atake|]. intros s7 HR7. rewrite aput_atake in HR7.
  apply wpg_bind. eapply R_pset; [exact HR7|by intros ?|apply aprocs_atake|]. intros s8 HR8. rewrite aput_atake in HR8.
  apply wpg_bind. eapply R_pset; [exact HR8|by intros ?|apply aprocs_atake|]. intros s9 HR9. rewrite aput_atake in HR9.
  apply wpg_bind. eapply Hone; [exact HR9|]. intros ip e10 s10 HR10.
  apply wpg_bind. eapply R_pset; [exact HR10|by intros ?|apply aprocs_atake|]. intros s11 HR11. rewrite aput_atake in HR11.
  set (B11 := amod (set_kenv e10) B3). subst dx. unfold embryo in HR11. flat HR11.
  match type of HR11 with R _ (atake x ?dd l _) => set (d8 := dd) in HR11 end.
  change (R s11 (atake x d8 l B11)) in HR11.
  assert (set_state RUNNABLE d8 = init_proc n k pg ip d) as Hchild by reflexivity.
  assert (state d8 = EMBRYO ∧ queuelevel d8 = 0 ∧ kstack d8 = k ∧ pgdir d8 = pg ∧ context d8 = K_forkret)
    as (Hst8 & Hlv8 & Hk8 & Hpg8 & Hcx8) by done.
  assert (length (ofile d8) = NOFILE) as Hl8 by (apply (inv_live _ _ Hi x d Hd)).
  clearbody d8.
  assert (Inv idle (atake x d8 l B11)) as Hi11.
  { eapply (inv_embryo idle x _ d8 l B11); [exact (inv_env _ _ e10 Hi3)|done..]. }
  assert (cprocs (amach (atake x d8 l B11)) !! c = Some o) as Hc11
    by (change (cprocs m2 !! c = Some o); by rewrite Hcp).
  apply wpg_bind. eapply R_enter; [exact HR11|exact Hi11|exact Hc11|]. intros s12 m12 HR12 Hi12 Hcp12.
  assert (cprocs m12 !! c = Some o) as Hc12 by (by rewrite Hcp12).
  set (B12 := amod (set_kmach m12) B11). change (R s12 (atake x d8 l B12)) in HR12.
  change (Inv (in_crit c ptable_lock) (atake x d8 l B12)) in Hi12.
  apply wpg_bind. eapply R_pset; [exact HR12|by intros ?|apply aprocs_atake|]. intros s13 HR13. rewrite aput_atake in HR13.
  apply wpg_bind. eapply R_insert_end; [exact HR13|unfold valid_q, NQUEUE; lia|exact (take_off _ _ _ _ Hqd Hq)|rewrite aprocs_atake; eauto|].
  intros s14 HR14.
  assert (live_ok (set_state RUNNABLE d8)) as Hl14
    by (unfold live_ok; cbn; rewrite Hk8, Hpg8, Hcx8; done).
  pose proof (inv_embryo_queue (in_crit c ptable_lock) (LQ 0) x d8 (set_state RUNNABLE d8) l B12 Hi12 Hst8
    (conj eq_refl (or_introl eq_refl)) ltac:(discriminate) eq_refl Hl14) as Hi14.
  eapply R_exit; [exact HR14|exact Hi14|exact Hc12|].
  intros s15 m15 HR15 Hi15 Hcp15. rewrite Hchild in HR15, Hi15.
  exists m15, e10, x, l, d, k, pg, ip. split; [by rewrite Hcp15, <- Hcp; exact Hcp12|].
  split; [done|]. split; [done|]. split; [exact HR15|exact Hi15].
Qed.
End Boot.
