(* ===== verification/MlfqSystem.v ===== *)
(** * The MLFQ kernel as a transition system

    A step is a kernel section executed by one core: a system call or trap of
    the process it runs, or an iteration of its scheduler loop; also what
    changes outside of the sections (interrupt flags and the bookkeeping of
    [pushcli], the running process's own data, the rest of the kernel), and the
    pieces of a section of another lock ([acquire], [wakeup], [sleep],
    [release]).  Sections of
    [ptable.lock] are atomic because the lock is held throughout (also across
    [swtch]); the step relation lets one core at a time be inside the kernel. *)

From S2P Require Export MlfqExit.
Local Open Scope Z_scope.

Section System.
Context {KE : KernelEnv}.

(** ** Every operation keeps the invariant *)

(** Between sections, or with a core inside the section of one lock. *)
Definition SInv (s : kst) : Prop :=
  ∃ A, R s A ∧ (Inv idle A ∨ ∃ c lk, lk ≠ ptable_lock ∧ Inv (in_crit c lk) A).

Lemma kinv_sinv s : KInv s → SInv s.
Proof. intros (A & HR & Hi). exists A. auto. Qed.

Lemma reaches_kinv A' c o A s' : reaches A' c o A s' → KInv s'.
Proof. intros (m' & HR & Hi & _). eexists. eauto. Qed.

Lemma R_kmach s A : R s A → amach A = kmach s.
Proof. intros [_ E]. unfold amach. by rewrite E. Qed.

Lemma sinv_idle s A : R s A → Inv idle A → idle (kmach s).
Proof. intros HR Hi. rewrite <- (R_kmach _ _ HR). apply Hi. Qed.

Lemma idle_not_crit c lk m : idle m → in_crit c lk m → False.
Proof.
  intros Hi Hcr. pose proof (idle_locks _ Hi lk) as H. by rewrite (ic_lock _ _ _ Hcr) in H.
Qed.

(** From the state of the machine to the kind of the invariant. *)
Lemma sinv_kinv s : SInv s → idle (kmach s) → KInv s.
Proof.
  intros (A & HR & [Hi|(c & lk & _ & Hi)]) Hid; [by exists A|]. exfalso.
  eapply (idle_not_crit c); [exact Hid|]. rewrite <- (R_kmach _ _ HR). apply Hi.
Qed.

Lemma of_wlp {T} (m : M kst T) s r s' (Q : T → kst → Prop) :
  wlp m Q s → m s = Ok (r, s') → Q r s'.
Proof. apply wpg_ok_inv. Qed.

Lemma kinv_reaches {T} (m : M kst T) s r s' A' c o A :
  wlp m (λ _, reaches A' c o A) s → m s = Ok (r, s') → KInv s'.
Proof. intros H E. eapply reaches_kinv. exact (wpg_ok_inv _ _ _ _ _ _ H E). Qed.

(** A change of a process that the scheduler does not look at. *)
Definition own_data (f : proc → proc) : Prop :=
  data_upd f ∧ ∀ d, state (f d) = state d ∧ queuelevel (f d) = queuelevel d ∧ priority (f d) = priority d ∧
    (live_ok d → live_ok (f d)).

Section Ops.
Context (s s' : kst) (c : nat).

Lemma kinv_yield p : KInv s → runs s c p → yield c s = Ok (tt, s') → KInv s'.
Proof.
  intros (A & HR & Hi) Hr E. eapply kinv_reaches; [|exact E].
  eapply R_yield; eauto using R_runs.
Qed.

Lemma kinv_wakeup o ch : KInv s → cprocs (kmach s) !! c = Some o → wakeup c ch s = Ok (tt, s') → KInv s'.
Proof.
  intros (A & HR & Hi) Hr E. eapply kinv_reaches; [|exact E].
  eapply R_wakeup; [done..|]. by rewrite (R_kmach _ _ HR).
Qed.

Lemma kinv_kill o n r : KInv s → cprocs (kmach s) !! c = Some o → kill c n s = Ok (r, s') → KInv s'.
Proof.
  intros (A & HR & Hi) Hr E. eapply (of_wlp _ _ _ _ (λ _, KInv)); [|exact E].
  eapply wpg_mono; [eapply R_kill; [done..|by rewrite (R_kmach _ _ HR)]|].
  intros r' s1 [H _]. by eapply reaches_kinv.
Qed.

Lemma kinv_lock p : KInv s → runs s c p → schedulerLock c scheduler_password s = Ok (tt, s') → KInv s'.
Proof.
  intros (A & HR & Hi) Hr E. eapply kinv_reaches; [|exact E].
  eapply R_schedulerLock; eauto using R_runs.
Qed.

Lemma kinv_unlock p : KInv s → runs s c p → schedulerUnlock c scheduler_password s = Ok (tt, s') → KInv s'.
Proof.
  intros (A & HR & Hi) Hr E. eapply kinv_reaches; [|exact E].
  eapply R_schedulerUnlock; eauto using R_runs.
Qed.

Lemma kinv_fork p r :
  KernelEnvLaws _ → KInv s → runs s c p → fork c s = Ok (r, s') → KInv s'.
Proof.
  intros [Hf Hd] (A & HR & Hi) Hr E. pose proof (R_runs _ _ _ _ HR Hr) as Ha.
  destruct (inv_running _ _ _ _ Hi Ha) as (d & Hdp & _).
  eapply (of_wlp _ _ _ _ (λ _, KInv)); [|exact E].
  eapply wpg_mono; [eapply (R_fork false (λ _, True) (λ _, True)); try done; by apply fork_env_wlp|].
  intros r' s1 (m & e & _ & [(x & l & d' & k & pg & _ & _ & _ & _ & _ & HR' & Hi')|(_ & A' & HR' & Hi' & _)]).
  - eexists; eauto.
  - exists A'; eauto.
Qed.

Lemma kinv_exit p :
  KInv s → runs s c p → initproc s ≠ Some p → exit c s = Ok (tt, s') → KInv s'.
Proof.
  intros (A & HR & Hi) Hr Hini E. pose proof (R_runs _ _ _ _ HR Hr) as Ha.
  destruct (inv_running _ _ _ _ Hi Ha) as (d & Hdp & _).
  eapply (of_wlp _ _ _ _ (λ _, KInv)); [|exact E].
  eapply wpg_mono; [eapply (R_exit_call false (λ _, True)); try done|].
  - by rewrite (proj2 HR).
  - apply exit_env_wlp.
  - intros _ s1 (m & e & _ & H). by eapply reaches_kinv.
Qed.

Lemma wait_res_kinv p i A r s1 : wait_res c p i A r s1 → KInv s1.
Proof.
  unfold wait_res. destruct (zombie_child _ _ _) as [[x d]|].
  - intros [_ [e H]]. by eapply reaches_kinv.
  - destruct (_ || _); intros [_ H]; by eapply reaches_kinv.
Qed.

Lemma kinv_wait p r : KInv s → runs s c p → wait c s = Ok (r, s') → KInv s'.
Proof.
  intros (A & HR & Hi) Hr E. eapply (of_wlp _ _ _ _ (λ _, KInv)); [|exact E].
  eapply wpg_mono; [eapply (R_wait false); eauto using R_runs, reap_runs_wlp|].
  intros r' s1. apply wait_res_kinv.
Qed.

Lemma resume_res_sinv x d A r s1 : aruns A c x → ctx_ok (context d) → resume_res c x d A r s1 → SInv s1.
Proof.
  intros Hr Hk. unfold resume_res. destruct (context d) as [|i|lk i|i|i].
  - intros [_ [e H]]. by eapply kinv_sinv, reaches_kinv.
  - intros [_ H]. by eapply kinv_sinv, reaches_kinv.
  - intros (_ & m' & HR' & Hi' & Hcp). eexists. split; [exact HR'|].
    right. by exists c, lk.
  - intros H. by eapply kinv_sinv, wait_res_kinv.
  - done.
Qed.

Lemma sinv_schedule r :
  KInv s → cprocs (kmach s) !! c = Some None → scheduler_enter c s = Ok (r, s') → SInv s'.
Proof.
  intros (A & HR & Hi) Hc E. assert (cprocs (amach A) !! c = Some None) as Hc' by (by rewrite (R_kmach _ _ HR)).
  eapply (of_wlp _ _ _ _ (λ _, SInv)); [|exact E].
  eapply wpg_mono; [eapply (R_scheduler_enter false); try done|].
  - intros q x l d m _ _. apply resume_runs_wlp.
  - intros r' s1. unfold enter_res. destruct (apick A) as [[[q x] l]|].
    + intros (d & m & Hd & Hst & Hcp & Hi1 & Hres). eapply resume_res_sinv; [| |exact Hres].
      * unfold aruns, amach; cbn. rewrite Hcp. apply list_lookup_insert_eq. by eapply lookup_lt_Some.
      * pose proof (inv_live _ _ Hi x d Hd) as [_ H]. rewrite Hst in H. apply H.
    + intros [_ H]. by eapply kinv_sinv, reaches_kinv.
Qed.

Lemma sinv_acquire o lk :
  KInv s → cprocs (kmach s) !! c = Some o → lk ≠ ptable_lock → onm (acquire c lk) s = Ok (tt, s') → SInv s'.
Proof.
  intros (A & HR & Hi) Hc Hne E. rewrite <- (R_kmach _ _ HR) in Hc.
  eapply (of_wlp _ _ _ _ (λ _, SInv)); [|exact E]. eapply R_onm; [exact HR|].
  destruct (acquire_idle c lk _ _ Hc (inv_m _ _ Hi)) as (m' & Hm & Hcr & Hcp).
  eapply ok_wpg; [exact Hm|]. intros s1 HR1. eexists. split; [exact HR1|]. right.
  exists c, lk. split; [done|]. by eapply inv_amod.
Qed.

(** [pushcli] and [popcli] outside of the sections, and the interrupt flag. *)
Lemma kinv_local m' : KInv s → idle m' → cprocs m' = cprocs (kmach s) → KInv (set_kmach m' s).
Proof.
  intros (A & HR & Hi) Hid Hcp. exists (amod (set_kmach m') A). split.
  - destruct HR as [Hr Hb]. split; [by destruct Hr; split|]. cbn. by rewrite Hb.
  - eapply inv_amod; [exact Hi|exact Hid|]. by rewrite (R_kmach _ _ HR).
Qed.

(** The running process's own data. *)
Lemma kinv_data p f : KInv s → runs s c p → own_data f → pset (Some p) f s = Ok (tt, s') → KInv s'.
Proof.
  intros (A & HR & Hi) Hr [Hf Hd] E. pose proof (R_runs _ _ _ _ HR Hr) as Ha.
  destruct (inv_running _ _ _ _ Hi Ha) as (d & Hdp & _). destruct (Hd d) as (H1 & H2 & H3 & H4).
  eapply (of_wlp _ _ _ _ (λ _, KInv)); [|exact E]. eapply R_pset; [exact HR|done|exact Hdp|].
  intros s1 HR1. eexists. split; [exact HR1|]. eapply inv_put_data; [exact Hdp|done..| |exact Hi].
  apply H4. exact (inv_live _ _ Hi p d Hdp).
Qed.

(** The rest of the kernel. *)
Lemma sinv_env e : SInv s → SInv (set_kenv e s).
Proof.
  intros (A & HR & Hcase). exists (amod (set_kenv e) A). split.
  - destruct HR as [Hr Hb]. split; [by destruct Hr; split|]. cbn. by rewrite Hb.
  - destruct Hcase as [Hi|(c' & lk & Hne & Hi)]; [left|right; exists c', lk; split; [done|]]; by apply inv_env.
Qed.

(** The invariant inside a section. *)
Lemma sinv_crit lk : SInv s → in_crit c lk (kmach s) → ∃ A, R s A ∧ Inv (in_crit c lk) A.
Proof.
  intros (A & HR & Hcase) Hcr. exists A. split; [done|]. rewrite <- (R_kmach _ _ HR) in Hcr.
  assert (∃ I, Inv I A) as [I Hi] by (destruct Hcase as [?|(? & ? & ? & ?)]; eauto). destruct Hi. by split.
Qed.

Lemma sinv_wakeup_crit o ch lk :
  SInv s → in_crit c lk (kmach s) → lk ≠ ptable_lock → cprocs (kmach s) !! c = Some o → wakeup c ch s = Ok (tt, s') → SInv s'.
Proof.
  intros Hs Hcr Hne Hc E. destruct (sinv_crit lk Hs Hcr) as (A & HR & Hi). rewrite <- (R_kmach _ _ HR) in Hc.
  eapply (of_wlp _ _ _ _ (λ _, SInv)); [|exact E].
  eapply wpg_mono; [by eapply R_wakeup_crit|]. intros _ s1 (m' & HR' & Hi' & _). eexists. split; [exact HR'|]. right. by exists c, lk.
Qed.

Lemma kinv_release lk :
  SInv s → in_crit c lk (kmach s) → onm (release c lk) s = Ok (tt, s') → KInv s'.
Proof.
  intros Hs Hcr E. destruct (sinv_crit lk Hs Hcr) as (A & HR & Hi). rewrite <- (R_kmach _ _ HR) in Hcr.
  eapply (of_wlp _ _ _ _ (λ _, KInv)); [|exact E]. eapply R_onm; [exact HR|].
  destruct (release_crit c lk _ Hcr) as (m' & Hm & Hid & Hcp).
  eapply ok_wpg; [exact Hm|]. intros s1 HR1. eexists. split; [exact HR1|by eapply inv_amod].
Qed.

Lemma kinv_sleep p ch lk :
  SInv s → in_crit c lk (kmach s) → lk ≠ ptable_lock → runs s c p →
  sleep c ch lk (K_sleep lk) s = Ok (tt, s') → KInv s'.
Proof.
  intros Hs Hcr Hne Hr E. destruct (sinv_crit lk Hs Hcr) as (A & HR & Hi). rewrite <- (R_kmach _ _ HR) in Hcr.
  eapply kinv_reaches; [|exact E].
  eapply R_sleep; try done. by eapply R_runs.
Qed.
End Ops.

(** ** The system *)

Inductive kstep (s s' : kst) : Prop :=
  | k_schedule c r : idle (kmach s) → cprocs (kmach s) !! c = Some None →
      scheduler_enter c s = Ok (r, s') → kstep s s'
  | k_yield c p : idle (kmach s) → runs s c p → yield c s = Ok (tt, s') → kstep s s'
  | k_local m' : idle (kmach s) → idle m' → cprocs m' = cprocs (kmach s) → s' = set_kmach m' s → kstep s s'
  | k_data c p f : idle (kmach s) → runs s c p → own_data f → pset (Some p) f s = Ok (tt, s') → kstep s s'
  | k_env e : s' = set_kenv e s → kstep s s'
  | k_acquire c o lk : idle (kmach s) → cprocs (kmach s) !! c = Some o → lk ≠ ptable_lock →
      onm (acquire c lk) s = Ok (tt, s') → kstep s s'
  | k_release c lk : in_crit c lk (kmach s) → onm (release c lk) s = Ok (tt, s') → kstep s s'
  | k_sleep c p ch lk : in_crit c lk (kmach s) → runs s c p → lk ≠ ptable_lock →
      sleep c ch lk (K_sleep lk) s = Ok (tt, s') → kstep s s'
  | k_wakeup c o ch : idle (kmach s) → cprocs (kmach s) !! c = Some o →
      wakeup c ch s = Ok (tt, s') → kstep s s'
  | k_wakeup_crit c o ch lk : in_crit c lk (kmach s) → lk ≠ ptable_lock → cprocs (kmach s) !! c = Some o →
      wakeup c ch s = Ok (tt, s') → kstep s s'
  | k_kill c p n r : idle (kmach s) → runs s c p → kill c n s = Ok (r, s') → kstep s s'
  | k_fork c p r : idle (kmach s) → runs s c p → fork c s = Ok (r, s') → kstep s s'
  | k_exit c p : idle (kmach s) → runs s c p → initproc s ≠ Some p →
      exit c s = Ok (tt, s') → kstep s s'
  | k_wait c p r : idle (kmach s) → runs s c p → wait c s = Ok (r, s') → kstep s s'
  | k_lock c p : idle (kmach s) → runs s c p →
      schedulerLock c scheduler_password s = Ok (tt, s') → kstep s s'
  | k_unlock c p : idle (kmach s) → runs s c p →
      schedulerUnlock c scheduler_password s = Ok (tt, s') → kstep s s'
  | k_setprio c p n prio : idle (kmach s) → runs s c p →
      setPrioity_arrangeQueue c n prio s = Ok (tt, s') → kstep s s'.

(** A call of [setPrioity_arrangeQueue] for a process that waits in the wrong
    place. *)
Definition misplaced_call (s s' : kst) : Prop :=
  ∃ c p n prio A, runs s c p ∧ setPrioity_arrangeQueue c n prio s = Ok (tt, s') ∧ R s A ∧ Inv idle A ∧ misplaced n A.

Lemma kinv_setprio_or s s' c p n prio :
  KInv s → runs s c p → setPrioity_arrangeQueue c n prio s = Ok (tt, s') → KInv s' ∨ misplaced_call s s'.
Proof.
  intros (A & HR & Hi) Hr E. destruct (settled_or_misplaced n A) as [Hset|Hm].
  - left. eapply kinv_reaches; [|exact E]. eapply R_setPrioity; [done..|by rewrite (R_kmach _ _ HR)|exact Hset].
  - right. by exists c, p, n, prio, A.
Qed.

(** Every step keeps the invariant, or is such a call. *)
Lemma kstep_sinv s s' : KernelEnvLaws _ → SInv s → kstep s s' → SInv s' ∨ misplaced_call s s'.
Proof.
  intros HL Hs [ c r Hid Hc E | c p Hid Hr E | m' Hid Hid' Hcp -> | c p f Hid Hr Hf E | e -> | c o lk Hid Hr Hne E | c lk Hcr E | c p ch lk Hcr Hr Hne E
    | c o ch Hid Hc E | c o ch lk Hcr Hne Hc E | c p n r Hid Hr E | c p r Hid Hr E | c p Hid Hr Hini E | c p r Hid Hr E
    | c p Hid Hr E | c p Hid Hr E | c p n prio Hid Hr E ];
    [left..|destruct (kinv_setprio_or _ _ _ _ _ _ (sinv_kinv _ Hs Hid) Hr E); [left; by apply kinv_sinv|by right]].
  - eapply sinv_schedule; eauto using sinv_kinv.
  - eapply kinv_sinv, kinv_yield; eauto using sinv_kinv.
  - apply kinv_sinv, kinv_local; eauto using sinv_kinv.
  - eapply kinv_sinv, kinv_data; eauto using sinv_kinv.
  - by apply sinv_env.
  - eapply sinv_acquire; eauto using sinv_kinv.
  - eapply kinv_sinv, kinv_release; eauto.
  - eapply kinv_sinv, kinv_sleep; eauto.
  - eapply kinv_sinv, kinv_wakeup; eauto using sinv_kinv.
  - by eapply sinv_wakeup_crit.
  - eapply kinv_sinv, kinv_kill; eauto using sinv_kinv.
  - eapply kinv_sinv, kinv_fork; eauto using sinv_kinv.
  - eapply kinv_sinv, kinv_exit; eauto using sinv_kinv.
  - eapply kinv_sinv, kinv_wait; eauto using sinv_kinv.
  - eapply kinv_sinv, kinv_lock; eauto using sinv_kinv.
  - eapply kinv_sinv, kinv_unlock; eauto using sinv_kinv.
Qed.

(** The kernel as [main] leaves it: [pinit] and [userinit] ran on core [c]. *)
Definition started (c : nat) (m : mach) (e : env) (s : kst) : Prop :=
  fresh m ∧ (c < length (cpus m))%nat ∧ (pinit ;; userinit c) (boot m e) = Ok (tt, s).

Lemma started_kinv c m e s : started c m e s → KInv s.
Proof.
  intros (Hf & Hc & E). eapply (of_wlp _ _ _ _ (λ _, KInv)); [|exact E].
  apply wpg_bind. eapply wpg_mono; [by apply R_pinit|]. cbn beta. intros [] s1 (m1 & HR1 & Hi1 & Hcp).
  assert (∃ o, cprocs m1 !! c = Some o) as [o Ho].
  { apply lookup_lt_is_Some. rewrite Hcp. unfold cprocs. by rewrite length_fmap. }
  eapply wpg_mono; [by eapply R_userinit|]. cbn beta.
  intros _ s2 (m2 & e2 & x & l & d & k & pg & ip & _ & _ & _ & HR2 & Hi2). eexists. eauto.
Qed.

Lemma steps_sinv s s' : KernelEnvLaws _ → SInv s → rtc kstep s s' →
  SInv s' ∨ ∃ s1 s2, rtc kstep s s1 ∧ SInv s1 ∧ misplaced_call s1 s2 ∧ kstep s1 s2 ∧ rtc kstep s2 s'.
Proof.
  intros HL Hs Hst. induction Hst as [s|s s1 s' H1 Hst IH]; [by left|].
  destruct (kstep_sinv s s1 HL Hs H1) as [Hs1|Hm]; [|right; exists s, s1; by split_and!; [apply rtc_refl|..]].
  destruct (IH Hs1) as [?|(s2 & s3 & H2 & Hs2 & Hm & H23 & H3)]; [by left|]. right. exists s2, s3. by split_and!; [eapply rtc_l|..].
Qed.
End System.
