(* ===== verification/MlfqDemo.v ===== *)
(** * A run of the MLFQ kernel

    The states of a run of the kernel on the machine of [DemoEnv].  The
    properties are instantiated on these states. *)

From S2P Require Export DemoEnv MlfqSystem.
Local Open Scope Z_scope.

Lemma two_cores_fresh : fresh two_cores.
Proof.
  split; [by apply idleb_sound|]. intros o. cbn. rewrite !elem_of_cons. intros [|[|?%not_elem_of_nil]]; done.
Qed.

(** ** Running the system

    [run ops s] executes operations one after the other, each checked to be
    possible in its state. *)

Inductive op :=
  | o_sched (c : nat) | o_yield (c : nat) | o_wakeup (c : nat) (ch : chan) | o_kill (c : nat) (n : Z)
  | o_fork (c : nat) | o_exit (c : nat) | o_wait (c : nat) | o_lock (c : nat) | o_unlock (c : nat).

Section Run.
Context {KE : KernelEnv} {KL : KernelEnvLaws KE}.

Definition outcome {T} (r : res (T * kst)) : option kst :=
  match r with Ok (_, s') => Some s' | _ => None end.

Definition running (s : kst) (c : nat) : bool :=
  match cprocs (kmach s) !! c with Some (Some _) => true | _ => false end.

Definition do_op (o : op) (s : kst) : option kst :=
  if idleb (kmach s) then
    match o with
    | o_sched c => if bool_decide (cprocs (kmach s) !! c = Some None) then outcome (scheduler_enter c s) else None
    | o_yield c => if running s c then outcome (yield c s) else None
    | o_wakeup c ch => if running s c then outcome (wakeup c ch s) else None
    | o_kill c n => if running s c then outcome (kill c n s) else None
    | o_fork c => if running s c then outcome (fork c s) else None
    | o_exit c =>
        match cprocs (kmach s) !! c with
        | Some (Some p) => if bool_decide (initproc s = Some p) then None else outcome (exit c s)
        | _ => None
        end
    | o_wait c => if running s c then outcome (wait c s) else None
    | o_lock c => if running s c then outcome (schedulerLock c scheduler_password s) else None
    | o_unlock c => if running s c then outcome (schedulerUnlock c scheduler_password s) else None
    end
  else None.

Fixpoint run (ops : list op) (s : kst) : option kst :=
  match ops with
  | [] => Some s
  | o :: ops => s' ← do_op o s; run ops s'
  end.

Lemma outcome_ok {T} (r : res (T * kst)) s' : outcome r = Some s' → ∃ x, r = Ok (x, s').
Proof. destruct r as [[x s0]|?| |]; cbn; intros [= ->]; eauto. Qed.

Lemma outcome_tt (r : res (unit * kst)) s' : outcome r = Some s' → r = Ok (tt, s').
Proof. intros [[] ->]%outcome_ok. done. Qed.

Lemma running_runs s c : running s c = true → ∃ p, runs s c p.
Proof. unfold running, runs. destruct (cprocs (kmach s) !! c) as [[p|]|]; [eauto|done..]. Qed.

(** None of them is a [setPrioity_arrangeQueue]. *)
Lemma do_op_sinv o s s' : SInv s → do_op o s = Some s' → SInv s'.
Proof.
  unfold do_op. intros Hs. destruct (idleb (kmach s)) eqn:Ei; [|done]. apply idleb_sound in Ei. pose proof (sinv_kinv _ Hs Ei) as Hk.
  destruct o as [c|c|c ch|c n|c|c|c|c|c].
  2-5,7-9: destruct (running s c) eqn:Er; [apply running_runs in Er as [p Hp]|done].
  - case_bool_decide; [|done]. intros [r E]%outcome_ok. by eapply sinv_schedule.
  - intros E%outcome_tt. by eapply kinv_sinv, kinv_yield.
  - intros E%outcome_tt. by eapply kinv_sinv, kinv_wakeup.
  - intros [r E]%outcome_ok. by eapply kinv_sinv, kinv_kill.
  - intros [r E]%outcome_ok. by eapply kinv_sinv, kinv_fork.
  - intros [r E]%outcome_ok. by eapply kinv_sinv, kinv_wait.
  - intros E%outcome_tt. by eapply kinv_sinv, kinv_lock.
  - intros E%outcome_tt. by eapply kinv_sinv, kinv_unlock.
  - destruct (cprocs (kmach s) !! c) as [[p|]|] eqn:Ec; [|done..].
    case_bool_decide; [done|]. intros E%outcome_tt. by eapply kinv_sinv, kinv_exit.
Qed.

Lemma do_op_step o s s' : do_op o s = Some s' → kstep s s'.
Proof.
  unfold do_op. destruct (idleb (kmach s)) eqn:Ei; [|done]. apply idleb_sound in Ei.
  destruct o as [c|c|c ch|c n|c|c|c|c|c].
  2-5,7-9: destruct (running s c) eqn:Er; [apply running_runs in Er as [p Hp]|done].
  - case_bool_decide; [|done]. intros [r E]%outcome_ok. by eapply k_schedule.
  - intros E%outcome_tt. by eapply k_yield.
  - intros E%outcome_tt. by eapply k_wakeup.
  - intros [r E]%outcome_ok. by eapply k_kill.
  - intros [r E]%outcome_ok. by eapply k_fork.
  - intros [r E]%outcome_ok. by eapply k_wait.
  - intros E%outcome_tt. by eapply k_lock.
  - intros E%outcome_tt. by eapply k_unlock.
  - destruct (cprocs (kmach s) !! c) as [[p|]|] eqn:Ec; [|done..].
    case_bool_decide; [done|]. intros E%outcome_tt. by eapply k_exit.
Qed.

Lemma run_steps ops : ∀ s s', run ops s = Some s' → rtc kstep s s'.
Proof.
  induction ops as [|o ops IH]; intros s s'; cbn; [by intros [= ->]|].
  intros (s1 & H1 & H2)%bind_Some. eapply rtc_l; [by eapply do_op_step|by apply IH].
Qed.

Lemma run_kinv ops s s' : KInv s → run ops s = Some s' → idleb (kmach s') = true → KInv s'.
Proof.
  intros Hs Hr Hi. apply sinv_kinv; [|by apply idleb_sound]. apply kinv_sinv in Hs. clear Hi. revert s Hs Hr.
  induction ops as [|o ops IH]; intros s Hs; cbn; [by intros [= <-]|].
  intros (s1 & H1 & H2)%bind_Some. exact (IH s1 (do_op_sinv _ _ _ Hs H1) H2).
Qed.
End Run.

(** The kernel after boot, and states it reaches; [init] is process 0. *)
Definition d_init : kst :=
  match (pinit ;; userinit 0) (@boot demo_env two_cores (0 : Z)) with Ok (_, s) => s | _ => boot two_cores (0 : Z) end.

Definition d_after (ops : list op) : kst := default d_init (run ops d_init).

Lemma d_init_kinv : KInv d_init.
Proof.
  eapply (started_kinv (KE := demo_env) 0 two_cores (0 : Z)). split; [apply two_cores_fresh|].
  split; [cbn; lia|]. vm_compute. reflexivity.
Qed.

Lemma d_after_kinv ops s : run ops d_init = Some s → idleb (kmach s) = true → KInv s.
Proof. apply run_kinv, d_init_kinv. Qed.

(** init on core 0; then with a child on core 1; then init waiting for it;
    then the child dead. *)
Definition up_run : list op := [o_sched 0].
Definition up_two : list op := up_run ++ [o_fork 0; o_sched 1].
Definition up_wait : list op := up_two ++ [o_wait 0].
Definition up_zombie : list op := up_two ++ [o_exit 1].
(** The child alone runs [n] quanta of one tick. *)
Definition up_ticks (n : nat) : list op := up_wait ++ concat (replicate n [o_yield 1; o_sched 1]).
(** The child at level 2 holds the scheduler lock and yielded. *)
Definition up_unsettled : list op :=
  up_two ++ concat (replicate 10 [o_yield 1; o_sched 1]) ++ [o_lock 1; o_yield 1].
(** The child used 5 ticks at level 0 under the scheduler lock, which init
    took away from it. *)
Definition up_missed : list op :=
  up_two ++ [o_lock 1] ++ concat (replicate 5 [o_yield 1; o_sched 1]) ++ [o_unlock 0].

(** The demonstration environment always answers. *)
Lemma demo_reap_runs A d : reap_runs true A d.
Proof. done. Qed.

Lemma demo_enter_runs A : enter_runs true A.
Proof. intros q x l d m _ _. unfold resume_runs. by destruct (context _). Qed.

Lemma demo_fork_env d : fork_env true (λ _, True) (λ _, True) d.
Proof. by split. Qed.

Lemma demo_exit_env d : exit_env true (λ _, True) d.
Proof. by split. Qed.

Ltac demo ops A HR Hi :=
  destruct (d_after_kinv ops (d_after ops)) as (A & HR & Hi); [vm_compute; reflexivity..|].
