(* ===== verification/MlfqProps.v ===== *)
(** * Properties of the MLFQ kernel *)

From Stdlib Require Import Sorted.
From S2P Require Export MlfqDemo.
Local Open Scope Z_scope.

Section Props.
Context {KE : KernelEnv}.
Implicit Types (s : kst) (A : ast) (c p x : nat).

(** A total specification, as an outcome. *)
Lemma wp_outcome {T} (m : M kst T) (Q : T → kst → Prop) s : wp m Q s → ∃ r s', m s = Ok (r, s') ∧ Q r s'.
Proof. apply wp_ok. Qed.

Lemma wp_unit (m : M kst unit) (Q : kst → Prop) s : wp m (λ _, Q) s → ∃ s', m s = Ok (tt, s') ∧ Q s'.
Proof. intros H. apply wp_ok in H as ([] & s' & ? & ?). eauto. Qed.

(** What holds of the queues and the processes. *)
Definition well_formed s : Prop :=
  ∃ A, R s A ∧ QInv [] A ∧ CInv [] A ∧ Live A ∧ 0 ≤ global_ticks s < 100.

Lemma sinv_well_formed s : SInv s → well_formed s.
Proof.
  intros (A & HR & Hcase).
  assert (∃ I, Inv I A) as [I [HQ HC HT _ HV]] by (destruct Hcase as [?|(? & ? & ? & ?)]; eauto).
  exists A. rewrite (proj2 HR) in HT. done.
Qed.

(** C1. In every state that the kernel reaches from boot the run queues are
    well formed, unless [setPrioity_arrangeQueue] was called before for a
    process that waits in the wrong place.  Well formed: each queue is a doubly
    linked list with its count, no process is on two queues, every UNUSED,
    SLEEPING and RUNNABLE process is on the queue of its state, queue 2 is
    sorted by priority, a process is RUNNING exactly when one core runs it, a
    process that can run has a stack, a page table and a resumption point, and
    fewer than 100 ticks were counted since the last boost.  The steps make
    every call of [setPrioity_arrangeQueue] that the code makes, which checks
    nothing: the only way out of the well formed states is a call made in one
    of them for a runnable process of level 2 that is not on queue 2 ([yield]
    has put it on queue 0 because it had the scheduler lock).  Such calls do
    happen and do break the queues: [set_priority_corrupts_queues]. *)
Theorem mlfq_invariant c m e s0 s :
  KernelEnvLaws KE → started c m e s0 → rtc kstep s0 s →
  well_formed s ∨
  ∃ s1 s2, rtc kstep s0 s1 ∧ well_formed s1 ∧ misplaced_call s1 s2 ∧ kstep s1 s2 ∧ rtc kstep s2 s.
Proof.
  intros HL H0 Hst. destruct (steps_sinv s0 s HL (kinv_sinv _ (started_kinv _ _ _ _ H0)) Hst) as [Hs|(s1 & s2 & H1 & Hs & Hm & H12 & H2)].
  - left. by apply sinv_well_formed.
  - right. exists s1, s2. by split_and!; [|apply sinv_well_formed|..].
Qed.

(** Between kernel sections no operation of the scheduler gets stuck: on
    the core of a running process [yield], [wakeup], [kill] and the two
    scheduler-lock calls run to the end, without a panic, a null pointer or an
    endless queue scan. *)
Theorem mlfq_progress s c p :
  KInv s → runs s c p →
  (∃ s', yield c s = Ok (tt, s')) ∧
  (∀ ch, ∃ s', wakeup c ch s = Ok (tt, s')) ∧
  (∀ n, ∃ r s', kill c n s = Ok (r, s')) ∧
  (∃ s', schedulerLock c scheduler_password s = Ok (tt, s')) ∧
  (∃ s', schedulerUnlock c scheduler_password s = Ok (tt, s')).
Proof.
  intros (A & HR & Hi) Hr. pose proof (R_runs _ _ _ _ HR Hr) as Ha. split_and!.
  - destruct (wp_unit _ _ _ (R_yield true _ _ _ _ HR Hi Ha)) as (s' & E & _). eauto.
  - intros ch. destruct (wp_unit _ _ _ (R_wakeup true _ _ _ _ ch HR Hi Ha)) as (s' & E & _). eauto.
  - intros n. destruct (wp_outcome _ _ _ (R_kill true _ _ _ _ n HR Hi Ha)) as (r & s' & E & _). eauto.
  - destruct (wp_unit _ _ _ (R_schedulerLock true _ _ _ _ HR Hi Ha)) as (s' & E & _). eauto.
  - destruct (wp_unit _ _ _ (R_schedulerUnlock true _ _ _ _ HR Hi Ha)) as (s' & E & _). eauto.
Qed.

(** C4. [yield] implements its specification [ayield]: the tick is counted for
    the process and the system; the holder of the scheduler lock (or the
    process that just dropped it) goes to the front of queue 0; another process
    is demoted when its quantum is over and queued at its level, by priority on
    level 2; at the 100th tick priorities are boosted; the process remembers whether
    interrupts were on; the core is then free and the invariant holds. *)
Theorem yield_refines s A c p :
  R s A → Inv idle A → runs s c p →
  ∃ s', yield c s = Ok (tt, s') ∧ reaches (aleave (ayield p (irq_on (kmach s) c) A)) c None A s'.
Proof. intros HR Hi Hr. rewrite <- (R_kmach _ _ HR). apply wp_unit, R_yield; eauto using R_runs. Qed.

(** C5. The scheduler takes the head of the first queue that is not empty,
    makes it RUNNING on this core and resumes it where it called [sched]; with
    no runnable process it changes nothing. *)
Theorem scheduler_refines s A c :
  R s A → Inv idle A → cprocs (kmach s) !! c = Some None → enter_runs true A →
  ∃ r s', scheduler_enter c s = Ok (r, s') ∧ enter_res c A r s'.
Proof.
  intros HR Hi Hc Hrun. apply wp_outcome, R_scheduler_enter; [done..| |done].
  by rewrite (R_kmach _ _ HR).
Qed.

(** [wakeup] wakes exactly the sleepers on the channel: each becomes
    RUNNABLE and joins a run queue, the others keep sleeping in their order,
    and no other process changes. *)
Theorem wakeup_wakes s A c o ch :
  R s A → Inv idle A → cprocs (kmach s) !! c = Some o →
  ∃ s' A', wakeup c ch s = Ok (tt, s') ∧ R s' A' ∧ Inv idle A' ∧
    aq A' SleepQ = filter (λ x, ¬ on_chan (aprocs A) ch x) (aq A SleepQ) ∧
    (∀ x, x ∈ aq A SleepQ → on_chan (aprocs A) ch x →
       aprocs A' !! x = set_state RUNNABLE <$> aprocs A !! x ∧ ∃ k, x ∈ aq A' (LQ k)) ∧
    (∀ x, x ∉ aq A SleepQ ∨ ¬ on_chan (aprocs A) ch x → aprocs A' !! x = aprocs A !! x).
Proof.
  intros HR Hi Hc. rewrite <- (R_kmach _ _ HR) in Hc.
  destruct (wp_unit _ _ _ (R_wakeup true s A c o ch HR Hi Hc)) as (s' & E & m' & HR' & Hi' & _).
  pose proof (awakeup_woken [] ch A (R_qdisj _ _ HR) (inv_q _ _ Hi)) as Hw.
  exists s', (amod (set_kmach m') (awakeup ch A)).
  split; [done|]. split; [done|]. split; [done|]. split; [apply (wk_sleep _ _ _ _ _ _ Hw)|].
  split; [|apply (wk_no _ _ _ _ _ _ Hw)].
  intros x Hx Ho. destruct (qi_fits _ _ (inv_q _ _ Hi) _ _ Hx) as (d & Hd & _).
  pose proof (wk_yes _ _ _ _ _ _ Hw x d Hd Hx Ho) as Hd'. split; [by rewrite Hd|].
  exact (qi_home _ _ (inv_q _ _ Hi') x _ Hd' (not_elem_of_nil _)).
Qed.

(** C6. The hundredth tick boosts: whatever was on the run queues is on queue
    0, queues 1 and 2 are empty, every runnable or sleeping process is at level
    0 with priority 3 and an empty quantum, and both the tick count and the
    scheduler lock are reset. *)
Theorem hundredth_tick_boosts s A c p :
  R s A → Inv idle A → runs s c p → global_ticks s = 99 →
  ∃ s' A', yield c s = Ok (tt, s') ∧ R s' A' ∧ Inv idle A' ∧
    aq A' (LQ 1) = [] ∧ aq A' (LQ 2) = [] ∧ global_ticks s' = 0 ∧ lockproc s' = None ∧
    (∀ x d, aprocs A' !! x = Some d → state d = RUNNABLE ∨ state d = SLEEPING →
       queuelevel d = 0 ∧ priority d = 3 ∧ ticks d = 0 ∧ (state d = RUNNABLE → x ∈ aq A' (LQ 0))).
Proof.
  intros HR Hi Hr Hg. destruct (wp_unit _ _ _ (R_yield true s A c p HR Hi (R_runs _ _ _ _ HR Hr)))
    as (s' & E & m' & HR' & Hi' & _).
  set (B := ayield p (irq_on (amach A) c) A) in *. set (A' := amod (set_kmach m') (aleave B)) in *.
  assert (global_ticks (abase B) = 100) as HB.
  { unfold B, ayield. destruct (inv_running _ _ _ _ Hi (R_runs _ _ _ _ HR Hr)) as (d & -> & _).
    assert (global_ticks (abase A) = 99) by (by rewrite (proj2 HR)).
    unfold yield_queue, clear_unlock. destruct (privileged _ _); [destruct (ptr_eqb _ _)|]; cbn; lia. }
  set (B0 := amod (set_global_ticks 0) B) in *.
  assert (A' = amod (set_kmach m') (amod (set_lockproc None) (aboost B0))) as EA.
  { unfold A', aleave. by rewrite HB. }
  exists s', A'. rewrite EA in *. split; [done|]. split; [done|]. split; [done|].
  split; [exact (aq_aboost B0 (LQ 1))|]. split; [exact (aq_aboost B0 (LQ 2))|].
  assert (global_ticks s' = global_ticks (abase (amod (set_kmach m') (amod (set_lockproc None) (aboost B0)))) ∧
          lockproc s' = None) as [-> ->].
  { destruct HR' as [_ Hb]. rewrite Hb. split; [done|].
    change (lockproc s') with (lockproc (abs_of s')). by rewrite <- Hb. }
  split; [done|]. split; [done|].
  intros x d Hd Hs. pose proof (qi_home _ _ (inv_q _ _ Hi') x d Hd (not_elem_of_nil _)) as Hh.
  change (aprocs (aboost B0) !! x = Some d) in Hd.
  change (home (aboost B0) x (state d)) in Hh.
  assert (x ∈ aq B0 SleepQ ++ boosted B0 ∧ (state d = RUNNABLE → x ∈ aq (aboost B0) (LQ 0))) as [Hx Hx0].
  { destruct Hs as [Hs|Hs]; rewrite Hs in *; unfold home in Hh.
    - destruct Hh as [k Hk]. pose proof (qd_valid _ (R_qdisj _ _ HR') (LQ k) x Hk) as Hv.
      unfold valid_q, NQUEUE in Hv. rewrite aq_aboost in Hk.
      destruct k as [|[|[|k]]]; [|by apply not_elem_of_nil in Hk..|lia].
      split; [apply elem_of_app; by right|]. intros _. by rewrite aq_aboost.
    - rewrite aq_aboost in Hh. split; [apply elem_of_app; by left|done]. }
  rewrite aprocs_aboost, decide_True in Hd by done. apply fmap_Some in Hd as (d0 & _ & ->).
  split_and!; done.
Qed.

(** C8. [kill] marks the first process of the table with that pid; if it
    slept, it becomes runnable on the queue of its level; the result tells
    whether there was one. *)
Theorem kill_refines s A c o n :
  R s A → Inv idle A → cprocs (kmach s) !! c = Some o →
  ∃ r s', kill c n s = Ok (r, s') ∧ reaches (akill n A) c o A s' ∧
    r = if first_pid (aprocs A) n proc_table then 0 else -1.
Proof.
  intros HR Hi Hc. apply wp_outcome, R_kill; [done..|]. by rewrite (R_kmach _ _ HR).
Qed.

(** C9. [setPrioity_arrangeQueue] gives the process its priority and, when it
    waits on level 2, moves it to its place by priority, provided no process of
    level 2 waits on another queue. *)
Theorem set_priority_refines s A c o n prio :
  R s A → Inv idle A → cprocs (kmach s) !! c = Some o → all_settled A →
  ∃ s', setPrioity_arrangeQueue c n prio s = Ok (tt, s') ∧ reaches (asetprio n prio A) c o A s'.
Proof.
  intros HR Hi Hc Hset. apply wp_unit, R_setPrioity; [done..| |by apply all_target_settled]. by rewrite (R_kmach _ _ HR).
Qed.

(** C10. [fork] returns: the pid of the child it made, runnable at the end of
    queue 0 with the parent's memory size, registers (but 0 in [eax]), files,
    directory and name; or -1, with the unused list holding the same slots and
    every other process as before. *)
Theorem fork_refines J page s A c p d :
  R s A → Inv idle A → runs s c p → aprocs A !! p = Some d → fork_env true J page d → J (kenv s) →
  ∃ r s', fork c s = Ok (r, s') ∧ fork_res p d A r s'.
Proof.
  intros HR Hi Hr Hd Hfe HJ. apply wp_outcome. eapply R_fork; eauto using R_runs.
  by rewrite (proj2 HR).
Qed.

(** [exit] of a process other than init closes its files, wakes its
    parent, hands its children to init (waking init for the dead ones) and
    leaves the core to the scheduler as a zombie. *)
Theorem exit_refines J s A c p d :
  R s A → Inv idle A → runs s c p → aprocs A !! p = Some d → initproc s ≠ Some p →
  exit_env true J d → J (kenv s) →
  ∃ s', exit c s = Ok (tt, s') ∧ exit_res c p A s'.
Proof.
  intros HR Hi Hr Hd Hini Hxe HJ. apply wp_unit. eapply R_exit_call; eauto using R_runs.
  - by rewrite (proj2 HR).
  - by rewrite (proj2 HR).
Qed.

(** [wait] returns the pid of the first zombie child after giving its
    slot back, or -1 when there is no child or the caller was killed; otherwise
    the caller sleeps on its own address. *)
Theorem wait_refines s A c p :
  R s A → Inv idle A → runs s c p →
  (∀ x d, zombie_child (aprocs A) p proc_table = Some (x, d) → reap_runs true A d) →
  ∃ r s', wait c s = Ok (r, s') ∧ wait_res c p (irq_on (kmach s) c) A r s'.
Proof. intros HR Hi Hr Hrun. rewrite <- (R_kmach _ _ HR). apply wp_outcome, R_wait; eauto using R_runs. Qed.

(** C11. [exit] and [wait] hand a child over to its parent.  [exit] of a
    process other than init closes its files, wakes its parent, hands its
    children to init (waking init for the dead ones) and leaves the core to the
    scheduler as a zombie.  [wait] returns the pid of the first zombie child
    after giving its slot back, or -1 when there is no child or the caller was
    killed; otherwise the caller sleeps on its own address. *)
Theorem exit_wait_refine s A c p :
  R s A → Inv idle A → runs s c p →
  (∀ J d, aprocs A !! p = Some d → initproc s ≠ Some p → exit_env true J d → J (kenv s) →
     ∃ s', exit c s = Ok (tt, s') ∧ exit_res c p A s') ∧
  ((∀ x d, zombie_child (aprocs A) p proc_table = Some (x, d) → reap_runs true A d) →
     ∃ r s', wait c s = Ok (r, s') ∧ wait_res c p (irq_on (kmach s) c) A r s').
Proof. intros HR Hi Hr. split; [intros J d ????; by apply (exit_refines J _ _ _ _ d)|by apply wait_refines]. Qed.

(** A process that does not hold the scheduler lock and whose tick count
    has passed its quantum is never demoted by [yield]: the test is an equality
    ([ticks == queuelevel * 2 + 4]), and the ticks a lock holder counts take
    its count past it. *)
Theorem missed_quantum_not_demoted s A c p d :
  R s A → Inv idle A → runs s c p → aprocs A !! p = Some d →
  privileged p A = false → queuelevel d * 2 + 4 ≤ ticks d → global_ticks s < 99 →
  ∃ s' A' d', yield c s = Ok (tt, s') ∧ R s' A' ∧ aprocs A' !! p = Some d' ∧
    queuelevel d' = queuelevel d ∧ priority d' = priority d ∧ ticks d' = ticks d + 1.
Proof.
  intros HR Hi Hr Hd Hpriv Ht Hg. destruct (wp_unit _ _ _ (R_yield true s A c p HR Hi (R_runs _ _ _ _ HR Hr)))
    as (s' & E & m' & HR' & Hi' & _).
  exists s', (amod (set_kmach m') (aleave (ayield p (irq_on (amach A) c) A))).
  assert (global_ticks (abase A) < 99) as HgA by (by rewrite (proj2 HR)).
  assert (ayield p (irq_on (amach A) c) A = queue_level p (tick d) (K_yield (irq_on (amach A) c)) (count_tick A)) as EA.
  { unfold ayield, yield_queue. rewrite Hd. change (privileged p (count_tick A)) with (privileged p A). rewrite Hpriv.
    unfold demote, quantum_over. assert (ticks (tick d) =? queuelevel (tick d) * 2 + 4 = false) as ->; [|done].
    apply Z.eqb_neq. cbn. lia. }
  rewrite EA in *. unfold aleave in *.
  assert (global_ticks (abase (queue_level p (tick d) (K_yield (irq_on (amach A) c)) (count_tick A))) =? 100 = false) as Eg.
  { apply Z.eqb_neq. cbn. lia. }
  rewrite Eg in *. exists (set_context (K_yield (irq_on (amach A) c)) (tick d)). split; [done|]. split; [done|].
  split; [exact (aprocs_aput_eq p (set_context (K_yield (irq_on (amach A) c)) (tick d)) (count_tick A))|done].
Qed.

(** C7. The pointer code of the queues implements list operations: inserting
    with a null base appends, inserting with a base puts the process in front
    of it, [delete] and [dequeue] remove, [merge_queue] appends the second
    queue to the first; each changes only the links of the processes involved
    and keeps the head, the tail and the count of the queue right. *)
Theorem queue_ops_refine s q qv l x :
  queues s !! q = Some qv → queue_rep (procs s) qv l →
  (x ∉ l → is_Some (procs s !! x) →
     (∃ s', insert q (Some x) None s = Ok (tt, s') ∧ qstep q (x :: l) (l ++ [x]) s s') ∧
     (∀ l1 b l2, l = l1 ++ b :: l2 →
        ∃ s', insert q (Some x) (Some b) s = Ok (tt, s') ∧ qstep q (x :: l) (l1 ++ x :: b :: l2) s s')) ∧
  (∀ l1 l2, l = l1 ++ x :: l2 → ∃ s', delete q (Some x) s = Ok (tt, s') ∧ qstep q l (l1 ++ l2) s s') ∧
  match l with
  | [] => dequeue q s = Ok (None, s)
  | y :: l' => ∃ s', dequeue q s = Ok (Some y, s') ∧ qstep q l l' s s'
  end ∧
  (∀ q' qv' l', q ≠ q' → queues s !! q' = Some qv' → queue_rep (procs s) qv' l' →
     (∀ y, y ∈ l → y ∉ l') →
     ∃ s', merge_queue q q' s = Ok (q, s') ∧
       (∃ w, queues s' !! q = Some w ∧ queue_rep (procs s') w (l ++ l')) ∧
       (∃ w, queues s' !! q' = Some w ∧ queue_rep (procs s') w []) ∧
       (∀ q0, q0 ≠ q → q0 ≠ q' → queues s' !! q0 = queues s !! q0)).
Proof.
  intros Hq Hr. split_and!.
  - intros Hx Hp. split; [by apply wp_unit, (insert_end_wp true _ _ _ _ _ Hq Hr)|].
    intros l1 b l2 ->. by apply wp_unit, (insert_before_wp true _ _ _ _ _ _ _ Hq Hr).
  - intros l1 l2 ->. destruct (wp_outcome _ _ _ (delete_wp true _ _ _ _ _ _ Hq Hr)) as ([] & s' & E & H & _). eauto.
  - destruct l as [|y l'].
    + destruct (wp_outcome _ (λ r s', r = None ∧ s' = s) s
        (dequeue_empty_wp true s q qv _ Hq Hr (conj eq_refl eq_refl))) as (r & s' & E & -> & ->). done.
    + destruct (wp_outcome _ _ _ (dequeue_wp true _ _ _ _ _ Hq Hr)) as (r & s' & E & -> & H & _). eauto.
  - intros q' qv' l' Hne Hq' Hr' Hdis.
    destruct (wp_outcome _ _ _ (merge_queue_wp true _ _ _ _ _ _ _ Hne Hq Hq' Hr Hr' Hdis))
      as (r & s' & E & -> & _ & _ & Ho & _ & H1 & H2). exists s'. auto.
Qed.
End Props.

(** ** The properties on a run of the kernel *)

Lemma mlfq_progress_witness : ∃ s', yield 1 (d_after up_two) = Ok (tt, s').
Proof.
  assert (KInv (d_after up_two)) as HK by (demo up_two A HR Hi; by exists A).
  destruct (mlfq_progress (d_after up_two) 1 1 HK) as [H _]; [vm_compute; reflexivity|exact H].
Defined.

Lemma yield_refines_witness :
  ∃ A s', R (d_after up_two) A ∧ yield 1 (d_after up_two) = Ok (tt, s') ∧
    reaches (aleave (ayield 1 (irq_on (kmach (d_after up_two)) 1) A)) 1 None A s'.
Proof.
  demo up_two A HR Hi. exists A.
  destruct (yield_refines _ A 1 1 HR Hi) as (s' & H); [vm_compute; reflexivity|]. by exists s'.
Defined.

Lemma scheduler_refines_witness :
  ∃ A r s', R d_init A ∧ scheduler_enter 0 d_init = Ok (r, s') ∧ enter_res 0 A r s'.
Proof.
  destruct d_init_kinv as (A & HR & Hi). exists A.
  destruct (scheduler_refines d_init A 0 HR Hi) as (r & s' & H);
    [vm_compute; reflexivity|apply demo_enter_runs|]. by exists r, s'.
Defined.

Lemma wakeup_wakes_witness :
  ∃ A s' A', R (d_after up_wait) A ∧ wakeup 1 (ch_proc 0) (d_after up_wait) = Ok (tt, s') ∧ R s' A' ∧
    aq A' SleepQ = filter (λ x, ¬ on_chan (aprocs A) (ch_proc 0) x) (aq A SleepQ).
Proof.
  demo up_wait A HR Hi. exists A.
  destruct (wakeup_wakes _ A 1 (Some 1%nat) (ch_proc 0) HR Hi) as (s' & A' & H1 & H2 & _ & H3 & _);
    [vm_compute; reflexivity|]. exists s', A'. repeat (split; [assumption|]). assumption.
Defined.

Lemma hundredth_tick_boosts_witness :
  ∃ s' A', yield 1 (d_after (up_ticks 99)) = Ok (tt, s') ∧ R s' A' ∧ aq A' (LQ 1) = [] ∧ aq A' (LQ 2) = [].
Proof.
  demo (up_ticks 99) A HR Hi.
  destruct (hundredth_tick_boosts _ A 1 1 HR Hi) as (s' & A' & H1 & H2 & _ & H3 & H4 & _);
    [vm_compute; reflexivity..|]. exists s', A'. repeat (split; [assumption|]). assumption.
Defined.

Lemma kill_refines_witness :
  ∃ A r s', R (d_after up_wait) A ∧ kill 1 1 (d_after up_wait) = Ok (r, s') ∧
    reaches (akill 1 A) 1 (Some 1%nat) A s'.
Proof.
  demo up_wait A HR Hi. exists A.
  destruct (kill_refines _ A 1 (Some 1%nat) 1 HR Hi) as (r & s' & H1 & H2 & _); [vm_compute; reflexivity|].
  exists r, s'. repeat (split; [assumption|]). assumption.
Defined.

(** Both processes run and neither is at level 2. *)
Lemma set_priority_refines_witness :
  ∃ A s', R (d_after up_two) A ∧ setPrioity_arrangeQueue 0 2 1 (d_after up_two) = Ok (tt, s') ∧
    reaches (asetprio 2 1 A) 0 (Some 0%nat) A s'.
Proof.
  demo up_two A HR Hi. exists A.
  destruct (set_priority_refines _ A 0 (Some 0%nat) 2 1 HR Hi) as (s' & H); [vm_compute; reflexivity| |exists s'; split; assumption].
  intros x d Hd Hl. exfalso. destruct (R_procs _ _ _ _ HR Hd) as (q & Hq & <-).
  assert (map_Forall (λ (_ : nat) q, in_l2 q = false) (procs (d_after up_two))) as Hall.
  { refine (bool_decide_eq_true_1 _ _). vm_compute. reflexivity. }
  pose proof (Hall x q Hq) as Hf. change (in_l2 q = true) in Hl. cbn in Hf. congruence.
Defined.

Lemma fork_refines_witness :
  ∃ A d r s', R (d_after up_run) A ∧ aprocs A !! 0%nat = Some d ∧ fork 0 (d_after up_run) = Ok (r, s') ∧
    fork_res 0 d A r s'.
Proof.
  demo up_run A HR Hi. assert (runs (d_after up_run) 0 0) as Hr by (vm_compute; reflexivity).
  destruct (inv_running _ _ _ _ Hi (R_runs _ _ _ _ HR Hr)) as (d & Hd & _). exists A, d.
  destruct (fork_refines (λ _, True) (λ _, True) _ A 0 0 d HR Hi Hr Hd (demo_fork_env d) I) as (r & s' & H).
  exists r, s'. repeat (split; [assumption|]). assumption.
Defined.

Lemma exit_refines_witness :
  ∃ A s', R (d_after up_two) A ∧ exit 1 (d_after up_two) = Ok (tt, s') ∧ exit_res 1 1 A s'.
Proof.
  demo up_two A HR Hi. assert (runs (d_after up_two) 1 1) as Hr by (vm_compute; reflexivity).
  destruct (inv_running _ _ _ _ Hi (R_runs _ _ _ _ HR Hr)) as (d & Hd & _). exists A.
  destruct (exit_refines (λ _, True) _ A 1 1 d HR Hi Hr Hd) as (s' & H);
    [vm_compute; discriminate|apply demo_exit_env|exact I|]. exists s'. split; assumption.
Defined.

Lemma wait_refines_witness :
  ∃ A r s', R (d_after up_zombie) A ∧ wait 0 (d_after up_zombie) = Ok (r, s') ∧ wait_res 0 0 (irq_on (kmach (d_after up_zombie)) 0) A r s'.
Proof.
  demo up_zombie A HR Hi. exists A.
  destruct (wait_refines _ A 0 0 HR Hi) as (r & s' & H); [vm_compute; reflexivity|done|]. exists r, s'. repeat (split; [assumption|]). assumption.
Defined.

(** [P] exits on core 1; init waits for it on core 0. *)
Lemma exit_wait_refine_witness :
  ∃ A B r s' s'', R (d_after up_two) A ∧ exit 1 (d_after up_two) = Ok (tt, s') ∧ exit_res 1 1 A s' ∧
    R (d_after up_zombie) B ∧ wait 0 (d_after up_zombie) = Ok (r, s'') ∧
    wait_res 0 0 (irq_on (kmach (d_after up_zombie)) 0) B r s''.
Proof.
  demo up_two A HR Hi. assert (runs (d_after up_two) 1 1) as Hr by (vm_compute; reflexivity).
  destruct (inv_running _ _ _ _ Hi (R_runs _ _ _ _ HR Hr)) as (d & Hd & _).
  destruct (exit_wait_refine _ A 1 1 HR Hi Hr) as [H _].
  destruct (H (λ _, True) d Hd) as (s' & H1 & H2); [vm_compute; discriminate|apply demo_exit_env|exact I|].
  demo up_zombie B HRB HiB. destruct (exit_wait_refine _ B 0 0 HRB HiB) as [_ HB]; [vm_compute; reflexivity|].
  destruct HB as (r & s'' & H3 & H4); [done|].
  exists A, B, r, s', s''. repeat (split; [assumption|]). assumption.
Defined.

Lemma missed_quantum_not_demoted_witness :
  ∃ A s' A' d', R (d_after up_missed) A ∧ yield 1 (d_after up_missed) = Ok (tt, s') ∧ R s' A' ∧
    aprocs A' !! 1%nat = Some d' ∧ queuelevel d' = 0 ∧ ticks d' = 6.
Proof.
  demo up_missed A HR Hi. assert (runs (d_after up_missed) 1 1) as Hr by (vm_compute; reflexivity).
  destruct (inv_running _ _ _ _ Hi (R_runs _ _ _ _ HR Hr)) as (d & Hd & _).
  destruct (R_procs _ _ _ _ HR Hd) as (q & Hq & E).
  assert ((λ q, (ticks q, queuelevel q)) <$> procs (d_after up_missed) !! 1%nat = Some (5, 0)) as Hv
    by (vm_compute; reflexivity).
  rewrite Hq in Hv. injection Hv as Et El.
  assert (ticks d = 5 ∧ queuelevel d = 0) as [Etd Eld] by (rewrite <- E; exact (conj Et El)).
  assert (privileged 1 A = false) as Hpr by (unfold privileged; rewrite (proj2 HR); vm_compute; reflexivity).
  assert (queuelevel d * 2 + 4 ≤ ticks d) as Hq4 by (rewrite Etd, Eld; lia).
  assert (global_ticks (d_after up_missed) < 99) as Hg by (vm_compute; reflexivity).
  destruct (missed_quantum_not_demoted _ A 1 1 d HR Hi Hr Hd Hpr Hq4 Hg) as (s' & A' & d' & H1 & H2 & H3 & H4 & _ & H5).
  exists A, s', A', d'. rewrite Eld in H4. rewrite Etd in H5. repeat (split; [assumption|]). assumption.
Defined.

(** On the queue of the unused processes after boot. *)
Lemma queue_ops_refine_witness :
  ∃ s' y l, dequeue UnusedQ d_init = Ok (Some y, s') ∧ qstep UnusedQ (y :: l) l d_init s'.
Proof.
  destruct d_init_kinv as (A & HR & Hi).
  destruct (R_queue _ _ UnusedQ HR I) as (qv & Hq & Hr).
  destruct (queue_ops_refine d_init UnusedQ qv (aq A UnusedQ) 0 Hq Hr) as (_ & _ & Hdq & _).
  destruct (aq A UnusedQ) as [|y l] eqn:E.
  - exfalso. assert (queues d_init !! UnusedQ = Some (mkQueue (Some 1%nat) (Some 63%nat) 63)) as Hq1
      by (vm_compute; reflexivity).
    rewrite Hq in Hq1. injection Hq1 as ->. pose proof (qr_head _ _ _ Hr) as Hh. discriminate Hh.
  - destruct Hdq as (s' & H). exists s', y, l. exact H.
Defined.

(** The side condition of [set_priority_refines] can fail in a reachable
    state: a process of level 2 that holds the scheduler lock yields to the
    front of queue 0, and [setPrioity_arrangeQueue], called meanwhile on the
    other core, puts it on queue 2 as well; no queues are represented any
    more. *)
Theorem set_priority_corrupts_queues :
  ∃ s s', rtc kstep d_init s ∧ KInv s ∧ runs s 0 0 ∧
    setPrioity_arrangeQueue 0 2 1 s = Ok (tt, s') ∧ ¬ ∃ A, R s' A.
Proof.
  exists (d_after up_unsettled), (match setPrioity_arrangeQueue 0 2 1 (d_after up_unsettled) with Ok (_, s) => s | _ => d_init end).
  split; [apply (run_steps up_unsettled); vm_compute; reflexivity|].
  split; [apply (d_after_kinv up_unsettled); vm_compute; reflexivity|].
  split; [vm_compute; reflexivity|]. split; [vm_compute; reflexivity|].
  intros (A & HR). set (s' := match _ with Ok (_, s) => s | _ => _ end) in HR.
  assert (head <$> queues s' !! LQ 0 = Some (Some 1%nat)) as H0 by (vm_compute; reflexivity).
  assert (head <$> queues s' !! LQ 2 = Some (Some 1%nat)) as H2 by (vm_compute; reflexivity).
  clearbody s'.
  assert (∀ q, valid_q q → head <$> queues s' !! q = Some (Some 1%nat) → 1%nat ∈ aq A q) as Hhead.
  { intros q Hv Hh. destruct (R_queue _ _ _ HR Hv) as (qv & Hq & Hrep). rewrite Hq in Hh. cbn in Hh.
    injection Hh as Hh. rewrite (qr_head _ _ _ Hrep) in Hh. destruct (aq A q) as [|y l]; [done|].
    cbn in Hh. injection Hh as ->. set_solver. }
  assert (LQ 0 = LQ 2) as Hbad; [|discriminate].
  eapply (rp_disj _ _ (proj1 HR)); apply Hhead; try assumption; unfold valid_q, NQUEUE; lia.
Qed.

(** A run with init and a child; and the run of [set_priority_corrupts_queues],
    in which the theorem finds the call. *)
Lemma mlfq_invariant_witness :
  (well_formed (d_after up_two) ∨
   ∃ s1 s2, rtc kstep d_init s1 ∧ well_formed s1 ∧ misplaced_call s1 s2 ∧ kstep s1 s2 ∧ rtc kstep s2 (d_after up_two)) ∧
  ∃ s s1 s2, rtc kstep d_init s ∧ ¬ well_formed s ∧ well_formed s1 ∧ misplaced_call s1 s2 ∧ rtc kstep s2 s.
Proof.
  assert (∀ s, rtc kstep d_init s →
    well_formed s ∨ ∃ s1 s2, rtc kstep d_init s1 ∧ well_formed s1 ∧ misplaced_call s1 s2 ∧ kstep s1 s2 ∧ rtc kstep s2 s) as H.
  { intros s. apply (mlfq_invariant (KE := demo_env) 0 two_cores (0 : Z) d_init).
    - apply demo_laws.
    - split; [apply two_cores_fresh|]. split; [cbn; lia|]. vm_compute. reflexivity. }
  split; [apply H, (run_steps up_two); vm_compute; reflexivity|].
  destruct set_priority_corrupts_queues as (s & s' & Hs & (A & HR & Hi) & Hr & E & Hno). exists s'.
  assert (rtc kstep d_init s') as Hs'.
  { eapply rtc_r; [exact Hs|]. eapply (k_setprio s s' 0 0); [by eapply sinv_idle|exact Hr|exact E]. }
  assert (¬ well_formed s') as Hnw by (intros (A' & HR' & _); apply Hno; by exists A').
  destruct (H s' Hs') as [?|(s1 & s2 & _ & H1 & H2 & _ & H3)]; [done|]. exists s1, s2. by split_and!.
Defined.
