(* ===== verification/Threads.v ===== *)
(** * The LWP kernel: processes and threads of Project2/proc.c

    A process is a family of [struct proc]s (threads) that share a
    [struct th_share]; the family is the singly linked list from
    [th_family_hd] along [th_next].  As in [Mlfq], every function takes the
    core [c] that runs it, and a call of [sched] ends the part of a function
    that runs before the switch: the process goes on in [resume].  Console
    output ([cprintf]) is not modelled. *)

From S2P Require Export Prelude Spinlock Kernel.
Local Open Scope Z_scope.

(** Where [swtch] resumes a process: as [kcont] of [Kernel], with the two
    calls of [sched] that Project2 adds ([thread_exit], and [thread_join] with
    its arguments). *)
Inductive kcont2 :=
  | T_forkret
  | T_yield (intena : bool)
  | T_sleep (lk : lockid) (intena : bool)
  | T_wait (intena : bool)
  | T_exit (intena : bool)
  | T_join (thread retval : Z) (intena : bool).

Inductive thshare_state := EMPTY | USING.
#[export] Instance thshare_state_eq_dec : EqDecision thshare_state.
Proof. solve_decision. Defined.

(** [struct th_share]; the field [state] is [shstate] here. *)
Record share := mkShare {
  sz : Z;
  parent : ptr;
  ofile : list Z;
  memory_limit : Z;
  stacksize : Z;
  th_family_hd : ptr;
  th_last : ptr;
  shstate : thshare_state
}.

Definition set_sz (v : Z) (p : share) : share :=
  mkShare v (parent p) (ofile p) (memory_limit p)
   (stacksize p) (th_family_hd p) (th_last p) (shstate p).
Definition set_parent (v : ptr) (p : share) : share :=
  mkShare (sz p) v (ofile p) (memory_limit
   p) (stacksize p) (th_family_hd p) (th_last p) (shstate p).
Definition set_ofile (v : list Z) (p : share) : share :=
  mkShare (sz p) (parent p) v
   (memory_limit p) (stacksize p) (th_family_hd p) (th_last p) (shstate p).
Definition set_memory_limit (v : Z) (p : share) : share :=
  mkShare (sz p) (parent p) (ofile p) v
   (stacksize p) (th_family_hd p) (th_last p) (shstate p).
Definition set_stacksize (v : Z) (p : share) : share :=
  mkShare (sz p) (parent p) (ofile p)
   (memory_limit p) v (th_family_hd p) (th_last p) (shstate p).
Definition set_th_family_hd (v : ptr) (p : share) : share :=
  mkShare (sz p) (parent p) (ofile p)
   (memory_limit p) (stacksize p) v (th_last p) (shstate p).
Definition set_th_last (v : ptr) (p : share) : share :=
  mkShare (sz p) (parent p) (ofile p)
   (memory_limit p) (stacksize p) (th_family_hd p) v (shstate p).
Definition set_shstate (v : thshare_state) (p : share) : share :=
  mkShare (sz p) (parent p)
   (ofile p) (memory_limit p) (stacksize p) (th_family_hd p) (th_last p) v.

(** [struct proc] of Project2/proc.h.  [tf] and [context] are what the
    pointers of the same names point to; [pchan] is the field [chan];
    [shared_info] is an index into [ptable.th_share]. *)
Record proc := mkProc {
  kstack : Z;
  state : procstate;
  tf : trapframe;
  context : kcont2;
  pchan : chan;
  killed : Z;
  pgdir : Z;
  pid : Z;
  name : string;
  cwd : Z;
  shared_info : ptr;
  tid : Z;
  th_next : ptr;
  th_main : ptr;
  retval : Z
}.

Definition set_kstack (v : Z) (p : proc) : proc :=
  mkProc v (state p) (tf p) (context p) (pchan
   p) (killed p) (pgdir p) (pid p) (name p) (cwd p) (shared_info p) (tid p) (th_next p) (th_main
   p) (retval p).
Definition set_state (v : procstate) (p : proc) : proc :=
  mkProc (kstack p) v (tf p) (context p)
   (pchan p) (killed p) (pgdir p) (pid p) (name p) (cwd p) (shared_info p) (tid p) (th_next p)
   (th_main p) (retval p).
Definition set_tf (v : trapframe) (p : proc) : proc :=
  mkProc (kstack p) (state p) v (context p)
   (pchan p) (killed p) (pgdir p) (pid p) (name p) (cwd p) (shared_info p) (tid p) (th_next p)
   (th_main p) (retval p).
Definition set_context (v : kcont2) (p : proc) : proc :=
  mkProc (kstack p) (state p) (tf p) v
   (pchan p) (killed p) (pgdir p) (pid p) (name p) (cwd p) (shared_info p) (tid p) (th_next p)
   (th_main p) (retval p).
Definition set_pchan (v : chan) (p : proc) : proc :=
  mkProc (kstack p) (state p) (tf p) (context
   p) v (killed p) (pgdir p) (pid p) (name p) (cwd p) (shared_info p) (tid p) (th_next p) (th_main
   p) (retval p).
Definition set_killed (v : Z) (p : proc) : proc :=
  mkProc (kstack p) (state p) (tf p) (context
   p) (pchan p) v (pgdir p) (pid p) (name p) (cwd p) (shared_info p) (tid p) (th_next p) (th_main
   p) (retval p).
Definition set_pgdir (v : Z) (p : proc) : proc :=
  mkProc (kstack p) (state p) (tf p) (context p)
   (pchan p) (killed p) v (pid p) (name p) (cwd p) (shared_info p) (tid p) (th_next p) (th_main p)
   (retval p).
Definition set_pid (v : Z) (p : proc) : proc :=
  mkProc (kstack p) (state p) (tf p) (context p)
   (pchan p) (killed p) (pgdir p) v (name p) (cwd p) (shared_info p) (tid p) (th_next p) (th_main
   p) (retval p).
Definition set_name (v : string) (p : proc) : proc :=
  mkProc (kstack p) (state p) (tf p)
   (context p) (pchan p) (killed p) (pgdir p) (pid p) v (cwd p) (shared_info p) (tid p) (th_next
   p) (th_main p) (retval p).
Definition set_cwd (v : Z) (p : proc) : proc :=
  mkProc (kstack p) (state p) (tf p) (context p)
   (pchan p) (killed p) (pgdir p) (pid p) (name p) v (shared_info p) (tid p) (th_next p) (th_main
   p) (retval p).
Definition set_shared_info (v : ptr) (p : proc) : proc :=
  mkProc (kstack p) (state p) (tf p)
   (context p) (pchan p) (killed p) (pgdir p) (pid p) (name p) (cwd p) v (tid p) (th_next p)
   (th_main p) (retval p).
Definition set_tid (v : Z) (p : proc) : proc :=
  mkProc (kstack p) (state p) (tf p) (context p)
   (pchan p) (killed p) (pgdir p) (pid p) (name p) (cwd p) (shared_info p) v (th_next p) (th_main
   p) (retval p).
Definition set_th_next (v : ptr) (p : proc) : proc :=
  mkProc (kstack p) (state p) (tf p)
   (context p) (pchan p) (killed p) (pgdir p) (pid p) (name p) (cwd p) (shared_info p) (tid p) v
   (th_main p) (retval p).
Definition set_th_main (v : ptr) (p : proc) : proc :=
  mkProc (kstack p) (state p) (tf p)
   (context p) (pchan p) (killed p) (pgdir p) (pid p) (name p) (cwd p) (shared_info p) (tid p)
   (th_next p) v (retval p).
Definition set_retval (v : Z) (p : proc) : proc :=
  mkProc (kstack p) (state p) (tf p) (context
   p) (pchan p) (killed p) (pgdir p) (pid p) (name p) (cwd p) (shared_info p) (tid p) (th_next p)
   (th_main p) v.

Section State.
Context {KE : KernelEnv}.

(** The globals of proc.c.  [low d] is the beginning of the user memory that
    page directory [d] maps at virtual address 0, read as a [struct th_share]:
    the kernel runs on the page table of the current process, so this is what
    it reaches through a null [struct th_share *].  [spos c] is the local
    variable [p] of the [scheduler] of core [c]. *)
Record kst := mkKst {
  procs : gmap nat proc;
  shares : gmap nat share;
  low : gmap Z share;
  initproc : ptr;
  nextpid : Z;
  nexttid : Z;
  first : bool;
  spos : gmap nat nat;
  kmach : mach;
  kenv : env
}.

Definition set_procs (v : gmap nat proc) (p : kst) : kst :=
  mkKst v (shares p) (low p) (initproc
   p) (nextpid p) (nexttid p) (first p) (spos p) (kmach p) (kenv p).
Definition set_shares (v : gmap nat share) (p : kst) : kst :=
  mkKst (procs p) v (low p)
   (initproc p) (nextpid p) (nexttid p) (first p) (spos p) (kmach p) (kenv p).
Definition set_low (v : gmap Z share) (p : kst) : kst :=
  mkKst (procs p) (shares p) v (initproc
   p) (nextpid p) (nexttid p) (first p) (spos p) (kmach p) (kenv p).
Definition set_initproc (v : ptr) (p : kst) : kst :=
  mkKst (procs p) (shares p) (low p) v
   (nextpid p) (nexttid p) (first p) (spos p) (kmach p) (kenv p).
Definition set_nextpid (v : Z) (p : kst) : kst :=
  mkKst (procs p) (shares p) (low p) (initproc
   p) v (nexttid p) (first p) (spos p) (kmach p) (kenv p).
Definition set_nexttid (v : Z) (p : kst) : kst :=
  mkKst (procs p) (shares p) (low p) (initproc
   p) (nextpid p) v (first p) (spos p) (kmach p) (kenv p).
Definition set_first (v : bool) (p : kst) : kst :=
  mkKst (procs p) (shares p) (low p) (initproc
   p) (nextpid p) (nexttid p) v (spos p) (kmach p) (kenv p).
Definition set_spos (v : gmap nat nat) (p : kst) : kst :=
  mkKst (procs p) (shares p) (low p)
   (initproc p) (nextpid p) (nexttid p) (first p) v (kmach p) (kenv p).
Definition set_kmach (v : mach) (p : kst) : kst :=
  mkKst (procs p) (shares p) (low p) (initproc
   p) (nextpid p) (nexttid p) (first p) (spos p) v (kenv p).
Definition set_kenv (v : env) (p : kst) : kst :=
  mkKst (procs p) (shares p) (low p) (initproc p)
   (nextpid p) (nexttid p) (first p) (spos p) (kmach p) v.

Definition pget (p : ptr) : M kst proc := deref (λ s, i ← p; procs s !! i).

(** [p->field = v] *)
Definition pset (p : ptr) (f : proc → proc) : M kst unit :=
  pr ← pget p;
  match p with
  | Some i => modify (λ s, set_procs (<[i := f pr]> (procs s)) s)
  | None => fault
  end.

(** Run a lock operation, or a call into another subsystem. *)
Definition onm {A} (m : M mach A) : M kst A := zoom kmach set_kmach m.
Definition one {A} (m : M env A) : M kst A := zoom kenv set_kenv m.

(** The page directory that core [c] has loaded: its process's; the
    scheduler's ([kpgdir]) maps nothing at 0. *)
Definition cur_pgdir (c : nat) (s : kst) : option Z :=
  cp ← cpus (kmach s) !! c; i ← cproc cp; pr ← procs s !! i; Some (pgdir pr).

(** [q->field] and [q->field = v] for a [struct th_share *]. *)
Definition sget (c : nat) (q : ptr) : M kst share :=
  deref (λ s, match q with
              | Some i => shares s !! i
              | None => d ← cur_pgdir c s; low s !! d
              end).
Definition sset (c : nat) (q : ptr) (f : share → share) : M kst unit :=
  sh ← sget c q;
  match q with
  | Some i => modify (λ s, set_shares (<[i := f sh]> (shares s)) s)
  | None =>
      d ← deref (cur_pgdir c);
      modify (λ s, set_low (<[d := f sh]> (low s)) s)
  end.

Definition ptr_eqb (p q : ptr) : bool := bool_decide (p = q).

(** [for(p = ptable.proc; p < &ptable.proc[NPROC]; p++)] *)
Definition proc_table : list nat := seq 0 NPROC.

Definition proc0 : proc :=
  mkProc 0 UNUSED tf_zero T_forkret ch_null 0 0 0 "" 0 None 0 None None 0.
Definition share0 : share := mkShare 0 None (replicate NOFILE 0) 0 0 None None EMPTY.
Definition boot (m : mach) (e : env) : kst :=
  mkKst (list_to_map ((λ i, (i, proc0)) <$> proc_table))
        (list_to_map ((λ i, (i, share0)) <$> proc_table))
        ∅ None 1 1 true ∅ m e.

Definition pinit : M kst unit := onm (initlock ptable_lock).

(** ** Shared information of a family *)

Definition initialize_share (c : nat) (q : ptr) : M kst unit :=
  sset c q (set_sz 0) ;;
  sset c q (set_parent None) ;;
  sset c q (set_memory_limit 0) ;;
  sset c q (set_th_family_hd None) ;;
  sset c q (set_th_last None) ;;
  sset c q (set_stacksize 1).

Definition alloc_th_share (c : nat) : M kst ptr :=
  r ← find_first proc_table (λ i, sh ← sget c (Some i); mret (bool_decide (shstate sh = EMPTY)));
  match r with
  | None => mret None
  | Some i => initialize_share c (Some i) ;; mret (Some i)
  end.

Definition dealloc_th_share (c : nat) (q : ptr) : M kst unit :=
  sset c q (set_sz 0) ;;
  sset c q (set_parent None) ;;
  sset c q (set_memory_limit 0) ;;
  sset c q (set_th_family_hd None) ;;
  sset c q (set_th_last None) ;;
  sset c q (set_stacksize 0) ;;
  sset c q (set_shstate EMPTY).

(** The first process of the table with this pid. *)
Definition find_pid (n : Z) : M kst (option nat) :=
  find_first proc_table (λ i, pr ← pget (Some i); mret (pid pr =? n)).

(** The comparison is unsigned: [sz] is a [uint]. *)
Definition setmemorylimit (c : nat) (n limit : Z) : M kst Z :=
  r ← find_pid n;
  match r with
  | None => mret (-1)
  | Some p =>
      pr ← pget (Some p);
      sh ← sget c (shared_info pr);
      if sz sh >? u32 limit then mret (-1)
      else
        sset c (shared_info pr) (set_memory_limit limit) ;;
        mret 0
  end.

(** ** Creating processes *)

Definition initialize_proc (p : ptr) : M kst unit :=
  pset p (set_state EMBRYO) ;;
  n ← gets nextpid;
  pset p (set_pid n) ;;
  modify (set_nextpid (i32 (n + 1))) ;;
  t ← gets nexttid;
  pset p (set_tid t) ;;
  modify (set_nexttid (i32 (t + 1))) ;;
  pset p (set_th_next None) ;;
  pset p (set_th_main p).

Definition allocproc (c : nat) : M kst ptr :=
  onm (acquire c ptable_lock) ;;
  r ← find_first proc_table (λ i, pr ← pget (Some i); mret (bool_decide (state pr = UNUSED)));
  match r with
  | None => onm (release c ptable_lock) ;; mret None
  | Some p =>
      initialize_proc (Some p) ;;
      onm (release c ptable_lock) ;;
      k ← one kalloc;
      pset (Some p) (set_kstack k) ;;
      if k =? 0 then
        pset (Some p) (set_state UNUSED) ;;
        mret None
      else
        pset (Some p) (set_context T_forkret) ;;
        mret (Some p)
  end.

(** A new family of one process: [alloc_th_share] and the assignments that
    follow it in [userinit] and [fork]. *)
Definition new_family (c : nat) (p : ptr) : M kst unit :=
  q ← alloc_th_share c;
  pset p (set_shared_info q) ;;
  if ptr_eqb q None then panic "No more thread share table entry. It's not possible"
  else
    pr ← pget p;
    sset c (shared_info pr) (set_shstate USING) ;;
    pr ← pget p;
    sset c (shared_info pr) (set_th_family_hd p) ;;
    pr ← pget p;
    sset c (shared_info pr) (set_th_last p).

Definition userinit (c : nat) : M kst unit :=
  p ← allocproc c;
  new_family c p ;;
  modify (set_initproc p) ;;
  d ← one setupkvm;
  pset p (set_pgdir d) ;;
  if d =? 0 then panic "userinit: out of memory?"
  else
    one (inituvm d) ;;
    pr ← pget p;
    sset c (shared_info pr) (set_sz PGSIZE) ;;
    pset p (set_tf tf_userinit) ;;
    pset p (set_name (name_copy "initcode")) ;;
    ip ← one namei_root;
    pset p (set_cwd ip) ;;
    onm (acquire c ptable_lock) ;;
    pset p (set_state RUNNABLE) ;;
    onm (release c ptable_lock).

(** [switchuvm] of vm.c: its checks. *)
Definition switchuvm (c : nat) (p : ptr) : M kst unit :=
  if ptr_eqb p None then panic "switchuvm: no process"
  else
    pr ← pget p;
    if kstack pr =? 0 then panic "switchuvm: no kstack"
    else if pgdir pr =? 0 then panic "switchuvm: no pgdir"
    else onm (pushcli c) ;; onm (popcli c).

Definition growproc (c : nat) (n : Z) : M kst Z :=
  curproc ← onm (myproc c);
  pr ← pget curproc;
  sh ← sget c (shared_info pr);
  let limit := memory_limit sh in
  if negb (limit =? 0) && (u32 (sz sh + n) >? u32 limit) then mret (-1)
  else
    let fin v :=
      sset c (shared_info pr) (set_sz v) ;;
      switchuvm c curproc ;;
      mret 0 in
    if n >? 0 then
      v ← one (allocuvm (pgdir pr) (sz sh) (u32 (sz sh + n)));
      if v =? 0 then mret (-1) else fin v
    else if n <? 0 then
      v ← one (deallocuvm (pgdir pr) (sz sh) (u32 (sz sh + n)));
      if v =? 0 then mret (-1) else fin v
    else fin (sz sh).

Definition dup_files (c : nat) (curproc np : ptr) : M kst unit :=
  for_each (seq 0 NOFILE) (λ i,
    cur ← pget curproc;
    sh ← sget c (shared_info cur);
    f ← deref (λ _, ofile sh !! i);
    when (negb (f =? 0))
      (g ← one (filedup f);
       pr ← pget np;
       sset c (shared_info pr) (λ sh, set_ofile (<[i := g]> (ofile sh)) sh))).

Definition fork (c : nat) : M kst Z :=
  curproc ← onm (myproc c);
  np ← allocproc c;
  if ptr_eqb np None then mret (-1)
  else
    cur ← pget curproc;
    sh ← sget c (shared_info cur);
    d ← one (copyuvm (pgdir cur) (sz sh));
    pset np (set_pgdir d) ;;
    if d =? 0 then
      pr ← pget np;
      one (kfree (kstack pr)) ;;
      pset np (set_kstack 0) ;;
      pset np (set_state UNUSED) ;;
      mret (-1)
    else
      new_family c np ;;
      cur ← pget curproc;
      sh ← sget c (shared_info cur);
      pr ← pget np;
      sset c (shared_info pr) (set_sz (sz sh)) ;;
      sset c (shared_info pr) (set_parent curproc) ;;
      pset np (set_tf (tf cur)) ;;
      pr ← pget np;
      pset np (set_tf (tf_set_eax 0 (tf pr))) ;;
      dup_files c curproc np ;;
      cur ← pget curproc;
      ip ← one (idup (cwd cur));
      pset np (set_cwd ip) ;;
      cur ← pget curproc;
      pset np (set_name (name_copy (name cur))) ;;
      pr ← pget np;
      onm (acquire c ptable_lock) ;;
      pset np (set_state RUNNABLE) ;;
      onm (release c ptable_lock) ;;
      mret (pid pr).

(** ** Sleeping and switching *)

Definition wakeup1 (ch : chan) : M kst unit :=
  for_each proc_table (λ p,
    pr ← pget (Some p);
    when (bool_decide (state pr = SLEEPING) && bool_decide (pchan pr = ch))
      (pset (Some p) (set_state RUNNABLE))).

Definition wakeup (c : nat) (ch : chan) : M kst unit :=
  onm (acquire c ptable_lock) ;;
  wakeup1 ch ;;
  onm (release c ptable_lock).

(** Enter the scheduler; [k] is where the process resumes.  The last line is
    the scheduler's own, after its [swtch]: the lock stays held and the
    scheduler goes on with the next process of the table ([scheduler_next]). *)
Definition sched (c : nat) (k : bool → kcont2) : M kst unit :=
  p ← onm (myproc c);
  h ← onm (holding c ptable_lock);
  if negb h then panic "sched ptable.lock" else
  n ← onm (cpu_ncli c);
  if negb (n =? 1) then panic "sched locks" else
  pr ← pget p;
  if bool_decide (state pr = RUNNING) then panic "sched running" else
  f ← onm (readeflags_if c);
  if (f : bool) then panic "sched interruptible" else
  i ← onm (cpu_intena c);
  pset p (set_context (k i)) ;;
  onm (modify (set_cproc c None)).

Definition yield (c : nat) : M kst unit :=
  onm (acquire c ptable_lock) ;;
  p ← onm (myproc c);
  pset p (set_state RUNNABLE) ;;
  sched c T_yield.

Definition sleep (c : nat) (ch : chan) (lk : lockid) (k : bool → kcont2) : M kst unit :=
  p ← onm (myproc c);
  if ptr_eqb p None then panic "sleep" else
  when (negb (bool_decide (lk = ptable_lock)))
    (onm (acquire c ptable_lock) ;;
     onm (release c lk)) ;;
  pset p (set_pchan ch) ;;
  pset p (set_state SLEEPING) ;;
  sched c k.

Definition sleep_return (c : nat) (p : ptr) (lk : lockid) : M kst unit :=
  pset p (set_pchan ch_null) ;;
  when (negb (bool_decide (lk = ptable_lock)))
    (onm (release c ptable_lock) ;;
     onm (acquire c lk)).

(** ** Exit, wait, kill *)

(** [for(p = hd; p != 0; p = p->th_next) body]; a family has at most [NPROC]
    members, so the fuel suffices for every acyclic list. *)
Fixpoint for_family (fuel : nat) (p : ptr) (body : nat → M kst unit) : M kst unit :=
  match fuel with
  | O => diverge
  | S fuel =>
      match p with
      | None => mret tt
      | Some i =>
          body i ;;
          pr ← pget p;
          for_family fuel (th_next pr) body
      end
  end.
Definition scan_fuel : nat := S NPROC.

(** Closing all open files of the family of [curproc]. *)
Definition close_files (c : nat) (curproc : ptr) : M kst unit :=
  for_each (seq 0 NOFILE) (λ fd,
    pr ← pget curproc;
    sh ← sget c (shared_info pr);
    f ← deref (λ _, ofile sh !! fd);
    when (negb (f =? 0))
      (one (fileclose f) ;;
       sset c (shared_info pr) (λ sh, set_ofile (<[fd := 0]> (ofile sh)) sh))).

Definition exit (c : nat) : M kst unit :=
  curproc ← onm (myproc c);
  ini ← gets initproc;
  if ptr_eqb curproc ini then panic "init exiting" else
  close_files c curproc ;;
  one begin_op ;;
  pr ← pget curproc;
  one (iput (cwd pr)) ;;
  one end_op ;;
  pset curproc (set_cwd 0) ;;
  onm (acquire c ptable_lock) ;;
  pr ← pget curproc;
  sh ← sget c (shared_info pr);
  wakeup1 (chan_of (parent sh)) ;;
  for_each proc_table (λ p,
    pr ← pget (Some p);
    sh ← sget c (shared_info pr);
    when (ptr_eqb (parent sh) curproc)
      (ini ← gets initproc;
       sset c (shared_info pr) (set_parent ini) ;;
       when (bool_decide (state pr = ZOMBIE)) (wakeup1 (chan_of ini)))) ;;
  pr ← pget curproc;
  sh ← sget c (shared_info pr);
  for_family scan_fuel (th_family_hd sh) (λ p, pset (Some p) (set_state ZOMBIE)) ;;
  sched c T_exit.

(** Clearing a zombie's slot: the assignments [wait] and [thread_join] share. *)
Definition clear_slot (p : ptr) : M kst unit :=
  pr ← pget p;
  one (kfree (kstack pr)) ;;
  pset p (set_kstack 0) ;;
  pset p (set_pid 0) ;;
  pset p (set_name "") ;;
  pset p (set_killed 0) ;;
  pset p (set_state UNUSED) ;;
  pset p (set_tid 0) ;;
  pset p (set_th_next None) ;;
  pset p (set_retval 0) ;;
  pset p (set_th_main None).

(** The local variables of [wait]'s scan. *)
Record wait_vars := mkWv { havekids : bool; zombiekids : Z; wpid : Z; wshare : ptr }.

Definition wait_body (c : nat) (curproc : ptr) (p : nat) (v : wait_vars) : M kst wait_vars :=
  pr ← pget (Some p);
  sh ← sget c (shared_info pr);
  if negb (ptr_eqb (parent sh) curproc) then mret v
  else if bool_decide (state pr = ZOMBIE) then
    clear_slot (Some p) ;;
    pr' ← pget (Some p);
    when (ptr_eqb (th_main pr') (Some p))
      (onm (release c ptable_lock) ;;
       close_files c curproc ;;
       onm (acquire c ptable_lock) ;;
       one (freevm (pgdir pr'))) ;;
    mret (mkWv true (zombiekids v + 1) (pid pr) (shared_info pr))
  else mret (mkWv true (zombiekids v) (wpid v) (wshare v)).

Fixpoint wait_scan (c : nat) (ps : list nat) (curproc : ptr) (v : wait_vars) : M kst wait_vars :=
  match ps with
  | [] => mret v
  | p :: ps => v ← wait_body c curproc p v; wait_scan c ps curproc v
  end.

(** One turn of [wait]'s loop, with [ptable.lock] held: [Some v] when [wait]
    returns [v], [None] when it went to sleep. *)
Definition wait_turn (c : nat) (curproc : ptr) : M kst (option Z) :=
  v ← wait_scan c proc_table curproc (mkWv false 0 0 None);
  if negb (zombiekids v =? 0) then
    dealloc_th_share c (wshare v) ;;
    onm (release c ptable_lock) ;;
    mret (Some (wpid v))
  else
    cur ← pget curproc;
    if negb (havekids v) || negb (killed cur =? 0) then
      onm (release c ptable_lock) ;; mret (Some (-1))
    else
      sleep c (chan_of curproc) ptable_lock T_wait ;; mret None.

Definition wait (c : nat) : M kst (option Z) :=
  curproc ← onm (myproc c);
  onm (acquire c ptable_lock) ;;
  wait_turn c curproc.

Definition kill (c : nat) (n : Z) : M kst Z :=
  onm (acquire c ptable_lock) ;;
  r ← find_pid n;
  match r with
  | None => onm (release c ptable_lock) ;; mret (-1)
  | Some p =>
      pset (Some p) (set_killed 1) ;;
      pr ← pget (Some p);
      sh ← sget c (shared_info pr);
      for_family scan_fuel (th_family_hd sh) (λ tmp,
        pset (Some tmp) (set_killed 1) ;;
        pr ← pget (Some tmp);
        when (bool_decide (state pr = SLEEPING)) (pset (Some tmp) (set_state RUNNABLE))) ;;
      onm (release c ptable_lock) ;;
      mret 0
  end.

(** ** Threads *)

(** The loop of [delete_thread] that looks for the predecessor: [th_tmp] is
    the last one passed before [th_target] or the end of the list. *)
Fixpoint find_pred (fuel : nat) (p th_tmp th_target : ptr) : M kst ptr :=
  match fuel with
  | O => diverge
  | S fuel =>
      if ptr_eqb p None then mret th_tmp
      else if ptr_eqb p th_target then mret th_tmp
      else pr ← pget p; find_pred fuel (th_next pr) p th_target
  end.

Definition delete_thread (c : nat) (th_target : ptr) : M kst unit :=
  pr ← pget th_target;
  sh ← sget c (shared_info pr);
  if ptr_eqb (th_family_hd sh) th_target then
    sset c (shared_info pr) (set_th_family_hd (th_next pr))
  else
    th_tmp ← find_pred scan_fuel (th_family_hd sh) (th_family_hd sh) th_target;
    pset th_tmp (set_th_next (th_next pr)) ;;
    tr ← pget th_tmp;
    when (ptr_eqb (th_next tr) None)
      (sset c (shared_info tr) (set_th_last th_tmp)).

(** [PGROUNDUP] of mmu.h *)
Definition PGROUNDUP (z : Z) : Z := Z.land (u32 (z + PGSIZE - 1)) (u32 (Z.lnot (PGSIZE - 1))).

Definition thread_create (c : nat) (thread start_routine arg : Z) : M kst Z :=
  curproc ← onm (myproc c);
  cur ← pget curproc;
  sh ← sget c (shared_info cur);
  let mlimit := memory_limit sh in
  if negb (mlimit =? 0) && (u32 mlimit <? u32 (sz sh + 2 * PGSIZE)) then mret (-1)
  else
    nthread ← allocproc c;
    if ptr_eqb nthread None then mret (-1)
    else
      onm (acquire c ptable_lock) ;;
      cur ← pget curproc;
      pset nthread (set_pgdir (pgdir cur)) ;;
      pset nthread (set_pid (pid cur)) ;;
      pset nthread (set_name (name_copy (name cur))) ;;
      ip ← one (idup (cwd cur));
      pset nthread (set_cwd ip) ;;
      pset nthread (set_shared_info (shared_info cur)) ;;
      pset nthread (set_th_next None) ;;
      pset nthread (set_th_main curproc) ;;
      nt ← pget nthread;
      sh ← sget c (shared_info nt);
      let s0 := PGROUNDUP (sz sh) in
      v ← one (allocuvm (pgdir nt) s0 (u32 (s0 + 2 * PGSIZE)));
      if v =? 0 then
        one (kfree (kstack nt)) ;;
        pset nthread (set_kstack 0) ;;
        pset nthread (set_state UNUSED) ;;
        onm (release c ptable_lock) ;;
        mret (-1)
      else
        one (clearpteu (pgdir nt) (u32 (v - 2 * PGSIZE))) ;;
        sh ← sget c (shared_info nt);
        (if ptr_eqb (th_family_hd sh) None then
           sset c (shared_info nt) (set_th_family_hd nthread) ;;
           sset c (shared_info nt) (set_th_last nthread)
         else
           pset (th_last sh) (set_th_next nthread) ;;
           sset c (shared_info nt) (set_th_last nthread)) ;;
        one (store_user (pgdir cur) (u32 (v - 4)) arg) ;;
        one (store_user (pgdir cur) (u32 (v - 8)) (2 ^ 32 - 1)) ;;
        sset c (shared_info nt) (set_sz v) ;;
        cur ← pget curproc;
        pset nthread (set_tf (tf cur)) ;;
        nt ← pget nthread;
        pset nthread (set_tf (tf_set_start start_routine (u32 (v - 8)) (tf nt))) ;;
        one (store_user (pgdir cur) thread (tid nt)) ;;
        pset nthread (set_state RUNNABLE) ;;
        onm (release c ptable_lock) ;;
        mret 0.

(** [false]: the calling thread is the main one and goes on. *)
Definition thread_exit (c : nat) (rv : Z) : M kst bool :=
  cthread ← onm (myproc c);
  ct ← pget cthread;
  if ptr_eqb (th_main ct) cthread then mret false
  else
    one begin_op ;;
    one (iput (cwd ct)) ;;
    one end_op ;;
    pset cthread (set_cwd 0) ;;
    onm (acquire c ptable_lock) ;;
    pset cthread (set_retval rv) ;;
    ct ← pget cthread;
    wakeup1 (chan_of (th_main ct)) ;;
    pset cthread (set_state ZOMBIE) ;;
    sched c T_exit ;;
    mret true.

(** The scan of [thread_join]: [true] when it joined the thread. *)
Fixpoint join_scan (c : nat) (ps : list nat) (cthread : ptr) (thread rv : Z) : M kst bool :=
  match ps with
  | [] => mret false
  | p :: ps =>
      pr ← pget (Some p);
      if negb (tid pr =? thread) then join_scan c ps cthread thread rv
      else if bool_decide (state pr = ZOMBIE) then
        ct ← pget cthread;
        one (store_user (pgdir ct) rv (retval pr)) ;;
        clear_slot (Some p) ;;
        delete_thread c (Some p) ;;
        mret true
      else join_scan c ps cthread thread rv
  end.

Definition join_turn (c : nat) (cthread : ptr) (thread rv : Z) : M kst (option Z) :=
  j ← join_scan c proc_table cthread thread rv;
  if (j : bool) then onm (release c ptable_lock) ;; mret (Some 0)
  else
    ct ← pget cthread;
    if negb (killed ct =? 0) then onm (release c ptable_lock) ;; mret (Some (-1))
    else sleep c (chan_of (th_main ct)) ptable_lock (T_join thread rv) ;; mret None.

Definition thread_join (c : nat) (thread rv : Z) : M kst (option Z) :=
  cthread ← onm (myproc c);
  onm (acquire c ptable_lock) ;;
  join_turn c cthread thread rv.

(** Before [exec] replaces the program. *)
Definition kill_threads (c : nat) (curproc : ptr) : M kst Z :=
  cur ← pget curproc;
  sh ← sget c (shared_info cur);
  for_family scan_fuel (th_family_hd sh)
    (λ p, when (negb (ptr_eqb (Some p) curproc)) (pset (Some p) (set_state ZOMBIE))) ;;
  sset c (shared_info cur) (set_th_last curproc) ;;
  sset c (shared_info cur) (set_th_family_hd curproc) ;;
  pset curproc (set_th_main curproc) ;;
  pset curproc (set_th_next None) ;;
  sset c (shared_info cur) (set_memory_limit 0) ;;
  mret 0.

(** ** The scheduler *)

Definition forkret (c : nat) : M kst unit :=
  onm (release c ptable_lock) ;;
  f ← gets first;
  when f (modify (set_first false) ;; one iinit ;; one initlog).

(** What the process does when it is switched to.  The result is that of
    [wait] or [thread_join], if the process was in one of them. *)
Definition resume (c : nat) (p : ptr) : M kst (option Z) :=
  pr ← pget p;
  match context pr with
  | T_forkret => forkret c ;; mret None
  | T_yield i => onm (set_intena c i) ;; onm (release c ptable_lock) ;; mret None
  | T_sleep lk i => onm (set_intena c i) ;; sleep_return c p lk ;; mret None
  | T_wait i => onm (set_intena c i) ;; sleep_return c p ptable_lock ;; wait_turn c p
  | T_exit i => onm (set_intena c i) ;; panic "zombie exit"
  | T_join th rv i =>
      onm (set_intena c i) ;; sleep_return c p ptable_lock ;; join_turn c p th rv
  end.

(** The loop over the table from [ps] on, with [ptable.lock] held: up to and
    including the [swtch] to the first runnable process, or to the end. *)
Definition scheduler_loop (c : nat) (ps : list nat) : M kst (option Z) :=
  r ← find_first ps (λ p, pr ← pget (Some p); mret (bool_decide (state pr = RUNNABLE)));
  match r with
  | None => onm (release c ptable_lock) ;; mret None
  | Some p =>
      modify (λ s, set_spos (<[c := p]> (spos s)) s) ;;
      onm (modify (set_cproc c (Some p))) ;;
      switchuvm c (Some p) ;;
      pset (Some p) (set_state RUNNING) ;;
      resume c (Some p)
  end.

(** A new pass of the scheduler, and the rest of a pass after a process came
    back. *)
Definition scheduler_pass (c : nat) : M kst (option Z) :=
  onm (sti c) ;;
  onm (acquire c ptable_lock) ;;
  scheduler_loop c proc_table.
Definition scheduler_next (c : nat) : M kst (option Z) :=
  p ← deref (λ s, spos s !! c);
  scheduler_loop c (drop (S p) proc_table).
End State.
