(* ===== verification/ThreadsFamily.v ===== *)
(** * Lemmas on the LWP kernel: symbolic execution and family lists

    States are kept in the form [st ps shs m e s]: process table [ps], shared
    informations [shs], machine [m], environment [e], the rest as in [s]. *)

From S2P Require Export Threads.
Local Open Scope Z_scope.

Section Lemmas.
Context {KE : KernelEnv}.

Definition st (ps : gmap nat proc) (shs : gmap nat share) (m : mach) (e : env) (s : kst) : kst :=
  mkKst ps shs (low s) (initproc s) (nextpid s) (nexttid s) (first s) (spos s) m e.

Lemma st_id s : s = st (procs s) (shares s) (kmach s) (kenv s) s.
Proof. by destruct s. Qed.

Section Rules.
Context (t : bool) (ps : gmap nat proc) (shs : gmap nat share) (m : mach) (e : env) (s : kst).

Lemma tw_pget i pr (Q : proc → kst → Prop) :
  ps !! i = Some pr → Q pr (st ps shs m e s) → wpg t (pget (Some i)) Q (st ps shs m e s).
Proof. intros H HQ. eapply wpg_deref; [exact H|exact HQ]. Qed.

Lemma tw_pset i f pr (Q : unit → kst → Prop) :
  ps !! i = Some pr → Q tt (st (<[i := f pr]> ps) shs m e s) →
  wpg t (pset (Some i) f) Q (st ps shs m e s).
Proof. intros H HQ. apply wpg_bind, (tw_pget _ pr); [done|]. by apply wpg_modify. Qed.

Lemma wpg_sget c q sh (Q : share → kst → Prop) :
  shs !! q = Some sh → Q sh (st ps shs m e s) → wpg t (sget c (Some q)) Q (st ps shs m e s).
Proof. intros H HQ. eapply wpg_deref; [exact H|exact HQ]. Qed.

Lemma wpg_sset c q f sh (Q : unit → kst → Prop) :
  shs !! q = Some sh → Q tt (st ps (<[q := f sh]> shs) m e s) →
  wpg t (sset c (Some q) f) Q (st ps shs m e s).
Proof. intros H HQ. apply wpg_bind, (wpg_sget _ _ sh); [done|]. by apply wpg_modify. Qed.

Lemma wpg_one {A} (f : M env A) a e' (Q : A → kst → Prop) :
  f e = Ok (a, e') → Q a (st ps shs m e' s) → wpg t (one f) Q (st ps shs m e s).
Proof. intros H HQ. apply wpg_zoom. by eapply ok_wpg. Qed.

Lemma wpg_onm {A} (f : M mach A) a m' (Q : A → kst → Prop) :
  f m = Ok (a, m') → Q a (st ps shs m' e s) → wpg t (onm f) Q (st ps shs m e s).
Proof. intros H HQ. apply wpg_zoom. by eapply ok_wpg. Qed.

Lemma wpg_acquire c o (Q : unit → kst → Prop) :
  idle m → cprocs m !! c = Some o →
  (∀ m', in_crit c ptable_lock m' → cprocs m' = cprocs m → Q tt (st ps shs m' e s)) →
  wpg t (onm (acquire c ptable_lock)) Q (st ps shs m e s).
Proof.
  intros Hi Hc HQ. destruct (acquire_idle _ ptable_lock _ _ Hc Hi) as (m' & H & ? & ?).
  eapply wpg_onm; eauto.
Qed.

Lemma wpg_release c o (Q : unit → kst → Prop) :
  in_crit c ptable_lock m → cprocs m !! c = Some o →
  (∀ m', idle m' → cprocs m' = cprocs m → Q tt (st ps shs m' e s)) →
  wpg t (onm (release c ptable_lock)) Q (st ps shs m e s).
Proof.
  intros Hi Hc HQ. destruct (release_crit _ ptable_lock _ Hi) as (m' & H & ? & ?).
  eapply wpg_onm; eauto.
Qed.

Lemma wpg_myproc_idle c o (Q : ptr → kst → Prop) :
  idle m → cprocs m !! c = Some o →
  (∀ m', idle m' → cprocs m' = cprocs m → Q o (st ps shs m' e s)) →
  wpg t (onm (myproc c)) Q (st ps shs m e s).
Proof.
  intros Hi Hc HQ. destruct (myproc_idle _ _ _ Hc Hi) as (m' & H & ? & ? & _).
  eapply wpg_onm; eauto.
Qed.
End Rules.

(** ** The first slot that satisfies a condition *)

Definition tests (P : proc → bool) (ps : gmap nat proc) (i : nat) : bool :=
  match ps !! i with Some p => P p | None => false end.

(** [first_slot P ps l]: the first slot of the table satisfying [P]. *)
Fixpoint first_slot (P : proc → bool) (ps : gmap nat proc) (l : list nat) : option nat :=
  match l with
  | [] => None
  | i :: l => if tests P ps i then Some i else first_slot P ps l
  end.

Lemma first_slot_Some P ps l i :
  first_slot P ps l = Some i → i ∈ l ∧ ∃ p, ps !! i = Some p ∧ P p = true.
Proof.
  induction l as [|j l IH]; cbn; [done|]. destruct (tests P ps j) eqn:E.
  - intros [= ->]. split; [by left|]. unfold tests in E. destruct (ps !! i); [eauto|done].
  - intros [? ?]%IH. split; [by right|done].
Qed.

Definition full (ps : gmap nat proc) : Prop := ∀ i, i ∈ proc_table → is_Some (ps !! i).

Lemma wpg_find_slot t (P : proc → bool) ps shs m e s l (Q : option nat → kst → Prop) :
  (∀ i, i ∈ l → is_Some (ps !! i)) →
  Q (first_slot P ps l) (st ps shs m e s) →
  wpg t (find_first l (λ i, pr ← pget (Some i); mret (P pr))) Q (st ps shs m e s).
Proof.
  induction l as [|i l IH]; intros Hl HQ; cbn [find_first first_slot] in *; [exact HQ|].
  destruct (Hl i) as [p Hp]; [by left|].
  apply wpg_assoc'. apply wpg_bind, (tw_pget _ _ _ _ _ _ _ p); [done|]. apply wpg_bind, wpg_ret.
  unfold tests in HQ. rewrite Hp in HQ. destruct (P p); [exact HQ|].
  apply IH; [|done]. intros j Hj. apply Hl. by right.
Qed.

(** ** Family lists *)

(** The processes of [l] are chained along [th_next] from [h] to [e]. *)
Fixpoint seg (ps : gmap nat proc) (h : ptr) (l : list nat) (e : ptr) : Prop :=
  match l with
  | [] => h = e
  | x :: l => h = Some x ∧ ∃ p, ps !! x = Some p ∧ seg ps (th_next p) l e
  end.

Lemma seg_app ps h l1 l2 e : seg ps h (l1 ++ l2) e ↔ ∃ x, seg ps h l1 x ∧ seg ps x l2 e.
Proof.
  revert h. induction l1 as [|y l1 IH]; intros h; cbn; [naive_solver|].
  setoid_rewrite IH. naive_solver.
Qed.

Lemma seg_frame ps ps' h l e :
  (∀ x p, x ∈ l → ps !! x = Some p → ∃ p', ps' !! x = Some p' ∧ th_next p' = th_next p) →
  seg ps h l e → seg ps' h l e.
Proof.
  revert h. induction l as [|x l IH]; intros h Hf; cbn; [done|].
  intros (-> & p & Hp & Hs). split; [done|].
  destruct (Hf x p) as (p' & Hp' & E); [by left|done|]. exists p'. split; [done|].
  rewrite E. apply IH; [|done]. intros y q Hy. apply Hf. by right.
Qed.

Lemma seg_insert_ne ps h l e i p : i ∉ l → seg ps h l e → seg (<[i := p]> ps) h l e.
Proof.
  intros Hi. apply seg_frame. intros x q Hx Hq. exists q.
  rewrite lookup_insert_ne by (intros ->; done). done.
Qed.

Lemma seg_frame_insert ps h l e i p p' :
  ps !! i = Some p → th_next p' = th_next p → seg ps h l e → seg (<[i := p']> ps) h l e.
Proof.
  intros Hp E. apply seg_frame. intros x q _ Hq. destruct (decide (x = i)) as [->|].
  - rewrite lookup_insert_eq. simplify_eq. eauto.
  - rewrite lookup_insert_ne by done. eauto.
Qed.

Lemma seg_elem ps h l e x : seg ps h l e → x ∈ l → is_Some (ps !! x).
Proof.
  revert h. induction l as [|y l IH]; intros h; cbn; [by intros _ ?%not_elem_of_nil|].
  intros (_ & p & Hp & Hs) [->|Hx]%elem_of_cons; [eauto|by eapply IH].
Qed.

(** Apply [f] to the processes of [l]. *)
Definition alters (f : proc → proc) (l : list nat) (ps : gmap nat proc) : gmap nat proc :=
  map_imap (λ x p, Some (if decide (x ∈ l) then f p else p)) ps.

Lemma lookup_alters f l ps x :
  alters f l ps !! x = (λ p, if decide (x ∈ l) then f p else p) <$> ps !! x.
Proof. unfold alters. rewrite map_lookup_imap. by destruct (ps !! x). Qed.

Lemma alters_nil f ps : alters f [] ps = ps.
Proof.
  apply map_eq. intros x. rewrite lookup_alters. destruct (ps !! x); [|done]; cbn.
  by rewrite decide_False by apply not_elem_of_nil.
Qed.

Lemma alters_cons f x l ps p :
  ps !! x = Some p → x ∉ l → alters f l (<[x := f p]> ps) = alters f (x :: l) ps.
Proof.
  intros Hp Hx. apply map_eq. intros y. rewrite !lookup_alters.
  destruct (decide (y = x)) as [->|].
  - rewrite lookup_insert_eq, Hp; cbn. by rewrite decide_False, decide_True by set_solver.
  - rewrite lookup_insert_ne by done. destruct (ps !! y); [|done]; cbn. f_equal.
    apply decide_ext. set_solver.
Qed.

(** A loop over a family whose body changes the visited process by [f]. *)
Lemma wpg_for_family t (body : nat → M kst unit) (f : proc → proc) shs m e s :
  (∀ p, th_next (f p) = th_next p) →
  (∀ i p ps (Q : unit → kst → Prop), ps !! i = Some p → Q tt (st (<[i := f p]> ps) shs m e s) →
     wpg t (body i) Q (st ps shs m e s)) →
  ∀ l fuel ps h (Q : unit → kst → Prop),
    seg ps h l None → NoDup l → (length l < fuel)%nat →
    Q tt (st (alters f l ps) shs m e s) →
    wpg t (for_family fuel h body) Q (st ps shs m e s).
Proof.
  intros Hn Hb. induction l as [|x l IH]; intros fuel ps h Q Hs Hd Hf HQ;
    (destruct fuel as [|fuel]; [cbn in Hf; lia|]); cbn [for_family seg] in *.
  - subst h. rewrite alters_nil in HQ. exact HQ.
  - destruct Hs as (-> & p & Hp & Hs). apply NoDup_cons in Hd as [Hx Hd].
    apply wpg_bind, (Hb x p); [done|].
    apply wpg_bind, (tw_pget _ _ _ _ _ _ _ (f p)); [by apply lookup_insert_eq|].
    apply IH; [|done|cbn in Hf; lia|by erewrite alters_cons].
    rewrite Hn. by apply seg_insert_ne.
Qed.

(** [family ps shs q l]: the family of shared information [q] is [l]. *)
Record family (ps : gmap nat proc) (shs : gmap nat share) (q : nat) (l : list nat) : Prop := {
  fam_share : ∃ sh, shs !! q = Some sh ∧ seg ps (th_family_hd sh) l None ∧ th_last sh = last l;
  fam_nodup : NoDup l;
  fam_length : (length l ≤ NPROC)%nat;
  fam_info : ∀ x p, x ∈ l → ps !! x = Some p → shared_info p = Some q ∧ state p ≠ UNUSED
}.

Lemma alters_family f l0 ps shs q l :
  (∀ p, th_next (f p) = th_next p ∧ shared_info (f p) = shared_info p ∧
        (state p ≠ UNUSED → state (f p) ≠ UNUSED)) →
  family ps shs q l → family (alters f l0 ps) shs q l.
Proof.
  intros Hf [(sh & Hsh & Hseg & Hl) Hd Hlen Hi]. split; [exists sh|done..|].
  - split_and!; [done| |done]. eapply seg_frame; [|done]. intros x p Hx Hp.
    rewrite lookup_alters, Hp; cbn. eexists; split; [done|]. case_decide; [apply Hf|done].
  - intros x p' Hx. rewrite lookup_alters. intros (p & Hp & ->)%fmap_Some.
    destruct (Hi _ _ Hx Hp). destruct (Hf p) as (_ & E & ?). case_decide; [rewrite E|]; auto.
Qed.

Lemma alters_one (f : proc → proc) z ps zp : ps !! z = Some zp → alters f [z] ps = <[z := f zp]> ps.
Proof.
  intros Hz. rewrite <- (alters_cons f z [] ps zp Hz) by set_solver. apply alters_nil.
Qed.

Lemma family_seg ps shs q l sh :
  family ps shs q l → shs !! q = Some sh → seg ps (th_family_hd sh) l None ∧ th_last sh = last l.
Proof. intros [(sh' & Hsh & ?) _ _ _] ?. by simplify_eq. Qed.

(** Linking the process [np] of slot [i] behind the last member [z]. *)
Lemma family_snoc ps shs q l0 z zp i sh v np :
  family ps shs q (l0 ++ [z]) → shs !! q = Some sh → ps !! z = Some zp →
  i ∉ l0 ++ [z] → (length (l0 ++ [z]) < NPROC)%nat →
  th_next np = None → shared_info np = Some q → state np ≠ UNUSED →
  family (<[i := np]> (<[z := set_th_next (Some i) zp]> ps))
    (<[q := set_sz v (set_th_last (Some i) sh)]> shs) q ((l0 ++ [z]) ++ [i]).
Proof.
  intros Hfam Hsh Hz Hi Hlen Hnn Hnq Hns.
  destruct (family_seg _ _ _ _ _ Hfam Hsh) as [(y & Hseg & -> & _)%seg_app _].
  destruct Hfam as [_ Hd _ Hinfo]. split.
  - eexists. split; [apply lookup_insert_eq|]. split; [|by rewrite last_snoc].
    cbn [th_family_hd set_sz set_th_last]. apply seg_app. exists (Some i). split.
    + apply seg_insert_ne; [done|]. apply seg_app. exists (Some z). split.
      * apply seg_insert_ne; [|done]. apply NoDup_app in Hd as (_ & Hd & _). intros ?. set_solver.
      * split; [done|]. rewrite lookup_insert_eq. by eexists.
    + split; [done|]. rewrite lookup_insert_eq. by eexists.
  - apply NoDup_app. split_and!; [done|set_solver|apply NoDup_singleton].
  - rewrite length_app; cbn in *. lia.
  - intros x p Hx. destruct (decide (x = i)) as [->|Hxi]; [rewrite lookup_insert_eq; by intros [= <-]|].
    rewrite lookup_insert_ne by done. destruct (decide (x = z)) as [->|].
    + rewrite lookup_insert_eq. intros [= <-]. apply (Hinfo z zp); [set_solver|done].
    + rewrite lookup_insert_ne by done. apply Hinfo. set_solver.
Qed.

(** Ending the list at [z], the predecessor of [i], whatever slot [i] becomes. *)
Lemma family_cut ps shs q l z zp i zi' post sh :
  family ps shs q ((l ++ [z]) ++ i :: post) → shs !! q = Some sh → ps !! z = Some zp →
  family (<[z := set_th_next None zp]> (<[i := zi']> ps)) (<[q := set_th_last (Some z) sh]> shs) q (l ++ [z]).
Proof.
  intros Hfam Hsh Hz.
  destruct (family_seg _ _ _ _ _ Hfam Hsh) as [(y & (w & Hseg & -> & _)%seg_app & _)%seg_app _].
  destruct Hfam as [_ (Hd1 & Hd2 & _)%NoDup_app Hlen Hinfo]. split.
  - eexists. split; [apply lookup_insert_eq|]. split; [|by rewrite last_snoc].
    cbn [th_family_hd set_th_last]. apply seg_app. exists (Some z). split.
    + apply NoDup_app in Hd1 as (_ & Hd1 & _).
      apply seg_insert_ne; [|apply seg_insert_ne; [|done]]; intros ?; set_solver.
    + split; [done|]. rewrite lookup_insert_eq. by eexists.
  - done.
  - rewrite !length_app in *; cbn in *. lia.
  - intros x p Hx. destruct (decide (x = z)) as [->|].
    + rewrite lookup_insert_eq. intros [= <-]. apply (Hinfo z zp); [set_solver|done].
    + rewrite lookup_insert_ne by done. rewrite lookup_insert_ne by set_solver. apply Hinfo. set_solver.
Qed.

(** A test of [family]. *)
Fixpoint segb (ps : gmap nat proc) (h : ptr) (l : list nat) : bool :=
  match l with
  | [] => bool_decide (h = None)
  | x :: l => bool_decide (h = Some x) &&
      match ps !! x with Some p => segb ps (th_next p) l | None => false end
  end.
Definition familyb (ps : gmap nat proc) (shs : gmap nat share) (q : nat) (l : list nat) : bool :=
  match shs !! q with
  | Some sh => segb ps (th_family_hd sh) l && bool_decide (th_last sh = last l)
  | None => false
  end && bool_decide (NoDup l) && bool_decide (length l ≤ NPROC)%nat &&
  forallb (λ x, match ps !! x with
                | Some p => bool_decide (shared_info p = Some q) && negb (bool_decide (state p = UNUSED))
                | None => true
                end) l.

Lemma segb_sound ps h l : segb ps h l = true → seg ps h l None.
Proof.
  revert h. induction l as [|x l IH]; intros h; cbn; [apply bool_decide_eq_true|].
  rewrite andb_true_iff, bool_decide_eq_true. intros [-> H]. split; [done|].
  destruct (ps !! x) as [p|]; [eauto|done].
Qed.

Lemma familyb_sound ps shs q l : familyb ps shs q l = true → family ps shs q l.
Proof.
  unfold familyb. destruct (shs !! q) as [sh|] eqn:Hsh; [|done].
  rewrite !andb_true_iff, !bool_decide_eq_true, forallb_forall.
  intros [[[[Hs Hl] Hd] Hlen] Hi]. split; [exists sh; eauto using segb_sound|done..|].
  intros x p Hx Hp. specialize (Hi x (proj1 (list_elem_of_In _ _) Hx)). cbv beta in Hi. rewrite Hp in Hi.
  rewrite andb_true_iff, negb_true_iff, bool_decide_eq_true, bool_decide_eq_false in Hi. done.
Qed.

Definition fullb (ps : gmap nat proc) : bool :=
  forallb (λ i, match ps !! i with Some _ => true | None => false end) proc_table.

Lemma fullb_sound ps : fullb ps = true → full ps.
Proof.
  unfold fullb, full. rewrite forallb_forall. intros H i Hi%list_elem_of_In.
  specialize (H i Hi). cbv beta in H. by destruct (ps !! i).
Qed.

(** ** Allocation of a slot *)

Definition is_unused (p : proc) : bool := bool_decide (state p = UNUSED).

(** The slot [i] after [initialize_proc] with pid [n] and tid [t]. *)
Definition embryo (i : nat) (n t : Z) (p : proc) : proc :=
  set_th_main (Some i) (set_th_next None (set_tid t (set_pid n (set_state EMBRYO p)))).

Lemma family_fresh ps shs q l i pi :
  family ps shs q l → first_slot is_unused ps proc_table = Some i → ps !! i = Some pi → i ∉ l.
Proof.
  intros [_ _ _ Hinfo] (_ & p & Hp & Hun%bool_decide_eq_true)%first_slot_Some Hpi Hil. simplify_eq.
  by destruct (Hinfo _ _ Hil Hp).
Qed.

Lemma family_snoc_inv ps shs q l x :
  family ps shs q l → x ∈ l → ∃ l0 z zp, l = l0 ++ [z] ∧ ps !! z = Some zp.
Proof.
  intros [(sh & _ & Hseg & _) _ _ _] Hx.
  destruct (exists_last (l:=l)) as (l0 & z & ->); [by intros ->; apply not_elem_of_nil in Hx|].
  destruct (seg_elem _ _ _ _ z Hseg) as [zp Hz]; [set_solver|]. eauto.
Qed.

Definition bump (s : kst) : kst := set_nexttid (i32 (nexttid s + 1)) (set_nextpid (i32 (nextpid s + 1)) s).

Lemma wpg_allocproc t c o ps shs m e s i pr k e' (Q : ptr → kst → Prop) :
  idle m → cprocs m !! c = Some o → full ps →
  first_slot is_unused ps proc_table = Some i → ps !! i = Some pr →
  kalloc e = Ok (k, e') → k ≠ 0 →
  (∀ m', idle m' → cprocs m' = cprocs m →
     Q (Some i) (st (<[i := set_context T_forkret (set_kstack k (embryo i (nextpid s) (nexttid s) pr))]> ps)
                    shs m' e' (bump s))) →
  wpg t (allocproc c) Q (st ps shs m e s).
Proof.
  intros Hi Hc Hf Hfs Hpr Hk Hk0 HQ. unfold allocproc.
  apply wpg_bind, (wpg_acquire _ _ _ _ _ _ _ _ _ Hi Hc). intros m1 Hcr Hcp.
  apply wpg_bind, (wpg_find_slot _ is_unused); [done|]. rewrite Hfs.
  apply wpg_bind. unfold initialize_proc.
  apply wpg_bind, (tw_pset _ _ _ _ _ _ _ _ pr); [done|].
  apply wpg_bind, wpg_gets.
  apply wpg_bind. eapply tw_pset; [by apply lookup_insert_eq|]. rewrite insert_insert_eq.
  apply wpg_bind, wpg_modify, wpg_bind, wpg_gets, wpg_bind.
  match goal with |- wpg _ _ ?Q0 _ => change (wpg t (pset (Some i) (set_tid (nexttid s))) Q0
     (st (<[i:=set_pid (nextpid s) (set_state EMBRYO pr)]> ps) shs m1 e (set_nextpid (i32 (nextpid s + 1)) s))) end.
  eapply tw_pset; [by apply lookup_insert_eq|]. rewrite insert_insert_eq.
  apply wpg_bind, wpg_modify, wpg_bind.
  match goal with |- wpg _ ?f ?Q0 (set_nexttid _ (st ?ps0 _ _ _ _)) =>
    change (wpg t f Q0 (st ps0 shs m1 e (bump s))) end.
  eapply tw_pset; [by apply lookup_insert_eq|]. rewrite insert_insert_eq.
  eapply tw_pset; [by apply lookup_insert_eq|]. rewrite insert_insert_eq.
  apply wpg_bind. eapply wpg_release; [done|by rewrite Hcp|]. intros m2 Hi2 Hcp2.
  apply wpg_bind, (wpg_one _ _ _ _ _ _ _ k e'); [done|].
  apply wpg_bind. eapply tw_pset; [by apply lookup_insert_eq|]. rewrite insert_insert_eq.
  destruct (Z.eqb_spec k 0); [done|].
  apply wpg_bind. eapply tw_pset; [by apply lookup_insert_eq|]. rewrite insert_insert_eq.
  apply HQ; [done|]. by rewrite Hcp2.
Qed.

(** ** Waking and switching *)

Definition wake (ch : chan) (p : proc) : proc :=
  if bool_decide (state p = SLEEPING) && bool_decide (pchan p = ch) then set_state RUNNABLE p else p.

Lemma wpg_wakeup1 t ch ps shs m e s (Q : unit → kst → Prop) :
  full ps → Q tt (st (alters (wake ch) proc_table ps) shs m e s) → wpg t (wakeup1 ch) Q (st ps shs m e s).
Proof.
  unfold wakeup1, full. assert (NoDup proc_table) as Hd by apply NoDup_seq. revert ps Hd.
  induction proc_table as [|x l IH]; intros ps Hd Hf HQ; cbn [for_each].
  - rewrite alters_nil in HQ. by apply wpg_ret.
  - apply NoDup_cons in Hd as [Hx Hd]. destruct (Hf x) as [p Hp]; [by left|].
    rewrite <- (alters_cons (wake ch) x l ps p Hp Hx) in HQ.
    assert (∀ y, y ∈ l → is_Some (<[x := wake ch p]> ps !! y)) as Hf'.
    { intros y Hy. rewrite lookup_insert_ne by set_solver. apply Hf. by right. }
    apply wpg_bind, wpg_bind, (tw_pget _ _ _ _ _ _ _ p); [done|]. unfold wake in *.
    destruct (bool_decide (state p = SLEEPING) && bool_decide (pchan p = ch)).
    + apply wpg_when_true; [done|]. apply (tw_pset _ _ _ _ _ _ _ _ p); [done|]. by apply IH.
    + apply wpg_when_false; [done|]. rewrite insert_id in HQ, Hf' by done. by apply IH.
Qed.

Lemma wpg_sched t c k i p ps shs m e s (Q : unit → kst → Prop) :
  in_crit c ptable_lock m → cprocs m !! c = Some (Some i) → ps !! i = Some p → state p ≠ RUNNING →
  (∀ m', in_crit c ptable_lock m' → cprocs m' = <[c := None]> (cprocs m) →
     Q tt (st (<[i := set_context (k (irq_on m c)) p]> ps) shs m' e s)) →
  wpg t (sched c k) Q (st ps shs m e s).
Proof.
  intros Hcr Hc Hp Hst HQ. destruct (crit_reads _ _ _ Hcr) as (H1 & H2 & H3). unfold sched.
  apply wpg_bind. eapply wpg_onm; [by eapply myproc_crit|].
  apply wpg_bind. eapply wpg_onm; [by apply holding_crit|]. cbn [negb].
  apply wpg_bind. eapply wpg_onm; [exact H1|]. cbn [Z.eqb Pos.eqb negb].
  apply wpg_bind, (tw_pget _ _ _ _ _ _ _ p); [done|]. rewrite bool_decide_false by done.
  apply wpg_bind. eapply wpg_onm; [exact H2|].
  apply wpg_bind. eapply wpg_onm; [exact H3|].
  apply wpg_bind, (tw_pset _ _ _ _ _ _ _ _ p); [done|].
  destruct (set_cproc_crit c ptable_lock None _ _ Hc Hcr). eapply wpg_onm; [reflexivity|]. by apply HQ.
Qed.

(** [sleep] on [ptable.lock]. *)
Lemma wpg_sleep t c ch k i p ps shs m e s (Q : unit → kst → Prop) :
  in_crit c ptable_lock m → cprocs m !! c = Some (Some i) → ps !! i = Some p →
  (∀ m', in_crit c ptable_lock m' → cprocs m' = <[c := None]> (cprocs m) →
     Q tt (st (<[i := set_context (k (irq_on m c)) (set_state SLEEPING (set_pchan ch p))]> ps) shs m' e s)) →
  wpg t (sleep c ch ptable_lock k) Q (st ps shs m e s).
Proof.
  intros Hcr Hc Hp HQ. unfold sleep. apply wpg_bind. eapply wpg_onm; [by eapply myproc_crit|].
  change (ptr_eqb (Some i) None) with false. cbv iota. apply wpg_bind, wpg_when_false; [by rewrite bool_decide_true|].
  apply wpg_bind, (tw_pset _ _ _ _ _ _ _ _ p); [done|].
  apply wpg_bind. eapply tw_pset; [apply lookup_insert_eq|]. rewrite insert_insert_eq.
  eapply wpg_sched; [done|done|apply lookup_insert_eq|done|]. intros m' H1 H2. rewrite insert_insert_eq. by apply HQ.
Qed.

(** ** Freeing a slot *)

(** A slot after [clear_slot]. *)
Definition cleared (p : proc) : proc :=
  mkProc 0 UNUSED (tf p) (context p) (pchan p) 0 (pgdir p) 0 "" (cwd p) (shared_info p) 0 None None 0.

Lemma wpg_clear_slot t ps shs m e e' s i pr (Q : unit → kst → Prop) :
  ps !! i = Some pr → kfree (kstack pr) e = Ok (tt, e') →
  Q tt (st (<[i := cleared pr]> ps) shs m e' s) →
  wpg t (clear_slot (Some i)) Q (st ps shs m e s).
Proof.
  intros Hp Hk HQ. unfold clear_slot. apply wpg_bind, (tw_pget _ _ _ _ _ _ _ pr); [done|].
  apply wpg_bind, (wpg_one _ _ _ _ _ _ _ tt e'); [done|].
  apply wpg_bind, (tw_pset _ _ _ _ _ _ _ _ pr); [done|].
  do 7 (apply wpg_bind; eapply tw_pset; [apply lookup_insert_eq|]; rewrite insert_insert_eq).
  eapply tw_pset; [apply lookup_insert_eq|]. rewrite insert_insert_eq. exact HQ.
Qed.

(** ** The predecessor of a thread *)

Lemma wpg_find_pred t ps shs m e s i l : ∀ fuel h tmp (Q : ptr → kst → Prop),
  seg ps h l (Some i) → i ∉ l → (length l < fuel)%nat →
  Q (match last l with Some z => Some z | None => tmp end) (st ps shs m e s) →
  wpg t (find_pred fuel h tmp (Some i)) Q (st ps shs m e s).
Proof.
  induction l as [|x l IH]; intros fuel h tmp Q Hs Hi Hf HQ;
    (destruct fuel as [|fuel]; [cbn in Hf; lia|]); cbn [find_pred].
  - cbn in Hs. subst h. unfold ptr_eqb. rewrite bool_decide_false, bool_decide_true by done. exact HQ.
  - destruct Hs as (-> & p & Hp & Hs). unfold ptr_eqb.
    rewrite bool_decide_false, bool_decide_false by set_solver.
    apply wpg_bind, (tw_pget _ _ _ _ _ _ _ p); [done|].
    apply IH; [done|set_solver|cbn in Hf; lia|].
    rewrite last_cons in HQ. by destruct (last l).
Qed.
End Lemmas.

(** [tlk] solves a lookup in a table with pending updates; [tstep] executes
    an access to the tables. *)
Ltac tlk :=
  repeat first [ rewrite lookup_insert_eq | rewrite lookup_insert_ne by congruence ];
  first [ eassumption | reflexivity ].
Ltac tstep :=
  lazymatch goal with
  | |- wpg _ (mbind _ _) _ _ => apply wpg_bind
  | |- wpg _ (mret _) _ _ => apply wpg_ret
  | |- wpg _ (pget _) _ _ => eapply tw_pget; [tlk|]
  | |- wpg _ (pset _ _) _ _ => eapply tw_pset; [tlk|]; rewrite ?insert_insert_eq
  | |- wpg _ (sget _ _) _ _ => eapply wpg_sget; [tlk|]
  | |- wpg _ (sset _ _ _) _ _ => eapply wpg_sset; [tlk|]; rewrite ?insert_insert_eq
  | |- wpg _ (one _) _ _ => eapply wpg_one; [eassumption|]
  end; cbv beta.
Ltac tsteps := repeat tstep.
