(* ===== verification/ThreadsProps.v ===== *)
(** * Properties of the LWP kernel: families of threads

    Killing, creating and joining threads on the family lists; the memory
    limit; what [wait] frees.  The environment (memory, files) is arbitrary:
    the results of its calls are the hypotheses of each theorem. *)

From S2P Require Export ThreadsFamily DemoEnv.
Local Open Scope Z_scope.

Section Kill.
Context {KE : KernelEnv}.

Definition mark_killed (p : proc) : proc :=
  set_state (if decide (state p = SLEEPING) then RUNNABLE else state p) (set_killed 1 p).

Lemma wpg_find_pid t n ps shs m e s (Q : option nat → kst → Prop) :
  full ps → Q (first_slot (λ p, pid p =? n) ps proc_table) (st ps shs m e s) →
  wpg t (find_pid n) Q (st ps shs m e s).
Proof. intros Hf. by apply (wpg_find_slot t (λ p, pid p =? n)). Qed.

(** The run of an operation: its result and a final machine that is idle. *)
Lemma run_ok {A} (f : M kst A) a s (P : mach → Prop) F :
  wp f (λ a' s', a' = a ∧ ∃ m', P m' ∧ s' = F m') (st (procs s) (shares s) (kmach s) (kenv s) s) →
  ∃ m', P m' ∧ f s = Ok (a, F m').
Proof.
  rewrite <- st_id. intros (a' & s' & E & -> & m' & Hm & ->)%wp_ok. eauto.
Qed.

(** The shared information that [kill] follows from the process [pi], when core
    [c] runs [cur]: through a null [shared_info] it reads what the page table of
    [cur] maps at address 0. *)
Definition share_of (cur pi : proc) (s : kst) : option share :=
  match shared_info pi with Some q => shares s !! q | None => low s !! pgdir cur end.

Lemma share_read c me cur q ps shs m e (s : @kst KE) osh :
  cprocs m !! c = Some (Some me) → ps !! me = Some cur →
  match q with Some q => shs !! q | None => low s !! pgdir cur end = osh →
  match q with Some i => shares (st ps shs m e s) !! i
  | None => d ← cur_pgdir c (st ps shs m e s); low (st ps shs m e s) !! d end = osh.
Proof.
  intros Hc Hcur E. destruct q as [q|]; [exact E|]. unfold cur_pgdir; cbn. unfold cprocs in Hc. rewrite list_lookup_fmap in Hc.
  destruct (cpus m !! c) as [cp|]; [|done]. injection Hc as Hc. cbn. by rewrite Hc; cbn; rewrite Hcur.
Qed.
Lemma wpg_sget_of t c me cur q ps shs m e s sh (Q : share → kst → Prop) :
  cprocs m !! c = Some (Some me) → ps !! me = Some cur →
  match q with Some q => shs !! q | None => low s !! pgdir cur end = Some sh →
  Q sh (st ps shs m e s) → wpg t (sget c q) Q (st ps shs m e s).
Proof. intros Hc Hcur E HQ. eapply wpg_deref; [by eapply share_read|exact HQ]. Qed.

(** The members of [l] are marked, and the process that was looked for. *)
Definition marked (i : nat) (l : list nat) (ps : gmap nat proc) : gmap nat proc :=
  alters mark_killed l (alters (set_killed 1) [i] ps).

Lemma marked_family i l ps shs q : family ps shs q l → family (marked i l ps) shs q l.
Proof.
  intros H. apply alters_family; [|apply alters_family; [|exact H]]; intros p; split_and!; try done.
  unfold mark_killed; cbn. by case_decide.
Qed.

Lemma kill_marks c n s me cur i pi sh l :
  idle (kmach s) → cprocs (kmach s) !! c = Some (Some me) → full (procs s) → procs s !! me = Some cur →
  first_slot (λ p, pid p =? n) (procs s) proc_table = Some i → procs s !! i = Some pi →
  share_of cur pi s = Some sh → seg (procs s) (th_family_hd sh) l None → NoDup l → (length l ≤ NPROC)%nat →
  ∃ m', idle m' ∧ kill c n s = Ok (0, st (marked i l (procs s)) (shares s) m' (kenv s) s).
Proof.
  intros Hi Hc Hf Hcur Ef Hpi Hsh Hseg Hd Hlen.
  apply (run_ok _ _ s idle (λ m', st _ _ m' _ s)). unfold kill.
  apply wpg_bind, (wpg_acquire _ _ _ _ _ _ _ _ _ Hi Hc). intros m1 Hcr Hcp.
  apply wpg_bind, wpg_find_pid; [done|]. rewrite Ef.
  apply wpg_bind, (tw_pset _ _ _ _ _ _ _ _ pi); [done|].
  apply wpg_bind, (tw_pget _ _ _ _ _ _ _ (set_killed 1 pi)); [by apply lookup_insert_eq|].
  cbn [shared_info set_killed].
  assert (∃ cur', <[i := set_killed 1 pi]> (procs s) !! me = Some cur' ∧ pgdir cur' = pgdir cur) as (cur' & Hcur' & Hpg).
  { destruct (decide (me = i)) as [->|]; [exists (set_killed 1 pi); rewrite lookup_insert_eq; by simplify_eq|].
    exists cur. by rewrite lookup_insert_ne. }
  apply wpg_bind, (wpg_sget_of _ _ me cur' _ _ _ _ _ _ sh); [by rewrite Hcp|done|by rewrite Hpg|].
  apply wpg_bind. eapply (wpg_for_family _ _ mark_killed); [done| |by eapply seg_frame_insert|done|unfold scan_fuel; lia|].
  - intros j p ps Q Hp HQ. apply wpg_bind, (tw_pset _ _ _ _ _ _ _ _ p); [done|].
    apply wpg_bind, (tw_pget _ _ _ _ _ _ _ (set_killed 1 p)); [by apply lookup_insert_eq|].
    unfold mark_killed in HQ. case_bool_decide as Hst; cbn [state set_killed] in Hst.
    + rewrite decide_True in HQ by done. apply wpg_when_true; [done|].
      apply (tw_pset _ _ _ _ _ _ _ _ (set_killed 1 p)); [by apply lookup_insert_eq|].
      rewrite insert_insert_eq. exact HQ.
    + rewrite decide_False in HQ by done. apply wpg_when_false; [done|]. destruct p; exact HQ.
  - apply wpg_bind. eapply wpg_release; [done|by rewrite Hcp|]. intros m2 Hi2 _.
    split; [done|]. exists m2. split; [done|]. unfold marked. by rewrite (alters_one _ _ _ _ Hpi).
Qed.

Lemma kill_faults c n s me cur i pi :
  idle (kmach s) → cprocs (kmach s) !! c = Some (Some me) → full (procs s) → procs s !! me = Some cur →
  first_slot (λ p, pid p =? n) (procs s) proc_table = Some i → procs s !! i = Some pi →
  shared_info pi = None → low s !! pgdir cur = None → kill c n s = Fault.
Proof.
  intros Hi Hc Hf Hcur Ef Hpi Hq Hlow. unfold kill.
  destruct (wp_ok (onm (acquire c ptable_lock)) (λ _ s1, ∃ m1,
    s1 = st (procs s) (shares s) m1 (kenv s) s ∧ cprocs m1 = cprocs (kmach s)) s) as ([] & s1 & E & m1 & -> & Hcp).
  { rewrite (st_id s) at 1. apply (wpg_acquire _ _ _ _ _ _ _ _ _ Hi Hc). intros m1 _ Hcp. by exists m1. }
  rewrite (bind_ok _ _ _ _ _ E). set (s3 := st (procs s) (shares s) m1 (kenv s) s).
  destruct (wp_ok (find_pid n) (λ r s2, r = Some i ∧ s2 = s3) s3) as (r & s2 & E2 & -> & ->).
  { apply wpg_find_pid; [done|]. by rewrite Ef. }
  rewrite (bind_ok _ _ _ _ _ E2).
  set (ps1 := <[i := set_killed 1 pi]> (procs s)).
  rewrite (bind_ok (pset (Some i) (set_killed 1)) _ s3 tt (st ps1 (shares s) m1 (kenv s) s))
    by (unfold pset, pget, deref, modify, mbind, M_bind; cbn; by rewrite Hpi).
  rewrite (bind_ok (pget (Some i)) _ _ (set_killed 1 pi) (st ps1 (shares s) m1 (kenv s) s))
    by (unfold pget, deref; cbn; unfold ps1; by rewrite lookup_insert_eq).
  cbn [shared_info set_killed]. rewrite Hq. unfold sget at 1, deref at 1, mbind at 1, M_bind at 1.
  assert (∃ cur', ps1 !! me = Some cur' ∧ pgdir cur' = pgdir cur) as (cur' & Hcur' & Hpg).
  { unfold ps1. destruct (decide (me = i)) as [->|]; [exists (set_killed 1 pi); rewrite lookup_insert_eq; by simplify_eq|].
    exists cur. by rewrite lookup_insert_ne. }
  rewrite <- Hcp in Hc. rewrite (share_read _ _ _ None _ _ _ _ _ _ Hc Hcur' eq_refl), Hpg, Hlow. done.
Qed.

(** C13. [kill(pid)] in the thread kernel, on every path.  When no slot of the
    table has that pid it returns -1 and changes nothing but the lock's
    bookkeeping.  Otherwise it marks the first such slot as killed, and with
    its family every member (the sleeping ones become runnable), changes
    nothing else, and returns 0.  The slot need not be in use nor have a family:
    a free slot keeps pid 0, so that [kill(0)] finds one, follows its null
    [shared_info], and either faults or walks the list that the memory of the
    running process at address 0 happens to name. *)
Theorem kill_marks_family c n s me cur :
  idle (kmach s) → cprocs (kmach s) !! c = Some (Some me) → full (procs s) → procs s !! me = Some cur →
  match first_slot (λ p, pid p =? n) (procs s) proc_table with
  | None => ∃ m', idle m' ∧ kill c n s = Ok (-1, st (procs s) (shares s) m' (kenv s) s)
  | Some i => ∃ pi, procs s !! i = Some pi ∧ pid pi = n ∧
      match shared_info pi with
      | Some q => ∀ l, family (procs s) (shares s) q l →
          (∃ m', idle m' ∧ kill c n s = Ok (0, st (marked i l (procs s)) (shares s) m' (kenv s) s)) ∧
          family (marked i l (procs s)) (shares s) q l
      | None =>
          match low s !! pgdir cur with
          | None => kill c n s = Fault
          | Some sh => ∀ l, seg (procs s) (th_family_hd sh) l None → NoDup l → (length l ≤ NPROC)%nat →
              ∃ m', idle m' ∧ kill c n s = Ok (0, st (marked i l (procs s)) (shares s) m' (kenv s) s)
          end
      end
  end.
Proof.
  intros Hi Hc Hf Hcur. destruct (first_slot _ _ _) as [i|] eqn:Ef.
  - destruct (first_slot_Some _ _ _ _ Ef) as (_ & pi & Hpi & Ht%Z.eqb_eq). exists pi. split; [done|]. split; [done|].
    destruct (shared_info pi) as [q|] eqn:Hq.
    + intros l Hfam. pose proof Hfam as [(sh & Hsh & Hseg & _) Hd Hlen _]. split; [|by apply marked_family].
      eapply kill_marks; try done. unfold share_of. by rewrite Hq.
    + destruct (low s !! pgdir cur) as [sh|] eqn:Hlow.
      * intros l Hseg Hd Hlen. eapply kill_marks; try done. unfold share_of. by rewrite Hq.
      * by eapply kill_faults.
  - apply (run_ok _ _ s idle (λ m', st _ _ m' _ s)). unfold kill.
    apply wpg_bind, (wpg_acquire _ _ _ _ _ _ _ _ _ Hi Hc). intros m1 Hcr Hcp.
    apply wpg_bind, wpg_find_pid; [done|]. rewrite Ef.
    apply wpg_bind. eapply wpg_release; [done|by rewrite Hcp|]. intros m2 Hi2 _.
    split; [done|]. by exists m2.
Qed.
End Kill.

Section Create.
Context {KE : KernelEnv}.

(** The slot [i] of a new thread of [me] (whose process is [cur]): stack page
    [k], directory reference [ip], entry [start], stack pointer [v - 8]. *)
Definition new_thread (i me : nat) (tid0 k ip start v : Z) (cur pi : proc) : proc :=
  mkProc k RUNNABLE (tf_set_start start (u32 (v - 8)) (tf cur)) T_forkret (pchan pi) (killed pi)
    (pgdir cur) (pid cur) (name_copy (name cur)) ip (shared_info cur) tid0 None (Some me) (retval pi).

(** The memory limit of the family allows two more pages. *)
Definition limit_allows (sh : share) : Prop :=
  memory_limit sh = 0 ∨ u32 (sz sh + 2 * PGSIZE) ≤ u32 (memory_limit sh).

Lemma limit_allows_test sh : limit_allows sh →
  negb (memory_limit sh =? 0) && (u32 (memory_limit sh) <? u32 (sz sh + 2 * PGSIZE)) = false.
Proof.
  intros [->|H]; [done|]. rewrite (proj2 (Z.ltb_ge _ _)) by exact H. apply andb_false_r.
Qed.

(** C14. [thread_create] within the memory limit, when the kernel has a free
    slot and memory: the first unused slot becomes a runnable thread with the
    creator's page table, pid, name and family, its own kernel stack, entry
    point and user stack (the argument and a return address on its top), it is
    appended to the family list, the family's size is the new end of the
    stack, and nothing else changes. *)
Theorem thread_create_appends c thread start arg s me cur q sh l i pi k ip v e1 e2 e3 e4 e5 e6 e7 :
  idle (kmach s) → cprocs (kmach s) !! c = Some (Some me) → full (procs s) →
  procs s !! me = Some cur → shared_info cur = Some q → shares s !! q = Some sh →
  family (procs s) (shares s) q l → me ∈ l → limit_allows sh →
  first_slot is_unused (procs s) proc_table = Some i → procs s !! i = Some pi →
  kalloc (kenv s) = Ok (k, e1) → k ≠ 0 → idup (cwd cur) e1 = Ok (ip, e2) →
  allocuvm (pgdir cur) (PGROUNDUP (sz sh)) (u32 (PGROUNDUP (sz sh) + 2 * PGSIZE)) e2 = Ok (v, e3) → v ≠ 0 →
  clearpteu (pgdir cur) (u32 (v - 2 * PGSIZE)) e3 = Ok (tt, e4) →
  store_user (pgdir cur) (u32 (v - 4)) arg e4 = Ok (tt, e5) →
  store_user (pgdir cur) (u32 (v - 8)) (2 ^ 32 - 1) e5 = Ok (tt, e6) →
  store_user (pgdir cur) thread (nexttid s) e6 = Ok (tt, e7) →
  (length l < NPROC)%nat →
  let ps := <[i := new_thread i me (nexttid s) k ip start v cur pi]>
              (alters (set_th_next (Some i)) (from_option (λ x, [x]) [] (last l)) (procs s)) in
  let shs := <[q := set_sz v (set_th_last (Some i) sh)]> (shares s) in
  (∃ m', idle m' ∧ thread_create c thread start arg s = Ok (0, st ps shs m' e7 (bump s))) ∧
  family ps shs q (l ++ [i]).
Proof.
  intros Hi Hc Hf Hcur Hq Hsh Hfam Hme Hlim Hfs Hpi Hk Hk0 Hip Hv Hv0 He4 He5 He6 He7 Hlen ps shs.
  pose proof (family_fresh _ _ _ _ _ _ Hfam Hfs Hpi) as Hil.
  destruct (family_snoc_inv _ _ _ _ _ Hfam Hme) as (l0 & z & zp & -> & Hz).
  subst ps. rewrite last_snoc; cbn [from_option]. rewrite (alters_one _ _ _ _ Hz).
  assert (i ≠ z) as Hiz by set_solver. assert (i ≠ me) as Hime by set_solver.
  destruct (family_seg _ _ _ _ _ Hfam Hsh) as [Hseg Hlast]. rewrite last_snoc in Hlast.
  split; [|by apply (family_snoc _ _ _ _ _ _ _ _ _ _ Hfam)].
  apply (run_ok _ _ s idle (λ m', st _ _ m' _ (bump s))). unfold thread_create.
  apply wpg_bind, (wpg_myproc_idle _ _ _ _ _ _ _ _ _ Hi Hc). intros m1 Hi1 Hc1.
  do 2 tstep. rewrite Hq. tsteps. rewrite (limit_allows_test _ Hlim).
  apply wpg_bind. eapply wpg_allocproc; [done|by rewrite Hc1|done..|]. intros m2 Hi2 Hc2.
  change (ptr_eqb (Some i) None) with false. cbv iota.
  apply wpg_bind. eapply wpg_acquire; [done|by rewrite Hc2, Hc1|]. intros m3 Hcr3 Hc3.
  tsteps. cbn [shared_info set_th_main set_th_next set_shared_info]. rewrite Hq. tsteps.
  rewrite (proj2 (Z.eqb_neq v 0)) by done. tsteps.
  assert (ptr_eqb (th_family_hd sh) None = false) as -> by (destruct l0; by destruct Hseg as [-> _]).
  rewrite Hlast. do 8 tstep.
  assert (∀ T : gmap nat proc, T !! me = Some cur → ∃ cur', <[z := set_th_next (Some i) zp]> T !! me = Some cur' ∧
      tf cur' = tf cur ∧ pgdir cur' = pgdir cur) as Hcur'.
  { intros T HT. destruct (decide (me = z)) as [->|]; [|exists cur; by rewrite lookup_insert_ne].
    exists (set_th_next (Some i) cur). rewrite lookup_insert_eq. by simplify_eq. }
  match goal with |- wpg _ _ _ (st (<[z:=_]> ?T) _ _ _ _) => destruct (Hcur' T) as (cur' & HT & Htf & Hpg) end.
  { by rewrite lookup_insert_ne by done. }
  tsteps. rewrite Htf, Hpg. tsteps.
  eapply wpg_release; [done|by rewrite Hc3, Hc2, Hc1|]. intros m4 Hi4 _.
  tstep. split; [done|]. exists m4. split; [done|]. f_equal.
  rewrite (insert_insert_ne _ i z), insert_insert_eq by done. unfold new_thread. by rewrite Hq, (insert_insert_ne _ z i) by done.
Qed.
End Create.

Section Join.
Context {KE : KernelEnv}.

Lemma wpg_join_scan t c l1 l2 ct th rv ps shs m e s (Q : bool → kst → Prop) :
  (∀ x, x ∈ l1 → ∃ p, ps !! x = Some p ∧ (tid p = th → state p ≠ ZOMBIE)) →
  wpg t (join_scan c l2 ct th rv) Q (st ps shs m e s) →
  wpg t (join_scan c (l1 ++ l2) ct th rv) Q (st ps shs m e s).
Proof.
  intros Hl HQ. induction l1 as [|x l1 IH]; cbn [app join_scan]; [done|].
  destruct (Hl x) as (p & Hp & Hne); [by left|].
  apply wpg_bind, (tw_pget _ _ _ _ _ _ _ p); [done|].
  assert (wpg t (join_scan c (l1 ++ l2) ct th rv) Q (st ps shs m e s)) as Hrest.
  { apply IH. intros y Hy. apply Hl. by right. }
  destruct (Z.eqb_spec (tid p) th); [|done]. cbn [negb]. by rewrite bool_decide_false by auto.
Qed.

(** Unlinking a thread whose [th_next] is already cleared. *)
Lemma wpg_delete_thread t c ps shs m e s i pi q sh l z zp (Q : unit → kst → Prop) :
  ps !! i = Some pi → th_next pi = None → shared_info pi = Some q → shs !! q = Some sh →
  seg ps (th_family_hd sh) (l ++ [z]) (Some i) → i ∉ l ++ [z] → (length l < NPROC)%nat →
  ps !! z = Some zp → shared_info zp = Some q →
  Q tt (st (<[z := set_th_next None zp]> ps) (<[q := set_th_last (Some z) sh]> shs) m e s) →
  wpg t (delete_thread c (Some i)) Q (st ps shs m e s).
Proof.
  intros Hpi Hn Hq Hsh Hs Hi Hl Hz Hzq HQ. unfold delete_thread.
  tstep. tstep. rewrite Hq. do 2 tstep. rewrite Hn.
  assert (ptr_eqb (th_family_hd sh) (Some i) = false) as ->.
  { apply bool_decide_eq_false. destruct l; destruct Hs as [-> _]; set_solver. }
  apply wpg_bind, (wpg_find_pred _ _ _ _ _ _ _ (l ++ [z])); [done..|rewrite length_app; unfold scan_fuel; cbn; lia|].
  rewrite last_snoc. tsteps. apply wpg_when_true; [done|]. cbn [shared_info set_th_next]. rewrite Hzq. tstep.
  exact HQ.
Qed.

(** The table after the joined thread [i] (with [zi] in its slot) is gone; [z]
    is its predecessor in the family. *)
Record joined (ps ps' : gmap nat proc) (shs' : gmap nat share) (q : nat) (l : list nat) (z i : nat) (zi : proc) : Prop := {
  jn_slot : ps' !! i = Some (cleared zi);
  jn_family : family ps' shs' q (l ++ [z]);
  jn_others : ∀ x, x ∉ [i; z] → ps' !! x = ps !! x
}.

(** A turn of [thread_join] that finds the thread [i] dead. *)
Lemma wpg_join_turn t c me cur thread rv ps shs m e s o i zi q l z post e1 e2 (Q : option Z → kst → Prop) :
  in_crit c ptable_lock m → cprocs m !! c = Some o → full ps → ps !! me = Some cur →
  i ∈ proc_table → ps !! i = Some zi → state zi = ZOMBIE → tid zi = thread →
  (∀ x p, x ∈ proc_table → ps !! x = Some p → tid p = thread → x = i) →
  shared_info zi = Some q → family ps shs q (l ++ z :: i :: post) →
  store_user (pgdir cur) rv (retval zi) e = Ok (tt, e1) → kfree (kstack zi) e1 = Ok (tt, e2) →
  (∀ ps' shs' m', idle m' → cprocs m' = cprocs m → joined ps ps' shs' q l z i zi → Q (Some 0) (st ps' shs' m' e2 s)) →
  wpg t (join_turn c (Some me) thread rv) Q (st ps shs m e s).
Proof.
  intros Hcr Hc Hf Hcur Hit Hzi Hzs Htid Huniq Hq Hfam He1 He2 HQ.
  change (z :: i :: post) with ([z] ++ i :: post) in *. rewrite app_assoc in *.
  pose proof Hfam as [(sh & Hsh & (y & Hseg1 & -> & _)%seg_app & _) (_ & Hd2 & _)%NoDup_app Hlen Hinfo].
  destruct (seg_elem _ _ _ _ z Hseg1) as [zp Hz]; [set_solver|].
  destruct (Hinfo z zp) as [Hzq _]; [set_solver|done|].
  assert (i ∉ l ++ [z]) as Hil by (intros ?; eapply (Hd2 i); set_solver).
  assert (z ≠ i) as Hzi' by set_solver.
  destruct (list_elem_of_split _ _ Hit) as (l1 & l2 & Hpt). unfold join_turn. rewrite Hpt in *.
  apply wpg_bind, wpg_join_scan.
  { intros x Hx. destruct (Hf x) as [p Hp]; [rewrite Hpt; set_solver|]. exists p. split; [done|].
    intros Et. assert (x = i) as -> by (eapply Huniq; [set_solver|done|done]).
    assert (NoDup proc_table) as Hnd by apply NoDup_seq. rewrite Hpt in Hnd.
    apply NoDup_app in Hnd as (_ & Hnd & _). destruct (Hnd i); [done|by left]. }
  cbn [join_scan]. tstep. tstep. rewrite Htid, Z.eqb_refl, bool_decide_true by done. cbn [negb].
  do 4 tstep. apply wpg_bind. eapply wpg_clear_slot; [done|done|].
  apply wpg_bind. eapply (wpg_delete_thread _ _ _ _ _ _ _ _ (cleared zi) q sh l z zp); try done.
  - apply lookup_insert_eq.
  - by apply seg_insert_ne.
  - rewrite !length_app in Hlen; cbn in Hlen. lia.
  - by rewrite lookup_insert_ne by done.
  - tsteps. eapply wpg_release; [done|exact Hc|]. intros m' Hi' Hc'. tstep. apply HQ; [done..|].
    split; [by rewrite lookup_insert_ne, lookup_insert_eq by done|by eapply family_cut|].
    intros x Hx. by rewrite !lookup_insert_ne by set_solver.
Qed.

(** C15. [thread_join] on a zombie of the caller's process frees its slot,
    delivers its return value and returns 0, but it clears [th_next] before
    unlinking the thread: the family list ends at the thread's predecessor,
    and every thread behind it (still runnable, still sharing the memory) is
    no longer in the family. *)
Theorem thread_join_truncates c thread rv s me cur i zi q l z post e1 e2 :
  idle (kmach s) → cprocs (kmach s) !! c = Some (Some me) → full (procs s) →
  procs s !! me = Some cur →
  i ∈ proc_table → procs s !! i = Some zi → state zi = ZOMBIE → tid zi = thread →
  (∀ x p, x ∈ proc_table → procs s !! x = Some p → tid p = thread → x = i) →
  shared_info zi = Some q → family (procs s) (shares s) q (l ++ z :: i :: post) →
  store_user (pgdir cur) rv (retval zi) (kenv s) = Ok (tt, e1) → kfree (kstack zi) e1 = Ok (tt, e2) →
  ∃ ps shs, (∃ m', idle m' ∧ thread_join c thread rv s = Ok (Some 0, st ps shs m' e2 s)) ∧
    ps !! i = Some (cleared zi) ∧ family ps shs q (l ++ [z]) ∧
    (∀ x, x ∉ [i; z] → ps !! x = procs s !! x).
Proof.
  intros Hi Hc Hf Hcur Hit Hzi Hzs Htid Huniq Hq Hfam He1 He2.
  destruct (wp_ok (thread_join c thread rv) (λ r s', r = Some 0 ∧ ∃ ps shs m', idle m' ∧
     joined (procs s) ps shs q l z i zi ∧ s' = st ps shs m' e2 s) s)
    as (r & s' & E & -> & ps & shs & m' & Hm & [J1 J2 J3] & ->); [|exists ps, shs; split; [by exists m'|done]].
  rewrite (st_id s) at 1. unfold thread_join.
  apply wpg_bind, (wpg_myproc_idle _ _ _ _ _ _ _ _ _ Hi Hc). intros m1 Hi1 Hc1.
  apply wpg_bind. eapply wpg_acquire; [done|by rewrite Hc1|]. intros m2 Hcr2 Hc2.
  eapply wpg_join_turn; [done|by rewrite Hc2, Hc1|done..|]. intros ps shs m' Hm _ HJ.
  split; [done|]. by exists ps, shs, m'.
Qed.
End Join.

Section ExitJoin.
Context {KE : KernelEnv}.

(** [kin ps ps']: the same families, with the same thread ids. *)
Definition kin_slot (p p' : proc) : Prop :=
  th_next p' = th_next p ∧ shared_info p' = shared_info p ∧ tid p' = tid p ∧
  (state p ≠ UNUSED → state p' ≠ UNUSED).
Definition kin (ps ps' : gmap nat proc) : Prop := ∀ x, option_Forall2 kin_slot (ps !! x) (ps' !! x).

Lemma kin_slot_refl p : kin_slot p p.
Proof. by split_and!. Qed.
Lemma kin_refl ps : kin ps ps.
Proof. intros x. destruct (ps !! x); constructor. apply kin_slot_refl. Qed.
Lemma kin_trans ps1 ps2 ps3 : kin ps1 ps2 → kin ps2 ps3 → kin ps1 ps3.
Proof.
  intros H1 H2 x. specialize (H1 x). specialize (H2 x). destruct H1 as [p1 p2 H1|]; inversion H2; subst; constructor.
  unfold kin_slot in *. intuition congruence.
Qed.
Lemma kin_insert ps x p p' : ps !! x = Some p → kin_slot p p' → kin ps (<[x := p']> ps).
Proof.
  intros Hp Hk y. destruct (decide (y = x)) as [->|]; [rewrite lookup_insert_eq, Hp; by constructor|].
  rewrite lookup_insert_ne by done. destruct (ps !! y); constructor. apply kin_slot_refl.
Qed.
Lemma kin_alters f l ps : (∀ p, kin_slot p (f p)) → kin ps (alters f l ps).
Proof.
  intros Hf y. rewrite lookup_alters. destruct (ps !! y); constructor. case_decide; [apply Hf|apply kin_slot_refl].
Qed.
Lemma kin_wake ch p : kin_slot p (wake ch p).
Proof. unfold wake. destruct (_ && _); split_and!; done. Qed.

Lemma kin_full ps ps' : kin ps ps' → full ps → full ps'.
Proof. intros Hk Hf x Hx. destruct (Hf x Hx) as [p Hp]. specialize (Hk x). rewrite Hp in Hk. by inversion Hk. Qed.
Lemma kin_back ps ps' x p' : kin ps ps' → ps' !! x = Some p' → ∃ p, ps !! x = Some p ∧ kin_slot p p'.
Proof. intros Hk Hp. specialize (Hk x). rewrite Hp in Hk. inversion Hk; eauto. Qed.
Lemma kin_family ps ps' shs shs' q l :
  kin ps ps' → shs' !! q = shs !! q → family ps shs q l → family ps' shs' q l.
Proof.
  intros Hk Eq [(sh & Hsh & Hseg & Hl) Hd Hlen Hi]. split; [exists sh; split_and!; [by rewrite Eq| |done]|done..|].
  - eapply seg_frame; [|done]. intros x p _ Hp. specialize (Hk x). rewrite Hp in Hk. inversion Hk as [? p' [Hn _]|]; subst. eauto.
  - intros x p' Hx Hp'. destruct (kin_back _ _ _ _ Hk Hp') as (p & Hp & _ & Hq & _ & Hs).
    destruct (Hi x p Hx Hp). rewrite Hq. auto.
Qed.
Lemma kin_unique ps ps' th i : kin ps ps' →
  (∀ x p, x ∈ proc_table → ps !! x = Some p → tid p = th → x = i) →
  ∀ x p, x ∈ proc_table → ps' !! x = Some p → tid p = th → x = i.
Proof.
  intros Hk Hu x p' Hx Hp' Ht. destruct (kin_back _ _ _ _ Hk Hp') as (p & Hp & _ & _ & E & _).
  apply (Hu x p); congruence.
Qed.

Lemma alters_insert_self f l i p p' ps : <[i := p]> (alters f l (<[i := p']> ps)) = <[i := p]> (alters f l ps).
Proof.
  apply map_eq. intros x. destruct (decide (x = i)) as [->|]; [by rewrite !lookup_insert_eq|].
  by rewrite !lookup_insert_ne, !lookup_alters, lookup_insert_ne by done.
Qed.

(** Whatever the other processes do between [s] and [s'], the families stay the
    same and the slots [xs] are not touched. *)
Definition others_ran (xs : list nat) (q : nat) (s s' : kst) : Prop :=
  kin (procs s) (procs s') ∧ shares s' !! q = shares s !! q ∧ ∀ x, x ∈ xs → procs s' !! x = procs s !! x.

(** Core [c] is back in its scheduler, which holds the lock. *)
Definition gave_up (c : nat) (m m' : mach) : Prop :=
  in_crit c ptable_lock m' ∧ cprocs m' = <[c := None]> (cprocs m).

(** A process asleep in [thread_join], and a thread that has exited. *)
Definition joining (ch : chan) (thread rv : Z) (b : bool) (p : proc) : proc :=
  set_context (T_join thread rv b) (set_state SLEEPING (set_pchan ch p)).
Definition exited (v : Z) (b : bool) (p : proc) : proc :=
  set_context (T_exit b) (set_state ZOMBIE (set_retval v (set_cwd 0 p))).

Lemma kin_exit ps ch v b i ti :
  i ∈ proc_table → ps !! i = Some ti → state ti = RUNNING →
  kin ps (<[i := exited v b ti]> (alters (wake ch) proc_table ps)).
Proof.
  intros Hit Hti Hrun. eapply kin_trans; [apply (kin_alters (wake ch) proc_table), kin_wake|].
  apply kin_insert with (wake ch ti); [rewrite lookup_alters, Hti; cbn; by rewrite decide_True|].
  unfold wake. rewrite Hrun. by split_and!.
Qed.

Lemma wpg_join_sleeps t c me cur thread rv ps shs m e s (Q : option Z → kst → Prop) :
  idle m → cprocs m !! c = Some (Some me) → full ps → ps !! me = Some cur → killed cur = 0 →
  (∀ x p, x ∈ proc_table → ps !! x = Some p → tid p = thread → state p ≠ ZOMBIE) →
  (∀ b m', gave_up c m m' → Q None (st (<[me := joining (chan_of (th_main cur)) thread rv b cur]> ps) shs m' e s)) →
  wpg t (thread_join c thread rv) Q (st ps shs m e s).
Proof.
  intros Hi Hc Hf Hcur Hk Hz HQ. unfold thread_join.
  apply wpg_bind, (wpg_myproc_idle _ _ _ _ _ _ _ _ _ Hi Hc). intros m1 Hi1 Hc1.
  apply wpg_bind. eapply wpg_acquire; [done|by rewrite Hc1|]. intros m2 Hcr2 Hc2. unfold join_turn.
  apply wpg_bind. rewrite <- (app_nil_r proc_table). apply wpg_join_scan.
  { intros x Hx. destruct (Hf x Hx) as [p Hp]. exists p. split; [done|]. by apply (Hz x). }
  apply wpg_ret. tsteps. rewrite Hk. cbn [Z.eqb negb]. apply wpg_bind.
  eapply wpg_sleep; [done|by rewrite Hc2, Hc1|done|]. intros m3 Hcr3 Hc3. apply wpg_ret, HQ.
  split; [done|]. by rewrite Hc3, Hc2, Hc1.
Qed.

Lemma wpg_thread_exit t d v i ti mn ps shs m e e1 e2 e3 s (Q : bool → kst → Prop) :
  idle m → cprocs m !! d = Some (Some i) → full ps → ps !! i = Some ti → state ti = RUNNING →
  th_main ti = Some mn → i ≠ mn →
  begin_op e = Ok (tt, e1) → iput (cwd ti) e1 = Ok (tt, e2) → end_op e2 = Ok (tt, e3) →
  (∀ b m', gave_up d m m' → Q true (st (<[i := exited v b ti]> (alters (wake (ch_proc mn)) proc_table ps)) shs m' e3 s)) →
  wpg t (thread_exit d v) Q (st ps shs m e s).
Proof.
  intros Hi Hc Hf Hti Hst Hmn Hne H1 H2 H3 HQ. unfold thread_exit.
  apply wpg_bind, (wpg_myproc_idle _ _ _ _ _ _ _ _ _ Hi Hc). intros m1 Hi1 Hc1.
  do 2 tstep. rewrite Hmn. unfold ptr_eqb. rewrite bool_decide_false by congruence.
  do 8 tstep. apply wpg_bind. eapply wpg_acquire; [done|by rewrite Hc1|]. intros m2 Hcr2 Hc2.
  do 4 tstep. cbn [th_main set_retval set_cwd]. rewrite Hmn. set (ti' := set_retval v (set_cwd 0 ti)).
  assert (kin ps (<[i := ti']> ps)) as Hk by (by apply kin_insert with ti).
  apply wpg_bind, wpg_wakeup1; [by eapply kin_full|].
  assert (alters (wake (ch_proc mn)) proc_table (<[i := ti']> ps) !! i = Some ti') as Hlk.
  { rewrite lookup_alters, lookup_insert_eq; cbn. unfold wake. change (state ti') with (state ti). rewrite Hst. by case_decide. }
  apply wpg_bind. eapply tw_pset; [exact Hlk|]. apply wpg_bind.
  eapply wpg_sched; [done|by rewrite Hc2, Hc1|apply lookup_insert_eq|done|]. intros m3 Hcr3 Hc3. rewrite insert_insert_eq.
  assert (gave_up d m m3) as Hg by (split; [done|by rewrite Hc3, Hc2, Hc1]).
  apply wpg_ret. specialize (HQ (irq_on m2 d) m3 Hg). unfold exited in HQ. fold ti' in HQ.
  rewrite alters_insert_self. exact HQ.
Qed.

Lemma wpg_resume_join t c me p thread rv b ps shs m e s (Q : option Z → kst → Prop) :
  in_crit c ptable_lock m → cprocs m !! c = Some (Some me) → ps !! me = Some p → context p = T_join thread rv b →
  (∀ m', in_crit c ptable_lock m' → cprocs m' = cprocs m →
     wpg t (join_turn c (Some me) thread rv) Q (st (<[me := set_pchan ch_null p]> ps) shs m' e s)) →
  wpg t (resume c (Some me)) Q (st ps shs m e s).
Proof.
  intros Hcr Hc Hp Hctx HQ. unfold resume. do 2 tstep. rewrite Hctx.
  destruct (set_intena_crit _ _ _ _ b Hcr Hc) as (m' & H1 & H2 & H3 & _).
  apply wpg_bind. eapply wpg_onm; [exact H1|]. unfold sleep_return. do 2 apply wpg_bind.
  tstep. apply wpg_when_false; [by rewrite bool_decide_true|]. by apply HQ.
Qed.

(** C16. What [thread_join] and [thread_exit] do for each other.  A process that
    joins a running thread (one whose tid no other slot has) goes to sleep on
    its own [th_main].  The thread that exits, on whatever core once the lock
    is free, wakes the sleepers of the [th_main] of the thread, which is the
    thread that created it.  So the process becomes runnable exactly when the
    two agree (the main thread and the threads it made); a process that joins a
    thread made by another thread stays asleep although the thread has exited.
    When they agree and a scheduler picks the process, [thread_join] stores the
    value given to [thread_exit] where the process asked for it, gives the
    thread's slot and kernel stack back and returns 0. *)
Theorem join_gets_exit_value c d thread rv v s me cur i ti mc mt q l z post :
  idle (kmach s) → cprocs (kmach s) !! c = Some (Some me) → full (procs s) →
  procs s !! me = Some cur → killed cur = 0 → th_main cur = Some mc → me ∈ proc_table →
  procs s !! i = Some ti → state ti = RUNNING → tid ti = thread → th_main ti = Some mt →
  i ≠ mt → i ≠ me → i ∈ proc_table →
  (∀ x p, x ∈ proc_table → procs s !! x = Some p → tid p = thread → x = i) →
  shared_info ti = Some q → family (procs s) (shares s) q (l ++ z :: i :: post) →
  ∃ s1, thread_join c thread rv s = Ok (None, s1) ∧ tests (λ p, bool_decide (state p = SLEEPING)) (procs s1) me = true ∧
    gave_up c (kmach s) (kmach s1) ∧
  ∀ s2 e1 e2 e3, others_ran [me; i] q s1 s2 → idle (kmach s2) →
    cprocs (kmach s2) !! d = Some (Some i) →
    begin_op (kenv s2) = Ok (tt, e1) → iput (cwd ti) e1 = Ok (tt, e2) → end_op e2 = Ok (tt, e3) →
  ∃ s3 p3, thread_exit d v s2 = Ok (true, s3) ∧ procs s3 !! me = Some p3 ∧ 
    state p3 = (if decide (mc = mt) then RUNNABLE else SLEEPING) ∧ gave_up d (kmach s2) (kmach s3) ∧
  ∀ s4 c' e4 e5, mc = mt → others_ran [i] q s3 s4 → procs s4 !! me = Some (set_state RUNNING p3) →
    in_crit c' ptable_lock (kmach s4) → cprocs (kmach s4) !! c' = Some (Some me) →
    store_user (pgdir cur) rv v (kenv s4) = Ok (tt, e4) → kfree (kstack ti) e4 = Ok (tt, e5) →
  ∃ s5, resume c' (Some me) s4 = Ok (Some 0, s5) ∧ idle (kmach s5) ∧ kenv s5 = e5 ∧
    tests is_unused (procs s5) i = true ∧ family (procs s5) (shares s5) q (l ++ [z]).
Proof.
  intros Hi Hc Hf Hcur Hk Hmc Hmt Hti Hrun Htid Hmi Himn Hime Hit Huniq Hq Hfam.
  destruct (wp_ok (thread_join c thread rv) (λ r s1, r = None ∧ ∃ b,
     procs s1 = <[me := joining (ch_proc mc) thread rv b cur]> (procs s) ∧ shares s1 = shares s ∧
     gave_up c (kmach s) (kmach s1)) s)
    as (r & s1 & E1 & -> & b & Ep1 & Es1 & G1).
  { rewrite (st_id s) at 1. eapply wpg_join_sleeps; [done..| |].
    - intros x p Hx Hp Ht. rewrite (Huniq x p Hx Hp Ht) in Hp. simplify_eq. by rewrite Hrun.
    - intros b m' Hg. split; [done|]. exists b. by rewrite Hmc. }
  exists s1. split; [done|]. split; [unfold tests; by rewrite Ep1, lookup_insert_eq|]. split; [done|].
  set (cur1 := joining (ch_proc mc) thread rv b cur) in *.
  assert (kin (procs s) (procs s1)) as K1 by (rewrite Ep1; by apply kin_insert with cur).
  intros s2 e1 e2 e3 (K2 & Es2 & Ex2) Hi2 Hd2 H1 H2 H3. pose proof (kin_trans _ _ _ K1 K2) as K12.
  assert (procs s2 !! i = Some ti) as Hti2 by (rewrite Ex2, Ep1 by set_solver; by rewrite lookup_insert_ne).
  assert (procs s2 !! me = Some cur1) as Hme2 by (rewrite Ex2, Ep1 by set_solver; apply lookup_insert_eq).
  destruct (wp_ok (thread_exit d v) (λ r s3, r = true ∧ ∃ b',
     procs s3 = <[i := exited v b' ti]> (alters (wake (ch_proc mt)) proc_table (procs s2)) ∧
     shares s3 = shares s2 ∧ gave_up d (kmach s2) (kmach s3)) s2)
    as (r & s3 & E3 & -> & b' & Ep3 & Es3 & G3).
  { rewrite (st_id s2) at 1. eapply wpg_thread_exit; [done|done|by eapply kin_full|done..|].
    intros b' m' Hg. split; [done|]. by exists b'. }
  assert (procs s3 !! me = Some (wake (ch_proc mt) cur1)) as Hme3.
  { rewrite Ep3, lookup_insert_ne, lookup_alters, Hme2 by done. cbn. by rewrite decide_True. }
  exists s3, (wake (ch_proc mt) cur1). split; [done|]. split; [done|]. split.
  { unfold wake, cur1. cbn. rewrite bool_decide_true by done. cbn. destruct (decide (mc = mt)) as [->|Hne].
    - by rewrite bool_decide_true.
    - by rewrite bool_decide_false by (by intros [= ->]). }
  split; [done|].
  intros s4 c' e4 e5 <- (K4 & Es4 & Ex4) Hme4 Hcr4 Hc4 He4 He5.
  assert (wake (ch_proc mc) cur1 = set_state RUNNABLE cur1) as Ew by (unfold wake; by rewrite !bool_decide_true). rewrite Ew in *.
  assert (kin (procs s2) (procs s3)) as K3.
  { rewrite Ep3. by eapply kin_exit. }
  set (cur5 := set_pchan ch_null (set_state RUNNING (set_state RUNNABLE cur1))).
  assert (kin (procs s) (<[me := cur5]> (procs s4))) as K.
  { eapply kin_trans; [exact K12|]. eapply kin_trans; [exact K3|]. eapply kin_trans; [exact K4|].
    by apply kin_insert with (set_state RUNNING (set_state RUNNABLE cur1)). }
  destruct (wp_ok (resume c' (Some me)) (λ r s5, r = Some 0 ∧ idle (kmach s5) ∧ kenv s5 = e5 ∧
     tests is_unused (procs s5) i = true ∧ family (procs s5) (shares s5) q (l ++ [z])) s4)
    as (r & s5 & E5 & -> & H); [|by exists s5].
  rewrite (st_id s4) at 1. eapply wpg_resume_join; [done|done|exact Hme4|done|].
  intros m' Hcr' Hc'. eapply (wpg_join_turn _ _ _ cur5 _ _ _ _ _ _ _ _ i (exited v b' ti) q l z post);
    [done|by rewrite Hc'|by eapply kin_full|apply lookup_insert_eq|done| |done|done|by eapply kin_unique|done| |exact He4|exact He5|].
  - rewrite lookup_insert_ne, Ex4, Ep3 by set_solver. apply lookup_insert_eq.
  - eapply kin_family; [exact K|by rewrite Es4, Es3, Es2, Es1|done].
  - intros ps' shs' m'' Hm'' _ [J1 J2 J3]. split_and!; [done..| |done]. cbn. unfold tests. by rewrite J1.
Qed.
End ExitJoin.

Section Wait.
Context {KE : KernelEnv}.

(** [p->shared_info->parent] as core [c] reads it. *)
Definition parent_at (c : nat) (s : kst) (x : nat) : option ptr :=
  pr ← procs s !! x;
  sh ← (match shared_info pr with
        | Some q => shares s !! q
        | None => d ← cur_pgdir c s; low s !! d
        end);
  Some (parent sh).

Definition is_zombie (p : proc) : bool := bool_decide (state p = ZOMBIE).
Definition child (c : nat) (s : kst) (me x : nat) : bool :=
  bool_decide (parent_at c s x = Some (Some me)).

(** The zombie children of [me], in table order. *)
Definition zombies (c : nat) (s : kst) (me : nat) (l : list nat) : list nat :=
  List.filter (λ x, child c s me x && tests is_zombie (procs s) x) l.

Definition stacks (ps : gmap nat proc) (l : list nat) : list Z :=
  omap (λ x, kstack <$> ps !! x) l.

(** The variables of [wait] after the scan of [l]. *)
Definition wait_result (c : nat) (s : kst) (me : nat) (l : list nat) (v : wait_vars) : wait_vars :=
  let zs := zombies c s me l in
  mkWv (havekids v || existsb (child c s me) l)
       (zombiekids v + Z.of_nat (length zs))
       (match last zs ≫= (procs s !!.) with Some p => pid p | None => wpid v end)
       (match last zs ≫= (procs s !!.) with Some p => shared_info p | None => wshare v end).

Definition parents_ok (c : nat) (s : kst) : Prop :=
  ∀ x, x ∈ proc_table → is_Some (parent_at c s x).

Lemma alters_cons_out f x l (ps : gmap nat proc) p :
  ps !! x = Some p → x ∉ l → <[x := f p]> (alters f l ps) = alters f (x :: l) ps.
Proof.
  intros Hp Hx. apply map_eq. intros y. rewrite lookup_alters. destruct (decide (y = x)) as [->|].
  - rewrite lookup_insert_eq, Hp; cbn. by rewrite decide_True by set_solver.
  - rewrite lookup_insert_ne, lookup_alters by done. destruct (ps !! y); [|done]; cbn.
    f_equal. apply decide_ext. set_solver.
Qed.

(** Clearing zombies other than the current process does not move parents. *)
Lemma parent_at_cleared c s me l m e x :
  cprocs m !! c = Some (Some me) → cprocs (kmach s) !! c = Some (Some me) →
  parent_at c (st (alters cleared l (procs s)) (shares s) m e s) x = parent_at c s x.
Proof.
  intros Hc Hc'. unfold parent_at; cbn [procs st]. rewrite lookup_alters.
  destruct (procs s !! x) as [p|]; cbn; [|done].
  assert (shared_info (if decide (x ∈ l) then cleared p else p) = shared_info p) as -> by by case_decide.
  destruct (shared_info p) as [q|]; cbn; [done|]. f_equal. f_equal.
  unfold cur_pgdir; cbn. unfold cprocs in *. rewrite list_lookup_fmap in *.
  destruct (cpus m !! c) as [cp|]; [|done]. destruct (cpus (kmach s) !! c) as [cp'|]; [|done].
  injection Hc as Hc; injection Hc' as Hc'. cbn. rewrite Hc, Hc'; cbn. rewrite lookup_alters.
  destruct (procs s !! me); cbn; [|done]. by case_decide.
Qed.
Lemma wpg_sget_parent t c x pr o S (Q : share → kst → Prop) :
  parent_at c S x = Some o → procs S !! x = Some pr →
  (∀ sh, parent sh = o → Q sh S) → wpg t (sget c (shared_info pr)) Q S.
Proof.
  unfold parent_at. intros Ho Hpr HQ. rewrite Hpr in Ho; cbn in Ho.
  apply bind_Some in Ho as (sh & Hsh & [= Ho]). eapply wpg_deref; [|by apply HQ].
  by destruct (shared_info pr).
Qed.

Lemma zombies_cons c s me x l p b :
  procs s !! x = Some p → child c s me x = b →
  zombies c s me (x :: l) = (if b && is_zombie p then x :: zombies c s me l else zombies c s me l).
Proof. intros Hp Hb. unfold zombies, tests at 1. cbn [List.filter]. by rewrite Hp, Hb. Qed.

Lemma zombies_last c s me l y :
  last (zombies c s me l) = Some y → ∃ p, procs s !! y = Some p.
Proof.
  intros (_ & E)%last_Some_elem_of%list_elem_of_In%filter_In.
  apply andb_true_iff in E as [_ E]. unfold tests in E. destruct (procs s !! y); [eauto|done].
Qed.

Lemma wait_result_cons c s me x l v p b :
  procs s !! x = Some p → child c s me x = b →
  wait_result c s me (x :: l) v =
    wait_result c s me l
      (if b then if is_zombie p then mkWv true (zombiekids v + 1) (pid p) (shared_info p)
                 else mkWv true (zombiekids v) (wpid v) (wshare v)
       else v).
Proof.
  intros Hp Hb. unfold wait_result. rewrite (zombies_cons _ _ _ _ _ _ _ Hp Hb). cbn [existsb]. rewrite Hb.
  destruct b; cbn [andb]; [|f_equal].
  destruct (is_zombie p); cbn; rewrite orb_true_r; [|done]. f_equal; [lia|..];
    rewrite last_cons; destruct (last (zombies c s me l)) as [y|] eqn:E; cbn; rewrite ?Hp; try done;
    apply zombies_last in E as [? ->]; done.
Qed.

Lemma wpg_wait_scan t c me s m (Hc : cprocs m !! c = Some (Some me))
    (Hc' : cprocs (kmach s) !! c = Some (Some me)) e' : ∀ l l0 e v (Q : wait_vars → kst → Prop),
  (∀ x, x ∈ l → is_Some (parent_at c s x)) → NoDup l → (∀ x, x ∈ l → x ∉ l0) →
  for_each (stacks (procs s) (zombies c s me l)) kfree e = Ok (tt, e') →
  Q (wait_result c s me l v) (st (alters cleared (zombies c s me l ++ l0) (procs s)) (shares s) m e' s) →
  wpg t (wait_scan c l (Some me) v) Q (st (alters cleared l0 (procs s)) (shares s) m e s).
Proof.
  induction l as [|x l IH]; intros l0 e v Q Hok Hd Hdis He HQ; cbn [wait_scan].
  { injection He as <-. unfold wait_result in HQ. cbn in HQ. rewrite orb_false_r, Z.add_0_r in HQ.
    destruct v; exact HQ. }
  apply NoDup_cons in Hd as [Hx Hd].
  destruct (Hok x) as [o Ho]; [by left|].
  destruct (procs s !! x) as [p|] eqn:Hp; [|by unfold parent_at in Ho; rewrite Hp in Ho].
  assert (alters cleared l0 (procs s) !! x = Some p) as Hp'.
  { rewrite lookup_alters, Hp; cbn. rewrite decide_False; [done|]. apply Hdis. by left. }
  apply wpg_bind. unfold wait_body. apply wpg_bind, (tw_pget _ _ _ _ _ _ _ p); [done|].
  apply wpg_bind. eapply wpg_sget_parent; [by rewrite (parent_at_cleared c s me)|exact Hp'|]. intros sh Hsh. rewrite Hsh.
  assert (child c s me x = ptr_eqb o (Some me)) as Hch.
  { unfold child, ptr_eqb. rewrite Ho. apply bool_decide_ext. split; [by intros [= ->]|by intros ->]. }
  rewrite (wait_result_cons _ _ _ _ _ _ _ _ Hp Hch) in HQ.
  rewrite (zombies_cons _ _ _ _ _ _ _ Hp Hch) in He, HQ.
  assert (∀ x, x ∈ l → is_Some (parent_at c s x)) as Hok' by (intros; apply Hok; by right).
  destruct (ptr_eqb o (Some me)); cbn [negb andb] in *.
  - change (bool_decide (state p = ZOMBIE)) with (is_zombie p). destruct (is_zombie p).
    + cbn [stacks omap list_omap] in He. rewrite Hp in He; cbn in He.
      apply bind_ok_inv in He as ([] & e1 & He1 & He2).
      apply wpg_bind. eapply wpg_clear_slot; [exact Hp'|exact He1|].
      do 3 tstep. apply wpg_when_false; [done|]. apply wpg_ret. cbv beta.
      rewrite (alters_cons_out cleared x l0 _ p) by (try done; apply Hdis; by left).
      apply IH; [done|done| |exact He2|].
      * intros y Hy. rewrite elem_of_cons. intros [->|]; [done|]. by apply (Hdis y); [right|].
      * replace (alters cleared (zombies c s me l ++ x :: l0) (procs s))
          with (alters cleared ((x :: zombies c s me l) ++ l0) (procs s)); [exact HQ|].
        apply map_eq. intros y. rewrite !lookup_alters. destruct (procs s !! y); [|done]; cbn. f_equal.
        apply decide_ext. set_solver.
    + apply wpg_ret. cbv beta. apply IH; [done|done| |exact He|exact HQ]. intros y Hy. apply Hdis. by right.
  - apply wpg_ret. cbv beta. apply IH; [done|done| |exact He|exact HQ]. intros y Hy. apply Hdis. by right.
Qed.

(** A shared information after [dealloc_th_share]. *)
Definition freed_share (sh : share) : share := mkShare 0 None (ofile sh) 0 0 None None EMPTY.

(** C17. [wait] with zombie children: it clears the slots of all of them
    (every thread of every dead child), releases the shared information of
    the last one and returns its pid.  The only calls it makes into the
    memory and file subsystems free the kernel stacks: the page tables and
    the open files of the children are not released, because the test for
    the main thread reads [th_main] after it was cleared. *)
Theorem wait_frees_stacks_only c s me z zp q sh e' :
  idle (kmach s) → cprocs (kmach s) !! c = Some (Some me) → parents_ok c s →
  last (zombies c s me proc_table) = Some z → procs s !! z = Some zp →
  shared_info zp = Some q → shares s !! q = Some sh →
  for_each (stacks (procs s) (zombies c s me proc_table)) kfree (kenv s) = Ok (tt, e') →
  ∃ m', idle m' ∧
    wait c s = Ok (Some (pid zp),
      st (alters cleared (zombies c s me proc_table) (procs s)) (<[q := freed_share sh]> (shares s)) m' e' s).
Proof.
  intros Hi Hc Hok Hz Hzp Hq Hsh He.
  apply (run_ok _ _ s idle (λ m', st _ _ m' _ s)). unfold wait, wait_turn.
  apply wpg_bind, (wpg_myproc_idle _ _ _ _ _ _ _ _ _ Hi Hc). intros m1 Hi1 Hc1.
  apply wpg_bind. eapply wpg_acquire; [done|by rewrite Hc1|]. intros m2 Hcr2 Hc2.
  apply wpg_bind. rewrite <- (alters_nil cleared (procs s)) at 1.
  eapply (wpg_wait_scan _ c me s m2);
    [by rewrite Hc2, Hc1|exact Hc|exact Hok|apply NoDup_seq|intros ? _; apply not_elem_of_nil|exact He|].
  rewrite app_nil_r. unfold wait_result. rewrite Hz; cbn [mbind option_bind zombiekids wpid wshare]. rewrite Hzp.
  assert (negb (0 + Z.of_nat (length (zombies c s me proc_table)) =? 0) = true) as ->.
  { destruct (zombies c s me proc_table); [done|]. cbn [length]. rewrite negb_true_iff, Z.eqb_neq. lia. }
  rewrite Hq. apply wpg_bind. unfold dealloc_th_share. tsteps.
  eapply wpg_release; [done|by rewrite Hc2, Hc1|]. intros m3 Hi3 _.
  tstep. split; [done|]. by exists m3.
Qed.
End Wait.

Section Limit.
Context {KE : KernelEnv} {UL : UvmLaws KE}.

Lemma wpg_switchuvm t c o ps shs m e s i pr (Q : unit → kst → Prop) :
  idle m → cprocs m !! c = Some o → ps !! i = Some pr → kstack pr ≠ 0 → pgdir pr ≠ 0 →
  (∀ m', idle m' → cprocs m' = cprocs m → Q tt (st ps shs m' e s)) →
  wpg t (switchuvm c (Some i)) Q (st ps shs m e s).
Proof.
  intros Hi Hc Hp Hk Hd HQ. unfold switchuvm. change (ptr_eqb (Some i) None) with false. cbv iota.
  tsteps. destruct (Z.eqb_spec (kstack pr) 0); [done|]. destruct (Z.eqb_spec (pgdir pr) 0); [done|].
  destruct (push_pop_idle _ _ _ Hc Hi) as (m1 & m' & H1 & H2 & H3 & H4).
  apply wpg_bind. eapply wpg_onm; [exact H1|]. eapply wpg_onm; [exact H2|]. by apply HQ.
Qed.

(** The end of [growproc]: the new size, and the page table reloaded. *)
Lemma wpg_set_size t c q v me cur sh ps shs m e s (Q : Z → kst → Prop) :
  idle m → cprocs m !! c = Some (Some me) → ps !! me = Some cur → kstack cur ≠ 0 → pgdir cur ≠ 0 →
  shs !! q = Some sh →
  (∀ m', idle m' → cprocs m' = cprocs m → Q 0 (st ps (<[q := set_sz v sh]> shs) m' e s)) →
  wpg t (sset c (Some q) (set_sz v) ;; switchuvm c (Some me) ;; mret 0) Q (st ps shs m e s).
Proof.
  intros Hi Hc Hp Hk Hd Hsh HQ. do 2 tstep. apply wpg_bind.
  eapply wpg_switchuvm; [done..|]. intros m' Hi' Hc'. by apply wpg_ret, HQ.
Qed.

(** [growproc] under a memory limit: refused, out of memory, or granted. *)
Lemma wpg_growproc t c n me cur q sh v ps shs m e e' s (Q : Z → kst → Prop) :
  idle m → cprocs m !! c = Some (Some me) →
  ps !! me = Some cur → kstack cur ≠ 0 → pgdir cur ≠ 0 → shared_info cur = Some q → shs !! q = Some sh →
  0 ≤ sz sh → 0 < memory_limit sh < 2 ^ 31 → sz sh ≤ memory_limit sh →
  (n > 0 → allocuvm (pgdir cur) (sz sh) (u32 (sz sh + n)) e = Ok (v, e')) →
  (n < 0 → deallocuvm (pgdir cur) (sz sh) (u32 (sz sh + n)) e = Ok (v, e')) →
  (n = 0 → v = sz sh ∧ e' = e) →
  (∀ m', idle m' → cprocs m' = cprocs m →
     (u32 (sz sh + n) > memory_limit sh → Q (-1) (st ps shs m' e s)) ∧
     (v = 0 → Q (-1) (st ps shs m' e' s)) ∧
     (v ≤ memory_limit sh → Q 0 (st ps (<[q := set_sz v sh]> shs) m' e' s))) →
  wpg t (growproc c n) Q (st ps shs m e s).
Proof.
  intros Hi Hc Hcur Hk Hd Hq Hsh Hsz Hlim Hle Hpos Hneg Hzero HQ. unfold growproc.
  apply wpg_bind, (wpg_myproc_idle _ _ _ _ _ _ _ _ _ Hi Hc). intros m1 Hi1 Hc1.
  do 2 tstep. rewrite Hq. do 2 tstep.
  cbv zeta. rewrite (proj2 (Z.eqb_neq _ 0)), (u32_id (memory_limit sh)) by lia. cbn [negb andb].
  destruct (Z.gtb_spec (u32 (sz sh + n)) (memory_limit sh)) as [Hgt|Hnle].
  { apply wpg_ret, (HQ m1); [done|done|lia]. }
  assert (v ≤ memory_limit sh →
    wpg t (sset c (Some q) (set_sz v) ;; switchuvm c (Some me) ;; mret 0) Q (st ps shs m1 e' s)) as Hfin.
  { intros Hv. eapply wpg_set_size; [done|by rewrite Hc1|done..|]. intros m2 Hi2 Hc2.
    apply HQ; [done|by rewrite Hc2|done]. }
  destruct (Z.gtb_spec n 0) as [Hn|Hn]; [|destruct (Z.ltb_spec n 0) as [Hn'|Hn']].
  - apply wpg_bind; eapply wpg_one; [by apply Hpos; lia|].
    destruct (Z.eqb_spec v 0); [by apply wpg_ret, (HQ m1)|]. apply Hfin.
    destruct (allocuvm_size _ _ _ _ _ _ (Hpos ltac:(lia))) as [|E']; [done|].
    destruct (Z.ltb_spec (u32 (sz sh + n)) (sz sh)); lia.
  - apply wpg_bind; eapply wpg_one; [by apply Hneg; lia|].
    destruct (Z.eqb_spec v 0); [by apply wpg_ret, (HQ m1)|]. apply Hfin.
    pose proof (deallocuvm_size _ _ _ _ _ _ (Hneg Hn')) as E'.
    destruct (Z.leb_spec (sz sh) (u32 (sz sh + n))); lia.
  - destruct Hzero as [-> ->]; [lia|]. by apply Hfin.
Qed.

(** [growproc] keeps the size of a process within its memory limit,
    whatever the (signed) increment and although the comparison wraps at 32
    bits: a request beyond the limit is refused with -1 and nothing changes;
    a granted one returns 0 and sets the size the page table code returned,
    which is at most the limit. *)
Theorem growproc_respects_limit c n s me cur q sh v e' :
  idle (kmach s) → cprocs (kmach s) !! c = Some (Some me) →
  procs s !! me = Some cur → kstack cur ≠ 0 → pgdir cur ≠ 0 →
  shared_info cur = Some q → shares s !! q = Some sh →
  0 ≤ sz sh → 0 < memory_limit sh < 2 ^ 31 → sz sh ≤ memory_limit sh →
  (n > 0 → allocuvm (pgdir cur) (sz sh) (u32 (sz sh + n)) (kenv s) = Ok (v, e')) →
  (n < 0 → deallocuvm (pgdir cur) (sz sh) (u32 (sz sh + n)) (kenv s) = Ok (v, e')) →
  (n = 0 → v = sz sh ∧ e' = kenv s) →
  ∃ m', idle m' ∧
    (u32 (sz sh + n) > memory_limit sh ∧ growproc c n s = Ok (-1, st (procs s) (shares s) m' (kenv s) s)
     ∨ v = 0 ∧ growproc c n s = Ok (-1, st (procs s) (shares s) m' e' s)
     ∨ v ≤ memory_limit sh ∧
       growproc c n s = Ok (0, st (procs s) (<[q := set_sz v sh]> (shares s)) m' e' s)).
Proof.
  intros Hi Hc Hcur Hk Hd Hq Hsh Hsz Hlim Hle Hpos Hneg Hzero.
  destruct (wp_ok (growproc c n) (λ r s', ∃ m', idle m' ∧
     (u32 (sz sh + n) > memory_limit sh ∧ r = -1 ∧ s' = st (procs s) (shares s) m' (kenv s) s
      ∨ v = 0 ∧ r = -1 ∧ s' = st (procs s) (shares s) m' e' s
      ∨ v ≤ memory_limit sh ∧ r = 0 ∧ s' = st (procs s) (<[q := set_sz v sh]> (shares s)) m' e' s)) s)
    as (r & s' & E & m' & Hm & H); [|exists m'; naive_solver].
  rewrite (st_id s) at 1. eapply (wpg_growproc _ _ _ me cur q sh v); [done..|].
  intros m' Hi' _. split_and!; intros ?; exists m'; tauto.
Qed.
End Limit.
