(* ===== verification/ThreadsDemo.v ===== *)
(** * Runs of the LWP kernel, and the properties of [ThreadsProps] on them *)

From S2P Require Export ThreadsProps.
Local Open Scope Z_scope.

(** Run [f] and keep the state. *)
Definition th_do {A} (f : M kst A) (s : kst) : kst :=
  match f s with Ok (_, s') => s' | _ => s end.
Fixpoint th_run (l : list (kst → kst)) (s : kst) : kst :=
  match l with [] => s | f :: l => th_run l (f s) end.

(** User memory at address 0 that holds no pointer to a process. *)
Definition th_low : kst → kst := set_low (list_to_map ((λ d, (d, share0)) <$> [8192; 16384])).

(** init on core 0, its child [P] (slot 1, pid 2) on core 1. *)
Definition th_two : kst :=
  th_run [th_do pinit; th_do (userinit 0); th_low; th_do (scheduler_pass 0); th_do (fork 0);
          th_do (scheduler_pass 1)] (@boot demo_env two_cores (0 : Z)).
(** [P] with two threads (slots 2 and 3). *)
Definition th_threads : kst :=
  th_run [th_do (thread_create 1 64 128 5); th_do (thread_create 1 68 128 6)] th_two.
(** The first thread has exited with 7 and [P] runs again. *)
Definition th_exited : kst :=
  th_run [th_do (yield 1); th_do (scheduler_next 1); th_do (thread_exit 1 7); th_do (scheduler_next 1);
          th_do (yield 1); th_do (scheduler_next 1); th_do (scheduler_pass 1)] th_threads.
(** [P] has joined the first thread. *)
Definition th_joined : kst := th_run [th_do (thread_join 1 3 72)] th_exited.
(** [P] has exited with both threads still there. *)
Definition th_dead : kst := th_run [th_do (exit 1); th_do (scheduler_next 1)] th_threads.
Definition th_limited (n limit : Z) : kst :=
  th_run [th_do (growproc 1 n); th_do (setmemorylimit 0 2 limit)] th_two.

(** Facts about a slot of a computed state. *)
Lemma slot_fact {A} (g : proc → A) (ps : gmap nat proc) i v :
  g <$> ps !! i = Some v → ∃ p, ps !! i = Some p ∧ g p = v.
Proof. intros (p & ? & ?)%fmap_Some. eauto. Qed.
Lemma share_fact {A} (g : share → A) (shs : gmap nat share) i v :
  g <$> shs !! i = Some v → ∃ p, shs !! i = Some p ∧ g p = v.
Proof. intros (p & ? & ?)%fmap_Some. eauto. Qed.

Ltac vm := vm_compute; reflexivity.
Ltac th_idle := apply idleb_sound; vm.
Ltac th_family := apply familyb_sound; vm.
Ltac th_full := apply fullb_sound; vm.

(** The same with nothing mapped at 0. *)
Definition th_bare : kst := set_low ∅ th_threads.

(** init kills [P] and its two threads; with a page table that maps nothing at
    0, [kill(0)] faults on a free slot. *)
Lemma kill_marks_family_witness :
  (∃ m', idle m' ∧ kill 0 2 th_threads =
    Ok (0, st (marked 1 [1;2;3]%nat (procs th_threads)) (shares th_threads) m' (kenv th_threads) th_threads)) ∧
  kill 0 0 th_bare = Fault.
Proof.
  assert (idle (kmach th_threads)) as Hi by th_idle.
  assert (full (procs th_threads)) as Hf by th_full.
  assert (cprocs (kmach th_threads) !! 0%nat = Some (Some 0%nat)) as Hc by vm.
  destruct (slot_fact pgdir (procs th_threads) 0 8192) as (cur & Hcur & _); [vm|].
  pose proof (kill_marks_family 0 2 th_threads 0 cur Hi Hc Hf Hcur) as H.
  assert (first_slot (λ p, pid p =? 2) (procs th_threads) proc_table = Some 1%nat) as E by vm.
  rewrite E in H. destruct H as (pi & Hpi & _ & H).
  destruct (slot_fact shared_info (procs th_threads) 1 (Some 1%nat)) as (pi' & Hpi' & Hq); [vm|].
  rewrite Hpi in Hpi'. injection Hpi' as <-. rewrite Hq in H.
  assert (family (procs th_threads) (shares th_threads) 1 [1;2;3]%nat) as Hfam by th_family.
  split; [exact (proj1 (H [1;2;3]%nat Hfam))|].
  assert (idle (kmach th_bare)) as Hi0 by th_idle.
  assert (full (procs th_bare)) as Hf0 by th_full.
  assert (cprocs (kmach th_bare) !! 0%nat = Some (Some 0%nat)) as Hc0 by vm.
  destruct (slot_fact pgdir (procs th_bare) 0 8192) as (cur0 & Hcur0 & Hpg); [vm|].
  pose proof (kill_marks_family 0 0 th_bare 0 cur0 Hi0 Hc0 Hf0 Hcur0) as H0.
  assert (first_slot (λ p, pid p =? 0) (procs th_bare) proc_table = Some 4%nat) as E0 by vm.
  rewrite E0 in H0. destruct H0 as (p4 & Hp4 & _ & H0).
  destruct (slot_fact shared_info (procs th_bare) 4 None) as (p4' & Hp4' & Hq4); [vm|].
  rewrite Hp4 in Hp4'. injection Hp4' as <-. rewrite Hq4, Hpg in H0.
  assert (low th_bare !! 8192 = None) as El by vm. rewrite El in H0. exact H0.
Defined.

(** [P] creates its second thread. *)
Definition th_one : kst := th_do (thread_create 1 64 128 5) th_two.

Lemma thread_create_appends_witness :
  ∃ a s', thread_create 1 68 128 6 th_one = Ok (a, s') ∧ a = 0 ∧ family (procs s') (shares s') 1 [1;2;3]%nat.
Proof.
  assert (idle (kmach th_one)) as Hi by th_idle.
  assert (full (procs th_one)) as Hf by th_full.
  assert (cprocs (kmach th_one) !! 1%nat = Some (Some 1%nat)) as Hc by vm.
  destruct (slot_fact (λ p, (shared_info p, cwd p, pgdir p)) (procs th_one) 1 (Some 1%nat, 1, 16384)) as (cur & Hcur & E); [vm|].
  injection E as Hq Hcwd Hpg.
  destruct (share_fact (λ sh, (sz sh, memory_limit sh)) (shares th_one) 1 (12288, 0)) as (sh & Hsh & E); [vm|].
  injection E as Hsz Hlim.
  assert (family (procs th_one) (shares th_one) 1 [1;2]%nat) as Hfam by th_family.
  assert (first_slot is_unused (procs th_one) proc_table = Some 3%nat) as Hfs by vm.
  destruct (slot_fact state (procs th_one) 3 UNUSED) as (pi & Hpi & _); [vm|].
  assert (kalloc (kenv th_one) = Ok (4096 * (kenv th_one + 1), kenv th_one + 1)) as Hk by reflexivity.
  edestruct (thread_create_appends 1 68 128 6 th_one 1 cur 1 sh [1;2]%nat 3 pi
    (4096 * (kenv th_one + 1)) (cwd cur) 20480) as ((m' & _ & H1) & H2);
    [exact Hi|exact Hc|exact Hf|exact Hcur|exact Hq|exact Hsh|exact Hfam|by left|by left|exact Hfs|exact Hpi
    |exact Hk|vm_compute; discriminate|reflexivity|rewrite Hsz; reflexivity|discriminate|reflexivity..|cbn; unfold NPROC; lia|].
  eexists _, _. split; [exact H1|]. split; [reflexivity|exact H2].
Defined.

(** [P] joins its first thread: the second one is cut off. *)
Lemma thread_join_truncates_witness :
  ∃ s', thread_join 1 3 72 th_exited = Ok (Some 0, s') ∧ family (procs s') (shares s') 1 [1]%nat.
Proof.
  assert (idle (kmach th_exited)) as Hi by th_idle.
  assert (full (procs th_exited)) as Hf by th_full.
  assert (cprocs (kmach th_exited) !! 1%nat = Some (Some 1%nat)) as Hc by vm.
  destruct (slot_fact pgdir (procs th_exited) 1 16384) as (cur & Hcur & _); [vm|].
  destruct (slot_fact (λ p, (state p, tid p, shared_info p)) (procs th_exited) 2 (ZOMBIE, 3, Some 1%nat))
    as (zi & Hzi & E); [vm|]. injection E as Hst Htid Hq.
  assert (family (procs th_exited) (shares th_exited) 1 ([] ++ 1 :: 2 :: [3])%nat) as Hfam by th_family.
  destruct (thread_join_truncates 1 3 72 th_exited 1 cur 2 zi 1 [] 1 [3]%nat (kenv th_exited) (kenv th_exited))
    as (ps & shs & (m' & _ & H1) & _ & H2 & _);
    [exact Hi|exact Hc|exact Hf|exact Hcur|apply elem_of_seq; unfold NPROC; lia|exact Hzi|exact Hst|exact Htid| |exact Hq|exact Hfam|reflexivity..|].
  - assert (forallb (λ x, match procs th_exited !! x with Some p => negb (tid p =? 3) || (x =? 2)%nat | None => true end)
      proc_table = true) as Hb by vm.
    rewrite forallb_forall in Hb. intros x p Hx%list_elem_of_In Hp Ht. specialize (Hb x Hx). cbv beta in Hb.
    rewrite Hp, Ht in Hb. cbn in Hb. by apply Nat.eqb_eq in Hb.
  - eexists. split; [exact H1|exact H2].
Defined.

(** [P] on core 1, its first thread on core 0. *)
Definition th_par : kst := th_run [th_do (yield 0); th_do (scheduler_next 0)] th_threads.

(** [P] joins its first thread, which exits with 7 after the scheduler of core
    1 has let the lock go; then the scheduler of core 0 picks [P]. *)
Lemma join_gets_exit_value_witness :
  ∃ s1 s3 s4 s5, thread_join 1 3 72 th_par = Ok (None, s1) ∧
    thread_exit 0 7 (th_do (onm (release 1 ptable_lock)) s1) = Ok (true, s3) ∧
    resume 0 (Some 1%nat) s4 = Ok (Some 0, s5) ∧ tests is_unused (procs s5) 2 = true.
Proof.
  assert (idle (kmach th_par)) as Hi by th_idle.
  assert (full (procs th_par)) as Hf by th_full.
  assert (cprocs (kmach th_par) !! 1%nat = Some (Some 1%nat)) as Hc by vm.
  destruct (slot_fact (λ p, (killed p, th_main p, pgdir p)) (procs th_par) 1 (0, Some 1%nat, 16384)) as (cur & Hcur & E); [vm|].
  injection E as Hk Hm Hpg.
  destruct (slot_fact (λ p, (state p, tid p, shared_info p, th_main p)) (procs th_par) 2 (RUNNING, 3, Some 1%nat, Some 1%nat))
    as (ti & Hti & E); [vm|]. injection E as Hst Htid Hq Hmi.
  assert (family (procs th_par) (shares th_par) 1 ([] ++ 1 :: 2 :: [3])%nat) as Hfam by th_family.
  destruct (join_gets_exit_value 1 0 3 72 7 th_par 1 cur 2 ti 1 1 1 [] 1 [3]%nat) as (s1 & E1 & _ & [G1 C1] & H1);
    [exact Hi|exact Hc|exact Hf|exact Hcur|exact Hk|exact Hm|apply elem_of_seq; unfold NPROC; lia|exact Hti|exact Hst|exact Htid|exact Hmi
    |discriminate|discriminate|apply elem_of_seq; unfold NPROC; lia| |exact Hq|exact Hfam|].
  { assert (forallb (λ x, match procs th_par !! x with Some p => negb (tid p =? 3) || (x =? 2)%nat | None => true end)
      proc_table = true) as Hb by vm.
    rewrite forallb_forall in Hb. intros x p Hx%list_elem_of_In Hp Ht. specialize (Hb x Hx). cbv beta in Hb.
    rewrite Hp, Ht in Hb. cbn in Hb. by apply Nat.eqb_eq in Hb. }
  destruct (release_crit 1 ptable_lock _ G1) as (m2 & R2 & I2 & C2).
  assert (onm (release 1 ptable_lock) s1 = Ok (tt, set_kmach m2 s1)) as E2 by (unfold onm, zoom; by rewrite R2).
  assert (th_do (onm (release 1 ptable_lock)) s1 = set_kmach m2 s1) as Eth by (unfold th_do; by rewrite E2).
  destruct (H1 (set_kmach m2 s1) (kenv s1) (kenv s1) (kenv s1)) as (s3 & p3 & E3 & Hp3 & _ & [G3 C3] & H3);
    [split; [apply kin_refl|by split]|exact I2
    |cbn [kmach set_kmach]; rewrite C2, C1; vm|reflexivity..|].
  assert (cprocs (kmach s3) !! 0%nat = Some None) as Hc3.
  { rewrite C3. cbn [kmach set_kmach]. rewrite C2, C1. vm. }
  destruct (set_cproc_crit 0 ptable_lock (Some 1%nat) None _ Hc3 G3) as [G4 C4].
  set (s4 := set_kmach (set_cproc 0 (Some 1%nat) (kmach s3)) (set_procs (<[1%nat := set_state RUNNING p3]> (procs s3)) s3)).
  destruct (H3 s4 0%nat (kenv s3) (kenv s3) eq_refl) as (s5 & E5 & _ & _ & Hu & _).
  - split; [|split; [reflexivity|]].
    + apply kin_insert with p3; [exact Hp3|].
      split; [reflexivity|]. split; [reflexivity|]. split; [reflexivity|]. intros _. discriminate.
    + intros x ->%list_elem_of_singleton. unfold s4; cbn [procs set_kmach set_procs].
      rewrite lookup_insert_ne by discriminate. reflexivity.
  - apply lookup_insert_eq.
  - exact G4.
  - cbn [kmach s4 set_kmach]. rewrite C4, C3. cbn [kmach set_kmach]. rewrite C2, C1. vm.
  - reflexivity.
  - reflexivity.
  - exists s1, s3, s4, s5. split; [exact E1|]. rewrite Eth. split; [exact E3|]. split; [exact E5|exact Hu].
Defined.

(** After that join, [kill] no longer reaches the second thread. *)
Example join_hides_thread_from_kill :
  (λ p, (state p, pid p, killed p)) <$> procs (th_do (kill 0 2) th_joined) !! 3%nat = Some (RUNNABLE, 2, 0).
Proof. vm. Qed.

(** init waits for [P], which died with two threads. *)
Lemma wait_frees_stacks_only_witness :
  ∃ s', wait 0 th_dead = Ok (Some 2, s') ∧ map state <$> mapM (procs s' !!.) [1;2;3]%nat = Some [UNUSED; UNUSED; UNUSED].
Proof.
  assert (idle (kmach th_dead)) as Hi by th_idle.
  assert (cprocs (kmach th_dead) !! 0%nat = Some (Some 0%nat)) as Hc by vm.
  assert (parents_ok 0 th_dead) as Hok.
  { assert (forallb (λ x, match parent_at 0 th_dead x with Some _ => true | None => false end) proc_table = true) as Hb by vm.
    rewrite forallb_forall in Hb. intros x Hx%list_elem_of_In. specialize (Hb x Hx). cbv beta in Hb.
    destruct (parent_at 0 th_dead x); [eauto|discriminate]. }
  assert (last (zombies 0 th_dead 0 proc_table) = Some 3%nat) as Hz by vm.
  destruct (slot_fact (λ p, (pid p, shared_info p)) (procs th_dead) 3 (2, Some 1%nat)) as (zp & Hzp & E); [vm|].
  injection E as Hpid Hq.
  destruct (share_fact sz (shares th_dead) 1 20480) as (sh & Hsh & _); [vm|].
  destruct (wait_frees_stacks_only 0 th_dead 0 3 zp 1 sh (kenv th_dead) Hi Hc Hok Hz Hzp Hq Hsh) as (m' & _ & H); [vm|].
  rewrite Hpid in H. eexists. split; [exact H|]. vm.
Defined.

(** [P] asks for a page more under a limit of 16000 bytes. *)
Lemma growproc_respects_limit_witness :
  ∃ s', growproc 1 4096 (th_limited 1 16000) = Ok (0, s') ∧ sz <$> shares s' !! 1%nat = Some 8193.
Proof.
  set (s := th_limited 1 16000).
  assert (idle (kmach s)) as Hi by th_idle.
  assert (cprocs (kmach s) !! 1%nat = Some (Some 1%nat)) as Hc by vm.
  destruct (slot_fact (λ p, (kstack p, pgdir p, shared_info p)) (procs s) 1 (12288, 16384, Some 1%nat)) as (cur & Hcur & E); [vm|].
  injection E as Hk Hd Hq.
  destruct (share_fact (λ sh, (sz sh, memory_limit sh)) (shares s) 1 (4097, 16000)) as (sh & Hsh & E); [vm|].
  injection E as Hsz Hlim.
  destruct (growproc_respects_limit 1 4096 s 1 cur 1 sh 8193 (kenv s)) as (m' & _ & [[H _]|[[H _]|[_ H]]]);
    [exact Hi|exact Hc|exact Hcur|rewrite Hk; discriminate|rewrite Hd; discriminate|exact Hq|exact Hsh
    |lia|lia|lia|intros _; rewrite Hsz; reflexivity|lia|lia| | |].
  - rewrite Hsz, Hlim in H. by vm_compute in H.
  - lia.
  - eexists. split; [exact H|]. reflexivity.
Defined.

(** [thread_create] compares the limit with the current size plus two
    pages but rounds the size up to a page first: a process whose size is not
    a multiple of the page size ends above its memory limit. *)
Theorem thread_create_exceeds_limit :
  let s := th_limited 1 (4097 + 8192) in
  (λ sh, (sz sh, memory_limit sh)) <$> shares s !! 1%nat = Some (4097, 12289) ∧
  ∃ s', thread_create 1 64 128 5 s = Ok (0, s') ∧
    (λ sh, (sz sh, memory_limit sh)) <$> shares s' !! 1%nat = Some (16384, 12289).
Proof.
  split; [vm|]. exists (th_do (thread_create 1 64 128 5) (th_limited 1 (4097 + 8192))). split; vm.
Qed.

(** A lost wake-up: the thread in slot 2 creates the one in slot 4 (tid 5), [P]
    joins it, it exits, and [P] still sleeps. *)
Definition th_lost : kst :=
  th_run [th_do (thread_create 0 64 128 5); th_do (yield 0); th_do (scheduler_next 0);
          th_do (yield 0); th_do (scheduler_next 0); th_do (thread_join 1 5 72);
          th_do (onm (release 1 ptable_lock)); th_do (thread_exit 0 9)] th_par.
Example join_loses_wakeup :
  (λ p, (tid p, state p, th_main p)) <$> procs th_lost !! 4%nat = Some (5, ZOMBIE, Some 2%nat) ∧
  (λ p, (state p, pchan p)) <$> procs th_lost !! 1%nat = Some (SLEEPING, ch_proc 1).
Proof. split; vm_compute; reflexivity. Qed.
