(* ===== verification/Bytes.v ===== *)
(** * Little-endian fields in byte arrays

    The C code reads and writes [short], [ushort], [int] and [uint] fields
    through pointers into byte buffers (on-disk inodes, directory entries, the
    log header, indirect blocks).  A field of [k] bytes at offset [off] is the
    little-endian number of these bytes. *)

From S2P Require Export Prelude.
Local Open Scope Z_scope.

Abbreviation bytes := (list Z).
Definition is_bytes (l : bytes) : Prop := Forall (λ b, 0 ≤ b < 256) l.

Fixpoint le_split (k : nat) (v : Z) : bytes :=
  match k with O => [] | S k => v `mod` 256 :: le_split k (v / 256) end.
Fixpoint le_combine (l : bytes) : Z :=
  match l with [] => 0 | b :: l => b + 256 * le_combine l end.

Definition get_le (k : nat) (l : bytes) (off : nat) : Z := le_combine (take k (drop off l)).
Definition put_le (k : nat) (l : bytes) (off : nat) (v : Z) : bytes :=
  list_inserts off (le_split k v) l.

Abbreviation get32 := (get_le 4).
Abbreviation put32 := (put_le 4).
Abbreviation get16 := (get_le 2).
Abbreviation put16 := (put_le 2).

(** [memmove] of [src] into [l] at [off]. *)
Definition splice (l : bytes) (off : nat) (src : bytes) : bytes := list_inserts off src l.

Lemma le_split_length k v : length (le_split k v) = k.
Proof. revert v. induction k as [|k IH]; intros v; cbn; [done|]. by rewrite IH. Qed.

Lemma le_combine_split k v : le_combine (le_split k v) = v `mod` 256 ^ Z.of_nat k.
Proof.
  revert v. induction k as [|k IH]; intros v; [cbn; by rewrite Z.mod_1_r|].
  cbn [le_split le_combine]. rewrite IH, Nat2Z.inj_succ, Z.pow_succ_r by lia.
  rewrite Z.rem_mul_r by lia. lia.
Qed.

Lemma le_split_bytes k v : is_bytes (le_split k v).
Proof.
  revert v. induction k as [|k IH]; intros v; cbn; [by constructor|]. constructor; [|apply IH].
  apply Z.mod_pos_bound. lia.
Qed.

Lemma le_combine_range l : is_bytes l → 0 ≤ le_combine l < 256 ^ Z.of_nat (length l).
Proof.
  induction 1 as [|b l Hb Hl IH]; cbn [le_combine length]; [lia|].
  rewrite Nat2Z.inj_succ, Z.pow_succ_r by lia. lia.
Qed.

Lemma le_split_combine l : is_bytes l → le_split (length l) (le_combine l) = l.
Proof.
  induction 1 as [|b l Hb Hl IH]; cbn [le_combine length le_split]; [done|].
  f_equal.
  - rewrite Z.mul_comm, Z_mod_plus_full. by apply Z.mod_small.
  - rewrite Z.mul_comm, Z_div_plus_full, Z.div_small by lia. by rewrite Z.add_0_l.
Qed.

Lemma put_le_length k l off v : length (put_le k l off v) = length l.
Proof. apply length_inserts. Qed.
Lemma splice_length l off src : length (splice l off src) = length l.
Proof. apply length_inserts. Qed.

Lemma insert_at {A} (l : list A) x y r : <[length l := y]> (l ++ x :: r) = l ++ y :: r.
Proof. by rewrite insert_app_r_alt, Nat.sub_diag by lia. Qed.

Lemma splice_app (a b src : bytes) :
  (length src ≤ length b)%nat → splice (a ++ b) (length a) src = a ++ src ++ drop (length src) b.
Proof.
  intros H. unfold splice. rewrite <- (Nat.add_0_r (length a)), list_inserts_app_r. f_equal.
  rewrite <- (take_drop (length src) b) at 1. apply list_inserts_0_r. rewrite length_take. lia.
Qed.
Lemma splice_front (name src : bytes) : (length src ≤ length name)%nat → splice name 0 src = src ++ drop (length src) name.
Proof. apply (splice_app [] name src). Qed.

(** Slices of an updated list. *)
Lemma slice_inserts_eq (l src : bytes) off :
  (off + length src ≤ length l)%nat → take (length src) (drop off (list_inserts off src l)) = src.
Proof.
  intros Hl. apply list_eq. intros i. destruct (decide (i < length src)%nat) as [Hi|Hi].
  - rewrite lookup_take_lt, lookup_drop by done. rewrite list_lookup_inserts by lia. f_equal. lia.
  - rewrite lookup_take_ge by lia. symmetry. apply lookup_ge_None. lia.
Qed.

Lemma slice_inserts_ne (l src : bytes) off k i :
  (i + k ≤ off ∨ off + length src ≤ i)%nat → take k (drop i (list_inserts off src l)) = take k (drop i l).
Proof.
  intros Hd. apply list_eq. intros j. destruct (decide (j < k)%nat) as [Hj|Hj].
  - rewrite !lookup_take_lt, !lookup_drop by done. destruct Hd.
    + by rewrite list_lookup_inserts_lt by lia.
    + by rewrite list_lookup_inserts_ge by lia.
  - by rewrite !lookup_take_ge by lia.
Qed.

Lemma get_put_le k l off v :
  (off + k ≤ length l)%nat → 0 ≤ v < 256 ^ Z.of_nat k → get_le k (put_le k l off v) off = v.
Proof.
  intros Hl Hv. unfold get_le, put_le. pose proof (slice_inserts_eq l (le_split k v) off) as H.
  rewrite le_split_length in H. rewrite H by done. rewrite le_combine_split. by apply Z.mod_small.
Qed.

Lemma get_put_le_ne k k' l off i v :
  (i + k ≤ off ∨ off + k' ≤ i)%nat → get_le k (put_le k' l off v) i = get_le k l i.
Proof. intros H. unfold get_le, put_le. by rewrite slice_inserts_ne by (rewrite le_split_length; lia). Qed.

Lemma list_inserts_bytes l off src : is_bytes l → is_bytes src → is_bytes (list_inserts off src l).
Proof.
  intros Hl. revert off. induction src as [|b src IH]; intros off Hs; cbn; [done|].
  apply Forall_cons in Hs as [Hb Hs]. apply Forall_insert; [by apply IH|done].
Qed.

Lemma put_le_bytes k l off v : is_bytes l → is_bytes (put_le k l off v).
Proof. intros. apply list_inserts_bytes; [done|apply le_split_bytes]. Qed.

Lemma get_le_range k l off : is_bytes l → (off + k ≤ length l)%nat → 0 ≤ get_le k l off < 256 ^ Z.of_nat k.
Proof.
  intros Hl Hk. unfold get_le. replace (Z.of_nat k) with (Z.of_nat (length (take k (drop off l)))).
  - apply le_combine_range. by apply Forall_take, Forall_drop.
  - rewrite length_take, length_drop. lia.
Qed.

(** The [short] whose bits are the field. *)
Definition i16 (v : Z) : Z := (v + 2 ^ 15) `mod` 2 ^ 16 - 2 ^ 15.
Definition u16 (v : Z) : Z := v `mod` 2 ^ 16.

Lemma i16_u16 v : - 2 ^ 15 ≤ v < 2 ^ 15 → i16 (u16 v) = v.
Proof. intros Hv. unfold i16, u16. rewrite Zplus_mod_idemp_l, Z.mod_small; lia. Qed.

(** ** Words in a spliced block *)

Lemma get_splice_ne k d off src i : (i + k ≤ off ∨ off + length src ≤ i)%nat → get_le k (splice d off src) i = get_le k d i.
Proof. intros H. unfold get_le, splice. by rewrite slice_inserts_ne. Qed.

Lemma get_splice_in k d off src j :
  (j + k ≤ length src)%nat → (off + length src ≤ length d)%nat → get_le k (splice d off src) (off + j) = get_le k src j.
Proof.
  intros Hj Hl. unfold get_le, splice. f_equal. apply list_eq. intros i. destruct (decide (i < k)%nat) as [Hi|Hi].
  - rewrite !lookup_take_lt, !lookup_drop, list_lookup_inserts by lia. f_equal. lia.
  - by rewrite !lookup_take_ge by lia.
Qed.

Lemma concat_split_length l : length (concat (le_split 4 <$> l)) = (4 * length l)%nat.
Proof. induction l as [|x l IH]; cbn -[le_split]; [done|]. rewrite length_app, le_split_length, IH. lia. Qed.

Lemma get32_concat l k : Forall (λ x, 0 ≤ x < 2 ^ 32) l → (k < length l)%nat → get32 (concat (le_split 4 <$> l)) (4 * k) = l !!! k.
Proof.
  intros Hl. revert k. induction Hl as [|x l Hx Hl IH]; intros k Hk; [cbn in Hk; lia|]. cbn [fmap list_fmap concat].
  destruct k as [|k].
  - unfold get_le. rewrite drop_0, take_app_length'; [|by rewrite le_split_length]. rewrite le_combine_split.
    change (256 ^ Z.of_nat 4) with (2 ^ 32). by apply Z.mod_small.
  - unfold get_le. rewrite drop_app_ge; rewrite le_split_length; [|lia]. replace (4 * S k - 4)%nat with (4 * k)%nat by lia.
    apply IH. cbn in Hk. lia.
Qed.
