(* ===== verification/CString.v ===== *)
(** * Byte and string routines (string.c, ulib.c)

    A pointer into memory that is only read is the list of the bytes from
    there on; [None] is an access beyond it.  A routine that writes returns
    the bytes it stores, except [memmove], whose regions may overlap: it works
    on one memory, a pointer being an index. *)

From S2P Require Export Bytes.
Local Open Scope Z_scope.

(** ** Filling *)

(** [stosb] and [stosl] of x86.h: [n] bytes, or [n] little-endian words. *)
Definition stosb (c : Z) (n : nat) : bytes := replicate n (u8 c).
Definition stosl (v : Z) (n : nat) : bytes := concat (replicate n (le_split 4 (u32 v))).

(** [memset] of string.c: the bytes stored at [dst]. *)
Definition memset (dst c : Z) (n : nat) : bytes :=
  if (dst mod 4 =? 0) && (Z.of_nat n mod 4 =? 0) then
    let c := Z.land c 255 in
    stosl (Z.lor (Z.lor (Z.lor (Z.shiftl c 24) (Z.shiftl c 16)) (Z.shiftl c 8)) c) (Z.to_nat (Z.of_nat n / 4))
  else stosb c n.

(** ** Copying *)

Definition load (p : nat) : M bytes Z := deref (λ m, m !! p).
Definition store (p : nat) (c : Z) : M bytes unit :=
  m ← gets id;
  if bool_decide (p < length m)%nat then modify (<[p := c]>) else fault.

(** [while(n-- > 0) *d++ = *s++;] and [while(n-- > 0) *--d = *--s;]. *)
Fixpoint copy_up (n : nat) (d s : nat) : M bytes unit :=
  match n with
  | O => mret tt
  | S n => c ← load s; store d c ;; copy_up n (S d) (S s)
  end.
Fixpoint copy_down (n : nat) (d s : nat) : M bytes unit :=
  match n with
  | O => mret tt
  | S n => c ← load (pred s); store (pred d) c ;; copy_down n (pred d) (pred s)
  end.

Definition memmove (dst src n : nat) : M bytes unit :=
  if ((src <? dst) && (dst <? src + n))%nat then copy_down n (dst + n) (src + n)
  else copy_up n dst src.

(** The [memmove] that user programs link, of ulib.c. *)
Definition ulib_memmove (dst src n : nat) : M bytes unit := copy_up n dst src.

(** ** Comparing and scanning *)

Fixpoint memcmp (p q : bytes) (n : nat) : option Z :=
  match n, p, q with
  | O, _, _ => Some 0
  | S n, a :: p, b :: q => if negb (a =? b) then Some (a - b) else memcmp p q n
  | _, _, _ => None
  end.

Fixpoint strncmp (p q : bytes) (n : nat) : option Z :=
  match n, p, q with
  | O, _, _ => Some 0
  | S n, a :: p, b :: q => if negb (a =? 0) && (a =? b) then strncmp p q n else Some (a - b)
  | _, _, _ => None
  end.

Fixpoint strcmp (p q : bytes) : option Z :=
  match p, q with
  | a :: p, b :: q => if negb (a =? 0) && (a =? b) then strcmp p q else Some (a - b)
  | _, _ => None
  end.

Fixpoint strlen (s : bytes) : option Z :=
  match s with
  | [] => None
  | c :: s => if c =? 0 then Some 0 else n ← strlen s; Some (n + 1)
  end.

(** The rest of the string from the first [c] on, if there is one. *)
Fixpoint strchr (s : bytes) (c : Z) : option (option bytes) :=
  match s with
  | [] => None
  | d :: s' => if d =? 0 then Some None else if d =? c then Some (Some s) else strchr s' c
  end.

(** The bytes stored by [strncpy] (always [n]), [safestrcpy] and [strcpy]. *)
Fixpoint strncpy (t : bytes) (n : nat) : option bytes :=
  match n, t with
  | O, _ => Some []
  | S n, c :: t => if c =? 0 then Some (c :: replicate n 0) else l ← strncpy t n; Some (c :: l)
  | S _, [] => None
  end.

Fixpoint safestrcpy_loop (t : bytes) (n : nat) : option bytes :=
  match n, t with
  | O, _ => Some [0]
  | S n, c :: t => if c =? 0 then Some [c; 0] else l ← safestrcpy_loop t n; Some (c :: l)
  | S _, [] => None
  end.
Definition safestrcpy (t : bytes) (n : Z) : option bytes :=
  if n <=? 0 then Some [] else safestrcpy_loop t (Z.to_nat (n - 1)).

Fixpoint strcpy (t : bytes) : option bytes :=
  match t with
  | [] => None
  | c :: t => if c =? 0 then Some [0] else l ← strcpy t; Some (c :: l)
  end.

(** ['0'] and ['9']. *)
Definition is_digit (c : Z) : bool := (48 <=? c) && (c <=? 57).

Fixpoint atoi_loop (s : bytes) (n : Z) : option Z :=
  match s with
  | [] => None
  | c :: s => if is_digit c then atoi_loop s (i32 (n * 10 + c - 48)) else Some n
  end.
Definition atoi (s : bytes) : option Z := atoi_loop s 0.

(** [gets] of ulib.c over [read1], the result of [read(0, &c, 1)] and the
    byte read: the string stored in [buf], with its final NUL. *)
Fixpoint gets_loop {S} (read1 : M S (Z * Z)) (n : nat) : M S bytes :=
  match n with
  | O => mret []
  | Datatypes.S n =>
      '(cc, c) ← read1;
      if cc <? 1 then mret []
      else if (c =? 10) || (c =? 13) then mret [c]
      else l ← gets_loop read1 n; mret (c :: l)
  end.
Definition gets_ {S} (read1 : M S (Z * Z)) (max : Z) : M S bytes :=
  l ← gets_loop read1 (Z.to_nat (max - 1)); mret (l ++ [0]).
