(* ===== verification/CStringProps.v ===== *)
(** * What the byte and string routines compute *)

From S2P Require Export CString.
Local Open Scope Z_scope.

(** ** memset *)

Lemma u8_land c : Z.land c 255 = u8 c.
Proof. change 255 with (Z.ones 8). unfold u8. by rewrite Z.land_ones by lia. Qed.

(** Four equal bytes. *)
Lemma word_of_byte c :
  0 ≤ c < 256 → Z.lor (Z.lor (Z.lor (Z.shiftl c 24) (Z.shiftl c 16)) (Z.shiftl c 8)) c = c * 16843009.
Proof.
  intros Hc. assert (Forall (λ c, Z.lor (Z.lor (Z.lor (Z.shiftl c 24) (Z.shiftl c 16)) (Z.shiftl c 8)) c = c * 16843009)
    (seqZ 0 256)) as H by (apply (bool_decide_unpack _); vm_compute; exact I).
  rewrite Forall_forall in H. apply H, elem_of_seqZ. lia.
Qed.

Lemma split_word_of_byte c : 0 ≤ c < 256 → le_split 4 (u32 (c * 16843009)) = replicate 4 c.
Proof.
  intros Hc. assert (Forall (λ c, le_split 4 (u32 (c * 16843009)) = replicate 4 c) (seqZ 0 256)) as H
    by (apply (bool_decide_unpack _); vm_compute; exact I).
  rewrite Forall_forall in H. apply H, elem_of_seqZ. lia.
Qed.

Lemma concat_replicate {A} (c : A) k n : concat (replicate n (replicate k c)) = replicate (n * k) c.
Proof. induction n as [|n IH]; [done|]. cbn. by rewrite IH, replicate_add. Qed.

(** [memset] stores [n] copies of the low byte of its argument: storing
    words, for an aligned region of a multiple of four bytes, is the same as
    storing bytes. *)
Theorem memset_fills dst c n : memset dst c n = replicate n (u8 c).
Proof.
  unfold memset, stosl, stosb. destruct (_ && _) eqn:E; [|done].
  apply andb_true_iff in E as [_ E%Z.eqb_eq]. cbv zeta. rewrite u8_land.
  assert (0 ≤ u8 c < 256) as Hc by (apply Z.mod_pos_bound; lia).
  rewrite word_of_byte, split_word_of_byte by done.
  etransitivity; [exact (concat_replicate (u8 c) 4 _)|]. f_equal.
  pose proof (Z.div_mod (Z.of_nat n) 4 ltac:(lia)). pose proof (Z.div_pos (Z.of_nat n) 4 ltac:(lia) ltac:(lia)). lia.
Qed.

(** ** memmove *)

Definition moved (m : bytes) (dst src n : nat) : bytes := splice m dst (take n (drop src m)).

Lemma lookup_moved m dst src n i :
  (dst + n ≤ length m)%nat → (src + n ≤ length m)%nat →
  moved m dst src n !! i = if bool_decide (dst ≤ i < dst + n)%nat then m !! (src + (i - dst))%nat else m !! i.
Proof.
  intros Hd Hs. unfold moved, splice.
  assert (length (take n (drop src m)) = n) as Hl by (rewrite length_take, length_drop; lia).
  case_bool_decide as Hi.
  - rewrite list_lookup_inserts by lia. rewrite lookup_take_lt by lia. by rewrite lookup_drop.
  - destruct (decide (i < dst)%nat); [by rewrite list_lookup_inserts_lt|].
    rewrite list_lookup_inserts_ge by lia. done.
Qed.

Lemma copy_up_ok n : ∀ d s m,
  (d + n ≤ length m)%nat → (s + n ≤ length m)%nat → (d ≤ s ∨ s + n ≤ d)%nat →
  copy_up n d s m = Ok (tt, moved m d s n).
Proof.
  induction n as [|n IH]; intros d s m Hd Hs Hover; [done|]. cbn [copy_up].
  destruct (lookup_lt_is_Some_2 m s) as [c Hc]; [lia|].
  unfold load, store, mbind at 1, M_bind at 1, deref. rewrite Hc.
  unfold mbind at 1 2, M_bind at 1 2, gets, id. rewrite bool_decide_true by lia. unfold modify.
  rewrite IH by (rewrite ?length_insert; lia). f_equal. f_equal. apply list_eq. intros i.
  rewrite !lookup_moved by (rewrite ?length_insert; lia). repeat case_bool_decide; try lia.
  - rewrite list_lookup_insert_ne by lia. f_equal. lia.
  - replace i with d by lia. rewrite list_lookup_insert_eq by lia. rewrite <- Hc. f_equal. lia.
  - by rewrite list_lookup_insert_ne by lia.
Qed.

Lemma copy_down_ok n : ∀ d s m,
  (d + n ≤ length m)%nat → (s + n ≤ length m)%nat → (s ≤ d)%nat →
  copy_down n (d + n) (s + n) m = Ok (tt, moved m d s n).
Proof.
  induction n as [|n IH]; intros d s m Hd Hs Hover; [done|]. cbn [copy_down].
  rewrite !Nat.add_succ_r. cbn [pred]. destruct (lookup_lt_is_Some_2 m (s + n)) as [c Hc]; [lia|].
  unfold load, store, mbind at 1, M_bind at 1, deref. rewrite Hc.
  unfold mbind at 1 2, M_bind at 1 2, gets, id. rewrite bool_decide_true by lia. unfold modify.
  rewrite IH by (rewrite ?length_insert; lia). f_equal. f_equal. apply list_eq. intros i.
  rewrite !lookup_moved by (rewrite ?length_insert; lia). repeat case_bool_decide; try lia.
  - by rewrite list_lookup_insert_ne by lia.
  - replace i with (d + n)%nat by lia. rewrite list_lookup_insert_eq by lia. rewrite <- Hc. f_equal. lia.
  - by rewrite list_lookup_insert_ne by lia.
Qed.

(** The kernel's [memmove] stores at [dst] what was at [src] before the
    call, however the two regions overlap.  The one user programs link does so
    when the destination does not begin inside the source, and otherwise
    repeats the bytes it has already stored. *)
Theorem memmove_copies m dst src n :
  (dst + n ≤ length m)%nat → (src + n ≤ length m)%nat →
  memmove dst src n m = Ok (tt, moved m dst src n) ∧
  ((dst ≤ src ∨ src + n ≤ dst)%nat → ulib_memmove dst src n m = Ok (tt, moved m dst src n)) ∧
  ulib_memmove 1 0 2 [1; 2; 3] = Ok (tt, [1; 1; 1]) ∧ moved [1; 2; 3] 1 0 2 = [1; 1; 2].
Proof.
  intros Hd Hs. split_and!; [|by intros; apply copy_up_ok|done|done].
  unfold memmove. destruct (_ && _)%bool eqn:E.
  - apply andb_true_iff in E as [E%Nat.ltb_lt _]. apply copy_down_ok; lia.
  - apply andb_false_iff in E as [E%Nat.ltb_ge|E%Nat.ltb_ge]; apply copy_up_ok; lia.
Qed.

Lemma memmove_copies_witness : memmove 1 0 3 [1; 2; 3; 4] = Ok (tt, [1; 1; 2; 3]).
Proof. destruct (memmove_copies [1; 2; 3; 4] 1 0 3) as [H _]; cbn; [lia|lia|]. exact H. Defined.

(** ** Strings *)

(** The string at [p] as a routine bounded by [n] sees it. *)
Fixpoint upto_nul (n : nat) (p : bytes) : bytes :=
  match n, p with
  | S n, c :: p => if c =? 0 then [] else c :: upto_nul n p
  | _, _ => []
  end.

(** A string ends within [n] bytes, or there are [n] of them. *)
Definition readable (n : nat) (p : bytes) : Prop := (n ≤ length p)%nat ∨ 0 ∈ p.

Lemma readable_S n c p : readable (S n) (c :: p) → c ≠ 0 → readable n p.
Proof. intros [H|[H|H]%elem_of_cons] Hc; [left; cbn in H; lia|done|by right]. Qed.

Lemma strncmp_upto n : ∀ p q, readable n p → readable n q →
  ∃ r, strncmp p q n = Some r ∧ (r = 0 ↔ upto_nul n p = upto_nul n q).
Proof.
  induction n as [|n IH]; intros p q Hp Hq; [exists 0; by destruct p, q|].
  destruct p as [|a p]; [destruct Hp as [H|H]; [cbn in H; lia|by apply not_elem_of_nil in H]|].
  destruct q as [|b q]; [destruct Hq as [H|H]; [cbn in H; lia|by apply not_elem_of_nil in H]|].
  cbn [strncmp upto_nul]. destruct (a =? 0) eqn:Ea; cbn [negb andb].
  - apply Z.eqb_eq in Ea as ->. exists (0 - b). split; [done|]. destruct (b =? 0) eqn:Eb; split; intros; lia || done.
  - apply Z.eqb_neq in Ea. destruct (a =? b) eqn:Eab.
    + apply Z.eqb_eq in Eab as <-. destruct (IH p q) as (r & Hr & Hiff); [by eapply readable_S..|].
      exists r. split; [done|]. rewrite (proj2 (Z.eqb_neq a 0)) by done. rewrite Hiff. split; [congruence|by intros [=]].
    + apply Z.eqb_neq in Eab. exists (a - b). split; [done|]. split; [lia|]. destruct (b =? 0); [done|]. by intros [=].
Qed.

Lemma strncpy_ok n : ∀ t, readable n t →
  strncpy t n = Some (upto_nul n t ++ replicate (n - length (upto_nul n t)) 0).
Proof.
  induction n as [|n IH]; intros t Ht; [by destruct t|].
  destruct t as [|c t]; [destruct Ht as [H|H]; [cbn in H; lia|by apply not_elem_of_nil in H]|].
  cbn [strncpy upto_nul]. destruct (c =? 0) eqn:E.
  - apply Z.eqb_eq in E as ->. done.
  - apply Z.eqb_neq in E. rewrite IH by (by eapply readable_S). done.
Qed.

Lemma upto_nul_pad n : ∀ t k, upto_nul n (upto_nul n t ++ replicate k 0) = upto_nul n t.
Proof.
  induction n as [|n IH]; intros t k; [by destruct t|]. destruct t as [|c t]; cbn.
  - by destruct k.
  - destruct (c =? 0) eqn:E; [by destruct k|]. cbn. by rewrite E, IH.
Qed.

Lemma upto_nul_length n : ∀ t, (length (upto_nul n t) ≤ n)%nat.
Proof. induction n as [|n IH]; intros [|c t]; cbn; try lia. destruct (c =? 0); cbn; [lia|]. specialize (IH t). lia. Qed.

Lemma strncpy_length n t b : readable n t → strncpy t n = Some b → length b = n.
Proof.
  intros Ht. rewrite strncpy_ok by done. intros [= <-]. rewrite length_app, length_replicate.
  pose proof (upto_nul_length n t). lia.
Qed.

Lemma strlen_nul l x : 0 ∉ l → strlen (l ++ 0 :: x) = Some (Z.of_nat (length l)).
Proof.
  induction l as [|c l IH]; intros Hl; [done|]. apply not_elem_of_cons in Hl as [Hc Hl]. cbn [app strlen length].
  rewrite (proj2 (Z.eqb_neq c 0)) by congruence. rewrite IH by done. cbn. f_equal. lia.
Qed.

(** A name stored by [strncpy] in a field of [n] bytes is found again by
    [strncmp], and only by it: the field and [s] compare equal exactly if [s]
    and the name agree in their first [n] bytes or up to the end of the
    string. *)
Theorem strncpy_strncmp_roundtrip n t s :
  readable n t → readable n s →
  ∃ b r, strncpy t n = Some b ∧ length b = n ∧ strncmp s b n = Some r ∧ (r = 0 ↔ upto_nul n s = upto_nul n t).
Proof.
  intros Ht Hs. pose proof (strncpy_ok n t Ht) as Hb. set (b := upto_nul n t ++ _) in Hb.
  pose proof (strncpy_length n t b Ht Hb) as Hl.
  destruct (strncmp_upto n s b Hs) as (r & Hr & Hiff); [by left; rewrite Hl|].
  exists b, r. split_and!; [done..|]. by rewrite Hiff; unfold b; rewrite upto_nul_pad.
Qed.

Lemma strncpy_strncmp_roundtrip_witness :
  ∃ b, strncpy [97; 98; 0] 4 = Some b ∧ strncmp [97; 98; 0; 7] b 4 = Some 0.
Proof.
  destruct (strncpy_strncmp_roundtrip 4 [97; 98; 0] [97; 98; 0; 7]) as (b & r & Hb & _ & Hr & Hiff).
  - right. do 2 right. left.
  - left. cbn. lia.
  - exists b. split; [exact Hb|]. rewrite Hr. f_equal. apply Hiff. reflexivity.
Defined.
