(* ===== verification/Printf.v ===== *)
(** * Formatted output of user programs (printf.c)

    Output is the list of bytes that [putc] writes, in order.  Arguments are
    the words on the caller's stack; [str] reads the string at an address. *)

From S2P Require Export CStringProps.
Local Open Scope Z_scope.

(** [digits[k]]. *)
Definition digit (k : Z) : Z := if k <? 10 then 48 + k else 55 + k.

(** [do { buf[i++] = digits[x % base]; } while((x /= base) != 0);] A [uint]
    has at most 32 digits. *)
Fixpoint digits_loop (fuel : nat) (x base : Z) : bytes :=
  match fuel with
  | O => []
  | S fuel =>
      let d := digit (x mod base) in
      let x := x / base in
      if negb (x =? 0) then d :: digits_loop fuel x base else [d]
  end.

(** The buffer when the loop is done, and its length. *)
Definition printint_buf (xx base : Z) (sgn : bool) : bytes :=
  let neg := sgn && (xx <? 0) in
  let x := if neg then u32 (- xx) else u32 xx in
  digits_loop 32 x base ++ (if neg then [45] else []).
Definition printint (xx base : Z) (sgn : bool) : bytes := rev (printint_buf xx base sgn).

(** The loop of [%s]. *)
Fixpoint put_string (s : bytes) : option bytes :=
  match s with
  | [] => None
  | c :: s => if c =? 0 then Some [] else l ← put_string s; Some (c :: l)
  end.

Definition null_string : bytes := [40; 110; 117; 108; 108; 41; 0].

(** One conversion, after ['%']: its output and the arguments that remain. *)
Definition conversion (str : Z → option bytes) (c : Z) (ap : list Z) : option (bytes * list Z) :=
  if c =? 100 then '(a, ap) ← head ap ≫= λ a, Some (a, tail ap); Some (printint (i32 a) 10 true, ap)
  else if (c =? 120) || (c =? 112) then '(a, ap) ← head ap ≫= λ a, Some (a, tail ap); Some (printint (i32 a) 16 false, ap)
  else if c =? 115 then
    '(a, ap) ← head ap ≫= λ a, Some (a, tail ap);
    s ← (if a =? 0 then Some null_string else str a);
    o ← put_string s;
    Some (o, ap)
  else if c =? 99 then '(a, ap) ← head ap ≫= λ a, Some (a, tail ap); Some ([u8 a], ap)
  else if c =? 37 then Some ([c], ap)
  else Some ([37; c], ap).

(** The loop of [printf]; [pct] is [state == '%']. *)
Fixpoint printf_loop (str : Z → option bytes) (fmt : bytes) (pct : bool) (ap : list Z) : option bytes :=
  match fmt with
  | [] => None
  | c0 :: fmt =>
      if c0 =? 0 then Some []
      else
        let c := Z.land c0 255 in
        if negb pct then
          if c =? 37 then printf_loop str fmt true ap
          else o ← printf_loop str fmt false ap; Some (c :: o)
        else
          '(o1, ap) ← conversion str c ap;
          o ← printf_loop str fmt false ap;
          Some (o1 ++ o)
  end.
Definition printf (str : Z → option bytes) (fmt : bytes) (ap : list Z) : option bytes :=
  printf_loop str fmt false ap.

(** ** Numbers *)

Lemma digit_is_digit k : 0 ≤ k < 10 → is_digit (digit k) = true ∧ digit k - 48 = k.
Proof. intros Hk. unfold digit, is_digit. rewrite (proj2 (Z.ltb_lt k 10)) by lia. split; [|lia]. lia. Qed.

(** The value of a list of digits, least significant first. *)
Fixpoint value (l : bytes) : Z := match l with [] => 0 | d :: l => d - 48 + 10 * value l end.

Lemma digits_loop_spec fuel : ∀ x, 0 ≤ x < 10 ^ Z.of_nat fuel → (0 < fuel)%nat →
  value (digits_loop fuel x 10) = x ∧ Forall (λ c, is_digit c = true) (digits_loop fuel x 10) ∧
  digits_loop fuel x 10 ≠ [].
Proof.
  induction fuel as [|fuel IH]; intros x Hx Hf; [lia|]. cbn [digits_loop].
  pose proof (Z.mod_pos_bound x 10 ltac:(lia)) as Hm. destruct (digit_is_digit (x mod 10) Hm) as [Hd Hv].
  pose proof (Z.div_mod x 10 ltac:(lia)) as Hdm. pose proof (Z.div_pos x 10 ltac:(lia) ltac:(lia)) as Hq.
  destruct (x / 10 =? 0) eqn:E; cbn [negb value].
  - apply Z.eqb_eq in E. split_and!; [lia|by repeat constructor|done].
  - apply Z.eqb_neq in E. rewrite Nat2Z.inj_succ, Z.pow_succ_r in Hx by lia.
    assert (0 < fuel)%nat as Hf' by (destruct fuel; [cbn in Hx; lia|lia]).
    destruct (IH (x / 10)) as (Hval & Hall & _); [lia|lia|]. split_and!; [lia|by constructor|done].
Qed.

Lemma value_nonneg l : Forall (λ c, is_digit c = true) l → 0 ≤ value l.
Proof. unfold is_digit. induction 1; cbn; lia. Qed.

(** [atoi] reads digits most significant first. *)
Lemma atoi_loop_rev l : ∀ s n,
  Forall (λ c, is_digit c = true) l → 0 ≤ n → n * 10 ^ Z.of_nat (length l) + value l < 2 ^ 31 →
  atoi_loop (rev l ++ s) n = atoi_loop s (n * 10 ^ Z.of_nat (length l) + value l).
Proof.
  induction l as [|d l IH]; intros s n Hl Hn Hb; cbn [rev length value].
  - cbn. f_equal. lia.
  - apply Forall_cons in Hl as [Hd Hl]. cbn [length value] in Hb. pose proof (value_nonneg l Hl) as Hv.
    rewrite Nat2Z.inj_succ, Z.pow_succ_r in * by lia.
    pose proof (Z.pow_pos_nonneg 10 (Z.of_nat (length l)) ltac:(lia) ltac:(lia)) as Hp.
    assert (0 ≤ n * 10 ^ Z.of_nat (length l)) as Hnp by (apply Z.mul_nonneg_nonneg; lia).
    assert (48 ≤ d ≤ 57) as Hdr by (unfold is_digit in Hd; lia).
    rewrite <- app_assoc. rewrite IH; [|done|done|nia]. cbn [app atoi_loop]. rewrite Hd. f_equal.
    rewrite i32_id; nia.
Qed.

Lemma digits_loop_length fuel : ∀ x base k, 1 < base → 0 ≤ x < base ^ Z.of_nat (S k) → (length (digits_loop fuel x base) ≤ S k)%nat.
Proof.
  induction fuel as [|fuel IH]; intros x base k Hb Hx; [cbn; lia|]. cbn [digits_loop].
  destruct (x / base =? 0) eqn:E; cbn [negb length]; [lia|]. apply Z.eqb_neq in E.
  pose proof (Z.div_pos x base ltac:(lia) ltac:(lia)) as Hq.
  destruct k as [|k].
  - exfalso. apply E. apply Z.div_small. rewrite Z.pow_1_r in Hx. lia.
  - apply le_n_S, IH; [done|]. split; [lia|]. apply Z.div_lt_upper_bound; [lia|].
    rewrite <- Z.pow_succ_r by lia. replace (Z.succ (Z.of_nat (S k))) with (Z.of_nat (S (S k))) by lia. lia.
Qed.

(** Reading a printed number back.  What [printf] prints for ["%d"] of a
    nonnegative [int] is read by [atoi] as the same number; a negative number
    is read as 0, because [atoi] knows no sign.  The digits and the sign fit
    the buffer of sixteen bytes. *)
Theorem atoi_printint_roundtrip n rest :
  - 2 ^ 31 ≤ n < 2 ^ 31 →
  atoi (printint n 10 true ++ 0 :: rest) = Some (Z.max 0 n) ∧
  (length (printint_buf n 10 true) ≤ 11)%nat ∧ (length (printint_buf n 16 false) ≤ 8)%nat.
Proof.
  intros Hn. assert (0 ≤ u32 (- n) < 10 ^ Z.of_nat 32 ∧ 0 ≤ u32 n < 10 ^ Z.of_nat 32) as [H1 H2].
  { pose proof (u32_range (- n)). pose proof (u32_range n). change (10 ^ Z.of_nat 32) with 100000000000000000000000000000000. lia. }
  unfold printint, printint_buf. cbn [andb]. split_and!.
  - destruct (n <? 0) eqn:E.
    + apply Z.ltb_lt in E. rewrite rev_app_distr. cbn [rev app]. unfold atoi. cbn [atoi_loop is_digit Z.leb].
      rewrite Z.max_l by lia. done.
    + apply Z.ltb_ge in E. rewrite u32_id in * by lia. rewrite app_nil_r.
      destruct (digits_loop_spec 32 n H2) as (Hv & Hall & _); [lia|]. unfold atoi.
      rewrite atoi_loop_rev by (rewrite ?Hv; done || lia). rewrite Hv. cbn [atoi_loop is_digit Z.leb Z.compare andb].
      rewrite Z.max_r by lia. done.
  - rewrite length_app. set (x := if n <? 0 then _ else _).
    assert (0 ≤ x < 10 ^ Z.of_nat 10) as Hx.
    { unfold x. pose proof (u32_range (- n)). pose proof (u32_range n). change (10 ^ Z.of_nat 10) with 10000000000. destruct (n <? 0); lia. }
    pose proof (digits_loop_length 32 x 10 9 ltac:(lia) Hx). destruct (n <? 0); cbn [length]; lia.
  - rewrite app_nil_r. apply digits_loop_length; [lia|]. pose proof (u32_range n).
    change (16 ^ Z.of_nat 8) with 4294967296. lia.
Qed.

Lemma atoi_printint_roundtrip_witness : atoi (printint 2147483647 10 true ++ [0]) = Some 2147483647.
Proof. destruct (atoi_printint_roundtrip 2147483647 []) as [H _]; [lia|]. exact H. Defined.
