(* ===== verification/Kctx.v ===== *)
(** * The kernel context of the storage and file code, and sleep locks
    (sleeplock.c)

    [bio.c], [log.c], [fs.c], [file.c] and [pipe.c] run on behalf of one
    process.  What they need of the rest of the kernel is a context: the spin
    locks that this core holds, the sleep locks, the pid and the [killed] flag
    of the process, and the wait channels it has woken.  Spin locks are used
    here through what [Spinlock.spinlock_section] shows of them: taking a lock
    that the core already holds and releasing one that it does not hold are
    panics, and otherwise [acquire] and [release] bracket a critical section.
    [sleep] gives the core away: a call that would sleep is [Diverge] here, it
    goes on only after another process has run. *)

From S2P Require Export Prelude.
Local Open Scope Z_scope.

(** The sleep locks, and the spin locks, by the object they belong to. *)
Inductive sleepid := SL_buf (i : nat) | SL_inode (i : nat).
Inductive lockname :=
  | L_sleep (n : sleepid) | L_bcache | L_log | L_icache | L_ftable | L_pipe | L_kmem | L_cons | L_ide.
#[export] Instance sleepid_eq_dec : EqDecision sleepid.
Proof. solve_decision. Defined.
#[export] Instance lockname_eq_dec : EqDecision lockname.
Proof. solve_decision. Defined.
#[export] Instance sleepid_countable : Countable sleepid.
Proof.
  refine (inj_countable' (λ n, match n with SL_buf i => inl i | SL_inode i => inr i end)
    (λ x, match x with inl i => SL_buf i | inr i => SL_inode i end) _).
  by intros [].
Defined.

(** [struct sleeplock]: [locked] and [pid]; zeroed memory is a free lock. *)
Record sleeplock := mkSl { slocked : Z; slpid : Z }.
#[export] Instance sleeplock_inhabited : Inhabited sleeplock := populate (mkSl 0 0).

(** What a process waits for: [void *chan]. *)
Inductive waitchan := W_sleep (n : sleepid) | W_log | W_pipe_read | W_pipe_write | W_input | W_buf (i : nat).
#[export] Instance waitchan_eq_dec : EqDecision waitchan.
Proof. solve_decision. Defined.

Record ctx := mkCtx {
  held : list lockname;
  sleeps : gmap sleepid sleeplock;
  cur_pid : Z;
  cur_killed : Z;
  woken : list waitchan
}.
Definition set_held (v : list lockname) (x : ctx) : ctx :=
  mkCtx v (sleeps x) (cur_pid x) (cur_killed x) (woken x).
Definition set_sleep (n : sleepid) (l : sleeplock) (x : ctx) : ctx :=
  mkCtx (held x) (<[n := l]> (sleeps x)) (cur_pid x) (cur_killed x) (woken x).
Definition add_woken (w : waitchan) (x : ctx) : ctx :=
  mkCtx (held x) (sleeps x) (cur_pid x) (cur_killed x) (w :: woken x).

Definition acquire_lk (l : lockname) : M ctx unit :=
  h ← gets held;
  if bool_decide (l ∈ h) then panic "acquire" else modify (set_held (l :: h)).

Definition drop_lk (l : lockname) : list lockname → list lockname :=
  List.filter (λ x, negb (bool_decide (x = l))).

Definition release_lk (l : lockname) : M ctx unit :=
  h ← gets held;
  if bool_decide (l ∈ h) then modify (set_held (drop_lk l h)) else panic "release".

Definition wakeup_ch (w : waitchan) : M ctx unit := modify (add_woken w).

(** ** sleeplock.c *)

Definition initsleeplock (n : sleepid) : M ctx unit := modify (set_sleep n (mkSl 0 0)).

(** [while (lk->locked) sleep(lk, &lk->lk);]: a lock that is taken keeps the
    caller asleep until its holder has run. *)
Definition acquiresleep (n : sleepid) : M ctx unit :=
  acquire_lk (L_sleep n) ;;
  l ← gets (λ x, sleeps x !!! n);
  if negb (slocked l =? 0) then diverge
  else
    modify (set_sleep n (mkSl 1 (slpid l))) ;;
    p ← gets cur_pid;
    modify (set_sleep n (mkSl 1 p)) ;;
    release_lk (L_sleep n).

Definition releasesleep (n : sleepid) : M ctx unit :=
  acquire_lk (L_sleep n) ;;
  modify (set_sleep n (mkSl 0 0)) ;;
  wakeup_ch (W_sleep n) ;;
  release_lk (L_sleep n).

Definition holdingsleep (n : sleepid) : M ctx bool :=
  acquire_lk (L_sleep n) ;;
  l ← gets (λ x, sleeps x !!! n);
  p ← gets cur_pid;
  release_lk (L_sleep n) ;;
  mret (negb (slocked l =? 0) && (slpid l =? p)).

(** ** What they do when the core holds no spin lock *)

Definition owned (x : ctx) : sleeplock := mkSl 1 (cur_pid x).

Lemma drop_lk_self l : drop_lk l [l] = [].
Proof. cbn. by rewrite bool_decide_true. Qed.

Lemma acquire_lk_ok x l : held x = [] → acquire_lk l x = Ok (tt, set_held [l] x).
Proof.
  intros Hx. unfold acquire_lk. erewrite bind_ok by reflexivity. rewrite Hx.
  rewrite bool_decide_false by apply not_elem_of_nil. reflexivity.
Qed.

Lemma release_lk_ok x l : held x = [] → release_lk l (set_held [l] x) = Ok (tt, x).
Proof.
  intros Hx. unfold release_lk. erewrite bind_ok by reflexivity. cbn [held set_held].
  rewrite bool_decide_true by (by left). unfold modify. rewrite drop_lk_self.
  destruct x; cbn in *; by subst.
Qed.

Section Rules.
Context (x : ctx) (Hx : held x = []).

Lemma acquiresleep_ok n :
  slocked (sleeps x !!! n) = 0 → acquiresleep n x = Ok (tt, set_sleep n (owned x) x).
Proof.
  intros Hfree. unfold acquiresleep. rewrite (bind_ok _ _ _ _ _ (acquire_lk_ok _ _ Hx)).
  erewrite bind_ok by reflexivity. cbn [sleeps set_held]. rewrite Hfree. cbn [Z.eqb negb].
  do 3 (erewrite bind_ok by reflexivity).
  replace (set_sleep n _ _) with (set_held [L_sleep n] (set_sleep n (owned x) x)).
  - by apply release_lk_ok.
  - unfold set_held, set_sleep. cbn [held sleeps cur_pid cur_killed woken]. by rewrite insert_insert_eq.
Qed.

Lemma releasesleep_ok n :
  releasesleep n x = Ok (tt, add_woken (W_sleep n) (set_sleep n (mkSl 0 0) x)).
Proof.
  unfold releasesleep. rewrite (bind_ok _ _ _ _ _ (acquire_lk_ok _ _ Hx)).
  do 2 (erewrite bind_ok by reflexivity).
  apply (release_lk_ok (add_woken (W_sleep n) (set_sleep n (mkSl 0 0) x))). done.
Qed.

Lemma holdingsleep_ok n :
  holdingsleep n x = Ok (negb (slocked (sleeps x !!! n) =? 0) && (slpid (sleeps x !!! n) =? cur_pid x), x).
Proof.
  unfold holdingsleep. rewrite (bind_ok _ _ _ _ _ (acquire_lk_ok _ _ Hx)).
  do 2 (erewrite bind_ok by reflexivity). erewrite bind_ok by (by apply release_lk_ok). reflexivity.
Qed.

Lemma holdingsleep_mine n : sleeps x !!! n = owned x → holdingsleep n x = Ok (true, x).
Proof. intros E. rewrite holdingsleep_ok, E; cbn. by rewrite Z.eqb_refl. Qed.
End Rules.
