(* ===== verification/Bio.v ===== *)
(** * The buffer cache and the disk (buf.h, bio.c, memide.c)

    Thirty buffers in a ring around [bcache.head], most recently used first,
    over a disk held in memory.  [ide.c] and [memide.c] implement the same
    [iderw]; the second, which completes a request before it returns, is the
    one modelled. *)

From S2P Require Export Kctx.
Local Open Scope Z_scope.

(** [BSIZE] bytes. *)
Abbreviation block := (list Z).
Definition BSIZE : Z := 512.
Definition NBUF : nat := 30.
(** The size of the disk, in blocks. *)
Definition FSSIZE : Z := 1000.
Definition B_VALID : Z := 2.
Definition B_DIRTY : Z := 4.

(** A [struct buf *]: an index into [bcache.buf], or [&bcache.head]. *)
Abbreviation bptr := (option nat).

(** [struct buf]; its [lock] is the sleep lock [SL_buf] of the same index.
    [qnext] belongs to ide.c. *)
Record buf := mkBuf {
  flags : Z;
  dev : Z;
  blockno : Z;
  refcnt : Z;
  prev : bptr;
  next : bptr;
  bdata : block
}.

Definition set_flags (v : Z) (p : buf) : buf :=
  mkBuf v (dev p) (blockno p) (refcnt p) (prev p)
   (next p) (bdata p).
Definition set_dev (v : Z) (p : buf) : buf :=
  mkBuf (flags p) v (blockno p) (refcnt p) (prev p)
   (next p) (bdata p).
Definition set_blockno (v : Z) (p : buf) : buf :=
  mkBuf (flags p) (dev p) v (refcnt p) (prev p)
   (next p) (bdata p).
Definition set_refcnt (v : Z) (p : buf) : buf :=
  mkBuf (flags p) (dev p) (blockno p) v (prev p)
   (next p) (bdata p).
Definition set_prev (v : bptr) (p : buf) : buf :=
  mkBuf (flags p) (dev p) (blockno p) (refcnt p)
   v (next p) (bdata p).
Definition set_next (v : bptr) (p : buf) : buf :=
  mkBuf (flags p) (dev p) (blockno p) (refcnt p)
   (prev p) v (bdata p).
Definition set_bdata (v : block) (p : buf) : buf :=
  mkBuf (flags p) (dev p) (blockno p) (refcnt
   p) (prev p) (next p) v.

(** [bcache], [memdisk] and [disksize] of memide.c, and the context.
    [dwrites] is not in the code: the blocks written to the disk so far, the
    latest first. *)
Record bst := mkBst {
  bufs : gmap nat buf;
  head_prev : bptr;
  head_next : bptr;
  memdisk : gmap Z block;
  disksize : Z;
  dwrites : list (Z * block);
  bctx : ctx
}.

Definition set_bufs (v : gmap nat buf) (p : bst) : bst :=
  mkBst v (head_prev p) (head_next p)
   (memdisk p) (disksize p) (dwrites p) (bctx p).
Definition set_head_prev (v : bptr) (p : bst) : bst :=
  mkBst (bufs p) v (head_next p) (memdisk
   p) (disksize p) (dwrites p) (bctx p).
Definition set_head_next (v : bptr) (p : bst) : bst :=
  mkBst (bufs p) (head_prev p) v (memdisk
   p) (disksize p) (dwrites p) (bctx p).
Definition set_memdisk (v : gmap Z block) (p : bst) : bst :=
  mkBst (bufs p) (head_prev p)
   (head_next p) v (disksize p) (dwrites p) (bctx p).
Definition set_disksize (v : Z) (p : bst) : bst :=
  mkBst (bufs p) (head_prev p) (head_next p)
   (memdisk p) v (dwrites p) (bctx p).
Definition set_dwrites (v : list (Z * block)) (p : bst) : bst :=
  mkBst (bufs p) (head_prev p)
   (head_next p) (memdisk p) (disksize p) v (bctx p).
Definition set_bctx (v : ctx) (p : bst) : bst :=
  mkBst (bufs p) (head_prev p) (head_next p)
   (memdisk p) (disksize p) (dwrites p) v.

Definition onc {A} (m : M ctx A) : M bst A := zoom bctx set_bctx m.

Definition bget_ (i : nat) : M bst buf := deref (λ s, bufs s !! i).
Definition bput (i : nat) (f : buf → buf) : M bst unit :=
  b ← bget_ i; modify (λ s, set_bufs (<[i := f b]> (bufs s)) s).

(** [b->next], [b->prev] and their assignments, for any node of the ring. *)
Definition node_next (b : bptr) : M bst bptr :=
  match b with None => gets head_next | Some i => x ← bget_ i; mret (next x) end.
Definition node_prev (b : bptr) : M bst bptr :=
  match b with None => gets head_prev | Some i => x ← bget_ i; mret (prev x) end.
Definition node_set_next (b v : bptr) : M bst unit :=
  match b with None => modify (set_head_next v) | Some i => bput i (set_next v) end.
Definition node_set_prev (b v : bptr) : M bst unit :=
  match b with None => modify (set_head_prev v) | Some i => bput i (set_prev v) end.

(** Linking [b] in behind the head: its own pointers, then those of its new
    neighbours. *)
Definition link_new (b : bptr) : M bst unit :=
  h ← node_next None;
  node_set_next b h ;;
  node_set_prev b None.
Definition link_head (b : bptr) : M bst unit :=
  h ← node_next None;
  node_set_prev h b ;;
  node_set_next None b.

Definition binit_body (i : nat) : M bst unit :=
  link_new (Some i) ;;
  onc (initsleeplock (SL_buf i)) ;;
  link_head (Some i).

Definition binit : M bst unit :=
  node_set_prev None None ;;
  node_set_next None None ;;
  for_each (seq 0 NBUF) binit_body.

(** The first scan of [bget]: a cached block. *)
Fixpoint bget_hit (fuel : nat) (b : bptr) (d bno : Z) : M bst bptr :=
  match fuel, b with
  | _, None => mret None
  | O, _ => diverge
  | S fuel, Some i =>
      x ← bget_ i;
      if (dev x =? d) && (blockno x =? bno) then mret b
      else bget_hit fuel (next x) d bno
  end.

(** The second scan, backwards: an unused buffer. *)
Fixpoint bget_free (fuel : nat) (b : bptr) : M bst bptr :=
  match fuel, b with
  | _, None => mret None
  | O, _ => diverge
  | S fuel, Some i =>
      x ← bget_ i;
      if (refcnt x =? 0) && (Z.land (flags x) B_DIRTY =? 0) then mret b
      else bget_free fuel (prev x)
  end.

Definition bget (d bno : Z) : M bst nat :=
  onc (acquire_lk L_bcache) ;;
  h ← node_next None;
  r ← bget_hit NBUF h d bno;
  match r with
  | Some i =>
      bput i (λ x, set_refcnt (u32 (refcnt x + 1)) x) ;;
      onc (release_lk L_bcache) ;;
      onc (acquiresleep (SL_buf i)) ;;
      mret i
  | None =>
      t ← node_prev None;
      r ← bget_free NBUF t;
      match r with
      | Some i =>
          bput i (set_dev d) ;;
          bput i (set_blockno bno) ;;
          bput i (set_flags 0) ;;
          bput i (set_refcnt 1) ;;
          onc (release_lk L_bcache) ;;
          onc (acquiresleep (SL_buf i)) ;;
          mret i
      | None => panic "bget: no buffers"
      end
  end.

(** [iderw] of memide.c. *)
Definition iderw (i : nat) : M bst unit :=
  h ← onc (holdingsleep (SL_buf i));
  if negb h then panic "iderw: buf not locked" else
  b ← bget_ i;
  if Z.land (flags b) (Z.lor B_VALID B_DIRTY) =? B_VALID then panic "iderw: nothing to do" else
  if negb (dev b =? 1) then panic "iderw: request not for disk 1" else
  n ← gets disksize;
  if negb (blockno b <? n) then panic "iderw: block out of range" else
  (if negb (Z.land (flags b) B_DIRTY =? 0) then
     bput i (λ b, set_flags (Z.land (flags b) (Z.lnot B_DIRTY)) b) ;;
     b ← bget_ i;
     modify (λ s, set_memdisk (<[blockno b := bdata b]> (memdisk s)) s) ;;
     modify (λ s, set_dwrites ((blockno b, bdata b) :: dwrites s) s)
   else
     d ← deref (λ s, memdisk s !! blockno b);
     bput i (set_bdata d)) ;;
  bput i (λ b, set_flags (Z.lor (flags b) B_VALID) b).

Definition bread (d bno : Z) : M bst nat :=
  i ← bget d bno;
  b ← bget_ i;
  when (Z.land (flags b) B_VALID =? 0) (iderw i) ;;
  mret i.

Definition bwrite (i : nat) : M bst unit :=
  h ← onc (holdingsleep (SL_buf i));
  if negb h then panic "bwrite" else
  bput i (λ b, set_flags (Z.lor (flags b) B_DIRTY) b) ;;
  iderw i.

(** Unlink [b]. *)
Definition unlink_node (b : bptr) : M bst unit :=
  n ← node_next b;
  p ← node_prev b;
  node_set_prev n p ;;
  p ← node_prev b;
  n ← node_next b;
  node_set_next p n.

Definition brelse (i : nat) : M bst unit :=
  h ← onc (holdingsleep (SL_buf i));
  if negb h then panic "brelse" else
  onc (releasesleep (SL_buf i)) ;;
  onc (acquire_lk L_bcache) ;;
  bput i (λ b, set_refcnt (u32 (refcnt b - 1)) b) ;;
  b ← bget_ i;
  when (refcnt b =? 0) (unlink_node (Some i) ;; link_new (Some i) ;; link_head (Some i)) ;;
  onc (release_lk L_bcache).

(** [b->data] of a buffer, read and assigned by its holder. *)
Definition buf_data (i : nat) : M bst block := b ← bget_ i; mret (bdata b).
Definition set_buf_data (i : nat) (d : block) : M bst unit := bput i (set_bdata d).

(** Zeroed memory, over the disk image [img]. *)
Definition buf0 : buf := mkBuf 0 0 0 0 None None (replicate (Z.to_nat BSIZE) 0).
Definition bboot (img : gmap Z block) (n : Z) (x : ctx) : bst :=
  mkBst (list_to_map ((λ i, (i, buf0)) <$> seq 0 NBUF)) None None img n [] x.
