(* ===== verification/BioRing.v ===== *)
(** * The ring of buffers

    Symbolic execution of the pointer operations of [Bio], and the lists that
    the ring around [bcache.head] represents. *)

From S2P Require Export Bio.
Local Open Scope Z_scope.

Section Rules.
Context (t : bool) (B : gmap nat buf) (hp hn : bptr) (D : gmap Z block) (n : Z) (W : list (Z * block)) (x : ctx).
Let s := mkBst B hp hn D n W x.

Lemma wpg_bget_ i b (Q : buf → bst → Prop) :
  B !! i = Some b → Q b s → wpg t (bget_ i) Q s.
Proof. intros H HQ. eapply wpg_deref; [exact H|exact HQ]. Qed.

Lemma wpg_bput i f b (Q : unit → bst → Prop) :
  B !! i = Some b → Q tt (mkBst (<[i := f b]> B) hp hn D n W x) → wpg t (bput i f) Q s.
Proof. intros H HQ. apply wpg_bind, (wpg_bget_ _ b); [done|]. by apply wpg_modify. Qed.

Lemma wpg_onc {A} (f : M ctx A) a x' (Q : A → bst → Prop) :
  f x = Ok (a, x') → Q a (mkBst B hp hn D n W x') → wpg t (onc f) Q s.
Proof. intros H HQ. apply wpg_zoom. by eapply ok_wpg. Qed.
End Rules.

(** ** Nodes and paths *)

Definition nx (B : gmap nat buf) (hn : bptr) (b : bptr) : option bptr :=
  match b with None => Some hn | Some i => next <$> B !! i end.
Definition pv (B : gmap nat buf) (hp : bptr) (b : bptr) : option bptr :=
  match b with None => Some hp | Some i => prev <$> B !! i end.

(** From the node [a] the pointers lead through [l] to the node [e], and back. *)
Fixpoint path (N P : bptr → option bptr) (a : bptr) (l : list nat) (e : bptr) : Prop :=
  match l with
  | [] => N a = Some e ∧ P e = Some a
  | i :: l => N a = Some (Some i) ∧ P (Some i) = Some a ∧ path N P (Some i) l e
  end.

Record ring (B : gmap nat buf) (hp hn : bptr) (l : list nat) : Prop := {
  rg_path : path (nx B hn) (pv B hp) None l None;
  rg_nodup : NoDup l
}.

Lemma path_app N P a l1 i l2 e :
  path N P a (l1 ++ i :: l2) e ↔ path N P a l1 (Some i) ∧ path N P (Some i) l2 e.
Proof. revert a. induction l1 as [|j l1 IH]; intros a; cbn; [tauto|]. rewrite IH. tauto. Qed.

Lemma path_frame N P N' P' a l e :
  (∀ y, y = a ∨ (∃ i, y = Some i ∧ i ∈ l) → N' y = N y) →
  (∀ y, y = e ∨ (∃ i, y = Some i ∧ i ∈ l) → P' y = P y) →
  path N P a l e → path N' P' a l e.
Proof.
  revert a. induction l as [|i l IH]; intros a HN HP; cbn.
  - intros [? ?]. rewrite HN, HP by tauto. done.
  - intros (? & ? & ?). rewrite HN by tauto. rewrite HP by (right; exists i; set_solver).
    split_and!; [done|done|]. apply IH; [| |done].
    + intros y [->|(j & -> & Hj)]; apply HN; right; eexists; split; set_solver.
    + intros y [->|(j & -> & Hj)]; apply HP; [by left|right]. eexists; split; set_solver.
Qed.

(** The node before and the node after a place in the ring. *)
Definition before (a : bptr) (l : list nat) : bptr := default a (Some <$> last l).
Definition after (l : list nat) (e : bptr) : bptr := default e (Some <$> head l).

Lemma path_first N P a l e : path N P a l e → N a = Some (after l e) ∧ P (after l e) = Some a.
Proof. destruct l; cbn; tauto. Qed.

Lemma path_last N P a l e : path N P a l e → N (before a l) = Some e ∧ P e = Some (before a l).
Proof.
  revert a. induction l as [|i l IH]; intros a; cbn; [tauto|]. intros (_ & _ & H).
  apply IH in H. unfold before in *. rewrite last_cons. destruct (last l); done.
Qed.

Definition upd (f : bptr → option bptr) (k v : bptr) : bptr → option bptr :=
  λ y, if decide (y = k) then Some v else f y.

Lemma before_in a l : before a l = a ∨ ∃ i, before a l = Some i ∧ i ∈ l.
Proof.
  unfold before. destruct (last l) as [i|] eqn:E; cbn; [right|by left].
  exists i. split; [done|]. by apply last_Some_elem_of.
Qed.
Lemma after_in l e : after l e = e ∨ ∃ i, after l e = Some i ∧ i ∈ l.
Proof. destruct l as [|i l]; cbn; [by left|right]. exists i. split; [done|by left]. Qed.

Lemma path_join N P a l1 l2 e :
  NoDup (l1 ++ l2) → (∀ i, a = Some i → i ∉ l1 ++ l2) → (∀ i, e = Some i → i ∉ l1 ++ l2) →
  (∀ k, path N P a l1 k → ∀ m, path N P m l2 e →
   path (upd N (before a l1) (after l2 e)) (upd P (after l2 e) (before a l1)) a (l1 ++ l2) e).
Proof.
  revert a. induction l1 as [|i l1 IH]; intros a Hd Ha He k H1 m H2; cbn in *.
  - unfold before; cbn. destruct l2 as [|j l2]; unfold after; cbn in *.
    + unfold upd. by rewrite !decide_True.
    + unfold upd at 1 2. rewrite !decide_True by done. split_and!; [done..|].
      apply NoDup_cons in Hd as [Hj Hd]. destruct H2 as (_ & _ & H2).
      eapply path_frame; [| |exact H2]; intros y [->|(x & -> & Hx)]; unfold upd; rewrite decide_False; try done.
      * intros E. eapply (Ha j); [by symmetry|by left].
      * intros E. eapply (Ha x); [by symmetry|by right].
      * intros E. subst e. eapply (He j); [done|by left].
      * intros [= ->]. done.
  - destruct H1 as (HN & HP & H1). apply NoDup_cons in Hd as [Hi Hd].
    assert (before a (i :: l1) = before (Some i) l1) as Eb by (unfold before; rewrite last_cons; by destruct (last l1)).
    rewrite Eb. split_and!.
    + unfold upd. rewrite decide_False; [done|]. intros E.
      destruct (before_in (Some i) l1) as [Eb'|(x & Eb' & Hx)]; rewrite Eb' in E; eapply Ha; try exact E; set_solver.
    + unfold upd. rewrite decide_False; [done|]. intros E.
      destruct (after_in l2 e) as [Ea|(x & Ea & Hx)]; rewrite Ea in E.
      * eapply He; [symmetry; exact E|set_solver].
      * injection E as ->. apply Hi. set_solver.
    + eapply IH; [done|intros j [= <-]; done|intros j Hj; specialize (He j Hj); set_solver|exact H1|exact H2].
Qed.

(** ** Scans *)

Section Scan.
Context (t : bool) (B : gmap nat buf) (hp hn : bptr) (D : gmap Z block) (n : Z) (W : list (Z * block)) (x : ctx).
Let s := mkBst B hp hn D n W x.

(** The first buffer of a list with a property. *)
Fixpoint first_buf (p : buf → bool) (l : list nat) : option nat :=
  match l with
  | [] => None
  | i :: l => if from_option p false (B !! i) then Some i else first_buf p l
  end.

Lemma first_buf_Some p l i :
  first_buf p l = Some i → i ∈ l ∧ ∃ b, B !! i = Some b ∧ p b = true.
Proof.
  induction l as [|j l IH]; cbn; [done|]. destruct (from_option p false (B !! j)) eqn:E.
  - intros [= ->]. split; [by left|]. destruct (B !! i); [eauto|done].
  - intros [? ?]%IH. split; [by right|done].
Qed.

Lemma first_buf_None p l i b : first_buf p l = None → i ∈ l → B !! i = Some b → p b = false.
Proof.
  induction l as [|j l IH]; cbn; [by intros _ ?%not_elem_of_nil|].
  destruct (from_option p false (B !! j)) eqn:E; [done|]. intros H [->|Hi]%elem_of_cons Hb; [|by apply IH].
  by rewrite Hb in E.
Qed.

Definition is_block (d bno : Z) (b : buf) : bool := (dev b =? d) && (blockno b =? bno).
Definition is_free (b : buf) : bool := (refcnt b =? 0) && (Z.land (flags b) B_DIRTY =? 0).

Lemma wpg_bget_hit d bno l : ∀ fuel a (Q : bptr → bst → Prop),
  (∃ a0, path (nx B hn) (pv B hp) a0 l None ∧ nx B hn a0 = Some a) → (length l ≤ fuel)%nat →
  Q (first_buf (is_block d bno) l) s → wpg t (bget_hit fuel a d bno) Q s.
Proof.
  induction l as [|i l IH]; intros fuel a Q (a0 & Hp & Ha) Hf HQ.
  - destruct Hp as [Hn _]. assert (a = None) as -> by congruence. by destruct fuel.
  - destruct Hp as (Hn & _ & Hp). assert (a = Some i) as -> by congruence.
    destruct fuel as [|fuel]; [cbn in Hf; lia|]. cbn [bget_hit first_buf] in *.
    destruct (path_first _ _ _ _ _ Hp) as [Hi _]. cbn [nx] in Hi.
    destruct (B !! i) as [b|] eqn:Hb; [|done]. cbn [from_option] in HQ.
    apply wpg_bind, (wpg_bget_ _ _ _ _ _ _ _ _ _ b); [done|]. change ((dev b =? d) && (blockno b =? bno)) with (is_block d bno b).
    destruct (is_block d bno b); [exact HQ|]. apply IH; [|cbn in Hf; lia|exact HQ].
    exists (Some i). split; [done|]. cbn [nx]. by rewrite Hb.
Qed.

Lemma wpg_bget_free l : ∀ fuel a (Q : bptr → bst → Prop),
  (∃ e0, path (nx B hn) (pv B hp) None (rev l) e0 ∧ pv B hp e0 = Some a) → (length l ≤ fuel)%nat →
  Q (first_buf is_free l) s → wpg t (bget_free fuel a) Q s.
Proof.
  induction l as [|i l IH]; intros fuel a Q (e0 & Hp & Ha) Hf HQ; cbn [rev] in Hp.
  - destruct Hp as [_ Hn]. assert (a = None) as -> by congruence. by destruct fuel.
  - apply path_app in Hp as [Hp [_ Hn]]. assert (a = Some i) as -> by congruence.
    destruct fuel as [|fuel]; [cbn in Hf; lia|]. cbn [bget_free first_buf] in *.
    destruct (path_last _ _ _ _ _ Hp) as [_ Hi]. cbn [pv] in Hi.
    destruct (B !! i) as [b|] eqn:Hb; [|done]. cbn [from_option] in HQ.
    apply wpg_bind, (wpg_bget_ _ _ _ _ _ _ _ _ _ b); [done|].
    change ((refcnt b =? 0) && (Z.land (flags b) B_DIRTY =? 0)) with (is_free b).
    destruct (is_free b); [exact HQ|]. apply IH; [|cbn in Hf; lia|exact HQ].
    exists (Some i). split; [done|]. cbn [pv]. by rewrite Hb.
Qed.
End Scan.

(** ** Moving a buffer to the front *)

(** A buffer without its links. *)
Definition strip (b : buf) : buf := set_prev None (set_next None b).

Lemma path_ext N P N' P' a l e :
  (∀ y, N' y = N y) → (∀ y, P' y = P y) → path N P a l e → path N' P' a l e.
Proof. intros HN HP. by apply path_frame. Qed.

Lemma path_push N P i l :
  NoDup (i :: l) → path N P None l None →
  path (upd (upd N (Some i) (after l None)) None (Some i))
       (upd (upd P (Some i) None) (after l None) (Some i)) None (i :: l) None.
Proof.
  intros [Hi Hd]%NoDup_cons Hp. cbn [path].
  assert (after l None ≠ Some i) as Hai.
  { destruct (after_in l None) as [->|(x & -> & Hx)]; [done|]. by intros [= ->]. }
  split; [unfold upd; by rewrite decide_True|].
  split; [unfold upd; rewrite decide_False by congruence; by rewrite decide_True|].
  destruct l as [|j l]; unfold after in *; cbn [head option_map fmap option_fmap default path] in *.
  - unfold upd. split; [|by rewrite decide_True]. rewrite decide_False by done. by rewrite decide_True.
  - destruct Hp as (_ & _ & Hp). apply NoDup_cons in Hd as [Hj Hd].
    split; [unfold upd; rewrite decide_False by done; by rewrite decide_True|].
    split; [unfold upd; by rewrite decide_True|].
    eapply path_frame; [| |exact Hp]; intros y Hy; unfold upd.
    + rewrite !decide_False; [done| |]; destruct Hy as [->|(x & -> & Hx)]; try done; intros [= ->]; set_solver.
    + rewrite !decide_False; [done| |]; destruct Hy as [->|(x & -> & Hx)]; try done; cbn; intros [= ->]; set_solver.
Qed.

Section Move.
Context (t : bool) (D : gmap Z block) (n : Z) (W : list (Z * block)) (x : ctx).
Implicit Types (B : gmap nat buf).

Definition node_in B (b : bptr) : Prop := match b with None => True | Some i => is_Some (B !! i) end.

Lemma wpg_node_next B hp hn k v (Q : bptr → bst → Prop) :
  nx B hn k = Some v → Q v (mkBst B hp hn D n W x) → wpg t (node_next k) Q (mkBst B hp hn D n W x).
Proof.
  destruct k as [i|]; cbn; [|by intros [= ->]].
  intros (b & Hb & ->)%fmap_Some HQ. apply wpg_bind, (wpg_bget_ _ _ _ _ _ _ _ _ _ b); done.
Qed.

Lemma wpg_node_prev B hp hn k v (Q : bptr → bst → Prop) :
  pv B hp k = Some v → Q v (mkBst B hp hn D n W x) → wpg t (node_prev k) Q (mkBst B hp hn D n W x).
Proof.
  destruct k as [i|]; cbn; [|by intros [= ->]].
  intros (b & Hb & ->)%fmap_Some HQ. apply wpg_bind, (wpg_bget_ _ _ _ _ _ _ _ _ _ b); done.
Qed.

Lemma strip_insert B i b b' : B !! i = Some b → strip b' = strip b → strip <$> <[i := b']> B = strip <$> B.
Proof.
  intros Hb E. rewrite fmap_insert, E. apply insert_id. by rewrite lookup_fmap, Hb.
Qed.

Lemma wpg_node_set_next B hp hn k v (Q : unit → bst → Prop) :
  node_in B k →
  (∀ B' hn', (∀ y, nx B' hn' y = upd (nx B hn) k v y) → (∀ hp y, pv B' hp y = pv B hp y) →
     strip <$> B' = strip <$> B → Q tt (mkBst B' hp hn' D n W x)) →
  wpg t (node_set_next k v) Q (mkBst B hp hn D n W x).
Proof.
  destruct k as [i|]; cbn.
  - intros [b Hb] HQ. eapply wpg_bput; [done|]. apply HQ; [| |by eapply strip_insert].
    + intros [j|]; unfold upd; cbn.
      * destruct (decide (j = i)) as [->|].
        -- by rewrite lookup_insert_eq, decide_True.
        -- rewrite lookup_insert_ne, decide_False by congruence. done.
      * by rewrite decide_False.
    + intros h [j|]; cbn; [|done]. destruct (decide (j = i)) as [->|].
      * by rewrite lookup_insert_eq, Hb.
      * by rewrite lookup_insert_ne.
  - intros _ HQ. apply (wpg_modify t). refine (HQ B v _ _ eq_refl); [|done].
    intros [j|]; unfold upd; cbn; [by rewrite decide_False|by rewrite decide_True].
Qed.

Lemma wpg_node_set_prev B hp hn k v (Q : unit → bst → Prop) :
  node_in B k →
  (∀ B' hp', (∀ y, pv B' hp' y = upd (pv B hp) k v y) → (∀ hn y, nx B' hn y = nx B hn y) →
     strip <$> B' = strip <$> B → Q tt (mkBst B' hp' hn D n W x)) →
  wpg t (node_set_prev k v) Q (mkBst B hp hn D n W x).
Proof.
  destruct k as [i|]; cbn.
  - intros [b Hb] HQ. eapply wpg_bput; [done|]. apply HQ; [| |by eapply strip_insert].
    + intros [j|]; unfold upd; cbn.
      * destruct (decide (j = i)) as [->|].
        -- by rewrite lookup_insert_eq, decide_True.
        -- rewrite lookup_insert_ne, decide_False by congruence. done.
      * by rewrite decide_False.
    + intros h [j|]; cbn; [|done]. destruct (decide (j = i)) as [->|].
      * by rewrite lookup_insert_eq, Hb.
      * by rewrite lookup_insert_ne.
  - intros _ HQ. apply (wpg_modify t). refine (HQ B v _ _ eq_refl); [|done].
    intros [j|]; unfold upd; cbn; [by rewrite decide_False|by rewrite decide_True].
Qed.

Lemma node_in_strip B B' k : strip <$> B' = strip <$> B → node_in B k → node_in B' k.
Proof.
  destruct k as [i|]; cbn; [|done]. intros E [b Hb].
  assert ((strip <$> B') !! i = Some (strip b)) as H by (by rewrite E, lookup_fmap, Hb).
  rewrite lookup_fmap in H. destruct (B' !! i); [eauto|done].
Qed.

Lemma ring_node_in B hp hn l k : ring B hp hn l → (k = None ∨ ∃ i, k = Some i ∧ i ∈ l) → node_in B k.
Proof.
  intros [Hp _] [->|(i & -> & Hi)]; [done|]. cbn.
  apply list_elem_of_split in Hi as (l1 & l2 & ->). apply path_app in Hp as [_ Hp].
  destruct (path_first _ _ _ _ _ Hp) as [H _]. cbn in H. destruct (B !! i); [eauto|done].
Qed.

Lemma wpg_link_new B hp hn i a (Q : unit → bst → Prop) :
  nx B hn None = Some a → is_Some (B !! i) →
  (∀ B' hp' hn', (∀ y, nx B' hn' y = upd (nx B hn) (Some i) a y) →
     (∀ y, pv B' hp' y = upd (pv B hp) (Some i) None y) →
     strip <$> B' = strip <$> B → Q tt (mkBst B' hp' hn' D n W x)) →
  wpg t (link_new (Some i)) Q (mkBst B hp hn D n W x).
Proof.
  intros Ha HB HQ. unfold link_new. apply wpg_bind, (wpg_node_next _ _ _ _ a); [done|].
  apply wpg_bind, wpg_node_set_next; [done|]. intros B1 hn1 HN1 HP1 E1.
  apply wpg_node_set_prev; [by eapply (node_in_strip _ _ (Some i))|]. intros B2 hp2 HP2 HN2 E2.
  apply HQ; [| |by rewrite E2].
  - intros y. by rewrite HN2.
  - intros y. rewrite HP2. unfold upd. by rewrite HP1.
Qed.

Lemma wpg_link_head B hp hn i a (Q : unit → bst → Prop) :
  nx B hn None = Some a → node_in B a →
  (∀ B' hp' hn', (∀ y, nx B' hn' y = upd (nx B hn) None (Some i) y) →
     (∀ y, pv B' hp' y = upd (pv B hp) a (Some i) y) →
     strip <$> B' = strip <$> B → Q tt (mkBst B' hp' hn' D n W x)) →
  wpg t (link_head (Some i)) Q (mkBst B hp hn D n W x).
Proof.
  intros Ha HB HQ. unfold link_head. apply wpg_bind, (wpg_node_next _ _ _ _ a); [done|].
  apply wpg_bind, wpg_node_set_prev; [done|]. intros B1 hp1 HP1 HN1 E1.
  apply wpg_node_set_next; [by eapply node_in_strip|]. intros B2 hn2 HN2 HP2 E2.
  apply HQ; [| |by rewrite E2].
  - intros y. rewrite HN2. unfold upd. by rewrite HN1.
  - intros y. by rewrite HP2.
Qed.
End Move.

(** Both halves put [i] at the front of the ring; [m] in between does not
    touch the buffers. *)
Lemma wpg_link t B hp hn D n W x x' i l (m : M ctx unit) (Q : unit → bst → Prop) :
  ring B hp hn l → i ∉ l → is_Some (B !! i) → m x = Ok (tt, x') →
  (∀ B' hp' hn', ring B' hp' hn' (i :: l) → strip <$> B' = strip <$> B → Q tt (mkBst B' hp' hn' D n W x')) →
  wpg t (link_new (Some i) ;; onc m ;; link_head (Some i)) Q (mkBst B hp hn D n W x).
Proof.
  intros Hr Hi HBi Hm HQ. pose proof Hr as [Hp Hd]. destruct (path_first _ _ _ _ _ Hp) as [Hf _].
  assert (node_in B (after l None)) as Hain by (eapply ring_node_in; [done|apply after_in]).
  apply wpg_bind, (wpg_link_new _ _ _ _ _ _ _ _ _ (after l None)); [done..|]. intros B1 hp1 hn1 HN1 HP1 E1.
  apply wpg_bind, (wpg_onc _ _ _ _ _ _ _ _ _ tt x'); [done|].
  apply (wpg_link_head _ _ _ _ _ _ _ _ _ (after l None)); [by rewrite HN1; unfold upd; rewrite decide_False|by eapply node_in_strip|].
  intros B2 hp2 hn2 HN2 HP2 E2. apply HQ; [|by rewrite E2, E1]. split; [|by apply NoDup_cons].
  eapply path_ext; [| |apply (path_push (nx B hn) (pv B hp) i l); [by apply NoDup_cons|exact Hp]].
  - intros y. rewrite HN2. unfold upd. by rewrite HN1.
  - intros y. rewrite HP2. unfold upd. by rewrite HP1.
Qed.

Lemma wpg_link2 t B hp hn D n W x i l (Q : unit → bst → Prop) :
  ring B hp hn l → i ∉ l → is_Some (B !! i) →
  (∀ B' hp' hn', ring B' hp' hn' (i :: l) → strip <$> B' = strip <$> B → Q tt (mkBst B' hp' hn' D n W x)) →
  wpg t (link_new (Some i) ;; link_head (Some i)) Q (mkBst B hp hn D n W x).
Proof.
  intros Hr Hi HBi HQ. pose proof (wpg_link t B hp hn D n W x x i l (mret tt) Q Hr Hi HBi eq_refl HQ) as H.
  apply wpg_bind. apply wpg_bind_inv in H. eapply wpg_mono; [exact H|]. intros [] s1 H1.
  apply wpg_bind_inv in H1. unfold wpg, onc, zoom in H1. cbn in H1. by destruct s1.
Qed.

Lemma wpg_move_front t B hp hn D n W x i l1 l2 (Q : unit → bst → Prop) :
  ring B hp hn (l1 ++ i :: l2) →
  (∀ B' hp' hn', ring B' hp' hn' (i :: l1 ++ l2) → strip <$> B' = strip <$> B → Q tt (mkBst B' hp' hn' D n W x)) →
  wpg t (unlink_node (Some i) ;; link_new (Some i) ;; link_head (Some i)) Q (mkBst B hp hn D n W x).
Proof.
  intros Hr HQ. pose proof Hr as [Hp Hd]. apply path_app in Hp as [H1 H2].
  destruct (path_last _ _ _ _ _ H1) as [Hl Hl']. destruct (path_first _ _ _ _ _ H2) as [Hf Hf'].
  pose proof Hd as Hd0. apply NoDup_app in Hd as (Hd1 & Hd2 & Hd3). apply NoDup_cons in Hd3 as [Hi Hd3].
  assert (NoDup (l1 ++ l2)) as Hd12.
  { apply NoDup_app. split_and!; [done| |done]. intros y Hy ?. eapply Hd2; [exact Hy|by right]. }
  assert (i ∉ l1 ++ l2) as Hi12 by (intros [Hy|?]%elem_of_app; [eapply Hd2; [exact Hy|by left]|done]).
  assert (is_Some (B !! i)) as HBi by (cbn in Hl'; destruct (B !! i); [eauto|done]).
  assert (∀ k, (k = None ∨ ∃ j, k = Some j ∧ j ∈ l1 ++ l2) → node_in B k) as Hin.
  { intros k [->|(j & -> & Hj)]; [done|]. eapply ring_node_in; [done|right]. exists j. split; [done|set_solver]. }
  assert (node_in B (before None l1)) as Hbin.
  { apply Hin. destruct (before_in None l1) as [->|(j & -> & ?)]; [by left|right; exists j; set_solver]. }
  assert (node_in B (after l2 None)) as Hain.
  { apply Hin. destruct (after_in l2 None) as [->|(j & -> & ?)]; [by left|right; exists j; set_solver]. }
  assert (Some i ≠ after l2 None) as Hia.
  { destruct (after_in l2 None) as [->|(j & -> & Hj)]; [done|]. by intros [= ->]. }
  unfold unlink_node. apply wpg_assoc', wpg_bind, (wpg_node_next _ _ _ _ _ _ _ _ _ (after l2 None)); [done|].
  apply wpg_assoc', wpg_bind, (wpg_node_prev _ _ _ _ _ _ _ _ _ (before None l1)); [done|].
  apply wpg_assoc', wpg_bind, wpg_node_set_prev; [done|]. intros B1 hp1 HP1 HN1 E1.
  apply wpg_assoc', wpg_bind, (wpg_node_prev _ _ _ _ _ _ _ _ _ (before None l1)).
  { rewrite HP1. unfold upd. by rewrite decide_False. }
  apply wpg_assoc', wpg_bind, (wpg_node_next _ _ _ _ _ _ _ _ _ (after l2 None)); [by rewrite HN1|].
  apply wpg_bind, wpg_node_set_next; [by eapply node_in_strip|]. intros B2 hn2 HN2 HP2 E2.
  eapply wpg_link2; [| |eapply (node_in_strip _ _ (Some i)); [exact E2|by eapply (node_in_strip _ _ (Some i))]|].
  - split; [|exact Hd12]. eapply path_ext; [| |eapply (path_join (nx B hn) (pv B hp)); [exact Hd12|done|done|exact H1|exact H2]].
    + intros y. rewrite HN2. unfold upd. by rewrite HN1.
    + intros y. by rewrite HP2, HP1.
  - exact Hi12.
  - intros B' hp' hn' Hr' E'. apply HQ; [done|]. by rewrite E', E2, E1.
Qed.
(** Updates that leave the links alone keep the ring. *)
Lemma ring_insert B hp hn l i b b' :
  B !! i = Some b → prev b' = prev b → next b' = next b → ring B hp hn l → ring (<[i := b']> B) hp hn l.
Proof.
  intros Hb Hp Hn [H Hd]. split; [|done]. eapply path_ext; [| |exact H]; intros [j|]; cbn; try done.
  - destruct (decide (j = i)) as [->|]; [by rewrite lookup_insert_eq, Hb; cbn; rewrite Hn|by rewrite lookup_insert_ne].
  - destruct (decide (j = i)) as [->|]; [by rewrite lookup_insert_eq, Hb; cbn; rewrite Hp|by rewrite lookup_insert_ne].
Qed.
