(* ===== verification/BioRep.v ===== *)
(** * The buffer cache as a map from block numbers to contents

    The abstract cache keeps the disk and, for each block in use (held by a
    process or marked dirty by the log), its contents.  [R s A] relates a
    concrete state to it; every operation of bio.c is shown to be an operation
    of the abstract cache. *)

From S2P Require Export BioRing.
Local Open Scope Z_scope.

Record ublk := mkU { u_data : block; u_dirty : bool; u_idx : nat; u_held : bool }.
Record ac := mkAc {
  a_disk : gmap Z block;
  a_size : Z;
  a_use : gmap Z ublk;
  a_log : list (Z * block)
}.

Definition hold (b : bool) (u : ublk) : ublk := mkU (u_data u) (u_dirty u) (u_idx u) b.
Definition dirty (b : bool) (u : ublk) : ublk := mkU (u_data u) b (u_idx u) (u_held u).
Definition with_data (d : block) (u : ublk) : ublk := mkU d (u_dirty u) (u_idx u) (u_held u).
Definition ac_use (bno : Z) (u : ublk) (A : ac) : ac :=
  mkAc (a_disk A) (a_size A) (<[bno := u]> (a_use A)) (a_log A).
Definition ac_drop (bno : Z) (A : ac) : ac :=
  mkAc (a_disk A) (a_size A) (delete bno (a_use A)) (a_log A).
Definition ac_write (bno : Z) (d : block) (A : ac) : ac :=
  mkAc (<[bno := d]> (a_disk A)) (a_size A) (a_use A) ((bno, d) :: a_log A).

(** A buffer in use, and an idle one. *)
Record buf_use (x : ctx) (i : nat) (b : buf) (u : ublk) : Prop := {
  bu_dev : dev b = 1;
  bu_data : bdata b = u_data u;
  bu_flags : flags b = if u_dirty u then 6 else 2;
  bu_ref : refcnt b = if u_held u then 1 else 0;
  bu_lock : if u_held u then sleeps x !!! SL_buf i = owned x else slocked (sleeps x !!! SL_buf i) = 0;
  bu_why : u_held u || u_dirty u = true;
  bu_idx : u_idx u = i
}.

Record buf_idle (x : ctx) (A : ac) (i : nat) (b : buf) : Prop := {
  bi_ref : refcnt b = 0;
  bi_lock : slocked (sleeps x !!! SL_buf i) = 0;
  bi_data : (dev b ≠ 1 ∧ flags b = 0) ∨
    (dev b = 1 ∧ flags b = 2 ∧ a_use A !! blockno b = None ∧ a_disk A !! blockno b = Some (bdata b))
}.

Record R (s : bst) (A : ac) : Prop := {
  R_ring : ∃ l, ring (bufs s) (head_prev s) (head_next s) l ∧ l ≡ₚ seq 0 NBUF;
  R_dom : ∀ i b, bufs s !! i = Some b → (i < NBUF)%nat;
  R_held : held (bctx s) = [];
  R_disk : memdisk s = a_disk A ∧ disksize s = a_size A ∧ dwrites s = a_log A;
  R_sized : ∀ b, 0 ≤ b < a_size A → is_Some (a_disk A !! b);
  R_buf : ∀ i b, bufs s !! i = Some b →
    (∃ u, a_use A !! blockno b = Some u ∧ buf_use (bctx s) i b u) ∨ buf_idle (bctx s) A i b;
  R_use : ∀ bno u, a_use A !! bno = Some u →
    0 ≤ bno < a_size A ∧ ∃ b, bufs s !! u_idx u = Some b ∧ blockno b = bno ∧ buf_use (bctx s) (u_idx u) b u;
  R_inj : ∀ i j bi bj, bufs s !! i = Some bi → bufs s !! j = Some bj →
    dev bi = 1 → dev bj = 1 → blockno bi = blockno bj → i = j
}.

(** Contexts that differ at most in the lock of buffer [i]. *)
Record ctx_but (i : nat) (x x' : ctx) : Prop := {
  cb_sleeps : ∀ n, n ≠ SL_buf i → sleeps x' !!! n = sleeps x !!! n;
  cb_pid : cur_pid x' = cur_pid x
}.

Lemma ctx_but_set_sleep i l x : ctx_but i x (set_sleep (SL_buf i) l x).
Proof. split; [|done]. intros n Hn. cbn. by rewrite lookup_total_insert_ne. Qed.
Lemma ctx_but_woken i w x x' : ctx_but i x x' → ctx_but i x (add_woken w x').
Proof. by intros []. Qed.
Lemma ctx_but_refl i x : ctx_but i x x.
Proof. done. Qed.
#[export] Hint Resolve ctx_but_set_sleep ctx_but_woken ctx_but_refl : kernel.

Lemma buf_use_but i x x' j b u : ctx_but i x x' → j ≠ i → buf_use x j b u → buf_use x' j b u.
Proof.
  intros [Hs Hp] Hne []. split; try done. unfold owned. rewrite Hp, Hs by congruence. done.
Qed.

Lemma buf_idle_but i x x' A j b : ctx_but i x x' → j ≠ i → buf_idle x A j b → buf_idle x' A j b.
Proof. intros [Hs Hp] Hne []. split; try done. by rewrite Hs by congruence. Qed.

Lemma R_buf_exists s A i : R s A → (i < NBUF)%nat → is_Some (bufs s !! i).
Proof.
  intros HR Hi. destruct (R_ring _ _ HR) as (l & Hl & Hp).
  apply (ring_node_in _ _ _ _ (Some i) Hl). right. exists i. split; [done|]. rewrite Hp. apply elem_of_seq. lia.
Qed.

Section Put.
Context (s : bst) (A : ac) (HR : R s A) (i : nat) (b b' : buf) (Hb : bufs s !! i = Some b).
Context (Hpv : prev b' = prev b) (Hnx : next b' = next b) (x' : ctx) (Hx' : ctx_but i (bctx s) x') (Hh : held x' = []).

(** The buffer [i] becomes the copy of block [bno] in use. *)
Lemma R_put_use bno u' D' W' :
  blockno b' = bno → 0 ≤ bno < a_size A → buf_use x' i b' u' →
  (∀ j bj, bufs s !! j = Some bj → dev bj = 1 → blockno bj = bno → j = i) →
  (∀ bno' u, bno' ≠ bno → a_use A !! bno' = Some u → u_idx u ≠ i) →
  (∀ bno', bno' ≠ bno → D' !! bno' = a_disk A !! bno') → is_Some (D' !! bno) →
  R (mkBst (<[i := b']> (bufs s)) (head_prev s) (head_next s) D' (disksize s) W' x')
    (mkAc D' (a_size A) (<[bno := u']> (a_use A)) W').
Proof.
  intros Hbno Hr Hu Huniq Hidx HD HDb. destruct HR as [(l & Hl & Hp) Hdom _ (_ & Hsz & _) Hsd Hbuf Huse Hinj].
  split; cbn.
  - exists l. split; [|done]. by eapply ring_insert.
  - intros j bj. destruct (decide (j = i)) as [->|]; [intros _; by eapply Hdom|].
    rewrite lookup_insert_ne by done. apply Hdom.
  - done.
  - done.
  - intros k Hk. destruct (decide (k = bno)) as [->|]; [done|]. rewrite HD by done. by apply Hsd.
  - intros j bj. destruct (decide (j = i)) as [->|Hne].
    + rewrite lookup_insert_eq. intros [= <-]. left. exists u'. rewrite Hbno. by rewrite lookup_insert_eq.
    + rewrite lookup_insert_ne by done. intros Hbj.
      assert (dev bj = 1 → blockno bj ≠ bno) as Hbj' by (intros Hd E; by eapply Hne, Huniq).
      destruct (Hbuf j bj Hbj) as [(u & Hlu & Hbu)|Hid].
      * left. exists u. rewrite lookup_insert_ne by (intros E; eapply Hbj'; [apply Hbu|done]). eauto using buf_use_but.
      * right. destruct (buf_idle_but _ _ _ _ _ _ Hx' Hne Hid) as [H1 H2 H3]. split; [done|done|].
        destruct H3 as [?|(H3 & H4 & H5 & H6)]; [by left|right]. specialize (Hbj' H3).
        cbn [a_use a_disk]. rewrite lookup_insert_ne by done. rewrite HD by done. done.
  - intros k u. destruct (decide (k = bno)) as [->|Hne].
    + rewrite lookup_insert_eq. intros [= <-]. split; [done|]. exists b'.
      rewrite (bu_idx _ _ _ _ Hu), lookup_insert_eq. done.
    + rewrite lookup_insert_ne by done. intros Hk. destruct (Huse k u Hk) as (? & bj & Hbj & ? & ?). split; [done|].
      exists bj. rewrite lookup_insert_ne by (apply not_eq_sym; by eapply Hidx).
      split_and!; [done|done|]. eapply buf_use_but; [done|by eapply Hidx|done].
  - intros j k bj bk. destruct (decide (j = i)) as [->|Hj]; destruct (decide (k = i)) as [->|Hk];
      rewrite ?lookup_insert_eq, ?lookup_insert_ne by done; intros; simplify_eq; try done.
    + symmetry. eapply Huniq; eauto.
    + eapply Huniq; eauto.
    + eapply Hinj; eauto.
Qed.

(** The buffer [i], a clean copy of block [bno], goes out of use. *)
Lemma R_put_idle bno :
  blockno b' = bno → dev b' = 1 → flags b' = 2 → refcnt b' = 0 → slocked (sleeps x' !!! SL_buf i) = 0 →
  a_disk A !! bno = Some (bdata b') → blockno b = bno → dev b = 1 →
  R (mkBst (<[i := b']> (bufs s)) (head_prev s) (head_next s) (memdisk s) (disksize s) (dwrites s) x') (ac_drop bno A).
Proof.
  intros Hbno Hdev Hfl Hrf Hlk HD Hbno0 Hdev0.
  destruct HR as [(l & Hl & Hp) Hdom _ (HD1 & Hsz & HW) Hsd Hbuf Huse Hinj].
  split; cbn.
  - exists l. split; [|done]. by eapply ring_insert.
  - intros j bj. destruct (decide (j = i)) as [->|]; [intros _; by eapply Hdom|].
    rewrite lookup_insert_ne by done. apply Hdom.
  - done.
  - done.
  - done.
  - intros j bj. destruct (decide (j = i)) as [->|Hne].
    + rewrite lookup_insert_eq. intros [= <-]. right. split; [done|done|]. right. cbn. rewrite Hbno, lookup_delete_eq. done.
    + rewrite lookup_insert_ne by done. intros Hbj.
      assert (dev bj = 1 → blockno bj ≠ bno) as Hbj' by (intros Hd E; apply Hne; eapply Hinj; eauto; congruence).
      destruct (Hbuf j bj Hbj) as [(u & Hlu & Hbu)|Hid].
      * left. exists u. rewrite lookup_delete_ne by (intros E; eapply Hbj'; [apply Hbu|done]). eauto using buf_use_but.
      * right. destruct (buf_idle_but _ _ _ _ _ _ Hx' Hne Hid) as [H1 H2 H3]. split; [done|done|].
        destruct H3 as [?|(H3 & H4 & H5 & H6)]; [by left|right]. cbn. specialize (Hbj' H3). by rewrite lookup_delete_ne.
  - intros k u. destruct (decide (k = bno)) as [->|Hne]; [by rewrite lookup_delete_eq|].
    rewrite lookup_delete_ne by done. intros Hk. destruct (Huse k u Hk) as (? & bj & Hbj & ? & ?). split; [done|].
    assert (u_idx u ≠ i) as Hi by (intros E; rewrite E in Hbj; congruence).
    exists bj. rewrite lookup_insert_ne by done. split_and!; [done|done|]. by eapply buf_use_but.
  - intros j k bj bk. destruct (decide (j = i)) as [->|Hj]; destruct (decide (k = i)) as [->|Hk];
      rewrite ?lookup_insert_eq, ?lookup_insert_ne by done; intros; simplify_eq; try done.
    + eapply (Hinj i k b bk); eauto; congruence.
    + eapply (Hinj j i bj b); eauto; congruence.
    + eapply Hinj; eauto.
Qed.
End Put.

(** ** Finding a buffer *)

Lemma is_free_idle x A i b : buf_idle x A i b → is_free b = true.
Proof.
  intros [Hr _ Hd]. unfold is_free. rewrite Hr. by destruct Hd as [[_ ->]|(_ & -> & _)].
Qed.

Lemma is_free_use x i b u : buf_use x i b u → is_free b = false.
Proof.
  intros [_ _ Hf Hr _ Hw _]. unfold is_free. rewrite Hf, Hr.
  destruct (u_held u); [done|]. by destruct (u_dirty u).
Qed.

(** Fewer blocks in use than buffers: one is free. *)
Lemma R_some_free s A l :
  R s A → l ≡ₚ seq 0 NBUF → (size (a_use A) < NBUF)%nat →
  ∃ i b, first_buf (bufs s) is_free l = Some i ∧ bufs s !! i = Some b ∧ buf_idle (bctx s) A i b ∧ i ∈ l.
Proof.
  intros HR Hp Hsz. destruct (first_buf (bufs s) is_free l) as [i|] eqn:E.
  - destruct (first_buf_Some _ _ _ _ E) as (Hi & b & Hb & Hf). exists i, b. split_and!; [done|done| |done].
    destruct (R_buf _ _ HR i b Hb) as [(u & _ & Hu)|?]; [|done].
    by rewrite (is_free_use _ _ _ _ Hu) in Hf.
  - exfalso.
    assert (∀ i, i ∈ seq 0 NBUF → ∃ b u, bufs s !! i = Some b ∧ a_use A !! blockno b = Some u ∧ dev b = 1) as Hall.
    { intros i Hi. destruct (R_buf_exists _ _ i HR) as [b Hb]; [apply elem_of_seq in Hi; lia|].
      destruct (R_buf _ _ HR i b Hb) as [(u & Hu & Hbu)|Hid]; [exists b, u; split_and!; [done|done|apply Hbu]|].
      apply is_free_idle in Hid. rewrite (first_buf_None _ _ _ i b E) in Hid; [done| |done]. by rewrite Hp. }
    set (g := λ i, from_option blockno 0 (bufs s !! i)).
    assert (NoDup (g <$> seq 0 NBUF)) as Hnd.
    { apply NoDup_fmap_2_strong; [|apply NoDup_seq]. intros i j Hi Hj. unfold g.
      destruct (Hall i Hi) as (bi & ui & Hbi & _ & Hdi). destruct (Hall j Hj) as (bj & uj & Hbj & _ & Hdj).
      rewrite Hbi, Hbj; cbn. intros Ebn. by eapply (R_inj _ _ HR). }
    assert ((list_to_set (g <$> seq 0 NBUF) : gset Z) ⊆ dom (a_use A)) as Hsub.
    { intros z. rewrite elem_of_list_to_set, list_elem_of_fmap. intros (i & -> & Hi).
      destruct (Hall i Hi) as (b & u & Hb & Hu & _). unfold g. rewrite Hb; cbn. by apply elem_of_dom_2 in Hu. }
    apply subseteq_size in Hsub. rewrite size_list_to_set, length_fmap, length_seq, size_dom in Hsub by done. lia.
Qed.

(** The first scan finds the only buffer of a block of device 1. *)
Lemma R_first_hit s A l bno :
  R s A → l ≡ₚ seq 0 NBUF →
  match first_buf (bufs s) (is_block 1 bno) l with
  | Some i => ∃ b, bufs s !! i = Some b ∧ dev b = 1 ∧ blockno b = bno
  | None => ∀ j b, bufs s !! j = Some b → j ∈ l → dev b = 1 → blockno b ≠ bno
  end.
Proof.
  intros HR Hp. destruct (first_buf _ _ _) as [i|] eqn:E.
  - destruct (first_buf_Some _ _ _ _ E) as (_ & b & Hb & Hi). apply andb_true_iff in Hi as [?%Z.eqb_eq ?%Z.eqb_eq]. eauto.
  - intros j b Hb Hj Hd Hbn. pose proof (first_buf_None _ _ _ _ _ E Hj Hb) as Hf.
    unfold is_block in Hf. rewrite Hd, Hbn, !Z.eqb_refl in Hf. done.
Qed.

(** ** The operations *)

Section Ops.
Context (t : bool).
Implicit Types (s : bst) (A : ac).

Lemma bst_eta s : s = mkBst (bufs s) (head_prev s) (head_next s) (memdisk s) (disksize s) (dwrites s) (bctx s).
Proof. by destruct s. Qed.

Lemma wpg_iderw_read B hp hn D n W x i b d (Q : unit → bst → Prop) :
  held x = [] → sleeps x !!! SL_buf i = owned x →
  B !! i = Some b → dev b = 1 → flags b = 0 → blockno b < n → D !! blockno b = Some d →
  Q tt (mkBst (<[i := set_flags 2 (set_bdata d b)]> B) hp hn D n W x) →
  wpg t (iderw i) Q (mkBst B hp hn D n W x).
Proof.
  intros Hh Hl Hb Hd Hf Hn HD HQ. unfold iderw.
  apply wpg_bind, (wpg_onc _ _ _ _ _ _ _ _ _ true x); [by apply holdingsleep_mine|]. cbn [negb].
  apply wpg_bind, (wpg_bget_ _ _ _ _ _ _ _ _ _ b); [done|]. rewrite Hf, Hd. cbn [Z.land Z.eqb Z.lor negb].
  apply wpg_bind, wpg_gets. cbn [disksize]. rewrite (proj2 (Z.ltb_lt _ _) Hn). cbn [negb].
  apply wpg_bind, wpg_bind. eapply wpg_deref; [exact HD|].
  eapply wpg_bput; [done|]. eapply wpg_bput; [apply lookup_insert_eq|].
  rewrite insert_insert_eq. cbn [flags set_bdata]. rewrite Hf. exact HQ.
Qed.

Lemma wpg_iderw_write B hp hn D n W x i b (Q : unit → bst → Prop) :
  held x = [] → sleeps x !!! SL_buf i = owned x →
  B !! i = Some b → dev b = 1 → flags b = 6 → blockno b < n →
  Q tt (mkBst (<[i := set_flags 2 b]> B) hp hn (<[blockno b := bdata b]> D) n ((blockno b, bdata b) :: W) x) →
  wpg t (iderw i) Q (mkBst B hp hn D n W x).
Proof.
  intros Hh Hl Hb Hd Hf Hn HQ. unfold iderw.
  apply wpg_bind, (wpg_onc _ _ _ _ _ _ _ _ _ true x); [by apply holdingsleep_mine|]. cbn [negb].
  apply wpg_bind, (wpg_bget_ _ _ _ _ _ _ _ _ _ b); [done|]. rewrite Hf, Hd. cbn [Z.land Z.eqb Z.lor negb Pos.land Pos.eqb Pos.lor].
  apply wpg_bind, wpg_gets. cbn [disksize]. rewrite (proj2 (Z.ltb_lt _ _) Hn). cbn [negb].
  apply wpg_bind, wpg_bind. eapply wpg_bput; [done|].
  apply wpg_bind, (wpg_bget_ _ _ _ _ _ _ _ _ _ (set_flags 2 b)); [rewrite lookup_insert_eq, Hf; done|].
  apply wpg_bind, wpg_modify, wpg_modify.
  eapply (wpg_bput _ _ _ _ _ _ _ _ _ _ (set_flags 2 b)); [cbn; rewrite lookup_insert_eq, Hf; done|].
  cbn [bufs head_prev head_next memdisk disksize dwrites bctx set_memdisk set_dwrites blockno bdata set_flags].
  rewrite insert_insert_eq. exact HQ.
Qed.

Lemma R_bread s A bno (Q : nat → bst → Prop) :
  R s A → 0 ≤ bno < a_size A →
  match a_use A !! bno with
  | Some u => u_held u = false ∧ ∀ s', R s' (ac_use bno (hold true u) A) → Q (u_idx u) s'
  | None => (size (a_use A) < NBUF)%nat ∧
      ∀ s' i d, a_disk A !! bno = Some d → R s' (ac_use bno (mkU d false i true) A) → Q i s'
  end → wpg t (bread 1 bno) Q s.
Proof.
  intros HR Hbno HQ. pose proof (R_held _ _ HR) as Hh. destruct (R_ring _ _ HR) as (l & Hl & Hp).
  destruct (R_disk _ _ HR) as (HD & Hn & HW). pose proof (R_first_hit _ _ l bno HR Hp) as Hhit.
  destruct (R_sized _ _ HR bno Hbno) as [d Hd].
  assert (length l = NBUF) as Hlen by (rewrite Hp; apply length_seq).
  rewrite (bst_eta s). unfold bread. apply wpg_bind. unfold bget.
  apply wpg_bind, (wpg_onc _ _ _ _ _ _ _ _ _ tt (set_held [L_bcache] (bctx s))); [by apply acquire_lk_ok|].
  apply wpg_bind, (wpg_node_next _ _ _ _ _ _ _ _ _ (head_next s)); [done|].
  apply wpg_bind, (wpg_bget_hit _ _ _ _ _ _ _ _ _ _ l); [exists None; split; [apply Hl|done]|lia|].
  destruct (first_buf (bufs s) (is_block 1 bno) l) as [i|] eqn:E.
  - destruct Hhit as (b & Hb & Hdev & Hbn). cbn [option_map].
    assert (∀ j bj, bufs s !! j = Some bj → dev bj = 1 → blockno bj = bno → j = i) as Huniq
      by (intros; eapply (R_inj _ _ HR); eauto; congruence).
    assert (slocked (sleeps (bctx s) !!! SL_buf i) = 0 ∧ refcnt b = 0 ∧ Z.land (flags b) B_VALID =? 0 = false ∧
       ∀ s', (∀ u', u_held u' = true → u_idx u' = i → u_data u' = bdata b → u_dirty u' = (flags b =? 6) →
                R s' (ac_use bno u' A)) → Q i s') as (Hfree & Hrc & Hval & HQ').
    { destruct (R_buf _ _ HR i b Hb) as [(u & Hu & [])|[Hr Hlk Hid]].
      - rewrite Hbn in Hu. rewrite Hu in HQ. destruct HQ as [Hnh HQ]. rewrite Hnh in *. split_and!; [done|done| |].
        + rewrite bu_flags0. by destruct (u_dirty u).
        + intros s' Hs'. rewrite <- bu_idx0. apply HQ, Hs'; [done|done|by cbn|]. cbn. rewrite bu_flags0. by destruct (u_dirty u).
      - destruct Hid as [[? _]|(_ & Hfl & Hno & Hdd)]; [done|]. rewrite Hbn in Hno, Hdd. rewrite Hno in HQ. destruct HQ as [_ HQ].
        split_and!; [done|done|by rewrite Hfl|]. intros s' Hs'. eapply HQ; [exact Hd|]. apply Hs'; [done|done| |by rewrite Hfl].
        cbn. congruence. }
    apply wpg_bind. eapply wpg_bput; [exact Hb|]. rewrite Hrc.
    apply wpg_bind, (wpg_onc _ _ _ _ _ _ _ _ _ tt (bctx s)); [by apply release_lk_ok|].
    apply wpg_bind. eapply wpg_onc; [by apply acquiresleep_ok|]. apply wpg_ret.
    apply wpg_bind. eapply wpg_bget_; [apply lookup_insert_eq|]. cbn [flags set_refcnt]. rewrite Hval.
    apply wpg_bind, wpg_when_false; [done|]. apply wpg_ret, HQ'.
    intros u' H1 H2 H3 H4. unfold ac_use. rewrite <- HW, HD.
    apply (R_put_use s A HR i b); try done; eauto with kernel.
    + split; cbn; rewrite ?H1, ?H3, ?H4; try done; [|by rewrite lookup_total_insert_eq].
      destruct (R_buf _ _ HR i b Hb) as [(u & _ & Hu)|[_ _ [[? _]|(_ & -> & _)]]]; [rewrite (bu_flags _ _ _ _ Hu); by destruct (u_dirty u)|done|done].
    + intros bno' u Hne Hu E'. destruct (R_use _ _ HR bno' u Hu) as (_ & bj & Hbj & <- & _).
      rewrite E' in Hbj. congruence.
  - assert (a_use A !! bno = None) as Hno.
    { destruct (a_use A !! bno) as [u|] eqn:Hu; [|done]. destruct (R_use _ _ HR bno u Hu) as (_ & b & Hb & Hbn & Hbu).
      exfalso. eapply Hhit; [exact Hb| |apply Hbu|exact Hbn]. rewrite Hp. apply elem_of_seq.
      split; [lia|]. by eapply (R_dom _ _ HR). }
    rewrite Hno in HQ. destruct HQ as [Hsz HQ]. cbn [option_map].
    destruct (path_last _ _ _ _ _ (rg_path _ _ _ _ Hl)) as [_ Hlast].
    apply wpg_bind, (wpg_node_prev _ _ _ _ _ _ _ _ _ (before None l)); [done|].
    destruct (R_some_free s A (rev l) HR) as (i & b & Ef & Hb & [Hrc Hfree Hid] & Hil); [by rewrite <- Permutation_rev|done|].
    apply wpg_bind, (wpg_bget_free _ _ _ _ _ _ _ _ (rev l)); [|by rewrite length_rev; lia|].
    { exists None. rewrite rev_involutive. split; [apply Hl|done]. }
    rewrite Ef.
    do 3 (apply wpg_bind; eapply wpg_bput; [first [exact Hb | apply lookup_insert_eq]|]; rewrite ?insert_insert_eq).
    apply wpg_bind. eapply wpg_bput; [apply lookup_insert_eq|]. rewrite insert_insert_eq.
    apply wpg_bind, (wpg_onc _ _ _ _ _ _ _ _ _ tt (bctx s)); [by apply release_lk_ok|].
    apply wpg_bind. eapply wpg_onc; [by apply acquiresleep_ok|]. apply wpg_ret.
    apply wpg_bind. eapply wpg_bget_; [apply lookup_insert_eq|]. cbn [flags set_refcnt set_flags Z.land Z.eqb].
    apply wpg_bind, wpg_when_true; [done|].
    eapply wpg_iderw_read; [done|cbn; apply lookup_total_insert_eq|apply lookup_insert_eq|done|done|cbn; rewrite Hn; lia|cbn; rewrite HD; exact Hd|].
    rewrite insert_insert_eq. apply wpg_ret, (HQ _ i d Hd). unfold ac_use. rewrite <- HW, HD.
    apply (R_put_use s A HR i b); try done; eauto with kernel.
    + split; cbn; try done. by rewrite lookup_total_insert_eq.
    + intros j bj Hbj Hdj Ebn. exfalso. eapply Hhit; [exact Hbj| |exact Hdj|exact Ebn].
      rewrite Hp. apply elem_of_seq. split; [lia|]. by eapply (R_dom _ _ HR).
    + intros bno' u Hne Hu E'. destruct (R_use _ _ HR bno' u Hu) as (_ & bj & Hbj & Ebn & Hbu).
      rewrite E', Hb in Hbj. injection Hbj as <-. destruct Hid as [[Hd1 _]|(_ & _ & Hn1 & _)].
      * apply Hd1, Hbu.
      * rewrite Ebn, Hu in Hn1. done.
Qed.
Section Held.
Context (s : bst) (A : ac) (HR : R s A) (bno : Z) (u : ublk) (Hu : a_use A !! bno = Some u) (Hheld : u_held u = true).

Lemma R_held_buf : ∃ b, bufs s !! u_idx u = Some b ∧ blockno b = bno ∧ 0 ≤ bno < a_size A ∧ buf_use (bctx s) (u_idx u) b u.
Proof. destruct (R_use _ _ HR bno u Hu) as (? & b & ? & ? & ?). eauto. Qed.

Lemma R_uniq b j bj :
  bufs s !! u_idx u = Some b → blockno b = bno → dev b = 1 →
  bufs s !! j = Some bj → dev bj = 1 → blockno bj = bno → j = u_idx u.
Proof. intros. eapply (R_inj _ _ HR); eauto; congruence. Qed.

Lemma R_idx b bno' u' :
  bufs s !! u_idx u = Some b → blockno b = bno → bno' ≠ bno → a_use A !! bno' = Some u' → u_idx u' ≠ u_idx u.
Proof.
  intros Hb Hbn Hne Hu' E. destruct (R_use _ _ HR bno' u' Hu') as (_ & bj & Hbj & <- & _).
  rewrite E in Hbj. congruence.
Qed.

(** Rewriting the buffer in place. *)
Lemma R_rewrite (f : buf → buf) u' D' W' b :
  bufs s !! u_idx u = Some b → blockno b = bno →
  prev (f b) = prev b → next (f b) = next b → blockno (f b) = blockno b →
  buf_use (bctx s) (u_idx u) (f b) u' →
  (∀ k, k ≠ bno → D' !! k = a_disk A !! k) → is_Some (D' !! bno) →
  R (mkBst (<[u_idx u := f b]> (bufs s)) (head_prev s) (head_next s) D' (disksize s) W' (bctx s))
    (mkAc D' (a_size A) (<[bno := u']> (a_use A)) W').
Proof.
  intros Hb Hbn Hpv Hnx Hbn' Hbu HD HDb. destruct R_held_buf as (b0 & Hb0 & _ & Hr & Hbu0).
  assert (b0 = b) as -> by congruence.
  apply (R_put_use s A HR (u_idx u) b); try done; eauto with kernel.
  - apply (R_held _ _ HR).
  - congruence.
  - intros j bj. apply R_uniq with b; try done. apply Hbu0.
  - intros k u0. by apply R_idx with b.
Qed.

Lemma R_buf_data (Q : block → bst → Prop) : Q (u_data u) s → wpg t (buf_data (u_idx u)) Q s.
Proof.
  intros HQ. destruct R_held_buf as (b & Hb & _ & _ & Hbu). rewrite (bst_eta s).
  apply wpg_bind, (wpg_bget_ _ _ _ _ _ _ _ _ _ b); [done|]. rewrite <- bst_eta.
  apply wpg_ret. by rewrite (bu_data _ _ _ _ Hbu).
Qed.

Lemma R_same_disk : is_Some (a_disk A !! bno).
Proof. destruct R_held_buf as (_ & _ & _ & Hr & _). by apply (R_sized _ _ HR). Qed.

Lemma R_set_buf_data d (Q : unit → bst → Prop) :
  (∀ s', R s' (ac_use bno (with_data d u) A) → Q tt s') → wpg t (set_buf_data (u_idx u) d) Q s.
Proof.
  intros HQ. destruct R_held_buf as (b & Hb & Hbn & _ & Hbu). rewrite (bst_eta s).
  eapply wpg_bput; [done|]. apply HQ. unfold ac_use. destruct (R_disk _ _ HR) as (HD & _ & HW). rewrite HD, HW.
  apply (R_rewrite (set_bdata d)); try done; [|apply R_same_disk]. by destruct Hbu.
Qed.

(** [b->flags |= B_DIRTY], as [log_write] does. *)
Lemma R_set_dirty (Q : unit → bst → Prop) :
  (∀ s', R s' (ac_use bno (dirty true u) A) → Q tt s') →
  wpg t (bput (u_idx u) (λ b, set_flags (Z.lor (flags b) B_DIRTY) b)) Q s.
Proof.
  intros HQ. destruct R_held_buf as (b & Hb & Hbn & _ & Hbu). rewrite (bst_eta s).
  eapply wpg_bput; [done|]. apply HQ. unfold ac_use. destruct (R_disk _ _ HR) as (HD & _ & HW). rewrite HD, HW.
  apply (R_rewrite (λ b, set_flags (Z.lor (flags b) B_DIRTY) b)); try done; [|apply R_same_disk].
  destruct Hbu. split; try done; cbn.
  - rewrite bu_flags0. by destruct (u_dirty u).
  - by rewrite Hheld.
Qed.

Lemma R_bwrite (Q : unit → bst → Prop) :
  (∀ s', R s' (ac_use bno (dirty false u) (ac_write bno (u_data u) A)) → Q tt s') → wpg t (bwrite (u_idx u)) Q s.
Proof.
  intros HQ. destruct R_held_buf as (b & Hb & Hbn & Hr & Hbu).
  destruct (R_disk _ _ HR) as (HD & Hn & HW). pose proof (R_held _ _ HR) as Hh.
  assert (sleeps (bctx s) !!! SL_buf (u_idx u) = owned (bctx s)) as Hl by (destruct Hbu; by rewrite Hheld in bu_lock0).
  rewrite (bst_eta s). unfold bwrite.
  apply wpg_bind, (wpg_onc _ _ _ _ _ _ _ _ _ true (bctx s)); [by apply holdingsleep_mine|]. cbn [negb].
  apply wpg_bind. eapply wpg_bput; [done|].
  assert (Z.lor (flags b) B_DIRTY = 6) as -> by (rewrite (bu_flags _ _ _ _ Hbu); by destruct (u_dirty u)).
  eapply wpg_iderw_write; [done|done|apply lookup_insert_eq|apply Hbu|done|cbn; rewrite Hn; lia|].
  rewrite insert_insert_eq. cbn [blockno bdata set_flags]. rewrite Hbn, (bu_data _ _ _ _ Hbu). apply HQ.
  unfold ac_use, ac_write; cbn [a_disk a_size a_use a_log]. rewrite HD, HW.
  apply (R_rewrite (λ b, set_flags 2 (set_flags 6 b))); try done.
  - destruct Hbu. split; try done; cbn. by rewrite Hheld.
  - intros k Hk. by rewrite lookup_insert_ne.
  - rewrite lookup_insert_eq. eauto.
Qed.
End Held.

Lemma R_strip B B' hp hn hp' hn' D n W x A l :
  R (mkBst B hp hn D n W x) A → strip <$> B' = strip <$> B → ring B' hp' hn' l → l ≡ₚ seq 0 NBUF →
  R (mkBst B' hp' hn' D n W x) A.
Proof.
  intros [_ Hdom Hh HD Hsd Hbuf Huse Hinj] E Hl Hp.
  assert (∀ i b', B' !! i = Some b' → ∃ b, B !! i = Some b ∧ strip b' = strip b) as Hto.
  { intros i b' Hb'. assert ((strip <$> B') !! i = Some (strip b')) as H by (by rewrite lookup_fmap, Hb').
    rewrite E, lookup_fmap in H. apply fmap_Some in H as (b & ? & ?). eauto. }
  assert (∀ i b, B !! i = Some b → ∃ b', B' !! i = Some b' ∧ strip b' = strip b) as Hfrom.
  { intros i b Hb. assert ((strip <$> B) !! i = Some (strip b)) as H by (by rewrite lookup_fmap, Hb).
    rewrite <- E, lookup_fmap in H. apply fmap_Some in H as (b' & ? & ?). eauto. }
  split; cbn in *; [eauto| |done|done|done| | |].
  - intros i b (b0 & Hb0 & _)%Hto. by eapply Hdom.
  - intros i b (b0 & Hb0 & Es)%Hto. destruct (Hbuf i b0 Hb0) as [(u & Hu & [])|[]];
      destruct b, b0; injection Es as -> -> -> -> ->; cbn in *; [left|right]; [exists u|]; by split.
  - intros bno u Hu. destruct (Huse bno u Hu) as (? & b0 & Hb0 & Hbn & []). split; [done|].
    destruct (Hfrom _ _ Hb0) as (b & Hb & Es). exists b. split; [done|].
    destruct b, b0; injection Es as -> -> -> -> ->; cbn in *. by split.
  - intros i j bi bj (bi0 & Hbi & Ei)%Hto (bj0 & Hbj & Ej)%Hto.
    destruct bi, bi0, bj, bj0; injection Ei as -> -> -> -> ->; injection Ej as -> -> -> -> ->; cbn.
    intros. by eapply Hinj.
Qed.

Lemma R_brelse s A bno u (Q : unit → bst → Prop) :
  R s A → a_use A !! bno = Some u → u_held u = true →
  (u_dirty u = false → a_disk A !! bno = Some (u_data u)) →
  (∀ s', R s' (if u_dirty u then ac_use bno (hold false u) A else ac_drop bno A) → Q tt s') →
  wpg t (brelse (u_idx u)) Q s.
Proof.
  intros HR Hu Hheld Hclean HQ. destruct (R_held_buf s A HR bno u Hu) as (b & Hb & Hbn & Hr & Hbu).
  destruct (R_ring _ _ HR) as (l & Hl & Hp). pose proof (R_held _ _ HR) as Hh.
  destruct (R_disk _ _ HR) as (HD & Hn & HW).
  assert (sleeps (bctx s) !!! SL_buf (u_idx u) = owned (bctx s)) as Hlk by (destruct Hbu; by rewrite Hheld in bu_lock0).
  assert (refcnt b = 1) as Hrc by (destruct Hbu; by rewrite Hheld in bu_ref0).
  set (x1 := add_woken (W_sleep (SL_buf (u_idx u))) (set_sleep (SL_buf (u_idx u)) (mkSl 0 0) (bctx s))).
  set (b1 := set_refcnt 0 b).
  assert (R (mkBst (<[u_idx u := b1]> (bufs s)) (head_prev s) (head_next s) (memdisk s) (disksize s) (dwrites s) x1)
    (if u_dirty u then ac_use bno (hold false u) A else ac_drop bno A)) as HR1.
  { destruct (u_dirty u) eqn:Ed.
    - unfold ac_use. rewrite HD, HW. apply (R_put_use s A HR (u_idx u) b); try done; unfold x1; eauto with kernel.
      + subst b1. destruct Hbu. split; try done; cbn; rewrite ?Ed, ?lookup_total_insert_eq in *; done.
      + intros j bj. apply (R_uniq s A HR bno u b); try done. apply Hbu.
      + intros k u0. by apply (R_idx s A HR bno u b).
      + by apply (R_sized _ _ HR).
    - subst b1. destruct Hbu. rewrite Ed in *.
      apply (R_put_idle s A HR (u_idx u) b); try done; unfold x1; eauto with kernel; cbn.
      + by rewrite lookup_total_insert_eq.
      + rewrite bu_data0. by apply Hclean. }
  rewrite (bst_eta s). unfold brelse.
  apply wpg_bind, (wpg_onc _ _ _ _ _ _ _ _ _ true (bctx s)); [by apply holdingsleep_mine|]. cbn [negb].
  apply wpg_bind. eapply wpg_onc; [by apply releasesleep_ok|]. fold x1.
  assert (held x1 = []) as Hh1 by done.
  apply wpg_bind, (wpg_onc _ _ _ _ _ _ _ _ _ tt (set_held [L_bcache] x1)); [by apply acquire_lk_ok|].
  apply wpg_bind. eapply wpg_bput; [done|]. rewrite Hrc. change (u32 (1 - 1)) with 0. fold b1.
  apply wpg_bind. eapply wpg_bget_; [apply lookup_insert_eq|]. apply wpg_bind, wpg_when_true; [done|].
  assert (u_idx u ∈ l) as Hin by (rewrite Hp; apply elem_of_seq; split; [lia|]; by eapply (R_dom _ _ HR)).
  apply list_elem_of_split in Hin as (l1 & l2 & ->).
  eapply wpg_move_front; [by eapply ring_insert|]. intros B' hp' hn' Hr' Es.
  eapply wpg_onc; [by apply release_lk_ok|]. apply HQ. eapply R_strip; [exact HR1|exact Es|exact Hr'|].
  rewrite <- Hp. by rewrite Permutation_middle.
Qed.
End Ops.

(** ** The initial cache *)

Definition ac0 (img : gmap Z block) (n : Z) : ac := mkAc img n ∅ [].

Lemma bboot_lookup i : (i < NBUF)%nat → bufs (bboot ∅ 0 (mkCtx [] ∅ 0 0 [])) !! i = Some buf0.
Proof.
  intros Hi. cbn [bufs bboot]. apply elem_of_list_to_map.
  - rewrite <- list_fmap_compose. rewrite (list_fmap_ext _ id); [|done]. rewrite list_fmap_id. apply NoDup_seq.
  - apply list_elem_of_fmap. exists i. split; [done|]. apply elem_of_seq. lia.
Qed.

Lemma bboot_lookup_inv i b : bufs (bboot ∅ 0 (mkCtx [] ∅ 0 0 [])) !! i = Some b → (i < NBUF)%nat ∧ b = buf0.
Proof.
  intros H%elem_of_list_to_map_2. apply list_elem_of_fmap in H as (j & [= -> ->] & Hj%elem_of_seq). split; [lia|done].
Qed.

Lemma wp_binit img n x (Q : unit → bst → Prop) :
  held x = [] → (∀ b, 0 ≤ b < n → is_Some (img !! b)) →
  (∀ s', R s' (ac0 img n) → Q tt s') → wp binit Q (bboot img n x).
Proof.
  intros Hh Himg HQ. unfold binit.
  change (bboot img n x) with (mkBst (bufs (bboot ∅ 0 (mkCtx [] ∅ 0 0 []))) None None img n [] x).
  set (B0 := bufs _). apply wpg_bind, (wpg_modify true), wpg_bind, (wpg_modify true).
  change (set_head_next None _) with (mkBst B0 None None img n [] x).
  set (I := λ xs (s : bst), ∃ l B hp hn x', seq 0 NBUF = rev l ++ xs ∧
    s = mkBst B hp hn img n [] x' ∧ ring B hp hn l ∧ strip <$> B = strip <$> B0 ∧ held x' = [] ∧
    (∀ i, i ∈ l → slocked (sleeps x' !!! SL_buf i) = 0)).
  apply (wpg_for_each _ _ _ I).
  - exists [], B0, None, None, x. split_and!; [done|done| |done|done|by intros ? ?%not_elem_of_nil].
    split; [done|apply NoDup_nil_2].
  - intros i xs s' (l & B & hp & hn & x' & Hseq & -> & Hr & Es & Hh' & Hfree).
    assert (NoDup (rev l ++ i :: xs)) as Hnd by (rewrite <- Hseq; apply NoDup_seq).
    assert (i ∉ l) as Hil.
    { apply NoDup_app in Hnd as (_ & Hnd & _). intros Hi. eapply (Hnd i); [|by left]. by rewrite <- Permutation_rev. }
    assert (i ∈ seq 0 NBUF) as Hi by (rewrite Hseq; apply elem_of_app; right; by left).
    apply elem_of_seq in Hi as [_ Hi]. rewrite Nat.add_0_l in Hi.
    assert (is_Some (B !! i)) as HB.
    { apply (node_in_strip B0 B (Some i)); [done|]. exists buf0. by apply bboot_lookup. }
    eapply wpg_link; [exact Hr|done|done|reflexivity|]. intros B' hp' hn' Hr' Es'.
    exists (i :: l), B', hp', hn', (set_sleep (SL_buf i) (mkSl 0 0) x'). split_and!; [|reflexivity|exact Hr'|by rewrite Es'|exact Hh'|].
    + rewrite Hseq. cbn. by rewrite <- app_assoc.
    + intros j Hj%elem_of_cons. cbn [sleeps set_sleep]. destruct (decide (j = i)) as [->|Hne].
      * rewrite lookup_total_insert_eq. reflexivity.
      * rewrite lookup_total_insert_ne by (intros [= E]; by apply Hne). apply Hfree. by destruct Hj.
  - intros s' (l & B & hp & hn & x' & Hseq & -> & Hr & Es & Hh' & Hfree). apply HQ.
    rewrite app_nil_r in Hseq.
    assert (∀ i b, B !! i = Some b → (i < NBUF)%nat ∧ strip b = strip buf0) as Hall.
    { intros i b Hb. assert ((strip <$> B) !! i = Some (strip b)) as H by (by rewrite lookup_fmap, Hb).
      rewrite Es, lookup_fmap in H. apply fmap_Some in H as (b0 & Hb0 & E).
      apply bboot_lookup_inv in Hb0 as [? ->]. done. }
    split; cbn; try done.
    + exists l. split; [done|]. etransitivity; [apply Permutation_rev|]. rewrite <- Hseq. reflexivity.
    + intros i b Hb. exact (proj1 (Hall i b Hb)).
    + intros i b Hb. destruct (Hall i b Hb) as [Hi E]. right. destruct b; injection E as -> -> -> -> ->.
      split; cbn; [done| |by left]. apply Hfree. rewrite (Permutation_rev l), <- Hseq. apply elem_of_seq. split; [apply Nat.le_0_l|exact Hi].
    + intros i j bi bj Hbi _ Hd. destruct (Hall i bi Hbi) as [_ E]. destruct bi; injection E as -> -> -> -> ->. done.
Qed.

(** ** Properties *)

Lemma wp_exists {A} (f : M bst A) s (P : A → bst → Prop) :
  wp f P s → ∃ a s', f s = Ok (a, s') ∧ P a s'.
Proof. apply wp_ok. Qed.

(** The block the abstract cache has in use after reading [bno]. *)
Definition read_block (A : ac) (bno : Z) (i : nat) (u : ublk) : Prop :=
  match a_use A !! bno with
  | Some u0 => u = hold true u0 ∧ i = u_idx u0
  | None => a_disk A !! bno = Some (u_data u) ∧ u_dirty u = false ∧ u_idx u = i ∧ u_held u = true
  end.

(** C21. The buffer cache implements a map from block numbers to contents
    over a disk.  [bread] of a block that nobody holds returns a locked buffer
    with the block's current contents (those in use, or the disk's), provided
    fewer blocks than buffers are in use; a change of the data is seen by the
    holder; [bwrite] puts the held contents on the disk and makes the block
    clean; [brelse] unlocks the buffer, and a clean block whose contents are
    those of the disk goes out of use. *)
Theorem bio_refines s A bno :
  R s A → 0 ≤ bno < a_size A →
  (from_option u_held false (a_use A !! bno) = false →
   (a_use A !! bno = None → (size (a_use A) < NBUF)%nat) →
   ∃ i u s', bread 1 bno s = Ok (i, s') ∧ read_block A bno i u ∧ R s' (ac_use bno u A)) ∧
  (∀ u, a_use A !! bno = Some u → u_held u = true →
   buf_data (u_idx u) s = Ok (u_data u, s) ∧
   (∀ d, ∃ s', set_buf_data (u_idx u) d s = Ok (tt, s') ∧ R s' (ac_use bno (with_data d u) A)) ∧
   (∃ s', bwrite (u_idx u) s = Ok (tt, s') ∧ R s' (ac_use bno (dirty false u) (ac_write bno (u_data u) A))) ∧
   (u_dirty u = true → ∃ s', brelse (u_idx u) s = Ok (tt, s') ∧ R s' (ac_use bno (hold false u) A)) ∧
   (u_dirty u = false → a_disk A !! bno = Some (u_data u) →
    ∃ s', brelse (u_idx u) s = Ok (tt, s') ∧ R s' (ac_drop bno A))).
Proof.
  intros HR Hbno. split.
  - intros Hnh Hsz.
    destruct (wp_ok (bread 1 bno) (λ i s', ∃ u, read_block A bno i u ∧ R s' (ac_use bno u A)) s) as (i & s' & E & u & H1 & H2).
    + apply (R_bread true s A bno); [done|done|]. unfold read_block. destruct (a_use A !! bno) as [u|].
      * split; [exact Hnh|]. intros s' Hs'. eauto.
      * split; [by apply Hsz|]. intros s' i d Hd Hs'. exists (mkU d false i true). done.
    + exists i, u, s'. done.
  - intros u Hu Hh. split_and!.
    + destruct (wp_ok (buf_data (u_idx u)) (λ d s', d = u_data u ∧ s' = s) s) as (d & s' & E & -> & ->); [|done].
      by eapply R_buf_data.
    + intros d. destruct (wp_ok (set_buf_data (u_idx u) d) (λ _ s', R s' (ac_use bno (with_data d u) A)) s) as ([] & s' & E & H);
        [eapply R_set_buf_data; eauto|eauto].
    + destruct (wp_ok (bwrite (u_idx u)) (λ _ s', R s' (ac_use bno (dirty false u) (ac_write bno (u_data u) A))) s)
        as ([] & s' & E & H); [eapply R_bwrite; eauto|eauto].
    + intros Hd. destruct (wp_ok (brelse (u_idx u)) (λ _ s', R s' (ac_use bno (hold false u) A)) s) as ([] & s' & E & H); [|eauto].
      eapply R_brelse; [done|done|done|by rewrite Hd|]. rewrite Hd. eauto.
    + intros Hd HD. destruct (wp_ok (brelse (u_idx u)) (λ _ s', R s' (ac_drop bno A)) s) as ([] & s' & E & H); [|eauto].
      eapply R_brelse; [done|done|done|done|]. rewrite Hd. eauto.
Qed.

(** A disk of four blocks. *)
Definition demo_img : gmap Z block := list_to_map [(0, [0]); (1, [1]); (2, [2]); (3, [3])].
Definition demo_ctx : ctx := mkCtx [] ∅ 1 0 [].

Lemma demo_binit : ∃ s, binit (bboot demo_img 4 demo_ctx) = Ok (tt, s) ∧ R s (ac0 demo_img 4).
Proof.
  destruct (wp_ok binit (λ _ s, R s (ac0 demo_img 4)) (bboot demo_img 4 demo_ctx)) as ([] & s & E & H); [|eauto].
  apply wp_binit; [done| |done]. intros b Hb.
  assert (b = 0 ∨ b = 1 ∨ b = 2 ∨ b = 3) as [->|[->|[->| ->]]] by lia; vm_compute; eauto.
Qed.

Lemma bio_refines_witness :
  ∃ s i s1, binit (bboot demo_img 4 demo_ctx) = Ok (tt, s) ∧ bread 1 2 s = Ok (i, s1) ∧ buf_data i s1 = Ok ([2], s1).
Proof.
  destruct demo_binit as (s & E & HR). exists s.
  destruct (bio_refines s _ 2 HR) as [(i & u & s1 & E1 & Hu & HR1) _]; [cbn; lia|done|intros _; vm_compute; lia|].
  unfold read_block in Hu. rewrite (eq_refl : a_use (ac0 demo_img 4) !! 2 = None) in Hu. destruct Hu as (Hd & Hdi & <- & Hh).
  destruct (bio_refines s1 _ 2 HR1) as [_ H]; [cbn; lia|]. destruct (H u) as (E2 & _); [apply lookup_insert_eq|done|].
  exists (u_idx u), s1.
  assert (Some (u_data u) = Some [2]) as [= Ed] by (rewrite <- Hd; vm_compute; reflexivity).
  rewrite Ed in E2. auto.
Defined.
