(* ===== verification/Ide.v ===== *)
(** * The IDE disk driver (ide.c)

    The queue of requests through [qnext], and the registers of the
    controller.  The controller is not part of the code: [IdeDev] is what the
    code does with it, and [IdeLaws] what the programmed input and output of
    the ATA standard promises for the commands the driver issues.  A process
    that waits for its request has left the core: [iderw] ends there with
    [RW_wait], and [iderw_resume] goes on.  The interrupt routing of [ideinit]
    ([ioapicenable]) is left out. *)

From S2P Require Export Bio.
Local Open Scope Z_scope.

Definition SECTOR_SIZE : Z := 512.
Definition IDE_BSY : Z := 128.
Definition IDE_DRDY : Z := 64.
Definition IDE_DF : Z := 32.
Definition IDE_ERR : Z := 1.
Definition IDE_CMD_READ : Z := 32.
Definition IDE_CMD_WRITE : Z := 48.
Definition IDE_CMD_RDMUL : Z := 196.
Definition IDE_CMD_WRMUL : Z := 197.

(** Reads and writes of ports; [patience] bounds how often the status has to
    be read before the disk is ready. *)
Class IdeDev (hw : Type) := {
  inb : Z → M hw Z;
  outb : Z → Z → M hw unit;
  insl : Z → nat → M hw block;
  outsl : Z → block → nat → M hw unit;
  patience : nat
}.

(** [idequeue], the [qnext] fields, the buffers, [havedisk1], the controller
    and the context. *)
Record ist (hw : Type) := mkI {
  idequeue : bptr; qnext : gmap nat bptr; ibufs : gmap nat buf; havedisk1 : Z; ihw : hw; ictx : ctx
}.
Arguments mkI {hw}.
Arguments idequeue {hw}.
Arguments qnext {hw}.
Arguments ibufs {hw}.
Arguments havedisk1 {hw}.
Arguments ihw {hw}.
Arguments ictx {hw}.

Inductive rw := RW_done | RW_wait.

Section Ide.
Context {hw : Type} {ID : IdeDev hw}.

Definition set_idequeue (v : bptr) (s : ist hw) : ist hw := mkI v (qnext s) (ibufs s) (havedisk1 s) (ihw s) (ictx s).
Definition set_qnext (v : gmap nat bptr) (s : ist hw) : ist hw := mkI (idequeue s) v (ibufs s) (havedisk1 s) (ihw s) (ictx s).
Definition set_ibufs (v : gmap nat buf) (s : ist hw) : ist hw := mkI (idequeue s) (qnext s) v (havedisk1 s) (ihw s) (ictx s).
Definition set_havedisk1 (v : Z) (s : ist hw) : ist hw := mkI (idequeue s) (qnext s) (ibufs s) v (ihw s) (ictx s).
Definition set_ihw (v : hw) (s : ist hw) : ist hw := mkI (idequeue s) (qnext s) (ibufs s) (havedisk1 s) v (ictx s).
Definition set_ictx (v : ctx) (s : ist hw) : ist hw := mkI (idequeue s) (qnext s) (ibufs s) (havedisk1 s) (ihw s) v.
Definition onhw {A} (m : M hw A) : M (ist hw) A := zoom ihw set_ihw m.
Definition onx {A} (m : M ctx A) : M (ist hw) A := zoom ictx set_ictx m.

Definition ib (i : nat) : M (ist hw) buf := deref (λ s, ibufs s !! i).
Definition ib_set (i : nat) (f : buf → buf) : M (ist hw) unit :=
  b ← ib i; modify (λ s, set_ibufs (<[i := f b]> (ibufs s)) s).

(** [*pp] for [pp] one of [&idequeue] and [&b->qnext], and its assignment. *)
Definition q_load (pp : bptr) : M (ist hw) bptr :=
  match pp with None => gets idequeue | Some i => deref (λ s, qnext s !! i) end.
Definition q_store (pp v : bptr) : M (ist hw) unit :=
  match pp with
  | None => modify (set_idequeue v)
  | Some i => q_load pp ;; modify (λ s, set_qnext (<[i := v]> (qnext s)) s)
  end.

Fixpoint idewait_loop (fuel : nat) : M (ist hw) Z :=
  match fuel with
  | O => diverge
  | S fuel =>
      r ← onhw (inb 503);
      if Z.land r (Z.lor IDE_BSY IDE_DRDY) =? IDE_DRDY then mret r else idewait_loop fuel
  end.
Definition idewait (checkerr : Z) : M (ist hw) Z :=
  r ← idewait_loop patience;
  if negb (checkerr =? 0) && negb (Z.land r (Z.lor IDE_DF IDE_ERR) =? 0) then mret (-1) else mret 0.

(** Is disk 1 there? *)
Fixpoint probe (n : nat) : M (ist hw) unit :=
  match n with
  | O => mret tt
  | S n => r ← onhw (inb 503); if negb (r =? 0) then modify (set_havedisk1 1) else probe n
  end.
Definition ideinit : M (ist hw) unit :=
  idewait 0 ;;
  onhw (outb 502 (Z.lor 224 (Z.shiftl 1 4))) ;;
  probe 1000 ;;
  onhw (outb 502 (Z.lor 224 (Z.shiftl 0 4))).

Definition idestart (b : bptr) : M (ist hw) unit :=
  match b with
  | None => panic "idestart"
  | Some i =>
      x ← ib i;
      if FSSIZE <=? blockno x then panic "incorrect blockno" else
      let sector_per_block := BSIZE / SECTOR_SIZE in
      let sector := blockno x * sector_per_block in
      let read_cmd := if sector_per_block =? 1 then IDE_CMD_READ else IDE_CMD_RDMUL in
      let write_cmd := if sector_per_block =? 1 then IDE_CMD_WRITE else IDE_CMD_WRMUL in
      if 7 <? sector_per_block then panic "idestart" else
      idewait 0 ;;
      onhw (outb 1014 0) ;;
      onhw (outb 498 sector_per_block) ;;
      onhw (outb 499 (Z.land sector 255)) ;;
      onhw (outb 500 (Z.land (Z.shiftr sector 8) 255)) ;;
      onhw (outb 501 (Z.land (Z.shiftr sector 16) 255)) ;;
      onhw (outb 502 (Z.lor (Z.lor 224 (Z.shiftl (Z.land (dev x) 1) 4)) (Z.land (Z.shiftr sector 24) 15))) ;;
      if negb (Z.land (flags x) B_DIRTY =? 0) then
        onhw (outb 503 write_cmd) ;;
        onhw (outsl 496 (bdata x) (Z.to_nat (BSIZE / 4)))
      else onhw (outb 503 read_cmd)
  end.

Definition ideintr : M (ist hw) unit :=
  onx (acquire_lk L_ide) ;;
  b ← gets idequeue;
  match b with
  | None => onx (release_lk L_ide)
  | Some i =>
      n ← q_load b;
      modify (set_idequeue n) ;;
      x ← ib i;
      (if Z.land (flags x) B_DIRTY =? 0 then
         r ← idewait 1;
         when (0 <=? r) (d ← onhw (insl 496 (Z.to_nat (BSIZE / 4))); ib_set i (set_bdata d))
       else mret tt) ;;
      ib_set i (λ b, set_flags (Z.lor (flags b) B_VALID) b) ;;
      ib_set i (λ b, set_flags (Z.land (flags b) (Z.lnot B_DIRTY)) b) ;;
      onx (wakeup_ch (W_buf i)) ;;
      q ← gets idequeue;
      (if bool_decide (q = None) then mret tt else idestart q) ;;
      onx (release_lk L_ide)
  end.

(** The loop of [iderw] that waits for the request: [sleep] gives the lock
    back. *)
Definition iderw_wait (i : nat) : M (ist hw) rw :=
  x ← ib i;
  if Z.land (flags x) (Z.lor B_VALID B_DIRTY) =? B_VALID then
    onx (release_lk L_ide) ;; mret RW_done
  else
    onx (release_lk L_ide) ;; mret RW_wait.
(** After [sleep]. *)
Definition iderw_resume (i : nat) : M (ist hw) rw :=
  onx (acquire_lk L_ide) ;;
  iderw_wait i.

(** The loop to the end of the queue: where the last pointer is. *)
Fixpoint queue_end (fuel : nat) (pp : bptr) : M (ist hw) bptr :=
  match fuel with
  | O => diverge
  | S fuel => v ← q_load pp; match v with None => mret pp | Some _ => queue_end fuel v end
  end.

Definition iderw (i : nat) : M (ist hw) rw :=
  h ← onx (holdingsleep (SL_buf i));
  if negb h then panic "iderw: buf not locked" else
  x ← ib i;
  if Z.land (flags x) (Z.lor B_VALID B_DIRTY) =? B_VALID then panic "iderw: nothing to do" else
  d1 ← gets havedisk1;
  if negb (dev x =? 0) && (d1 =? 0) then panic "iderw: ide disk 1 not present" else
  onx (acquire_lk L_ide) ;;
  q_store (Some i) None ;;
  pp ← queue_end (S NBUF) None;
  q_store pp (Some i) ;;
  q ← gets idequeue;
  (if bool_decide (q = Some i) then idestart (Some i) else mret tt) ;;
  iderw_wait i.
End Ide.

(** ** What the driver relies on *)

(** Nothing under way; a command under way; a sector ready to be read; the
    last command has ended with an error or a fault of the drive. *)
Inductive phase := Idle | Busy (write : bool) (drive sector : Z) | Ready (drive sector : Z) | Failed.
Definition under_way (p : phase) : bool := match p with Busy _ _ _ => true | _ => false end.
Definition at_rest (p : phase) : Prop := p = Idle ∨ p = Failed.

(** The drive and the sector that the registers name. *)
Definition drive_of (r : Z → Z) : Z := (r 502 / 16) mod 2.
Definition lba_of (r : Z → Z) : Z := r 499 + 256 * r 500 + 65536 * r 501 + 16777216 * (r 502 mod 16).
Definition put_sector (m : Z → Z → block) (drive sector : Z) (v : block) : Z → Z → block :=
  λ d x, if (d =? drive) && (x =? sector) then v else m d x.

(** [reg]: the registers; [media]: the sectors of the drives, with those that
    have been sent; [busy_for]: how often the status is still read as busy.
    When no command is under way the status becomes ready, and ERR or DF is set
    in it exactly when the last command has failed; the next command clears
    them. *)
Class IdeLaws {hw} (ID : IdeDev hw) := {
  reg : hw → Z → Z;
  media : hw → Z → Z → block;
  ph : hw → phase;
  busy_for : hw → nat;
  busy_bound d : (busy_for d < patience)%nat;
  inb_status d : under_way (ph d) = false → ∃ r d', inb 503 d = Ok (r, d') ∧ reg d' = reg d ∧ media d' = media d ∧ ph d' = ph d ∧
    (if Z.land r 192 =? 64 then Z.land r 33 = 0 ↔ ph d ≠ Failed else (busy_for d' < busy_for d)%nat);
  outb_reg p v d : at_rest (ph d) → p ∈ [1014; 498; 499; 500; 501; 502] →
    ∃ d', outb p v d = Ok (tt, d') ∧ (∀ x, reg d' x = if x =? p then v else reg d x) ∧ media d' = media d ∧ ph d' = ph d;
  outb_read d : at_rest (ph d) → reg d 498 = 1 →
    ∃ d', outb 503 32 d = Ok (tt, d') ∧ media d' = media d ∧ ph d' = Busy false (drive_of (reg d)) (lba_of (reg d));
  outb_write d data : at_rest (ph d) → reg d 498 = 1 → length data = 512%nat →
    ∃ d1 d2, outb 503 48 d = Ok (tt, d1) ∧ outsl 496 data 128 d1 = Ok (tt, d2) ∧
      media d2 = put_sector (media d) (drive_of (reg d)) (lba_of (reg d)) data ∧
      ph d2 = Busy true (drive_of (reg d)) (lba_of (reg d));
  insl_data d dr x : ph d = Ready dr x →
    ∃ d', insl 496 128 d = Ok (media d dr x, d') ∧ media d' = media d ∧ ph d' = Idle
}.

Section IdeOk.
Context {hw : Type} {ID : IdeDev hw} {IL : IdeLaws ID}.
Implicit Types (s : ist hw) (q : list nat).

Fixpoint qchain (qn : gmap nat bptr) (p : bptr) q : Prop :=
  match q with
  | [] => p = None
  | i :: q => p = Some i ∧ ∃ n, qn !! i = Some n ∧ qchain qn n q
  end.

(** A request: a read (flags 0) or a write. *)
Definition request (h1 : Z) (b : buf) : Prop :=
  (flags b = 0 ∨ flags b = B_DIRTY ∨ flags b = Z.lor B_VALID B_DIRTY) ∧ 0 ≤ blockno b < FSSIZE ∧ 0 ≤ dev b ∧
  length (bdata b) = 512%nat ∧ (dev b = 0 ∨ h1 ≠ 0).
Definition is_write (b : buf) : bool := negb (Z.land (flags b) B_DIRTY =? 0).
Definition drive (b : buf) : Z := dev b mod 2.

(** The queue of the driver is [q]. *)
Record queue_is q s : Prop := {
  qi_chain : qchain (qnext s) (idequeue s) q;
  qi_nodup : NoDup q;
  qi_bufs : ∀ i, i ∈ q → (i < NBUF)%nat ∧ ∃ b, ibufs s !! i = Some b ∧ request (havedisk1 s) b;
  qi_fields : ∀ i, (i < NBUF)%nat → is_Some (qnext s !! i)
}.

(** The disk works on the first request, or has finished it; a command that has
    ended may have failed. *)
Definition working q s : Prop :=
  match q with
  | [] => at_rest (ph (ihw s))
  | i :: _ => ∃ b, ibufs s !! i = Some b ∧ ph (ihw s) = Busy (is_write b) (drive b) (blockno b)
  end.
Definition finished (b : buf) s : Prop :=
  ph (ihw s) = Failed ∨ ph (ihw s) = if is_write b then Idle else Ready (drive b) (blockno b).

(** What the disk holds when it has taken the request. *)
Definition started (b : buf) (m : Z → Z → block) : Z → Z → block :=
  if is_write b then put_sector m (drive b) (blockno b) (bdata b) else m.

(** The request is done: the sector has been read, unless the command failed;
    the flags say that it has in both cases. *)
Definition read_buf (b : buf) (d : hw) : buf :=
  match ph d with
  | Failed => b
  | _ => if is_write b then b else set_bdata (media d (drive b) (blockno b)) b
  end.
Definition done_buf (b : buf) (d : hw) : buf := set_flags B_VALID (read_buf b d).

(** ** The commands *)

Lemma set_ihw_id s : set_ihw (ihw s) s = s.
Proof. by destruct s. Qed.

Lemma onhw_ok {A} (m : M hw A) r d s : m (ihw s) = Ok (r, d) → onhw m s = Ok (r, set_ihw d s).
Proof. intros E. unfold onhw, zoom. by rewrite E. Qed.

Lemma at_rest_done p : at_rest p → under_way p = false.
Proof. by intros [-> | ->]. Qed.

Lemma idewait_loop_ok n : ∀ s, under_way (ph (ihw s)) = false → (busy_for (ihw s) < n)%nat →
  ∃ r d, idewait_loop n s = Ok (r, set_ihw d s) ∧ reg d = reg (ihw s) ∧ media d = media (ihw s) ∧ ph d = ph (ihw s) ∧ (Z.land r 33 = 0 ↔ ph (ihw s) ≠ Failed).
Proof.
  induction n as [|n IH]; intros s Hw Hb; [lia|]. cbn [idewait_loop].
  destruct (inb_status (ihw s) Hw) as (r & d & E & E1 & E2 & E3 & Hr).
  erewrite bind_ok by (by eapply onhw_ok). change (Z.land r (Z.lor IDE_BSY IDE_DRDY) =? IDE_DRDY) with (Z.land r 192 =? 64).
  destruct (Z.land r 192 =? 64); [by exists r, d|].
  destruct (IH (set_ihw d s)) as (r' & d' & E' & E1' & E2' & E3' & Hr'); [cbn; by rewrite E3|cbn; lia|].
  exists r', d'. split_and!; [exact E'|by rewrite E1'|by rewrite E2'|by rewrite E3'|cbn in Hr'; by rewrite E3 in Hr'].
Qed.

(** [idewait] without and with the check of errors. *)
Definition waited (checkerr : Z) (p : phase) : Z :=
  match p with Failed => if checkerr =? 0 then 0 else -1 | _ => 0 end.
Lemma idewait_ok c s : under_way (ph (ihw s)) = false →
  ∃ d, idewait c s = Ok (waited c (ph (ihw s)), set_ihw d s) ∧ reg d = reg (ihw s) ∧ media d = media (ihw s) ∧ ph d = ph (ihw s).
Proof.
  intros Hw. destruct (idewait_loop_ok patience s Hw (busy_bound _)) as (r & d & E & E1 & E2 & E3 & Hr). exists d.
  unfold idewait. erewrite bind_ok by exact E. change (Z.lor IDE_DF IDE_ERR) with 33. split; [|done]. unfold waited.
  destruct (Z.eqb_spec (Z.land r 33) 0) as [H0|H0]; [|assert (ph (ihw s) = Failed) as -> by (destruct (ph (ihw s)); [..|done]; exfalso; apply H0; by apply Hr)].
  - apply Hr in H0. rewrite andb_false_r. by destruct (ph (ihw s)).
  - rewrite andb_true_r. by destruct (c =? 0).
Qed.

(** The registers name the drive and the sector. *)
Lemma sector_bytes x : 0 ≤ x < FSSIZE →
  Z.land (x * 1) 255 + 256 * Z.land (Z.shiftr (x * 1) 8) 255 + 65536 * Z.land (Z.shiftr (x * 1) 16) 255 = x ∧
  Z.land (Z.shiftr (x * 1) 24) 15 = 0.
Proof.
  change FSSIZE with 1000. intros Hx. rewrite Z.mul_1_r, !Z.shiftr_div_pow2 by lia.
  change 255 with (Z.ones 8). change 15 with (Z.ones 4). rewrite !Z.land_ones by lia.
  change (2 ^ 8) with 256. change (2 ^ 16) with 65536. change (2 ^ 24) with 16777216. change (2 ^ 4) with 16.
  rewrite (Z.div_small x 65536), (Z.div_small x 16777216) by lia. split; [|done].
  rewrite Z.mod_0_l by lia. pose proof (Z.div_mod x 256 ltac:(lia)). rewrite (Z.mod_small (x / 256)); [lia|].
  pose proof (Z.div_pos x 256 ltac:(lia) ltac:(lia)). pose proof (Z.div_lt_upper_bound x 256 256 ltac:(lia)). lia.
Qed.

Lemma drive_reg d : 0 ≤ d →
  (Z.lor (Z.lor 224 (Z.shiftl (Z.land d 1) 4)) 0 / 16) mod 2 = d mod 2 ∧
  Z.lor (Z.lor 224 (Z.shiftl (Z.land d 1) 4)) 0 mod 16 = 0.
Proof.
  intros Hd. change 1 with (Z.ones 1) at 1 2. rewrite !Z.land_ones by lia. change (2 ^ 1) with 2.
  pose proof (Z.mod_pos_bound d 2 ltac:(lia)). assert (d mod 2 = 0 ∨ d mod 2 = 1) as [-> | ->] by lia; by vm_compute.
Qed.

(** A write to one of the registers that select the sector. *)
Ltac out_reg d :=
  let E := fresh "E" in let R := fresh "R" in let Mm := fresh "Mm" in let P := fresh "P" in
  match goal with |- context [outb ?p ?v] =>
    lazymatch p with 503 => fail | _ => idtac end;
    destruct (outb_reg p v d ltac:(by repeat match goal with H : ph _ = ph _ |- _ => rewrite H; clear H end) ltac:(rewrite !elem_of_cons; tauto)) as (? & E & R & Mm & P);
    erewrite bind_ok by (apply onhw_ok; exact E) end.

(** Issuing a command. *)
Lemma idestart_ok i b s :
  ibufs s !! i = Some b → request (havedisk1 s) b → at_rest (ph (ihw s)) →
  ∃ d, idestart (Some i) s = Ok (tt, set_ihw d s) ∧ media d = started b (media (ihw s)) ∧
    ph d = Busy (is_write b) (drive b) (blockno b).
Proof.
  intros Hb (_ & Hno & Hdev & Hlen & _) Hph. unfold idestart.
  erewrite bind_ok by (unfold ib, deref; rewrite Hb; reflexivity).
  rewrite (proj2 (Z.leb_gt FSSIZE (blockno b))) by lia. cbv zeta.
  change (BSIZE / SECTOR_SIZE) with 1. change (1 =? 1) with true. change (7 <? 1) with false. cbv iota.
  destruct (sector_bytes (blockno b) Hno) as [Hsec Hhi]. rewrite Hhi. destruct (drive_reg (dev b) Hdev) as [Hdr Hlo].
  set (r6 := Z.lor _ 0) in *. set (b0 := Z.land (blockno b * 1) 255) in *.
  set (b1 := Z.land (Z.shiftr (blockno b * 1) 8) 255) in *. set (b2 := Z.land (Z.shiftr (blockno b * 1) 16) 255) in *.
  destruct (idewait_ok 0 s (at_rest_done _ Hph)) as (d0 & E0 & _ & M0 & P0). erewrite bind_ok by exact E0.
  out_reg d0. out_reg x. out_reg x0. out_reg x1. out_reg x2. out_reg x3.
  assert (at_rest (ph x4)) as Hid by congruence.
  assert (reg x4 498 = 1) as H1 by (rewrite R4, R3, R2, R1, R0; reflexivity).
  assert (media x4 = media (ihw s)) as Hm by congruence.
  assert (drive_of (reg x4) = drive b) as Hd4 by (unfold drive_of; rewrite R4; exact Hdr).
  assert (lba_of (reg x4) = blockno b) as Hl4.
  { unfold lba_of. rewrite !R4. cbn [Z.eqb Pos.eqb]. rewrite !R3. cbn [Z.eqb Pos.eqb]. rewrite !R2. cbn [Z.eqb Pos.eqb]. rewrite !R1. cbn [Z.eqb Pos.eqb].
    rewrite Hlo, Z.mul_0_r, Z.add_0_r. exact Hsec. }
  unfold started. destruct (is_write b) eqn:Ew; unfold is_write in Ew; rewrite Ew.
  - destruct (outb_write x4 (bdata b) Hid H1 Hlen) as (d1 & d2 & F1 & F2 & Hmed & Hp).
    erewrite bind_ok by (apply onhw_ok; exact F1). exists d2. rewrite Hd4, Hl4, Hm in *. split; [|by split].
    erewrite onhw_ok by exact F2. done.
  - destruct (outb_read x4 Hid H1) as (d1 & F1 & Hmed & Hp). exists d1. rewrite Hd4, Hl4 in *. split; [|split; [congruence|done]].
    erewrite onhw_ok by exact F1. done.
Qed.

(** ** The queue *)

Lemma acquire_ide s : held (ictx s) = [] → onx (acquire_lk L_ide) s = Ok (tt, set_ictx (set_held [L_ide] (ictx s)) s).
Proof. intros H. unfold onx, zoom. by rewrite acquire_lk_ok. Qed.

Lemma release_ide x s : held x = [] → ictx s = set_held [L_ide] x → onx (release_lk L_ide) s = Ok (tt, set_ictx x s).
Proof. intros H E. unfold onx, zoom. by rewrite E, release_lk_ok. Qed.

Lemma qchain_ext qn qn' q : ∀ p, (∀ i, i ∈ q → qn' !! i = qn !! i) → qchain qn p q → qchain qn' p q.
Proof.
  induction q as [|i q IH]; intros p H; [done|]. intros [-> (n & Hn & Hc)]. split; [done|]. exists n.
  split; [rewrite H by left; done|]. apply IH; [|done]. intros j Hj. apply H. by right.
Qed.

(** Where the last pointer of the queue is, starting from [pp]. *)
Definition end_loc (pp : bptr) q : bptr := match last q with Some i => Some i | None => pp end.

Lemma queue_end_ok q : ∀ fuel pp p s, q_load pp s = Ok (p, s) → qchain (qnext s) p q → (length q < fuel)%nat →
  queue_end fuel pp s = Ok (end_loc pp q, s).
Proof.
  induction q as [|i q IH]; intros [|fuel] pp p s Hp Hc Hf; cbn in Hf; try lia; cbn [queue_end]; erewrite bind_ok by exact Hp.
  - cbn in Hc. by subst.
  - destruct Hc as [-> (n & Hn & Hc)]. cbv iota. rewrite (IH fuel (Some i) n); [|by unfold q_load, deref; rewrite Hn|done|lia].
    unfold end_loc. rewrite last_cons. by destruct (last q).
Qed.

Lemma qchain_snoc qn i l q : ∀ p, last q = Some l → NoDup q → i ∉ q → qn !! i = Some None →
  qchain qn p q → qchain (<[l := Some i]> qn) p (q ++ [i]).
Proof.
  induction q as [|j q IH]; intros p Hl Hnd Hi Hn; [done|]. intros [-> (n & Hj & Hc)].
  apply NoDup_cons in Hnd as [Hjq Hnd]. apply not_elem_of_cons in Hi as [Hij Hi]. split; [done|].
  rewrite last_cons in Hl. destruct (last q) as [l'|] eqn:El.
  - injection Hl as ->. assert (l ≠ j) as Hlj by (intros ->; apply Hjq; by apply last_Some_elem_of).
    exists n. split; [by rewrite lookup_insert_ne|]. by apply IH.
  - injection Hl as ->. apply last_None in El as ->. exists (Some i). split; [apply lookup_insert_eq|].
    split; [done|]. exists None. split; [by rewrite lookup_insert_ne|done].
Qed.

Lemma queue_length q s : queue_is q s → (length q < S NBUF)%nat.
Proof.
  intros []. assert (length q ≤ length (seq 0 NBUF))%nat as H; [|rewrite length_seq in H; lia].
  apply submseteq_length, NoDup_submseteq; [done|]. intros i Hi. destruct (qi_bufs0 i Hi) as [H _]. apply elem_of_seq. lia.
Qed.

Lemma request_pending h b : request h b → Z.land (flags b) (Z.lor B_VALID B_DIRTY) =? B_VALID = false.
Proof. by intros [[-> |[-> | ->]] _]. Qed.

Lemma iderw_wait_ok i b x s :
  ibufs s !! i = Some b → held x = [] → ictx s = set_held [L_ide] x →
  iderw_wait i s = Ok (if Z.land (flags b) (Z.lor B_VALID B_DIRTY) =? B_VALID then RW_done else RW_wait, set_ictx x s).
Proof.
  intros Hb Hx Hs. unfold iderw_wait. erewrite bind_ok by (unfold ib, deref; rewrite Hb; reflexivity).
  destruct (_ =? _); erewrite bind_ok by (by apply release_ide); done.
Qed.

(** The queue with [i] at its end. *)
Lemma enqueue_ok i q s b :
  queue_is q s → i ∉ q → (i < NBUF)%nat → ibufs s !! i = Some b → request (havedisk1 s) b →
  ∃ s1 pp s', q_store (Some i) None s = Ok (tt, s1) ∧ queue_end (S NBUF) None s1 = Ok (pp, s1) ∧
    q_store pp (Some i) s1 = Ok (tt, s') ∧ queue_is (q ++ [i]) s' ∧ idequeue s' = Some (default i (head q)) ∧ ibufs s' = ibufs s ∧ ihw s' = ihw s ∧ ictx s' = ictx s ∧
    havedisk1 s' = havedisk1 s.
Proof.
  intros Hq Hi Hlt Hb Hreq. pose proof (queue_length _ _ Hq) as Hlen. destruct Hq as [Hc Hnd Hbufs Hf].
  destruct (Hf i Hlt) as [n Hn]. set (s1 := set_qnext (<[i := None]> (qnext s)) s).
  assert (q_store (Some i) None s = Ok (tt, s1)) as E1.
  { unfold q_store, q_load. erewrite bind_ok by (unfold deref; rewrite Hn; reflexivity). done. }
  assert (qchain (qnext s1) (idequeue s) q) as Hc1.
  { eapply qchain_ext; [|exact Hc]. intros j Hj. cbn. apply lookup_insert_ne. by intros ->. }
  pose proof (queue_end_ok q (S NBUF) None _ s1 eq_refl Hc1 Hlen) as E2.
  assert (NoDup (q ++ [i])) as Hnd'.
  { apply NoDup_app. split_and!; [done| |apply NoDup_singleton]. intros j Hj ->%list_elem_of_singleton. done. }
  assert (∀ j, j ∈ q ++ [i] → (j < NBUF)%nat ∧ ∃ c, ibufs s !! j = Some c ∧ request (havedisk1 s) c) as Hbufs'.
  { intros j [Hj|Hj]%elem_of_app; [by apply Hbufs|]. apply list_elem_of_singleton in Hj as ->. eauto. }
  unfold end_loc in E2. destruct (last q) as [l|] eqn:El.
  - assert (l ∈ q) as Hlq by (by apply last_Some_elem_of). assert (l ≠ i) as Hli by (by intros ->).
    destruct (Hf l (proj1 (Hbufs l Hlq))) as [nl Hnl].
    assert (qnext s1 !! l = Some nl) as Hnl1 by (cbn; by rewrite lookup_insert_ne).
    exists s1, (Some l). eexists. split; [exact E1|]. split; [exact E2|]. split.
    { unfold q_store, q_load. erewrite bind_ok by (unfold deref; rewrite Hnl1; reflexivity). reflexivity. }
    split; [|split; [|by split_and!]].
    + split; [|exact Hnd'|exact Hbufs'|].
      * cbn. apply (qchain_snoc (<[i:=None]> (qnext s)) i l q); [done..|apply lookup_insert_eq|exact Hc1].
      * intros j Hj. cbn. destruct (decide (j = l)) as [->|]; [rewrite lookup_insert_eq; eauto|]. rewrite lookup_insert_ne by done.
        destruct (decide (j = i)) as [->|]; [rewrite lookup_insert_eq; eauto|]. rewrite lookup_insert_ne by done. by apply Hf.
    + cbn. destruct q as [|j q]; [done|]. by destruct Hc as [-> _].
  - apply last_None in El as ->. exists s1, None. eexists. split; [exact E1|]. split; [exact E2|]. split; [reflexivity|].
    split; [|by split_and!]. split; [|exact Hnd'|exact Hbufs'|].
    + split; [done|]. exists None. split; [apply lookup_insert_eq|done].
    + intros j Hj. cbn. destruct (decide (j = i)) as [->|]; [rewrite lookup_insert_eq; eauto|]. rewrite lookup_insert_ne by done. by apply Hf.
Qed.

(** ** The requests *)

Lemma queue_state q s s' :
  queue_is q s → idequeue s' = idequeue s → qnext s' = qnext s → ibufs s' = ibufs s → havedisk1 s' = havedisk1 s →
  queue_is q s'.
Proof. intros [] E1 E2 E3 E4. split; rewrite ?E1, ?E2, ?E3, ?E4; done. Qed.

(** [iderw], up to the point where it waits. *)
Lemma iderw_ok q i b s :
  queue_is q s → working q s → i ∉ q → (i < NBUF)%nat → ibufs s !! i = Some b → request (havedisk1 s) b →
  held (ictx s) = [] → sleeps (ictx s) !!! SL_buf i = owned (ictx s) →
  ∃ s', iderw i s = Ok (RW_wait, s') ∧ queue_is (q ++ [i]) s' ∧ working (q ++ [i]) s' ∧ ibufs s' = ibufs s ∧
    ictx s' = ictx s ∧ media (ihw s') = if decide (q = []) then started b (media (ihw s)) else media (ihw s).
Proof.
  intros Hq Hw Hi Hlt Hb Hreq Hheld Hsl. set (x := ictx s) in *.
  unfold iderw. erewrite bind_ok.
  2:{ unfold onx, zoom. rewrite holdingsleep_ok by exact Hheld. fold x. rewrite Hsl. cbn [slocked slpid owned]. rewrite Z.eqb_refl. reflexivity. }
  cbn [negb Z.eqb andb]. assert (set_ictx x s = s) as -> by (unfold x; by destruct s).
  erewrite bind_ok by (unfold ib, deref; rewrite Hb; reflexivity). rewrite (request_pending _ _ Hreq).
  erewrite bind_ok by reflexivity.
  assert (negb (dev b =? 0) && (havedisk1 s =? 0) = false) as ->.
  { destruct Hreq as (_ & _ & _ & _ & [->|H]); [done|]. rewrite (proj2 (Z.eqb_neq _ _) H). apply andb_false_r. }
  erewrite bind_ok by (by apply acquire_ide). fold x. set (s0 := set_ictx (set_held [L_ide] x) s).
  destruct (enqueue_ok i q s0 b) as (s1 & pp & s2 & E1 & E2 & E3 & Hq2 & Hh2 & Hb2 & Hhw2 & Hx2 & Hd2);
    [by eapply queue_state|done|done|exact Hb|exact Hreq|].
  do 2 erewrite bind_ok by eassumption. erewrite bind_ok by exact E3. erewrite bind_ok by reflexivity. rewrite Hh2.
  assert (∀ s3, ibufs s3 = ibufs s → ictx s3 = set_held [L_ide] x → iderw_wait i s3 = Ok (RW_wait, set_ictx x s3)) as Hwait.
  { intros s3 B3 X3. rewrite (iderw_wait_ok i b x) by (done || by rewrite B3). by rewrite (request_pending _ _ Hreq). }
  destruct q as [|j q].
  - cbn [head default]. rewrite bool_decide_true by done.
    destruct (idestart_ok i b s2) as (d & E & Hm & Hp); [by rewrite Hb2|by rewrite Hd2|by rewrite Hhw2|].
    erewrite bind_ok by exact E. rewrite (Hwait (set_ihw d s2) Hb2 Hx2). eexists. split; [reflexivity|].
    split; [by eapply queue_state|]. split; [exists b; split; [by cbn; rewrite Hb2|exact Hp]|].
    split; [exact Hb2|]. split; [done|]. cbn. rewrite decide_True by done. by rewrite Hm, Hhw2.
  - cbn [head default]. rewrite bool_decide_false by (intros [= ->]; apply Hi; left).
    erewrite bind_ok by reflexivity. rewrite (Hwait s2 Hb2 Hx2). eexists. split; [reflexivity|].
    split; [by eapply queue_state|]. split; [|split; [exact Hb2|split; [done|cbn; by rewrite decide_False, Hhw2]]].
    destruct Hw as (bj & Hbj & Hp). exists bj. cbn. rewrite Hb2, Hhw2. by split.
Qed.

(** The interrupt for the first request. *)
Lemma done_flags h b : request h b → Z.land (Z.lor (flags b) B_VALID) (Z.lnot B_DIRTY) = B_VALID.
Proof. by intros [[-> |[-> | ->]] _]. Qed.

Lemma transfer_ok i b s :
  ibufs s !! i = Some b → finished b s →
  ∃ d, (if Z.land (flags b) B_DIRTY =? 0 then
         r ← idewait 1;
         when (0 <=? r) (d ← onhw (insl 496 (Z.to_nat (BSIZE / 4))); ib_set i (set_bdata d))
       else mret tt) s =
    Ok (tt, set_ibufs (<[i := read_buf b (ihw s)]> (ibufs s)) (set_ihw d s)) ∧
    at_rest (ph d) ∧ media d = media (ihw s).
Proof.
  intros Hb Hf. unfold finished, is_write, read_buf in *. destruct (Z.land (flags b) B_DIRTY =? 0) eqn:Ew; cbn [negb] in *.
  - destruct (idewait_ok 1 s) as (d & E & _ & Hm & Hp); [by destruct Hf as [-> | ->]|]. erewrite bind_ok by exact E. destruct Hf as [Hf|Hf]; rewrite Hf in Hp |- *.
    + exists d. cbn. rewrite insert_id by done. split; [by destruct s|]. split; [by right|done].
    + destruct (insl_data d _ _ Hp) as (d' & E' & Hm' & Hp'). exists d'. cbn [when Z.leb Z.compare waited].
      erewrite bind_ok by (apply onhw_ok; exact E'). unfold ib_set, ib, deref, mbind, M_bind, is_write. cbn. rewrite Hb, Hm, Ew.
      split; [done|]. split; [by left|by rewrite Hm'].
  - exists (ihw s). unfold is_write. rewrite Ew. cbn [negb]. split; [|split; [|done]]; [|by destruct Hf as [-> | ->]; [right|left]].
    destruct Hf as [-> | ->]; (rewrite insert_id by done; by destruct s).
Qed.

Lemma ideintr_ok q i b s :
  queue_is (i :: q) s → ibufs s !! i = Some b → finished b s → held (ictx s) = [] →
  ∃ s', ideintr s = Ok (tt, s') ∧ queue_is q s' ∧ working q s' ∧
    ibufs s' = <[i := done_buf b (ihw s)]> (ibufs s) ∧ ictx s' = add_woken (W_buf i) (ictx s) ∧
    media (ihw s') = match q with j :: _ => match ibufs s !! j with Some c => started c (media (ihw s)) | None => media (ihw s) end
                     | [] => media (ihw s) end.
Proof.
  intros Hq Hb Hf Hheld. pose proof Hq as [[Hh (n & Hn & Hc)] Hnd Hbufs Hfields]. apply NoDup_cons in Hnd as [Hiq Hnd].
  destruct (Hbufs i ltac:(left)) as (Hlt & b' & Hb' & Hreq). rewrite Hb in Hb'. injection Hb' as <-.
  set (x := ictx s) in *. unfold ideintr. erewrite bind_ok by (by apply acquire_ide). fold x.
  erewrite bind_ok by reflexivity. cbn [idequeue set_ictx]. rewrite Hh.
  erewrite bind_ok by (unfold q_load, deref; cbn; rewrite Hn; reflexivity). erewrite bind_ok by reflexivity.
  erewrite bind_ok by (unfold ib, deref; cbn; rewrite Hb; reflexivity).
  set (s1 := set_idequeue n (set_ictx (set_held [L_ide] x) s)).
  destruct (transfer_ok i b s1 Hb Hf) as (d & E & Hp & Hm). erewrite bind_ok by exact E.
  change (ihw s1) with (ihw s) in *. change (ibufs s1) with (ibufs s) in *.
  set (b1 := read_buf b (ihw s)). set (s2 := set_ibufs _ _).
  assert (flags b1 = flags b) as Hfl by (unfold b1, read_buf; by destruct (ph (ihw s)), (is_write b)).
  assert (∀ f c (t : ist hw), ibufs t !! i = Some c → ib_set i f t = Ok (tt, set_ibufs (<[i := f c]> (ibufs t)) t)) as Hset.
  { intros f c t Ht. unfold ib_set, ib, deref, mbind, M_bind. by rewrite Ht. }
  erewrite bind_ok by (apply (Hset _ b1); cbn; apply lookup_insert_eq).
  erewrite bind_ok by (eapply Hset; cbn; apply lookup_insert_eq).
  set (b2 := done_buf b (ihw s)).
  assert (set_flags (Z.land (flags (set_flags (Z.lor (flags b1) B_VALID) b1)) (Z.lnot B_DIRTY))
    (set_flags (Z.lor (flags b1) B_VALID) b1) = b2) as Eb.
  { unfold b2, done_buf. fold b1. cbn [flags set_flags]. by rewrite Hfl, (done_flags _ _ Hreq). }
  set (s3 := mkI n (qnext s) (<[i := b2]> (ibufs s)) (havedisk1 s) d (set_held [L_ide] (add_woken (W_buf i) x))).
  rewrite (bind_ok (onx (wakeup_ch (W_buf i))) _ _ tt s3).
  2:{ rewrite Eb. unfold onx, zoom, wakeup_ch, modify. cbn. by rewrite !insert_insert_eq. }
  erewrite bind_ok by reflexivity. change (idequeue s3) with n.
  assert (∀ j c, j ∈ q → ibufs s !! j = Some c → ibufs s3 !! j = Some c) as Hothers.
  { intros j c Hj Hc'. cbn. rewrite lookup_insert_ne; [done|by intros ->]. }
  assert (queue_is q s3) as Hq3.
  { split; [exact Hc|exact Hnd| |exact Hfields]. intros j Hj. destruct (Hbufs j ltac:(by right)) as (Hl & c & Hcj & Hrc).
    split; [done|]. exists c. split; [by apply Hothers|exact Hrc]. }
  assert (∀ s4, ictx s4 = ictx s3 → onx (release_lk L_ide) s4 = Ok (tt, set_ictx (add_woken (W_buf i) x) s4)) as Hrel.
  { intros s4 E4. by apply release_ide. }
  destruct q as [|j q].
  - cbn in Hc. subst n. rewrite bool_decide_true by done. erewrite bind_ok by reflexivity. rewrite Hrel by done.
    eexists. split; [reflexivity|]. split; [by eapply queue_state|]. split; [exact Hp|].
    split; [done|]. split; [done|]. exact Hm.
  - destruct Hc as [-> (n' & Hn' & Hc)]. rewrite bool_decide_false by done.
    destruct (Hbufs j ltac:(right; left)) as (_ & c & Hcj & Hrc).
    destruct (idestart_ok j c s3) as (d' & E' & Hm' & Hp'); [apply Hothers; [left|exact Hcj]|exact Hrc|exact Hp|].
    erewrite bind_ok by exact E'. rewrite Hrel by done. eexists. split; [reflexivity|].
    split; [by eapply queue_state|]. split; [exists c; split; [apply Hothers; [left|exact Hcj]|exact Hp']|].
    split; [done|]. split; [done|]. cbn. rewrite Hcj, Hm'. unfold started. change (ihw s3) with d. by rewrite Hm.
Qed.

Lemma ideintr_idle s : queue_is [] s → held (ictx s) = [] → ideintr s = Ok (tt, s).
Proof.
  intros Hq Hheld. pose proof (qi_chain _ _ Hq) as Hc. cbn in Hc. unfold ideintr. erewrite bind_ok by (by apply acquire_ide).
  erewrite bind_ok by reflexivity. cbn [idequeue set_ictx]. rewrite Hc. erewrite release_ide by done. by destruct s.
Qed.

(** C19. The driver serves the requests for the disk in the order of their
    arrival.  [iderw] puts the buffer at the end of the queue, starts the disk
    if it was alone, and waits; the interrupt for a finished request takes it
    off the queue, with the bytes of its sector if it was a read that
    succeeded, wakes the process that waits for it and starts the disk on the
    next request, at the drive and sector of its block; after a read that failed
    no byte is taken from the controller, and the buffer is marked valid with
    the bytes it had; an interrupt without a request changes nothing; a process
    that wakes up returns exactly when its request is done. *)
Theorem ide_serves_in_order q s :
  queue_is q s → held (ictx s) = [] →
  (working q s → ∀ i b, i ∉ q → (i < NBUF)%nat → ibufs s !! i = Some b → request (havedisk1 s) b →
     sleeps (ictx s) !!! SL_buf i = owned (ictx s) →
     ∃ s', iderw i s = Ok (RW_wait, s') ∧ queue_is (q ++ [i]) s' ∧ working (q ++ [i]) s' ∧ ibufs s' = ibufs s ∧
       ictx s' = ictx s ∧ media (ihw s') = if decide (q = []) then started b (media (ihw s)) else media (ihw s)) ∧
  (∀ i q' b, q = i :: q' → ibufs s !! i = Some b → finished b s →
     ∃ s', ideintr s = Ok (tt, s') ∧ queue_is q' s' ∧ working q' s' ∧
       ibufs s' = <[i := done_buf b (ihw s)]> (ibufs s) ∧ ictx s' = add_woken (W_buf i) (ictx s) ∧
       media (ihw s') = match q' with
                        | j :: _ => match ibufs s !! j with Some c => started c (media (ihw s)) | None => media (ihw s) end
                        | [] => media (ihw s) end) ∧
  (q = [] → ideintr s = Ok (tt, s)) ∧
  (∀ i b, ibufs s !! i = Some b →
     iderw_resume i s = Ok (if Z.land (flags b) (Z.lor B_VALID B_DIRTY) =? B_VALID then RW_done else RW_wait, s)).
Proof.
  intros Hq Hheld. split; [intros Hw i b Hi Hlt Hb Hr Hsl; by apply iderw_ok|].
  split; [intros i q' b -> Hb Hf; by apply ideintr_ok|]. split.
  - intros ->. by apply ideintr_idle.
  - intros i b Hb. unfold iderw_resume. erewrite bind_ok by (by apply acquire_ide).
    erewrite iderw_wait_ok by done. by destruct s.
Qed.
End IdeOk.

(** ** An instance: a controller that is always ready; a command may fail *)

Record demo_hw := mkHw { h_reg : Z → Z; h_media : Z → Z → block; h_ph : phase }.

#[export] Instance demo_ide : IdeDev demo_hw := {|
  inb := λ _ h, Ok (match h_ph h with Failed => 65 | _ => 64 end, h);
  outb := λ p v, modify (λ h,
    if p =? 503 then
      if v =? 32 then mkHw (h_reg h) (h_media h) (Busy false (drive_of (h_reg h)) (lba_of (h_reg h))) else h
    else mkHw (λ x, if x =? p then v else h_reg h x) (h_media h) (h_ph h));
  insl := λ _ _ h,
    match h_ph h with Ready d x => Ok (h_media h d x, mkHw (h_reg h) (h_media h) Idle) | _ => Ok (replicate 512 255, h) end;
  outsl := λ _ v _, modify (λ h,
    mkHw (h_reg h) (put_sector (h_media h) (drive_of (h_reg h)) (lba_of (h_reg h)) v)
      (Busy true (drive_of (h_reg h)) (lba_of (h_reg h))));
  patience := 1
|}.

#[export, program] Instance demo_ide_laws : IdeLaws demo_ide := {|
  reg := h_reg; media := h_media; ph := h_ph; busy_for := λ _, 0%nat
|}.
Next Obligation. intros d. cbn. lia. Qed.
Next Obligation. intros d _. cbn. eexists _, d. split; [reflexivity|]. split_and!; [done..|]. by destruct (h_ph d). Qed.
Next Obligation.
  intros p v d _ Hp. assert (p =? 503 = false) as E.
  { rewrite !elem_of_cons in Hp. destruct Hp as [->|[->|[->|[->|[->|[->|H]]]]]]; [done..|]. by apply elem_of_nil in H. }
  eexists. split; [reflexivity|]. cbn. by rewrite E.
Qed.
Next Obligation. intros d Hp Hr. eexists. split; [reflexivity|]. by split. Qed.
Next Obligation. intros d v Hp Hr Hl. eexists _, _. split; [reflexivity|]. split; [reflexivity|]. by split. Qed.
Next Obligation. intros d dr x Hp. eexists. cbn. rewrite Hp. split; [reflexivity|]. by split. Qed.

(** Process 1 asks for block 5; nothing was queued. *)
Definition demo_buf5 : buf := mkBuf 0 1 5 1 None None (replicate 512 0).
Definition demo_ist : ist demo_hw :=
  mkI None (list_to_map ((λ i, (i, None)) <$> seq 0 NBUF)) {[0%nat := demo_buf5]} 1
    (mkHw (λ _, 0) (λ _ _, replicate 512 7) Idle) (mkCtx [] {[SL_buf 0 := mkSl 1 1]} 1 0 []).

Lemma demo_queue : queue_is [] demo_ist.
Proof.
  split; [done|constructor|by intros i ?%elem_of_nil|].
  assert (forallb (λ i, bool_decide (is_Some (qnext demo_ist !! i))) (seq 0 NBUF) = true) as H by (vm_compute; reflexivity).
  rewrite forallb_forall in H. intros i Hi. apply (bool_decide_eq_true_1 _), H, list_elem_of_In, elem_of_seq. lia.
Qed.

(** Its read has failed. *)
Definition demo_error : ist demo_hw :=
  mkI (Some 0%nat) (qnext demo_ist) (ibufs demo_ist) 1 (mkHw (λ _, 0) (λ _ _, replicate 512 7) Failed) (ictx demo_ist).

Lemma demo_error_queue : queue_is [0%nat] demo_error.
Proof.
  destruct demo_queue as [_ _ _ Hf]. split; [|apply NoDup_singleton| |exact Hf].
  - split; [done|]. exists None. split; [vm_compute; reflexivity|done].
  - intros i ->%list_elem_of_singleton. split; [unfold NBUF; lia|]. exists demo_buf5. split; [vm_compute; reflexivity|].
    split; [by left|]. change FSSIZE with 1000. cbn. split_and!; try done; by right.
Qed.

(** After the failed read the buffer is valid, with the bytes it had. *)
Lemma ide_serves_in_order_witness :
  (∃ s', iderw 0 demo_ist = Ok (RW_wait, s') ∧ queue_is [0%nat] s' ∧ working [0%nat] s' ∧ ph (ihw s') = Busy false 1 5) ∧
  ∃ s', ideintr demo_error = Ok (tt, s') ∧ ibufs s' !! 0%nat = Some (mkBuf B_VALID 1 5 1 None None (replicate 512 0)).
Proof.
  split; cycle 1.
  { destruct (proj1 (proj2 (ide_serves_in_order [0%nat] demo_error demo_error_queue eq_refl)) 0%nat [] demo_buf5 eq_refl) as (s' & H1 & _ & _ & H4 & _);
      [vm_compute; reflexivity|by left|]. exists s'. split; [exact H1|]. by rewrite H4. }
  assert (request 1 demo_buf5) as Hr.
  { split; [by left|]. change FSSIZE with 1000. cbn. split_and!; try done; by right. }
  assert (ibufs demo_ist !! 0%nat = Some demo_buf5) as Hb by (vm_compute; reflexivity).
  assert (sleeps (ictx demo_ist) !!! SL_buf 0 = owned (ictx demo_ist)) as Hs by (vm_compute; reflexivity).
  assert (working [] demo_ist) as Hw by (left; reflexivity).
  destruct (proj1 (ide_serves_in_order [] demo_ist demo_queue eq_refl) Hw 0%nat demo_buf5 (not_elem_of_nil _)
    ltac:(unfold NBUF; lia) Hb Hr Hs) as (s' & H1 & H2 & H3 & H4 & _).
  exists s'. split; [exact H1|]. split; [exact H2|]. split; [exact H3|].
  destruct H3 as (b & Hb' & Hp). rewrite H4, Hb in Hb'. injection Hb' as <-. exact Hp.
Defined.
