(* ===== verification/Log.v ===== *)
(** * The log (log.c)

    A redo log with group commit over the buffer cache.  [fs.c]'s [readsb] is
    here too: [initlog] needs it. *)

From S2P Require Export Bytes BioRep.
Local Open Scope Z_scope.

Definition LOGSIZE : Z := 30.
Definition MAXOPBLOCKS : Z := 10.

(** [struct superblock]. *)
Record superblock := mkSb {
  sb_size : Z; sb_nblocks : Z; sb_ninodes : Z; sb_nlog : Z;
  sb_logstart : Z; sb_inodestart : Z; sb_bmapstart : Z
}.

(** [struct log]; [lh_n] and [lh_block] are its header [lh]. *)
Record log := mkLog {
  lstart : Z;
  lsize : Z;
  outstanding : Z;
  committing : Z;
  ldev : Z;
  lh_n : Z;
  lh_block : list Z
}.

Definition set_lstart (v : Z) (p : log) : log :=
  mkLog v (lsize p) (outstanding p) (committing
   p) (ldev p) (lh_n p) (lh_block p).
Definition set_lsize (v : Z) (p : log) : log :=
  mkLog (lstart p) v (outstanding p) (committing
   p) (ldev p) (lh_n p) (lh_block p).
Definition set_outstanding (v : Z) (p : log) : log :=
  mkLog (lstart p) (lsize p) v (committing
   p) (ldev p) (lh_n p) (lh_block p).
Definition set_committing (v : Z) (p : log) : log :=
  mkLog (lstart p) (lsize p) (outstanding p)
   v (ldev p) (lh_n p) (lh_block p).
Definition set_ldev (v : Z) (p : log) : log :=
  mkLog (lstart p) (lsize p) (outstanding p)
   (committing p) v (lh_n p) (lh_block p).
Definition set_lh_n (v : Z) (p : log) : log :=
  mkLog (lstart p) (lsize p) (outstanding p)
   (committing p) (ldev p) v (lh_block p).
Definition set_lh_block (v : list Z) (p : log) : log :=
  mkLog (lstart p) (lsize p) (outstanding
   p) (committing p) (ldev p) (lh_n p) v.

Record lst := mkLst { lbio : bst; lg : log }.
Definition set_lbio (b : bst) (s : lst) : lst := mkLst b (lg s).
Definition set_lg (f : log → log) (s : lst) : lst := mkLst (lbio s) (f (lg s)).

Definition onb {A} (m : M bst A) : M lst A := zoom lbio set_lbio m.
Definition onx {A} (m : M ctx A) : M lst A := onb (onc m).

(** [struct superblock] at the beginning of a block: seven [uint]s. *)
Definition decode_sb (d : block) : superblock :=
  mkSb (get32 d 0) (get32 d 4) (get32 d 8) (get32 d 12) (get32 d 16) (get32 d 20) (get32 d 24).
Definition readsb (d : Z) : M lst superblock :=
  bp ← onb (bread d 1);
  b ← onb (buf_data bp);
  onb (brelse bp) ;;
  mret (decode_sb b).

(** [lh->n] and [lh->block[i]] of a header in a block. *)
Definition hb_n (d : block) : Z := i32 (get32 d 0).
Definition hb_block (d : block) (i : nat) : Z := i32 (get32 d (4 + 4 * i)).
Definition hb_set_n (v : Z) (d : block) : block := put32 d 0 (u32 v).
Definition hb_set_block (i : nat) (v : Z) (d : block) : block := put32 d (4 + 4 * i) (u32 v).

(** Copy committed blocks from the log to their home location. *)
Definition install_one (tail : nat) : M lst unit :=
  l ← gets lg;
  lbuf ← onb (bread (ldev l) (lstart l + Z.of_nat tail + 1));
  home ← deref (λ _, lh_block l !! tail);
  dbuf ← onb (bread (ldev l) home);
  d ← onb (buf_data lbuf);
  onb (set_buf_data dbuf d) ;;
  onb (bwrite dbuf) ;;
  onb (brelse lbuf) ;;
  onb (brelse dbuf).
Definition install_trans : M lst unit :=
  l ← gets lg;
  for_each (seq 0 (Z.to_nat (lh_n l))) install_one.

Definition read_head : M lst unit :=
  l ← gets lg;
  b ← onb (bread (ldev l) (lstart l));
  d ← onb (buf_data b);
  modify (set_lg (set_lh_n (hb_n d))) ;;
  for_each (seq 0 (Z.to_nat (hb_n d))) (λ i,
    d ← onb (buf_data b);
    l ← gets lg;
    if bool_decide (i < length (lh_block l))%nat then
      modify (set_lg (set_lh_block (<[i := hb_block d i]> (lh_block l))))
    else fault) ;;
  onb (brelse b).

Definition write_head : M lst unit :=
  l ← gets lg;
  b ← onb (bread (ldev l) (lstart l));
  d ← onb (buf_data b);
  onb (set_buf_data b (hb_set_n (lh_n l) d)) ;;
  for_each (seq 0 (Z.to_nat (lh_n l))) (λ i,
    d ← onb (buf_data b);
    v ← deref (λ _, lh_block l !! i);
    onb (set_buf_data b (hb_set_block i v d))) ;;
  onb (bwrite b) ;;
  onb (brelse b).

Definition recover_from_log : M lst unit :=
  read_head ;;
  install_trans ;;
  modify (set_lg (set_lh_n 0)) ;;
  write_head.

Definition initlog (d : Z) : M lst unit :=
  sb ← readsb d;
  modify (set_lg (set_lstart (sb_logstart sb))) ;;
  modify (set_lg (set_lsize (sb_nlog sb))) ;;
  modify (set_lg (set_ldev d)) ;;
  recover_from_log.

(** A caller that has to wait is asleep until another process commits. *)
Definition begin_op : M lst unit :=
  onx (acquire_lk L_log) ;;
  l ← gets lg;
  if negb (committing l =? 0) then diverge
  else if lh_n l + (outstanding l + 1) * MAXOPBLOCKS >? LOGSIZE then diverge
  else
    modify (set_lg (set_outstanding (outstanding l + 1))) ;;
    onx (release_lk L_log).

(** Copy modified blocks from the cache to the log. *)
Definition write_log_one (tail : nat) : M lst unit :=
  l ← gets lg;
  to ← onb (bread (ldev l) (lstart l + Z.of_nat tail + 1));
  home ← deref (λ _, lh_block l !! tail);
  from ← onb (bread (ldev l) home);
  d ← onb (buf_data from);
  onb (set_buf_data to d) ;;
  onb (bwrite to) ;;
  onb (brelse from) ;;
  onb (brelse to).
Definition write_log : M lst unit :=
  l ← gets lg;
  for_each (seq 0 (Z.to_nat (lh_n l))) write_log_one.

Definition commit : M lst unit :=
  l ← gets lg;
  when (lh_n l >? 0)
    (write_log ;;
     write_head ;;
     install_trans ;;
     modify (set_lg (set_lh_n 0)) ;;
     write_head).

Definition end_op : M lst unit :=
  onx (acquire_lk L_log) ;;
  l ← gets lg;
  modify (set_lg (set_outstanding (outstanding l - 1))) ;;
  if negb (committing l =? 0) then panic "log.committing"
  else
    let do_commit := outstanding l - 1 =? 0 in
    (if do_commit then modify (set_lg (set_committing 1))
     else onx (wakeup_ch W_log)) ;;
    onx (release_lk L_log) ;;
    when do_commit
      (commit ;;
       onx (acquire_lk L_log) ;;
       modify (set_lg (set_committing 0)) ;;
       onx (wakeup_ch W_log) ;;
       onx (release_lk L_log)).

(** The index at which [log_write] records the block: its own if it is in the
    log already. *)
Fixpoint log_index (n : nat) (i : nat) (bno : Z) (bs : list Z) : nat :=
  match n, bs with
  | S n, b :: bs => if b =? bno then i else log_index n (S i) bno bs
  | _, _ => i
  end.

Definition log_write (b : nat) : M lst unit :=
  l ← gets lg;
  if (lh_n l >=? LOGSIZE) || (lh_n l >=? lsize l - 1) then panic "too big a transaction" else
  if outstanding l <? 1 then panic "log_write outside of trans" else
  onx (acquire_lk L_log) ;;
  l ← gets lg;
  x ← onb (bget_ b);
  let i := log_index (Z.to_nat (lh_n l)) 0 (blockno x) (lh_block l) in
  modify (set_lg (set_lh_block (<[i := blockno x]> (lh_block l)))) ;;
  when (Z.of_nat i =? lh_n l) (modify (set_lg (set_lh_n (lh_n l + 1)))) ;;
  onb (bput b (λ x, set_flags (Z.lor (flags x) B_DIRTY) x)) ;;
  onx (release_lk L_log).

(** Zeroed memory. *)
Definition log0 : log := mkLog 0 0 0 0 0 0 (replicate (Z.to_nat LOGSIZE) 0).
