(* ===== verification/LogRep.v ===== *)
(** * What the parts of the log do to the disk

    Each loop of log.c is related to an operation on the abstract cache of
    [BioRep]: which blocks it writes, in which order, and with what
    contents. *)

From S2P Require Export Log.
Local Open Scope Z_scope.

(** The abstract cache when [k] is read, [h] overwritten by it and both
    released: [h] holds the contents of [k] on the disk and is out of use. *)
Definition ac_install (h : Z) (d : block) (A : ac) : ac := ac_drop h (ac_write h d A).

Section Rules.
Context (t : bool).
Implicit Types (b : bst) (l : log) (A : ac).

Lemma wpg_onb {T} (m : M bst T) (Q : T → lst → Prop) b l :
  wpg t m (λ a b', Q a (mkLst b' l)) b → wpg t (onb m) Q (mkLst b l).
Proof. exact (wpg_zoom t lbio set_lbio m Q (mkLst b l)). Qed.

(** Reading a block that is not in use. *)
Lemma L_bread_fresh b l A bno d (Q : nat → lst → Prop) :
  R b A → 0 ≤ bno < a_size A → a_use A !! bno = None → (size (a_use A) < NBUF)%nat → a_disk A !! bno = Some d →
  (∀ b' u, u_data u = d → u_dirty u = false → u_held u = true → R b' (ac_use bno u A) → Q (u_idx u) (mkLst b' l)) →
  wpg t (onb (bread 1 bno)) Q (mkLst b l).
Proof.
  intros HR Hr Hn Hs Hd HQ. apply wpg_onb, (R_bread _ _ A); [done|done|]. rewrite Hn. split; [done|].
  intros s' i d' Hd' HR'. assert (d' = d) as -> by congruence. by apply (HQ s' (mkU d false i true)).
Qed.

(** Reading a block in use that nobody holds. *)
Lemma L_bread_use b l A bno u (Q : nat → lst → Prop) :
  R b A → 0 ≤ bno < a_size A → a_use A !! bno = Some u → u_held u = false →
  (∀ b', R b' (ac_use bno (hold true u) A) → Q (u_idx u) (mkLst b' l)) →
  wpg t (onb (bread 1 bno)) Q (mkLst b l).
Proof.
  intros HR Hr Hn Hh HQ. apply wpg_onb, (R_bread _ _ A); [done|done|]. rewrite Hn. split; [done|].
  intros s' HR'. by apply HQ.
Qed.

Section Held.
Context (b : bst) (l : log) (A : ac) (HR : R b A) (bno : Z) (u : ublk) (Hu : a_use A !! bno = Some u) (Hh : u_held u = true).

Lemma L_data (Q : block → lst → Prop) :
  Q (u_data u) (mkLst b l) → wpg t (onb (buf_data (u_idx u))) Q (mkLst b l).
Proof. intros HQ. apply wpg_onb. by apply (R_buf_data t b A HR bno u Hu). Qed.

Lemma L_set_data d (Q : unit → lst → Prop) :
  (∀ b', R b' (ac_use bno (with_data d u) A) → Q tt (mkLst b' l)) →
  wpg t (onb (set_buf_data (u_idx u) d)) Q (mkLst b l).
Proof. intros HQ. apply wpg_onb, (R_set_buf_data t b A HR bno u Hu). intros s' Hs'. by apply HQ. Qed.

Lemma L_bwrite (Q : unit → lst → Prop) :
  (∀ b', R b' (ac_use bno (dirty false u) (ac_write bno (u_data u) A)) → Q tt (mkLst b' l)) →
  wpg t (onb (bwrite (u_idx u))) Q (mkLst b l).
Proof. intros HQ. apply wpg_onb, (R_bwrite t b A HR bno u Hu Hh). intros s' Hs'. by apply HQ. Qed.

Lemma L_brelse_dirty (Q : unit → lst → Prop) :
  u_dirty u = true → (∀ b', R b' (ac_use bno (hold false u) A) → Q tt (mkLst b' l)) →
  wpg t (onb (brelse (u_idx u))) Q (mkLst b l).
Proof.
  intros Hd HQ. apply wpg_onb, (R_brelse t b A bno u); [done|done|done|by rewrite Hd|].
  rewrite Hd. intros s' Hs'. by apply HQ.
Qed.

Lemma L_brelse_clean (Q : unit → lst → Prop) :
  u_dirty u = false → a_disk A !! bno = Some (u_data u) →
  (∀ b', R b' (ac_drop bno A) → Q tt (mkLst b' l)) →
  wpg t (onb (brelse (u_idx u))) Q (mkLst b l).
Proof.
  intros Hd HD HQ. apply wpg_onb, (R_brelse t b A bno u); [done|done|done|done|].
  rewrite Hd. intros s' Hs'. by apply HQ.
Qed.
End Held.

Lemma R_same b A A' :
  R b A → a_disk A' = a_disk A → a_size A' = a_size A → a_use A' = a_use A → a_log A' = a_log A → R b A'.
Proof. destruct A, A'; cbn. by intros ? -> -> -> ->. Qed.

(** Reading a block, in use or not. *)
Lemma L_bread b l A bno (Q : nat → lst → Prop) :
  R b A → 0 ≤ bno < a_size A →
  (a_use A !! bno = None → (size (a_use A) < NBUF)%nat) → (∀ u, a_use A !! bno = Some u → u_held u = false) →
  (∀ b' u, u_held u = true → R b' (ac_use bno u A) → Q (u_idx u) (mkLst b' l)) →
  wpg t (onb (bread 1 bno)) Q (mkLst b l).
Proof.
  intros HR Hr Hs Hh HQ. destruct (a_use A !! bno) as [u|] eqn:Hu.
  - eapply L_bread_use; eauto. intros b' Hb'. by apply (HQ b' (hold true u)).
  - destruct (R_sized _ _ HR bno Hr) as [d Hd]. eapply L_bread_fresh; eauto.
Qed.

Ltac use_lookup :=
  cbn [a_use a_disk a_size a_log ac_use ac_drop ac_write ac_install u_data u_dirty u_idx u_held hold dirty with_data];
  repeat first [rewrite lookup_insert_eq | rewrite lookup_insert_ne by congruence
    | rewrite lookup_delete_eq | rewrite lookup_delete_ne by congruence]; try done.

(** Maps of blocks in use, block by block. *)
Ltac use_ext k h :=
  apply map_eq; let z := fresh "z" in intros z; cbn [a_use ac_use ac_drop ac_write ac_install];
  destruct (decide (z = k)) as [->|]; [|destruct (decide (z = h)) as [->|]]; use_lookup.

Lemma L_install_one b l A tail h d (Q : unit → lst → Prop) :
  let k := lstart l + Z.of_nat tail + 1 in
  R b A → ldev l = 1 → lh_block l !! tail = Some h → 0 ≤ k < a_size A → 0 ≤ h < a_size A → k ≠ h →
  a_use A !! k = None → a_disk A !! k = Some d → (size (a_use A) < NBUF)%nat →
  (a_use A !! h = None → (S (size (a_use A)) < NBUF)%nat) → (∀ u, a_use A !! h = Some u → u_held u = false) →
  (∀ b', R b' (ac_install h d A) → Q tt (mkLst b' l)) →
  wpg t (install_one tail) Q (mkLst b l).
Proof.
  intros k HR Hdev Hh Hk Hhr Hkh Huk Hd Hs1 Hs2 Huh HQ. unfold install_one.
  apply wpg_bind, wpg_gets. cbn [lg]. rewrite Hdev. fold k.
  apply wpg_bind. eapply (L_bread_fresh b l A k d); [done..|]. intros b1 u1 Hd1 Hc1 Hh1 HR1.
  apply wpg_bind. eapply wpg_deref; [exact Hh|].
  apply wpg_bind. eapply (L_bread b1 l _ h); [exact HR1|done| | |].
  { use_lookup. intros Hn. rewrite map_size_insert_None by done. by apply Hs2. }
  { use_lookup. }
  intros b2 u2 Hh2 HR2.
  apply wpg_bind. eapply (L_data _ _ _ HR2 k u1); [by use_lookup|]. rewrite Hd1.
  apply wpg_bind. eapply (L_set_data _ _ _ HR2 h u2); [by use_lookup|]. intros b3 HR3.
  apply wpg_bind. eapply (L_bwrite _ _ _ HR3 h (with_data d u2)); [by use_lookup|done|]. intros b4 HR4.
  apply wpg_bind. eapply (L_brelse_clean _ _ _ HR4 k u1); [by use_lookup|done|done|use_lookup; congruence|]. intros b5 HR5.
  eapply (L_brelse_clean _ _ _ HR5 h (dirty false (with_data d u2))); [by use_lookup|done|done|by use_lookup|]. intros b6 HR6.
  apply HQ. eapply R_same; [exact HR6|done|done| |done]. symmetry. use_ext k h.
Qed.

Lemma L_write_log_one b l A tail h v (Q : unit → lst → Prop) :
  let k := lstart l + Z.of_nat tail + 1 in
  R b A → ldev l = 1 → lh_block l !! tail = Some h → 0 ≤ k < a_size A → 0 ≤ h < a_size A → k ≠ h →
  a_use A !! k = None → (size (a_use A) < NBUF)%nat →
  a_use A !! h = Some v → u_held v = false → u_dirty v = true →
  (∀ b', R b' (ac_write k (u_data v) A) → Q tt (mkLst b' l)) →
  wpg t (write_log_one tail) Q (mkLst b l).
Proof.
  intros k HR Hdev Hh Hk Hhr Hkh Huk Hs1 Huh Hvh Hvd HQ. unfold write_log_one.
  destruct (R_sized _ _ HR k Hk) as [d Hd].
  apply wpg_bind, wpg_gets. cbn [lg]. rewrite Hdev. fold k.
  apply wpg_bind. eapply (L_bread_fresh b l A k d); [done..|]. intros b1 u1 Hd1 Hc1 Hh1 HR1.
  apply wpg_bind. eapply wpg_deref; [exact Hh|].
  apply wpg_bind. eapply (L_bread_use b1 l _ h v); [exact HR1|done|by use_lookup|done|]. intros b2 HR2.
  apply wpg_bind. eapply (L_data _ _ _ HR2 h (hold true v)); [by use_lookup|]. cbn [u_data hold].
  apply wpg_bind. eapply (L_set_data _ _ _ HR2 k u1); [by use_lookup|]. intros b3 HR3.
  apply wpg_bind. eapply (L_bwrite _ _ _ HR3 k (with_data (u_data v) u1)); [by use_lookup|done|]. intros b4 HR4.
  apply wpg_bind. eapply (L_brelse_dirty _ _ _ HR4 h (hold true v)); [by use_lookup|done|done|]. intros b5 HR5.
  eapply (L_brelse_clean _ _ _ HR5 k (dirty false (with_data (u_data v) u1))); [by use_lookup|done|done|by use_lookup|].
  intros b6 HR6. apply HQ. eapply R_same; [exact HR6|done|done| |done]. symmetry. use_ext k h. rewrite Huh.
  destruct v; cbn in *; by subst.
Qed.
(** ** The header *)

(** The header block after [write_head]'s loop has run for [n] entries. *)
Definition enc_upto (l : log) (d : block) (n : nat) : block :=
  foldl (λ d i, hb_set_block i (lh_block l !!! i) d) (hb_set_n (lh_n l) d) (seq 0 n).
Definition enc_head (l : log) (d : block) : block := enc_upto l d (Z.to_nat (lh_n l)).

Lemma enc_upto_S l d n : enc_upto l d (S n) = hb_set_block n (lh_block l !!! n) (enc_upto l d n).
Proof. unfold enc_upto. by rewrite seq_S, foldl_app. Qed.

Lemma L_write_head b l A d (Q : unit → lst → Prop) :
  R b A → ldev l = 1 → 0 ≤ lstart l < a_size A → a_use A !! lstart l = None → (size (a_use A) < NBUF)%nat →
  a_disk A !! lstart l = Some d → (Z.to_nat (lh_n l) ≤ length (lh_block l))%nat →
  (∀ b', R b' (ac_write (lstart l) (enc_head l d) A) → Q tt (mkLst b' l)) →
  wpg t write_head Q (mkLst b l).
Proof.
  intros HR Hdev Hst Hun Hsz Hd Hlen HQ. unfold write_head.
  apply wpg_bind, wpg_gets. cbn [lg]. rewrite Hdev. set (k := lstart l) in *. clearbody k.
  apply wpg_bind. eapply (L_bread_fresh b l A k d); [exact HR|exact Hst|exact Hun|exact Hsz|exact Hd|]. intros b1 u Hd1 Hc1 Hh1 HR1.
  apply wpg_bind. eapply (L_data _ _ _ HR1 k u); [by use_lookup|]. rewrite Hd1.
  apply wpg_bind. eapply (L_set_data _ _ _ HR1 k u); [by use_lookup|]. intros b2 HR2.
  apply wpg_bind. eapply (wpg_for_seq t _
    (λ i s, ∃ b', s = mkLst b' l ∧ R b' (ac_use k (with_data (enc_upto l d i) u) A))).
  - exists b2. split; [done|]. eapply R_same; [exact HR2|done|done| |done]. symmetry. use_ext k k.
  - intros i s' Hi (b' & -> & HR'). destruct (lookup_lt_is_Some_2 (lh_block l) i) as [v Hv]; [lia|].
    apply wpg_bind. eapply (L_data _ _ _ HR' k (with_data (enc_upto l d i) u)); [by use_lookup|].
    apply wpg_bind. eapply wpg_deref; [exact Hv|].
    eapply (L_set_data _ _ _ HR' k (with_data (enc_upto l d i) u)); [by use_lookup|]. intros b'' HR''.
    exists b''. split; [done|]. rewrite enc_upto_S, (list_lookup_total_correct _ _ _ Hv).
    eapply R_same; [exact HR''|done|done| |done]. symmetry. use_ext k k.
  - intros s' (b' & -> & HR'). rewrite Nat.add_0_l in HR'. fold (enc_head l d) in HR'.
    apply wpg_bind. eapply (L_bwrite _ _ _ HR' k (with_data (enc_head l d) u)); [by use_lookup|done|]. intros b3 HR3.
    eapply (L_brelse_clean _ _ _ HR3 k (dirty false (with_data (enc_head l d) u))); [by use_lookup|done|done|by use_lookup|].
    intros b4 HR4. apply HQ. eapply R_same; [exact HR4|done|done| |done]. symmetry. use_ext k k.
Qed.

(** The blocks of the in-memory header after [read_head]'s loop has run for
    [n] entries. *)
Definition dec_upto (d : block) (bs : list Z) (n : nat) : list Z :=
  foldl (λ bs i, <[i := hb_block d i]> bs) bs (seq 0 n).
Definition dec_log (d : block) (l : log) : log :=
  set_lh_block (dec_upto d (lh_block l) (Z.to_nat (hb_n d))) (set_lh_n (hb_n d) l).

Lemma dec_upto_S d bs n : dec_upto d bs (S n) = <[n := hb_block d n]> (dec_upto d bs n).
Proof. unfold dec_upto. by rewrite seq_S, foldl_app. Qed.

Lemma dec_upto_length d bs n : length (dec_upto d bs n) = length bs.
Proof. induction n as [|n IH]; [done|]. by rewrite dec_upto_S, length_insert. Qed.

Lemma dec_upto_lookup d bs n i : (i < n ≤ length bs)%nat → dec_upto d bs n !! i = Some (hb_block d i).
Proof.
  induction n as [|n IH]; intros Hi; [lia|]. rewrite dec_upto_S. destruct (decide (i = n)) as [->|].
  - apply list_lookup_insert_eq. rewrite dec_upto_length. lia.
  - rewrite list_lookup_insert_ne by done. apply IH. lia.
Qed.

Lemma L_read_head b l A d (Q : unit → lst → Prop) :
  R b A → ldev l = 1 → 0 ≤ lstart l < a_size A → a_use A !! lstart l = None → (size (a_use A) < NBUF)%nat →
  a_disk A !! lstart l = Some d → (Z.to_nat (hb_n d) ≤ length (lh_block l))%nat →
  (∀ b', R b' A → Q tt (mkLst b' (dec_log d l))) →
  wpg t read_head Q (mkLst b l).
Proof.
  intros HR Hdev Hst Hun Hsz Hd Hlen HQ. unfold read_head.
  apply wpg_bind, wpg_gets. cbn [lg]. rewrite Hdev. set (k := lstart l) in *.
  apply wpg_bind. eapply (L_bread_fresh b l A k d); [exact HR|exact Hst|exact Hun|exact Hsz|exact Hd|]. intros b1 u Hd1 Hc1 Hh1 HR1.
  apply wpg_bind. eapply (L_data _ _ _ HR1 k u); [by use_lookup|]. rewrite Hd1.
  apply wpg_bind, (wpg_modify t), wpg_bind.
  eapply (wpg_for_seq t _
    (λ i s, s = mkLst b1 (set_lh_block (dec_upto d (lh_block l) i) (set_lh_n (hb_n d) l)))).
  - by destruct l.
  - intros i s' Hi ->. apply wpg_bind. eapply (L_data _ _ _ HR1 k u); [by use_lookup|]. rewrite Hd1.
    apply wpg_bind, wpg_gets. cbn [lg lh_block set_lh_block]. rewrite bool_decide_true by (rewrite dec_upto_length; lia).
    apply (wpg_modify t). rewrite dec_upto_S. by destruct l.
  - intros s' ->. eapply (L_brelse_clean _ _ _ HR1 k u); [by use_lookup|done|done|use_lookup; congruence|].
    intros b2 HR2. apply HQ. eapply R_same; [exact HR2|done|done| |done]. symmetry. use_ext k k.
Qed.
End Rules.
