(* ===== verification/LogProps.v ===== *)
(** * The log: commit is atomic with respect to crashes

    [commit] writes the log blocks, the header, the home blocks and the empty
    header, in this order.  A crash keeps a prefix of these writes; recovery
    from any prefix restores either the state before the transaction or the
    state after it. *)

From S2P Require Export LogRep.
Local Open Scope Z_scope.

(** ** Sequences of block writes *)

Definition apply_writes (ws : list (Z * block)) (D : gmap Z block) : gmap Z block :=
  foldl (λ D w, <[w.1 := w.2]> D) D ws.

Lemma apply_writes_app ws1 ws2 D : apply_writes (ws1 ++ ws2) D = apply_writes ws2 (apply_writes ws1 D).
Proof. apply foldl_app. Qed.

Lemma apply_writes_notin ws D h : h ∉ ws.*1 → apply_writes ws D !! h = D !! h.
Proof.
  revert D. induction ws as [|[k v] ws IH]; intros D Hh; [done|]. cbn in *.
  apply not_elem_of_cons in Hh as [Hne Hh]. change (apply_writes ws (<[k := v]> D) !! h = D !! h).
  rewrite IH by done. by apply lookup_insert_ne.
Qed.

Lemma apply_writes_in ws D h v : NoDup ws.*1 → (h, v) ∈ ws → apply_writes ws D !! h = Some v.
Proof.
  revert D. induction ws as [|[k w] ws IH]; intros D Hd Hin; [by apply not_elem_of_nil in Hin|].
  cbn in Hd. apply NoDup_cons in Hd as [Hk Hd]. apply elem_of_cons in Hin as [[= -> ->]|Hin].
  - change (apply_writes ws (<[k := w]> D) !! k = Some w). rewrite apply_writes_notin by done. apply lookup_insert_eq.
  - by apply IH.
Qed.

Lemma apply_writes_some ws D h : is_Some (D !! h) → is_Some (apply_writes ws D !! h).
Proof.
  revert D. induction ws as [|[k w] ws IH]; intros D Hh; [done|]. apply IH. cbn.
  destruct (decide (h = k)) as [->|]; [rewrite lookup_insert_eq; eauto|by rewrite lookup_insert_ne].
Qed.

Lemma take_S_snoc {T} (l : list T) i x : l !! i = Some x → take (S i) l = take i l ++ [x].
Proof. apply take_S_r. Qed.

(** ** Transactions *)

(** The log occupies [lstart .. lstart + lsize - 1]. *)
Definition log_area (l : log) (h : Z) : Prop := lstart l ≤ h < lstart l + lsize l.

(** [log_ok l size]: the log lies on a disk of [size] blocks. *)
Record log_ok (l : log) (size : Z) : Prop := {
  lo_dev : ldev l = 1;
  lo_area : 0 ≤ lstart l ∧ 1 ≤ lsize l ∧ lstart l + lsize l ≤ size;
  lo_size : size < 2 ^ 31;
  lo_len : length (lh_block l) = 30%nat
}.

(** [home l size bs]: blocks that a log can hold, outside it. *)
Record home_ok (l : log) (size : Z) (bs : list Z) : Prop := {
  ho_room : Z.of_nat (length bs) ≤ lsize l - 1;
  ho_home : ∀ h, h ∈ bs → 0 ≤ h < size ∧ ¬ log_area l h;
  ho_nodup : NoDup bs
}.

(** The log [l] has recorded the blocks [bs], which are the blocks in use of
    the cache: modified and released. *)
Record txn (A : ac) (l : log) (bs : list Z) : Prop := {
  tx_log : log_ok l (a_size A);
  tx_home : home_ok l (a_size A) bs;
  tx_n : lh_n l = Z.of_nat (length bs);
  tx_blocks : ∀ i h, bs !! i = Some h → lh_block l !! i = Some h;
  tx_fits : (length bs < NBUF)%nat;
  tx_in : ∀ h, h ∈ bs → ∃ u, a_use A !! h = Some u ∧ u_held u = false ∧ u_dirty u = true;
  tx_out : ∀ h, h ∉ bs → a_use A !! h = None
}.

Definition val (A : ac) (h : Z) : block := from_option u_data [] (a_use A !! h).

Definition log_writes (st : Z) (f : Z → block) (bs : list Z) : list (Z * block) :=
  imap (λ i h, (st + Z.of_nat i + 1, f h)) bs.
Definition home_writes (f : Z → block) (bs : list Z) : list (Z * block) := (λ h, (h, f h)) <$> bs.

Lemma log_writes_fst st f bs k : k ∈ (log_writes st f bs).*1 → st < k ≤ st + Z.of_nat (length bs).
Proof.
  intros ([k' v] & -> & Hin)%list_elem_of_fmap. cbn. apply list_elem_of_lookup in Hin as [i Hi].
  unfold log_writes in Hi. rewrite list_lookup_imap in Hi. apply fmap_Some in Hi as (h & Hh & [= -> ->]).
  apply lookup_lt_Some in Hh. lia.
Qed.

Lemma log_writes_nodup st f bs : NoDup (log_writes st f bs).*1.
Proof.
  apply NoDup_alt. intros i j k Hi Hj. rewrite list_lookup_fmap in Hi, Hj. unfold log_writes in *.
  rewrite list_lookup_imap in Hi, Hj. apply fmap_Some in Hi as ([k1 v1] & Hi & ->).
  apply fmap_Some in Hj as ([k2 v2] & Hj & E). apply fmap_Some in Hi as (h1 & _ & [= -> ->]).
  apply fmap_Some in Hj as (h2 & _ & [= -> ->]). cbn in E. lia.
Qed.

Lemma log_writes_lookup st f bs i h :
  bs !! i = Some h → log_writes st f bs !! i = Some (st + Z.of_nat i + 1, f h).
Proof. intros Hi. unfold log_writes. by rewrite list_lookup_imap, Hi. Qed.

Lemma log_writes_get st f bs i h D :
  bs !! i = Some h → apply_writes (log_writes st f bs) D !! (st + Z.of_nat i + 1) = Some (f h).
Proof.
  intros Hi. apply apply_writes_in; [apply log_writes_nodup|].
  eapply list_elem_of_lookup_2, log_writes_lookup, Hi.
Qed.

Lemma home_writes_fst f bs : (home_writes f bs).*1 = bs.
Proof. unfold home_writes. rewrite <- list_fmap_compose. by apply list_fmap_id. Qed.

Lemma tx_use_size A l bs : txn A l bs → size (a_use A) = length bs.
Proof.
  intros Ht. rewrite <- size_dom. assert (dom (a_use A) = list_to_set bs) as ->.
  { apply set_eq. intros h. rewrite elem_of_dom, elem_of_list_to_set. split.
    - intros [u Hu]. destruct (decide (h ∈ bs)) as [|Hn]; [done|]. rewrite (tx_out _ _ _ Ht h Hn) in Hu. done.
    - intros Hh. destruct (tx_in _ _ _ Ht h Hh) as (u & -> & _). eauto. }
  apply size_list_to_set, Ht.
Qed.

(** ** The loops *)

Section Loops.
Context (t : bool).

Definition ac_writes (ws : list (Z * block)) (U : gmap Z ublk) (A : ac) : ac :=
  mkAc (apply_writes ws (a_disk A)) (a_size A) U (rev ws ++ a_log A).

Lemma ac_writes_snoc ws k v U A :
  ac_writes (ws ++ [(k, v)]) U A = ac_write k v (ac_writes ws U A).
Proof. unfold ac_writes, ac_write; cbn. by rewrite apply_writes_app, rev_app_distr. Qed.

Lemma L_write_log b l A bs (Q : unit → lst → Prop) :
  R b A → txn A l bs →
  (∀ b', R b' (ac_writes (log_writes (lstart l) (val A) bs) (a_use A) A) → Q tt (mkLst b' l)) →
  wpg t write_log Q (mkLst b l).
Proof.
  intros HR Ht HQ. pose proof Ht as [[Hdev Har _ _] [Hroom Hhome Hnd] Hn Hbs Hfit Hin Hout].
  unfold write_log. apply wpg_bind, wpg_gets. cbn [lg]. rewrite Hn, Nat2Z.id.
  set (lw := log_writes (lstart l) (val A) bs) in *.
  apply (wpg_for_seq t _ (λ i s, ∃ b', s = mkLst b' l ∧ R b' (ac_writes (take i lw) (a_use A) A))).
  - exists b. split; [done|]. eapply R_same; [exact HR|done..].
  - intros i s' Hi (b' & -> & HR'). destruct (lookup_lt_is_Some_2 bs i) as [h Hh]; [lia|].
    destruct (Hin h) as (u & Hu & Huh & Hud); [by eapply list_elem_of_lookup_2|].
    destruct (Hhome h) as [Hhr Hha]; [by eapply list_elem_of_lookup_2|]. unfold log_area in Hha.
    eapply (L_write_log_one t b' l _ i h u); [exact HR'|done|by apply Hbs|cbn; lia|cbn; lia|lia| | |exact Hu|done|done|].
    + cbn. apply Hout. intros (j & Hj)%list_elem_of_lookup. destruct (Hhome _ (list_elem_of_lookup_2 _ _ _ Hj)) as [_ Hno].
      apply Hno. unfold log_area. lia.
    + cbn. rewrite (tx_use_size _ _ _ Ht). lia.
    + intros b'' HR''. exists b''. split; [done|]. erewrite take_S_snoc by (by apply log_writes_lookup).
      rewrite ac_writes_snoc. unfold val at 1. by rewrite Hu.
  - intros s' (b' & -> & HR'). apply HQ. rewrite Nat.add_0_l in HR'.
    rewrite firstn_all2 in HR'; [exact HR'|]. unfold lw, log_writes. rewrite length_imap. lia.
Qed.

Definition deletes (bs : list Z) (U : gmap Z ublk) : gmap Z ublk := foldl (λ U h, delete h U) U bs.

Lemma deletes_snoc bs h U : deletes (bs ++ [h]) U = delete h (deletes bs U).
Proof. unfold deletes. by rewrite foldl_app. Qed.

Lemma deletes_lookup bs U h : deletes bs U !! h = if decide (h ∈ bs) then None else U !! h.
Proof.
  induction bs as [|x bs IH] using rev_ind; [by rewrite decide_False by apply not_elem_of_nil|].
  rewrite deletes_snoc. destruct (decide (h = x)) as [->|].
  - rewrite lookup_delete_eq, decide_True by set_solver. done.
  - rewrite lookup_delete_ne, IH by done. apply decide_ext. set_solver.
Qed.

Lemma deletes_size bs U : (size (deletes bs U) ≤ size U)%nat.
Proof.
  induction bs as [|x bs IH] using rev_ind; [done|]. rewrite deletes_snoc, map_size_delete.
  destruct (deletes bs U !! x); cbn; lia.
Qed.

Lemma L_install_trans b l A bs f (Q : unit → lst → Prop) :
  R b A → log_ok l (a_size A) → home_ok l (a_size A) bs → lh_n l = Z.of_nat (length bs) →
  (∀ i h, bs !! i = Some h → lh_block l !! i = Some h) →
  (∀ i h, bs !! i = Some h → a_disk A !! (lstart l + Z.of_nat i + 1) = Some (f h)) →
  (∀ h, log_area l h → a_use A !! h = None) → (∀ h u, a_use A !! h = Some u → u_held u = false) →
  (size (a_use A) < NBUF)%nat → (∀ h, h ∈ bs → a_use A !! h = None → (S (size (a_use A)) < NBUF)%nat) →
  (∀ b', R b' (ac_writes (home_writes f bs) (deletes bs (a_use A)) A) → Q tt (mkLst b' l)) →
  wpg t install_trans Q (mkLst b l).
Proof.
  intros HR [Hdev Har _ _] [Hroom Hhome Hnd] Hn Hbs Hd Hua Huh Hs1 Hs2 HQ.
  unfold install_trans. apply wpg_bind, wpg_gets. cbn [lg]. rewrite Hn, Nat2Z.id.
  set (hw := home_writes f bs) in *.
  apply (wpg_for_seq t _ (λ i s, ∃ b', s = mkLst b' l ∧ R b' (ac_writes (take i hw) (deletes (take i bs) (a_use A)) A))).
  - exists b. split; [done|]. eapply R_same; [exact HR|done..].
  - intros i s' Hi (b' & -> & HR'). destruct (lookup_lt_is_Some_2 bs i) as [h Hh]; [lia|].
    destruct (Hhome h) as [Hhr Hha]; [by eapply list_elem_of_lookup_2|]. unfold log_area in Hha.
    assert (log_area l (lstart l + Z.of_nat i + 1)) as Hka by (unfold log_area; lia).
    assert (hw !! i = Some (h, f h)) as Hw by (unfold hw, home_writes; by rewrite list_lookup_fmap, Hh).
    assert (h ∉ take i bs) as Hnt.
    { intros Ht. apply list_elem_of_lookup in Ht as [j Hj]. apply lookup_take_Some in Hj as [Hj Hlt].
      pose proof (NoDup_lookup _ _ _ _ Hnd Hh Hj). lia. }
    pose proof (deletes_size (take i bs) (a_use A)) as Hsz.
    eapply (L_install_one t b' l _ i h (f h)); [exact HR'|done|by apply Hbs|cbn; lia|cbn; lia|lia| | |cbn; lia| | |].
    + cbn. rewrite deletes_lookup. case_decide; [done|]. by apply Hua.
    + cbn. rewrite apply_writes_notin; [by apply Hd|]. rewrite fmap_take. unfold hw at 1. rewrite home_writes_fst.
      intros (j & Hj)%list_elem_of_lookup. apply lookup_take_Some in Hj as [Hj _].
      destruct (Hhome _ (list_elem_of_lookup_2 _ _ _ Hj)) as [_ Hno]. by apply Hno.
    + cbn. rewrite deletes_lookup, decide_False by done. intros H. apply Hs2 in H; [lia|]. by eapply list_elem_of_lookup_2.
    + cbn. intros u. rewrite deletes_lookup, decide_False by done. apply Huh.
    + intros b'' HR''. exists b''. split; [done|]. erewrite !take_S_snoc by done. rewrite ac_writes_snoc, deletes_snoc. exact HR''.
  - intros s' (b' & -> & HR'). apply HQ. rewrite Nat.add_0_l in HR'.
    rewrite !firstn_all2 in HR'; [exact HR'|lia|]. unfold hw, home_writes. rewrite length_fmap. lia.
Qed.
Lemma ac_writes_app ws1 ws2 U V A : ac_writes ws2 V (ac_writes ws1 U A) = ac_writes (ws1 ++ ws2) V A.
Proof. unfold ac_writes; cbn. by rewrite apply_writes_app, rev_app_distr, app_assoc. Qed.

Lemma ac_writes_one k v U A : ac_write k v (mkAc (a_disk A) (a_size A) U (a_log A)) = ac_writes [(k, v)] U A.
Proof. done. Qed.

Lemma deletes_all A l bs : txn A l bs → deletes bs (a_use A) = ∅.
Proof.
  intros Ht. apply map_eq. intros h. rewrite deletes_lookup, lookup_empty. case_decide; [done|]. by apply Ht.
Qed.

Lemma area_not_home l size bs h : home_ok l size bs → log_area l h → h ∉ bs.
Proof. intros Ho Ha Hh. by apply (ho_home _ _ _ Ho) in Hh as [_ ?]. Qed.

Lemma log_area_start l size : log_ok l size → log_area l (lstart l).
Proof. intros [_ ? _ _]. unfold log_area. lia. Qed.

(** The writes of [commit]. *)
Definition commit_writes (l : log) (A : ac) (bs : list Z) (d0 : block) : list (Z * block) :=
  let h1 := enc_head l d0 in
  log_writes (lstart l) (val A) bs ++ [(lstart l, h1)] ++ home_writes (val A) bs ++ [(lstart l, hb_set_n 0 h1)].

Lemma L_commit b l A bs d0 (Q : unit → lst → Prop) :
  R b A → txn A l bs → bs ≠ [] → a_disk A !! lstart l = Some d0 →
  (∀ b', R b' (ac_writes (commit_writes l A bs d0) ∅ A) → Q tt (mkLst b' (set_lh_n 0 l))) →
  wpg t commit Q (mkLst b l).
Proof.
  intros HR Ht Hne Hd0 HQ. pose proof Ht as [Hlo Hho Hn Hbs Hfit Hin Hout].
  pose proof (tx_use_size _ _ _ Ht) as Hsz. pose proof (log_area_start _ _ Hlo) as Hst.
  pose proof (area_not_home _ _ _ _ Hho Hst) as Hstb. pose proof Hlo as [Hdev Har _ Hlen].
  unfold commit. apply wpg_bind, wpg_gets. cbn [lg]. rewrite Hn. apply wpg_when_true.
  { destruct bs; [done|]. apply Z.gtb_lt. cbn [length]. lia. }
  apply wpg_bind. eapply L_write_log; [exact HR|exact Ht|]. intros b1 HR1.
  set (lw := log_writes (lstart l) (val A) bs) in *.
  assert (lstart l ∉ lw.*1) as Hstl by (intros Hk%log_writes_fst; lia).
  apply wpg_bind. eapply (L_write_head t b1 l _ d0); [exact HR1|done|cbn; lia|by apply Hout|cbn; lia| |rewrite Hn, Hlen; unfold NBUF in Hfit; lia|].
  { cbn. by rewrite apply_writes_notin. }
  intros b2 HR2. rewrite <- ac_writes_snoc in HR2.
  apply wpg_bind. eapply (L_install_trans b2 l _ bs (val A)); [exact HR2|exact Hlo|exact Hho|done|done| | | |cbn; lia| |].
  { intros i h Hi. cbn. rewrite apply_writes_app, apply_writes_notin.
    - by apply log_writes_get.
    - cbn. rewrite list_elem_of_singleton. lia. }
  { intros h Ha. apply Hout. by eapply area_not_home. }
  { intros h u. cbn. intros Hu. destruct (decide (h ∈ bs)) as [Hb|Hb]; [|by rewrite Hout in Hu].
    destruct (Hin h Hb) as (u' & Hu' & ? & _). congruence. }
  { intros h Hb. cbn. destruct (Hin h Hb) as (u' & -> & _). done. }
  intros b3 HR3. rewrite ac_writes_app in HR3. cbn [a_use ac_writes] in HR3. rewrite (deletes_all _ _ _ Ht) in HR3.
  apply wpg_bind, (wpg_modify t). change (set_lg _ _) with (mkLst b3 (set_lh_n 0 l)).
  eapply (L_write_head t b3 (set_lh_n 0 l) _ (enc_head l d0)); [exact HR3|done|cbn; lia|done|cbn; rewrite map_size_empty; unfold NBUF; lia| |cbn; lia|].
  { cbn. rewrite !apply_writes_app, apply_writes_notin by (by rewrite home_writes_fst). cbn. apply lookup_insert_eq. }
  intros b4 HR4. apply HQ. rewrite <- ac_writes_snoc in HR4. unfold commit_writes. fold lw.
  change (enc_head (set_lh_n 0 l) (enc_head l d0)) with (hb_set_n 0 (enc_head l d0)) in HR4.
  by rewrite <- !app_assoc in HR4.
Qed.

(** The blocks that a header names. *)
Definition hb_blocks (d : block) : list Z := hb_block d <$> seq 0 (Z.to_nat (hb_n d)).

Lemma L_recover b l A dc f (Q : unit → lst → Prop) :
  R b A → a_use A = ∅ → log_ok l (a_size A) → a_disk A !! lstart l = Some dc → 0 ≤ hb_n dc →
  home_ok l (a_size A) (hb_blocks dc) → (length (hb_blocks dc) ≤ 30)%nat →
  (∀ i h, hb_blocks dc !! i = Some h → a_disk A !! (lstart l + Z.of_nat i + 1) = Some (f h)) →
  (∀ b', R b' (ac_writes (home_writes f (hb_blocks dc) ++ [(lstart l, hb_set_n 0 dc)]) ∅ A) →
     Q tt (mkLst b' (set_lh_n 0 (dec_log dc l)))) →
  wpg t recover_from_log Q (mkLst b l).
Proof.
  intros HR Hu Hlo Hdc Hn Hho Hmax Hf HQ. pose proof (log_area_start _ _ Hlo) as Hst.
  pose proof (area_not_home _ _ _ _ Hho Hst) as Hstb. pose proof Hlo as [Hdev Har _ Hlen].
  assert (length (hb_blocks dc) = Z.to_nat (hb_n dc)) as Hlb by (unfold hb_blocks; by rewrite length_fmap, length_seq).
  assert (∀ U : gmap Z ublk, U = ∅ → (size U < 29)%nat) as Hse by (intros ? ->; rewrite map_size_empty; lia).
  unfold recover_from_log.
  apply wpg_bind. eapply (L_read_head t b l A dc); [done|done|lia|by rewrite Hu|apply Hse in Hu; unfold NBUF; lia|done|lia|].
  intros b1 HR1. set (l1 := dec_log dc l) in *.
  assert (log_ok l1 (a_size A)) as Hlo1.
  { destruct Hlo. split; try done. cbn. by rewrite dec_upto_length. }
  apply wpg_bind. eapply (L_install_trans b1 l1 A (hb_blocks dc) f); [exact HR1|exact Hlo1| | | |exact Hf| | | | |].
  { by destruct Hho. }
  { rewrite Hlb. cbn. lia. }
  { intros i h Hi. cbn. pose proof (lookup_lt_Some _ _ _ Hi). rewrite dec_upto_lookup by lia.
    unfold hb_blocks in Hi. rewrite list_lookup_fmap, lookup_seq_lt in Hi by lia. exact Hi. }
  { intros h _. by rewrite Hu. }
  { intros h u. by rewrite Hu. }
  { apply Hse in Hu. unfold NBUF. lia. }
  { intros h _ _. apply Hse in Hu. unfold NBUF. lia. }
  intros b2 HR2. assert (deletes (hb_blocks dc) (a_use A) = ∅) as Hde.
  { apply map_eq. intros h. rewrite deletes_lookup, Hu, lookup_empty. by case_decide. }
  rewrite Hde in HR2.
  apply wpg_bind, (wpg_modify t). change (set_lg _ _) with (mkLst b2 (set_lh_n 0 l1)).
  eapply (L_write_head t b2 (set_lh_n 0 l1) _ dc); [exact HR2|done|cbn; lia|done|cbn; rewrite map_size_empty; unfold NBUF; lia| |cbn; lia|].
  { cbn. by rewrite apply_writes_notin by (by rewrite home_writes_fst). }
  intros b3 HR3. apply HQ. rewrite <- ac_writes_snoc in HR3. exact HR3.
Qed.
End Loops.

(** ** The header on disk *)

Lemma hb_set_n_length v d : length (hb_set_n v d) = length d.
Proof. apply put_le_length. Qed.

Lemma hb_n_set v d : (4 ≤ length d)%nat → - 2 ^ 31 ≤ v < 2 ^ 31 → hb_n (hb_set_n v d) = v.
Proof.
  intros Hl Hv. unfold hb_n, hb_set_n. rewrite get_put_le by (try lia; apply u32_range).
  by rewrite i32_u32, i32_id by lia.
Qed.

Lemma hb_n_set_block i v d : hb_n (hb_set_block i v d) = hb_n d.
Proof. unfold hb_n, hb_set_block. by rewrite get_put_le_ne by lia. Qed.

Lemma hb_block_set_n v i d : hb_block (hb_set_n v d) i = hb_block d i.
Proof. unfold hb_block, hb_set_n. by rewrite get_put_le_ne by lia. Qed.

Lemma hb_block_set i j v d :
  (8 + 4 * i ≤ length d)%nat → - 2 ^ 31 ≤ v < 2 ^ 31 →
  hb_block (hb_set_block i v d) j = if decide (j = i) then v else hb_block d j.
Proof.
  intros Hl Hv. unfold hb_block, hb_set_block. destruct (decide (j = i)) as [->|].
  - rewrite get_put_le by (try lia; apply u32_range). by rewrite i32_u32, i32_id by lia.
  - by rewrite get_put_le_ne by lia.
Qed.

Lemma enc_upto_length l d n : length (enc_upto l d n) = length d.
Proof.
  induction n as [|n IH]; [apply hb_set_n_length|]. rewrite enc_upto_S. unfold hb_set_block. by rewrite put_le_length.
Qed.

Lemma enc_upto_n l d n : (4 ≤ length d)%nat → 0 ≤ lh_n l < 2 ^ 31 → hb_n (enc_upto l d n) = lh_n l.
Proof.
  intros Hl Hn. induction n as [|n IH]; [apply hb_n_set; lia|]. by rewrite enc_upto_S, hb_n_set_block.
Qed.

Lemma enc_upto_block l d n i v :
  (4 + 4 * n ≤ length d)%nat → (∀ v, v ∈ lh_block l → - 2 ^ 31 ≤ v < 2 ^ 31) → (i < n ≤ length (lh_block l))%nat →
  lh_block l !! i = Some v → hb_block (enc_upto l d n) i = v.
Proof.
  intros Hl Hr Hi Hv. induction n as [|n IH]; [lia|]. rewrite enc_upto_S.
  destruct (lookup_lt_is_Some_2 (lh_block l) n) as [w Hw]; [lia|].
  rewrite (list_lookup_total_correct _ _ _ Hw), hb_block_set.
  - destruct (decide (i = n)) as [->|]; [congruence|]. apply IH; lia.
  - rewrite enc_upto_length. lia.
  - apply Hr. by eapply list_elem_of_lookup_2.
Qed.

(** The header that [commit] writes names the transaction's blocks. *)
Lemma enc_head_blocks l d bs :
  length d = 512%nat → length (lh_block l) = 30%nat → lh_n l = Z.of_nat (length bs) → (length bs ≤ 30)%nat →
  (∀ i h, bs !! i = Some h → lh_block l !! i = Some h) → (∀ v, v ∈ lh_block l → - 2 ^ 31 ≤ v < 2 ^ 31) →
  hb_n (enc_head l d) = lh_n l ∧ hb_blocks (enc_head l d) = bs.
Proof.
  intros Hd Hl Hn Hmax Hbs Hr. assert (hb_n (enc_head l d) = lh_n l) as E by (apply enc_upto_n; lia).
  split; [done|]. unfold hb_blocks. rewrite E, Hn, Nat2Z.id. apply list_eq. intros i.
  rewrite list_lookup_fmap. destruct (decide (i < length bs)%nat) as [Hi|Hi].
  - rewrite lookup_seq_lt by done. destruct (lookup_lt_is_Some_2 bs i Hi) as [h Hh]. rewrite Hh. cbn. f_equal.
    unfold enc_head. rewrite Hn, Nat2Z.id. apply enc_upto_block; [lia|done|lia|by apply Hbs].
  - rewrite lookup_seq_ge by lia. symmetry. apply lookup_ge_None. lia.
Qed.

(** ** Crashes *)

(** The disk contents outside the log before ([false]) or after ([true]) the
    transaction [bs]. *)
Definition committed (A : ac) (bs : list Z) (after : bool) (h : Z) : option block :=
  if after && bool_decide (h ∈ bs) then Some (val A h) else a_disk A !! h.

Section Crash.
Context (l : log) (A : ac) (bs : list Z) (d0 : block).
Context (Ht : txn A l bs) (Hd0 : a_disk A !! lstart l = Some d0) (Hlen : length d0 = 512%nat) (Hempty : hb_n d0 = 0).
Context (Hr : ∀ v, v ∈ lh_block l → - 2 ^ 31 ≤ v < 2 ^ 31).
Let h1 := enc_head l d0.
Let lw := log_writes (lstart l) (val A) bs.

Lemma h1_ok : length h1 = 512%nat ∧ hb_n h1 = lh_n l ∧ hb_blocks h1 = bs.
Proof.
  destruct Ht as [[_ _ _ Hll] Hho Hn Hbs Hfit _ _]. split; [unfold h1, enc_head; by rewrite enc_upto_length|].
  apply enc_head_blocks; try done. unfold NBUF in Hfit. lia.
Qed.

Lemma start_notin : lstart l ∉ lw.*1 ∧ lstart l ∉ bs.
Proof.
  split; [intros Hk%log_writes_fst; lia|]. eapply area_not_home; [apply Ht|eapply log_area_start; apply Ht].
Qed.

Lemma lw_area h : h ∈ lw.*1 → log_area l h.
Proof.
  intros Hk%log_writes_fst. destruct Ht as [[_ ? _ _] [? _ _] _ _ _ _ _]. unfold log_area. lia.
Qed.

Lemma lw_length : length lw = length bs.
Proof. apply length_imap. Qed.

(** The disk after [k] writes: its header, and the blocks outside the log. *)
Lemma crash_disk k :
  let D := apply_writes (take k (commit_writes l A bs d0)) (a_disk A) in
  (D !! lstart l = Some d0 ∧ (k ≤ length bs)%nat ∧ ∀ h, ¬ log_area l h → D !! h = a_disk A !! h) ∨
  (D !! lstart l = Some h1 ∧ (length bs < k)%nat ∧
     (∀ i h, bs !! i = Some h → D !! (lstart l + Z.of_nat i + 1) = Some (val A h)) ∧
     (∀ h, ¬ log_area l h → h ∉ bs → D !! h = a_disk A !! h)) ∨
  (D !! lstart l = Some (hb_set_n 0 h1) ∧ (length bs < k)%nat ∧
     ∀ h, ¬ log_area l h → D !! h = committed A bs true h).
Proof.
  intros D. destruct start_notin as [Hs1 Hs2].
  assert (∀ j h, ¬ log_area l h → apply_writes (take j lw) (a_disk A) !! h = a_disk A !! h) as Hlw.
  { intros j h Hh. apply apply_writes_notin. rewrite fmap_take. intros Hin. apply Hh, lw_area.
    apply elem_of_take in Hin as (i & Hi & _). by eapply list_elem_of_lookup_2. }
  assert (D = apply_writes (take (k - length bs) ([(lstart l, h1)] ++ home_writes (val A) bs ++ [(lstart l, hb_set_n 0 h1)]))
            (apply_writes (take k lw) (a_disk A))) as HD.
  { unfold D, commit_writes. fold lw h1. by rewrite take_app, apply_writes_app, lw_length. }
  clearbody D. subst D. set (D1 := apply_writes (take k lw) (a_disk A)).
  destruct (decide (k ≤ length bs)%nat) as [Hk|Hk].
  { left. replace (k - length bs)%nat with 0%nat by lia. split_and!; [|done|exact (Hlw k)].
    change (D1 !! lstart l = Some d0). unfold D1. rewrite apply_writes_notin; [done|]. rewrite fmap_take. intros (i & Hi & _)%elem_of_take.
    by apply Hs1, list_elem_of_lookup_2 with i. }
  right. assert (D1 = apply_writes lw (a_disk A)) as -> by (unfold D1; rewrite firstn_all2; [done|rewrite lw_length; lia]).
  assert (∀ h, ¬ log_area l h → apply_writes lw (a_disk A) !! h = a_disk A !! h) as Hlw'.
  { intros h Hh. rewrite <- (Hlw (length lw) h Hh). by rewrite firstn_all. }
  destruct (k - length bs)%nat as [|j] eqn:Ej; [lia|]. cbn [take app].
  change (apply_writes ((lstart l, h1) :: ?ws) ?D) with (apply_writes ws (<[lstart l := h1]> D)).
  set (D2 := <[lstart l := h1]> (apply_writes lw (a_disk A))).
  assert (∀ h, ¬ log_area l h → D2 !! h = a_disk A !! h) as HD2.
  { intros h Hh. unfold D2. rewrite lookup_insert_ne; [by apply Hlw'|]. intros <-. apply Hh.
    eapply log_area_start, Ht. }
  rewrite take_app, apply_writes_app.
  assert (∀ j h, h ∉ bs → apply_writes (take j (home_writes (val A) bs)) D2 !! h = D2 !! h) as Hhw.
  { intros i h Hh. apply apply_writes_notin. rewrite fmap_take, home_writes_fst.
    intros (i' & Hi' & _)%elem_of_take. by apply Hh, list_elem_of_lookup_2 with i'. }
  assert (length (home_writes (val A) bs) = length bs) as Elen by apply length_fmap. rewrite Elen.
  destruct (decide (j ≤ length bs)%nat) as [Hj|Hj].
  - left. replace (j - length bs)%nat with 0%nat by lia. rewrite take_0. cbn [apply_writes foldl]. split_and!.
    + rewrite Hhw by done. apply lookup_insert_eq.
    + lia.
    + intros i h Hi. rewrite Hhw.
      * unfold D2. rewrite lookup_insert_ne by lia. by apply log_writes_get.
      * eapply area_not_home; [apply Ht|]. pose proof (lookup_lt_Some _ _ _ Hi).
        destruct Ht as [[_ ? _ _] [? _ _] _ _ _ _ _]. unfold log_area. lia.
    + intros h Ha Hh. rewrite Hhw by done. by apply HD2.
  - right. assert (take (j - length bs) [(lstart l, hb_set_n 0 h1)] = [(lstart l, hb_set_n 0 h1)]) as ->
      by (destruct (j - length bs)%nat eqn:E; [lia|cbn; by rewrite take_nil]).
    rewrite (firstn_all2 (home_writes (val A) bs)) by (rewrite Elen; lia).
    cbn [apply_writes foldl fst snd]. split_and!; [apply lookup_insert_eq|lia|].
    intros h Ha. rewrite lookup_insert_ne by (intros <-; apply Ha; eapply log_area_start, Ht).
    change (foldl _ D2 (home_writes (val A) bs)) with (apply_writes (home_writes (val A) bs) D2).
    unfold committed. cbn [andb]. case_bool_decide as Hb.
    + apply apply_writes_in; [rewrite home_writes_fst; apply Ht|]. unfold home_writes. apply list_elem_of_fmap. eauto.
    + rewrite apply_writes_notin by (by rewrite home_writes_fst). by apply HD2.
Qed.
End Crash.

(** ** Booting after a crash *)

(** [binit] of [main], then [initlog(ROOTDEV)] of [forkret]. *)
Definition boot_log : M lst unit := onb binit ;; initlog 1.

(** The log [l] on the disk: its superblock, and an empty header. *)
Record log_disk (l : log) (A : ac) (bs : list Z) (d0 : block) : Prop := {
  ld_sb : ∃ d, a_disk A !! 1 = Some d ∧ sb_logstart (decode_sb d) = lstart l ∧ sb_nlog (decode_sb d) = lsize l;
  ld_sb_out : 1 ∉ bs ∧ ¬ log_area l 1 ∧ 1 < a_size A;
  ld_head : a_disk A !! lstart l = Some d0;
  ld_len : length d0 = 512%nat;
  ld_empty : hb_n d0 = 0;
  ld_sized : ∀ h, 0 ≤ h < a_size A → is_Some (a_disk A !! h);
  ld_ints : ∀ v, v ∈ lh_block l → - 2 ^ 31 ≤ v < 2 ^ 31
}.

Lemma L_readsb t b l A d (Q : superblock → lst → Prop) :
  R b A → 1 < a_size A → a_use A = ∅ → a_disk A !! 1 = Some d →
  (∀ b', R b' A → Q (decode_sb d) (mkLst b' l)) → wpg t (readsb 1) Q (mkLst b l).
Proof.
  intros HR Hs Hu Hd HQ. unfold readsb.
  apply wpg_bind. eapply (L_bread_fresh t b l A 1 d); [done|lia|by rewrite Hu| |done|].
  { rewrite Hu, map_size_empty. unfold NBUF. lia. }
  intros b1 u Hd1 Hc1 Hh1 HR1.
  apply wpg_bind. eapply (L_data t _ _ _ HR1 1 u); [apply lookup_insert_eq|]. rewrite Hd1.
  apply wpg_bind. eapply (L_brelse_clean t _ _ _ HR1 1 u); [apply lookup_insert_eq|done|done|cbn; congruence|].
  intros b2 HR2. apply wpg_ret, HQ. eapply R_same; [exact HR2|done|done| |done].
  cbn. by rewrite Hu, insert_empty, delete_singleton_eq.
Qed.

Lemma L_boot D n x l dsb dc f (Q : unit → lst → Prop) :
  held x = [] → (∀ h, 0 ≤ h < n → is_Some (D !! h)) → 1 < n → D !! 1 = Some dsb →
  sb_logstart (decode_sb dsb) = lstart l → sb_nlog (decode_sb dsb) = lsize l → log_ok l n →
  D !! lstart l = Some dc → 0 ≤ hb_n dc → home_ok l n (hb_blocks dc) → (length (hb_blocks dc) ≤ 30)%nat →
  (∀ i h, hb_blocks dc !! i = Some h → D !! (lstart l + Z.of_nat i + 1) = Some (f h)) →
  (∀ b' l', lh_n l' = 0 →
     R b' (ac_writes (home_writes f (hb_blocks dc) ++ [(lstart l, hb_set_n 0 dc)]) ∅ (ac0 D n)) → Q tt (mkLst b' l')) →
  wp boot_log Q (mkLst (bboot D n x) log0).
Proof.
  intros Hx Hsz H1 Hsb Hst Hnl Hlo Hdc Hn Hho Hmax Hf HQ. unfold boot_log.
  apply wpg_bind, wpg_onb, wp_binit; [done|done|]. intros b1 HR1.
  unfold initlog. apply wpg_bind. eapply (L_readsb true b1 log0 (ac0 D n) dsb); [exact HR1|done|done|done|]. intros b2 HR2.
  do 3 apply wpg_bind, (wpg_modify true). rewrite Hst, Hnl.
  set (s := set_lg _ _). change s with (mkLst b2 (set_ldev 1 (set_lsize (lsize l) (set_lstart (lstart l) log0)))).
  eapply (L_recover true b2 _ (ac0 D n) dc f); [exact HR2|done| |done|done| |done|done|].
  - destruct Hlo. by split.
  - by destruct Hho.
  - intros b3 HR3. apply HQ; [done|exact HR3].
Qed.

Lemma committed_false A bs h : committed A bs false h = a_disk A !! h.
Proof. done. Qed.

(** The state that booting leaves: all blocks unused, the log empty. *)
Definition recovered (l : log) (D : gmap Z block) (n : Z) (x : ctx) (g : Z → option block) : Prop :=
  ∃ b' l' A', boot_log (mkLst (bboot D n x) log0) = Ok (tt, mkLst b' l') ∧ R b' A' ∧ a_use A' = ∅ ∧ lh_n l' = 0 ∧
    (∃ d, a_disk A' !! lstart l = Some d ∧ hb_n d = 0) ∧
    ∀ h, ¬ log_area l h → a_disk A' !! h = g h.

(** Booting restores what the header on the disk names. *)
Lemma boot_recovers D n x l dsb dc f g :
  held x = [] → (∀ h, 0 ≤ h < n → is_Some (D !! h)) → 1 < n → D !! 1 = Some dsb →
  sb_logstart (decode_sb dsb) = lstart l → sb_nlog (decode_sb dsb) = lsize l → log_ok l n →
  D !! lstart l = Some dc → length dc = 512%nat → 0 ≤ hb_n dc → home_ok l n (hb_blocks dc) →
  (length (hb_blocks dc) ≤ 30)%nat →
  (∀ i h, hb_blocks dc !! i = Some h → D !! (lstart l + Z.of_nat i + 1) = Some (f h)) →
  (∀ h, ¬ log_area l h → apply_writes (home_writes f (hb_blocks dc)) D !! h = g h) →
  recovered l D n x g.
Proof.
  intros Hx Hsz H1 Hsb Hst Hnl Hlo Hdc Hlen Hn Hho Hmax Hf Hg.
  set (A' := ac_writes (home_writes f (hb_blocks dc) ++ [(lstart l, hb_set_n 0 dc)]) ∅ (ac0 D n)).
  destruct (wp_ok boot_log (λ _ s, ∃ b' l', s = mkLst b' l' ∧ lh_n l' = 0 ∧ R b' A') (mkLst (bboot D n x) log0))
    as ([] & s & E & b' & l' & -> & H & HR).
  - eapply L_boot; try done. eauto.
  - exists b', l', A'. split_and!; [exact E|exact HR|done|exact H| |].
    + exists (hb_set_n 0 dc). split; [|apply hb_n_set; lia]. cbn. rewrite apply_writes_app. cbn. apply lookup_insert_eq.
    + intros h Hh. cbn. rewrite apply_writes_app. cbn. rewrite lookup_insert_ne; [by apply Hg|].
      intros <-. by eapply Hh, log_area_start.
Qed.

(** C20. Committing is atomic with respect to crashes.  [commit] returns and
    writes, in this order, the log blocks, the header, the home blocks and the
    empty header.  If the machine stops after any number [k] of these writes
    and boots again from the disk it left, [binit] and [initlog] return with
    an empty log, and every block outside the log area has the contents it had
    before the transaction, or every block has the contents after it: after,
    exactly when the write of the header had reached the disk. *)
Theorem commit_crash_atomic b l A bs d0 k x :
  R b A → txn A l bs → bs ≠ [] → log_disk l A bs d0 → held x = [] →
  (∃ b', commit (mkLst b l) = Ok (tt, mkLst b' (set_lh_n 0 l)) ∧ R b' (ac_writes (commit_writes l A bs d0) ∅ A)) ∧
  recovered l (apply_writes (take k (commit_writes l A bs d0)) (a_disk A)) (a_size A) x
    (committed A bs (bool_decide (length bs < k)%nat)).
Proof.
  intros HR Ht Hne [(dsb & Hsb & Hst & Hnl) (H1b & H1a & H1n) Hd0 Hlen Hemp Hsz Hints] Hx. split.
  { destruct (wp_ok commit (λ _ s, ∃ b', s = mkLst b' (set_lh_n 0 l) ∧ R b' (ac_writes (commit_writes l A bs d0) ∅ A)) (mkLst b l))
      as ([] & s & E & b' & -> & H); [eapply L_commit; eauto|eauto]. }
  pose proof (h1_ok l A bs d0 Ht Hlen Hints) as (Hl1 & Hn1 & Hb1).
  assert (∀ d, hb_n d = 0 → hb_blocks d = []) as Hnil by (intros d Hd; unfold hb_blocks; by rewrite Hd).
  assert (home_ok l (a_size A) []) as Hnilok.
  { destruct (tx_log _ _ _ Ht) as [_ ? _ _]. split; cbn; [lia|by intros h ?%not_elem_of_nil|apply NoDup_nil_2]. }
  set (D := apply_writes (take k (commit_writes l A bs d0)) (a_disk A)).
  assert (∀ h, 0 ≤ h < a_size A → is_Some (D !! h)) as HszD by (intros; by apply apply_writes_some, Hsz).
  pose proof (crash_disk l A bs d0 Ht Hd0 Hlen k) as Hcrash. cbv zeta in Hcrash. fold D in Hcrash. clearbody D.
  assert (tx_n' : 0 ≤ lh_n l) by (rewrite (tx_n _ _ _ Ht); lia).
  destruct Hcrash as [(Hdc & Hk & Hg)|[(Hdc & Hk & Hlw & Hg)|(Hdc & Hk & Hg)]].
  - rewrite bool_decide_false by lia.
    eapply (boot_recovers _ _ _ _ dsb d0 (val A)); try done; rewrite ?(Hnil d0 Hemp); try done; try (cbn; lia); [by rewrite Hg|apply Ht].
  - rewrite bool_decide_true by lia.
    eapply (boot_recovers _ _ _ _ dsb _ (val A)); try done; rewrite ?Hb1; try done; try lia.
    + by rewrite Hg.
    + apply Ht.
    + apply Ht.
    + pose proof (tx_fits _ _ _ Ht). unfold NBUF in *. lia.
    + intros h Hh. unfold committed. cbn [andb]. case_bool_decide as Hb.
      * apply apply_writes_in; [rewrite home_writes_fst; apply Ht|]. unfold home_writes. apply list_elem_of_fmap. eauto.
      * rewrite apply_writes_notin by (by rewrite home_writes_fst). by apply Hg.
  - rewrite bool_decide_true by lia.
    assert (hb_n (hb_set_n 0 (enc_head l d0)) = 0) as H0 by (apply hb_n_set; lia).
    eapply (boot_recovers _ _ _ _ dsb _ (val A)); try done; rewrite ?(Hnil _ H0); try done; try (cbn; lia).
    + rewrite Hg by done. unfold committed. by rewrite bool_decide_false.
    + apply Ht.
    + by rewrite hb_set_n_length.
    + by rewrite H0.
Qed.

(** ** A transaction of one block on a disk of five *)

Definition zero_block : block := replicate 512 0.
Definition demo_disk : gmap Z block :=
  list_to_map [(0, zero_block); (1, put32 (put32 zero_block 12 2) 16 2); (2, zero_block); (3, zero_block); (4, zero_block)].
Definition demo_log : log := mkLog 2 2 0 0 1 1 (4 :: replicate 29 0).
Definition demo_new : block := put32 zero_block 0 7.
Definition demo_txn (i : nat) : ac := mkAc demo_disk 5 {[4 := mkU demo_new true i false]} [].

Lemma demo_disk_sized h : 0 ≤ h < 5 → is_Some (demo_disk !! h).
Proof.
  intros Hh. assert (h = 0 ∨ h = 1 ∨ h = 2 ∨ h = 3 ∨ h = 4) as [->|[->|[->|[->| ->]]]] by lia; vm_compute; eauto.
Qed.

Lemma demo_txn_reached : ∃ b i, R b (demo_txn i).
Proof.
  assert (wp (binit ;; i ← bread 1 4; set_buf_data i demo_new ;;
     bput i (λ b, set_flags (Z.lor (flags b) B_DIRTY) b) ;; brelse i) (λ _ b, ∃ i, R b (demo_txn i))
     (bboot demo_disk 5 demo_ctx)) as H.
  { apply wpg_bind, wp_binit; [done|exact demo_disk_sized|]. intros s1 H1.
    apply wpg_bind, (R_bread _ _ _ _ _ H1); [cbn; lia|]. change (a_use _ !! 4) with (@None ublk). cbv iota.
    split; [cbn [a_use ac0]; rewrite map_size_empty; unfold NBUF; lia|]. intros s2 i d _ H2.
    apply wpg_bind, (R_set_buf_data _ _ _ H2 4 (mkU d false i true)); [apply lookup_insert_eq|]. intros s3 H3.
    apply wpg_bind, (R_set_dirty _ _ _ H3 4 (mkU demo_new false i true)); [apply lookup_insert_eq|done|]. intros s4 H4.
    apply (R_brelse _ _ _ 4 (mkU demo_new true i true) _ H4); [apply lookup_insert_eq|done|done|].
    cbv iota. intros s5 H5. exists i. eapply R_same; [exact H5|reflexivity..]. }
  apply wp_ok in H as (a & b & _ & i & H). eauto.
Qed.

Lemma demo_txn_ok i : txn (demo_txn i) demo_log [4].
Proof.
  split; try done.
  - split; cbn; [lia| |apply NoDup_singleton]. intros h ->%list_elem_of_singleton. split; [lia|]. unfold log_area; cbn. lia.
  - by intros [|j] h [= <-].
  - cbn. unfold NBUF. lia.
  - intros h ->%list_elem_of_singleton. cbn. rewrite lookup_singleton_eq. eauto.
  - intros h Hh. apply lookup_singleton_ne. intros <-. apply Hh. by apply list_elem_of_singleton.
Qed.

Lemma demo_log_disk i : log_disk demo_log (demo_txn i) [4] zero_block.
Proof.
  split.
  - exists (put32 (put32 zero_block 12 2) 16 2). split_and!; vm_compute; reflexivity.
  - split_and!; [rewrite list_elem_of_singleton; lia|unfold log_area; cbn; lia|cbn; lia].
  - vm_compute. reflexivity.
  - apply length_replicate.
  - vm_compute. reflexivity.
  - exact demo_disk_sized.
  - intros v Hv%elem_of_cons. destruct Hv as [->|Hv%elem_of_replicate]; [lia|]. destruct Hv as [-> _]. lia.
Qed.

(** The crash may come between any two of the four writes. *)
Lemma commit_crash_atomic_witness :
  ∃ b i, R b (demo_txn i) ∧ ∀ k,
  recovered demo_log (apply_writes (take k (commit_writes demo_log (demo_txn i) [4] zero_block)) demo_disk) 5 demo_ctx
    (committed (demo_txn i) [4] (bool_decide (1 < k)%nat)).
Proof.
  destruct demo_txn_reached as (b & i & HR). exists b, i. split; [exact HR|]. intros k.
  exact (proj2 (commit_crash_atomic b demo_log (demo_txn i) [4] zero_block k demo_ctx HR (demo_txn_ok i)
    ltac:(discriminate)
    (demo_log_disk i) eq_refl)).
Defined.
