(* ===== verification/LogOps.v ===== *)
(** * The log: the operations of a transaction

    [begin_op], [log_write] and [end_op] on a log that has recorded the blocks
    [bs] so far. *)

From S2P Require Export LogProps.
Local Open Scope Z_scope.

(** The log [l] has recorded the blocks [bs]: these are the dirty blocks in
    use. *)
Record logged (A : ac) (l : log) (bs : list Z) : Prop := {
  lg_ok : log_ok l (a_size A);
  lg_n : lh_n l = Z.of_nat (length bs);
  lg_blocks : ∀ i h, bs !! i = Some h → lh_block l !! i = Some h;
  lg_max : (length bs ≤ 30)%nat;
  lg_dirty : ∀ h, h ∈ bs ↔ ∃ u, a_use A !! h = Some u ∧ u_dirty u = true
}.

(** The log with [bno] recorded: a block is recorded once. *)
Definition log_add (bno : Z) (bs : list Z) : list Z :=
  if bool_decide (bno ∈ bs) then bs else bs ++ [bno].
Definition log_with (bno : Z) (bs : list Z) (l : log) : log :=
  if bool_decide (bno ∈ bs) then l
  else set_lh_n (lh_n l + 1) (set_lh_block (<[length bs := bno]> (lh_block l)) l).

Lemma log_index_spec bno bs : ∀ n i ws,
  n = length bs → (∀ j h, bs !! j = Some h → ws !! j = Some h) →
  (bno ∉ bs → log_index n i bno ws = (i + n)%nat) ∧
  (bno ∈ bs → ∃ j, log_index n i bno ws = (i + j)%nat ∧ (j < n)%nat ∧ bs !! j = Some bno).
Proof.
  induction bs as [|h bs IH]; intros n i ws -> Hws; cbn [length log_index].
  - split; [intros _; by rewrite Nat.add_0_r|by intros ?%not_elem_of_nil].
  - destruct ws as [|w ws]; [by specialize (Hws 0%nat h eq_refl)|].
    pose proof (Hws 0%nat h eq_refl) as [= ->].
    destruct (IH (length bs) (S i) ws eq_refl) as [IH1 IH2]; [intros j; apply (Hws (S j))|].
    destruct (h =? bno) eqn:E.
    + apply Z.eqb_eq in E as ->. split; [intros Hn; exfalso; apply Hn; by left|].
      intros _. exists 0%nat. split_and!; [by rewrite Nat.add_0_r|lia|done].
    + apply Z.eqb_neq in E. split.
      * intros [_ Hn]%not_elem_of_cons. rewrite IH1 by done. lia.
      * intros [->|Hin]%elem_of_cons; [done|]. destruct (IH2 Hin) as (j & -> & Hj & Hb).
        exists (S j). split_and!; [lia|lia|done].
Qed.

Lemma R_ctx s A x :
  R s A → held x = [] → sleeps x = sleeps (bctx s) → cur_pid x = cur_pid (bctx s) → R (set_bctx x s) A.
Proof.
  intros [Hl Hd Hh HD Hs Hbuf Huse Hinj] Hx Hsl Hp.
  assert (∀ i b u, buf_use (bctx s) i b u → buf_use x i b u) as Hu.
  { intros i b u []. split; unfold owned in *; by rewrite ?Hsl, ?Hp. }
  split; cbn; try done.
  - intros i b Hb. destruct (Hbuf i b Hb) as [(u & ? & ?)|[]]; [left; eauto|right]. split; by rewrite ?Hsl.
  - intros bno u Hb. destruct (Huse bno u Hb) as (? & b & ? & ? & ?). eauto 10.
Qed.

(** [outstanding] and [committing] are no part of a transaction's contents. *)
Lemma txn_set_outstanding A l bs n c : txn A l bs → txn A (set_committing c (set_outstanding n l)) bs.
Proof. intros [[] [] ? ? ? ? ?]. split; [by split|by split|done..]. Qed.

Section Rules.
Context (t : bool).

Lemma wpg_onx {T} (m : M ctx T) a x' b l (Q : T → lst → Prop) :
  m (bctx b) = Ok (a, x') → Q a (mkLst (set_bctx x' b) l) → wpg t (onx m) Q (mkLst b l).
Proof. intros Hm HQ. apply wpg_onb. unfold wpg, onc, zoom. by rewrite Hm. Qed.

(** A critical section of the log's lock. *)
Lemma wpg_lock_log b l (Q : unit → lst → Prop) :
  held (bctx b) = [] → Q tt (mkLst (set_bctx (set_held [L_log] (bctx b)) b) l) → wpg t (onx (acquire_lk L_log)) Q (mkLst b l).
Proof. intros Hh. eapply wpg_onx. by apply acquire_lk_ok. Qed.

Lemma wpg_unlock_log b l x (Q : unit → lst → Prop) :
  held x = [] → bctx b = set_held [L_log] x → Q tt (mkLst (set_bctx x b) l) → wpg t (onx (release_lk L_log)) Q (mkLst b l).
Proof. intros Hh Hb. eapply wpg_onx. rewrite Hb. by apply release_lk_ok. Qed.

Lemma set_bctx_twice x y b : set_bctx y (set_bctx x b) = set_bctx y b.
Proof. done. Qed.
Lemma set_bctx_same b : set_bctx (bctx b) b = b.
Proof. by destruct b. Qed.

Lemma L_log_write b l A bs bno u (Q : unit → lst → Prop) :
  R b A → logged A l bs → a_use A !! bno = Some u → u_held u = true →
  lh_n l < LOGSIZE → lh_n l < lsize l - 1 → 1 ≤ outstanding l →
  (∀ b', R b' (ac_use bno (dirty true u) A) → Q tt (mkLst b' (log_with bno bs l))) →
  wpg t (log_write (u_idx u)) Q (mkLst b l).
Proof.
  intros HR [Hlo Hn Hbs Hmax Hdirty] Hu Hh H1 H2 H3 HQ.
  destruct (R_held_buf b A HR bno u Hu) as (x & Hx & Hbn & _ & _). pose proof (R_held _ _ HR) as Hheld.
  assert (R (set_bufs (<[u_idx u := set_flags (Z.lor (flags x) B_DIRTY) x]> (bufs b)) b) (ac_use bno (dirty true u) A)) as HR'.
  { refine (wpg_ok_inv t _ (λ _ s, R s _) b tt _ (R_set_dirty t b A HR bno u Hu Hh _ _) _); [done|].
    unfold bput, bget_, mbind, M_bind, deref. by rewrite Hx. }
  unfold log_write. apply wpg_bind, wpg_gets. cbn [lg].
  replace ((lh_n l >=? LOGSIZE) || (lh_n l >=? lsize l - 1)) with false by lia.
  replace (outstanding l <? 1) with false by lia.
  apply wpg_bind, wpg_lock_log; [done|]. apply wpg_bind, wpg_gets. cbn [lg].
  apply wpg_bind, wpg_onb. eapply wpg_deref; [exact Hx|]. rewrite Hbn.
  destruct (log_index_spec bno bs (Z.to_nat (lh_n l)) 0 (lh_block l)) as [Hout Hin]; [lia|done|].
  apply wpg_bind, (wpg_modify t). unfold log_with in HQ. case_bool_decide as Hb.
  - destruct (Hin Hb) as (j & -> & Hj & Hjb). apply Hbs in Hjb. rewrite Nat.add_0_l, list_insert_id by done.
    apply wpg_bind, wpg_when_false; [lia|].
    apply wpg_bind, wpg_onb. apply wpg_bind. eapply wpg_deref; [exact Hx|]. apply (wpg_modify t).
    eapply wpg_unlock_log; [exact Hheld|done|]. destruct l. apply (HQ _ HR').
  - rewrite (Hout Hb), Nat.add_0_l. apply wpg_bind, wpg_when_true; [rewrite Z2Nat.id by lia; apply Z.eqb_refl|]. apply (wpg_modify t).
    apply wpg_bind, wpg_onb. apply wpg_bind. eapply wpg_deref; [exact Hx|]. apply (wpg_modify t).
    eapply wpg_unlock_log; [exact Hheld|done|]. rewrite Hn, Nat2Z.id in *. destruct l. apply (HQ _ HR').
Qed.

Lemma logged_add A l bs bno u :
  logged A l bs → a_use A !! bno = Some u → lh_n l < LOGSIZE → logged (ac_use bno (dirty true u) A) (log_with bno bs l) (log_add bno bs).
Proof.
  intros [Hlo Hn Hbs Hmax Hdirty] Hu H1. unfold log_with, log_add, LOGSIZE in *. pose proof (lo_len _ _ Hlo) as Hlen.
  assert (∀ h, h ≠ bno → (h ∈ bs ↔ ∃ u', a_use (ac_use bno (dirty true u) A) !! h = Some u' ∧ u_dirty u' = true)) as Hd.
  { intros h Hh. rewrite Hdirty. cbn. by rewrite lookup_insert_ne. }
  assert (∃ u', a_use (ac_use bno (dirty true u) A) !! bno = Some u' ∧ u_dirty u' = true) as Hd'.
  { cbn. rewrite lookup_insert_eq. eauto. }
  case_bool_decide as Hb.
  - split; try done. intros h. destruct (decide (h = bno)) as [->|]; [tauto|by apply Hd].
  - split.
    + destruct Hlo. split; try done. cbn. by rewrite length_insert.
    + cbn. rewrite length_app, Hn. cbn. lia.
    + intros i h Hi. cbn. apply lookup_app_Some in Hi as [Hi|[Hi Hi']].
      * rewrite list_lookup_insert_ne by (apply lookup_lt_Some in Hi; lia). by apply Hbs.
      * apply list_lookup_singleton_Some in Hi' as [Hi' <-].
        replace i with (length bs) by lia. apply list_lookup_insert_eq. lia.
    + rewrite length_app. cbn. lia.
    + intros h. rewrite elem_of_app, list_elem_of_singleton. destruct (decide (h = bno)) as [->|]; [tauto|].
      rewrite <- Hd by done. tauto.
Qed.

Lemma L_end_op_last b l A bs d0 (Q : unit → lst → Prop) :
  R b A → txn A l bs → bs ≠ [] → a_disk A !! lstart l = Some d0 → committing l = 0 → outstanding l = 1 →
  (∀ b', R b' (ac_writes (commit_writes l A bs d0) ∅ A) → Q tt (mkLst b' (set_lh_n 0 (set_outstanding 0 l)))) →
  wpg t end_op Q (mkLst b l).
Proof.
  intros HR Ht Hne Hd0 Hc Ho HQ. pose proof (R_held _ _ HR) as Hh. unfold end_op.
  apply wpg_bind, wpg_lock_log; [done|]. apply wpg_bind, wpg_gets. cbn [lg]. rewrite Hc, Ho. cbn [Z.eqb negb Z.sub Z.pos_sub Z.add Z.opp].
  apply wpg_bind, (wpg_modify t), wpg_bind, (wpg_modify t).
  apply wpg_bind. eapply wpg_unlock_log; [exact Hh|done|]. apply wpg_when_true; [done|].
  cbn [set_lg lbio lg]. rewrite set_bctx_twice, set_bctx_same.
  apply wpg_bind. eapply (L_commit t b (set_committing 1 (set_outstanding 0 l)) A bs d0); [done| |done|done|].
  { by apply txn_set_outstanding. }
  intros b' HR'. pose proof (R_held _ _ HR') as Hh'.
  apply wpg_bind, wpg_lock_log; [done|]. apply wpg_bind, (wpg_modify t).
  apply wpg_bind. eapply wpg_onx; [done|].
  eapply (wpg_unlock_log _ _ (add_woken W_log (bctx b'))); [done| |].
  - cbn. by destruct (bctx b').
  - cbn [set_lg lbio lg]. rewrite !set_bctx_twice. replace (set_committing 0 _) with (set_lh_n 0 (set_outstanding 0 l)).
    + apply HQ. by apply R_ctx.
    + destruct l; cbn in Hc; by subst.
Qed.

Lemma L_end_op_more b l A (Q : unit → lst → Prop) :
  R b A → committing l = 0 → 1 < outstanding l →
  (∀ b', R b' A → Q tt (mkLst b' (set_outstanding (outstanding l - 1) l))) →
  wpg t end_op Q (mkLst b l).
Proof.
  intros HR Hc Ho HQ. pose proof (R_held _ _ HR) as Hh. unfold end_op.
  apply wpg_bind, wpg_lock_log; [done|]. apply wpg_bind, wpg_gets. cbn [lg]. rewrite Hc. cbn [Z.eqb negb].
  replace (outstanding l - 1 =? 0) with false by lia.
  apply wpg_bind, (wpg_modify t), wpg_bind. eapply wpg_onx; [done|].
  apply wpg_bind. eapply (wpg_unlock_log _ _ (add_woken W_log (bctx b))); [done| |].
  - cbn. by destruct (bctx b).
  - apply wpg_when_false; [done|]. apply HQ. cbn [lbio set_lg]. rewrite !set_bctx_twice. by apply R_ctx.
Qed.

Lemma L_begin_op b l A (Q : unit → lst → Prop) :
  R b A → committing l = 0 → lh_n l + (outstanding l + 1) * MAXOPBLOCKS ≤ LOGSIZE →
  Q tt (mkLst b (set_outstanding (outstanding l + 1) l)) → wpg t begin_op Q (mkLst b l).
Proof.
  intros HR Hc Hr HQ. pose proof (R_held _ _ HR) as Hh. unfold begin_op.
  apply wpg_bind, wpg_lock_log; [done|]. apply wpg_bind, wpg_gets. cbn [lg]. rewrite Hc. cbn [Z.eqb negb].
  rewrite Z.gtb_ltb. replace (LOGSIZE <? _) with false by lia.
  apply wpg_bind, (wpg_modify t). eapply wpg_unlock_log; [exact Hh|done|].
  cbn [lbio set_lg lg]. by rewrite set_bctx_twice, set_bctx_same.
Qed.
End Rules.

(** C22. The operations of a transaction.  [begin_op] admits an operation
    exactly when no commit is under way and ten blocks are left for it beyond
    those logged and reserved, and waits otherwise.  [log_write] of a held
    block within the bounds records its number, once, and marks the block
    dirty.  [end_op] of an operation that is not the last one writes nothing;
    that of the last one commits, and leaves the log empty. *)
Theorem log_ops_refine b l A bs :
  R b A → logged A l bs →
  (committing l = 0 ∧ lh_n l + (outstanding l + 1) * 10 ≤ 30 →
   begin_op (mkLst b l) = Ok (tt, mkLst b (set_outstanding (outstanding l + 1) l))) ∧
  (¬ (committing l = 0 ∧ lh_n l + (outstanding l + 1) * 10 ≤ 30) → begin_op (mkLst b l) = Diverge) ∧
  (∀ bno u, a_use A !! bno = Some u → u_held u = true → 1 ≤ outstanding l → lh_n l < 30 → lh_n l < lsize l - 1 →
   ∃ b', log_write (u_idx u) (mkLst b l) = Ok (tt, mkLst b' (log_with bno bs l)) ∧
     R b' (ac_use bno (dirty true u) A) ∧ logged (ac_use bno (dirty true u) A) (log_with bno bs l) (log_add bno bs)) ∧
  (committing l = 0 → 1 < outstanding l →
   ∃ b', end_op (mkLst b l) = Ok (tt, mkLst b' (set_outstanding (outstanding l - 1) l)) ∧ R b' A) ∧
  (∀ d0, committing l = 0 → outstanding l = 1 → txn A l bs → bs ≠ [] → a_disk A !! lstart l = Some d0 →
   ∃ b', end_op (mkLst b l) = Ok (tt, mkLst b' (set_lh_n 0 (set_outstanding 0 l))) ∧
     R b' (ac_writes (commit_writes l A bs d0) ∅ A)).
Proof.
  intros HR Hl. split_and!.
  - intros [Hc Hr]. destruct (wp_ok begin_op (λ _ s, s = mkLst b (set_outstanding (outstanding l + 1) l)) (mkLst b l))
      as ([] & s & E & ->); [by eapply L_begin_op|done].
  - intros Hno. unfold begin_op. erewrite bind_ok; [|unfold onx, onb, onc, zoom; cbn [lbio]; by rewrite (acquire_lk_ok _ _ (R_held _ _ HR))].
    unfold mbind at 1, M_bind at 1, gets. cbn [set_lbio lg].
    destruct (committing l =? 0) eqn:E; [|done]. cbn [negb]. rewrite Z.gtb_ltb. unfold MAXOPBLOCKS, LOGSIZE.
    by replace (30 <? _) with true by lia.
  - intros bno u Hu Hh Ho H1 H2.
    destruct (wp_ok (log_write (u_idx u)) (λ _ s, ∃ b', s = mkLst b' (log_with bno bs l) ∧ R b' (ac_use bno (dirty true u) A)) (mkLst b l))
      as ([] & s & E & b' & -> & H); [eapply L_log_write; eauto|]. exists b'. split_and!; [done|done|by apply logged_add].
  - intros Hc Ho. destruct (wp_ok end_op (λ _ s, ∃ b', s = mkLst b' (set_outstanding (outstanding l - 1) l) ∧ R b' A) (mkLst b l))
      as ([] & s & E & b' & -> & H); [eapply L_end_op_more; eauto|eauto].
  - intros d0 Hc Ho Ht Hne Hd. destruct (wp_ok end_op (λ _ s, ∃ b', s = mkLst b' (set_lh_n 0 (set_outstanding 0 l)) ∧
        R b' (ac_writes (commit_writes l A bs d0) ∅ A)) (mkLst b l))
      as ([] & s & E & b' & -> & H); [eapply L_end_op_last; eauto|eauto].
Qed.

Lemma log_ops_refine_witness :
  ∃ b i, R b (demo_txn i) ∧ begin_op (mkLst b demo_log) = Ok (tt, mkLst b (set_outstanding 1 demo_log)) ∧
    ∃ b', end_op (mkLst b (set_outstanding 1 demo_log)) = Ok (tt, mkLst b' (set_lh_n 0 (set_outstanding 0 demo_log))).
Proof.
  destruct demo_txn_reached as (b & i & HR). exists b, i.
  assert (∀ n, logged (demo_txn i) (set_outstanding n demo_log) [4]) as Hl.
  { intros n. split; [exact (tx_log _ _ _ (txn_set_outstanding _ _ _ n 0 (demo_txn_ok i)))|done|by intros [|j] h [= <-]|cbn; lia|].
    intros h. rewrite list_elem_of_singleton. split; [intros ->; cbn; rewrite lookup_singleton_eq; eauto|].
    cbn. intros (u & [<- _]%lookup_singleton_Some & _). done. }
  split_and!; [exact HR| |].
  - apply (log_ops_refine b demo_log (demo_txn i) [4] HR (Hl 0)). split; [reflexivity|]. apply Z.leb_le. reflexivity.
  - edestruct (log_ops_refine b (set_outstanding 1 demo_log) (demo_txn i) [4] HR (Hl 1)) as (_ & _ & _ & _ & H).
    destruct (H zero_block) as (b' & H' & _); [reflexivity..| |discriminate|vm_compute; reflexivity|by exists b'].
    exact (txn_set_outstanding _ _ _ 1 0 (demo_txn_ok i)).
Defined.
