(* ===== verification/Store.v ===== *)
(** * The interface between the file system and the block layer

    fs.c uses [bread], [b->data], [log_write] and [brelse] inside a
    transaction.  [BlockStore] is what it calls, and [StoreLaws] what these
    promise, in terms of the logical contents of the blocks: those the
    transaction has logged, over the disk's.  The buffer cache and the log
    implement it ([lst_laws]); the theorems on the file system are proved
    against the interface. *)

From S2P Require Export LogOps.
Local Open Scope Z_scope.

Class BlockStore (S : Type) := {
  st_bread : Z → Z → M S nat;
  st_data : nat → M S block;
  st_set : nat → block → M S unit;
  st_logw : nat → M S unit;
  st_brelse : nat → M S unit;
  st_begin_op : M S unit;
  st_end_op : M S unit
}.

(** Logical contents of the blocks that may be used; the buffers the caller
    holds, each with its block and data; the blocks logged; and how many
    blocks the transaction may log. *)
Record bview := mkView {
  v_blocks : gmap Z block;
  v_held : gmap nat (Z * block);
  v_logged : gset Z;
  v_cap : nat
}.

Definition v_hold (i : nat) (x : Z * block) (v : bview) : bview :=
  mkView (v_blocks v) (<[i := x]> (v_held v)) (v_logged v) (v_cap v).
Definition v_drop (i : nat) (v : bview) : bview :=
  mkView (v_blocks v) (delete i (v_held v)) (v_logged v) (v_cap v).
Definition v_write (b : Z) (d : block) (v : bview) : bview :=
  mkView (<[b := d]> (v_blocks v)) (v_held v) ({[b]} ∪ v_logged v) (v_cap v).

(** Nobody holds [b]. *)
Definition v_free (b : Z) (v : bview) : Prop := ∀ i x, v_held v !! i = Some x → x.1 ≠ b.
(** There is a buffer left. *)
Definition v_room (v : bview) : Prop := (size (v_held v) + size (v_logged v) < NBUF)%nat.

Class StoreLaws (S : Type) `{BlockStore S} := {
  st_rel : S → bview → Prop;
  law_bread t s v b d (Q : nat → S → Prop) :
    st_rel s v → v_blocks v !! b = Some d → v_free b v → v_room v →
    (∀ i s', v_held v !! i = None → st_rel s' (v_hold i (b, d) v) → Q i s') → wpg t (st_bread 1 b) Q s;
  law_data t s v i x (Q : block → S → Prop) :
    st_rel s v → v_held v !! i = Some x → Q x.2 s → wpg t (st_data i) Q s;
  law_set t s v i x d (Q : unit → S → Prop) :
    st_rel s v → v_held v !! i = Some x →
    (∀ s', st_rel s' (v_hold i (x.1, d) v) → Q tt s') → wpg t (st_set i d) Q s;
  law_logw t s v i x (Q : unit → S → Prop) :
    st_rel s v → v_held v !! i = Some x → is_Some (v_blocks v !! x.1) → (size (v_logged v) < v_cap v)%nat →
    (∀ s', st_rel s' (v_write x.1 x.2 v) → Q tt s') → wpg t (st_logw i) Q s;
  law_brelse t s v i x (Q : unit → S → Prop) :
    st_rel s v → v_held v !! i = Some x → v_blocks v !! x.1 = Some x.2 →
    (∀ s', st_rel s' (v_drop i v) → Q tt s') → wpg t (st_brelse i) Q s
}.

(** ** The log implements it *)

#[export] Instance lst_store : BlockStore lst := {
  st_bread d b := onb (bread d b);
  st_data i := onb (buf_data i);
  st_set i d := onb (set_buf_data i d);
  st_logw i := log_write i;
  st_brelse i := onb (brelse i);
  st_begin_op := begin_op;
  st_end_op := end_op
}.

(** A block in use or not, its contents on the disk and its logical ones. *)
Definition blk_ok (o : option ublk) (disk logical : option block) : Prop :=
  match o with
  | None => ∀ d, logical = Some d → disk = Some d
  | Some u =>
      (u_held u = false → u_dirty u = true ∧ ∀ d, logical = Some d → u_data u = d) ∧
      (u_dirty u = false → ∀ d, logical = Some d → disk = Some d)
  end.

Record lst_view (s : lst) (A : ac) (bs : list Z) (v : bview) : Prop := {
  lv_R : R (lbio s) A;
  lv_log : logged A (lg s) bs;
  lv_out : 1 ≤ outstanding (lg s);
  lv_cap : Z.of_nat (v_cap v) ≤ lsize (lg s) - 1 ∧ (v_cap v ≤ 30)%nat;
  lv_logged : v_logged v = list_to_set bs ∧ NoDup bs;
  lv_dom : ∀ b, is_Some (v_blocks v !! b) → 0 ≤ b < a_size A ∧ ¬ log_area (lg s) b;
  lv_held : ∀ i b d, v_held v !! i = Some (b, d) ↔ ∃ u, a_use A !! b = Some u ∧ u_idx u = i ∧ u_data u = d ∧ u_held u = true;
  lv_blk : ∀ b, blk_ok (a_use A !! b) (a_disk A !! b) (v_blocks v !! b)
}.

Lemma lv_not_held s A bs v b u : lst_view s A bs v → v_free b v → a_use A !! b = Some u → u_held u = false.
Proof.
  intros Hv Hf Hu. destruct (u_held u) eqn:E; [|done]. exfalso.
  apply (Hf (u_idx u) (b, u_data u)); [|done]. apply (lv_held _ _ _ _ Hv). eauto.
Qed.

Lemma lv_idx s A bs v b1 b2 u1 u2 :
  lst_view s A bs v → a_use A !! b1 = Some u1 → a_use A !! b2 = Some u2 → u_idx u1 = u_idx u2 → b1 = b2.
Proof.
  intros Hv H1 H2 E. destruct (R_use _ _ (lv_R _ _ _ _ Hv) b1 u1 H1) as (_ & x1 & Hx1 & <- & _).
  destruct (R_use _ _ (lv_R _ _ _ _ Hv) b2 u2 H2) as (_ & x2 & Hx2 & <- & _). congruence.
Qed.

Lemma size_list_to_set_le (l : list Z) : (size (list_to_set l : gset Z) ≤ length l)%nat.
Proof.
  induction l as [|x l IH]; [done|]. cbn. pose proof (size_union_alt ({[x]} : gset Z) (list_to_set l)) as ->.
  rewrite size_singleton. assert (size (list_to_set l ∖ {[x]} : gset Z) ≤ size (list_to_set l : gset Z))%nat; [|lia].
  apply subseteq_size. apply subseteq_difference_l. done.
Qed.

Lemma lv_size s A bs v b :
  lst_view s A bs v → a_use A !! b = None → v_room v → (size (a_use A) < NBUF)%nat.
Proof.
  intros Hv Hb Hr. set (hs := (λ p : nat * (Z * block), p.2.1) <$> map_to_list (v_held v)).
  assert (dom (a_use A) ⊆ list_to_set hs ∪ v_logged v) as Hsub.
  { intros z [u Hu]%elem_of_dom. apply elem_of_union. destruct (u_held u) eqn:E.
    - left. apply elem_of_list_to_set, list_elem_of_fmap. exists (u_idx u, (z, u_data u)). split; [done|].
      apply elem_of_map_to_list, (lv_held _ _ _ _ Hv). eauto.
    - right. rewrite (proj1 (lv_logged _ _ _ _ Hv)). apply elem_of_list_to_set, (lg_dirty _ _ _ (lv_log _ _ _ _ Hv)).
      exists u. split; [done|]. pose proof (lv_blk _ _ _ _ Hv z) as Hz. rewrite Hu in Hz. by apply Hz. }
  apply subseteq_size in Hsub. rewrite size_dom in Hsub. unfold v_room in Hr.
  assert (size (list_to_set hs : gset Z) ≤ size (v_held v))%nat as Hh.
  { etransitivity; [apply size_list_to_set_le|]. unfold hs. rewrite length_fmap. by rewrite length_map_to_list. }
  pose proof (size_union_alt (list_to_set hs) (v_logged v)) as Hun.
  assert (size (v_logged v ∖ list_to_set hs) ≤ size (v_logged v))%nat by (apply subseteq_size; apply subseteq_difference_l; done).
  lia.
Qed.

(** One block [b], with the buffer [i], goes from one status to another. *)
Lemma lst_view_step s A bs v s' A' bs' v' b i :
  lst_view s A bs v → R (lbio s') A' → logged A' (lg s') bs' →
  outstanding (lg s') = outstanding (lg s) → lsize (lg s') = lsize (lg s) → lstart (lg s') = lstart (lg s) →
  v_cap v' = v_cap v → v_logged v' = list_to_set bs' → NoDup bs' →
  a_size A' = a_size A → a_disk A' = a_disk A →
  (∀ b', b' ≠ b → a_use A' !! b' = a_use A !! b') → (∀ b', b' ≠ b → v_blocks v' !! b' = v_blocks v !! b') →
  (is_Some (v_blocks v' !! b) → is_Some (v_blocks v !! b)) →
  (∀ u, a_use A !! b = Some u → u_idx u = i) → (∀ b' u, b' ≠ b → a_use A !! b' = Some u → u_idx u ≠ i) →
  match a_use A' !! b with
  | Some u' => u_idx u' = i ∧ v_held v' = (if u_held u' then <[i := (b, u_data u')]> (v_held v) else delete i (v_held v))
  | None => v_held v' = delete i (v_held v)
  end →
  blk_ok (a_use A' !! b) (a_disk A !! b) (v_blocks v' !! b) →
  lst_view s' A' bs' v'.
Proof.
  intros [_ _ Hout Hcap _ Hdom Hheld Hblk] HR' Hlog' Ho Hls Hlst Hc Hl Hnd Hsz Hdk Huse Hvb Hvs Hi1 Hi2 Hst Hok.
  split; try done.
  - by rewrite Ho.
  - by rewrite Hc, Hls.
  - intros b' Hb'. rewrite Hsz. unfold log_area. rewrite Hls, Hlst. apply Hdom.
    destruct (decide (b' = b)) as [->|]; [by apply Hvs|by rewrite <- Hvb].
  - assert (∀ j b' d, j ≠ i → v_held v !! j = Some (b', d) ↔
      ∃ u, a_use A' !! b' = Some u ∧ u_idx u = j ∧ u_data u = d ∧ u_held u = true) as Hne.
    { intros j b' d Hj. rewrite Hheld. destruct (decide (b' = b)) as [->|]; [|by rewrite Huse].
      split; intros (u & Hu & E & _); exfalso; [by specialize (Hi1 u Hu); congruence|].
      rewrite Hu in Hst. destruct Hst as [? _]. congruence. }
    assert (∀ b' d, (∃ u, a_use A' !! b' = Some u ∧ u_idx u = i ∧ u_data u = d ∧ u_held u = true) →
      b' = b ∧ ∃ u, a_use A' !! b = Some u ∧ u_data u = d ∧ u_held u = true) as Hat.
    { intros b' d (u & Hu & E & Hd & Hh). destruct (decide (b' = b)) as [->|]; [eauto|].
      rewrite Huse in Hu by done. by destruct (Hi2 b' u). }
    intros j b' d. destruct (decide (j = i)) as [->|Hj].
    + destruct (a_use A' !! b) as [u'|] eqn:Eu.
      * destruct Hst as [Hidx ->]. destruct (u_held u') eqn:Eh.
        -- rewrite lookup_insert_eq. split; [intros [= <- <-]; eauto|]. intros (-> & u & [= <-] & <- & _)%Hat. done.
        -- rewrite lookup_delete_eq. split; [done|]. intros (-> & u & [= <-] & _ & ?)%Hat. congruence.
      * rewrite Hst, lookup_delete_eq. split; [done|]. by intros (-> & u & [=] & _)%Hat.
    + rewrite <- Hne by done. destruct (a_use A' !! b) as [u'|].
      * destruct Hst as [_ ->]. destruct (u_held u'); by rewrite ?lookup_insert_ne, ?lookup_delete_ne.
      * by rewrite Hst, lookup_delete_ne.
  - intros b'. rewrite Hdk. destruct (decide (b' = b)) as [->|]; [done|]. by rewrite Huse, Hvb.
Qed.

Lemma lst_eta s : s = mkLst (lbio s) (lg s).
Proof. by destruct s. Qed.

Section Ops.
Context (t : bool) (s : lst) (A : ac) (bs : list Z) (v : bview) (Hv : lst_view s A bs v).

Lemma lv_step_use s' b u' v' :
  R (lbio s') (ac_use b u' A) → lg s' = lg s → logged (ac_use b u' A) (lg s) bs →
  v_cap v' = v_cap v → v_logged v' = v_logged v → v_blocks v' = v_blocks v →
  (∀ u, a_use A !! b = Some u → u_idx u = u_idx u') →
  (∀ b' u, b' ≠ b → a_use A !! b' = Some u → u_idx u ≠ u_idx u') →
  v_held v' = (if u_held u' then <[u_idx u' := (b, u_data u')]> (v_held v) else delete (u_idx u') (v_held v)) →
  blk_ok (Some u') (a_disk A !! b) (v_blocks v !! b) →
  lst_view s' (ac_use b u' A) bs v'.
Proof.
  intros HR Hlg Hlog Hc Hl Hb Hi1 Hi2 Hh Hok.
  apply (lst_view_step s A bs v s' _ bs v' b (u_idx u')); rewrite ?Hlg, ?Hb; try done; cbn.
  - rewrite Hl. apply Hv.
  - apply Hv.
  - intros b' Hne. by rewrite lookup_insert_ne.
  - by rewrite lookup_insert_eq.
  - by rewrite lookup_insert_eq.
Qed.

(** Whether a block is dirty is all [logged] depends on. *)
Lemma logged_use b u :
  u_dirty u = from_option u_dirty false (a_use A !! b) → logged (ac_use b u A) (lg s) bs.
Proof.
  intros Hd. destruct (lv_log _ _ _ _ Hv) as [Hok Hn Hb Hm Hdirty]. split; try done.
  intros h. rewrite Hdirty. cbn. destruct (decide (h = b)) as [->|]; [|by rewrite lookup_insert_ne].
  rewrite lookup_insert_eq. destruct (a_use A !! b) as [u0|]; cbn in Hd; split; intros (u1 & Hu1 & ?); simplify_eq; eauto; congruence.
Qed.

Lemma lv_bread b d (Q : nat → lst → Prop) :
  v_blocks v !! b = Some d → v_free b v → v_room v →
  (∀ i s', v_held v !! i = None → (∃ A' bs', lst_view s' A' bs' (v_hold i (b, d) v)) → Q i s') →
  wpg t (onb (bread 1 b)) Q s.
Proof.
  intros Hd Hf Hroom HQ. pose proof (lv_R _ _ _ _ Hv) as HR.
  destruct (lv_dom _ _ _ _ Hv b) as [Hr _]; [eauto|]. pose proof (lv_blk _ _ _ _ Hv b) as Hok. rewrite Hd in Hok.
  rewrite (lst_eta s).
  destruct (a_use A !! b) as [u|] eqn:Hu.
  - pose proof (lv_not_held _ _ _ _ _ _ Hv Hf Hu) as Hnh. destruct Hok as [Hok Hcl]. destruct (Hok Hnh) as [Hdu Hdd].
    eapply (L_bread_use t _ _ A b u); [done..|]. intros b' HR'. apply HQ.
    + destruct (v_held v !! u_idx u) as [[b2 d2]|] eqn:E; [|done]. exfalso.
      apply (lv_held _ _ _ _ Hv) in E as (u2 & Hu2 & Ei & _ & Hh2).
      assert (b2 = b) as -> by (by eapply lv_idx). congruence.
    + exists (ac_use b (hold true u) A), bs. apply lv_step_use; try done; cbn.
      * apply logged_use. by rewrite Hu.
      * intros u2. rewrite Hu. by intros [= ->].
      * intros b2 u2 Hne Hu2 E. by apply Hne; eapply lv_idx.
      * by rewrite (Hdd d eq_refl).
      * split; [done|]. intros Hd2. congruence.
  - eapply (L_bread_fresh t _ _ A b d); [done|done|done|by eapply lv_size|by apply Hok|].
    intros b' u <- Hc Hh HR'.
    assert (∀ b2 u2, a_use A !! b2 = Some u2 → u_idx u2 ≠ u_idx u) as Hi.
    { intros b2 u2 Hu2 E. destruct (R_use _ _ HR' b u) as (_ & x1 & Hx1 & E1 & _); [apply lookup_insert_eq|].
      destruct (R_use _ _ HR' b2 u2) as (_ & x2 & Hx2 & E2 & _); [cbn; rewrite lookup_insert_ne by congruence; done|].
      rewrite E in Hx2. congruence. }
    apply HQ.
    + destruct (v_held v !! u_idx u) as [[b2 d2]|] eqn:E; [|done]. exfalso.
      apply (lv_held _ _ _ _ Hv) in E as (u2 & Hu2 & Ei & _). by apply (Hi b2 u2).
    + exists (ac_use b u A), bs. apply lv_step_use; try done; cbn.
      * apply logged_use. by rewrite Hu.
      * intros u2. by rewrite Hu.
      * intros b2 u2 _ Hu2. by apply (Hi b2).
      * by rewrite Hh.
      * split; [congruence|]. intros _ d2 Hd2. rewrite Hd in Hd2. injection Hd2 as <-. by apply Hok.
Qed.

Context (i : nat) (b : Z) (d : block) (Hi : v_held v !! i = Some (b, d)).

Lemma lv_held_use : ∃ u, a_use A !! b = Some u ∧ u_idx u = i ∧ u_data u = d ∧ u_held u = true ∧
  (∀ b' u', b' ≠ b → a_use A !! b' = Some u' → u_idx u' ≠ i).
Proof.
  apply (lv_held _ _ _ _ Hv) in Hi as (u & Hu & E & Hd & Hh). exists u. split_and!; try done.
  intros b' u' Hne Hu' E'. apply Hne. eapply lv_idx; eauto. congruence.
Qed.

Lemma lv_data (Q : block → lst → Prop) : Q d s → wpg t (onb (buf_data i)) Q s.
Proof.
  intros HQ. destruct lv_held_use as (u & Hu & Ei & Ed & Hh & _). rewrite <- Ei, (lst_eta s).
  apply (L_data t _ _ A (lv_R _ _ _ _ Hv) b u Hu). by rewrite Ed, <- lst_eta.
Qed.

Lemma lv_set d' (Q : unit → lst → Prop) :
  (∀ s', (∃ A' bs', lst_view s' A' bs' (v_hold i (b, d') v)) → Q tt s') → wpg t (onb (set_buf_data i d')) Q s.
Proof.
  intros HQ. destruct lv_held_use as (u & Hu & Ei & Ed & Hh & Hne). rewrite <- Ei, (lst_eta s).
  apply (L_set_data t _ _ A (lv_R _ _ _ _ Hv) b u Hu). intros b' HR'. apply HQ.
  exists (ac_use b (with_data d' u) A), bs. pose proof (lv_blk _ _ _ _ Hv b) as Hok. rewrite Hu in Hok.
  apply lv_step_use; try done; cbn.
  - apply logged_use. by rewrite Hu.
  - intros u2. rewrite Hu. by intros [= ->].
  - intros b2 u2 Hn Hu2. rewrite Ei. by eapply Hne.
  - by rewrite Hh, Ei.
  - split; [congruence|]. apply Hok.
Qed.

Lemma lv_logw (Q : unit → lst → Prop) :
  is_Some (v_blocks v !! b) → (size (v_logged v) < v_cap v)%nat →
  (∀ s', (∃ A' bs', lst_view s' A' bs' (v_write b d v)) → Q tt s') → wpg t (log_write i) Q s.
Proof.
  intros Hb Hcap HQ. destruct lv_held_use as (u & Hu & Ei & Ed & Hh & Hne). rewrite <- Ei, (lst_eta s).
  destruct (lv_cap _ _ _ _ Hv) as [Hc1 Hc2]. destruct (lv_logged _ _ _ _ Hv) as [Hl Hnd].
  pose proof (lg_n _ _ _ (lv_log _ _ _ _ Hv)) as Hn. rewrite Hl, size_list_to_set in Hcap by done.
  pose proof (lv_blk _ _ _ _ Hv b) as Hok. rewrite Hu in Hok.
  assert (lh_n (lg s) < LOGSIZE) as Hmax by (unfold LOGSIZE; lia).
  eapply (L_log_write t _ _ A bs b u); [apply Hv|apply Hv|done|done|done|lia|apply Hv|]. intros b' HR'. apply HQ.
  exists (ac_use b (dirty true u) A), (log_add b bs).
  assert (∀ f : log → Z, (∀ l n bl, f (set_lh_n n (set_lh_block bl l)) = f l) → f (log_with b bs (lg s)) = f (lg s)) as Hw.
  { intros f Hf. unfold log_with. by case_bool_decide. }
  apply (lst_view_step s A bs v _ _ _ _ b i Hv); try done; cbn.
  - by apply logged_add; [apply Hv| |].
  - by apply Hw.
  - by apply Hw.
  - by apply Hw.
  - rewrite Hl. unfold log_add. case_bool_decide; set_solver.
  - unfold log_add. case_bool_decide; [done|]. apply NoDup_app. split_and!; [done| |apply NoDup_singleton]. set_solver.
  - intros b2 Hb2. by rewrite lookup_insert_ne.
  - intros b2 Hb2. by rewrite lookup_insert_ne.
  - intros u2. rewrite Hu. by intros [= <-].
  - rewrite lookup_insert_eq. cbn. rewrite Hh. split; [done|]. rewrite Ed, insert_id; done.
  - rewrite !lookup_insert_eq. cbn. split; [congruence|done].
Qed.

Lemma lv_brelse (Q : unit → lst → Prop) :
  v_blocks v !! b = Some d →
  (∀ s', (∃ A' bs', lst_view s' A' bs' (v_drop i v)) → Q tt s') → wpg t (onb (brelse i)) Q s.
Proof.
  intros Hb HQ. destruct lv_held_use as (u & Hu & Ei & Ed & Hh & Hne). rewrite <- Ei, (lst_eta s).
  pose proof (lv_blk _ _ _ _ Hv b) as Hok. rewrite Hu in Hok. destruct Hok as [_ Hok].
  destruct (u_dirty u) eqn:Edi.
  - apply (L_brelse_dirty t _ _ A (lv_R _ _ _ _ Hv) b u); [done..|]. intros b' HR'. apply HQ.
    exists (ac_use b (hold false u) A), bs. apply lv_step_use; try done; cbn.
    + apply logged_use. by rewrite Hu.
    + intros u2. rewrite Hu. by intros [= ->].
    + intros b2 u2 Hn Hu2. rewrite Ei. by eapply Hne.
    + by rewrite Ei.
    + split; [|congruence]. intros _. split; [done|]. congruence.
  - apply (L_brelse_clean t _ _ A (lv_R _ _ _ _ Hv) b u); [done..|rewrite Ed; by apply Hok|]. intros b' HR'. apply HQ.
    exists (ac_drop b A), bs. apply (lst_view_step s A bs v _ _ _ _ b i Hv); try done; cbn.
    + destruct (lv_log _ _ _ _ Hv) as [H1 H2 H3 H4 H5]. split; try done. intros h. rewrite H5. cbn.
      destruct (decide (h = b)) as [->|]; [rewrite lookup_delete_eq|by rewrite lookup_delete_ne].
      rewrite Hu. split; intros (u2 & Hu2 & ?); [congruence|done].
    + apply Hv.
    + apply Hv.
    + intros b2 Hb2. by rewrite lookup_delete_ne.
    + intros u2. rewrite Hu. by intros [= <-].
    + by rewrite lookup_delete_eq.
    + rewrite lookup_delete_eq. cbn. by apply Hok.
Qed.
End Ops.

(** The buffer cache and the log keep the promises that fs.c relies on:
    in a transaction with room, [bread] returns a buffer that holds the
    logical contents of the block, [log_write] makes the buffer's data the
    logical contents, and [brelse] of an unmodified or logged buffer keeps
    them. *)
Definition lst_rel (s : lst) (v : bview) : Prop := ∃ A bs, lst_view s A bs v.

#[export] Program Instance lst_laws : StoreLaws lst := { st_rel := lst_rel }.
Next Obligation. intros t s v b d Q (A & bs & Hv). by eapply lv_bread. Qed.
Next Obligation. intros t s v i [b d] Q (A & bs & Hv) Hi. by eapply lv_data. Qed.
Next Obligation. intros t s v i [b d] d' Q (A & bs & Hv) Hi. by eapply lv_set. Qed.
Next Obligation. intros t s v i [b d] Q (A & bs & Hv) Hi. by eapply lv_logw. Qed.
Next Obligation. intros t s v i [b d] Q (A & bs & Hv) Hi. by eapply lv_brelse. Qed.

(** A transaction that has just begun: all blocks outside the log, on the
    disk. *)
Definition start_view (A : ac) (l : log) : bview :=
  mkView (filter (λ p, ¬ (lstart l ≤ p.1 < lstart l + lsize l) ∧ 0 ≤ p.1 < a_size A) (a_disk A)) ∅ ∅
    (Nat.min 30 (Z.to_nat (lsize l - 1))).

Lemma lst_start b l A :
  R b A → a_use A = ∅ → log_ok l (a_size A) → lh_n l = 0 → 1 ≤ outstanding l → lst_rel (mkLst b l) (start_view A l).
Proof.
  intros HR Hu Hlo Hn Ho. pose proof Hlo as [_ Har _ _]. exists A, []. split; cbn -[Nat.min Z.of_nat]; try done.
  - split; try done; cbn; [lia|]. intros h. split; [by intros ?%not_elem_of_nil|]. rewrite Hu. by intros (? & ? & _).
  - lia.
  - split; [done|apply NoDup_nil_2].
  - intros h [d [_ [H1 H2]]%map_lookup_filter_Some]. split; [done|]. unfold log_area. done.
  - intros i h d. rewrite lookup_empty. split; [done|]. rewrite Hu. by intros (? & ? & _).
  - intros h. rewrite Hu, lookup_empty. intros d [? _]%map_lookup_filter_Some. done.
Qed.
