(* ===== verification/Fs.v ===== *)
(** * The file system (fs.c)

    Blocks, inodes, their contents, directories and path names, over the
    interface [BlockStore].  The locks of this layer (the inode locks and
    [icache.lock]) are in a context of its own, [fx]; those of the buffer cache
    and the log are the block store's. *)

From S2P Require Export CStringProps Store.
Local Open Scope Z_scope.

Definition ROOTINO : Z := 1.
Definition ROOTDEV : Z := 1.
Definition NINODE : nat := 50.
Definition NDEV : Z := 10.
Definition NDIRECT : Z := 12.
Definition NINDIRECT : Z := BSIZE / 4.
Definition MAXFILE : Z := NDIRECT + NINDIRECT.
Definition IPB : Z := BSIZE / 64.
Definition BPB : Z := BSIZE * 8.
Definition DIRSIZ : nat := 14.
Definition T_DIR : Z := 1.
Definition T_FILE : Z := 2.
Definition T_DEV : Z := 3.

Definition IBLOCK (i : Z) (sb : superblock) : Z := i / IPB + sb_inodestart sb.
Definition BBLOCK (b : Z) (sb : superblock) : Z := b / BPB + sb_bmapstart sb.

(** [struct inode]; its lock is [SL_inode] of its index in [icache]. *)
Record inode := mkInode {
  idev : Z; inum : Z; iref : Z; valid : Z;
  itype : Z; imajor : Z; iminor : Z; inlink : Z; isize : Z; iaddrs : list Z
}.

Definition set_iref (v : Z) (p : inode) : inode :=
  mkInode (idev p) (inum p) v (valid p) (itype p) (imajor p) (iminor p) (inlink p) (isize p) (iaddrs p).
Definition set_valid (v : Z) (p : inode) : inode :=
  mkInode (idev p) (inum p) (iref p) v (itype p) (imajor p) (iminor p) (inlink p) (isize p) (iaddrs p).
Definition set_itype (v : Z) (p : inode) : inode :=
  mkInode (idev p) (inum p) (iref p) (valid p) v (imajor p) (iminor p) (inlink p) (isize p) (iaddrs p).
Definition set_inlink (v : Z) (p : inode) : inode :=
  mkInode (idev p) (inum p) (iref p) (valid p) (itype p) (imajor p) (iminor p) v (isize p) (iaddrs p).
Definition set_isize (v : Z) (p : inode) : inode :=
  mkInode (idev p) (inum p) (iref p) (valid p) (itype p) (imajor p) (iminor p) (inlink p) v (iaddrs p).
Definition set_iaddr (k : nat) (v : Z) (p : inode) : inode :=
  mkInode (idev p) (inum p) (iref p) (valid p) (itype p) (imajor p) (iminor p) (inlink p) (isize p) (<[k := v]> (iaddrs p)).
Definition set_numbers (major minor : Z) (p : inode) : inode :=
  mkInode (idev p) (inum p) (iref p) (valid p) (itype p) major minor (inlink p) (isize p) (iaddrs p).

(** The fields of [struct dinode] at offset [o] of a block: type, major,
    minor, nlink, size, addrs. *)
Definition dinode_type (d : block) (o : nat) : Z := i16 (get16 d o).
Definition dinode_addrs (d : block) (o : nat) : list Z := (λ k, get32 d (o + 12 + 4 * k)) <$> seq 0 13.
Definition dinode_load (d : block) (o : nat) (p : inode) : inode :=
  mkInode (idev p) (inum p) (iref p) (valid p) (dinode_type d o) (i16 (get16 d (o + 2))) (i16 (get16 d (o + 4)))
    (i16 (get16 d (o + 6))) (get32 d (o + 8)) (dinode_addrs d o).
Definition dinode_store (p : inode) (d : block) (o : nat) : block :=
  let d := put16 d o (u16 (itype p)) in
  let d := put16 d (o + 2) (u16 (imajor p)) in
  let d := put16 d (o + 4) (u16 (iminor p)) in
  let d := put16 d (o + 6) (u16 (inlink p)) in
  let d := put32 d (o + 8) (isize p) in
  splice d (o + 12) (concat (le_split 4 <$> iaddrs p)).
(** [(struct dinode* )bp->data + inum%IPB]. *)
Definition dinode_at (inum : Z) : nat := Z.to_nat (inum mod IPB * 64).

Record stat := mkStat { st_type : Z; st_dev : Z; st_ino : Z; st_nlink : Z; st_size : Z }.

(** The file system of a process: the blocks, the locks, [sb], [icache] and
    the process's [cwd]. *)
Record fst (S : Type) := mkFst { blk : S; fx : ctx; fsb : superblock; icache : list inode; cwd : nat }.
Arguments mkFst {S}.
Arguments blk {S}.
Arguments fx {S}.
Arguments fsb {S}.
Arguments icache {S}.
Arguments cwd {S}.

(** Devices: [devsw[major].read] and [.write], when there is one. *)
Class DevSw (S : Type) := {
  dev_read : Z → option (nat → Z → M (fst S) (Z * bytes));
  dev_write : Z → option (nat → bytes → Z → M (fst S) Z)
}.

Section Fs.
Context {S : Type} `{BS : BlockStore S}.

Definition set_blk (b : S) (s : fst S) : fst S := mkFst b (fx s) (fsb s) (icache s) (cwd s).
Definition set_fx (x : ctx) (s : fst S) : fst S := mkFst (blk s) x (fsb s) (icache s) (cwd s).
Definition set_fsb (b : superblock) (s : fst S) : fst S := mkFst (blk s) (fx s) b (icache s) (cwd s).
Definition set_icache (l : list inode) (s : fst S) : fst S := mkFst (blk s) (fx s) (fsb s) l (cwd s).
Definition set_cwd (c : nat) (s : fst S) : fst S := mkFst (blk s) (fx s) (fsb s) (icache s) c.

Definition onblk {A} (m : M S A) : M (fst S) A := zoom blk set_blk m.
Definition onfx {A} (m : M ctx A) : M (fst S) A := zoom fx set_fx m.

(** [ip->...] and its assignments. *)
Definition ino (i : nat) : M (fst S) inode := deref (λ s, icache s !! i).
Definition ino_set (i : nat) (f : inode → inode) : M (fst S) unit :=
  x ← ino i; modify (λ s, set_icache (<[i := f x]> (icache s)) s).

(** ** Blocks *)

(** Zero a block. *)
Definition bzero (dev bno : Z) : M (fst S) unit :=
  bp ← onblk (st_bread dev bno);
  onblk (st_set bp (memset 0 0 (Z.to_nat BSIZE))) ;;
  onblk (st_logw bp) ;;
  onblk (st_brelse bp).

(** [bp->data[bi/8] & (1 << (bi % 8))]. *)
Definition bit_of (d : block) (bi : Z) : Z := Z.land (d !!! Z.to_nat (bi / 8)) (Z.shiftl 1 (bi mod 8)).

(** The inner loop of [balloc]: a clear bit. *)
Fixpoint find_clear (fuel : nat) (d : block) (b size bi : Z) : option Z :=
  match fuel with
  | O => None
  | Datatypes.S fuel =>
      if (bi <? BPB) && (b + bi <? size) then
        if bit_of d bi =? 0 then Some bi else find_clear fuel d b size (bi + 1)
      else None
  end.

Fixpoint balloc_scan (fuel : nat) (dev b : Z) : M (fst S) Z :=
  match fuel with
  | O => diverge
  | Datatypes.S fuel =>
      sb ← gets fsb;
      if b <? sb_size sb then
        bp ← onblk (st_bread dev (BBLOCK b sb));
        d ← onblk (st_data bp);
        match find_clear (Z.to_nat BPB) d b (sb_size sb) 0 with
        | Some bi =>
            let k := Z.to_nat (bi / 8) in
            onblk (st_set bp (<[k := Z.lor (d !!! k) (Z.shiftl 1 (bi mod 8))]> d)) ;;
            onblk (st_logw bp) ;;
            onblk (st_brelse bp) ;;
            bzero dev (b + bi) ;;
            mret (b + bi)
        | None =>
            onblk (st_brelse bp) ;;
            balloc_scan fuel dev (b + BPB)
        end
      else panic "balloc: out of blocks"
  end.
Definition balloc (dev : Z) : M (fst S) Z :=
  sb ← gets fsb;
  balloc_scan (Z.to_nat (sb_size sb / BPB) + 2) dev 0.

Definition bfree (dev b : Z) : M (fst S) unit :=
  sb ← gets fsb;
  bp ← onblk (st_bread dev (BBLOCK b sb));
  d ← onblk (st_data bp);
  let bi := b mod BPB in
  let k := Z.to_nat (bi / 8) in
  if bit_of d bi =? 0 then panic "freeing free block" else
  onblk (st_set bp (<[k := Z.land (d !!! k) (Z.lnot (Z.shiftl 1 (bi mod 8)))]> d)) ;;
  onblk (st_logw bp) ;;
  onblk (st_brelse bp).

(** ** Inodes *)

Definition fs_readsb (dev : Z) : M (fst S) superblock :=
  bp ← onblk (st_bread dev 1);
  d ← onblk (st_data bp);
  onblk (st_brelse bp) ;;
  mret (decode_sb d).

Definition iinit (dev : Z) : M (fst S) unit :=
  for_each (seq 0 NINODE) (λ i, onfx (initsleeplock (SL_inode i))) ;;
  sb ← fs_readsb dev;
  modify (set_fsb sb).

(** The loop of [iget]: the entry of the inode, or the first unused one. *)
Fixpoint iget_scan (l : list inode) (i : nat) (empty : option nat) (dev n : Z) : nat + option nat :=
  match l with
  | [] => inr empty
  | p :: l =>
      if (iref p >? 0) && (idev p =? dev) && (inum p =? n) then inl i
      else
        let empty := match empty with None => if iref p =? 0 then Some i else None | e => e end in
        iget_scan l (Datatypes.S i) empty dev n
  end.

Definition iget (dev n : Z) : M (fst S) nat :=
  onfx (acquire_lk L_icache) ;;
  l ← gets icache;
  match iget_scan l 0 None dev n with
  | inl i =>
      ino_set i (λ p, set_iref (iref p + 1) p) ;;
      onfx (release_lk L_icache) ;;
      mret i
  | inr None => panic "iget: no inodes"
  | inr (Some i) =>
      ino_set i (λ p, mkInode dev n 1 0 (itype p) (imajor p) (iminor p) (inlink p) (isize p) (iaddrs p)) ;;
      onfx (release_lk L_icache) ;;
      mret i
  end.

Fixpoint ialloc_scan (fuel : nat) (dev type n : Z) : M (fst S) nat :=
  match fuel with
  | O => diverge
  | Datatypes.S fuel =>
      sb ← gets fsb;
      if n <? sb_ninodes sb then
        bp ← onblk (st_bread dev (IBLOCK n sb));
        d ← onblk (st_data bp);
        if dinode_type d (dinode_at n) =? 0 then
          onblk (st_set bp (put16 (splice d (dinode_at n) (memset 0 0 64)) (dinode_at n) (u16 type))) ;;
          onblk (st_logw bp) ;;
          onblk (st_brelse bp) ;;
          iget dev n
        else
          onblk (st_brelse bp) ;;
          ialloc_scan fuel dev type (n + 1)
      else panic "ialloc: no inodes"
  end.
Definition ialloc (dev type : Z) : M (fst S) nat :=
  sb ← gets fsb;
  ialloc_scan (Z.to_nat (sb_ninodes sb)) dev type 1.

Definition iupdate (ip : nat) : M (fst S) unit :=
  p ← ino ip;
  sb ← gets fsb;
  bp ← onblk (st_bread (idev p) (IBLOCK (inum p) sb));
  d ← onblk (st_data bp);
  onblk (st_set bp (dinode_store p d (dinode_at (inum p)))) ;;
  onblk (st_logw bp) ;;
  onblk (st_brelse bp).

Definition idup (ip : nat) : M (fst S) nat :=
  onfx (acquire_lk L_icache) ;;
  ino_set ip (λ p, set_iref (iref p + 1) p) ;;
  onfx (release_lk L_icache) ;;
  mret ip.

Definition ilock (ip : option nat) : M (fst S) unit :=
  match ip with
  | None => panic "ilock"
  | Some i =>
      p ← ino i;
      if iref p <? 1 then panic "ilock" else
      onfx (acquiresleep (SL_inode i)) ;;
      p ← ino i;
      when (valid p =? 0)
        (sb ← gets fsb;
         bp ← onblk (st_bread (idev p) (IBLOCK (inum p) sb));
         d ← onblk (st_data bp);
         ino_set i (dinode_load d (dinode_at (inum p))) ;;
         onblk (st_brelse bp) ;;
         ino_set i (set_valid 1) ;;
         p ← ino i;
         if itype p =? 0 then panic "ilock: no type" else mret tt)
  end.

Definition iunlock (ip : option nat) : M (fst S) unit :=
  match ip with
  | None => panic "iunlock"
  | Some i =>
      h ← onfx (holdingsleep (SL_inode i));
      if negb h then panic "iunlock" else
      p ← ino i;
      if iref p <? 1 then panic "iunlock" else
      onfx (releasesleep (SL_inode i))
  end.

(** ** Inode content *)

Definition bmap (ip : nat) (bn : Z) : M (fst S) Z :=
  if bn <? NDIRECT then
    p ← ino ip;
    addr ← deref (λ _, iaddrs p !! Z.to_nat bn);
    if addr =? 0 then
      addr ← balloc (idev p);
      ino_set ip (set_iaddr (Z.to_nat bn) addr) ;;
      mret addr
    else mret addr
  else
    let bn := bn - NDIRECT in
    if bn <? NINDIRECT then
      p ← ino ip;
      addr ← deref (λ _, iaddrs p !! Z.to_nat NDIRECT);
      addr ← (if addr =? 0 then
                addr ← balloc (idev p);
                ino_set ip (set_iaddr (Z.to_nat NDIRECT) addr) ;;
                mret addr
              else mret addr);
      bp ← onblk (st_bread (idev p) addr);
      a ← onblk (st_data bp);
      let k := (4 * Z.to_nat bn)%nat in
      let addr := get32 a k in
      addr ← (if addr =? 0 then
                addr ← balloc (idev p);
                a ← onblk (st_data bp);
                onblk (st_set bp (put32 a k addr)) ;;
                onblk (st_logw bp) ;;
                mret addr
              else mret addr);
      onblk (st_brelse bp) ;;
      mret addr
    else panic "bmap: out of range".

Definition itrunc (ip : nat) : M (fst S) unit :=
  for_each (seq 0 (Z.to_nat NDIRECT)) (λ i,
    p ← ino ip;
    addr ← deref (λ _, iaddrs p !! i);
    when (negb (addr =? 0)) (bfree (idev p) addr ;; ino_set ip (set_iaddr i 0))) ;;
  p ← ino ip;
  addr ← deref (λ _, iaddrs p !! Z.to_nat NDIRECT);
  when (negb (addr =? 0))
    (bp ← onblk (st_bread (idev p) addr);
     for_each (seq 0 (Z.to_nat NINDIRECT)) (λ j,
       a ← onblk (st_data bp);
       when (negb (get32 a (4 * j) =? 0)) (bfree (idev p) (get32 a (4 * j)))) ;;
     onblk (st_brelse bp) ;;
     bfree (idev p) addr ;;
     ino_set ip (set_iaddr (Z.to_nat NDIRECT) 0)) ;;
  ino_set ip (set_isize 0) ;;
  iupdate ip.

(** Drop a reference; the last one to an inode without links frees it. *)
Definition iput (ip : nat) : M (fst S) unit :=
  onfx (acquiresleep (SL_inode ip)) ;;
  p ← ino ip;
  when (negb (valid p =? 0) && (inlink p =? 0))
    (onfx (acquire_lk L_icache) ;;
     p ← ino ip;
     let r := iref p in
     onfx (release_lk L_icache) ;;
     when (r =? 1)
       (itrunc ip ;;
        ino_set ip (set_itype 0) ;;
        iupdate ip ;;
        ino_set ip (set_valid 0))) ;;
  onfx (releasesleep (SL_inode ip)) ;;
  onfx (acquire_lk L_icache) ;;
  ino_set ip (λ p, set_iref (iref p - 1) p) ;;
  onfx (release_lk L_icache).

Definition iunlockput (ip : nat) : M (fst S) unit := iunlock (Some ip) ;; iput ip.

Definition stati (ip : nat) : M (fst S) stat :=
  p ← ino ip;
  mret (mkStat (itype p) (i32 (idev p)) (inum p) (inlink p) (isize p)).

Context {DV : DevSw S}.

(** [major < 0 || major >= NDEV || !f]. *)
Definition dev_entry {T} (tab : Z → option T) (major : Z) : option T :=
  if (major <? 0) || (major >=? NDEV) then None else tab major.

(** The bytes copied to [dst]. *)
Fixpoint readi_loop (fuel : nat) (ip : nat) (tot n off : Z) : M (fst S) bytes :=
  match fuel with
  | O => diverge
  | Datatypes.S fuel =>
      if tot <? n then
        a ← bmap ip (off / BSIZE);
        p ← ino ip;
        bp ← onblk (st_bread (idev p) a);
        let m := Z.min (n - tot) (BSIZE - off mod BSIZE) in
        d ← onblk (st_data bp);
        onblk (st_brelse bp) ;;
        l ← readi_loop fuel ip (u32 (tot + m)) n (u32 (off + m));
        mret (take (Z.to_nat m) (drop (Z.to_nat (off mod BSIZE)) d) ++ l)
      else mret []
  end.
(** A turn copies at least one byte, and all turns but the first and the last
    a whole block. *)
Definition io_fuel (n : Z) : nat := Z.to_nat (n / BSIZE) + 3.

Definition readi (ip : nat) (off n : Z) : M (fst S) (Z * bytes) :=
  p ← ino ip;
  if itype p =? T_DEV then
    match dev_entry dev_read (imajor p) with
    | None => mret (-1, [])
    | Some f => f ip (i32 n)
    end
  else if (off >? isize p) || (u32 (off + n) <? off) then mret (-1, [])
  else
    let n := if u32 (off + n) >? isize p then u32 (isize p - off) else n in
    l ← readi_loop (io_fuel n) ip 0 n off;
    mret (i32 n, l).

(** The offset after the copy. *)
Fixpoint writei_loop (fuel : nat) (ip : nat) (src : bytes) (tot n off : Z) : M (fst S) Z :=
  match fuel with
  | O => diverge
  | Datatypes.S fuel =>
      if tot <? n then
        a ← bmap ip (off / BSIZE);
        p ← ino ip;
        bp ← onblk (st_bread (idev p) a);
        let m := Z.min (n - tot) (BSIZE - off mod BSIZE) in
        d ← onblk (st_data bp);
        onblk (st_set bp (splice d (Z.to_nat (off mod BSIZE)) (take (Z.to_nat m) src))) ;;
        onblk (st_logw bp) ;;
        onblk (st_brelse bp) ;;
        writei_loop fuel ip (drop (Z.to_nat m) src) (u32 (tot + m)) n (u32 (off + m))
      else mret off
  end.

Definition writei (ip : nat) (src : bytes) (off n : Z) : M (fst S) Z :=
  p ← ino ip;
  if itype p =? T_DEV then
    match dev_entry dev_write (imajor p) with
    | None => mret (-1)
    | Some f => f ip src (i32 n)
    end
  else if (off >? isize p) || (u32 (off + n) <? off) then mret (-1)
  else if u32 (off + n) >? MAXFILE * BSIZE then mret (-1)
  else
    off ← writei_loop (io_fuel n) ip src 0 n off;
    p ← ino ip;
    when ((n >? 0) && (off >? isize p)) (ino_set ip (set_isize off) ;; iupdate ip) ;;
    mret (i32 n).

(** ** Directories *)

Definition namecmp (s t : bytes) : option Z := strncmp s t DIRSIZ.

(** [struct dirent]: [inum] and [name]. *)
Definition de_inum (de : bytes) : Z := get16 de 0.
Definition de_name (de : bytes) : bytes := drop 2 de.

(** The inode found, and the offset of its entry. *)
Fixpoint dirlookup_scan (fuel : nat) (dp : nat) (name : bytes) (off : Z) : M (fst S) (option (nat * Z)) :=
  match fuel with
  | O => diverge
  | Datatypes.S fuel =>
      p ← ino dp;
      if off <? isize p then
        '(r, de) ← readi dp off 16;
        if negb (r =? 16) then panic "dirlookup read" else
        if de_inum de =? 0 then dirlookup_scan fuel dp name (u32 (off + 16)) else
        c ← deref (λ _, namecmp name (de_name de));
        if c =? 0 then i ← iget (idev p) (de_inum de); mret (Some (i, off))
        else dirlookup_scan fuel dp name (u32 (off + 16))
      else mret None
  end.
Definition dirlookup (dp : nat) (name : bytes) : M (fst S) (option (nat * Z)) :=
  p ← ino dp;
  if negb (itype p =? T_DIR) then panic "dirlookup not DIR" else
  dirlookup_scan (Z.to_nat (isize p / 16) + 2) dp name 0.

(** The offset of the first empty entry, or the end of the directory. *)
Fixpoint dirlink_scan (fuel : nat) (dp : nat) (off : Z) : M (fst S) Z :=
  match fuel with
  | O => diverge
  | Datatypes.S fuel =>
      p ← ino dp;
      if off <? isize p then
        '(r, de) ← readi dp off 16;
        if negb (r =? 16) then panic "dirlink read" else
        if de_inum de =? 0 then mret off else dirlink_scan fuel dp (off + 16)
      else mret off
  end.
Definition dirlink (dp : nat) (name : bytes) (n : Z) : M (fst S) Z :=
  r ← dirlookup dp name;
  match r with
  | Some (ip, _) => iput ip ;; mret (-1)
  | None =>
      p ← ino dp;
      off ← dirlink_scan (Z.to_nat (isize p / 16) + 2) dp 0;
      nm ← deref (λ _, strncpy name DIRSIZ);
      w ← writei dp (le_split 2 (u16 n) ++ nm) off 16;
      if negb (w =? 16) then panic "dirlink" else mret 0
  end.

(** ** Paths *)

(** A path is the list of its bytes; its end is the terminating NUL. *)
Fixpoint skip_slashes (path : bytes) : bytes :=
  match path with c :: p => if c =? 47 then skip_slashes p else path | [] => [] end.
Fixpoint path_elem (path : bytes) : bytes * bytes :=
  match path with
  | [] => ([], [])
  | c :: p => if c =? 47 then ([], path) else let '(e, r) := path_elem p in (c :: e, r)
  end.

(** The rest of the path, and the [name] buffer after the copy. *)
Definition skipelem (path name : bytes) : option (bytes * bytes) :=
  match skip_slashes path with
  | [] => None
  | s =>
      let '(e, rest) := path_elem s in
      let name := if bool_decide (DIRSIZ ≤ length e)%nat then splice name 0 (take DIRSIZ e)
                  else splice name 0 (e ++ [0]) in
      Some (skip_slashes rest, name)
  end.

Fixpoint namex_loop (fuel : nat) (ip : nat) (path : bytes) (parent : bool) (name : bytes) :
    M (fst S) (option nat * bytes) :=
  match fuel with
  | O => diverge
  | Datatypes.S fuel =>
      match skipelem path name with
      | None => if parent then iput ip ;; mret (None, name) else mret (Some ip, name)
      | Some (path, name) =>
          ilock (Some ip) ;;
          p ← ino ip;
          if negb (itype p =? T_DIR) then iunlockput ip ;; mret (None, name) else
          if parent && bool_decide (path = []) then iunlock (Some ip) ;; mret (Some ip, name) else
          r ← dirlookup ip name;
          match r with
          | None => iunlockput ip ;; mret (None, name)
          | Some (next, _) => iunlockput ip ;; namex_loop fuel next path parent name
          end
      end
  end.
Definition namex (path : bytes) (parent : bool) (name : bytes) : M (fst S) (option nat * bytes) :=
  ip ← (if bool_decide (head path = Some 47) then iget ROOTDEV ROOTINO else c ← gets cwd; idup c);
  namex_loop (Datatypes.S (length path)) ip path parent name.

(** [name] is an uninitialised local array in [namei]; [skipelem] fills it
    before it is read. *)
Definition namei (path : bytes) : M (fst S) (option nat) :=
  r ← namex path false (replicate DIRSIZ 0); mret r.1.
Definition nameiparent (path name : bytes) : M (fst S) (option nat * bytes) := namex path true name.
End Fs.
