(* ===== verification/FsBlocks.v ===== *)
(** * The block allocator of the file system

    The bitmap on the disk is related to the set of allocated blocks;
    [balloc] and [bfree] are operations on that set. *)

From S2P Require Export Fs.
Local Open Scope Z_scope.

(** ** Bits *)

Lemma land_bit x j : 0 ≤ j → (Z.land x (Z.shiftl 1 j) =? 0) = negb (Z.testbit x j).
Proof.
  intros Hj. rewrite Z.shiftl_1_l. destruct (Z.testbit x j) eqn:E; cbn.
  - apply Z.eqb_neq. intros H. assert (Z.testbit (Z.land x (2 ^ j)) j = false) as Hf by (by rewrite H, Z.bits_0).
    rewrite Z.land_spec, E, Z.pow2_bits_true in Hf by done. done.
  - apply Z.eqb_eq, Z.bits_inj'. intros k Hk. rewrite Z.land_spec, Z.bits_0.
    destruct (decide (k = j)) as [->|]; [by rewrite E|]. rewrite Z.pow2_bits_false by lia. apply andb_false_r.
Qed.

Lemma testbit_set x j k : 0 ≤ j → 0 ≤ k → Z.testbit (Z.lor x (Z.shiftl 1 j)) k = bool_decide (k = j) || Z.testbit x k.
Proof.
  intros Hj Hk. rewrite Z.lor_spec, Z.shiftl_1_l. case_bool_decide as E.
  - subst. rewrite Z.pow2_bits_true by done. apply orb_true_r.
  - rewrite Z.pow2_bits_false by lia. apply orb_false_r.
Qed.

Lemma testbit_clear x j k : 0 ≤ j → 0 ≤ k → Z.testbit (Z.land x (Z.lnot (Z.shiftl 1 j))) k = negb (bool_decide (k = j)) && Z.testbit x k.
Proof.
  intros Hj Hk. rewrite Z.land_spec, Z.lnot_spec, Z.shiftl_1_l by done. case_bool_decide as E.
  - subst. rewrite Z.pow2_bits_true by done. apply andb_false_r.
  - rewrite Z.pow2_bits_false by lia. apply andb_true_r.
Qed.

(** Bit [bi] of a block. *)
Definition bit (d : block) (bi : Z) : bool := Z.testbit (d !!! Z.to_nat (bi / 8)) (bi mod 8).

Lemma bit_of_bit d bi : (bit_of d bi =? 0) = negb (bit d bi).
Proof. apply land_bit. apply Z.mod_pos_bound. lia. Qed.

(** Changing one byte of a block changes the bits in it. *)
Lemma bit_insert d bi bj (f : Z → Z) (g : bool → bool) :
  0 ≤ bi → 0 ≤ bj → (Z.to_nat (bi / 8) < length d)%nat →
  (∀ x k, 0 ≤ k → Z.testbit (f x) k = if bool_decide (k = bi mod 8) then g (Z.testbit x k) else Z.testbit x k) →
  bit (<[Z.to_nat (bi / 8) := f (d !!! Z.to_nat (bi / 8))]> d) bj = if bool_decide (bj = bi) then g (bit d bi) else bit d bj.
Proof.
  intros Hi Hj Hl Hf. unfold bit. pose proof (Z.mod_pos_bound bj 8 ltac:(lia)) as Hm.
  destruct (decide (bj / 8 = bi / 8)) as [E|E].
  - rewrite E, list_lookup_total_insert_eq, Hf by lia. pose proof (Z.div_mod bi 8). pose proof (Z.div_mod bj 8).
    repeat case_bool_decide; try done; try lia. by subst.
  - rewrite list_lookup_total_insert_ne.
    + case_bool_decide; [|done]. by subst.
    + pose proof (Z.div_pos bi 8). pose proof (Z.div_pos bj 8). lia.
Qed.

Definition mark (bi : Z) (d : block) : block :=
  <[Z.to_nat (bi / 8) := Z.lor (d !!! Z.to_nat (bi / 8)) (Z.shiftl 1 (bi mod 8))]> d.
Definition unmark (bi : Z) (d : block) : block :=
  <[Z.to_nat (bi / 8) := Z.land (d !!! Z.to_nat (bi / 8)) (Z.lnot (Z.shiftl 1 (bi mod 8)))]> d.

Lemma bit_index bi : 0 ≤ bi < BPB → (Z.to_nat (bi / 8) < 512)%nat.
Proof. intros H. change BPB with 4096 in H. assert (bi / 8 < 512) by (apply Z.div_lt_upper_bound; lia). lia. Qed.

Lemma bit_mark d bi bj : 0 ≤ bi < BPB → 0 ≤ bj → length d = 512%nat → bit (mark bi d) bj = bool_decide (bj = bi) || bit d bj.
Proof.
  intros Hi Hj Hl. pose proof (bit_index bi Hi). unfold mark.
  rewrite (bit_insert d bi bj (λ x, Z.lor x (Z.shiftl 1 (bi mod 8))) (λ _, true)); [by case_bool_decide|lia..|].
  intros x k Hk. rewrite testbit_set by (done || apply Z.mod_pos_bound; lia). by case_bool_decide.
Qed.

Lemma bit_unmark d bi bj :
  0 ≤ bi < BPB → 0 ≤ bj → length d = 512%nat → bit (unmark bi d) bj = negb (bool_decide (bj = bi)) && bit d bj.
Proof.
  intros Hi Hj Hl. pose proof (bit_index bi Hi). unfold unmark.
  rewrite (bit_insert d bi bj (λ x, Z.land x (Z.lnot (Z.shiftl 1 (bi mod 8)))) (λ _, false)); [by case_bool_decide|lia..|].
  intros x k Hk. rewrite testbit_clear by (done || apply Z.mod_pos_bound; lia). by case_bool_decide.
Qed.

(** [find_clear] finds the first clear bit of the blocks below [size]. *)
Lemma find_clear_spec fuel : ∀ d b size bi,
  0 ≤ bi → Z.to_nat (BPB - bi) = fuel →
  match find_clear fuel d b size bi with
  | Some k => bi ≤ k < BPB ∧ b + k < size ∧ bit d k = false ∧ ∀ j, bi ≤ j < k → bit d j = true
  | None => ∀ j, bi ≤ j < BPB → b + j < size → bit d j = true
  end.
Proof.
  induction fuel as [|fuel IH]; intros d b size bi Hbi Hf; cbn [find_clear]; [intros; lia|].
  destruct ((bi <? BPB) && (b + bi <? size)) eqn:E.
  - rewrite bit_of_bit. destruct (bit d bi) eqn:Eb; cbn [negb].
    + specialize (IH d b size (bi + 1)). destruct (find_clear _ _ _ _ _) as [k|].
      * destruct IH as (? & ? & ? & Hall); [lia|lia|]. split_and!; [lia|lia|lia|done|].
        intros j Hj. destruct (decide (j = bi)) as [->|]; [done|]. apply Hall. lia.
      * intros j Hj Hs. destruct (decide (j = bi)) as [->|]; [done|]. apply IH; lia.
    + split_and!; [lia|lia|lia|done|]. intros j. lia.
  - intros j Hj Hs. lia.
Qed.

(** ** The bitmap *)

(** Block [b] is marked in the bitmap. *)
Definition alloc (V : gmap Z block) (sb : superblock) (b : Z) : bool := bit (V !!! BBLOCK b sb) (b mod BPB).

(** The bitmap covers the disk and marks itself; a block it does not mark
    may be used. *)
Record bitmap_ok (V : gmap Z block) (sb : superblock) : Prop := {
  bo_map : ∀ b, 0 ≤ b < sb_size sb → ∃ d, V !! BBLOCK b sb = Some d ∧ length d = 512%nat;
  bo_self : ∀ b, 0 ≤ b < sb_size sb → alloc V sb (BBLOCK b sb) = true;
  bo_data : ∀ b, 0 ≤ b < sb_size sb → alloc V sb b = false → is_Some (V !! b)
}.

(** The blocks of [V'] are marked as those of [V], except [b], which is [x]. *)
Definition alloc_at (V V' : gmap Z block) (sb : superblock) (b : Z) (x : bool) : Prop :=
  ∀ b', 0 ≤ b' < sb_size sb → alloc V' sb b' = if bool_decide (b' = b) then x else alloc V sb b'.

Lemma block_mod b : 0 ≤ b mod BPB < BPB.
Proof. apply Z.mod_pos_bound. done. Qed.

Lemma alloc_insert V sb b d (f : Z → block → block) x :
  0 ≤ b → V !! BBLOCK b sb = Some d →
  (∀ bj, 0 ≤ bj → bit (f (b mod BPB) d) bj = if bool_decide (bj = b mod BPB) then x else bit d bj) →
  alloc_at V (<[BBLOCK b sb := f (b mod BPB) d]> V) sb b x.
Proof.
  intros Hb Hd Hf b' Hb'. unfold alloc. destruct (decide (BBLOCK b' sb = BBLOCK b sb)) as [E|E].
  - rewrite E, lookup_total_insert_eq, Hf by apply block_mod.
    rewrite (lookup_total_correct _ _ _ Hd). repeat case_bool_decide; try done; [|by subst].
    exfalso. unfold BBLOCK in E. pose proof (Z.div_mod b BPB ltac:(done)). pose proof (Z.div_mod b' BPB ltac:(done)). nia.
  - rewrite lookup_total_insert_ne by done. case_bool_decide; [by subst|done].
Qed.

Lemma alloc_mark V sb b d :
  0 ≤ b → V !! BBLOCK b sb = Some d → length d = 512%nat →
  alloc_at V (<[BBLOCK b sb := mark (b mod BPB) d]> V) sb b true.
Proof.
  intros Hb Hd Hl. apply alloc_insert; [done..|]. intros bj Hj. rewrite bit_mark by (done || apply block_mod).
  by case_bool_decide.
Qed.

Lemma alloc_unmark V sb b d :
  0 ≤ b → V !! BBLOCK b sb = Some d → length d = 512%nat →
  alloc_at V (<[BBLOCK b sb := unmark (b mod BPB) d]> V) sb b false.
Proof.
  intros Hb Hd Hl. apply alloc_insert; [done..|]. intros bj Hj. rewrite bit_unmark by (done || apply block_mod).
  by case_bool_decide.
Qed.

Section Rules.
Context {S : Type} `{BS : BlockStore S} {SL : StoreLaws S} (t : bool).
Implicit Types (s : fst S) (v : bview).

Lemma wpg_onblk {A} (m : M S A) (Q : A → fst S → Prop) s :
  wpg t m (λ a b, Q a (set_blk b s)) (blk s) → wpg t (onblk m) Q s.
Proof. exact (wpg_zoom t blk set_blk m Q s). Qed.

Lemma F_bread s v b d (Q : nat → fst S → Prop) :
  st_rel (blk s) v → v_blocks v !! b = Some d → v_free b v → v_room v →
  (∀ i B, v_held v !! i = None → st_rel B (v_hold i (b, d) v) → Q i (set_blk B s)) →
  wpg t (onblk (st_bread 1 b)) Q s.
Proof. intros. apply wpg_onblk. by eapply law_bread. Qed.

Lemma F_data s v i x (Q : block → fst S → Prop) :
  st_rel (blk s) v → v_held v !! i = Some x → Q x.2 s → wpg t (onblk (st_data i)) Q s.
Proof. intros. apply wpg_onblk. eapply law_data; eauto. by destruct s. Qed.

Lemma F_set s v i x d (Q : unit → fst S → Prop) :
  st_rel (blk s) v → v_held v !! i = Some x →
  (∀ B, st_rel B (v_hold i (x.1, d) v) → Q tt (set_blk B s)) → wpg t (onblk (st_set i d)) Q s.
Proof. intros. apply wpg_onblk. eapply law_set; eauto. Qed.

Lemma F_logw s v i x (Q : unit → fst S → Prop) :
  st_rel (blk s) v → v_held v !! i = Some x → is_Some (v_blocks v !! x.1) → (size (v_logged v) < v_cap v)%nat →
  (∀ B, st_rel B (v_write x.1 x.2 v) → Q tt (set_blk B s)) → wpg t (onblk (st_logw i)) Q s.
Proof. intros. apply wpg_onblk. eapply law_logw; eauto. Qed.

Lemma F_brelse s v i x (Q : unit → fst S → Prop) :
  st_rel (blk s) v → v_held v !! i = Some x → v_blocks v !! x.1 = Some x.2 →
  (∀ B, st_rel B (v_drop i v) → Q tt (set_blk B s)) → wpg t (onblk (st_brelse i)) Q s.
Proof. intros. apply wpg_onblk. eapply law_brelse; eauto. Qed.

(** ** Reading and updating one block *)

Lemma v_drop_hold i x v : v_held v !! i = None → v_drop i (v_hold i x v) = v.
Proof. intros Hi. destruct v. unfold v_drop, v_hold; cbn in *. by rewrite delete_insert_id. Qed.
Lemma v_drop_write i x b d v : v_held v !! i = None → v_drop i (v_write b d (v_hold i x v)) = v_write b d v.
Proof. intros Hi. destruct v. unfold v_drop, v_hold, v_write; cbn in *. by rewrite delete_insert_id. Qed.
Lemma v_hold_hold i x y v : v_hold i x (v_hold i y v) = v_hold i x v.
Proof. unfold v_hold; cbn. by rewrite insert_insert_eq. Qed.

(** [bread]; use the data; [brelse]. *)
Lemma F_read {A} s v b d (k : block → M (fst S) A) (Q : A → fst S → Prop) :
  st_rel (blk s) v → v_blocks v !! b = Some d → v_free b v → v_room v →
  (∀ B, st_rel B v → wpg t (k d) Q (set_blk B s)) →
  wpg t (bp ← onblk (st_bread 1 b); d ← onblk (st_data bp); onblk (st_brelse bp) ;; k d) Q s.
Proof.
  intros HR Hd Hf Hr HQ. apply wpg_bind. eapply F_bread; [done..|]. intros i B Hi HB.
  apply wpg_bind. eapply (F_data _ _ _ (b, d)); [exact HB|apply lookup_insert_eq|].
  apply wpg_bind. eapply (F_brelse _ _ _ (b, d)); [exact HB|apply lookup_insert_eq|done|]. intros B' HB'.
  rewrite v_drop_hold in HB' by done. by apply HQ.
Qed.

(** Write, log and release a held buffer. *)
Lemma F_write_last s v i b d d' (Q : unit → fst S → Prop) :
  st_rel (blk s) (v_hold i (b, d) v) → v_held v !! i = None → is_Some (v_blocks v !! b) → (size (v_logged v) < v_cap v)%nat →
  (∀ B, st_rel B (v_write b d' v) → Q tt (set_blk B s)) →
  wpg t (onblk (st_set i d') ;; onblk (st_logw i) ;; onblk (st_brelse i)) Q s.
Proof.
  intros HR Hi Hb Hc HQ. apply wpg_bind. eapply F_set; [exact HR|apply lookup_insert_eq|]. intros B HB.
  rewrite v_hold_hold in HB.
  apply wpg_bind. eapply F_logw; [exact HB|apply lookup_insert_eq|done|done|]. intros B2 HB2.
  eapply (F_brelse _ _ _ (b, d')); [exact HB2|apply lookup_insert_eq|apply lookup_insert_eq|]. intros B3 HB3.
  rewrite v_drop_write in HB3 by done. by apply HQ.
Qed.

Lemma F_write {A} s v i b d d' (k : M (fst S) A) (Q : A → fst S → Prop) :
  st_rel (blk s) (v_hold i (b, d) v) → v_held v !! i = None → is_Some (v_blocks v !! b) → (size (v_logged v) < v_cap v)%nat →
  (∀ B, st_rel B (v_write b d' v) → wpg t k Q (set_blk B s)) →
  wpg t (onblk (st_set i d') ;; onblk (st_logw i) ;; onblk (st_brelse i) ;; k) Q s.
Proof.
  intros HR Hi Hb Hc HQ. apply wpg_bind. eapply wpg_mono.
  { apply wpg_bind_inv. eapply (F_write_last s v i b d d' (λ _ s', wpg t k Q s')); done. }
  cbv beta. intros _ s1 H%wpg_bind_inv. apply wpg_bind. eapply wpg_mono; [exact H|]. cbv beta. intros _ s2 H2. by apply wpg_bind.
Qed.

Lemma F_bzero s v b (Q : unit → fst S → Prop) :
  st_rel (blk s) v → is_Some (v_blocks v !! b) → v_free b v → v_room v → (size (v_logged v) < v_cap v)%nat →
  (∀ B, st_rel B (v_write b (replicate 512 0) v) → Q tt (set_blk B s)) → wpg t (bzero 1 b) Q s.
Proof.
  intros HR [d Hd] Hf Hr Hc HQ. unfold bzero. rewrite memset_fills.
  apply wpg_bind. eapply F_bread; [done..|]. intros i B Hi HB.
  eapply (F_write_last _ v i b d); eauto.
Qed.
End Rules.

(** ** The allocator *)

(** Room for [n] more blocks in the cache and in the log. *)
Definition v_budget (n : nat) (v : bview) : Prop :=
  (size (v_held v) + size (v_logged v) + n ≤ NBUF)%nat ∧ (size (v_logged v) + n ≤ v_cap v)%nat.

Lemma budget_room n v : v_budget (S n) v → v_room v.
Proof. unfold v_budget, v_room. lia. Qed.
Lemma budget_cap n v : v_budget (S n) v → (size (v_logged v) < v_cap v)%nat.
Proof. unfold v_budget. lia. Qed.
Lemma budget_write n b d v : v_budget (S n) v → v_budget n (v_write b d v).
Proof.
  unfold v_budget, v_write; cbn [v_held v_logged v_cap]. pose proof (size_union_alt ({[b]} : gset Z) (v_logged v)) as E.
  rewrite size_singleton in E. assert (size (v_logged v ∖ {[b]}) ≤ size (v_logged v))%nat.
  { apply subseteq_size. apply subseteq_difference_l. done. }
  lia.
Qed.
Lemma budget_le n m v : (n ≤ m)%nat → v_budget m v → v_budget n v.
Proof. unfold v_budget. lia. Qed.
#[export] Hint Resolve budget_room budget_cap budget_write : kernel.

Lemma free_write b b' d v : v_free b v → v_free b (v_write b' d v).
Proof. done. Qed.
#[export] Hint Resolve free_write : kernel.

(** [b0] is the first free block. *)
Definition first_free (V : gmap Z block) (sb : superblock) (b0 : Z) : Prop :=
  0 ≤ b0 < sb_size sb ∧ alloc V sb b0 = false ∧ ∀ b, 0 ≤ b < b0 → alloc V sb b = true.
(** No bitmap block is held. *)
Definition bitmap_free (v : bview) (sb : superblock) : Prop := ∀ b, 0 ≤ b < sb_size sb → v_free (BBLOCK b sb) v.

Definition balloc_view (sb : superblock) (b0 : Z) (v : bview) : bview :=
  v_write b0 (replicate 512 0) (v_write (BBLOCK b0 sb) (mark (b0 mod BPB) (v_blocks v !!! BBLOCK b0 sb)) v).

Lemma bblock_run sb b k : b mod BPB = 0 → 0 ≤ k < BPB → BBLOCK (b + k) sb = BBLOCK b sb ∧ (b + k) mod BPB = k.
Proof.
  intros Hb Hk. unfold BBLOCK. pose proof (Z.div_mod b BPB ltac:(done)) as E. rewrite Hb, Z.add_0_r in E.
  set (q := b / BPB) in *. rewrite E. rewrite Z.mul_comm. split.
  - rewrite Z.div_add_l, (Z.div_small k) by done. lia.
  - by rewrite Z.add_comm, Z_mod_plus_full, Z.mod_small.
Qed.

Section Balloc.
Context {S : Type} `{BS : BlockStore S} {SL : StoreLaws S} (v : bview) (sb : superblock).
Context (Hok : bitmap_ok (v_blocks v) sb) (Hfree : bitmap_free v sb).
Implicit Types (s : fst S).

Lemma alloc_run b k d :
  0 ≤ b → b mod BPB = 0 → v_blocks v !! BBLOCK b sb = Some d → 0 ≤ k < BPB → alloc (v_blocks v) sb (b + k) = bit d k.
Proof.
  intros Hb Hm Hd Hk. unfold alloc. destruct (bblock_run sb b k Hm Hk) as [-> ->].
  by rewrite (lookup_total_correct _ _ _ Hd).
Qed.

Lemma bitmap_not_free b0 b : first_free (v_blocks v) sb b0 → 0 ≤ b < sb_size sb → b0 ≠ BBLOCK b sb.
Proof. intros (_ & Hf & _) Hb ->. by rewrite (bo_self _ _ Hok b Hb) in Hf. Qed.

Lemma F_balloc_scan t fuel : ∀ s b b0 (Q : Z → fst S → Prop),
  st_rel (blk s) v → fsb s = sb → v_budget 2 v → first_free (v_blocks v) sb b0 → v_free b0 v →
  0 ≤ b ≤ b0 → b mod BPB = 0 → (Z.to_nat ((b0 - b) / BPB) < fuel)%nat →
  (∀ B, st_rel B (balloc_view sb b0 v) → Q b0 (set_blk B s)) → wpg t (balloc_scan fuel 1 b) Q s.
Proof.
  induction fuel as [|fuel IH]; intros s b b0 Q HR Hsb Hbud Hff Hfb Hb Hm Hfu HQ; [lia|].
  pose proof Hff as (Hb0 & Hal & Hall). cbn [balloc_scan]. apply wpg_bind, wpg_gets. rewrite Hsb.
  rewrite (proj2 (Z.ltb_lt b (sb_size sb))) by lia.
  destruct (bo_map _ _ Hok b) as (d & Hd & Hld); [lia|].
  apply wpg_bind. eapply F_bread; [exact HR|exact Hd|apply Hfree; lia|eauto with kernel|]. intros i B Hi HB.
  apply wpg_bind. eapply (F_data t _ _ _ (BBLOCK b sb, d)); [exact HB|apply lookup_insert_eq|]. cbn [snd].
  pose proof (find_clear_spec (Z.to_nat BPB) d b (sb_size sb) 0 ltac:(lia) ltac:(lia)) as Hfc.
  destruct (find_clear _ _ _ _ _) as [k|].
  - destruct Hfc as (Hk & Hks & Hbit & Hbits). rewrite <- (alloc_run b k d) in Hbit by (done || lia).
    assert (b + k = b0) as E.
    { destruct (Z.lt_trichotomy (b + k) b0) as [Hlt|[?|Hgt]]; [|done|].
      - rewrite Hall in Hbit by lia. done.
      - specialize (Hbits (b0 - b) ltac:(lia)). rewrite <- (alloc_run b (b0 - b) d) in Hbits by (done || lia).
        replace (b + (b0 - b)) with b0 in Hbits by lia. congruence. }
    destruct (bblock_run sb b k Hm Hk) as [E1 E2]. rewrite E in *.
    apply (F_write t _ v _ (BBLOCK b sb) d); [done|done|eauto|eauto with kernel|]. intros B2 HB2.
    apply wpg_bind. eapply F_bzero; [exact HB2| |by apply free_write|eauto with kernel|eauto with kernel|].
    { cbn. rewrite lookup_insert_ne by (apply not_eq_sym, bitmap_not_free; [done|lia]). by apply (bo_data _ _ Hok). }
    intros B3 HB3. apply wpg_ret, HQ. unfold balloc_view. rewrite E1, E2, (lookup_total_correct _ _ _ Hd). exact HB3.
  - apply wpg_bind. eapply (F_brelse t _ _ _ (BBLOCK b sb, d)); [exact HB|apply lookup_insert_eq|done|]. intros B2 HB2.
    rewrite v_drop_hold in HB2 by done.
    assert (b + BPB ≤ b0) as Hge.
    { destruct (decide (b + BPB ≤ b0)); [done|]. exfalso.
      specialize (Hfc (b0 - b) ltac:(lia) ltac:(lia)). rewrite <- (alloc_run b (b0 - b) d) in Hfc by (done || lia).
      replace (b + (b0 - b)) with b0 in Hfc by lia. congruence. }
    apply IH with b0; try done; cbn [blk set_blk].
    + change BPB with 4096 in *. lia.
    + by rewrite Z.add_mod, Hm, Z.mod_same by done.
    + replace (b0 - (b + BPB)) with (b0 - b + (-1) * BPB) by lia. rewrite Z.div_add by done.
      pose proof (Z.div_le_lower_bound (b0 - b) BPB 1 ltac:(done) ltac:(lia)). lia.
Qed.

Lemma balloc_scan_full fuel : ∀ s b,
  st_rel (blk s) v → fsb s = sb → v_budget 2 v → (∀ b, 0 ≤ b < sb_size sb → alloc (v_blocks v) sb b = true) →
  0 ≤ b → b mod BPB = 0 → (Z.to_nat ((sb_size sb - b + BPB) / BPB) < fuel)%nat →
  balloc_scan fuel 1 b s = Panic "balloc: out of blocks".
Proof.
  induction fuel as [|fuel IH]; intros s b HR Hsb Hbud Hall Hb Hm Hfu; [lia|].
  cbn [balloc_scan]. apply bind_panic, wpg_gets. rewrite Hsb. destruct (b <? sb_size sb) eqn:Hlt; [|done].
  apply Z.ltb_lt in Hlt. destruct (bo_map _ _ Hok b) as (d & Hd & Hld); [lia|].
  apply bind_panic. eapply F_bread; [exact HR|exact Hd|apply Hfree; lia|eauto with kernel|]. intros i B Hi HB.
  apply bind_panic. eapply (F_data true _ _ _ (BBLOCK b sb, d)); [exact HB|apply lookup_insert_eq|]. cbn [snd].
  pose proof (find_clear_spec (Z.to_nat BPB) d b (sb_size sb) 0 ltac:(lia) ltac:(lia)) as Hfc.
  destruct (find_clear _ _ _ _ _) as [k|].
  - destruct Hfc as (Hk & Hks & Hbit & _). rewrite <- (alloc_run b k d) in Hbit by (done || lia).
    rewrite Hall in Hbit by lia. done.
  - apply bind_panic. eapply (F_brelse true _ _ _ (BBLOCK b sb, d)); [exact HB|apply lookup_insert_eq|done|]. intros B2 HB2.
    rewrite v_drop_hold in HB2 by done. apply IH; try done.
    + change BPB with 4096 in *. lia.
    + by rewrite Z.add_mod, Hm, Z.mod_same by done.
    + replace (sb_size sb - (b + BPB) + BPB) with (sb_size sb - b + BPB + (-1) * BPB) by lia. rewrite Z.div_add by done.
      pose proof (Z.div_le_lower_bound (sb_size sb - b + BPB) BPB 1 ltac:(done) ltac:(lia)). lia.
Qed.

Lemma balloc_fuel b0 : 0 ≤ b0 < sb_size sb → (Z.to_nat ((b0 - 0) / BPB) < Z.to_nat (sb_size sb / BPB) + 2)%nat.
Proof.
  intros Hb. rewrite Z.sub_0_r. pose proof (Z.div_le_mono b0 (sb_size sb) BPB ltac:(done) ltac:(lia)).
  pose proof (Z.div_pos b0 BPB). lia.
Qed.

Lemma F_balloc t s b0 (Q : Z → fst S → Prop) :
  st_rel (blk s) v → fsb s = sb → v_budget 2 v → first_free (v_blocks v) sb b0 → v_free b0 v →
  (∀ B, st_rel B (balloc_view sb b0 v) → Q b0 (set_blk B s)) → wpg t (balloc 1) Q s.
Proof.
  intros HR Hsb Hbud Hff Hfb HQ. unfold balloc. apply wpg_bind, wpg_gets. rewrite Hsb.
  pose proof Hff as (Hb0 & _). apply F_balloc_scan with b0; try done; [lia|by apply balloc_fuel].
Qed.

Lemma F_bfree t s b (Q : unit → fst S → Prop) :
  st_rel (blk s) v → fsb s = sb → v_budget 1 v → 0 ≤ b < sb_size sb → alloc (v_blocks v) sb b = true →
  (∀ B, st_rel B (v_write (BBLOCK b sb) (unmark (b mod BPB) (v_blocks v !!! BBLOCK b sb)) v) → Q tt (set_blk B s)) →
  wpg t (bfree 1 b) Q s.
Proof.
  intros HR Hsb Hbud Hb Hal HQ. unfold bfree. apply wpg_bind, wpg_gets. rewrite Hsb.
  destruct (bo_map _ _ Hok b Hb) as (d & Hd & Hld).
  apply wpg_bind. eapply F_bread; [exact HR|exact Hd|apply Hfree; lia|eauto with kernel|]. intros i B Hi HB.
  apply wpg_bind. eapply (F_data t _ _ _ (BBLOCK b sb, d)); [exact HB|apply lookup_insert_eq|]. cbn [snd].
  unfold alloc in Hal. rewrite (lookup_total_correct _ _ _ Hd) in *. rewrite bit_of_bit, Hal. cbn [negb].
  eapply (F_write_last t _ v i (BBLOCK b sb) d); [exact HB|done|eauto|eauto with kernel|exact HQ].
Qed.

(** C25. The allocator of disk blocks.  [balloc] returns the first block that
    the bitmap does not mark, marked and filled with zeros, and panics when
    every block is marked; [bfree] clears the mark of a marked block, and
    panics on another.  No other block's mark changes. *)
Theorem block_allocator_refines s :
  st_rel (blk s) v → fsb s = sb → v_budget 2 v →
  (∀ b0, first_free (v_blocks v) sb b0 → v_free b0 v →
   ∃ B v', balloc 1 s = Ok (b0, set_blk B s) ∧ st_rel B v' ∧ v_held v' = v_held v ∧
     v_blocks v' !! b0 = Some (replicate 512 0) ∧ alloc_at (v_blocks v) (v_blocks v') sb b0 true ∧
     ∀ b, b ≠ b0 → b ≠ BBLOCK b0 sb → v_blocks v' !! b = v_blocks v !! b) ∧
  ((∀ b, 0 ≤ b < sb_size sb → alloc (v_blocks v) sb b = true) → balloc 1 s = Panic "balloc: out of blocks") ∧
  (∀ b, 0 ≤ b < sb_size sb → alloc (v_blocks v) sb b = true →
   ∃ B v', bfree 1 b s = Ok (tt, set_blk B s) ∧ st_rel B v' ∧ v_held v' = v_held v ∧
     alloc_at (v_blocks v) (v_blocks v') sb b false ∧ ∀ b', b' ≠ BBLOCK b sb → v_blocks v' !! b' = v_blocks v !! b') ∧
  (∀ b, 0 ≤ b < sb_size sb → alloc (v_blocks v) sb b = false → bfree 1 b s = Panic "freeing free block").
Proof.
  intros HR Hsb Hbud. split_and!.
  - intros b0 Hff Hfb. destruct (wp_ok (balloc 1) (λ b s', b = b0 ∧ ∃ B, s' = set_blk B s ∧ st_rel B (balloc_view sb b0 v)) s)
      as (b & s' & E & -> & B & -> & HB); [apply F_balloc with b0; eauto|].
    pose proof Hff as (Hb0 & Hal & _). destruct (bo_map _ _ Hok b0 Hb0) as (d & Hd & Hl).
    pose proof (bitmap_not_free b0) as Hnb.
    exists B, (balloc_view sb b0 v). split_and!; [exact E|exact HB|done|apply lookup_insert_eq| |].
    + intros b Hb. unfold alloc, balloc_view; cbn [v_blocks v_write].
      rewrite lookup_total_insert_ne by (by apply Hnb). rewrite (lookup_total_correct _ _ _ Hd).
      by apply (alloc_mark _ _ b0 d); [lia| | |].
    + intros b H1 H2. cbn. by rewrite !lookup_insert_ne by done.
  - intros Hall. unfold balloc. apply bind_panic, wpg_gets. rewrite Hsb. apply balloc_scan_full; try done.
    rewrite Z.sub_0_r. change (sb_size sb + BPB) with (sb_size sb + 1 * BPB). rewrite Z.div_add by done. lia.
  - intros b Hb Hal. destruct (bo_map _ _ Hok b Hb) as (d & Hd & Hl).
    destruct (wp_ok (bfree 1 b) (λ _ s', ∃ B, s' = set_blk B s ∧
       st_rel B (v_write (BBLOCK b sb) (unmark (b mod BPB) (v_blocks v !!! BBLOCK b sb)) v)) s)
      as ([] & s' & E & B & -> & HB); [apply F_bfree; eauto; by eapply budget_le; [|exact Hbud]; lia|].
    eexists B, _. split_and!; [exact E|exact HB|done| |].
    + rewrite (lookup_total_correct _ _ _ Hd). apply alloc_unmark; [lia|done|done].
    + intros b' Hb'. cbn. by rewrite lookup_insert_ne.
  - intros b Hb Hal. destruct (bo_map _ _ Hok b Hb) as (d & Hd & Hl). unfold bfree.
    apply bind_panic, wpg_gets. rewrite Hsb.
    apply bind_panic. eapply F_bread; [exact HR|exact Hd|apply Hfree; lia|eauto with kernel|]. intros i B Hi HB.
    apply bind_panic. eapply (F_data true _ _ _ (BBLOCK b sb, d)); [exact HB|apply lookup_insert_eq|]. cbn [snd].
    unfold alloc in Hal. rewrite (lookup_total_correct _ _ _ Hd) in *. by rewrite bit_of_bit, Hal.
Qed.
End Balloc.
