(* ===== verification/FsDemo.v ===== *)
(** * A small disk

    Fourteen blocks: the boot block, the superblock, six log blocks, the
    inode block, the bitmap and four data blocks, of which one is free.
    Inode 1 is the root directory and inode 2 a file of 600 bytes. *)

From S2P Require Export FsBlocks.
Local Open Scope Z_scope.

Definition demo_sb : superblock := mkSb 14 4 8 6 2 8 9.
Definition enc_sb : block :=
  concat (le_split 4 <$> [14; 4; 8; 6; 2; 8; 9]) ++ replicate 484 0.

Definition demo_root : inode := mkInode 1 1 0 0 1 0 0 1 32 (10 :: replicate 12 0).
Definition demo_file : inode := mkInode 1 2 0 0 2 0 0 1 600 ([11; 12] ++ replicate 11 0).
Definition demo_inodes : block := dinode_store demo_file (dinode_store demo_root zero_block 64) 128.
Definition demo_bitmap : block := [255; 31] ++ replicate 510 0.
(** Entries ["."] and ["f"]. *)
Definition demo_dir : block :=
  (le_split 2 1 ++ [46] ++ replicate 13 0) ++ (le_split 2 2 ++ [102] ++ replicate 13 0) ++ replicate 480 0.

Definition demo_img_list : list (Z * block) :=
  [(0, zero_block); (1, enc_sb); (2, zero_block); (3, zero_block); (4, zero_block); (5, zero_block); (6, zero_block);
   (7, zero_block); (8, demo_inodes); (9, demo_bitmap); (10, demo_dir); (11, replicate 512 5); (12, replicate 512 6);
   (13, replicate 512 7)].
Definition fs_img : gmap Z block := list_to_map demo_img_list.
Definition fs_log : log := mkLog 2 6 1 0 1 0 (replicate 30 0).
Definition fs_view : bview := start_view (ac0 fs_img 14) fs_log.

Lemma fs_img_sized b : 0 ≤ b < 14 → is_Some (fs_img !! b).
Proof.
  intros Hb. assert (b ∈ demo_img_list.*1) as H%list_elem_of_fmap.
  { apply (elem_of_seqZ 0 14) in Hb. exact Hb. }
  destruct H as ([b' d] & -> & H). exists d. apply elem_of_list_to_map; [|done].
  apply (bool_decide_unpack _). vm_compute. exact I.
Qed.

(** The cache of this disk, just booted and in a transaction. *)
Lemma fs_booted : ∃ b, R b (ac0 fs_img 14) ∧ lst_rel (mkLst b fs_log) fs_view.
Proof.
  destruct (wp_ok binit (λ _ b, R b (ac0 fs_img 14)) (bboot fs_img 14 demo_ctx)) as ([] & b & _ & HR).
  { apply wp_binit; [done|exact fs_img_sized|done]. }
  exists b. split; [exact HR|]. apply lst_start; [exact HR|done| |done|done].
  split; cbn; try done.
Qed.

Lemma fs_view_lookup b d : fs_img !! b = Some d → (b < 2 ∨ 8 ≤ b) → 0 ≤ b < 14 → v_blocks fs_view !! b = Some d.
Proof. intros Hd Hb Hr. apply map_lookup_filter_Some. split; [exact Hd|]. cbn. lia. Qed.

Lemma fs_view_bitmap : v_blocks fs_view !! 9 = Some demo_bitmap.
Proof. apply fs_view_lookup; [vm_compute; reflexivity|lia|lia]. Qed.

Lemma fs_bblock b : 0 ≤ b < 14 → BBLOCK b demo_sb = 9.
Proof. intros Hb. unfold BBLOCK. rewrite Z.div_small by (change BPB with 4096; lia). done. Qed.

Lemma fs_alloc b : 0 ≤ b < 14 → alloc (v_blocks fs_view) demo_sb b = negb (b =? 13).
Proof.
  intros Hb. unfold alloc. rewrite fs_bblock, (lookup_total_correct _ _ _ fs_view_bitmap), Z.mod_small by (done || change BPB with 4096; lia).
  assert (Forall (λ b, bit demo_bitmap b = negb (b =? 13)) (seqZ 0 14)) as H by (apply (bool_decide_unpack _); vm_compute; exact I).
  rewrite Forall_forall in H. apply H, elem_of_seqZ. lia.
Qed.

Lemma fs_bitmap_ok : bitmap_ok (v_blocks fs_view) demo_sb.
Proof.
  split; cbn [sb_size demo_sb]; intros b Hb.
  - rewrite fs_bblock by done. exists demo_bitmap. split; [exact fs_view_bitmap|reflexivity].
  - by rewrite fs_bblock, fs_alloc.
  - rewrite fs_alloc by done. intros Hf. destruct (fs_img_sized b Hb) as [d Hd]. exists d. apply fs_view_lookup; [done|lia|done].
Qed.

Lemma fs_budget : v_budget 5 fs_view.
Proof. unfold v_budget. cbn [fs_view start_view v_held v_logged]. rewrite map_size_empty. split; vm_compute; lia. Qed.

Definition demo_fs (b : bst) : fst lst := mkFst (mkLst b fs_log) demo_ctx demo_sb (replicate NINODE demo_file) 0.

Lemma block_allocator_refines_witness :
  ∃ b B, balloc 1 (demo_fs b) = Ok (13, set_blk B (demo_fs b)).
Proof.
  destruct fs_booted as (b & _ & Hrel). exists b.
  edestruct (block_allocator_refines (S := lst) fs_view demo_sb fs_bitmap_ok) as (H & _).
  - intros b' _ i x Hi. cbn in Hi. rewrite lookup_empty in Hi. discriminate Hi.
  - instantiate (1 := demo_fs b). exact Hrel.
  - reflexivity.
  - eapply budget_le; [|exact fs_budget]. lia.
  - destruct (H 13) as (B & v' & E & _); [|by intros ? ? ?|by exists B].
    split_and!; [cbn; lia|cbn; lia|apply fs_alloc; lia|]. intros b' Hb'. rewrite fs_alloc by lia.
    apply negb_true_iff, Z.eqb_neq. lia.
Defined.
