(* ===== verification/FsFile.v ===== *)
(** * Reading and writing files

    The contents of an inode whose blocks are all allocated, as a function
    from offsets to bytes; [readi] returns a slice of it and [writei] replaces
    one. *)

From S2P Require Export FsDemo.
Local Open Scope Z_scope.

(** The block that holds block [bn] of a file, as [bmap] finds it. *)
Definition blk_addr (V : gmap Z block) (p : inode) (bn : Z) : Z :=
  if bn <? NDIRECT then iaddrs p !!! Z.to_nat bn
  else get32 (V !!! (iaddrs p !!! 12%nat)) (4 * Z.to_nat (bn - NDIRECT)).
Definition file_block (V : gmap Z block) (p : inode) (bn : Z) : block := V !!! blk_addr V p bn.
Definition file_byte (V : gmap Z block) (p : inode) (k : Z) : Z := file_block V p (k / BSIZE) !!! Z.to_nat (k mod BSIZE).
Definition file_slice (V : gmap Z block) (p : inode) (off n : Z) : bytes := file_byte V p <$> seqZ off n.

(** The first [lim] blocks of the file [p] are allocated. *)
Record file_ok (V : gmap Z block) (p : inode) (lim : Z) : Prop := {
  fo_dev : idev p = 1;
  fo_len : length (iaddrs p) = 13%nat;
  fo_lim : 0 ≤ lim ≤ MAXFILE;
  fo_map : ∀ bn, 0 ≤ bn < lim → blk_addr V p bn ≠ 0;
  fo_ind : NDIRECT < lim → iaddrs p !!! 12%nat ≠ 0 ∧ is_Some (V !! (iaddrs p !!! 12%nat));
  fo_data : ∀ bn, 0 ≤ bn < lim → ∃ d, V !! blk_addr V p bn = Some d ∧ length d = 512%nat
}.

(** The number of blocks that the bytes [off .. off+n-1] touch. *)
Definition turns (off n : Z) : nat := if n <=? 0 then 0 else Z.to_nat ((off + n - 1) / BSIZE - off / BSIZE) + 1.

(** A turn of the copying loops moves [chunk off n] bytes. *)
Definition chunk (off n : Z) : Z := Z.min n (BSIZE - off mod BSIZE).

Lemma chunk_pos off n : 0 < n → 0 < chunk off n ≤ n ∧ chunk off n ≤ BSIZE - off mod BSIZE.
Proof. intros Hn. unfold chunk. pose proof (Z.mod_pos_bound off BSIZE ltac:(done)). change BSIZE with 512 in *. lia. Qed.

Lemma chunk_block off n k : 0 ≤ k < chunk off n → (off + k) / BSIZE = off / BSIZE ∧ (off + k) mod BSIZE = off mod BSIZE + k.
Proof.
  unfold chunk. intros Hk. pose proof (Z.mod_pos_bound off BSIZE ltac:(done)) as Hm.
  pose proof (Z.div_mod off BSIZE ltac:(done)) as E. change BSIZE with 512 in *. set (q := off / 512) in *. set (r := off mod 512) in *.
  clearbody q r. subst off. rewrite Z.mul_comm, <- Z.add_assoc. split.
  - rewrite Z.div_add_l by lia. rewrite Z.div_small by lia. lia.
  - rewrite Z.add_comm, Z_mod_plus_full. apply Z.mod_small. lia.
Qed.

Lemma turns_step off n : 0 ≤ off → 0 < n → turns off n = S (turns (off + chunk off n) (n - chunk off n)).
Proof.
  intros Ho Hn. destruct (chunk_pos off n Hn) as [Hc1 Hc2]. unfold turns.
  rewrite (proj2 (Z.leb_gt n 0)) by lia. destruct (n - chunk off n <=? 0) eqn:E.
  - apply Z.leb_le in E. assert (chunk off n = n) as Ec by lia.
    destruct (chunk_block off n (n - 1)) as [Hd _]; [lia|]. replace (off + n - 1) with (off + (n - 1)) by lia. rewrite Hd. lia.
  - apply Z.leb_gt in E. replace (off + chunk off n + (n - chunk off n) - 1) with (off + n - 1) by lia.
    assert ((off + chunk off n) / BSIZE = off / BSIZE + 1) as ->.
    { unfold chunk in *. pose proof (Z.div_mod off BSIZE ltac:(done)) as Em.
      rewrite Z.min_r in * by lia. replace (off + (BSIZE - off mod BSIZE)) with (off / BSIZE * BSIZE + 1 * BSIZE) by lia.
      rewrite Z.div_add by done. by rewrite Z.div_mul. }
    assert (off / BSIZE + 1 ≤ (off + n - 1) / BSIZE); [|lia].
    apply Z.div_le_lower_bound; [done|]. unfold chunk in *. pose proof (Z.div_mod off BSIZE ltac:(done)). lia.
Qed.

Lemma turns_fuel off n : 0 ≤ off → 0 ≤ n → (turns off n < io_fuel n)%nat.
Proof.
  intros Ho Hn. unfold turns, io_fuel. destruct (n <=? 0) eqn:E; [lia|]. apply Z.leb_gt in E.
  assert ((off + n - 1) / BSIZE - off / BSIZE ≤ n / BSIZE + 1); [|pose proof (Z.div_pos n BSIZE ltac:(lia) ltac:(done)); lia].
  pose proof (Z.div_mod off BSIZE ltac:(done)). pose proof (Z.div_mod n BSIZE ltac:(done)).
  pose proof (Z.mod_pos_bound off BSIZE ltac:(done)). pose proof (Z.mod_pos_bound n BSIZE ltac:(done)).
  assert ((off + n - 1) / BSIZE < off / BSIZE + n / BSIZE + 2); [|lia].
  apply Z.div_lt_upper_bound; [done|]. lia.
Qed.

(** A chunk is part of one block. *)
Lemma file_slice_chunk V p off n d :
  V !! blk_addr V p (off / BSIZE) = Some d → length d = 512%nat → 0 ≤ off → 0 < n →
  take (Z.to_nat (chunk off n)) (drop (Z.to_nat (off mod BSIZE)) d) = file_slice V p off (chunk off n).
Proof.
  intros Hd Hl Ho Hn. destruct (chunk_pos off n Hn) as [Hc1 Hc2]. pose proof (Z.mod_pos_bound off BSIZE ltac:(done)) as Hm.
  apply list_eq. intros i. unfold file_slice. rewrite list_lookup_fmap. destruct (decide (i < Z.to_nat (chunk off n))%nat) as [Hi|Hi].
  - rewrite lookup_take_lt, lookup_drop by done. rewrite lookup_seqZ_lt by lia. cbn.
    destruct (chunk_block off n (Z.of_nat i)) as [E1 E2]; [lia|]. unfold file_byte, file_block.
    rewrite E1, E2, (lookup_total_correct _ _ _ Hd). change BSIZE with 512 in *.
    rewrite list_lookup_lookup_total_lt by lia. repeat f_equal. lia.
  - rewrite lookup_take_ge by lia. by rewrite lookup_seqZ_ge by lia.
Qed.

Lemma file_slice_app V p off m n : 0 ≤ m → 0 ≤ n → file_slice V p off m ++ file_slice V p (off + m) n = file_slice V p off (m + n).
Proof. intros. unfold file_slice. by rewrite <- fmap_app, seqZ_app. Qed.

Section File.
Context {S : Type} `{BS : BlockStore S} {SL : StoreLaws S} {DV : DevSw S}.
Implicit Types (s : fst S).

Lemma F_ino t s i p (Q : inode → fst S → Prop) : icache s !! i = Some p → Q p s → wpg t (ino i) Q s.
Proof. intros. by eapply wpg_deref. Qed.

Lemma F_bmap t s v ip p lim bn (Q : Z → fst S → Prop) :
  st_rel (blk s) v → v_held v = ∅ → v_room v → icache s !! ip = Some p → file_ok (v_blocks v) p lim → 0 ≤ bn < lim →
  (∀ B, st_rel B v → Q (blk_addr (v_blocks v) p bn) (set_blk B s)) → wpg t (bmap ip bn) Q s.
Proof.
  intros HR Hh Hroom Hp Hok Hbn HQ. pose proof (fo_map _ _ _ Hok bn Hbn) as Hnz. unfold bmap, blk_addr in *.
  pose proof (fo_len _ _ _ Hok) as Hlen. pose proof (fo_lim _ _ _ Hok) as Hlim.
  change NDIRECT with 12 in *. change MAXFILE with 140 in *. destruct (bn <? 12) eqn:E.
  - apply Z.ltb_lt in E. apply wpg_bind. eapply F_ino; [done|]. apply wpg_bind.
    eapply wpg_deref; [apply list_lookup_lookup_total_lt; lia|].
    rewrite (proj2 (Z.eqb_neq _ 0)) by done. apply wpg_ret. specialize (HQ (blk s) HR). by destruct s.
  - apply Z.ltb_ge in E. change NINDIRECT with 128. rewrite (proj2 (Z.ltb_lt (bn - 12) 128)) by lia.
    destruct (fo_ind _ _ _ Hok) as [Hi [d Hd]]; [change NDIRECT with 12; lia|].
    apply wpg_bind. eapply F_ino; [done|]. apply wpg_bind.
    eapply wpg_deref; [apply list_lookup_lookup_total_lt; change (Z.to_nat 12) with 12%nat; lia|]. change (Z.to_nat 12) with 12%nat.
    rewrite (proj2 (Z.eqb_neq _ 0)) by done. apply wpg_bind, wpg_ret. rewrite (fo_dev _ _ _ Hok).
    apply wpg_bind. eapply F_bread; [exact HR|exact Hd| |done|]. { intros i x. by rewrite Hh. }
    intros i B Hi' HB. apply wpg_bind. eapply (F_data t _ _ _ (_, d)); [exact HB|apply lookup_insert_eq|]. cbn [snd].
    rewrite (lookup_total_correct _ _ _ Hd) in *. rewrite (proj2 (Z.eqb_neq _ 0)) by done. apply wpg_bind, wpg_ret.
    apply wpg_bind. eapply (F_brelse t _ _ _ (_, d)); [exact HB|apply lookup_insert_eq|done|]. intros B2 HB2.
    rewrite v_drop_hold in HB2 by done. by apply wpg_ret, HQ.
Qed.

Section Read.
Context (t : bool) (v : bview) (ip : nat) (p : inode) (lim : Z).
Context (Hheld : v_held v = ∅) (Hroom : v_room v) (Hok : file_ok (v_blocks v) p lim).
Let V := v_blocks v.

Lemma lim_small : lim * BSIZE ≤ 71680.
Proof. pose proof (fo_lim _ _ _ Hok) as H. change MAXFILE with 140 in H. change BSIZE with 512. lia. Qed.

Lemma off_mapped off n : 0 ≤ off → 0 < n → off + n ≤ lim * BSIZE → 0 ≤ off / BSIZE < lim.
Proof. intros. split; [by apply Z.div_pos|]. apply Z.div_lt_upper_bound; [done|]. lia. Qed.

Lemma F_readi_loop fuel : ∀ s tot n off (Q : bytes → fst S → Prop),
  st_rel (blk s) v → icache s !! ip = Some p → 0 ≤ tot ≤ n → n ≤ lim * BSIZE → 0 ≤ off → off + (n - tot) ≤ lim * BSIZE →
  (turns off (n - tot) < fuel)%nat →
  (∀ B, st_rel B v → Q (file_slice V p off (n - tot)) (set_blk B s)) → wpg t (readi_loop fuel ip tot n off) Q s.
Proof.
  induction fuel as [|fuel IH]; intros s tot n off Q HR Hp Htot Hn Hoff Hmax Hfu HQ; [lia|]. pose proof lim_small as Hs.
  cbn [readi_loop]. destruct (tot <? n) eqn:E.
  - apply Z.ltb_lt in E. fold (chunk off (n - tot)). destruct (chunk_pos off (n - tot)) as [Hc1 Hc2]; [lia|].
    pose proof (off_mapped off (n - tot) Hoff ltac:(lia) Hmax) as Hbn. destruct (fo_data _ _ _ Hok _ Hbn) as (d & Hd & Hl).
    apply wpg_bind. eapply F_bmap; [exact HR|done|done|done|exact Hok|exact Hbn|]. intros B HB.
    apply wpg_bind. eapply F_ino; [done|]. rewrite (fo_dev _ _ _ Hok).
    eapply F_read; [exact HB|exact Hd| |done|]. { intros i x. by rewrite Hheld. }
    intros B2 HB2. rewrite turns_step in Hfu by lia. rewrite !u32_id by lia.
    apply wpg_bind. apply IH; [exact HB2|done|lia|done|lia|lia| |].
    { replace (n - (tot + chunk off (n - tot))) with (n - tot - chunk off (n - tot)) by lia. lia. }
    intros B3 HB3. apply wpg_ret. rewrite (file_slice_chunk V p off (n - tot) d) by (done || lia).
    rewrite file_slice_app by lia. replace (chunk off (n - tot) + (n - (tot + chunk off (n - tot)))) with (n - tot) by lia.
    by apply HQ.
  - apply Z.ltb_ge in E. replace (n - tot) with 0 in * by lia. apply wpg_ret. specialize (HQ (blk s) HR). by destruct s.
Qed.

(** The number of bytes of the file from [off] on, at most [n]. *)
Definition read_len (off n : Z) : Z := Z.min n (isize p - off).

Lemma F_readi s off n (Q : Z * bytes → fst S → Prop) :
  st_rel (blk s) v → icache s !! ip = Some p → itype p ≠ T_DEV → 0 ≤ isize p ≤ lim * BSIZE →
  0 ≤ off ≤ isize p → 0 ≤ n → off + n < 2 ^ 32 →
  (∀ B, st_rel B v → Q (read_len off n, file_slice V p off (read_len off n)) (set_blk B s)) → wpg t (readi ip off n) Q s.
Proof.
  intros HR Hp Ht Hsz Hoff Hn Hmax HQ. pose proof lim_small as Hs. unfold readi.
  apply wpg_bind. eapply F_ino; [done|]. rewrite (proj2 (Z.eqb_neq _ _)) by done. rewrite u32_id by lia.
  replace ((off >? isize p) || (off + n <? off)) with false by (symmetry; apply orb_false_iff; lia).
  assert ((if off + n >? isize p then u32 (isize p - off) else n) = read_len off n) as ->.
  { unfold read_len. destruct (off + n >? isize p) eqn:E; [rewrite u32_id|]; lia. }
  assert (0 ≤ read_len off n ≤ isize p - off) as Hrl by (unfold read_len; lia).
  apply wpg_bind. apply F_readi_loop; [done|done|lia|lia|lia|lia| |].
  - rewrite Z.sub_0_r. apply turns_fuel; lia.
  - intros B HB. apply wpg_ret. rewrite i32_id by lia. rewrite Z.sub_0_r. by apply HQ.
Qed.
End Read.
End File.
