(* ===== verification/FsWrite.v ===== *)
(** * Writing files, and reading them back *)

From S2P Require Export FsFile.
Local Open Scope Z_scope.

(** No block of the file is used twice, nor as its indirect block. *)
Record file_sep (V : gmap Z block) (p : inode) (lim : Z) : Prop := {
  fp_inj : ∀ bn bn', 0 ≤ bn < lim → 0 ≤ bn' < lim → blk_addr V p bn = blk_addr V p bn' → bn = bn';
  fp_ind : ∀ bn, NDIRECT < lim → 0 ≤ bn < lim → blk_addr V p bn ≠ iaddrs p !!! 12%nat
}.

(** [V'] is [V] with the bytes of the file from [off] on replaced by [src]. *)
Record written (V V' : gmap Z block) (p : inode) (lim off : Z) (src : bytes) : Prop := {
  wr_addr : ∀ bn, 0 ≤ bn < lim → blk_addr V' p bn = blk_addr V p bn;
  wr_byte : ∀ k, 0 ≤ k < lim * BSIZE →
    file_byte V' p k = if bool_decide (off ≤ k < off + Z.of_nat (length src)) then src !!! Z.to_nat (k - off) else file_byte V p k;
  wr_other : ∀ a, (∀ bn, 0 ≤ bn < lim → a ≠ blk_addr V p bn) → V' !! a = V !! a;
  wr_some : ∀ a d, V !! a = Some d → length d = 512%nat → ∃ d', V' !! a = Some d' ∧ length d' = 512%nat
}.

Lemma written_file_ok V V' p lim off src :
  written V V' p lim off src → file_ok V p lim → file_sep V p lim → file_ok V' p lim ∧ file_sep V' p lim.
Proof.
  intros [Ha Hb Ho Hs] [H1 H2 H3 H4 H5 H6] [Hi Hd]. split; split; try done.
  - intros bn Hbn. rewrite Ha by done. by apply H4.
  - intros Hlim. destruct (H5 Hlim) as [Hnz Hsome]. split; [done|]. rewrite Ho; [done|].
    intros bn Hbn E. by apply (Hd bn).
  - intros bn Hbn. rewrite Ha by done. destruct (H6 bn Hbn) as (d & Hd' & Hl). eauto.
  - intros bn bn' Hbn Hbn'. rewrite !Ha by done. by apply Hi.
  - intros bn Hlim Hbn. rewrite Ha by done. by apply Hd.
Qed.

Lemma written_refl V p lim off : written V V p lim off [].
Proof. split; eauto. intros k Hk. rewrite bool_decide_false; [done|]. cbn. lia. Qed.

Lemma written_trans V1 V2 V3 p lim off src1 src2 :
  0 ≤ off → written V1 V2 p lim off src1 → written V2 V3 p lim (off + Z.of_nat (length src1)) src2 →
  written V1 V3 p lim off (src1 ++ src2).
Proof.
  intros Hoff [A1 B1 O1 S1] [A2 B2 O2 S2]. split.
  - intros bn Hbn. rewrite A2 by done. by apply A1.
  - intros k Hk. rewrite B2, B1, length_app by done. repeat case_bool_decide; try lia.
    + rewrite lookup_total_app_r by lia. f_equal. lia.
    + by rewrite lookup_total_app_l by lia.
  - intros a Ha. rewrite O2, O1; [done|done|]. intros bn Hbn. rewrite A1 by done. by apply Ha.
  - intros a d Hd Hl. destruct (S1 a d Hd Hl) as (d' & ? & ?). eauto.
Qed.

(** One turn of the loop. *)
Lemma written_chunk V p lim off n d src :
  file_ok V p lim → file_sep V p lim → 0 ≤ off → 0 < n → off + n ≤ lim * BSIZE →
  V !! blk_addr V p (off / BSIZE) = Some d → length d = 512%nat → Z.of_nat (length src) = chunk off n →
  written V (<[blk_addr V p (off / BSIZE) := splice d (Z.to_nat (off mod BSIZE)) src]> V) p lim off src.
Proof.
  intros Hok [Hi Hd] Hoff Hn Hmax Hdd Hld Hls. pose proof (off_mapped lim off n Hoff Hn Hmax) as Hbn.
  destruct (chunk_pos off n Hn) as [Hc1 Hc2]. pose proof (Z.mod_pos_bound off BSIZE ltac:(done)) as Hm.
  set (a := blk_addr V p (off / BSIZE)) in *. set (d' := splice d _ src).
  assert (∀ bn, 0 ≤ bn < lim → blk_addr (<[a := d']> V) p bn = blk_addr V p bn) as Ha.
  { intros bn Hbn'. unfold blk_addr. destruct (bn <? NDIRECT) eqn:E; [done|]. apply Z.ltb_ge in E.
    rewrite lookup_total_insert_ne; [done|]. apply Hd; [lia|done]. }
  split; [exact Ha| | |].
  - intros k Hk. unfold file_byte, file_block. assert (0 ≤ k / BSIZE < lim) as Hkb.
    { split; [apply Z.div_pos; [lia|done]|]. apply Z.div_lt_upper_bound; [done|]. lia. }
    rewrite Ha by done. destruct (decide (k / BSIZE = off / BSIZE)) as [E|E].
    + rewrite E. fold a. rewrite lookup_total_insert_eq. rewrite (lookup_total_correct _ _ _ Hdd).
      pose proof (Z.div_mod k BSIZE ltac:(done)) as Ek. pose proof (Z.div_mod off BSIZE ltac:(done)) as Eo.
      pose proof (Z.mod_pos_bound k BSIZE ltac:(done)) as Hkm. unfold d', splice. change BSIZE with 512 in *.
      rewrite !list_lookup_total_alt. f_equal. case_bool_decide as Hin.
      * rewrite list_lookup_inserts by lia. do 2 f_equal. lia.
      * destruct (decide (k < off)); [by rewrite list_lookup_inserts_lt by lia|by rewrite list_lookup_inserts_ge by lia].
    + rewrite lookup_total_insert_ne by (intros E'; apply E; symmetry; by apply Hi).
      rewrite bool_decide_false; [done|]. intros Hin. destruct (chunk_block off n (k - off)) as [E1 _]; [lia|].
      replace (off + (k - off)) with k in E1 by lia. done.
  - intros b Hb. rewrite lookup_insert_ne; [done|]. apply not_eq_sym. by apply Hb.
  - intros b x Hx Hlx. destruct (decide (b = a)) as [->|].
    + exists d'. rewrite lookup_insert_eq. split; [done|]. unfold d'. by rewrite splice_length.
    + exists x. by rewrite lookup_insert_ne.
Qed.

Section Write.
Context {S : Type} `{BS : BlockStore S} {SL : StoreLaws S} {DV : DevSw S} (t : bool).
Implicit Types (s : fst S).

Lemma F_writei_loop ip p lim fuel : ∀ s v tot n off src (Q : Z → fst S → Prop),
  st_rel (blk s) v → v_held v = ∅ → icache s !! ip = Some p → file_ok (v_blocks v) p lim → file_sep (v_blocks v) p lim →
  0 ≤ tot ≤ n → n ≤ lim * BSIZE → 0 ≤ off → off + (n - tot) ≤ lim * BSIZE → Z.of_nat (length src) = n - tot →
  (turns off (n - tot) < fuel)%nat → ∀ k, v_budget (turns off (n - tot) + Datatypes.S k) v →
  (∀ B v', st_rel B v' → v_held v' = ∅ → v_budget (Datatypes.S k) v' → written (v_blocks v) (v_blocks v') p lim off src →
     Q (off + (n - tot)) (set_blk B s)) →
  wpg t (writei_loop fuel ip src tot n off) Q s.
Proof.
  induction fuel as [|fuel IH]; intros s v tot n off src Q HR Hh Hp Hok Hsep Htot Hn Hoff Hmax Hsrc Hfu k Hbud HQ; [lia|].
  pose proof (lim_small v p lim Hok) as Hs. cbn [writei_loop]. destruct (tot <? n) eqn:E.
  - apply Z.ltb_lt in E. fold (chunk off (n - tot)). destruct (chunk_pos off (n - tot)) as [Hc1 Hc2]; [lia|].
    pose proof (off_mapped lim off (n - tot) Hoff ltac:(lia) Hmax) as Hbn. destruct (fo_data _ _ _ Hok _ Hbn) as (d & Hd & Hl).
    rewrite turns_step in Hfu, Hbud by lia. set (m := chunk off (n - tot)) in *.
    pose proof (Hbud : v_budget (Datatypes.S (turns (off + m) (n - tot - m) + Datatypes.S k)) v) as Hbud1.
    apply wpg_bind. eapply F_bmap; [exact HR|done|eauto with kernel|done|exact Hok|exact Hbn|]. intros B HB.
    apply wpg_bind. eapply F_ino; [done|]. rewrite (fo_dev _ _ _ Hok).
    apply wpg_bind. eapply F_bread; [exact HB|exact Hd| |eauto with kernel|]. { intros i x. by rewrite Hh. }
    intros i B2 Hi HB2.
    apply wpg_bind. eapply (F_data t _ _ _ (_, d)); [exact HB2|apply lookup_insert_eq|]. cbn [snd].
    assert (Z.of_nat (length (take (Z.to_nat m) src)) = m) as Hlt by (rewrite length_take; lia).
    apply (F_write t _ v _ (blk_addr (v_blocks v) p (off / BSIZE)) d); [exact HB2|done|eauto|eauto with kernel|]. intros B3 HB3.
    set (v' := v_write _ _ v) in *. rewrite !u32_id by lia.
    assert (written (v_blocks v) (v_blocks v') p lim off (take (Z.to_nat m) src)) as Hw.
    { apply (written_chunk _ p lim off (n - tot) d); try done; lia. }
    destruct (written_file_ok _ _ _ _ _ _ Hw Hok Hsep) as [Hok' Hsep'].
    apply IH with v' k; try done; try lia.
    + rewrite length_drop. lia.
    + replace (n - (tot + m)) with (n - tot - m) by lia. lia.
    + replace (n - (tot + m)) with (n - tot - m) by lia. by apply budget_write.
    + intros B4 v4 HR4 Hh4 Hb4 Hw4. replace (off + m + (n - (tot + m))) with (off + (n - tot)) by lia.
      apply (HQ _ v4); try done. rewrite <- (take_drop (Z.to_nat m) src). eapply written_trans; [lia|exact Hw|].
      by rewrite Hlt.
  - apply Z.ltb_ge in E. destruct src as [|c src]; [|cbn in Hsrc; lia].
    replace (n - tot) with 0 in * by lia. apply wpg_ret. specialize (HQ (blk s) v HR Hh). rewrite Z.add_0_r in HQ.
    destruct s. apply HQ; [|apply written_refl]. eapply budget_le; [|exact Hbud]. lia.
Qed.

Lemma F_iupdate s v ip p d (Q : unit → fst S → Prop) :
  st_rel (blk s) v → v_held v = ∅ → v_budget 1 v → icache s !! ip = Some p → idev p = 1 →
  v_blocks v !! IBLOCK (inum p) (fsb s) = Some d →
  (∀ B, st_rel B (v_write (IBLOCK (inum p) (fsb s)) (dinode_store p d (dinode_at (inum p))) v) → Q tt (set_blk B s)) →
  wpg t (iupdate ip) Q s.
Proof.
  intros HR Hh Hb Hp Hdev Hd HQ. unfold iupdate. apply wpg_bind. eapply F_ino; [done|]. apply wpg_bind, wpg_gets.
  rewrite Hdev. apply wpg_bind. eapply F_bread; [exact HR|exact Hd| |eauto with kernel|]. { intros i x. by rewrite Hh. }
  intros i B Hi HB. apply wpg_bind. eapply (F_data t _ _ _ (_, d)); [exact HB|apply lookup_insert_eq|]. cbn [snd].
  eapply (F_write_last t _ v i _ d); [exact HB|done|eauto|eauto with kernel|exact HQ].
Qed.

(** The inode after a write that ends at [e]. *)
Definition grown (e : Z) (p : inode) : inode := if e >? isize p then set_isize e p else p.

Lemma ino_set_ok s i p f (Q : unit → fst S → Prop) :
  icache s !! i = Some p → Q tt (set_icache (<[i := f p]> (icache s)) s) → wpg t (ino_set i f) Q s.
Proof. intros Hp HQ. apply wpg_bind. eapply wpg_deref; [exact Hp|]. by apply (wpg_modify t). Qed.

Lemma F_writei s v ip p lim off src d (Q : Z → fst S → Prop) :
  let n := Z.of_nat (length src) in
  st_rel (blk s) v → v_held v = ∅ → icache s !! ip = Some p → itype p ≠ T_DEV → file_ok (v_blocks v) p lim → file_sep (v_blocks v) p lim →
  0 ≤ off ≤ isize p → off + n ≤ lim * BSIZE → v_budget (turns off n + 2) v →
  v_blocks v !! IBLOCK (inum p) (fsb s) = Some d → (∀ bn, 0 ≤ bn < lim → IBLOCK (inum p) (fsb s) ≠ blk_addr (v_blocks v) p bn) →
  (NDIRECT < lim → IBLOCK (inum p) (fsb s) ≠ iaddrs p !!! 12%nat) →
  (∀ B v', st_rel B v' → v_held v' = ∅ → (size (v_held v') + size (v_logged v') < NBUF)%nat → file_ok (v_blocks v') p lim →
     (∀ k, 0 ≤ k < lim * BSIZE → file_byte (v_blocks v') p k =
        if bool_decide (off ≤ k < off + n) then src !!! Z.to_nat (k - off) else file_byte (v_blocks v) p k) →
     Q n (set_icache (<[ip := grown (off + n) p]> (icache s)) (set_blk B s))) →
  wpg t (writei ip src off n) Q s.
Proof.
  intros n HR Hh Hp Hty Hok Hsep Hoff Hmax Hbud Hd Hnb Hni HQ. pose proof (lim_small v p lim Hok) as Hs.
  unfold writei. apply wpg_bind. eapply F_ino; [done|]. rewrite (proj2 (Z.eqb_neq _ _)) by done. rewrite u32_id by lia.
  replace ((off >? isize p) || (off + n <? off)) with false by (symmetry; apply orb_false_iff; lia).
  change (MAXFILE * BSIZE) with 71680. replace (off + n >? 71680) with false by lia.
  apply wpg_bind. apply F_writei_loop with p lim v 1%nat; try done; try lia; rewrite ?Z.sub_0_r; try done.
  { apply turns_fuel; lia. }
  intros B v' HR' Hh' Hb' Hw. destruct (written_file_ok _ _ _ _ _ _ Hw Hok Hsep) as [Hok' Hsep'].
  pose proof (wr_byte _ _ _ _ _ _ Hw) as Hbytes. apply wpg_bind. eapply F_ino; [done|].
  destruct ((n >? 0) && (off + n >? isize p)) eqn:E.
  - apply wpg_bind, wpg_when_true; [done|]. assert (off + n >? isize p = true) as Eg by lia.
    apply wpg_bind. eapply ino_set_ok; [exact Hp|].
    eapply (F_iupdate _ v' ip (set_isize (off + n) p) d); [exact HR'|done|by eapply budget_le; [|exact Hb']; lia| | | |].
    { cbn. apply list_lookup_insert_eq. by eapply lookup_lt_Some. }
    { apply (fo_dev _ _ _ Hok). }
    { cbn. rewrite (wr_other _ _ _ _ _ _ Hw); [exact Hd|exact Hnb]. }
    intros B2 HB2. apply wpg_ret. rewrite i32_id by lia.
    cbn [inum set_isize set_icache fsb set_blk] in HB2. set (nd := dinode_store _ _ _) in HB2. clearbody nd.
    assert (∀ bn, 0 ≤ bn < lim → blk_addr (v_blocks (v_write (IBLOCK (inum p) (fsb s)) nd v')) p bn = blk_addr (v_blocks v') p bn) as Ha.
    { intros bn Hbn. unfold blk_addr; cbn [v_blocks v_write]. destruct (bn <? NDIRECT) eqn:En; [done|].
      apply Z.ltb_ge in En. rewrite lookup_total_insert_ne; [done|]. apply Hni. lia. }
    assert (∀ bn, 0 ≤ bn < lim → IBLOCK (inum p) (fsb s) ≠ blk_addr (v_blocks v') p bn) as Hnb'.
    { intros bn Hbn. rewrite (wr_addr _ _ _ _ _ _ Hw) by done. by apply Hnb. }
    specialize (HQ B2 _ HB2). unfold grown in HQ. rewrite Eg in HQ. apply HQ.
    + exact Hh'.
    + exact (budget_room 0 _ (budget_write 1 _ _ _ Hb')).
    + destruct Hok' as [H1 H2 H3 H4 H5 H6]. split; try done.
      * intros bn Hbn. rewrite Ha by done. by apply H4.
      * intros Hl. cbn. rewrite lookup_insert_ne by (by apply Hni). by apply H5.
      * intros bn Hbn. rewrite Ha by done. cbn. rewrite lookup_insert_ne by (by apply Hnb'). by apply H6.
    + intros k Hk. rewrite <- Hbytes by done. unfold file_byte, file_block.
      assert (0 ≤ k / BSIZE < lim) as Hkb.
      { split; [apply Z.div_pos; [lia|done]|]. apply Z.div_lt_upper_bound; [done|]. lia. }
      rewrite Ha by done. cbn. by rewrite lookup_total_insert_ne by (by apply Hnb').
  - apply wpg_bind, wpg_when_false; [done|]. apply wpg_ret. rewrite i32_id by lia.
    specialize (HQ B v' HR' Hh' (budget_room _ _ Hb') Hok' Hbytes).
    assert (grown (off + n) p = p) as Eg by (unfold grown; destruct (off + n >? isize p) eqn:Eg; [exfalso; lia|done]).
    rewrite Eg, list_insert_id in HQ by done. by destruct s.
Qed.
End Write.

Section Props.
Context {S : Type} `{BS : BlockStore S} {SL : StoreLaws S} {DV : DevSw S}.
Implicit Types (s : fst S).

(** Reading a file.  For an inode that is not a device and whose blocks
    are allocated, [readi] at an offset within the file returns the bytes of
    the file from there on, at most [n] and at most to the end of the file, and
    changes no block; an offset past the end, or a range that wraps around
    2^32, is an error. *)
Theorem readi_reads s v ip p lim off n :
  st_rel (blk s) v → v_held v = ∅ → v_room v → icache s !! ip = Some p → itype p ≠ T_DEV →
  file_ok (v_blocks v) p lim → 0 ≤ isize p ≤ lim * BSIZE → 0 ≤ off < 2 ^ 32 → 0 ≤ n < 2 ^ 32 →
  (off ≤ isize p → off + n < 2 ^ 32 →
   ∃ B, readi ip off n s = Ok ((read_len p off n, file_slice (v_blocks v) p off (read_len p off n)), set_blk B s) ∧ st_rel B v) ∧
  (isize p < off ∨ 2 ^ 32 ≤ off + n → readi ip off n s = Ok ((-1, []), s)).
Proof.
  intros HR Hh Hroom Hp Hty Hok Hsz Hoff Hn. split.
  - intros Hle Hmax. destruct (wp_ok (readi ip off n) (λ r s', r = (read_len p off n, file_slice (v_blocks v) p off (read_len p off n)) ∧
      ∃ B, s' = set_blk B s ∧ st_rel B v) s) as (r & s' & E & -> & B & -> & HB); [|eauto].
    eapply F_readi; eauto; lia.
  - intros Hbad. unfold readi. erewrite bind_ok; [|unfold ino, deref; by rewrite Hp].
    rewrite (proj2 (Z.eqb_neq _ _)) by done.
    assert ((off >? isize p) || (u32 (off + n) <? off) = true) as ->; [|done].
    apply orb_true_iff. destruct Hbad; [left; lia|right]. unfold u32. apply Z.ltb_lt.
    assert ((off + n) mod 2 ^ 32 = off + n - 2 ^ 32) as -> by (symmetry; apply (Z.mod_unique _ _ 1); lia). lia.
Qed.

(** C24. What is written is read back.  For a file whose blocks are
    allocated up to the end of the written range, [writei] returns the number
    of bytes, the size grows to the end of the range if that is beyond it,
    [readi] of the range returns the bytes written, and every other byte of the
    file is as before. *)
Theorem writei_readi_roundtrip s v ip p lim off src :
  let n := Z.of_nat (length src) in
  st_rel (blk s) v → v_held v = ∅ → icache s !! ip = Some p → itype p ≠ T_DEV → file_ok (v_blocks v) p lim → file_sep (v_blocks v) p lim →
  0 ≤ off ≤ isize p → off + n ≤ lim * BSIZE → isize p ≤ lim * BSIZE → v_budget (turns off n + 2) v →
  is_Some (v_blocks v !! IBLOCK (inum p) (fsb s)) → (∀ bn, 0 ≤ bn < lim → IBLOCK (inum p) (fsb s) ≠ blk_addr (v_blocks v) p bn) →
  (NDIRECT < lim → IBLOCK (inum p) (fsb s) ≠ iaddrs p !!! 12%nat) →
  ∃ s' s'' v' p', writei ip src off n s = Ok (n, s') ∧ st_rel (blk s') v' ∧
    icache s' !! ip = Some p' ∧ isize p' = Z.max (isize p) (off + n) ∧
    readi ip off n s' = Ok ((n, src), s'') ∧
    ∀ k, 0 ≤ k < isize p → ¬ (off ≤ k < off + n) → file_byte (v_blocks v') p' k = file_byte (v_blocks v) p k.
Proof.
  intros n HR Hh Hp Hty Hok Hsep Hoff Hmax Hsz Hbud [d Hd] Hnb Hni. pose proof (lim_small v p lim Hok) as Hs.
  destruct (wp_ok (writei ip src off n) (λ r s', r = n ∧ ∃ B v',
      s' = set_icache (<[ip := grown (off + n) p]> (icache s)) (set_blk B s) ∧ st_rel B v' ∧ v_held v' = ∅ ∧ v_room v' ∧
      file_ok (v_blocks v') p lim ∧
      ∀ k, 0 ≤ k < lim * BSIZE → file_byte (v_blocks v') p k =
        if bool_decide (off ≤ k < off + n) then src !!! Z.to_nat (k - off) else file_byte (v_blocks v) p k) s)
    as (r & s' & E & -> & B & v' & -> & HB & Hh' & Hroom & Hok' & Hby).
  { eapply F_writei; eauto. intros B v' H1 H2 H3 H4 H5. split; [done|]. exists B, v'. done. }
  set (p' := grown (off + n) p) in *.
  assert (isize p' = Z.max (isize p) (off + n)) as Hsz'.
  { unfold p', grown. destruct (off + n >? isize p) eqn:Eg; cbn; lia. }
  assert (∀ V k, file_byte V p' k = file_byte V p k) as Hpb by (intros; unfold p', grown; by destruct (off + n >? isize p)).
  assert (file_ok (v_blocks v') p' lim) as Hok''.
  { unfold p', grown. destruct (off + n >? isize p); [|done]. by destruct Hok'. }
  set (s1 := set_icache _ _) in *.
  assert (icache s1 !! ip = Some p') as Hp' by (cbn; apply list_lookup_insert_eq; by eapply lookup_lt_Some).
  destruct (wp_ok (readi ip off n) (λ r _, r = (n, src)) s1) as (r & s'' & E2 & ->).
  { eapply (F_readi true v' ip p' lim); [done..| | | | | |].
    - unfold p', grown. by destruct (off + n >? isize p).
    - lia.
    - lia.
    - lia.
    - lia.
    - intros B2 _. assert (read_len p' off n = n) as -> by (unfold read_len; lia). f_equal.
      apply list_eq. intros i. unfold file_slice. rewrite list_lookup_fmap. destruct (decide (i < length src)%nat) as [Hi|Hi].
      + rewrite lookup_seqZ_lt by lia. cbn. rewrite Hpb, Hby, bool_decide_true by lia.
        rewrite (list_lookup_lookup_total_lt src i) by done. do 2 f_equal. lia.
      + rewrite lookup_seqZ_ge by lia. symmetry. apply lookup_ge_None. lia. }
  exists s1, s'', v', p'. split_and!; [exact E|exact HB|exact Hp'|exact Hsz'|exact E2|].
  intros k Hk Hout. rewrite Hpb, Hby by lia. by rewrite bool_decide_false.
Qed.
End Props.

(** ** The file of the small disk *)

#[export] Instance no_devices : DevSw lst := { dev_read _ := None; dev_write _ := None }.

Lemma fs_file_blocks : v_blocks fs_view !! 11 = Some (replicate 512 5) ∧ v_blocks fs_view !! 12 = Some (replicate 512 6).
Proof. split; (apply fs_view_lookup; [vm_compute; reflexivity|lia|lia]). Qed.

Lemma fs_file_addr bn : 0 ≤ bn < 2 → blk_addr (v_blocks fs_view) demo_file bn = bn + 11.
Proof. intros Hbn. assert (bn = 0 ∨ bn = 1) as [->| ->] by lia; reflexivity. Qed.

Lemma fs_file_ok : file_ok (v_blocks fs_view) demo_file 2 ∧ file_sep (v_blocks fs_view) demo_file 2.
Proof.
  destruct fs_file_blocks as [H11 H12]. split; split; try done; change NDIRECT with 12; try lia.
  - intros bn Hbn. rewrite fs_file_addr by done. lia.
  - intros bn Hbn. rewrite fs_file_addr by done. assert (bn = 0 ∨ bn = 1) as [->| ->] by lia; eauto.
  - intros bn bn' Hbn Hbn'. rewrite !fs_file_addr by done. lia.
Qed.

Lemma fs_held : v_held fs_view = ∅.
Proof. reflexivity. Qed.

Lemma readi_reads_witness :
  ∃ b B, readi 3 500 200 (demo_fs b) = Ok ((100, replicate 12 5 ++ replicate 88 6), set_blk B (demo_fs b)).
Proof.
  destruct fs_booted as (b & _ & Hrel). exists b.
  destruct (readi_reads (demo_fs b) fs_view 3 demo_file 2 500 200) as [H _].
  - exact Hrel.
  - reflexivity.
  - eapply budget_room, (budget_le 1 5); [lia|exact fs_budget].
  - reflexivity.
  - discriminate.
  - exact (proj1 fs_file_ok).
  - split; apply Z.leb_le; reflexivity.
  - split; [apply Z.leb_le; reflexivity|reflexivity].
  - split; [apply Z.leb_le; reflexivity|reflexivity].
  - destruct H as (B & E & _); [apply Z.leb_le; reflexivity|reflexivity|]. exists B. etransitivity; [exact E|].
    vm_compute. reflexivity.
Defined.

Lemma writei_readi_roundtrip_witness :
  ∃ b s' s'', writei 3 (replicate 200 9) 500 200 (demo_fs b) = Ok (200, s') ∧ readi 3 500 200 s' = Ok ((200, replicate 200 9), s'').
Proof.
  destruct fs_booted as (b & _ & Hrel). exists b.
  destruct (writei_readi_roundtrip (demo_fs b) fs_view 3 demo_file 2 500 (replicate 200 9)) as (s' & s'' & v' & p' & E1 & _ & _ & _ & E2 & _).
  - exact Hrel.
  - reflexivity.
  - reflexivity.
  - discriminate.
  - exact (proj1 fs_file_ok).
  - exact (proj2 fs_file_ok).
  - split; apply Z.leb_le; reflexivity.
  - apply Z.leb_le. reflexivity.
  - apply Z.leb_le. reflexivity.
  - eapply budget_le; [|exact fs_budget]. apply Nat.leb_le. reflexivity.
  - exists demo_inodes. apply fs_view_lookup; [vm_compute; reflexivity|right; apply Z.leb_le; reflexivity|].
    split; [apply Z.leb_le|apply Z.ltb_lt]; reflexivity.
  - intros bn Hbn. rewrite fs_file_addr by exact Hbn. change (IBLOCK _ _) with 8. lia.
  - intros H. apply Z.ltb_lt in H. discriminate H.
  - exists s', s''. split; [exact E1|exact E2].
Defined.
