(* ===== verification/FsName.v ===== *)
(** * Path names and the inode cache *)

From S2P Require Export FsWrite.
Local Open Scope Z_scope.

(** ** Paths *)

(** The nonempty elements of a path: a reference definition, by one pass over
    the bytes with the element read so far. *)
Fixpoint elems_from (cur : bytes) (path : bytes) : list bytes :=
  match path with
  | [] => if bool_decide (cur = []) then [] else [cur]
  | c :: p =>
      if c =? 47 then (if bool_decide (cur = []) then elems_from [] p else cur :: elems_from [] p)
      else elems_from (cur ++ [c]) p
  end.
Definition elems (path : bytes) : list bytes := elems_from [] path.

Lemma elems_skip path : elems (skip_slashes path) = elems path.
Proof.
  induction path as [|c p IH]; [done|]. unfold elems in *. cbn [skip_slashes elems_from].
  destruct (c =? 47) eqn:E; [|cbn [elems_from]; by rewrite E]. by rewrite IH.
Qed.

Lemma elems_path_elem path : ∀ cur e rest,
  path_elem path = (e, rest) → (cur ++ e ≠ []) → elems_from cur path = (cur ++ e) :: elems rest.
Proof.
  induction path as [|c p IH]; intros cur e rest; cbn [path_elem elems_from].
  - intros [= <- <-]. rewrite app_nil_r. intros Hne. by rewrite bool_decide_false.
  - destruct (c =? 47) eqn:E.
    + intros [= <- <-]. rewrite app_nil_r. intros Hne. rewrite bool_decide_false by done.
      f_equal. unfold elems. cbn [elems_from]. by rewrite E.
    + destruct (path_elem p) as [e' r'] eqn:Ep. intros [= <- <-] Hne.
      rewrite (IH (cur ++ [c]) e' r'); [by rewrite <- app_assoc|done|]. rewrite <- app_assoc. done.
Qed.

Lemma path_elem_app path e rest :
  path_elem path = (e, rest) → path = e ++ rest ∧ 47 ∉ e ∧ (rest = [] ∨ head rest = Some 47).
Proof.
  revert e rest. induction path as [|c p IH]; intros e rest; cbn [path_elem].
  - intros [= <- <-]. split_and!; [done|by apply not_elem_of_nil|by left].
  - destruct (c =? 47) eqn:E.
    + intros [= <- <-]. apply Z.eqb_eq in E as ->. split_and!; [done|by apply not_elem_of_nil|by right].
    + destruct (path_elem p) as [e' r']. destruct (IH e' r' eq_refl) as (-> & Hn & Hr). intros [= <- <-].
      apply Z.eqb_neq in E. split_and!; [done| |done]. by apply not_elem_of_cons.
Qed.

Lemma skip_slashes_length path : (length (skip_slashes path) ≤ length path)%nat.
Proof. induction path as [|c p IH]; cbn; [lia|]. destruct (c =? 47); cbn; lia. Qed.

Lemma skip_slashes_head path : head (skip_slashes path) ≠ Some 47.
Proof.
  induction path as [|c p IH]; cbn; [done|]. destruct (c =? 47) eqn:E; [done|]. apply Z.eqb_neq in E. cbn. congruence.
Qed.

Lemma elems_nil path : skip_slashes path = [] ↔ elems path = [].
Proof.
  rewrite <- elems_skip. pose proof (skip_slashes_head path) as Hh. split; [by intros ->|].
  destruct (skip_slashes path) as [|c s] eqn:Es; [done|]. intros He. exfalso.
  destruct (path_elem (c :: s)) as [e rest] eqn:Ep.
  assert (e ≠ []) as Hne.
  { cbn in Ep, Hh. destruct (c =? 47) eqn:E; [apply Z.eqb_eq in E as ->; done|].
    destruct (path_elem s). by injection Ep as <- <-. }
  unfold elems in He. by rewrite (elems_path_elem _ [] e rest Ep Hne) in He.
Qed.

Lemma upto_nul_take e n : 0 ∉ e → upto_nul n e = take n e.
Proof.
  revert n. induction e as [|c e IH]; intros [|n] Hn; try done.
  apply not_elem_of_cons in Hn as [Hc He]. cbn. rewrite (proj2 (Z.eqb_neq c 0)) by congruence. by rewrite IH.
Qed.

Lemma upto_nul_app e l n : 0 ∉ e → (length e < n)%nat → upto_nul n (e ++ 0 :: l) = e.
Proof.
  revert n. induction e as [|c e IH]; intros [|n] Hn Hl; cbn in *; try lia; [done|].
  apply not_elem_of_cons in Hn as [Hc He]. rewrite (proj2 (Z.eqb_neq c 0)) by congruence. rewrite IH by (done || lia). done.
Qed.

(** [skipelem] takes a path apart element by element.  It returns no
    element exactly when the path has none; otherwise it stores the first
    element, cut to fourteen bytes, in the name buffer, and returns a shorter
    path, without leading slashes, whose elements are the remaining ones: the
    elements of a path as one left-to-right scan defines them. *)
Theorem skipelem_elems path name :
  0 ∉ path → length name = DIRSIZ →
  match skipelem path name with
  | None => elems path = []
  | Some (rest, name') => ∃ e, elems path = e :: elems rest ∧ upto_nul DIRSIZ name' = take DIRSIZ e ∧
      length name' = DIRSIZ ∧ head rest ≠ Some 47 ∧ (length rest < length path)%nat ∧ 0 ∉ rest ∧
      (rest = [] ↔ elems rest = [])
  end.
Proof.
  intros H0 Hn. unfold skipelem. destruct (skip_slashes path) as [|c s] eqn:Es; [by apply elems_nil|].
  destruct (path_elem (c :: s)) as [e rest] eqn:Ep. destruct (path_elem_app _ _ _ Ep) as (Happ & Hne & Hr).
  pose proof (skip_slashes_head path) as Hh. rewrite Es in Hh. cbn in Hh.
  assert (e ≠ []) as Hnil.
  { intros ->. cbn in Happ. rewrite <- Happ in Hr. cbn in Hr. by destruct Hr. }
  pose proof (skip_slashes_length path) as Hl1. rewrite Es, Happ, length_app in Hl1.
  assert (0 < length e)%nat by (destruct e; [done|cbn; lia]).
  pose proof (skip_slashes_length rest) as Hl2.
  assert (∀ p, 0 ∉ p → 0 ∉ skip_slashes p) as Hsk.
  { intros p. induction p as [|c' p IH]; [done|]. cbn. intros Hp. destruct (c' =? 47); [|done].
    apply IH. by apply not_elem_of_cons in Hp as [_ ?]. }
  pose proof (Hsk path H0) as H0s. rewrite Es, Happ, not_elem_of_app in H0s. destruct H0s as [He Hrest].
  exists e. split_and!.
  - rewrite <- (elems_skip path), Es, elems_skip. unfold elems at 1. by rewrite (elems_path_elem _ [] e rest Ep Hnil).
  - case_bool_decide as Hlen.
    + rewrite splice_front by (rewrite length_take, Hn; lia). rewrite length_take, Nat.min_l, drop_ge, app_nil_r by lia.
      rewrite upto_nul_take, take_take, Nat.min_id; [done|]. intros Hin. apply He. by eapply elem_of_take in Hin as (? & ? & _); eapply list_elem_of_lookup_2.
    + rewrite splice_front by (rewrite length_app, Hn; cbn; lia). rewrite <- app_assoc. cbn [app].
      rewrite upto_nul_app by (done || lia). by rewrite take_ge by lia.
  - case_bool_decide; by rewrite splice_length.
  - apply skip_slashes_head.
  - lia.
  - by apply Hsk.
  - split; [by intros ->|]. rewrite elems_skip. intros E. by apply elems_nil.
Qed.

(** ["/a//bb"]. *)
Lemma skipelem_elems_witness : skipelem [47; 97; 47; 47; 98; 98] (replicate 14 0) = Some ([98; 98], 97 :: replicate 13 0) ∧
  ∃ e, elems [47; 97; 47; 47; 98; 98] = e :: elems [98; 98] ∧ take DIRSIZ e = [97].
Proof.
  split; [reflexivity|]. pose proof (skipelem_elems [47; 97; 47; 47; 98; 98] (replicate 14 0)) as H.
  destruct H as (e & He & Hn & _); [|reflexivity|]. { apply (bool_decide_unpack _). reflexivity. }
  exists e. split; [exact He|]. rewrite <- Hn. reflexivity.
Defined.

(** ** Looking up and releasing inodes *)

(** Reference counts are not negative, and an inode has at most one entry in
    use. *)
Record icache_ok (l : list inode) : Prop := {
  ic_ref : ∀ i p, l !! i = Some p → 0 ≤ iref p;
  ic_inj : ∀ i j p q, l !! i = Some p → l !! j = Some q → 0 < iref p → 0 < iref q →
    idev p = idev q → inum p = inum q → i = j
}.

Definition is_inode (d n : Z) (p : inode) : bool := (iref p >? 0) && (idev p =? d) && (inum p =? n).

Lemma is_inode_true d n p : is_inode d n p = true ↔ 0 < iref p ∧ idev p = d ∧ inum p = n.
Proof. unfold is_inode. rewrite !andb_true_iff, Z.gtb_ltb, Z.ltb_lt, !Z.eqb_eq. tauto. Qed.

(** The scan finds the entry of the inode or the first unused one. *)
Lemma iget_scan_spec d n l : ∀ k e,
  match iget_scan l k e d n with
  | inl i => ∃ j p, i = (k + j)%nat ∧ l !! j = Some p ∧ is_inode d n p = true
  | inr r => (∀ j p, l !! j = Some p → is_inode d n p = false) ∧
      match e with
      | Some i => r = Some i
      | None => match r with
                | Some i => ∃ j p, i = (k + j)%nat ∧ l !! j = Some p ∧ iref p = 0 ∧ ∀ j' q, (j' < j)%nat → l !! j' = Some q → iref q ≠ 0
                | None => ∀ j p, l !! j = Some p → iref p ≠ 0
                end
      end
  end.
Proof.
  induction l as [|p l IH]; intros k e; cbn [iget_scan].
  - split; [intros j p Hj; done|]. destruct e; [done|]. intros j p Hj. done.
  - fold (is_inode d n p). destruct (is_inode d n p) eqn:Ei.
    + exists 0%nat, p. split_and!; [lia|done|done].
    + set (e' := match e with Some _ => e | None => if iref p =? 0 then Some k else None end). specialize (IH (S k) e').
      destruct (iget_scan _ _ _ _ _) as [i|r].
      * destruct IH as (j & q & -> & Hq & Hi). exists (S j), q. split_and!; [lia|done|done].
      * destruct IH as [Hno Hr]. split; [intros [|j] q Hq; [by injection Hq as <-|by apply (Hno j)]|].
        unfold e' in Hr. destruct e as [i|]; [done|]. destruct (iref p =? 0) eqn:E0.
        -- subst r. apply Z.eqb_eq in E0. exists 0%nat, p. split_and!; [lia|done|done|]. intros j' q Hj'. lia.
        -- apply Z.eqb_neq in E0. destruct r as [i|].
           ++ destruct Hr as (j & q & -> & Hq & Hq0 & Hall). exists (S j), q. split_and!; [lia|done|done|].
              intros [|j'] q' Hj' Hq'; [by injection Hq' as <-|]. apply (Hall j'); [lia|done].
           ++ intros [|j] q Hq; [by injection Hq as <-|]. by apply (Hr j).
Qed.

Lemma icache_ok_insert l i p p' :
  icache_ok l → l !! i = Some p → 0 ≤ iref p' →
  (0 < iref p' → ∀ j q, j ≠ i → l !! j = Some q → 0 < iref q → idev q = idev p' → inum q = inum p' → False) →
  icache_ok (<[i := p']> l).
Proof.
  intros [H1 H2] Hi Hr Hu. pose proof (lookup_lt_Some _ _ _ Hi) as Hlt. split.
  - intros j q. destruct (decide (j = i)) as [->|].
    + rewrite list_lookup_insert_eq by done. by intros [= <-].
    + rewrite list_lookup_insert_ne by done. apply H1.
  - intros j k q r. destruct (decide (j = i)) as [->|], (decide (k = i)) as [->|];
      rewrite ?list_lookup_insert_eq, ?list_lookup_insert_ne by done; intros; simplify_eq; try done.
    + exfalso. by eapply (Hu ltac:(done) k r).
    + exfalso. by eapply (Hu ltac:(done) j q).
    + by eapply H2.
Qed.

Lemma icache_ok_ref l i p n :
  icache_ok l → l !! i = Some p → (0 < n → 0 < iref p) → 0 ≤ n → icache_ok (<[i := set_iref n p]> l).
Proof.
  intros Hl Hi Hn Hn0. eapply icache_ok_insert; [done|done|done|]. cbn. intros Hpos j q Hj Hq Hq0 Ed En.
  apply Hj. eapply (ic_inj _ Hl); eauto.
Qed.

(** A new entry for the inode [n] of device [d]. *)
Definition fresh_inode (d n : Z) (p : inode) : inode :=
  mkInode d n 1 0 (itype p) (imajor p) (iminor p) (inlink p) (isize p) (iaddrs p).

Section Inode.
Context {S : Type} `{BS : BlockStore S} {SL : StoreLaws S}.
Implicit Types (s : fst S).

Lemma F_onfx {A} t (m : M ctx A) a x (Q : A → fst S → Prop) s :
  m (fx s) = Ok (a, x) → Q a (set_fx x s) → wpg t (onfx m) Q s.
Proof. intros E HQ. apply (wpg_zoom t fx set_fx). unfold wpg. by rewrite E. Qed.

(** A change of an entry under the cache's lock. *)
Lemma F_icache_update {A} t s i p f (k : M (fst S) A) (Q : A → fst S → Prop) :
  held (fx s) = [] → icache s !! i = Some p → wpg t k Q (set_icache (<[i := f p]> (icache s)) s) →
  wpg t (ino_set i f ;; onfx (release_lk L_icache) ;; k) Q (set_fx (set_held [L_icache] (fx s)) s).
Proof.
  intros Hh Hp HQ. apply wpg_bind. eapply ino_set_ok; [exact Hp|]. apply wpg_bind. eapply F_onfx; [by apply release_lk_ok|].
  by destruct s.
Qed.

Lemma F_iget t s d n (Q : nat → fst S → Prop) :
  held (fx s) = [] → icache_ok (icache s) →
  (∀ i p, icache s !! i = Some p → is_inode d n p = true → Q i (set_icache (<[i := set_iref (iref p + 1) p]> (icache s)) s)) →
  ((∀ i p, icache s !! i = Some p → is_inode d n p = false) →
   (∃ i p, icache s !! i = Some p ∧ iref p = 0) ∧
   ∀ i p, icache s !! i = Some p → iref p = 0 → (∀ j q, (j < i)%nat → icache s !! j = Some q → iref q ≠ 0) →
     Q i (set_icache (<[i := fresh_inode d n p]> (icache s)) s)) →
  wpg t (iget d n) Q s.
Proof.
  intros Hh Hok H1 H2. unfold iget. apply wpg_bind. eapply F_onfx; [by apply acquire_lk_ok|].
  apply wpg_bind, wpg_gets. cbn [icache set_fx]. pose proof (iget_scan_spec d n (icache s) 0 None) as Hs.
  destruct (iget_scan _ _ _ _ _) as [i|[i|]].
  - destruct Hs as (j & p & -> & Hp & Hi). cbn [Nat.add]. eapply F_icache_update; [done|exact Hp|]. by apply wpg_ret, H1.
  - destruct Hs as [Hno (j & p & -> & Hp & H0 & Hall)]. cbn [Nat.add]. eapply F_icache_update; [done|exact Hp|].
    apply wpg_ret, H2; done.
  - destruct Hs as [Hno Hall]. destruct (H2 Hno) as [(i & p & Hp & H0) _]. by destruct (Hall i p Hp).
Qed.

Lemma F_idup t s i p (Q : nat → fst S → Prop) :
  held (fx s) = [] → icache s !! i = Some p → Q i (set_icache (<[i := set_iref (iref p + 1) p]> (icache s)) s) →
  wpg t (idup i) Q s.
Proof.
  intros Hh Hp HQ. unfold idup. apply wpg_bind. eapply F_onfx; [by apply acquire_lk_ok|].
  eapply F_icache_update; [done|exact Hp|]. by apply wpg_ret.
Qed.

(** The locks after [ilock] or [iunlock] of the entry [i]. *)
Definition fx_locked (i : nat) (x : ctx) : ctx := set_sleep (SL_inode i) (owned x) x.
Definition fx_unlocked (i : nat) (x : ctx) : ctx := add_woken (W_sleep (SL_inode i)) (set_sleep (SL_inode i) (mkSl 0 0) x).

(** [iput] of an entry that is not to be freed drops one reference. *)
Lemma F_iput t s i p (Q : unit → fst S → Prop) :
  held (fx s) = [] → slocked (sleeps (fx s) !!! SL_inode i) = 0 → icache s !! i = Some p →
  (valid p = 0 ∨ inlink p ≠ 0 ∨ iref p ≠ 1) →
  (∀ x, x = fx_unlocked i (fx_locked i (fx s)) → Q tt (set_fx x (set_icache (<[i := set_iref (iref p - 1) p]> (icache s)) s))) →
  wpg t (iput i) Q s.
Proof.
  intros Hh Hl Hp Hnf HQ. unfold iput. apply wpg_bind. eapply F_onfx; [by apply acquiresleep_ok|].
  fold (fx_locked i (fx s)). set (x1 := fx_locked i (fx s)).
  apply wpg_bind. eapply F_ino; [exact Hp|]. apply wpg_bind.
  assert (wpg t (onfx (releasesleep (SL_inode i)) ;; onfx (acquire_lk L_icache) ;; ino_set i (λ p, set_iref (iref p - 1) p) ;;
    onfx (release_lk L_icache)) Q (set_fx x1 s)) as Hrest.
  { apply wpg_bind. eapply F_onfx; [by apply releasesleep_ok|].
    apply wpg_bind. eapply F_onfx; [by apply acquire_lk_ok|].
    apply wpg_bind. eapply ino_set_ok; [exact Hp|]. eapply F_onfx; [by apply release_lk_ok|].
    destruct s. by apply HQ. }
  destruct (negb (valid p =? 0) && (inlink p =? 0)) eqn:E; [|by apply wpg_when_false].
  apply wpg_when_true; [done|]. apply wpg_bind. eapply F_onfx; [by apply acquire_lk_ok|].
  apply wpg_bind. eapply F_ino; [exact Hp|]. apply wpg_bind. eapply F_onfx; [by apply release_lk_ok|].
  apply wpg_when_false; [lia|]. by destruct s.
Qed.
End Inode.
