(* ===== verification/FsLookup.v ===== *)
(** * Directories and path lookup

    [dirlookup] against the list of a directory's entries, and [namei]
    against a walk over the directories on the disk. *)

From S2P Require Export FsName.
Local Open Scope Z_scope.

(** ** What is on the disk *)

(** The inode [n] as [ilock] reads it into an entry. *)
Definition load_inode (V : gmap Z block) (sb : superblock) (n : Z) (p : inode) : inode :=
  dinode_load (V !!! IBLOCK n sb) (dinode_at n) p.
Definition disk_inode (V : gmap Z block) (sb : superblock) (n : Z) : inode :=
  load_inode V sb n (mkInode 1 n 0 0 0 0 0 0 0 []).

(** Entry [k] of a directory. *)
Definition dirent (V : gmap Z block) (p : inode) (k : Z) : bytes := file_slice V p (16 * k) 16.
(** It is in use, and its name is [key]. *)
Definition dirent_is (V : gmap Z block) (p : inode) (key : bytes) (k : Z) : bool :=
  negb (de_inum (dirent V p k) =? 0) && bool_decide (upto_nul DIRSIZ (de_name (dirent V p k)) = key).
(** The first entry, from [k] on, of that name. *)
Fixpoint dir_find_from (V : gmap Z block) (p : inode) (key : bytes) (fuel : nat) (k : Z) : option Z :=
  match fuel with
  | O => None
  | S fuel => if dirent_is V p key k then Some k else dir_find_from V p key fuel (k + 1)
  end.
Definition dir_find (V : gmap Z block) (p : inode) (key : bytes) : option Z :=
  dir_find_from V p key (Z.to_nat (isize p / 16)) 0.

(** The inode that a list of path elements leads to. *)
Fixpoint walk (V : gmap Z block) (sb : superblock) (n : Z) (es : list bytes) : option Z :=
  match es with
  | [] => Some n
  | e :: es =>
      let p := disk_inode V sb n in
      if itype p =? T_DIR then
        match dir_find V p (take DIRSIZ e) with
        | Some k => walk V sb (de_inum (dirent V p k)) es
        | None => None
        end
      else None
  end.

(** The disk is well formed: an allocated inode has links, and a directory
    consists of whole entries that name allocated inodes. *)
Record inode_ok (V : gmap Z block) (sb : superblock) (n : Z) : Prop := {
  io_block : is_Some (V !! IBLOCK n sb);
  io_type : itype (disk_inode V sb n) ≠ 0;
  io_link : inlink (disk_inode V sb n) ≠ 0;
  io_dir : itype (disk_inode V sb n) = T_DIR →
    ∃ lim, file_ok V (disk_inode V sb n) lim ∧ 0 ≤ isize (disk_inode V sb n) ≤ lim * BSIZE ∧ isize (disk_inode V sb n) mod 16 = 0
}.
Definition disk_ok (V : gmap Z block) (sb : superblock) (ns : gset Z) : Prop :=
  ∀ n, n ∈ ns → inode_ok V sb n ∧
    (itype (disk_inode V sb n) = T_DIR → ∀ k, 0 ≤ k < isize (disk_inode V sb n) / 16 →
       de_inum (dirent V (disk_inode V sb n) k) = 0 ∨ de_inum (dirent V (disk_inode V sb n) k) ∈ ns).

(** [p] is a valid copy of the inode on the disk. *)
Definition copy_of (V : gmap Z block) (sb : superblock) (p : inode) : Prop :=
  load_inode V sb (inum p) p = p.

Lemma copy_type V sb p : copy_of V sb p → itype p = itype (disk_inode V sb (inum p)) ∧ isize p = isize (disk_inode V sb (inum p)) ∧
  iaddrs p = iaddrs (disk_inode V sb (inum p)) ∧ inlink p = inlink (disk_inode V sb (inum p)).
Proof. intros H. unfold copy_of in H. rewrite <- H. split_and!; reflexivity. Qed.

Lemma addr_ext V p q bn : iaddrs p = iaddrs q → blk_addr V p bn = blk_addr V q bn.
Proof. unfold blk_addr. by intros ->. Qed.
Lemma byte_ext V p q k : iaddrs p = iaddrs q → file_byte V p k = file_byte V q k.
Proof. intros H. unfold file_byte, file_block. by rewrite (addr_ext V p q _ H). Qed.
Lemma file_ok_ext V p q lim : iaddrs p = iaddrs q → idev q = 1 → file_ok V p lim → file_ok V q lim.
Proof.
  intros E Hd [H1 H2 H3 H4 H5 H6]. split; rewrite <- ?E; try done.
  - intros bn Hbn. rewrite <- (addr_ext V p q) by done. by apply H4.
  - intros bn Hbn. rewrite <- (addr_ext V p q) by done. by apply H6.
Qed.
Lemma slice_ext V p q off n : iaddrs p = iaddrs q → file_slice V p off n = file_slice V q off n.
Proof. intros E. unfold file_slice. apply list_fmap_ext. intros i x _. by apply byte_ext. Qed.
Lemma dir_find_ext V p q key : iaddrs p = iaddrs q → isize p = isize q → dir_find V p key = dir_find V q key.
Proof.
  intros E Es. unfold dir_find. rewrite Es. generalize 0. induction (Z.to_nat _) as [|f IH]; intros k; cbn; [done|].
  unfold dirent_is, dirent. rewrite (slice_ext V p q) by done. by rewrite IH.
Qed.
Lemma dirent_ext V p q k : iaddrs p = iaddrs q → dirent V p k = dirent V q k.
Proof. apply slice_ext. Qed.

Lemma dirent_length V p k : length (dirent V p k) = 16%nat.
Proof. unfold dirent, file_slice. by rewrite length_fmap, length_seqZ. Qed.

Section Lookup.
Context {S : Type} `{BS : BlockStore S} {SL : StoreLaws S} {DV : DevSw S}.
Implicit Types (s : fst S).

(** Locks as between file-system operations, except for the inodes in [own],
    which the process has locked. *)
Record fx_ok (own : gset nat) (x : ctx) : Prop := {
  fk_held : held x = [];
  fk_locks : ∀ i, if bool_decide (i ∈ own) then sleeps x !!! SL_inode i = owned x else slocked (sleeps x !!! SL_inode i) = 0
}.

Lemma fx_ok_lock own i x : fx_ok own x → fx_ok ({[i]} ∪ own) (fx_locked i x).
Proof.
  intros [Hh Hl]. split; [done|]. intros j. cbn. destruct (decide (j = i)) as [->|].
  - rewrite lookup_total_insert_eq, bool_decide_true by set_solver. done.
  - rewrite lookup_total_insert_ne by congruence. specialize (Hl j).
    rewrite (bool_decide_ext (j ∈ {[i]} ∪ own) (j ∈ own)) by set_solver. done.
Qed.

Lemma fx_ok_unlock own i x : fx_ok own x → fx_ok (own ∖ {[i]}) (fx_unlocked i x).
Proof.
  intros [Hh Hl]. split; [done|]. intros j. cbn. destruct (decide (j = i)) as [->|].
  - rewrite lookup_total_insert_eq, bool_decide_false by set_solver. done.
  - rewrite lookup_total_insert_ne by congruence. specialize (Hl j).
    rewrite (bool_decide_ext (j ∈ own ∖ {[i]}) (j ∈ own)) by set_solver. done.
Qed.

(** The entry after [ilock]. *)
Definition locked_inode (V : gmap Z block) (sb : superblock) (p : inode) : inode :=
  if valid p =? 0 then set_valid 1 (load_inode V sb (inum p) p) else p.

Lemma F_ilock t s v i p own (Q : unit → fst S → Prop) :
  st_rel (blk s) v → v_held v = ∅ → v_room v → fx_ok own (fx s) → i ∉ own → icache s !! i = Some p → 1 ≤ iref p → idev p = 1 →
  is_Some (v_blocks v !! IBLOCK (inum p) (fsb s)) → itype (load_inode (v_blocks v) (fsb s) (inum p) p) ≠ 0 →
  (∀ B x, st_rel B v → fx_ok ({[i]} ∪ own) x →
     Q tt (set_fx x (set_icache (<[i := locked_inode (v_blocks v) (fsb s) p]> (icache s)) (set_blk B s)))) →
  wpg t (ilock (Some i)) Q s.
Proof.
  intros HR Hh Hroom Hfx Hi Hp Hrf Hdev [d Hd] Hty HQ. unfold ilock.
  apply wpg_bind. eapply F_ino; [exact Hp|]. replace (iref p <? 1) with false by lia.
  pose proof (fk_locks _ _ Hfx i) as Hl. rewrite bool_decide_false in Hl by done.
  apply wpg_bind. eapply F_onfx; [apply acquiresleep_ok; [apply Hfx|exact Hl]|]. fold (fx_locked i (fx s)).
  pose proof (fx_ok_lock own i (fx s) Hfx) as Hfx'. set (x := fx_locked i (fx s)) in *.
  apply wpg_bind. eapply F_ino; [exact Hp|]. unfold locked_inode in HQ. destruct (valid p =? 0) eqn:Ev.
  - apply wpg_when_true; [done|]. apply wpg_bind, wpg_gets. rewrite Hdev. cbn [fsb set_fx].
    unfold load_inode in *. rewrite (lookup_total_correct _ _ _ Hd) in *.
    apply wpg_bind. eapply F_bread; [exact HR|exact Hd| |exact Hroom|]. { intros j y. by rewrite Hh. }
    intros j B Hj HB. apply wpg_bind. eapply (F_data t _ _ _ (_, d)); [exact HB|apply lookup_insert_eq|]. cbn [snd].
    apply wpg_bind. eapply ino_set_ok; [exact Hp|].
    apply wpg_bind. eapply (F_brelse t _ _ _ (_, d)); [exact HB|apply lookup_insert_eq|exact Hd|]. intros B2 HB2.
    rewrite v_drop_hold in HB2 by done. pose proof (lookup_lt_Some _ _ _ Hp) as Hlt.
    apply wpg_bind. eapply ino_set_ok; [cbn; by apply list_lookup_insert_eq|].
    apply wpg_bind. eapply F_ino; [cbn; apply list_lookup_insert_eq; by rewrite length_insert|].
    cbn [itype set_valid]. rewrite (proj2 (Z.eqb_neq _ 0)) by done. apply wpg_ret. specialize (HQ B2 x HB2 Hfx').
    cbn [icache set_icache set_blk set_fx]. rewrite list_insert_insert_eq. exact HQ.
  - apply wpg_when_false; [done|]. specialize (HQ (blk s) x HR Hfx'). rewrite list_insert_id in HQ by done. by destruct s.
Qed.

Lemma F_iunlock t s i p own (Q : unit → fst S → Prop) :
  fx_ok own (fx s) → i ∈ own → icache s !! i = Some p → 1 ≤ iref p →
  (∀ x, fx_ok (own ∖ {[i]}) x → Q tt (set_fx x s)) → wpg t (iunlock (Some i)) Q s.
Proof.
  intros Hfx Hi Hp Hrf HQ. unfold iunlock. pose proof (fk_locks _ _ Hfx i) as Hl. rewrite bool_decide_true in Hl by done.
  apply wpg_bind. eapply F_onfx; [apply holdingsleep_mine; [apply Hfx|exact Hl]|]. cbn [negb].
  apply wpg_bind. eapply F_ino; [exact Hp|]. replace (iref p <? 1) with false by lia.
  eapply F_onfx; [by apply releasesleep_ok, Hfx|]. destruct s. by apply HQ, fx_ok_unlock.
Qed.

Lemma F_iunlockput t s i p own (Q : unit → fst S → Prop) :
  fx_ok own (fx s) → i ∈ own → icache s !! i = Some p → 1 ≤ iref p → (valid p = 0 ∨ inlink p ≠ 0 ∨ iref p ≠ 1) →
  (∀ x, fx_ok (own ∖ {[i]}) x → Q tt (set_fx x (set_icache (<[i := set_iref (iref p - 1) p]> (icache s)) s))) →
  wpg t (iunlockput i) Q s.
Proof.
  intros Hfx Hi Hp Hrf Hnf HQ. unfold iunlockput. apply wpg_bind. eapply F_iunlock; [done..|]. intros x Hx.
  pose proof (fk_locks _ _ Hx i) as Hl. rewrite bool_decide_false in Hl by set_solver.
  eapply F_iput; [apply Hx|exact Hl|exact Hp|exact Hnf|]. intros x' ->. cbn [icache set_fx].
  assert (fx_ok (own ∖ {[i]}) (fx_unlocked i (fx_locked i x))) as Hx'.
  { replace (own ∖ {[i]}) with (({[i]} ∪ own ∖ {[i]}) ∖ {[i]}) by set_solver. by apply fx_ok_unlock, fx_ok_lock. }
  destruct s. by apply HQ.
Qed.

(** ** dirlookup *)

Lemma F_dirlookup_scan t v dp p lim name key fuel : ∀ s k (Q : option (nat * Z) → fst S → Prop) f2,
  st_rel (blk s) v → v_held v = ∅ → v_room v → icache s !! dp = Some p → itype p = T_DIR →
  file_ok (v_blocks v) p lim → 0 ≤ isize p ≤ lim * BSIZE → isize p mod 16 = 0 →
  length name = DIRSIZ → upto_nul DIRSIZ name = key → 0 ≤ k ≤ isize p / 16 →
  Z.of_nat f2 = isize p / 16 - k → (f2 < fuel)%nat →
  (dir_find_from (v_blocks v) p key f2 k = None → ∀ B, st_rel B v → Q None (set_blk B s)) →
  (∀ k', dir_find_from (v_blocks v) p key f2 k = Some k' → ∀ B, st_rel B v →
     wpg t (iget (idev p) (de_inum (dirent (v_blocks v) p k'))) (λ i s', Q (Some (i, 16 * k')) s') (set_blk B s)) →
  wpg t (dirlookup_scan fuel dp name (16 * k)) Q s.
Proof.
  induction fuel as [|fuel IH]; intros s k Q f2 HR Hh Hroom Hp Hty Hok Hsz Hm Hln Hkey Hk Hf2 Hfu HN HS; [lia|].
  pose proof (lim_small v p lim Hok) as Hs. pose proof (Z.div_mod (isize p) 16 ltac:(lia)) as Hdm.
  cbn [dirlookup_scan]. apply wpg_bind. eapply F_ino; [exact Hp|]. destruct f2 as [|f2].
  { replace (16 * k <? isize p) with false by lia. apply wpg_ret. specialize (HN eq_refl (blk s) HR). by destruct s. }
  replace (16 * k <? isize p) with true by lia.
  apply wpg_bind. eapply (F_readi t v dp p lim); [done..| | |lia|lia|lia|lia|]; [done|by rewrite Hty|].
  intros B HB. assert (read_len p (16 * k) 16 = 16) as -> by (unfold read_len; lia). cbn [Z.eqb negb Pos.eqb].
  change (file_slice (v_blocks v) p (16 * k) 16) with (dirent (v_blocks v) p k).
  cbn [dir_find_from] in HN, HS. unfold dirent_is in HN, HS.
  assert (∀ Bn, st_rel Bn v → dir_find_from (v_blocks v) p key (Datatypes.S f2) k = dir_find_from (v_blocks v) p key f2 (k + 1) →
     wpg t (dirlookup_scan fuel dp name (u32 (16 * k + 16))) Q (set_blk Bn s)) as Hnext.
  { intros Bn HBn E. rewrite u32_id by lia. replace (16 * k + 16) with (16 * (k + 1)) by lia.
    cbn [dir_find_from] in E. unfold dirent_is in E. rewrite E in HN, HS.
    apply IH with f2; try done; try lia. }
  destruct (de_inum (dirent (v_blocks v) p k) =? 0) eqn:E0.
  { apply Hnext; [done|]. cbn [dir_find_from]. unfold dirent_is. by rewrite E0. }
  assert (length (de_name (dirent (v_blocks v) p k)) = 14%nat) as Hln2 by (unfold de_name; by rewrite length_drop, dirent_length).
  destruct (strncmp_upto DIRSIZ name (de_name (dirent (v_blocks v) p k))) as (c & Hc & Hiff).
  { left. by rewrite Hln. } { left. rewrite Hln2. done. }
  apply wpg_bind. eapply wpg_deref; [exact Hc|]. rewrite Hkey in Hiff. destruct (c =? 0) eqn:Ec.
  - apply Z.eqb_eq in Ec. apply Hiff in Ec. rewrite bool_decide_true in HS by done. cbn [negb andb] in HS.
    apply wpg_bind. eapply wpg_mono; [by apply (HS k)|]. cbv beta. intros i s' H. by apply wpg_ret.
  - apply Z.eqb_neq in Ec. apply Hnext; [done|]. cbn [dir_find_from]. unfold dirent_is. rewrite E0, bool_decide_false; [done|].
    intros E. apply Ec, Hiff. done.
Qed.

Lemma F_dirlookup t s v dp p lim name key (Q : option (nat * Z) → fst S → Prop) :
  st_rel (blk s) v → v_held v = ∅ → v_room v → icache s !! dp = Some p → itype p = T_DIR →
  file_ok (v_blocks v) p lim → 0 ≤ isize p ≤ lim * BSIZE → isize p mod 16 = 0 →
  length name = DIRSIZ → upto_nul DIRSIZ name = key →
  match dir_find (v_blocks v) p key with
  | None => ∀ B, st_rel B v → Q None (set_blk B s)
  | Some k => ∀ B, st_rel B v → wpg t (iget (idev p) (de_inum (dirent (v_blocks v) p k))) (λ i s', Q (Some (i, 16 * k)) s') (set_blk B s)
  end → wpg t (dirlookup dp name) Q s.
Proof.
  intros HR Hh Hroom Hp Hty Hok Hsz Hm Hln Hkey HQ. unfold dirlookup. apply wpg_bind. eapply F_ino; [exact Hp|].
  rewrite Hty. cbn [Z.eqb negb T_DIR Pos.eqb]. unfold dir_find in HQ. pose proof (Z.div_pos (isize p) 16 ltac:(lia) ltac:(lia)).
  change 0 with (16 * 0). apply (F_dirlookup_scan t v dp p lim name key _ s 0 Q (Z.to_nat (isize p / 16))); try done; try lia.
  - intros E. by rewrite E in HQ.
  - intros k' E. by rewrite E in HQ.
Qed.
End Lookup.
