(* ===== verification/FsNamei.v ===== *)
(** * namei: a path leads where a walk over the directories leads *)

From S2P Require Export FsLookup.
Local Open Scope Z_scope.

(** ** Reference counts during a lookup *)

(** The cache [l] against the cache [base] at the beginning: entry [j] has
    [δ j] more references, entries that were in use still belong to the same
    inode, and valid entries are copies of the disk's. *)
Record wk (V : gmap Z block) (sb : superblock) (base l : list inode) (δ : nat → Z) : Prop := {
  wk_ok : icache_ok l;
  wk_len : length l = length base;
  wk_ref : ∀ j p0 p, base !! j = Some p0 → l !! j = Some p →
    iref p = iref p0 + δ j ∧ (0 < iref p0 → idev p = idev p0 ∧ inum p = inum p0);
  wk_copy : ∀ j p, l !! j = Some p → 0 < iref p → valid p ≠ 0 → copy_of V sb p
}.

Definition bump (i : nat) (x : Z) (δ : nat → Z) : nat → Z := λ j, δ j + if decide (j = i) then x else 0.

Section Wk.
Context (V : gmap Z block) (sb : superblock) (base : list inode).
Implicit Types (l : list inode) (δ : nat → Z).

Lemma wk_ext l δ δ' : wk V sb base l δ → (∀ j, δ j = δ' j) → wk V sb base l δ'.
Proof. intros [H1 H2 H3 H4] E. split; try done. intros j p0 p. rewrite <- E. apply H3. Qed.

Lemma wk_put l δ i p p' x :
  wk V sb base l δ → l !! i = Some p → icache_ok (<[i := p']> l) → iref p' = iref p + x →
  (∀ p0, base !! i = Some p0 → 0 < iref p0 → idev p' = idev p ∧ inum p' = inum p) →
  (0 < iref p' → valid p' ≠ 0 → copy_of V sb p') → wk V sb base (<[i := p']> l) (bump i x δ).
Proof.
  intros [H1 H2 H3 H4] Hp Hok Hr Hid Hc. pose proof (lookup_lt_Some _ _ _ Hp) as Hlt. split; [done|by rewrite length_insert| |].
  - intros j p0 q Hj. unfold bump. destruct (decide (j = i)) as [->|].
    + rewrite list_lookup_insert_eq by done. intros [= <-]. destruct (H3 i p0 p Hj Hp) as [E1 E2]. split; [lia|].
      intros Hpos. destruct (Hid p0 Hj Hpos) as [-> ->]. by apply E2.
    + rewrite list_lookup_insert_ne by done. rewrite Z.add_0_r. by apply H3.
  - intros j q. destruct (decide (j = i)) as [->|].
    + rewrite list_lookup_insert_eq by done. by intros [= <-].
    + rewrite list_lookup_insert_ne by done. apply H4.
Qed.

Lemma copy_set_iref p n : copy_of V sb p → copy_of V sb (set_iref n p).
Proof. unfold copy_of, load_inode, dinode_load. cbn. intros E. destruct p. injection E as <- <- <- <- <- <-. done. Qed.

(** A new value for an entry of the same inode. *)
Lemma wk_same l δ i p p' :
  wk V sb base l δ → l !! i = Some p → iref p' = iref p → idev p' = idev p → inum p' = inum p →
  (valid p' ≠ 0 → copy_of V sb p') → wk V sb base (<[i := p']> l) δ.
Proof.
  intros Hw Hp Hr Hd Hn Hc. eapply wk_ext; [eapply (wk_put l δ i p p' 0); try done|].
  - eapply icache_ok_insert; [apply Hw|exact Hp|rewrite Hr; by eapply (ic_ref _ (wk_ok _ _ _ _ _ Hw))|].
    intros Hpos j q Hj Hq Hq0 E1 E2. apply Hj. eapply (ic_inj _ (wk_ok _ _ _ _ _ Hw)); eauto; congruence.
  - lia.
  - intros j. unfold bump. destruct (decide (j = i)); lia.
Qed.

Lemma wk_step l δ i p x :
  wk V sb base l δ → l !! i = Some p → 0 < iref p → 0 ≤ iref p + x → wk V sb base (<[i := set_iref (iref p + x) p]> l) (bump i x δ).
Proof.
  intros Hw Hp Hpos Hx. apply (wk_put l δ i p); try done.
  - eapply icache_ok_ref; [apply Hw|done|done|done].
  - cbn. intros _ Hv. apply copy_set_iref. by eapply (wk_copy _ _ _ _ _ Hw).
Qed.

Lemma wk_fresh l δ i p d n :
  wk V sb base l δ → l !! i = Some p → iref p = 0 → 0 ≤ δ i → (∀ j q, l !! j = Some q → is_inode d n q = false) →
  wk V sb base (<[i := fresh_inode d n p]> l) (bump i 1 δ).
Proof.
  intros Hw Hp H0 Hδ Hno. apply (wk_put l δ i p); try done; cbn; try lia.
  - eapply icache_ok_insert; [apply Hw|exact Hp|cbn; lia|]. cbn. intros _ j q Hj Hq Hq0 E1 E2.
    specialize (Hno j q Hq). apply not_true_iff_false in Hno. apply Hno, is_inode_true. done.
  - intros p0 Hp0 Hpos. destruct (wk_ref _ _ _ _ _ Hw i p0 p Hp0 Hp) as [E _]. lia.
Qed.
End Wk.

(** Two entries of the cache are unused. *)
Definition two_free (l : list inode) : Prop :=
  ∃ i j p q, i ≠ j ∧ l !! i = Some p ∧ l !! j = Some q ∧ iref p = 0 ∧ iref q = 0.

Section Namei.
Context {S : Type} `{BS : BlockStore S} {SL : StoreLaws S} {DV : DevSw S}.
Implicit Types (s : fst S).
Context (s0 : fst S) (v : bview) (ns : gset Z).
Let V := v_blocks v.
Let sb := fsb s0.
Let base := icache s0.
Context (Hheld : v_held v = ∅) (Hroom : v_room v) (Hdisk : disk_ok V sb ns) (Hfree : two_free base).

(** A state during the lookup. *)
Record looking (own : gset nat) (δ : nat → Z) (s : fst S) : Prop := {
  lk_rel : st_rel (blk s) v;
  lk_fx : fx_ok own (fx s);
  lk_wk : wk V sb base (icache s) δ;
  lk_sb : fsb s = sb;
  lk_cwd : cwd s = cwd s0
}.

(** Entry [ip] is a reference to inode [n]. *)
Definition refers (s : fst S) (ip : nat) (n : Z) : Prop :=
  ∃ p, icache s !! ip = Some p ∧ 0 < iref p ∧ idev p = 1 ∧ inum p = n.

Lemma looking_blk own δ s B : looking own δ s → st_rel B v → looking own δ (set_blk B s).
Proof. intros [H1 H2 H3 H4 H5] HB. by split. Qed.

(** [iget] of an allocated inode. *)
Lemma L_iget t own δ s n (Q : nat → fst S → Prop) :
  looking own δ s → (∀ j, 0 ≤ δ j) → (∃ ip, ∀ j, j ≠ ip → δ j = 0) →
  (∀ i s', looking own (bump i 1 δ) s' → refers s' i n →
     (∀ j p, j ≠ i → icache s !! j = Some p → icache s' !! j = Some p) →
     (∀ p, icache s !! i = Some p → 0 < iref p → icache s' !! i = Some (set_iref (iref p + 1) p)) → Q i s') →
  wpg t (iget 1 n) Q s.
Proof.
  intros [HR Hfx Hw Hsb Hcwd] Hδ [ip Hip] HQ. pose proof (wk_ok _ _ _ _ _ Hw) as Hok.
  apply F_iget; [apply Hfx|exact Hok| |].
  - intros i p Hp [Hpos [Hd Hn]]%is_inode_true. pose proof (lookup_lt_Some _ _ _ Hp) as Hlt. apply HQ.
    + split; try done. cbn. by apply wk_step; [| |lia|lia].
    + eexists. cbn. rewrite list_lookup_insert_eq by done. split; [done|]. cbn. split_and!; [lia|done|done].
    + intros j q Hj Hq. cbn. by rewrite list_lookup_insert_ne.
    + intros q Hq _. cbn. rewrite list_lookup_insert_eq by done. congruence.
  - intros Hno. split.
    + destruct Hfree as (i & j & p & q & Hij & Hp & Hq & Hp0 & Hq0).
      assert (∃ k pk, k ≠ ip ∧ base !! k = Some pk ∧ iref pk = 0) as (k & pk & Hk & Hpk & Hk0).
      { destruct (decide (i = ip)) as [->|]; [exists j, q|exists i, p]; split_and!; try done; congruence. }
      destruct (lookup_lt_is_Some_2 (icache s) k) as [p' Hp'].
      { rewrite (wk_len _ _ _ _ _ Hw). by eapply lookup_lt_Some. }
      exists k, p'. split; [done|]. destruct (wk_ref _ _ _ _ _ Hw k pk p' Hpk Hp') as [E _]. rewrite Hip in E by done. lia.
    + intros i p Hp H0 _. pose proof (lookup_lt_Some _ _ _ Hp) as Hlt. apply HQ.
      * split; try done. cbn. by apply wk_fresh.
      * eexists. cbn. rewrite list_lookup_insert_eq by done. split; [done|]. done.
      * intros j q Hj Hq. cbn. by rewrite list_lookup_insert_ne.
      * intros q Hq Hpos. exfalso. assert (q = p) as -> by congruence. lia.
Qed.

(** [ilock] makes the entry a copy of the inode. *)
Lemma L_ilock t δ s ip n (Q : unit → fst S → Prop) :
  looking ∅ δ s → refers s ip n → n ∈ ns →
  (∀ s' p, looking {[ip]} δ s' → icache s' !! ip = Some p → 0 < iref p → idev p = 1 → inum p = n → valid p ≠ 0 → copy_of V sb p →
     Q tt s') → wpg t (ilock (Some ip)) Q s.
Proof.
  intros [HR Hfx Hw Hsb Hcwd] (p & Hp & Hpos & Hd & Hn) Hns HQ. destruct (Hdisk n Hns) as [[Hblk Hty Hlk _] _].
  pose proof (lookup_lt_Some _ _ _ Hp) as Hlt.
  assert (copy_of V sb (locked_inode V sb p) ∧ valid (locked_inode V sb p) ≠ 0) as [Hc Hv].
  { unfold locked_inode. destruct (valid p =? 0) eqn:E; [done|]. apply Z.eqb_neq in E. split; [|done].
    by eapply (wk_copy _ _ _ _ _ Hw). }
  assert (iref (locked_inode V sb p) = iref p ∧ idev (locked_inode V sb p) = 1 ∧ inum (locked_inode V sb p) = n) as (H1 & H2 & H3).
  { unfold locked_inode. by destruct (valid p =? 0). }
  eapply (F_ilock t s v ip p ∅); [exact HR|done|done|exact Hfx|set_solver|exact Hp|lia|done|by rewrite Hn, Hsb| |].
  { rewrite Hn, Hsb. exact Hty. }
  intros B x HB Hx. rewrite Hsb. apply (HQ _ (locked_inode V sb p)); [|cbn; by apply list_lookup_insert_eq|lia|done|done|done|done].
  split; cbn; try done.
  - by rewrite union_empty_r_L in Hx.
  - apply wk_same with p; [exact Hw|exact Hp|exact H1|exact (eq_trans H2 (eq_sym Hd))|exact (eq_trans H3 (eq_sym Hn))|intros _; exact Hc].
Qed.

Lemma L_iunlockput t δ s ip p (Q : unit → fst S → Prop) :
  looking {[ip]} δ s → icache s !! ip = Some p → 0 < iref p → inlink p ≠ 0 →
  (∀ s', looking ∅ (bump ip (-1) δ) s' → (∀ j q, j ≠ ip → icache s !! j = Some q → icache s' !! j = Some q) →
     icache s' !! ip = Some (set_iref (iref p - 1) p) → Q tt s') →
  wpg t (iunlockput ip) Q s.
Proof.
  intros [HR Hfx Hw Hsb Hcwd] Hp Hpos Hlk HQ. pose proof (lookup_lt_Some _ _ _ Hp) as Hlt.
  eapply (F_iunlockput t s ip p {[ip]}); [exact Hfx|set_solver|exact Hp|lia|by right; left|].
  intros x Hx. apply HQ.
  - split; cbn; try done.
    + by rewrite difference_diag_L in Hx.
    + replace (iref p - 1) with (iref p + -1) by lia. apply wk_step; [done|done|done|lia].
  - intros j q Hj Hq. cbn. by rewrite list_lookup_insert_ne.
  - cbn. by apply list_lookup_insert_eq.
Qed.

(** The result of a lookup that leads to [o]. *)
Definition found (o : option Z) (r : option nat) (s : fst S) : Prop :=
  match o with
  | Some n => ∃ i, r = Some i ∧ looking ∅ (bump i 1 (λ _, 0)) s ∧ refers s i n
  | None => r = None ∧ looking ∅ (λ _, 0) s
  end.

Lemma bump_nonneg i j : 0 ≤ bump i 1 (λ _, 0) j.
Proof. unfold bump. destruct (decide (j = i)); lia. Qed.

Lemma looking_ext own δ δ' s : looking own δ s → (∀ j, δ j = δ' j) → looking own δ' s.
Proof. intros [H1 H2 H3 H4 H5] E. split; try done. by eapply wk_ext. Qed.

Lemma L_namex_loop t fuel : ∀ s ip n path name (Q : option nat * bytes → fst S → Prop),
  looking ∅ (bump ip 1 (λ _, 0)) s → refers s ip n → n ∈ ns → 0 ∉ path → length name = DIRSIZ → (length path < fuel)%nat →
  (∀ r nm s', found (walk V sb n (elems path)) r s' → Q (r, nm) s') →
  wpg t (namex_loop fuel ip path false name) Q s.
Proof.
  induction fuel as [|fuel IH]; intros s ip n path name Q Hl Hr Hns H0 Hnm Hfu HQ; [lia|]. cbn [namex_loop].
  pose proof (skipelem_elems path name H0 Hnm) as Hsk. destruct (skipelem path name) as [[rest name']|].
  2:{ apply wpg_ret, HQ. rewrite Hsk. exists ip. done. }
  destruct Hsk as (e & He & Hkey & Hnm' & _ & Hlen & H0' & _). rewrite He in HQ. cbn [walk] in HQ.
  apply wpg_bind. eapply L_ilock; [exact Hl|exact Hr|exact Hns|]. intros s1 p Hl1 Hp Hpos Hd Hn Hv Hc.
  destruct (Hdisk n Hns) as [[_ _ Hlk Hdir] Hents]. destruct (copy_type _ _ _ Hc) as (Ety & Esz & Ead & Elk). rewrite Hn in *.
  apply wpg_bind. eapply F_ino; [exact Hp|]. rewrite Ety. destruct (itype (disk_inode V sb n) =? T_DIR) eqn:Et; cbn [negb].
  2:{ apply wpg_bind. eapply L_iunlockput; [exact Hl1|exact Hp|done|by rewrite Elk|]. intros s2 Hl2 _ _. apply wpg_ret, HQ.
      split; [done|]. eapply looking_ext; [exact Hl2|]. intros j. unfold bump. destruct (decide (j = ip)); lia. }
  cbn [andb]. apply Z.eqb_eq in Et. destruct (Hdir Et) as (lim & Hok & Hsz & Hmod).
  assert (file_ok V p lim) as Hokp by (by eapply file_ok_ext).
  apply wpg_bind. eapply (F_dirlookup t s1 v ip p lim name' (take DIRSIZ e)); [apply Hl1|done|done|exact Hp|by rewrite Ety|exact Hokp| | |done|done|].
  { by rewrite Esz. } { by rewrite Esz. }
  fold V. rewrite (dir_find_ext V p (disk_inode V sb n)) by done. destruct (dir_find _ _ _) as [k|] eqn:Ef.
  - intros B HB. rewrite Hd, (dirent_ext V p (disk_inode V sb n)) by done. set (m := de_inum _) in *.
    assert (m ∈ ns) as Hm.
    { assert (0 ≤ k < isize (disk_inode V sb n) / 16 ∧ m ≠ 0) as [Hk Hm0].
      { unfold dir_find in Ef. assert (∀ f k0, dir_find_from V (disk_inode V sb n) (take DIRSIZ e) f k0 = Some k → k0 ≤ k < k0 + Z.of_nat f ∧ m ≠ 0) as Hg.
        { induction f as [|f IHf]; intros k0; [done|]. cbn [dir_find_from]. destruct (dirent_is _ _ _ k0) eqn:Ei.
          - intros [= ->]. split; [lia|]. unfold dirent_is in Ei. apply andb_true_iff in Ei as [Ei _].
            apply negb_true_iff, Z.eqb_neq in Ei. exact Ei.
          - intros Hg. apply IHf in Hg. lia. }
        apply Hg in Ef. lia. }
      destruct (Hents Et k Hk) as [E|E]; [by destruct Hm0|exact E]. }
    eapply (L_iget t {[ip]}); [by apply looking_blk|apply bump_nonneg| |].
    { exists ip. intros j Hj. unfold bump. by rewrite decide_False. }
    intros i s2 Hl2 Hri Hfr Hfi. cbn [icache set_blk] in Hfr, Hfi.
    set (q := if decide (i = ip) then set_iref (iref p + 1) p else p).
    assert (icache s2 !! ip = Some q ∧ 0 < iref q ∧ inlink q = inlink p ∧ (i = ip → 1 < iref q)) as (Hq & Hqpos & Hql & Hq2).
    { unfold q. destruct (decide (i = ip)) as [->|]; [split_and!; [by apply Hfi|cbn; lia|done|cbn; lia]|].
      split_and!; [apply Hfr; [congruence|done]|done|done|done]. }
    apply wpg_bind. eapply L_iunlockput; [exact Hl2|exact Hq|done|by rewrite Hql, Elk|]. intros s3 Hl3 Hfr3 Hi3.
    apply IH with m; try done; [| |lia].
    + eapply looking_ext; [exact Hl3|]. intros j. unfold bump. destruct (decide (j = i)), (decide (j = ip)); lia.
    + destruct Hri as (pi & Hpi & Hpi0 & Hpid & Hpin). destruct (decide (i = ip)) as [->|Hne].
      * assert (pi = q) as -> by congruence. exists (set_iref (iref q - 1) q). split_and!; try done. cbn [iref set_iref].
        specialize (Hq2 eq_refl). lia.
      * exists pi. split_and!; try done. by apply Hfr3.
  - intros B HB. apply wpg_bind. eapply L_iunlockput; [by apply looking_blk|exact Hp|done|by rewrite Elk|].
    intros s2 Hl2 _ _. apply wpg_ret, HQ. split; [done|].
    eapply looking_ext; [exact Hl2|]. intros j. unfold bump. destruct (decide (j = ip)); lia.
Qed.
End Namei.

(** No inode is locked, two entries of the cache are unused, the entries in
    use are distinct and the valid ones are copies of the disk's. *)
Record quiet {S : Type} `{BS : BlockStore S} {SL : StoreLaws S} (s : fst S) (v : bview) : Prop := {
  qt_rel : st_rel (blk s) v;
  qt_held : v_held v = ∅;
  qt_room : v_room v;
  qt_fx : fx_ok ∅ (fx s);
  qt_icache : icache_ok (icache s);
  qt_copy : ∀ j p, icache s !! j = Some p → 0 < iref p → valid p ≠ 0 → copy_of (v_blocks v) (fsb s) p;
  qt_free : two_free (icache s)
}.

(** C23. [namei] returns the inode that the path leads to: starting from the
    root for a path that begins with a slash, and from the current directory
    otherwise, each element of the path, cut to fourteen bytes, is looked up
    among the entries of the directory reached so far.  If every element is
    found in a directory, the result is an entry of the inode cache for that
    inode with one more reference, and no other entry's count has changed;
    otherwise the result is null and no count has changed.  No lock remains
    held and no block is changed. *)
Theorem namei_walks {S : Type} `{BS : BlockStore S} {SL : StoreLaws S} {DV : DevSw S} (s : fst S) v ns path nc :
  quiet s v → disk_ok (v_blocks v) (fsb s) ns → 0 ∉ path → nc ∈ ns →
  (if bool_decide (head path = Some 47) then nc = ROOTINO else refers s (cwd s) nc) →
  ∃ r s', namei path s = Ok (r, s') ∧ found s v (walk (v_blocks v) (fsb s) nc (elems path)) r s'.
Proof.
  intros [HR Hh Hroom Hfx Hic Hcp Hfree] Hdisk H0 Hnc Hstart.
  assert (looking s v ∅ (λ _, 0) s) as Hl.
  { split; try done. split; [exact Hic|done| |exact Hcp]. intros j p0 p H1 H2. assert (p = p0) as -> by congruence. lia. }
  destruct (wp_ok (namei path) (λ r s', found s v (walk (v_blocks v) (fsb s) nc (elems path)) r s') s) as (r & s' & E & Hf); [|eauto].
  unfold namei, namex. apply wpg_bind, wpg_bind.
  assert (∀ i s', looking s v ∅ (bump i 1 (λ _, 0)) s' → refers s' i nc →
    wpg true (namex_loop (Datatypes.S (length path)) i path false (replicate DIRSIZ 0))
      (λ r s', wpg true (mret r.1) (found s v (walk (v_blocks v) (fsb s) nc (elems path))) s') s') as Hloop.
  { intros i s' Hl' Hr'. eapply (L_namex_loop s v ns Hh Hroom Hdisk Hfree); [exact Hl'|exact Hr'|exact Hnc|exact H0|done|lia|].
    intros r nm s2 Hs2. by apply wpg_ret. }
  case_bool_decide as Hhd.
  - subst nc. eapply (L_iget s v Hfree true ∅); [exact Hl|done|by exists 0%nat|]. intros i s' Hl' Hr' _ _. by apply Hloop.
  - apply wpg_bind, wpg_gets. destruct Hstart as (p & Hp & Hpos & Hd & Hn). pose proof (lookup_lt_Some _ _ _ Hp).
    eapply F_idup; [apply Hfx|exact Hp|]. apply Hloop.
    + destruct Hl as [H1 H2 H3 H4 H5]. split; try done. cbn. by apply wk_step; [| |lia|lia].
    + exists (set_iref (iref p + 1) p). cbn. rewrite list_lookup_insert_eq by done. split_and!; try done. lia.
Qed.

(** ** The small disk *)

Definition fs_root : inode := disk_inode (v_blocks fs_view) demo_sb 1.

Lemma fs_inode_block : v_blocks fs_view !! 8 = Some demo_inodes.
Proof. apply fs_view_lookup; [vm_compute; reflexivity|lia|lia]. Qed.

Lemma fs_root_ok : file_ok (v_blocks fs_view) fs_root 1.
Proof.
  split; try (vm_compute; reflexivity).
  - split; apply Z.leb_le; vm_compute; reflexivity.
  - intros bn Hbn. assert (bn = 0) as -> by lia. vm_compute. discriminate.
  - intros H. apply Z.ltb_lt in H. vm_compute in H. discriminate H.
  - intros bn Hbn. assert (bn = 0) as -> by lia. exists demo_dir. split; [|reflexivity].
    change (blk_addr _ _ 0) with 10. apply fs_view_lookup; [vm_compute; reflexivity|lia|lia].
Qed.

Lemma fs_disk_ok : disk_ok (v_blocks fs_view) demo_sb {[1; 2]}.
Proof.
  intros n Hn. apply elem_of_union in Hn as [->%elem_of_singleton| ->%elem_of_singleton].
  - split.
    + split; [exists demo_inodes; exact fs_inode_block|vm_compute; discriminate|vm_compute; discriminate|].
      intros _. exists 1. split; [exact fs_root_ok|]. split; [split; apply Z.leb_le; vm_compute; reflexivity|vm_compute; reflexivity].
    + intros _ k Hk. change (isize _ / 16) with 2 in Hk. assert (k = 0 ∨ k = 1) as [->| ->] by lia; right.
      * apply elem_of_union_l, elem_of_singleton. vm_compute. reflexivity.
      * apply elem_of_union_r, elem_of_singleton. vm_compute. reflexivity.
  - split; [split; [exists demo_inodes; exact fs_inode_block|vm_compute; discriminate|vm_compute; discriminate|]|];
      intros H; vm_compute in H; discriminate H.
Qed.

(** ["//f"], from the root. *)
Lemma namei_walks_witness :
  ∃ b i s', namei [47; 47; 102] (demo_fs b) = Ok (Some i, s') ∧ refers s' i 2.
Proof.
  destruct fs_booted as (b & _ & Hrel). exists b.
  destruct (namei_walks (demo_fs b) fs_view {[1; 2]} [47; 47; 102] 1) as (r & s' & E & Hf).
  - split.
    + exact Hrel.
    + reflexivity.
    + eapply budget_room, (budget_le 1 5); [lia|exact fs_budget].
    + split; [reflexivity|]. intros i. rewrite bool_decide_false by set_solver. reflexivity.
    + split.
      * intros i p [-> _]%lookup_replicate_1. by vm_compute.
      * intros i j p q [-> _]%lookup_replicate_1. cbn. lia.
    + intros j p [-> _]%lookup_replicate_1. cbn. lia.
    + exists 0%nat, 1%nat, demo_file, demo_file. split_and!; reflexivity || discriminate.
  - exact fs_disk_ok.
  - apply (bool_decide_unpack _). reflexivity.
  - apply elem_of_union_l, elem_of_singleton. reflexivity.
  - reflexivity.
  - assert (walk (v_blocks fs_view) (fsb (demo_fs b)) 1 (elems [47; 47; 102]) = Some 2) as Ew by (vm_compute; reflexivity).
    rewrite Ew in Hf. destruct Hf as (i & -> & _ & Hr). exists i, s'. split; [exact E|exact Hr].
Defined.
