(* ===== verification/Pipe.v ===== *)
(** * Pipes (pipe.c)

    The ring buffer of a pipe and its two counters.  The pipe's lock is taken
    and given back by each operation, and [sleep] gives the core away, so a call
    that has to wait is described by its outcome up to there: [PWait].  The
    theorem of this file: a pipe is a bounded queue of bytes. *)

From S2P Require Export Bytes Kctx.
Local Open Scope Z_scope.

Definition PIPESIZE : Z := 512.

(** [struct pipe]. *)
Record pipe := mkPipe {
  pdata : bytes;
  nread : Z;
  nwrite : Z;
  readopen : Z;
  writeopen : Z
}.
Definition set_pdata (v : bytes) (p : pipe) : pipe := mkPipe v (nread p) (nwrite p) (readopen p) (writeopen p).
Definition set_nread (v : Z) (p : pipe) : pipe := mkPipe (pdata p) v (nwrite p) (readopen p) (writeopen p).
Definition set_nwrite (v : Z) (p : pipe) : pipe := mkPipe (pdata p) (nread p) v (readopen p) (writeopen p).
Definition set_readopen (v : Z) (p : pipe) : pipe := mkPipe (pdata p) (nread p) (nwrite p) v (writeopen p).
Definition set_writeopen (v : Z) (p : pipe) : pipe := mkPipe (pdata p) (nread p) (nwrite p) (readopen p) v.

(** The page that holds the pipe, [None] after [kfree], and the context. *)
Record pst := mkPst { pp : option pipe; px : ctx }.
Definition set_pp (o : option pipe) (s : pst) : pst := mkPst o (px s).
Definition set_px (x : ctx) (s : pst) : pst := mkPst (pp s) x.
Definition onpx {A} (m : M ctx A) : M pst A := zoom px set_px m.
Definition pipe_get : M pst pipe := deref pp.
Definition pipe_set (f : pipe → pipe) : M pst unit := p ← pipe_get; modify (set_pp (Some (f p))).

(** A call returns a value, or sleeps: with what is left of its work, to go on
    with when it is woken up. *)
Inductive presult (A K : Type) := PRet (a : A) | PWait (k : K).
Arguments PRet {A K}.
Arguments PWait {A K}.

(** [pipealloc] once the page is there. *)
Definition pipe_init : pipe → pipe :=
  λ p, mkPipe (pdata p) 0 0 1 1.

Definition pipeclose (writable : bool) : M pst unit :=
  onpx (acquire_lk L_pipe) ;;
  (if writable then pipe_set (set_writeopen 0) ;; onpx (wakeup_ch W_pipe_read)
   else pipe_set (set_readopen 0) ;; onpx (wakeup_ch W_pipe_write)) ;;
  p ← pipe_get;
  if (readopen p =? 0) && (writeopen p =? 0) then
    onpx (release_lk L_pipe) ;;
    modify (set_pp None)
  else onpx (release_lk L_pipe).

(** The loops of [pipewrite], from byte [i] on, with the lock held.  [src] is
    what is left of [addr]. *)
Fixpoint pipewrite_loop (src : bytes) : M pst (presult bool bytes) :=
  match src with
  | [] => mret (PRet true)
  | c :: src' =>
      p ← pipe_get;
      if nwrite p =? u32 (nread p + PIPESIZE) then
        k ← gets (λ s, cur_killed (px s));
        if (readopen p =? 0) || negb (k =? 0) then mret (PRet false)
        else
          onpx (wakeup_ch W_pipe_read) ;;
          mret (PWait src)
      else
        modify (set_pp (Some (mkPipe (<[Z.to_nat (nwrite p mod PIPESIZE) := c]> (pdata p)) (nread p) (u32 (nwrite p + 1)) (readopen p) (writeopen p)))) ;;
        pipewrite_loop src'
  end.

(** [n] is the argument, which [pipewrite] returns; [src] is the memory at
    [addr], from which the loop takes what it still has to write: the callers
    give the [n] bytes of the argument. *)
Definition pipewrite_from (src : bytes) (n : Z) : M pst (presult Z bytes) :=
  r ← pipewrite_loop src;
  match r with
  | PWait k => mret (PWait k)
  | PRet false => onpx (release_lk L_pipe) ;; mret (PRet (-1))
  | PRet true =>
      onpx (wakeup_ch W_pipe_read) ;;
      onpx (release_lk L_pipe) ;;
      mret (PRet n)
  end.
Definition pipewrite (addr : bytes) (n : Z) : M pst (presult Z bytes) :=
  onpx (acquire_lk L_pipe) ;; pipewrite_from (take (Z.to_nat n) addr) n.

(** The bytes copied to [addr]. *)
Fixpoint piperead_copy (n : nat) : M pst bytes :=
  match n with
  | O => mret []
  | S n =>
      p ← pipe_get;
      if nread p =? nwrite p then mret []
      else
        c ← deref (λ _, pdata p !! Z.to_nat (nread p mod PIPESIZE));
        pipe_set (set_nread (u32 (nread p + 1))) ;;
        l ← piperead_copy n;
        mret (c :: l)
  end.

(** One turn of the loop of [piperead], with the lock held. *)
Definition piperead_turn (n : Z) : M pst (presult (Z * bytes) unit) :=
  p ← pipe_get;
  if (nread p =? nwrite p) && negb (writeopen p =? 0) then
    k ← gets (λ s, cur_killed (px s));
    if negb (k =? 0) then onpx (release_lk L_pipe) ;; mret (PRet (-1, []))
    else mret (PWait tt)
  else
    l ← piperead_copy (Z.to_nat n);
    onpx (wakeup_ch W_pipe_write) ;;
    onpx (release_lk L_pipe) ;;
    mret (PRet (Z.of_nat (length l), l)).
Definition piperead (n : Z) : M pst (presult (Z * bytes) unit) :=
  onpx (acquire_lk L_pipe) ;; piperead_turn n.

(** ** A pipe is a queue of bytes *)

(** The bytes in the pipe, oldest first. *)
Record pipe_rep (p : pipe) (q : bytes) : Prop := {
  pr_len : length (pdata p) = 512%nat;
  pr_fits : (length q ≤ 512)%nat;
  pr_read : 0 ≤ nread p < 2 ^ 32;
  pr_write : nwrite p = u32 (nread p + Z.of_nat (length q));
  pr_data : ∀ i c, q !! i = Some c → pdata p !! Z.to_nat ((nread p + Z.of_nat i) mod PIPESIZE) = Some c
}.

Lemma mod_pow z : u32 z mod PIPESIZE = z mod PIPESIZE.
Proof.
  unfold u32. change PIPESIZE with 512. change (2 ^ 32) with (512 * 8388608). rewrite Z.rem_mul_r by lia.
  rewrite Z.mul_comm, Z_mod_plus_full. apply Z.mod_mod. lia.
Qed.

Lemma u32_eq a b : u32 a = u32 b → - 2 ^ 32 < a - b < 2 ^ 32 → a = b.
Proof.
  unfold u32. intros E Hab. pose proof (Z.div_mod a (2 ^ 32) ltac:(lia)). pose proof (Z.div_mod b (2 ^ 32) ltac:(lia)). nia.
Qed.

Lemma rep_full p q : pipe_rep p q → (nwrite p =? u32 (nread p + PIPESIZE)) = bool_decide (length q = 512)%nat.
Proof.
  intros [_ Hf Hr Hw _]. rewrite Hw. case_bool_decide as E; [rewrite E; by rewrite Z.eqb_refl|].
  apply Z.eqb_neq. intros E'. apply u32_eq in E'; change PIPESIZE with 512 in *; lia.
Qed.

Lemma rep_empty p q : pipe_rep p q → (nread p =? nwrite p) = bool_decide (q = []).
Proof.
  intros [_ Hf Hr Hw _]. rewrite Hw. case_bool_decide as E.
  - subst. cbn. rewrite Z.add_0_r, u32_id by done. by rewrite Z.eqb_refl.
  - apply Z.eqb_neq. rewrite <- (u32_id (nread p)) at 1 by done. intros E'. apply u32_eq in E'; [|lia].
    destruct q; [done|cbn in E'; lia].
Qed.

Lemma mod_inj a b : 0 ≤ a - b < PIPESIZE → a mod PIPESIZE = b mod PIPESIZE → a = b.
Proof.
  intros Hab E. pose proof (Z.div_mod a PIPESIZE ltac:(done)). pose proof (Z.div_mod b PIPESIZE ltac:(done)).
  change PIPESIZE with 512 in *. nia.
Qed.

Lemma rep_push p q c :
  pipe_rep p q → (length q < 512)%nat →
  pipe_rep (mkPipe (<[Z.to_nat (nwrite p mod PIPESIZE) := c]> (pdata p)) (nread p) (u32 (nwrite p + 1)) (readopen p) (writeopen p)) (q ++ [c]).
Proof.
  intros [Hl Hf Hr Hw Hd] Hlt. pose proof (Z.mod_pos_bound (nwrite p) PIPESIZE ltac:(done)) as Hm.
  split; cbn.
  - by rewrite length_insert.
  - rewrite length_app; cbn. lia.
  - done.
  - rewrite Hw, length_app; cbn. unfold u32. rewrite Zplus_mod_idemp_l. f_equal. lia.
  - intros i d Hi. rewrite Hw, mod_pow. apply lookup_app_Some in Hi as [Hi|[Hi Hd']].
    + pose proof (lookup_lt_Some _ _ _ Hi) as Hlti. rewrite list_lookup_insert_ne; [by apply Hd|].
      intros E. apply Z2Nat.inj in E; [|apply Z.mod_pos_bound; done|apply Z.mod_pos_bound; done].
      apply mod_inj in E; [lia|]. change PIPESIZE with 512. lia.
    + apply list_lookup_singleton_Some in Hd' as [Hi0 <-]. replace i with (length q) by lia.
      apply list_lookup_insert_eq. rewrite Hl. change PIPESIZE with 512 in *.
      pose proof (Z.mod_pos_bound (nread p + Z.of_nat (length q)) 512 ltac:(lia)). lia.
Qed.

Lemma rep_pop p c q : pipe_rep p (c :: q) → pipe_rep (set_nread (u32 (nread p + 1)) p) q.
Proof.
  intros [Hl Hf Hr Hw Hd]. split; cbn.
  - done.
  - cbn in Hf. lia.
  - apply u32_range.
  - rewrite Hw. unfold u32. cbn [length]. rewrite Zplus_mod_idemp_l. f_equal. lia.
  - intros i d Hi. rewrite <- (Hd (S i) d) by done. do 2 f_equal.
    rewrite <- Zplus_mod_idemp_l, mod_pow, Zplus_mod_idemp_l. f_equal. lia.
Qed.

Section Rules.
Context (t : bool).
Implicit Types (s : pst).

Lemma wpg_onpx {A} (m : M ctx A) a x (Q : A → pst → Prop) s :
  m (px s) = Ok (a, x) → Q a (set_px x s) → wpg t (onpx m) Q s.
Proof. intros E HQ. apply (wpg_zoom t px set_px). unfold wpg. by rewrite E. Qed.

(** The outcome of writing [src] to a pipe that holds [q]: the queue
    afterwards and, if not everything fits, the rest. *)
Definition pushed (q src : bytes) : bytes := q ++ take (512 - length q) src.

Lemma wpg_pipewrite_loop src : ∀ p q x (Q : presult bool bytes → pst → Prop),
  pipe_rep p q →
  (∀ p' x', pipe_rep p' (pushed q src) → readopen p' = readopen p → writeopen p' = writeopen p →
     held x' = held x → sleeps x' = sleeps x → cur_pid x' = cur_pid x → cur_killed x' = cur_killed x →
     match drop (512 - length q) src with
     | [] => x' = x → Q (PRet true) (mkPst (Some p') x')
     | rest => if (readopen p =? 0) || negb (cur_killed x =? 0) then Q (PRet false) (mkPst (Some p') x')
               else W_pipe_read ∈ woken x' → Q (PWait rest) (mkPst (Some p') x')
     end) →
  wpg t (pipewrite_loop src) Q (mkPst (Some p) x).
Proof.
  induction src as [|c src IH]; intros p q x Q Hr HQ; cbn [pipewrite_loop].
  - apply wpg_ret. specialize (HQ p x). unfold pushed in HQ. rewrite take_nil, drop_nil, app_nil_r in HQ. by apply HQ.
  - apply wpg_bind. eapply wpg_deref; [reflexivity|]. rewrite (rep_full p q Hr). case_bool_decide as Hfull.
    + apply wpg_bind, wpg_gets. cbn [px]. unfold pushed in HQ. rewrite Hfull, Nat.sub_diag in HQ. cbn [take drop] in HQ.
      rewrite app_nil_r in HQ. destruct (_ || _) eqn:E.
      * apply wpg_ret. by apply HQ.
      * apply wpg_bind. eapply wpg_onpx; [reflexivity|]. apply wpg_ret. by apply (HQ p (add_woken W_pipe_read x)); [..|left].
    + pose proof (pr_fits _ _ Hr). apply wpg_bind, (wpg_modify t). eapply (IH _ (q ++ [c])); [apply rep_push; [done|lia]|].
      intros p' x' Hp'. cbn [readopen writeopen]. unfold pushed in *. rewrite length_app in *. cbn [length] in *.
      intros E1 E2 E3 E4 E5 E6. replace (512 - length q)%nat with (S (512 - (length q + 1))) in HQ by lia. cbn [take drop] in HQ.
      rewrite <- app_assoc in Hp'. by apply HQ.
Qed.

Lemma wpg_piperead_copy n : ∀ p q x (Q : bytes → pst → Prop),
  pipe_rep p q →
  (∀ p', pipe_rep p' (drop n q) → readopen p' = readopen p → writeopen p' = writeopen p → Q (take n q) (mkPst (Some p') x)) →
  wpg t (piperead_copy n) Q (mkPst (Some p) x).
Proof.
  induction n as [|n IH]; intros p q x Q Hr HQ; cbn [piperead_copy].
  - by apply wpg_ret, HQ.
  - apply wpg_bind. eapply wpg_deref; [reflexivity|]. rewrite (rep_empty p q Hr). case_bool_decide as E.
    + subst. by apply wpg_ret, HQ.
    + destruct q as [|c q]; [done|]. pose proof (pr_data _ _ Hr 0%nat c eq_refl) as Hc. rewrite Z.add_0_r in Hc.
      apply wpg_bind. eapply wpg_deref; [exact Hc|].
      apply wpg_bind, wpg_bind. eapply wpg_deref; [reflexivity|]. apply (wpg_modify t).
      change (set_pp _ _) with (mkPst (Some (set_nread (u32 (nread p + 1)) p)) x).
      apply wpg_bind. eapply (IH _ q); [by apply rep_pop with c|]. intros p' Hp' E1 E2. apply wpg_ret. by apply HQ.
Qed.
End Rules.

(** The context of a call that is through, and of one that waits holding
    the pipe's lock. *)
Definition woke (w : waitchan) (x x' : ctx) : Prop := w ∈ woken x' ∧ held x' = [] ∧ cur_killed x' = cur_killed x.
Definition waiting (x x' : ctx) : Prop := held x' = [L_pipe] ∧ cur_killed x' = cur_killed x.

Definition pipe_st (s : pst) (q : bytes) (r w : Z) : Prop := ∃ p, pp s = Some p ∧ pipe_rep p q ∧ readopen p = r ∧ writeopen p = w.

(** A call that starts with [acquire], and the [release] it ends with. *)
Lemma run_locked {A} (m : M pst A) (Q : A → pst → Prop) s :
  held (px s) = [] → wp m Q (set_px (set_held [L_pipe] (px s)) s) →
  ∃ a s', (onpx (acquire_lk L_pipe) ;; m) s = Ok (a, s') ∧ Q a s'.
Proof.
  intros Hh (a & s' & E & HQ)%wp_ok. exists a, s'. split; [|done].
  erewrite bind_ok; [exact E|]. destruct s as [o x]. unfold onpx, zoom. cbn [px]. by rewrite acquire_lk_ok.
Qed.

Lemma wpg_release_pipe t o x (Q : unit → pst → Prop) :
  held x = [L_pipe] →
  (∀ x', held x' = [] → woken x' = woken x → cur_killed x' = cur_killed x → Q tt (mkPst o x')) →
  wpg t (onpx (release_lk L_pipe)) Q (mkPst o x).
Proof.
  intros Hx HQ. apply (wpg_onpx t _ tt (set_held [] x)); [|by apply HQ]. cbn [px].
  unfold release_lk. erewrite bind_ok by reflexivity. rewrite Hx, bool_decide_true by (by left).
  unfold modify. by rewrite drop_lk_self.
Qed.

(** What a turn of [pipewrite] under the lock does. *)
Lemma wpg_pipewrite_from t src n p q x (Q : presult Z bytes → pst → Prop) :
  pipe_rep p q →
  let closed := (readopen p =? 0) || negb (cur_killed x =? 0) in
  (∀ p' x', pipe_rep p' (pushed q src) → readopen p' = readopen p → writeopen p' = writeopen p →
     cur_killed x' = cur_killed x →
     match drop (512 - length q) src with
     | [] => W_pipe_read ∈ woken x' → held x' = [] → Q (PRet n) (mkPst (Some p') x')
     | rest =>
         if closed then held x' = [] → Q (PRet (-1)) (mkPst (Some p') x')
         else W_pipe_read ∈ woken x' → held x' = [L_pipe] → Q (PWait rest) (mkPst (Some p') x')
     end) →
  held x = [L_pipe] → wpg t (pipewrite_from src n) Q (mkPst (Some p) x).
Proof.
  intros Hr closed HQ Hx. unfold pipewrite_from. apply wpg_bind. eapply wpg_pipewrite_loop; [exact Hr|].
  intros p' x' Hp' E1 E2 E3 E4 E5 E6. specialize (HQ p'). fold closed.
  destruct (drop (512 - length q) src) as [|c rest].
  - intros ->. apply wpg_bind. eapply wpg_onpx; [reflexivity|]. cbn [px].
    apply wpg_bind, wpg_release_pipe; [done|]. intros x2 Hx2 Hw2 Hk2.
    apply wpg_ret, HQ; [done..|rewrite Hw2; by left|done].
  - destruct closed.
    + apply wpg_bind, wpg_release_pipe; [by rewrite E3|]. intros x2 Hx2 Hw2 Hk2.
      apply wpg_ret, HQ; [done..|congruence|done].
    + intros Hwk. apply wpg_ret, HQ; [done..|congruence].
Qed.

(** A turn of [piperead] that copies, and one that finds nothing. *)
Lemma wpg_piperead_data t n p q x (Q : presult (Z * bytes) unit → pst → Prop) :
  pipe_rep p q → q ≠ [] ∨ writeopen p = 0 → held x = [L_pipe] →
  (∀ p' x', pipe_rep p' (drop (Z.to_nat n) q) → readopen p' = readopen p → writeopen p' = writeopen p →
     woke W_pipe_write x x' →
     Q (PRet (Z.of_nat (length (take (Z.to_nat n) q)), take (Z.to_nat n) q)) (mkPst (Some p') x')) →
  wpg t (piperead_turn n) Q (mkPst (Some p) x).
Proof.
  intros Hr Hne Hx HQ. unfold piperead_turn. apply wpg_bind. eapply wpg_deref; [reflexivity|].
  rewrite (rep_empty p q Hr).
  replace (bool_decide (q = []) && negb (writeopen p =? 0)) with false by
    (destruct Hne as [Hne|Hne]; [by rewrite bool_decide_false|rewrite Hne; by rewrite andb_false_r]).
  apply wpg_bind. eapply wpg_piperead_copy; [exact Hr|]. intros p' Hp' E1 E2.
  apply wpg_bind. eapply wpg_onpx; [reflexivity|]. cbn [px].
  apply wpg_bind, wpg_release_pipe; [done|]. intros x2 Hx2 Hw2 Hk2.
  apply wpg_ret, HQ; [done..|]. split_and!; [rewrite Hw2; by left|done..].
Qed.

Lemma wpg_piperead_empty t n p x (Q : presult (Z * bytes) unit → pst → Prop) :
  pipe_rep p [] → writeopen p ≠ 0 → held x = [L_pipe] →
  (∀ x', cur_killed x' = cur_killed x →
     if negb (cur_killed x =? 0) then held x' = [] → Q (PRet (-1, [])) (mkPst (Some p) x')
     else held x' = [L_pipe] → Q (PWait tt) (mkPst (Some p) x')) →
  wpg t (piperead_turn n) Q (mkPst (Some p) x).
Proof.
  intros Hr Hw Hx HQ. unfold piperead_turn. apply wpg_bind. eapply wpg_deref; [reflexivity|].
  rewrite (rep_empty p [] Hr), bool_decide_true, (proj2 (Z.eqb_neq _ 0)) by done. cbn [negb andb].
  apply wpg_bind, wpg_gets. change (px (mkPst (Some p) x)) with x. destruct (negb (cur_killed x =? 0)).
  - apply wpg_bind, wpg_release_pipe; [done|]. intros x2 Hx2 _ Hk2. by apply wpg_ret, HQ.
  - by apply wpg_ret, HQ.
Qed.

(** C26. A pipe is a first-in first-out queue of at most 512 bytes, also when
    its 32-bit counters wrap around.  A call of [pipewrite], or what is left of
    one that has been woken up, appends its bytes and returns their number when
    they fit; when they do not, it fills the queue and waits with the rest, or
    returns -1 if the read end is closed or the process killed.  [piperead]
    removes and returns the oldest bytes, at most the number asked for; on an
    empty queue it returns 0 if the write end is closed, and otherwise waits,
    or returns -1 if the process is killed. *)
Theorem pipe_is_fifo s q r w :
  pipe_st s q r w → held (px s) = [] →
  let locked := set_px (set_held [L_pipe] (px s)) s in
  let killed := negb (cur_killed (px s) =? 0) in
  (∀ src n, (length q + length src ≤ 512)%nat →
   ∃ s', pipewrite_from src n locked = Ok (PRet n, s') ∧ pipe_st s' (q ++ src) r w ∧ woke W_pipe_read (px s) (px s')) ∧
  (∀ src n, (512 < length q + length src)%nat →
   ∃ s' res, pipewrite_from src n locked = Ok (res, s') ∧ pipe_st s' (pushed q src) r w ∧
     if (r =? 0) || killed then res = PRet (-1) ∧ held (px s') = []
     else res = PWait (drop (512 - length q) src) ∧ W_pipe_read ∈ woken (px s') ∧ waiting (px s) (px s')) ∧
  (∀ addr n, pipewrite addr n s = pipewrite_from (take (Z.to_nat n) addr) n locked) ∧
  (∀ n, 0 ≤ n → q ≠ [] ∨ w = 0 →
   ∃ s', piperead n s = Ok (PRet (Z.of_nat (length (take (Z.to_nat n) q)), take (Z.to_nat n) q), s') ∧
     pipe_st s' (drop (Z.to_nat n) q) r w ∧ woke W_pipe_write (px s) (px s')) ∧
  (∀ n, q = [] → w ≠ 0 →
   ∃ s' res, piperead n s = Ok (res, s') ∧ pipe_st s' [] r w ∧
     if killed then res = PRet (-1, []) ∧ held (px s') = [] else res = PWait tt ∧ waiting (px s) (px s')).
Proof.
  intros (p & Hp & Hr & Hro & Hwo) Hh locked killed. destruct s as [o x]. cbn in Hp, Hh, killed. subst o r w.
  pose proof (λ src n Q, wpg_pipewrite_from true src n p q (set_held [L_pipe] x) Q Hr) as Hw. cbv zeta in Hw.
  change (cur_killed (set_held [L_pipe] x)) with (cur_killed x) in Hw. fold killed in Hw.
  split_and!.
  - intros src n Hfit. destruct (wp_ok (pipewrite_from src n) (λ res s', res = PRet n ∧
      pipe_st s' (q ++ src) (readopen p) (writeopen p) ∧ woke W_pipe_read x (px s')) locked) as (res & s' & E & -> & H & H'); [|eauto].
    apply Hw; [|done]. intros p' x' Hp' E1 E2 Hk. rewrite drop_ge by lia. intros Hwk Hhd.
    unfold pushed in Hp'. rewrite take_ge in Hp' by lia. split_and!; [done|by exists p'|done].
  - intros src n Hbig. destruct (wp_ok (pipewrite_from src n) (λ res s', pipe_st s' (pushed q src) (readopen p) (writeopen p) ∧
      if (readopen p =? 0) || killed then res = PRet (-1) ∧ held (px s') = []
      else res = PWait (drop (512 - length q) src) ∧ W_pipe_read ∈ woken (px s') ∧ waiting x (px s')) locked)
      as (res & s' & E & H & H'); [|by exists s', res].
    apply Hw; [|done]. intros p' x' Hp' E1 E2 Hk. pose proof (pr_fits _ _ Hr).
    destruct (drop (512 - length q) src) as [|c rest] eqn:Ed; [apply (f_equal length) in Ed; rewrite length_drop in Ed; cbn in Ed; lia|].
    destruct (_ || _); [intros Hhd|intros Hwk Hhd]; (split; [by exists p'|done]).
  - intros addr n. unfold pipewrite. erewrite bind_ok; [reflexivity|]. unfold onpx, zoom. cbn [px]. by rewrite acquire_lk_ok.
  - intros n Hn Hne. destruct (run_locked (piperead_turn n)
      (λ res s', res = PRet (Z.of_nat (length (take (Z.to_nat n) q)), take (Z.to_nat n) q) ∧
        pipe_st s' (drop (Z.to_nat n) q) (readopen p) (writeopen p) ∧ woke W_pipe_write x (px s')) (mkPst (Some p) x) Hh)
      as (res & s' & E & -> & H & H'); [|eauto].
    apply (wpg_piperead_data _ n p q); [done..|]. intros p' x' Hp' E1 E2 Hwk. split_and!; [done|by exists p'|done].
  - intros n -> Hwne. destruct (run_locked (piperead_turn n) (λ res s', pipe_st s' [] (readopen p) (writeopen p) ∧
      if killed then res = PRet (-1, []) ∧ held (px s') = [] else res = PWait tt ∧ waiting x (px s')) (mkPst (Some p) x) Hh)
      as (res & s' & E & H & H'); [|by exists s', res].
    apply (wpg_piperead_empty _ n p); [done..|]. intros x' Hk.
    change (cur_killed (set_held _ _)) with (cur_killed x). fold killed.
    destruct killed; intros Hhd; (split; [by exists p|done]).
Qed.

(** Counters about to wrap around, three bytes in the pipe. *)
Definition demo_pipe : pipe := mkPipe (<[510%nat := 1]> (<[511%nat := 2]> (<[0%nat := 3]> (replicate 512 0)))) 4294967294 1 1 1.
Definition demo_pst : pst := mkPst (Some demo_pipe) (mkCtx [] ∅ 1 0 []).

Lemma pipe_is_fifo_witness : ∃ s', piperead 2 demo_pst = Ok (PRet (2, [1; 2]), s') ∧ pipe_st s' [3] 1 1.
Proof.
  destruct (pipe_is_fifo demo_pst [1; 2; 3] 1 1) as (_ & _ & _ & H & _).
  - exists demo_pipe. split; [reflexivity|]. split; [|split; reflexivity].
    split; [reflexivity|cbn; lia|split; [apply Z.leb_le|apply Z.ltb_lt]; reflexivity|reflexivity|].
    intros [|[|[|i]]] c Hc; [injection Hc as <-; reflexivity..|discriminate Hc].
  - reflexivity.
  - destruct (H 2) as (s' & E & Hs & _); [lia|by left|]. exists s'. split; [exact E|exact Hs].
Defined.
