(* ===== verification/File.v ===== *)
(** * Open files (file.c)

    The table of open files over the file system and the pipes. *)

From S2P Require Export FsNamei Pipe.
Local Open Scope Z_scope.

Definition NFILE : nat := 100.

Inductive fdtype := FD_NONE | FD_PIPE | FD_INODE.
#[export] Instance fdtype_eq_dec : EqDecision fdtype.
Proof. solve_decision. Defined.

(** [struct file]: [fpipe] and [fip] are the pipe and the inode it points
    to. *)
Record file := mkFile {
  ftype : fdtype;
  fref : Z;
  readable : Z;
  writable : Z;
  fpipe : nat;
  fip : nat;
  foff : Z
}.
Definition set_ftype (v : fdtype) (f : file) : file := mkFile v (fref f) (readable f) (writable f) (fpipe f) (fip f) (foff f).
Definition set_fref (v : Z) (f : file) : file := mkFile (ftype f) v (readable f) (writable f) (fpipe f) (fip f) (foff f).
Definition set_foff (v : Z) (f : file) : file := mkFile (ftype f) (fref f) (readable f) (writable f) (fpipe f) (fip f) v.
Definition pipe_end (r w : Z) (p : nat) (f : file) : file := mkFile FD_PIPE (fref f) r w p (fip f) (foff f).

(** The file system, [ftable.file], the pipes by the page that holds them,
    and the context of the locks of this layer. *)
Record fls (S : Type) := mkFls { ffs : fst S; ftable : list file; fpipes : gmap nat pipe; flx : ctx }.
Arguments mkFls {S}.
Arguments ffs {S}.
Arguments ftable {S}.
Arguments fpipes {S}.
Arguments flx {S}.

Section File.
Context {S : Type} `{BS : BlockStore S} {DV : DevSw S}.

Definition set_ffs (x : fst S) (s : fls S) : fls S := mkFls x (ftable s) (fpipes s) (flx s).
Definition set_ftable (l : list file) (s : fls S) : fls S := mkFls (ffs s) l (fpipes s) (flx s).
Definition set_fpipes (m : gmap nat pipe) (s : fls S) : fls S := mkFls (ffs s) (ftable s) m (flx s).
Definition set_flx (x : ctx) (s : fls S) : fls S := mkFls (ffs s) (ftable s) (fpipes s) x.

Definition onfs {A} (m : M (fst S) A) : M (fls S) A := zoom ffs set_ffs m.
Definition onlx {A} (m : M ctx A) : M (fls S) A := zoom flx set_flx m.
(** An operation on pipe [i]. *)
Definition onpipe {A} (i : nat) (m : M pst A) : M (fls S) A :=
  zoom (λ s, mkPst (fpipes s !! i) (flx s))
    (λ p s, mkFls (ffs s) (ftable s) (partial_alter (λ _, pp p) i (fpipes s)) (px p)) m.

Definition fget (i : nat) : M (fls S) file := deref (λ s, ftable s !! i).
Definition fset (i : nat) (f : file → file) : M (fls S) unit :=
  x ← fget i; modify (λ s, set_ftable (<[i := f x]> (ftable s)) s).

(** The first entry whose reference count is zero. *)
Fixpoint free_file (l : list file) (i : nat) : option nat :=
  match l with
  | [] => None
  | f :: l => if fref f =? 0 then Some i else free_file l (Datatypes.S i)
  end.

Definition filealloc : M (fls S) (option nat) :=
  onlx (acquire_lk L_ftable) ;;
  l ← gets ftable;
  match free_file l 0 with
  | Some i =>
      fset i (set_fref 1) ;;
      onlx (release_lk L_ftable) ;;
      mret (Some i)
  | None => onlx (release_lk L_ftable) ;; mret None
  end.

Definition filedup (i : nat) : M (fls S) nat :=
  onlx (acquire_lk L_ftable) ;;
  f ← fget i;
  if fref f <? 1 then panic "filedup" else
  fset i (set_fref (fref f + 1)) ;;
  onlx (release_lk L_ftable) ;;
  mret i.

Definition fileclose (i : nat) : M (fls S) unit :=
  onlx (acquire_lk L_ftable) ;;
  f ← fget i;
  if fref f <? 1 then panic "fileclose" else
  fset i (set_fref (fref f - 1)) ;;
  if fref f - 1 >? 0 then onlx (release_lk L_ftable) else
  ff ← fget i;
  fset i (set_fref 0) ;;
  fset i (set_ftype FD_NONE) ;;
  onlx (release_lk L_ftable) ;;
  match ftype ff with
  | FD_PIPE => onpipe (fpipe ff) (pipeclose (negb (writable ff =? 0)))
  | FD_INODE =>
      onfs (onblk st_begin_op) ;;
      onfs (iput (fip ff)) ;;
      onfs (onblk st_end_op)
  | FD_NONE => mret tt
  end.

Definition filestat (i : nat) : M (fls S) (option stat) :=
  f ← fget i;
  match ftype f with
  | FD_INODE =>
      onfs (ilock (Some (fip f))) ;;
      st ← onfs (stati (fip f));
      onfs (iunlock (Some (fip f))) ;;
      mret (Some st)
  | _ => mret None
  end.

Definition fileread (i : nat) (n : Z) : M (fls S) (presult (Z * bytes) unit) :=
  f ← fget i;
  if readable f =? 0 then mret (PRet (-1, [])) else
  match ftype f with
  | FD_PIPE => onpipe (fpipe f) (piperead n)
  | FD_INODE =>
      onfs (ilock (Some (fip f))) ;;
      '(r, l) ← onfs (readi (fip f) (foff f) (u32 n));
      when (r >? 0) (fset i (set_foff (u32 (foff f + r)))) ;;
      onfs (iunlock (Some (fip f))) ;;
      mret (PRet (r, l))
  | FD_NONE => panic "fileread"
  end.

(** [((MAXOPBLOCKS-1-1-2) / 2) * 512]. *)
Definition write_max : Z := (MAXOPBLOCKS - 1 - 1 - 2) / 2 * 512.

(** The loop of [filewrite] from byte [j] on: the number of bytes written. *)
Fixpoint filewrite_loop (fuel : nat) (i : nat) (src : bytes) (n j : Z) : M (fls S) Z :=
  match fuel with
  | O => diverge
  | Datatypes.S fuel =>
      if j <? n then
        let n1 := if n - j >? write_max then write_max else n - j in
        f ← fget i;
        onfs (onblk st_begin_op) ;;
        onfs (ilock (Some (fip f))) ;;
        r ← onfs (writei (fip f) (drop (Z.to_nat j) src) (foff f) (u32 n1));
        when (r >? 0) (fset i (set_foff (u32 (foff f + r)))) ;;
        onfs (iunlock (Some (fip f))) ;;
        onfs (onblk st_end_op) ;;
        if r <? 0 then mret j
        else if negb (r =? n1) then panic "short filewrite"
        else filewrite_loop fuel i src n (j + r)
      else mret j
  end.

Definition filewrite (i : nat) (src : bytes) (n : Z) : M (fls S) (presult Z bytes) :=
  f ← fget i;
  if writable f =? 0 then mret (PRet (-1)) else
  match ftype f with
  | FD_PIPE => onpipe (fpipe f) (pipewrite src n)
  | FD_INODE =>
      j ← filewrite_loop (Z.to_nat (n / write_max) + 2) i src n 0;
      mret (PRet (if j =? n then n else -1))
  | FD_NONE => panic "filewrite"
  end.

(** [pipealloc]: [page] is what [kalloc] returns, the number of a free page
    with whatever bytes it holds. *)
Definition pipealloc (page : option (nat * bytes)) : M (fls S) (option (nat * nat)) :=
  f0 ← filealloc;
  match f0 with
  | None => mret None
  | Some f0 =>
      f1 ← filealloc;
      match f1, page with
      | Some f1, Some (p, garbage) =>
          modify (λ s, set_fpipes (<[p := pipe_init (mkPipe garbage 0 0 0 0)]> (fpipes s)) s) ;;
          fset f0 (pipe_end 1 0 p) ;;
          fset f1 (pipe_end 0 1 p) ;;
          mret (Some (f0, f1))
      | Some f1, None => fileclose f0 ;; fileclose f1 ;; mret None
      | None, _ => fileclose f0 ;; mret None
      end
  end.
End File.
