(* ===== verification/Kalloc.v ===== *)
(** * The physical page allocator (kalloc.c)

    Memory is the contents of the pages, by the kernel address of the page;
    the free list runs through the first word of the free pages. *)

From S2P Require Export CStringProps Kctx.
Local Open Scope Z_scope.

Definition PGSIZE : Z := 4096.
Definition KERNBASE : Z := 2147483648.
Definition EXTMEM : Z := 1048576.
Definition PHYSTOP : Z := 234881024.
Definition DEVSPACE : Z := 4261412864.
Definition KERNLINK : Z := KERNBASE + EXTMEM.
Definition V2P (a : Z) : Z := u32 (a - KERNBASE).
Definition P2V (a : Z) : Z := u32 (a + KERNBASE).
Definition PGROUNDUP (sz : Z) : Z := Z.land (u32 (sz + PGSIZE - 1)) (Z.lnot (PGSIZE - 1)).
Definition PGROUNDDOWN (a : Z) : Z := Z.land a (Z.lnot (PGSIZE - 1)).

(** What kernel.ld defines: [end] and [data]. *)
Class KernelLd := { kend : Z; kdata : Z }.

(** [kmem], the pages, [kpgdir] and the page table register of vm.c, and the
    context. *)
Record kmst := mkKm {
  use_lock : Z;
  freelist : Z;
  pages : gmap Z bytes;
  kpgdir : Z;
  cr3 : Z;
  kx : ctx
}.
Definition set_use_lock (v : Z) (s : kmst) : kmst := mkKm v (freelist s) (pages s) (kpgdir s) (cr3 s) (kx s).
Definition set_freelist (v : Z) (s : kmst) : kmst := mkKm (use_lock s) v (pages s) (kpgdir s) (cr3 s) (kx s).
Definition set_pages (v : gmap Z bytes) (s : kmst) : kmst := mkKm (use_lock s) (freelist s) v (kpgdir s) (cr3 s) (kx s).
Definition set_kpgdir (v : Z) (s : kmst) : kmst := mkKm (use_lock s) (freelist s) (pages s) v (cr3 s) (kx s).
Definition set_cr3 (v : Z) (s : kmst) : kmst := mkKm (use_lock s) (freelist s) (pages s) (kpgdir s) v (kx s).
Definition set_kx (v : ctx) (s : kmst) : kmst := mkKm (use_lock s) (freelist s) (pages s) (kpgdir s) (cr3 s) v.
Definition onkx {A} (m : M ctx A) : M kmst A := zoom kx set_kx m.

(** A page, and its replacement by other bytes. *)
Definition page (a : Z) : M kmst bytes := deref (λ s, pages s !! a).
Definition page_put (a : Z) (b : bytes) : M kmst unit := modify (λ s, set_pages (<[a := b]> (pages s)) s).

(** [if(kmem.use_lock) acquire(&kmem.lock)]. *)
Definition kmem_lock : M kmst unit := u ← gets use_lock; when (negb (u =? 0)) (onkx (acquire_lk L_kmem)).
Definition kmem_unlock : M kmst unit := u ← gets use_lock; when (negb (u =? 0)) (onkx (release_lk L_kmem)).

Section Kalloc.
Context {LD : KernelLd}.

Definition kfree (v : Z) : M kmst unit :=
  if negb (v mod PGSIZE =? 0) || (v <? kend) || (V2P v >=? PHYSTOP) then panic "kfree" else
  page_put v (memset v 1 (Z.to_nat PGSIZE)) ;;
  kmem_lock ;;
  fl ← gets freelist;
  b ← page v;
  page_put v (put32 b 0 fl) ;;
  modify (set_freelist v) ;;
  kmem_unlock.

(** The null pointer is 0. *)
Definition kalloc : M kmst Z :=
  kmem_lock ;;
  r ← gets freelist;
  when (negb (r =? 0)) (b ← page r; modify (set_freelist (get32 b 0))) ;;
  kmem_unlock ;;
  mret r.

Fixpoint freerange_loop (fuel : nat) (p vend : Z) : M kmst unit :=
  match fuel with
  | O => diverge
  | S fuel => if p + PGSIZE <=? vend then kfree p ;; freerange_loop fuel (p + PGSIZE) vend else mret tt
  end.
Definition freerange (vstart vend : Z) : M kmst unit :=
  freerange_loop (Z.to_nat ((vend - PGROUNDUP vstart) / PGSIZE) + 1) (PGROUNDUP vstart) vend.

Definition kinit1 (vstart vend : Z) : M kmst unit :=
  modify (set_use_lock 0) ;;
  freerange vstart vend.
Definition kinit2 (vstart vend : Z) : M kmst unit :=
  freerange vstart vend ;;
  modify (set_use_lock 1).
End Kalloc.

(** ** The free list *)

(** A page that may be on the free list. *)
Definition page_ok {LD : KernelLd} (v : Z) : Prop :=
  v mod PGSIZE = 0 ∧ kend ≤ v ∧ V2P v < PHYSTOP ∧ 0 < v < 2 ^ 32.

Fixpoint chain (P : gmap Z bytes) (a : Z) (l : list Z) : Prop :=
  match l with
  | [] => a = 0
  | v :: l => a = v ∧ v ≠ 0 ∧ ∃ b, P !! v = Some b ∧ length b = 4096%nat ∧ chain P (get32 b 0) l
  end.

(** The free pages are [l], in this order. *)
Record free_pages {LD : KernelLd} (s : kmst) (l : list Z) : Prop := {
  fg_chain : chain (pages s) (freelist s) l;
  fg_nodup : NoDup l;
  fg_ok : ∀ v, v ∈ l → page_ok v;
  fg_held : held (kx s) = []
}.

Lemma free_head {LD : KernelLd} s l : free_pages s l → 0 ≤ freelist s < 2 ^ 32 ∧ freelist s = default 0 (head l).
Proof.
  intros [Hc _ Hok _]. destruct l as [|v l]; cbn in Hc; [rewrite Hc; cbn; lia|]. destruct Hc as (-> & _).
  split; [|done]. destruct (Hok v) as (_ & _ & _ & ?); [by left|lia].
Qed.

Lemma chain_insert P a l v b : chain P a l → v ∉ l → chain (<[v := b]> P) a l.
Proof.
  revert a. induction l as [|w l IH]; intros a; [done|]. cbn. intros (-> & Hw & b' & Hb' & Hl & Hc) Hv.
  apply not_elem_of_cons in Hv as [Hne Hv]. split_and!; [done|done|]. exists b'. rewrite lookup_insert_ne by done.
  split_and!; [done|done|by apply IH].
Qed.

Section Rules.
Context {LD : KernelLd} (t : bool).

Lemma wpg_onkx {A} (m : M ctx A) a x (Q : A → kmst → Prop) s :
  m (kx s) = Ok (a, x) → Q a (set_kx x s) → wpg t (onkx m) Q s.
Proof. intros E HQ. apply (wpg_zoom t kx set_kx). unfold wpg. by rewrite E. Qed.

(** A critical section of the allocator, that does not touch the lock. *)
Lemma wpg_kmem_lock (Q : unit → kmst → Prop) s :
  held (kx s) = [] → Q tt (if use_lock s =? 0 then s else set_kx (set_held [L_kmem] (kx s)) s) → wpg t kmem_lock Q s.
Proof.
  intros Hh HQ. apply wpg_bind, wpg_gets. destruct (use_lock s =? 0) eqn:E; cbn [negb].
  - by apply wpg_when_false.
  - apply wpg_when_true; [done|]. eapply wpg_onkx; [by apply acquire_lk_ok|done].
Qed.
Lemma wpg_kmem_unlock (Q : unit → kmst → Prop) s x :
  held x = [] → kx s = (if use_lock s =? 0 then x else set_held [L_kmem] x) → Q tt (set_kx x s) → wpg t kmem_unlock Q s.
Proof.
  intros Hh Hx HQ. apply wpg_bind, wpg_gets. destruct (use_lock s =? 0) eqn:E; cbn [negb].
  - apply wpg_when_false; [done|]. rewrite <- Hx in HQ. by destruct s.
  - apply wpg_when_true; [done|]. eapply wpg_onkx; [rewrite Hx; by apply release_lk_ok|done].
Qed.

(** The page after [kfree]: its first word leads to the next free page. *)
Definition freed (fl : Z) : bytes := put32 (replicate 4096 1) 0 fl.

Definition kfreed (v : Z) (s : kmst) : kmst := set_freelist v (set_pages (<[v := freed (freelist s)]> (pages s)) s).

Lemma free_pages_kfreed s l v : free_pages s l → page_ok v → v ∉ l → free_pages (kfreed v s) (v :: l).
Proof.
  intros Hf Hok Hv. destruct (free_head s l Hf) as [Hfl _]. destruct Hf as [Hc Hnd Hall Hh].
  split; cbn [kfreed set_freelist set_pages freelist pages kx]; [|by constructor| |done].
  - destruct Hok as (_ & _ & _ & Hr). split_and!; [done|lia|]. exists (freed (freelist s)). rewrite lookup_insert_eq.
    split_and!; [done|by unfold freed; rewrite put_le_length|].
    unfold freed. rewrite get_put_le; [by apply chain_insert|rewrite length_replicate; lia|done].
  - by intros w [->|Hw]%elem_of_cons; [|apply Hall].
Qed.

Lemma wpg_kfree s l v (Q : unit → kmst → Prop) :
  free_pages s l → page_ok v → v ∉ l → (free_pages (kfreed v s) (v :: l) → Q tt (kfreed v s)) → wpg t (kfree v) Q s.
Proof.
  intros Hf Hok Hv HQ. specialize (HQ (free_pages_kfreed s l v Hf Hok Hv)). destruct Hok as (Hal & Hend & Hphys & Hr).
  pose proof (fg_held _ _ Hf) as Hh. unfold kfree.
  replace (negb (v mod PGSIZE =? 0) || (v <? kend) || (V2P v >=? PHYSTOP)) with false
    by (symmetry; apply orb_false_iff; split; [apply orb_false_iff; split|]; lia).
  apply wpg_bind, (wpg_modify t), wpg_bind, wpg_kmem_lock; [done|].
  rewrite memset_fills. change (u8 1) with 1. change (Z.to_nat PGSIZE) with 4096%nat.
  destruct s as [u fl P kp c x]. cbn in Hh. unfold kfreed, freed in HQ. cbn [set_pages use_lock freelist pages set_freelist] in HQ |- *.
  set (s1 := if u =? 0 then _ else _).
  assert (s1 = mkKm u fl (<[v := replicate 4096 1]> P) kp c (if u =? 0 then x else set_held [L_kmem] x)) as -> by (unfold s1; by destruct (u =? 0)).
  apply wpg_bind, wpg_gets. apply wpg_bind. eapply wpg_deref; [apply lookup_insert_eq|].
  apply wpg_bind, (wpg_modify t), wpg_bind, (wpg_modify t).
  apply wpg_kmem_unlock with x; [done|done|]. cbn. rewrite insert_insert_eq. exact HQ.
Qed.

Definition kalloced (s : kmst) : kmst :=
  if freelist s =? 0 then s else set_freelist (get32 (pages s !!! freelist s) 0) s.

Lemma free_pages_kalloced s l : free_pages s l → free_pages (kalloced s) (tail l).
Proof.
  intros [Hc Hnd Hall Hh]. unfold kalloced. destruct l as [|v l]; cbn in Hc.
  - rewrite Hc. cbn. by split.
  - destruct Hc as (E & Hv & b & Hb & _ & Hc). rewrite E, (proj2 (Z.eqb_neq v 0)) by done.
    rewrite (lookup_total_correct _ _ _ Hb). apply NoDup_cons in Hnd as [_ Hnd]. split; cbn; try done.
    intros w Hw. apply Hall. by right.
Qed.

Lemma wpg_kalloc s l (Q : Z → kmst → Prop) :
  free_pages s l → (free_pages (kalloced s) (tail l) → Q (default 0 (head l)) (kalloced s)) → wpg t kalloc Q s.
Proof.
  intros Hf HQ. specialize (HQ (free_pages_kalloced s l Hf)). destruct (free_head s l Hf) as [_ Efl].
  destruct Hf as [Hc Hnd Hall Hh]. unfold kalloc. apply wpg_bind, wpg_kmem_lock; [done|].
  destruct s as [u fl P kp c x]. cbn in Hh, Efl, Hc. unfold kalloced in HQ. cbn [use_lock freelist pages kx] in HQ |- *.
  set (s1 := if u =? 0 then _ else _).
  assert (s1 = mkKm u fl P kp c (if u =? 0 then x else set_held [L_kmem] x)) as -> by (unfold s1; by destruct (u =? 0)).
  apply wpg_bind, wpg_gets. cbn [freelist]. apply wpg_bind. destruct l as [|v l].
  - subst fl. apply wpg_when_false; [done|]. apply wpg_bind, wpg_kmem_unlock with x; [done|done|]. by apply wpg_ret.
  - destruct Hc as (-> & Hv & b & Hb & _). rewrite (proj2 (Z.eqb_neq v 0)) in * by done. rewrite (lookup_total_correct _ _ _ Hb) in HQ.
    apply wpg_when_true; [done|]. apply wpg_bind. eapply wpg_deref; [exact Hb|]. apply (wpg_modify t).
    apply wpg_bind, wpg_kmem_unlock with x; [done|done|]. apply wpg_ret. exact HQ.
Qed.

(** The pages from [p] on that lie below [vend]. *)
Fixpoint page_run (n : nat) (p : Z) : list Z := match n with O => [] | S n => p :: page_run n (p + PGSIZE) end.

Lemma elem_page_run n p v : v ∈ page_run n p ↔ ∃ i, (i < n)%nat ∧ v = p + PGSIZE * Z.of_nat i.
Proof.
  revert p. induction n as [|n IH]; intros p; cbn [page_run].
  - split; [by intros ?%not_elem_of_nil|]. intros (i & ? & _). lia.
  - rewrite elem_of_cons, IH. split.
    + intros [->|(i & Hi & ->)]; [exists 0%nat; lia|exists (S i); lia].
    + intros ([|i] & Hi & ->); [left; lia|right; exists i; lia].
Qed.

Lemma wpg_freerange_loop fuel : ∀ s l n p vend (Q : unit → kmst → Prop),
  free_pages s l → (∀ v, v ∈ page_run n p → page_ok v ∧ v ∉ l) → NoDup (page_run n p) →
  p + PGSIZE * Z.of_nat n ≤ vend < p + PGSIZE * Z.of_nat n + PGSIZE → (n < fuel)%nat →
  (∀ s', free_pages s' (rev (page_run n p) ++ l) → Q tt s') → wpg t (freerange_loop fuel p vend) Q s.
Proof.
  induction fuel as [|fuel IH]; intros s l n p vend Q Hf Hok Hnd Hv Hfu HQ; [lia|]. cbn [freerange_loop].
  destruct n as [|n].
  - replace (p + PGSIZE <=? vend) with false by lia. by apply wpg_ret, HQ.
  - replace (p + PGSIZE <=? vend) with true by (change PGSIZE with 4096 in *; lia). cbn [page_run] in *.
    apply NoDup_cons in Hnd as [Hp Hnd]. destruct (Hok p) as [Hpo Hpl]; [by left|].
    apply wpg_bind. eapply wpg_kfree; [exact Hf|done|done|]. intros Hf'.
    eapply IH with (n := n); [exact Hf'| |done|lia|lia|].
    + intros v Hin. destruct (Hok v) as [? ?]; [by right|]. split; [done|]. apply not_elem_of_cons. split; [|done]. by intros ->.
    + intros s' Hs'. apply HQ. cbn [rev]. by rewrite <- app_assoc.
Qed.
End Rules.

(** C27. The allocator keeps a stack of free pages.  [kalloc] removes and
    returns its top, or returns null when there is none, and changes no page;
    [kfree] of a page that is not free fills it with ones, apart from the link
    in its first word, and puts it on top; an address that is not aligned, in
    the kernel or beyond the physical memory is a panic.  [freerange] frees the
    whole pages of a range, in order. *)
Theorem kalloc_is_a_stack {LD : KernelLd} s l :
  free_pages s l →
  (∃ s', kalloc s = Ok (default 0 (head l), s') ∧ free_pages s' (tail l) ∧ pages s' = pages s) ∧
  (∀ v, page_ok v → v ∉ l →
   ∃ s', kfree v s = Ok (tt, s') ∧ free_pages s' (v :: l) ∧ pages s' = <[v := freed (freelist s)]> (pages s)) ∧
  (∀ v, v mod PGSIZE ≠ 0 ∨ v < kend ∨ PHYSTOP ≤ V2P v → kfree v s = Panic "kfree") ∧
  (∀ a n vend, PGROUNDUP a + PGSIZE * Z.of_nat n ≤ vend < PGROUNDUP a + PGSIZE * Z.of_nat n + PGSIZE →
   (∀ v, v ∈ page_run n (PGROUNDUP a) → page_ok v ∧ v ∉ l) →
   ∃ s', freerange a vend s = Ok (tt, s') ∧ free_pages s' (rev (page_run n (PGROUNDUP a)) ++ l)).
Proof.
  intros Hf. split_and!.
  - destruct (wp_ok kalloc (λ r s', r = default 0 (head l) ∧ free_pages s' (tail l) ∧ pages s' = pages s) s)
      as (r & s' & E & -> & H & H'); [|eauto].
    eapply wpg_kalloc; [exact Hf|]. intros Hf'. split_and!; [done|exact Hf'|]. unfold kalloced. by destruct (freelist s =? 0).
  - intros v Hok Hv. destruct (wp_ok (kfree v) (λ _ s', free_pages s' (v :: l) ∧ pages s' = <[v := freed (freelist s)]> (pages s)) s)
      as ([] & s' & E & H & H'); [|eauto]. eapply wpg_kfree; [exact Hf|done|done|]. by intros Hf'.
  - intros v Hbad. unfold kfree.
    replace (negb (v mod PGSIZE =? 0) || (v <? kend) || (V2P v >=? PHYSTOP)) with true; [done|].
    symmetry. rewrite !orb_true_iff, negb_true_iff, Z.eqb_neq, Z.ltb_lt, Z.geb_le. tauto.
  - intros a n vend Hv Hok. destruct (wp_ok (freerange a vend) (λ _ s', free_pages s' (rev (page_run n (PGROUNDUP a)) ++ l)) s)
      as ([] & s' & E & H); [|eauto]. unfold freerange. eapply wpg_freerange_loop with (n := n); [exact Hf|exact Hok| |exact Hv| |done].
    + generalize (PGROUNDUP a). clear. induction n as [|n IH]; intros p; cbn [page_run]; constructor; [|apply IH].
      intros (i & _ & E)%elem_page_run. change PGSIZE with 4096 in E. lia.
    + assert (Z.of_nat n ≤ (vend - PGROUNDUP a) / PGSIZE); [|lia]. apply Z.div_le_lower_bound; [done|lia].
Qed.

Definition demo_ld : KernelLd := {| kend := 2148532224; kdata := 2148007936 |}.
Definition demo_km : kmst := mkKm 1 0 ∅ 0 0 (mkCtx [] ∅ 1 0 []).

Lemma kalloc_is_a_stack_witness :
  ∃ s', freerange (LD := demo_ld) 2148532225 2148544512 demo_km = Ok (tt, s') ∧
    free_pages (LD := demo_ld) s' [2148540416; 2148536320].
Proof.
  destruct (kalloc_is_a_stack (LD := demo_ld) demo_km []) as (_ & _ & _ & H).
  - split; [reflexivity|apply NoDup_nil_2|by intros v ?%not_elem_of_nil|reflexivity].
  - destruct (H 2148532225 2%nat 2148544512) as (s' & E & Hs).
    + split; [apply Z.leb_le|apply Z.ltb_lt]; reflexivity.
    + change (page_run 2 _) with [2148536320; 2148540416]. intros v Hv. split; [|apply not_elem_of_nil].
      apply elem_of_cons in Hv as [->|Hv%list_elem_of_singleton]; [|subst v];
        (split; [reflexivity|split; [apply Z.leb_le; reflexivity|split; [apply Z.ltb_lt; reflexivity|split; apply Z.ltb_lt; reflexivity]]]).
    + exists s'. split; [exact E|exact Hs].
Defined.
