(* ===== verification/Vm.v ===== *)
(** * Page tables (vm.c)

    Two-level page tables in the pages of [Kalloc].  A [pte_t *] is the page of
    the table and the byte offset of the entry in it.  [seginit] and the segment
    part of [switchuvm] only set up x86 descriptors; [switchuvm] is modelled with
    the processes. *)

From S2P Require Export Kalloc.
Local Open Scope Z_scope.

Definition PTE_P : Z := 1.
Definition PTE_W : Z := 2.
Definition PTE_U : Z := 4.
Definition PDX (va : Z) : Z := Z.land (Z.shiftr va 22) 1023.
Definition PTX (va : Z) : Z := Z.land (Z.shiftr va 12) 1023.
Definition PTE_ADDR (pte : Z) : Z := Z.land pte (Z.lnot 4095).
Definition PTE_FLAGS (pte : Z) : Z := Z.land pte 4095.
Definition PGADDR (d t o : Z) : Z := u32 (Z.lor (Z.lor (Z.shiftl d 22) (Z.shiftl t 12)) o).
Definition NPDENTRIES : nat := 1024.

(** [*p & PTE_P]. *)
Definition present (pte : Z) : bool := negb (Z.land pte PTE_P =? 0).

Definition load32 (p : Z * nat) : M kmst Z := b ← page p.1; mret (get32 b p.2).
Definition store32 (p : Z * nat) (v : Z) : M kmst unit := b ← page p.1; page_put p.1 (put32 b p.2 v).
Definition pde_ptr (pgdir va : Z) : Z * nat := (pgdir, (4 * Z.to_nat (PDX va))%nat).
Definition pte_ptr (pgtab va : Z) : Z * nat := (pgtab, (4 * Z.to_nat (PTX va))%nat).

(** [memset(p, 0, PGSIZE)] of a whole page. *)
Definition zero_page (p : Z) : M kmst unit := page_put p (memset p 0 (Z.to_nat PGSIZE)).

Section Vm.
Context {LD : KernelLd}.

Definition walkpgdir (pgdir va : Z) (alloc : bool) : M kmst (option (Z * nat)) :=
  pde ← load32 (pde_ptr pgdir va);
  if present pde then mret (Some (pte_ptr (P2V (PTE_ADDR pde)) va))
  else if negb alloc then mret None
  else
    pgtab ← kalloc;
    if pgtab =? 0 then mret None
    else
      zero_page pgtab ;;
      store32 (pde_ptr pgdir va) (Z.lor (Z.lor (Z.lor (V2P pgtab) PTE_P) PTE_W) PTE_U) ;;
      mret (Some (pte_ptr pgtab va)).

Fixpoint mappages_loop (fuel : nat) (pgdir a last pa perm : Z) : M kmst Z :=
  match fuel with
  | O => diverge
  | S fuel =>
      pte ← walkpgdir pgdir a true;
      match pte with
      | None => mret (-1)
      | Some pte =>
          v ← load32 pte;
          if present v then panic "remap" else
          store32 pte (Z.lor (Z.lor pa perm) PTE_P) ;;
          if a =? last then mret 0
          else mappages_loop fuel pgdir (u32 (a + PGSIZE)) last (u32 (pa + PGSIZE)) perm
      end
  end.
Definition mappages (pgdir va size pa perm : Z) : M kmst Z :=
  let a := PGROUNDDOWN va in
  let last := PGROUNDDOWN (u32 (va + size - 1)) in
  mappages_loop (Z.to_nat (u32 (last - a) / PGSIZE) + 1) pgdir a last pa perm.

Fixpoint deallocuvm_loop (fuel : nat) (pgdir oldsz a : Z) : M kmst unit :=
  match fuel with
  | O => diverge
  | S fuel =>
      if a <? oldsz then
        pte ← walkpgdir pgdir a false;
        match pte with
        | None => deallocuvm_loop fuel pgdir oldsz (u32 (u32 (PGADDR (PDX a + 1) 0 0 - PGSIZE) + PGSIZE))
        | Some pte =>
            v ← load32 pte;
            when (present v)
              (let pa := PTE_ADDR v in
               if pa =? 0 then panic "kfree" else
               kfree (P2V pa) ;;
               store32 pte 0) ;;
            deallocuvm_loop fuel pgdir oldsz (u32 (a + PGSIZE))
        end
      else mret tt
  end.
(** A turn advances [a] by at least a page. *)
Definition deallocuvm (pgdir oldsz newsz : Z) : M kmst Z :=
  if newsz >=? oldsz then mret oldsz
  else
    deallocuvm_loop (Z.to_nat (oldsz / PGSIZE) + 2) pgdir oldsz (PGROUNDUP newsz) ;;
    mret newsz.

Definition freevm (pgdir : Z) : M kmst unit :=
  if pgdir =? 0 then panic "freevm: no pgdir" else
  deallocuvm pgdir KERNBASE 0 ;;
  for_each (seq 0 NPDENTRIES) (λ i,
    pde ← load32 (pgdir, (4 * i)%nat);
    when (present pde) (kfree (P2V (PTE_ADDR pde)))) ;;
  kfree pgdir.

(** [kmap]: address, physical start and end, and permissions. *)
Definition kmap : list (Z * Z * Z * Z) :=
  [(KERNBASE, 0, EXTMEM, PTE_W);
   (KERNLINK, V2P KERNLINK, V2P kdata, 0);
   (kdata, V2P kdata, PHYSTOP, PTE_W);
   (DEVSPACE, DEVSPACE, 0, PTE_W)].

Fixpoint setupkvm_loop (pgdir : Z) (l : list (Z * Z * Z * Z)) : M kmst Z :=
  match l with
  | [] => mret pgdir
  | (virt, phys_start, phys_end, perm) :: l =>
      r ← mappages pgdir virt (u32 (phys_end - phys_start)) phys_start perm;
      if r <? 0 then freevm pgdir ;; mret 0 else setupkvm_loop pgdir l
  end.
Definition setupkvm : M kmst Z :=
  pgdir ← kalloc;
  if pgdir =? 0 then mret 0
  else
    zero_page pgdir ;;
    if P2V PHYSTOP >? DEVSPACE then panic "PHYSTOP too high" else
    setupkvm_loop pgdir kmap.

Definition switchkvm : M kmst unit := k ← gets kpgdir; modify (set_cr3 (V2P k)).
Definition kvmalloc : M kmst unit :=
  p ← setupkvm;
  modify (set_kpgdir p) ;;
  switchkvm.

(** The initial program is loaded into a page that has been allocated; the
    code does not test for a null pointer. *)
Definition inituvm (pgdir : Z) (init : bytes) : M kmst unit :=
  if Z.of_nat (length init) >=? PGSIZE then panic "inituvm: more than a page" else
  mem ← kalloc;
  if mem =? 0 then fault else
  zero_page mem ;;
  mappages pgdir 0 PGSIZE (V2P mem) (Z.lor PTE_W PTE_U) ;;
  b ← page mem;
  page_put mem (splice b 0 init).

Fixpoint allocuvm_loop (fuel : nat) (pgdir oldsz newsz a : Z) : M kmst Z :=
  match fuel with
  | O => diverge
  | S fuel =>
      if a <? newsz then
        mem ← kalloc;
        if mem =? 0 then
          deallocuvm pgdir newsz oldsz ;; mret 0
        else
          zero_page mem ;;
          r ← mappages pgdir a PGSIZE (V2P mem) (Z.lor PTE_W PTE_U);
          if r <? 0 then
            deallocuvm pgdir newsz oldsz ;;
            kfree mem ;;
            mret 0
          else allocuvm_loop fuel pgdir oldsz newsz (u32 (a + PGSIZE))
      else mret newsz
  end.
Definition allocuvm (pgdir oldsz newsz : Z) : M kmst Z :=
  if newsz >=? KERNBASE then mret 0
  else if newsz <? oldsz then mret oldsz
  else allocuvm_loop (Z.to_nat (newsz / PGSIZE) + 2) pgdir oldsz newsz (PGROUNDUP oldsz).

Definition clearpteu (pgdir uva : Z) : M kmst unit :=
  pte ← walkpgdir pgdir uva false;
  match pte with
  | None => panic "clearpteu"
  | Some pte => v ← load32 pte; store32 pte (Z.land v (Z.lnot PTE_U))
  end.

Fixpoint copyuvm_loop (fuel : nat) (pgdir d sz i : Z) : M kmst Z :=
  match fuel with
  | O => diverge
  | S fuel =>
      if i <? sz then
        pte ← walkpgdir pgdir i false;
        match pte with
        | None => panic "copyuvm: pte should exist"
        | Some pte =>
            v ← load32 pte;
            if negb (present v) then panic "copyuvm: page not present" else
            mem ← kalloc;
            if mem =? 0 then freevm d ;; mret 0
            else
              b ← page (P2V (PTE_ADDR v));
              page_put mem b ;;
              r ← mappages d i PGSIZE (V2P mem) (PTE_FLAGS v);
              if r <? 0 then kfree mem ;; freevm d ;; mret 0
              else copyuvm_loop fuel pgdir d sz (u32 (i + PGSIZE))
        end
      else mret d
  end.
Definition copyuvm (pgdir sz : Z) : M kmst Z :=
  d ← setupkvm;
  if d =? 0 then mret 0
  else copyuvm_loop (Z.to_nat (sz / PGSIZE) + 2) pgdir d sz 0.

(** [walkpgdir] may return null here, and the code reads through it. *)
Definition uva2ka (pgdir uva : Z) : M kmst Z :=
  pte ← walkpgdir pgdir uva false;
  match pte with
  | None => fault
  | Some pte =>
      v ← load32 pte;
      if negb (present v) then mret 0
      else if Z.land v PTE_U =? 0 then mret 0
      else mret (P2V (PTE_ADDR v))
  end.

Fixpoint copyout_loop (fuel : nat) (pgdir va : Z) (buf : bytes) : M kmst Z :=
  match fuel with
  | O => diverge
  | S fuel =>
      if Z.of_nat (length buf) >? 0 then
        let va0 := PGROUNDDOWN va in
        pa0 ← uva2ka pgdir va0;
        if pa0 =? 0 then mret (-1)
        else
          let n := Z.min (PGSIZE - (va - va0)) (Z.of_nat (length buf)) in
          b ← page pa0;
          page_put pa0 (splice b (Z.to_nat (va - va0)) (take (Z.to_nat n) buf)) ;;
          copyout_loop fuel pgdir (u32 (va0 + PGSIZE)) (drop (Z.to_nat n) buf)
      else mret 0
  end.
Definition copyout (pgdir va : Z) (p : bytes) : M kmst Z :=
  copyout_loop (Z.to_nat (Z.of_nat (length p) / PGSIZE) + 3) pgdir va p.
End Vm.
