(* ===== verification/VmProps.v ===== *)
(** * Page tables as maps from addresses to entries *)

From S2P Require Export Vm.
Local Open Scope Z_scope.

(** ** Address arithmetic *)

Lemma pte_addr_shift x : PTE_ADDR x = Z.shiftl (Z.shiftr x 12) 12.
Proof. unfold PTE_ADDR. change 4095 with (Z.ones 12). rewrite <- Z.ldiff_land. by apply Z.ldiff_ones_r. Qed.

(** The address in an entry made of an aligned address and flags. *)
Lemma pte_addr_flags a k : a mod PGSIZE = 0 → 0 ≤ k < PGSIZE → PTE_ADDR (Z.lor a k) = a.
Proof.
  intros Ha Hk. rewrite pte_addr_shift, Z.shiftr_lor, !Z.shiftr_div_pow2 by lia. change (2 ^ 12) with PGSIZE.
  rewrite (Z.div_small k) by done. rewrite Z.lor_0_r, Z.shiftl_mul_pow2 by lia. change (2 ^ 12) with PGSIZE.
  pose proof (Z.div_mod a PGSIZE ltac:(done)). lia.
Qed.

Lemma round_down a : PGROUNDDOWN a = PGSIZE * (a / PGSIZE).
Proof.
  unfold PGROUNDDOWN. change (PGSIZE - 1) with (Z.ones 12). rewrite <- Z.ldiff_land, Z.ldiff_ones_r by lia.
  rewrite Z.shiftr_div_pow2, Z.shiftl_mul_pow2 by lia. change (2 ^ 12) with PGSIZE. lia.
Qed.

Lemma round_up a : 0 ≤ a ≤ KERNBASE → PGROUNDUP a mod PGSIZE = 0 ∧ a ≤ PGROUNDUP a < a + PGSIZE.
Proof.
  intros Ha. unfold PGROUNDUP. change KERNBASE with 2147483648 in Ha. rewrite u32_id by (change PGSIZE with 4096; lia).
  fold (PGROUNDDOWN (a + PGSIZE - 1)). rewrite round_down. pose proof (Z.div_mod (a + PGSIZE - 1) PGSIZE ltac:(done)).
  pose proof (Z.mod_pos_bound (a + PGSIZE - 1) PGSIZE ltac:(done)). split; [|lia].
  rewrite Z.mul_comm. by apply Z_mod_mult.
Qed.

Lemma pdx_range va : 0 ≤ PDX va < 1024.
Proof. unfold PDX. change 1023 with (Z.ones 10). rewrite Z.land_ones by lia. apply Z.mod_pos_bound. lia. Qed.
Lemma ptx_range va : 0 ≤ PTX va < 1024.
Proof. unfold PTX. change 1023 with (Z.ones 10). rewrite Z.land_ones by lia. apply Z.mod_pos_bound. lia. Qed.

Lemma pdx_div va : 0 ≤ va < 2 ^ 32 → PDX va = va / 4194304.
Proof.
  intros Hv. unfold PDX. change 1023 with (Z.ones 10). rewrite Z.land_ones, Z.shiftr_div_pow2 by lia.
  change (2 ^ 22) with 4194304. change (2 ^ 10) with 1024. apply Z.mod_small. split; [apply Z.div_pos; lia|].
  apply Z.div_lt_upper_bound; lia.
Qed.
Lemma ptx_div va : PTX va = (va / PGSIZE) mod 1024.
Proof. unfold PTX. change 1023 with (Z.ones 10). rewrite Z.land_ones, Z.shiftr_div_pow2 by lia. done. Qed.

(** The two indices determine the page. *)
Lemma same_page a b : 0 ≤ a < 2 ^ 32 → 0 ≤ b < 2 ^ 32 → PDX a = PDX b → PTX a = PTX b → a / PGSIZE = b / PGSIZE.
Proof.
  intros Ha Hb. rewrite !pdx_div, !ptx_div by done. change 4194304 with (PGSIZE * 1024).
  rewrite <- !Z.div_div by done. intros E1 E2.
  rewrite (Z.div_mod (a / PGSIZE) 1024), (Z.div_mod (b / PGSIZE) 1024) by lia. by rewrite E1, E2.
Qed.

Lemma idx_page a b : 0 ≤ a < 2 ^ 32 → 0 ≤ b < 2 ^ 32 → a / PGSIZE = b / PGSIZE → PDX a = PDX b ∧ PTX a = PTX b.
Proof.
  intros Ha Hb E. rewrite !pdx_div, !ptx_div by done. change 4194304 with (PGSIZE * 1024).
  rewrite <- !Z.div_div by done. by rewrite E.
Qed.

Lemma kalloced_pages s : pages (kalloced s) = pages s.
Proof. unfold kalloced. by destruct (freelist s =? 0). Qed.

Section PageTable.
Context {LD : KernelLd}.

Lemma v2p_p2v v : page_ok v → P2V (V2P v) = v ∧ V2P v mod PGSIZE = 0 ∧ 0 ≤ V2P v.
Proof.
  intros (Ha & _ & _ & Hr). unfold P2V, V2P. split_and!.
  - unfold u32. rewrite Zplus_mod_idemp_l. replace (v - KERNBASE + KERNBASE) with v by lia. apply Z.mod_small. lia.
  - unfold u32. change (2 ^ 32) with (PGSIZE * 1048576). rewrite Z.rem_mul_r by done.
    rewrite Z.mul_comm, Z_mod_plus_full, Z.mod_mod by done. rewrite Zminus_mod, Ha. done.
  - apply u32_range.
Qed.

(** An entry for the page [v]. *)
Lemma entry_addr v k : page_ok v → 0 ≤ k < PGSIZE → P2V (PTE_ADDR (Z.lor (V2P v) k)) = v.
Proof. intros Hv Hk. destruct (v2p_p2v v Hv) as (E & Hm & _). by rewrite pte_addr_flags. Qed.

Lemma lor_range a k n : 0 ≤ n → 0 ≤ a < 2 ^ n → 0 ≤ k < 2 ^ n → 0 ≤ Z.lor a k < 2 ^ n.
Proof.
  intros Hn Ha Hk. assert (0 ≤ Z.lor a k) by (apply Z.lor_nonneg; lia). split; [done|].
  destruct (decide (Z.lor a k = 0)) as [->|]; [apply Z.pow_pos_nonneg; lia|].
  apply Z.log2_lt_pow2; [lia|]. rewrite Z.log2_lor by lia. apply Z.max_lub_lt.
  - destruct (decide (a = 0)) as [->|]; [|apply Z.log2_lt_pow2; lia]. change (Z.log2 0) with 0.
    destruct (decide (n = 0)) as [->|]; [|lia]. assert (k = 0) by lia. subst. done.
  - destruct (decide (k = 0)) as [->|]; [|apply Z.log2_lt_pow2; lia]. change (Z.log2 0) with 0.
    destruct (decide (n = 0)) as [->|]; [|lia]. assert (a = 0) by lia. subst. done.
Qed.

Lemma present_lor x : present (Z.lor x PTE_P) = true.
Proof.
  unfold present. apply negb_true_iff, Z.eqb_neq. intros E.
  assert (Z.testbit (Z.land (Z.lor x PTE_P) PTE_P) 0 = false) as H by (rewrite E; apply Z.bits_0).
  rewrite Z.land_spec, Z.lor_spec in H. cbn in H. rewrite orb_true_r in H. done.
Qed.

(** [tabs]: the page tables of the page directory [pgdir]. *)
Record pt_ok (P : gmap Z bytes) (pgdir : Z) (tabs : gmap Z Z) : Prop := {
  pt_dir : ∃ b, P !! pgdir = Some b ∧ length b = 4096%nat ∧
    ∀ i, 0 ≤ i < 1024 → tabs !! i = if present (get32 b (4 * Z.to_nat i)) then Some (P2V (PTE_ADDR (get32 b (4 * Z.to_nat i)))) else None;
  pt_tab : ∀ i a, tabs !! i = Some a → a ≠ pgdir ∧ ∃ b, P !! a = Some b ∧ length b = 4096%nat;
  pt_inj : ∀ i j a, tabs !! i = Some a → tabs !! j = Some a → i = j
}.

(** The entry for an address; 0, which is not present, without a table. *)
Definition pte_of (P : gmap Z bytes) (tabs : gmap Z Z) (va : Z) : Z :=
  match tabs !! PDX va with Some a => get32 (P !!! a) (4 * Z.to_nat (PTX va)) | None => 0 end.

(** The pages of the page table. *)
Definition in_pt (pgdir : Z) (tabs : gmap Z Z) (a : Z) : Prop := a = pgdir ∨ ∃ i, tabs !! i = Some a.

Section Rules.
Context (t : bool).
Implicit Types (s : kmst) (tabs : gmap Z Z).

Lemma wpg_load32 s p b (Q : Z → kmst → Prop) : pages s !! p.1 = Some b → Q (get32 b p.2) s → wpg t (load32 p) Q s.
Proof. intros Hb HQ. apply wpg_bind. eapply wpg_deref; [exact Hb|]. by apply wpg_ret. Qed.
Lemma wpg_store32 s p b v (Q : unit → kmst → Prop) :
  pages s !! p.1 = Some b → Q tt (set_pages (<[p.1 := put32 b p.2 v]> (pages s)) s) → wpg t (store32 p v) Q s.
Proof. intros Hb HQ. apply wpg_bind. eapply wpg_deref; [exact Hb|]. by apply (wpg_modify t). Qed.

(** A page table of which nothing is free. *)
Definition vm_ok (s : kmst) (pgdir : Z) (tabs : gmap Z Z) (l : list Z) : Prop :=
  pt_ok (pages s) pgdir tabs ∧ free_pages s l ∧ ∀ a, in_pt pgdir tabs a → a ∉ l.

Lemma pt_ok_pde P pgdir tabs va b :
  pt_ok P pgdir tabs → P !! pgdir = Some b →
  tabs !! PDX va = if present (get32 b (4 * Z.to_nat (PDX va))) then Some (P2V (PTE_ADDR (get32 b (4 * Z.to_nat (PDX va))))) else None.
Proof. intros [(b' & Hb' & _ & Hd) _ _] Hb. assert (b' = b) as -> by congruence. apply Hd, pdx_range. Qed.

Lemma wpg_walk s pgdir tabs va (Q : option (Z * nat) → kmst → Prop) :
  pt_ok (pages s) pgdir tabs → Q (option_map (λ a, pte_ptr a va) (tabs !! PDX va)) s → wpg t (walkpgdir pgdir va false) Q s.
Proof.
  intros Hpt HQ. destruct (pt_dir _ _ _ Hpt) as (b & Hb & _). pose proof (pt_ok_pde _ _ _ va _ Hpt Hb) as E.
  unfold walkpgdir. apply wpg_bind. eapply wpg_load32; [exact Hb|]. cbn [snd pde_ptr]. rewrite E in HQ.
  destruct (present _); by apply wpg_ret.
Qed.

(** A new page table: a zeroed page and its entry in the directory. *)
Definition with_table (s : kmst) (pgdir va v : Z) (b : bytes) : kmst :=
  let e := Z.lor (Z.lor (Z.lor (V2P v) PTE_P) PTE_W) PTE_U in
  set_pages (<[pgdir := put32 b (4 * Z.to_nat (PDX va)) e]> (<[v := replicate 4096 0]> (pages s))) (kalloced s).

Lemma get32_zero off : get32 (replicate 4096 0) off = 0.
Proof.
  unfold get_le. rewrite drop_replicate, take_replicate. generalize (Nat.min 4 (4096 - off)). intros n.
  induction n as [|n IH]; cbn; [done|]. by rewrite IH.
Qed.

Lemma pt_ok_with_table s pgdir tabs va v l b :
  vm_ok s pgdir tabs (v :: l) → tabs !! PDX va = None → pages s !! pgdir = Some b →
  let s' := with_table s pgdir va v b in
  vm_ok s' pgdir (<[PDX va := v]> tabs) l ∧ ∀ va', pte_of (pages s') (<[PDX va := v]> tabs) va' = pte_of (pages s) tabs va'.
Proof.
  intros (Hpt & Hf & Hsep) Hno Hb s'. pose proof (fg_ok _ _ Hf v ltac:(by left)) as Hv.
  pose proof (fg_nodup _ _ Hf) as Hnd. apply NoDup_cons in Hnd as [Hvl Hnd].
  assert (∀ a, in_pt pgdir tabs a → a ≠ v ∧ a ∉ l) as Hne.
  { intros a Ha. by apply Hsep, not_elem_of_cons in Ha. }
  destruct (Hne pgdir) as [Hpv Hpl]; [by left|].
  set (e := Z.lor (Z.lor (Z.lor (V2P v) PTE_P) PTE_W) PTE_U).
  assert (e = Z.lor (V2P v) 7) as Ee by (unfold e; by rewrite <- !Z.lor_assoc).
  destruct (v2p_p2v v Hv) as (Ev & Hm & Hnn).
  assert (P2V (PTE_ADDR e) = v) as Hea by (rewrite Ee; by apply entry_addr).
  assert (present e = true) as Hep by (rewrite Ee; change 7 with (Z.lor 6 PTE_P); rewrite Z.lor_assoc; apply present_lor).
  assert (0 ≤ e < 256 ^ Z.of_nat 4) as Her.
  { rewrite Ee. apply (lor_range _ _ 32); [lia|apply u32_range|lia]. }
  destruct Hpt as [(b0 & Hb0 & Hlb & Hd) Htab Hinj]. assert (b0 = b) as -> by congruence.
  assert (pages s' = <[pgdir := put32 b (4 * Z.to_nat (PDX va)) e]> (<[v := replicate 4096 0]> (pages s))) as Es' by reflexivity.
  assert (∀ i a, tabs !! i = Some a → pages s' !! a = pages s !! a) as Hsame.
  { intros i a Hi. rewrite Es'. destruct (Htab i a Hi) as [Hap _]. destruct (Hne a) as [Hav _]; [right; eauto|].
    by rewrite !lookup_insert_ne by done. }
  split; [split_and!|].
  - split.
    + exists (put32 b (4 * Z.to_nat (PDX va)) e). rewrite Es', lookup_insert_eq. split_and!; [done|by rewrite put_le_length|].
      intros i Hi. pose proof (pdx_range va) as Hx. destruct (decide (i = PDX va)) as [->|Hne'].
      * rewrite lookup_insert_eq, get_put_le, Hep, Hea by (done || lia). done.
      * rewrite lookup_insert_ne, get_put_le_ne by (congruence || lia). by apply Hd.
    + intros i a. destruct (decide (i = PDX va)) as [->|].
      * rewrite lookup_insert_eq. intros [= <-]. split; [done|]. exists (replicate 4096 0).
        rewrite Es', lookup_insert_ne, lookup_insert_eq by done. by rewrite length_replicate.
      * rewrite lookup_insert_ne by done. intros Hi. rewrite (Hsame i a Hi). by apply (Htab i).
    + intros i j a. destruct (decide (i = PDX va)) as [->|], (decide (j = PDX va)) as [->|];
        rewrite ?lookup_insert_eq, ?lookup_insert_ne by done; try done.
      * intros [= <-] Hj. destruct (Hne v) as [? _]; [right; eauto|done].
      * intros Hi [= <-]. destruct (Hne v) as [? _]; [right; eauto|done].
      * apply Hinj.
  - pose proof (free_pages_kalloced s (v :: l) Hf) as [Hc _ Hok Hh]. cbn [tail] in *. split; try done.
    rewrite Es'. apply chain_insert; [|done]. apply chain_insert; [|done].
    rewrite kalloced_pages in Hc. exact Hc.
  - intros a [->|[i Hi]]; [done|]. destruct (decide (i = PDX va)) as [->|].
    + rewrite lookup_insert_eq in Hi. by injection Hi as <-.
    + rewrite lookup_insert_ne in Hi by done. apply Hne. right. eauto.
  - intros va'. unfold pte_of. destruct (decide (PDX va' = PDX va)) as [->|Hne'].
    + rewrite lookup_insert_eq, Hno, Es'. rewrite lookup_total_insert_ne by done. rewrite lookup_total_insert_eq. apply get32_zero.
    + rewrite lookup_insert_ne by congruence. destruct (tabs !! PDX va') as [a|] eqn:Ea; [|done].
      rewrite lookup_total_alt, (Hsame _ _ Ea). done.
Qed.

Lemma wpg_walk_alloc s pgdir tabs va l (Q : option (Z * nat) → kmst → Prop) :
  vm_ok s pgdir tabs l →
  match tabs !! PDX va with
  | Some a => Q (Some (pte_ptr a va)) s
  | None => match l with
            | [] => Q None s
            | v :: l => ∀ b, pages s !! pgdir = Some b → Q (Some (pte_ptr v va)) (with_table s pgdir va v b)
            end
  end → wpg t (walkpgdir pgdir va true) Q s.
Proof.
  intros (Hpt & Hf & Hsep) HQ. destruct (pt_dir _ _ _ Hpt) as (b & Hb & _). pose proof (pt_ok_pde _ _ _ va _ Hpt Hb) as E.
  unfold walkpgdir. apply wpg_bind. eapply wpg_load32; [exact Hb|]. cbn [snd pde_ptr]. rewrite E in HQ.
  destruct (present _); [by apply wpg_ret|]. cbn [negb].
  apply wpg_bind. eapply wpg_kalloc; [exact Hf|]. intros Hf'. destruct l as [|v l]; cbn [head default].
  - apply wpg_ret. destruct (free_head _ _ Hf) as [_ Efl]. cbn in Efl. unfold kalloced. by rewrite Efl.
  - destruct (fg_ok _ _ Hf v) as (_ & _ & _ & Hr); [by left|]. cbn. rewrite (proj2 (Z.eqb_neq v 0)) by lia.
    unfold zero_page. rewrite memset_fills. change (u8 0) with 0. change (Z.to_nat PGSIZE) with 4096%nat.
    assert (pgdir ≠ v) as Hpv by (intros ->; apply (Hsep v); [by left|by left]).
    pose proof (kalloced_pages s) as Ep.
    apply wpg_bind, (wpg_modify t). apply wpg_bind. eapply wpg_store32.
    { cbn. rewrite Ep, lookup_insert_ne by done. exact Hb. }
    apply wpg_ret. cbn [fst snd pde_ptr]. specialize (HQ b Hb). unfold with_table in HQ. cbn [pages set_pages] in *. rewrite Ep. exact HQ.
Qed.

(** Writing the entry of [va]. *)
Lemma pt_ok_set P pgdir tabs va a b w :
  pt_ok P pgdir tabs → tabs !! PDX va = Some a → P !! a = Some b → 0 ≤ w < 2 ^ 32 → 0 ≤ va < 2 ^ 32 →
  let P' := <[a := put32 b (4 * Z.to_nat (PTX va)) w]> P in
  pt_ok P' pgdir tabs ∧
  ∀ va', 0 ≤ va' < 2 ^ 32 → pte_of P' tabs va' = if bool_decide (va' / PGSIZE = va / PGSIZE) then w else pte_of P tabs va'.
Proof.
  intros [(b0 & Hb0 & Hl0 & Hd) Htab Hinj] Ha Hb Hw Hva P'. destruct (Htab _ _ Ha) as (Hap & b' & Hb' & Hlb).
  assert (b' = b) as -> by congruence. pose proof (ptx_range va) as Hx. split; [split|].
  - exists b0. unfold P'. by rewrite lookup_insert_ne by done.
  - intros i c Hi. destruct (Htab i c Hi) as (Hcp & bc & Hbc & Hlc). split; [done|]. unfold P'.
    destruct (decide (c = a)) as [->|]; [rewrite lookup_insert_eq|rewrite lookup_insert_ne by done; eauto].
    eexists. split; [done|]. by rewrite put_le_length.
  - done.
  - intros va' Hva'. unfold pte_of, P'. case_bool_decide as E.
    + destruct (idx_page va' va Hva' Hva E) as [-> ->]. rewrite Ha, lookup_total_insert_eq.
      apply get_put_le; [lia|exact Hw].
    + destruct (tabs !! PDX va') as [c|] eqn:Ec; [|done]. destruct (decide (c = a)) as [->|].
      * rewrite lookup_total_insert_eq, (lookup_total_correct _ _ _ Hb). pose proof (ptx_range va') as Hx'.
        pose proof (Hinj _ _ _ Ec Ha) as Ei. apply get_put_le_ne.
        assert (PTX va' ≠ PTX va) by (intros Ex; by apply E, same_page). lia.
      * by rewrite lookup_total_insert_ne by done.
Qed.

(** A step of the allocator and the page table: fewer free pages, entries as
    [g] says, and no page changed that is neither free nor in the page table. *)
Record vm_step (s s' : kmst) (pgdir : Z) (tabs tabs' : gmap Z Z) (l l' : list Z) : Prop := {
  vs_ok : vm_ok s' pgdir tabs' l';
  vs_free : ∃ k, l' = drop k l ∧ (k ≤ 1)%nat;
  vs_tabs : ∀ a, in_pt pgdir tabs' a → in_pt pgdir tabs a ∨ (a ∈ l ∧ a ∉ l');
  vs_frame : ∀ a, ¬ in_pt pgdir tabs a → a ∉ l → pages s' !! a = pages s !! a
}.

Lemma vm_ok_set s pgdir tabs l va a b w :
  vm_ok s pgdir tabs l → tabs !! PDX va = Some a → pages s !! a = Some b → 0 ≤ w < 2 ^ 32 → 0 ≤ va < 2 ^ 32 →
  vm_ok (set_pages (<[a := put32 b (4 * Z.to_nat (PTX va)) w]> (pages s)) s) pgdir tabs l.
Proof.
  intros (Hpt & Hf & Hsep) Ha Hb Hw Hva. split_and!; [by eapply pt_ok_set| |done].
  destruct Hf as [Hc Hnd Hok Hh]. split; try done. cbn. apply chain_insert; [done|]. apply Hsep. right. eauto.
Qed.

Lemma u32_lor3 pa perm : 0 ≤ pa < 2 ^ 32 → 0 ≤ perm < 2 ^ 32 → 0 ≤ Z.lor (Z.lor pa perm) PTE_P < 2 ^ 32.
Proof. intros. apply lor_range; [lia| |unfold PTE_P; lia]. by apply lor_range; [lia| |]. Qed.

(** One page is mapped. *)
Lemma wpg_mappages_page s pgdir tabs l va pa perm (Q : Z → kmst → Prop) :
  vm_ok s pgdir tabs l → va mod PGSIZE = 0 → 0 ≤ va < 2 ^ 32 → present (pte_of (pages s) tabs va) = false →
  0 ≤ pa < 2 ^ 32 → 0 ≤ perm < 2 ^ 32 → l ≠ [] →
  (∀ s' tabs' l', vm_step s s' pgdir tabs tabs' l l' →
     (∀ va', 0 ≤ va' < 2 ^ 32 → pte_of (pages s') tabs' va' =
        if bool_decide (va' / PGSIZE = va / PGSIZE) then Z.lor (Z.lor pa perm) PTE_P else pte_of (pages s) tabs va') →
     Q 0 s') →
  wpg t (mappages pgdir va PGSIZE pa perm) Q s.
Proof.
  intros Hvm Hal Hva Hnp Hpa Hperm Hl HQ. set (w := Z.lor (Z.lor pa perm) PTE_P) in *.
  assert (0 ≤ w < 2 ^ 32) as Hw by (by apply u32_lor3).
  pose proof (Z.div_mod va PGSIZE ltac:(done)) as Edm. change (2 ^ 32) with (PGSIZE * 1048576) in Hva.
  assert (va / PGSIZE < 1048576) as Hq by (apply Z.div_lt_upper_bound; [done|lia]).
  assert (PGROUNDDOWN va = va) as Ea by (rewrite round_down; lia).
  assert (PGROUNDDOWN (u32 (va + PGSIZE - 1)) = va) as Elast.
  { rewrite u32_id by (change PGSIZE with 4096 in *; lia). rewrite round_down.
    assert ((va + PGSIZE - 1) / PGSIZE = va / PGSIZE) as ->; [|lia]. symmetry. apply (Z.div_unique _ _ _ (PGSIZE - 1)); [left; done|lia]. }
  change (PGSIZE * 1048576) with (2 ^ 32) in Hva.
  unfold mappages. rewrite Elast, Ea, Z.sub_diag. change (Z.to_nat (u32 0 / PGSIZE) + 1)%nat with 1%nat. cbn [mappages_loop].
  (* the rest of the turn, with the table in place *)
  assert (∀ s1 tabs1 l1 a, vm_ok s1 pgdir tabs1 l1 → tabs1 !! PDX va = Some a → pte_of (pages s1) tabs1 va = pte_of (pages s) tabs va →
    (∀ s', vm_ok s' pgdir tabs1 l1 → pages s' = <[a := put32 (pages s1 !!! a) (4 * Z.to_nat (PTX va)) w]> (pages s1) →
       (∀ va', 0 ≤ va' < 2 ^ 32 → pte_of (pages s') tabs1 va' = if bool_decide (va' / PGSIZE = va / PGSIZE) then w else pte_of (pages s1) tabs1 va') →
       Q 0 s') →
    wpg t (v ← load32 (pte_ptr a va); if present v then panic "remap" else store32 (pte_ptr a va) w ;; if va =? va then mret 0
      else mappages_loop 0 pgdir (u32 (va + PGSIZE)) va (u32 (pa + PGSIZE)) perm) Q s1) as Hrest.
  { intros s1 tabs1 l1 a Hvm1 Ha1 Epte HQ1. destruct Hvm1 as (Hpt1 & Hf1 & Hsep1).
    destruct (pt_tab _ _ _ Hpt1 _ _ Ha1) as (_ & b & Hb & _). unfold pte_of in Epte at 1. rewrite Ha1, (lookup_total_correct _ _ _ Hb) in Epte.
    apply wpg_bind. eapply wpg_load32; [exact Hb|]. cbn [snd pte_ptr]. rewrite Epte, Hnp.
    apply wpg_bind. eapply wpg_store32; [exact Hb|]. cbn [fst snd pte_ptr]. rewrite Z.eqb_refl. apply wpg_ret.
    apply HQ1; [by apply vm_ok_set|cbn; by rewrite (lookup_total_correct _ _ _ Hb)|].
    intros va' Hva'. cbn [pages set_pages]. by apply (pt_ok_set _ pgdir). }
  apply wpg_bind. eapply wpg_walk_alloc; [exact Hvm|]. destruct (tabs !! PDX va) as [a|] eqn:Ea1.
  - apply (Hrest s tabs l a); [done|done|done|]. intros s' Hvm' Ep Hpte. apply (HQ s' tabs l); [|exact Hpte].
    split; [done|exists 0%nat; split; [done|lia]|by left|]. intros c Hc Hcl. rewrite Ep, lookup_insert_ne; [done|].
    intros <-. apply Hc. right. eauto.
  - destruct l as [|v l]; [done|]. intros b Hb. destruct (pt_ok_with_table s pgdir tabs va v l b Hvm Ea1 Hb) as [Hvm1 Hpte1].
    apply (Hrest _ (<[PDX va := v]> tabs) l v); [done|apply lookup_insert_eq|by rewrite Hpte1|].
    intros s' Hvm' Ep Hpte. apply (HQ s' (<[PDX va := v]> tabs) l).
    + pose proof Hvm as (_ & Hf & Hsep). pose proof (fg_nodup _ _ Hf) as Hnd. apply NoDup_cons in Hnd as [Hvl _].
      split; [done|exists 1%nat; split; [done|lia]| |].
      * intros c [->|[i Hi]]; [left; by left|]. destruct (decide (i = PDX va)) as [->|].
        -- rewrite lookup_insert_eq in Hi. injection Hi as <-. right. split; [by left|done].
        -- rewrite lookup_insert_ne in Hi by done. left. right. eauto.
      * intros c Hc Hcl. apply not_elem_of_cons in Hcl as [Hcv Hcl]. rewrite Ep, lookup_insert_ne by done. cbn.
        rewrite !lookup_insert_ne; [done|done|]. intros <-. apply Hc. by left.
    + intros va' Hva'. rewrite Hpte by done. by rewrite Hpte1.
Qed.

(** The page [p] is mapped to a zeroed page of its own, taken from [l0]. *)
Definition fresh_at (s : kmst) (pgdir : Z) (tabs : gmap Z Z) (l0 l : list Z) (va v : Z) : Prop :=
  v ∈ l0 ∧ v ∉ l ∧ ¬ in_pt pgdir tabs v ∧ page_ok v ∧ pages s !! v = Some (replicate 4096 0) ∧
  pte_of (pages s) tabs va = Z.lor (Z.lor (V2P v) (Z.lor PTE_W PTE_U)) PTE_P.

(** The pages [p0 .. p-1] have been added to the page table of [s0]. *)
Record grown_to (s0 s : kmst) (pgdir : Z) (tabs0 tabs : gmap Z Z) (l0 l : list Z) (p0 p : Z) : Prop := {
  gt_ok : vm_ok s pgdir tabs l;
  gt_sub : ∀ a, a ∈ l → a ∈ l0;
  gt_tabs : ∀ a, in_pt pgdir tabs a → in_pt pgdir tabs0 a ∨ a ∈ l0;
  gt_fresh : ∀ va, 0 ≤ va < 2 ^ 32 → p0 ≤ va / PGSIZE < p → ∃ v, fresh_at s pgdir tabs l0 l va v;
  gt_other : ∀ va, 0 ≤ va < 2 ^ 32 → ¬ (p0 ≤ va / PGSIZE < p) → pte_of (pages s) tabs va = pte_of (pages s0) tabs0 va;
  gt_inj : ∀ va va', 0 ≤ va < 2 ^ 32 → 0 ≤ va' < 2 ^ 32 → p0 ≤ va / PGSIZE < p → p0 ≤ va' / PGSIZE < p →
    pte_of (pages s) tabs va = pte_of (pages s) tabs va' → va / PGSIZE = va' / PGSIZE;
  gt_frame : ∀ a, ¬ in_pt pgdir tabs0 a → a ∉ l0 → pages s !! a = pages s0 !! a
}.

Lemma fresh_entry s pgdir tabs l0 l va v v' :
  fresh_at s pgdir tabs l0 l va v → page_ok v' →
  pte_of (pages s) tabs va = Z.lor (Z.lor (V2P v') (Z.lor PTE_W PTE_U)) PTE_P → v = v'.
Proof.
  intros (_ & _ & _ & Hv & _ & ->) Hv' E. rewrite <- !Z.lor_assoc in E.
  rewrite <- (entry_addr v (Z.lor PTE_W (Z.lor PTE_U PTE_P))), E by done. by apply entry_addr.
Qed.

(** The page table and the free pages do not depend on the contents of other
    pages. *)
Lemma vm_ok_frame s pgdir tabs l v b :
  vm_ok s pgdir tabs l → ¬ in_pt pgdir tabs v → v ∉ l →
  let s' := set_pages (<[v := b]> (pages s)) s in
  vm_ok s' pgdir tabs l ∧ ∀ va, pte_of (pages s') tabs va = pte_of (pages s) tabs va.
Proof.
  intros (Hpt & Hf & Hsep) Hv Hvl s'. assert (∀ i a, tabs !! i = Some a → a ≠ v) as Hne by (intros i a Hi ->; apply Hv; right; eauto).
  split; [split_and!|].
  - destruct Hpt as [(b0 & Hb0 & Hl0 & Hd) Htab Hinj]. split; [exists b0|intros i a Hi|done].
    + cbn. rewrite lookup_insert_ne; [done|]. intros <-. apply Hv. by left.
    + destruct (Htab i a Hi) as (Hap & ba & Hba & Hla). split; [done|]. exists ba. cbn.
      rewrite lookup_insert_ne by (by apply not_eq_sym, (Hne i)). done.
  - destruct Hf as [Hc Hnd Hok Hh]. split; try done. cbn. by apply chain_insert.
  - done.
  - intros va. unfold pte_of. cbn. destruct (tabs !! PDX va) as [a|] eqn:Ea; [|done].
    by rewrite lookup_total_insert_ne by (by apply not_eq_sym, (Hne _ _ Ea)).
Qed.

(** One turn of [allocuvm]. *)
Lemma wpg_alloc_page {A} (m1 k : M kmst A) (m2 : Z → M kmst A) s0 s pgdir tabs0 tabs l0 l p0 p (Q : A → kmst → Prop) :
  grown_to s0 s pgdir tabs0 tabs l0 l p0 p → (∀ a, in_pt pgdir tabs0 a → a ∉ l0) → 0 ≤ p0 ≤ p → p < 524288 → (2 ≤ length l)%nat →
  present (pte_of (pages s0) tabs0 (PGSIZE * p)) = false →
  (∀ s' tabs' l', grown_to s0 s' pgdir tabs0 tabs' l0 l' p0 (p + 1) → (length l ≤ length l' + 2)%nat → wpg t k Q s') →
  wpg t (mem ← kalloc; if mem =? 0 then m1 else zero_page mem ;;
         r ← mappages pgdir (PGSIZE * p) PGSIZE (V2P mem) (Z.lor PTE_W PTE_U); if r <? 0 then m2 mem else k) Q s.
Proof.
  intros [Hvm Hsub Htabs Hfresh Hother Hinj Hframe] Hsep0 Hp Hpmax Hlen Hnp HQ.
  destruct l as [|v l]; [cbn in Hlen; lia|]. pose proof Hvm as (Hpt & Hf & Hsep).
  pose proof (fg_ok _ _ Hf v ltac:(by left)) as Hv. pose proof (fg_nodup _ _ Hf) as Hnd. apply NoDup_cons in Hnd as [Hvl Hnd].
  assert (0 ≤ PGSIZE * p < 2 ^ 32) as Hva by (change PGSIZE with 4096; lia).
  assert (PGSIZE * p / PGSIZE = p) as Ep by (rewrite Z.mul_comm; by apply Z.div_mul).
  apply wpg_bind. eapply wpg_kalloc; [exact Hf|]. intros Hf'. cbn [head tail default] in *.
  pose proof Hv as (_ & _ & _ & Hvr). cbn [default from_option id]. rewrite (proj2 (Z.eqb_neq v 0)) by lia.
  apply wpg_bind. unfold zero_page. apply (wpg_modify t), wpg_bind. rewrite memset_fills. change (u8 0) with 0. change (Z.to_nat PGSIZE) with 4096%nat.
  assert (vm_ok (kalloced s) pgdir tabs l) as Hvm1.
  { split_and!; [by rewrite kalloced_pages|done|]. intros a Ha Hal. apply (Hsep a Ha). by right. }
  assert (¬ in_pt pgdir tabs v) as Hvpt by (intros Hin; apply (Hsep v Hin); by left).
  destruct (vm_ok_frame _ _ _ _ v (replicate 4096 0) Hvm1 Hvpt Hvl) as [Hvm2 Hpte2].
  set (s2 := set_pages _ (kalloced s)) in *. assert (pages s2 = <[v := replicate 4096 0]> (pages s)) as Es2 by (cbn; by rewrite kalloced_pages).
  rewrite kalloced_pages in Hpte2.
  eapply (wpg_mappages_page s2 pgdir tabs l); [exact Hvm2|by rewrite Z.mul_comm, Z_mod_mult|exact Hva| |apply u32_range|split; done| |].
  { rewrite Hpte2, Hother; [exact Hnp|done|]. rewrite Ep. lia. }
  { destruct l; [cbn in Hlen; lia|done]. }
  intros s' tabs' l' [Hvm' (n & -> & Hn) Htabs' Hframe'] Hpte'. set (w := Z.lor _ PTE_P) in *. change (0 <? 0) with false. cbv iota.
  assert (∀ a, a ∈ drop n l → a ∈ l) as Hdrop.
  { intros a (i & Hi)%list_elem_of_lookup. rewrite lookup_drop in Hi. by eapply list_elem_of_lookup_2. }
  (* a page that is neither in the page table nor free keeps its contents *)
  assert (∀ a, ¬ in_pt pgdir tabs a → a ∉ v :: l → pages s' !! a = pages s !! a ∧ ¬ in_pt pgdir tabs' a) as Hkeep.
  { intros a Ha Hal. apply not_elem_of_cons in Hal as [Hav Hal]. split.
    - rewrite Hframe' by done. rewrite Es2. by rewrite lookup_insert_ne.
    - intros [?|[? _]]%Htabs'; done. }
  assert (pages s' !! v = Some (replicate 4096 0) ∧ ¬ in_pt pgdir tabs' v) as [Hv0 Hvpt'].
  { split; [rewrite Hframe' by done; rewrite Es2; apply lookup_insert_eq|]. intros [?|[? _]]%Htabs'; done. }
  assert (∀ va, 0 ≤ va < 2 ^ 32 → va / PGSIZE ≠ p → pte_of (pages s') tabs' va = pte_of (pages s) tabs va) as Hold.
  { intros va Hr Hne. rewrite Hpte', bool_decide_false by (done || by rewrite Ep). by rewrite Hpte2. }
  assert (∀ va, 0 ≤ va < 2 ^ 32 → va / PGSIZE = p → pte_of (pages s') tabs' va = w) as Hnew.
  { intros va Hr E. rewrite Hpte', bool_decide_true; [done|by rewrite Ep|done]. }
  apply (HQ s' tabs' (drop n l)); [|rewrite length_drop; cbn in *; lia]. split.
  - exact Hvm'.
  - intros a Ha. apply Hsub. right. by apply Hdrop.
  - intros a [Ha|[Ha _]]%Htabs'; [by apply Htabs|]. right. apply Hsub. by right.
  - intros va Hr Hin. destruct (decide (va / PGSIZE = p)) as [E|E].
    + exists v. split_and!; [apply Hsub; by left|by intros ?%Hdrop|done|done|done|by apply Hnew].
    + destruct (Hfresh va Hr) as (v' & Hv' & Hvl' & Hvpt2 & Hok' & Hz & He); [lia|]. destruct (Hkeep v' Hvpt2 Hvl') as [Ek Hk'].
      apply not_elem_of_cons in Hvl' as [_ Hvl'].
      exists v'. split_and!; [done|by intros ?%Hdrop|done|done|by rewrite Ek|by rewrite Hold].
  - intros va Hr Hout. rewrite Hold by lia. apply Hother; [done|lia].
  - assert (∀ va, 0 ≤ va < 2 ^ 32 → p0 ≤ va / PGSIZE < p → pte_of (pages s) tabs va ≠ w) as Hdist.
    { intros va Hr Hin E. destruct (Hfresh va Hr Hin) as (v' & Hv'). pose proof (fresh_entry _ _ _ _ _ _ _ _ Hv' Hv E) as ->.
      destruct Hv' as (_ & Hnin & _). apply Hnin. by left. }
    intros va va' Hr Hr' Hin Hin'. destruct (decide (va / PGSIZE = p)) as [E|E], (decide (va' / PGSIZE = p)) as [E'|E'].
    + by rewrite E, E'.
    + rewrite (Hnew va), (Hold va') by done. intros Ew. exfalso. by apply (Hdist va'); [|lia|].
    + rewrite (Hold va), (Hnew va') by done. intros Ew. exfalso. by apply (Hdist va); [|lia|].
    + rewrite !Hold by done. apply Hinj; lia || done.
  - intros a Ha Hal. rewrite <- Hframe by done. apply Hkeep.
    + intros [?|?]%Htabs; done.
    + intros Hin. apply Hal. by apply Hsub.
Qed.

Lemma grown_to_refl s pgdir tabs l p : vm_ok s pgdir tabs l → grown_to s s pgdir tabs tabs l l p p.
Proof. intros H. split; try done; try (intros; lia); [by left]. Qed.

Lemma wpg_allocuvm_loop s0 pgdir tabs0 l0 p0 oldsz newsz fuel : ∀ n s tabs l p (Q : Z → kmst → Prop),
  grown_to s0 s pgdir tabs0 tabs l0 l p0 p → (∀ a, in_pt pgdir tabs0 a → a ∉ l0) → 0 ≤ p0 ≤ p → newsz < KERNBASE →
  PGSIZE * (p + Z.of_nat n) - PGSIZE < newsz ∨ n = 0%nat → newsz ≤ PGSIZE * (p + Z.of_nat n) →
  (n < fuel)%nat → (2 * n ≤ length l)%nat →
  (∀ q, p ≤ q < p + Z.of_nat n → present (pte_of (pages s0) tabs0 (PGSIZE * q)) = false) →
  (∀ s' tabs' l', grown_to s0 s' pgdir tabs0 tabs' l0 l' p0 (p + Z.of_nat n) → Q newsz s') →
  wpg t (allocuvm_loop fuel pgdir oldsz newsz (PGSIZE * p)) Q s.
Proof.
  induction fuel as [|fuel IH]; intros n s tabs l p Q Hg Hsep Hp Hmax Hlo Hhi Hfu Hlen Hnp HQ; [lia|].
  cbn [allocuvm_loop]. change PGSIZE with 4096 in Hlo, Hhi. destruct n as [|n].
  - change PGSIZE with 4096 at 1. replace (4096 * p <? newsz) with false by lia. apply wpg_ret. apply (HQ s tabs l). by rewrite Z.add_0_r.
  - change KERNBASE with 2147483648 in Hmax. change PGSIZE with 4096 at 1. replace (4096 * p <? newsz) with true by lia.
    eapply wpg_alloc_page; [exact Hg|done|done|lia|lia|apply Hnp; lia|]. intros s' tabs' l' Hg' Hl'.
    rewrite u32_id by (change PGSIZE with 4096; lia). replace (PGSIZE * p + PGSIZE) with (PGSIZE * (p + 1)) by lia.
    apply (IH n s' tabs' l'); [done|done|lia|done|change PGSIZE with 4096; lia|change PGSIZE with 4096; lia|lia|lia| |].
    + intros q Hq. apply Hnp. lia.
    + intros s2 tabs2 l2 Hg2. apply (HQ s2 tabs2 l2). by replace (p + Z.of_nat (S n)) with (p + 1 + Z.of_nat n) by lia.
Qed.
End Rules.

(** C28. [allocuvm] grows a process from [oldsz] to [newsz]: it refuses sizes
    that reach the kernel and leaves a larger process alone; otherwise, with two
    free pages for each page to add (one may be needed for a page table), every
    page between the two sizes is mapped writable for the user to a zeroed page
    of its own that was free, no other entry of the page table changes, and no
    page that was neither free nor in the page table is touched. *)
Theorem allocuvm_maps_fresh s pgdir tabs l oldsz newsz (p0 := PGROUNDUP oldsz / PGSIZE) (p1 := PGROUNDUP newsz / PGSIZE) :
  vm_ok s pgdir tabs l → 0 ≤ oldsz →
  (KERNBASE ≤ newsz → allocuvm pgdir oldsz newsz s = Ok (0, s)) ∧
  (newsz < oldsz → newsz < KERNBASE → allocuvm pgdir oldsz newsz s = Ok (oldsz, s)) ∧
  (oldsz ≤ newsz < KERNBASE → 2 * (p1 - p0) ≤ Z.of_nat (length l) →
   (∀ q, p0 ≤ q < p1 → present (pte_of (pages s) tabs (PGSIZE * q)) = false) →
   ∃ s' tabs' l', allocuvm pgdir oldsz newsz s = Ok (newsz, s') ∧ grown_to s s' pgdir tabs tabs' l l' p0 p1).
Proof.
  intros Hvm H0. unfold allocuvm. split_and!.
  - intros H. by replace (newsz >=? KERNBASE) with true by lia.
  - intros H H'. replace (newsz >=? KERNBASE) with false by lia. by replace (newsz <? oldsz) with true by lia.
  - intros Hsz Hlen Hnp. replace (newsz >=? KERNBASE) with false by lia. replace (newsz <? oldsz) with false by lia.
    destruct (round_up oldsz ltac:(lia)) as [Hm0 Hr0], (round_up newsz ltac:(lia)) as [Hm1 Hr1].
    pose proof (Z.div_mod (PGROUNDUP oldsz) PGSIZE ltac:(done)) as E0. pose proof (Z.div_mod (PGROUNDUP newsz) PGSIZE ltac:(done)) as E1.
    fold p0 in E0. fold p1 in E1. rewrite Hm0, Z.add_0_r in E0. rewrite Hm1, Z.add_0_r in E1.
    pose proof (Z.div_mod newsz PGSIZE ltac:(done)) as E2. pose proof (Z.mod_pos_bound newsz PGSIZE ltac:(done)) as B2.
    rewrite E0 in Hr0. rewrite E1 in Hr1. clearbody p0 p1. set (q := newsz / PGSIZE) in *. clearbody q. change PGSIZE with 4096 in Hr0, Hr1, B2, E2.
    destruct (wp_ok (allocuvm_loop (Z.to_nat q + 2) pgdir oldsz newsz (PGROUNDUP oldsz))
      (λ r s', r = newsz ∧ ∃ tabs' l', grown_to s s' pgdir tabs tabs' l l' p0 p1) s) as (r & s' & E & -> & tabs' & l' & Hg).
    + rewrite E0. assert (p1 = p0 + Z.of_nat (Z.to_nat (p1 - p0))) as Ep by lia. pose proof Hvm as (_ & _ & Hsep).
      apply (wpg_allocuvm_loop true s pgdir tabs l p0 oldsz newsz _ (Z.to_nat (p1 - p0)) s tabs l p0); rewrite <- ?Ep;
        [by apply grown_to_refl|exact Hsep|lia|lia|change PGSIZE with 4096; lia|change PGSIZE with 4096; lia|lia|lia|exact Hnp|].
      intros s1 tabs1 l1 Hg. eauto.
    + eauto 6.
Qed.

Lemma vm_ok_kfreed s pgdir tabs l v :
  vm_ok s pgdir tabs l → page_ok v → v ∉ l → ¬ in_pt pgdir tabs v → vm_ok (kfreed v s) pgdir tabs (v :: l).
Proof.
  intros Hvm Hv Hvl Hvpt. destruct (vm_ok_frame s pgdir tabs l v (freed (freelist s)) Hvm Hvpt Hvl) as [(Hpt & _ & _) _].
  destruct Hvm as (_ & Hf & Hsep). split_and!; [exact Hpt|by apply free_pages_kfreed|].
  intros a Ha [->|Hal]%elem_of_cons; [done|by apply (Hsep a)].
Qed.
End PageTable.

(** An empty page directory, and four free pages above it. *)
Definition demo_dir : Z := 2148536320.
Definition demo_free (k : Z) : Z := demo_dir + PGSIZE * k.
Definition demo_vm0 : kmst := set_pages {[demo_dir := replicate 4096 0]} demo_km.
Definition demo_vm : kmst := kfreed (demo_free 4) (kfreed (demo_free 3) (kfreed (demo_free 2) (kfreed (demo_free 1) demo_vm0))).
Definition demo_l : list Z := [demo_free 4; demo_free 3; demo_free 2; demo_free 1].

Lemma demo_vm0_ok : vm_ok (LD := demo_ld) demo_vm0 demo_dir ∅ [].
Proof.
  split_and!; [split|split|].
  - exists (replicate 4096 0). split_and!; [apply lookup_insert_eq|apply length_replicate|]. intros i Hi. by rewrite lookup_empty, get32_zero.
  - intros i a Hi. by rewrite lookup_empty in Hi.
  - intros i j a Hi. by rewrite lookup_empty in Hi.
  - reflexivity.
  - by apply NoDup_nil_2.
  - by intros v ?%not_elem_of_nil.
  - reflexivity.
  - intros a _. apply not_elem_of_nil.
Qed.

Lemma demo_free_ok k : 1 ≤ k ≤ 4 → page_ok (LD := demo_ld) (demo_free k).
Proof.
  intros Hk. assert (k = 1 ∨ k = 2 ∨ k = 3 ∨ k = 4) as [->|[->|[->| ->]]] by lia;
    (split; [reflexivity|split; [apply Z.leb_le; reflexivity|split; [apply Z.ltb_lt; reflexivity|split; apply Z.ltb_lt; reflexivity]]]).
Qed.

Lemma demo_free_new k l : 1 ≤ k → Forall (λ v, v < demo_free k) l → demo_free k ∉ l ∧ ¬ in_pt demo_dir ∅ (demo_free k).
Proof.
  intros Hk Hl. split.
  - intros H. pose proof (proj1 (Forall_forall _ _) Hl _ H). cbv beta in *. lia.
  - intros [H|[i H]]; [unfold demo_free in H; change PGSIZE with 4096 in H; lia|by rewrite lookup_empty in H].
Qed.

Lemma demo_vm_kfreed s k l :
  vm_ok (LD := demo_ld) s demo_dir ∅ l → 1 ≤ k ≤ 4 → Forall (λ v, v < demo_free k) l →
  vm_ok (LD := demo_ld) (kfreed (demo_free k) s) demo_dir ∅ (demo_free k :: l).
Proof.
  intros Hvm Hk Hl. destruct (demo_free_new k l) as [H1 H2]; [lia|exact Hl|].
  apply vm_ok_kfreed; [exact Hvm|by apply demo_free_ok|exact H1|exact H2].
Qed.

Lemma demo_vm_ok : vm_ok (LD := demo_ld) demo_vm demo_dir ∅ demo_l.
Proof.
  assert (∀ k j, j < k → demo_free j < demo_free k) as Hlt by (intros k j; unfold demo_free; change PGSIZE with 4096; lia).
  unfold demo_vm, demo_l.
  repeat (apply demo_vm_kfreed; [|lia|repeat (apply Forall_cons; split; [apply Hlt; lia|]); apply Forall_nil_2]).
  exact demo_vm0_ok.
Qed.

Lemma allocuvm_maps_fresh_witness :
  ∃ s' tabs' l', allocuvm (LD := demo_ld) demo_dir 0 8192 demo_vm = Ok (8192, s') ∧
    grown_to (LD := demo_ld) demo_vm s' demo_dir ∅ tabs' demo_l l' 0 2.
Proof.
  destruct (allocuvm_maps_fresh (LD := demo_ld) demo_vm demo_dir ∅ demo_l 0 8192 demo_vm_ok) as (_ & _ & H); [lia|].
  apply H; [split; [lia|reflexivity]|apply Z.leb_le; reflexivity|].
  intros q _. unfold pte_of. rewrite lookup_empty. reflexivity.
Defined.
