(* ===== verification/Grep.v ===== *)
(** * The pattern matcher and line filter (grep.c)

    Strings are the bytes from a pointer on, up to and beyond their NUL, as in
    [CString]; [None] is an access out of the array. *)

From S2P Require Export CStringProps.
Local Open Scope Z_scope.

(** The loop of [matchstar], with [matchhere re] as [mh]. *)
Definition matchstar_loop (mh : bytes → option bool) (c : Z) : bytes → option bool :=
  fix go text :=
    b ← mh text;
    if (b : bool) then Some true else
    match text with
    | [] => None
    | t :: text => if negb (t =? 0) && ((t =? c) || (c =? 46)) then go text else Some false
    end.

(** ['*'] is 42, ['$'] 36 and ['.'] 46. *)
Fixpoint matchhere (re text : bytes) {struct re} : option bool :=
  match re with
  | [] => None
  | r0 :: re1 =>
      if r0 =? 0 then Some true else
      match re1 with
      | [] => None
      | r1 :: re2 =>
          if r1 =? 42 then matchstar_loop (matchhere re2) r0 text
          else if (r0 =? 36) && (r1 =? 0) then t ← head text; Some (t =? 0)
          else t ← head text;
               if negb (t =? 0) && ((r0 =? 46) || (r0 =? t)) then matchhere re1 (tail text) else Some false
      end
  end.

Definition matchstar (c : Z) (re text : bytes) : option bool := matchstar_loop (matchhere re) c text.

(** The loop of [match], that must look at the empty string. *)
Fixpoint match_loop (re text : bytes) : option bool :=
  b ← matchhere re text;
  if (b : bool) then Some true else
  match text with
  | [] => None
  | t :: text => if negb (t =? 0) then match_loop re text else Some false
  end.

(** ['^'] is 94. *)
Definition match_ (re text : bytes) : option bool :=
  r0 ← head re;
  if r0 =? 94 then matchhere (tail re) text else match_loop re text.

(** ** Filtering lines *)

(** The buffer, what is left of the input, the most that the next calls of
    [read] deliver at once (a pipe or the console may deliver less than what
    is asked for; no bound when the list is empty), and the bytes written. *)
Record gst := mkGst { gbuf : bytes; ginput : bytes; gsizes : list nat; gout : bytes }.
Definition set_gbuf (b : bytes) (s : gst) : gst := mkGst b (ginput s) (gsizes s) (gout s).
Definition gwrite (b : bytes) (s : gst) : gst := mkGst (gbuf s) (ginput s) (gsizes s) (gout s ++ b).

(** [read(fd, buf+m, n)]. *)
Definition gread (m n : nat) : M gst nat := λ s,
  let n := Nat.min (match gsizes s with [] => n | k :: _ => Nat.min k n end) (length (ginput s)) in
  Ok (n, mkGst (splice (gbuf s) m (take n (ginput s))) (drop n (ginput s)) (tail (gsizes s)) (gout s)).

Section Grep.
Context (pattern : bytes).

(** The loop over the lines in the buffer, from [p] on: where the last of them
    ends. *)
Fixpoint grep_lines (fuel : nat) (p : nat) : M gst nat :=
  match fuel with
  | O => diverge
  | S fuel =>
      b ← gets gbuf;
      q ← deref (λ _, strchr (drop p b) 10);
      match q with
      | None => mret p
      | Some rest =>
          let q := (length b - length rest)%nat in
          modify (set_gbuf (<[q := 0]> b)) ;;
          b ← gets gbuf;
          r ← deref (λ _, match_ pattern (drop p b));
          when r
            (modify (set_gbuf (<[q := 10]> b)) ;;
             b ← gets gbuf;
             modify (gwrite (take (q + 1 - p) (drop p b)))) ;;
          grep_lines fuel (q + 1)%nat
      end
  end.

Fixpoint grep_loop (fuel : nat) (m : nat) : M gst unit :=
  match fuel with
  | O => diverge
  | S fuel =>
      n ← gread m (1024 - m - 1);
      if (0 <? n)%nat then
        let m := (m + n)%nat in
        b ← gets gbuf;
        modify (set_gbuf (<[m := 0]> b)) ;;
        p ← grep_lines 1025 0;
        let m := if (p =? 0)%nat then 0%nat else m in
        if (0 <? m)%nat then
          let m := (m - p)%nat in
          zoom gbuf set_gbuf (ulib_memmove 0 p m) ;;
          grep_loop fuel m
        else grep_loop fuel m
      else mret tt
  end.
(** Every turn but the last reads something. *)
Definition grep : M gst unit :=
  l ← gets ginput;
  grep_loop (S (length l)) 0.
End Grep.
