(* ===== verification/GrepProps.v ===== *)
(** * What [match] recognizes, and what [grep] prints *)

From S2P Require Export Grep.
Local Open Scope Z_scope.

(** ** Patterns *)

Inductive atom := AnyChar | Char (c : Z).
Inductive piece := One (a : atom) | Many (a : atom).

Definition atom_of (c : Z) : atom := if c =? 46 then AnyChar else Char c.
Definition accepts (a : atom) (x : Z) : Prop := match a with AnyChar => True | Char c => x = c end.

(** The pieces of a pattern, and whether it ends in ['$']. *)
Fixpoint pieces (re : bytes) : list piece * bool :=
  match re with
  | [] => ([], false)
  | c :: re1 =>
      match re1 with
      | [] => if c =? 36 then ([], true) else ([One (atom_of c)], false)
      | d :: re2 =>
          if d =? 42 then let '(ps, e) := pieces re2 in (Many (atom_of c) :: ps, e)
          else let '(ps, e) := pieces re1 in (One (atom_of c) :: ps, e)
      end
  end.

(** The words that a list of pieces describes. *)
Fixpoint lang (ps : list piece) (w : bytes) : Prop :=
  match ps with
  | [] => w = []
  | One a :: ps => ∃ x w', w = x :: w' ∧ accepts a x ∧ lang ps w'
  | Many a :: ps => ∃ u v, w = u ++ v ∧ Forall (accepts a) u ∧ lang ps v
  end.

(** A match at the beginning of [text]; at its end, too, after ['$']. *)
Definition here (pe : list piece * bool) (text : bytes) : Prop :=
  ∃ w post, text = w ++ post ∧ lang pe.1 w ∧ (pe.2 = true → post = []).

(** [re] matches somewhere in [text]; at its beginning after ['^']. *)
Definition matches (re text : bytes) : Prop :=
  match re with
  | r0 :: re' => if r0 =? 94 then here (pieces re') text else ∃ pre v, text = pre ++ v ∧ here (pieces re) v
  | [] => True
  end.

(** [r] is a decision of [P]. *)
Definition decides (r : option bool) (P : Prop) : Prop := ∃ b, r = Some b ∧ (b = true ↔ P).

Lemma decides_iff r P Q : decides r P → (P ↔ Q) → decides r Q.
Proof. intros (b & E & H) HQ. exists b. split; [done|]. tauto. Qed.

Lemma decides_true : decides (Some true) True.
Proof. by exists true. Qed.

Lemma accepts_atom c x : accepts (atom_of c) x ↔ (x =? c) || (c =? 46) = true.
Proof. unfold atom_of. rewrite orb_true_iff, Z.eqb_eq. destruct (Z.eqb_spec c 46); cbn; naive_solver. Qed.

Lemma matchstar_ok (mh : bytes → option bool) c (P : bytes → Prop) :
  (∀ text y, 0 ∉ text → decides (mh (text ++ 0 :: y)) (P text)) →
  ∀ text y, 0 ∉ text →
    decides (matchstar_loop mh c (text ++ 0 :: y)) (∃ u v, text = u ++ v ∧ Forall (accepts (atom_of c)) u ∧ P v).
Proof.
  intros Hmh. induction text as [|t text IH]; intros y Hnul.
  - destruct (Hmh [] y) as (b & E & Hb); [by apply not_elem_of_nil|]. exists b. cbn in *. rewrite E. split; [by destruct b|].
    rewrite Hb. split; [by exists [], []|]. by intros ([|] & [|] & ? & _ & H).
  - pose proof Hnul as Hnul'. apply not_elem_of_cons in Hnul' as [Ht Hn].
    destruct (Hmh (t :: text) y Hnul) as (b & E & Hb). cbn [app matchstar_loop] in *. cbn. rewrite E. cbn. destruct b.
    + eapply decides_iff; [apply decides_true|]. split; [|done]. intros _. exists [], (t :: text). split_and!; [done|constructor|by apply Hb].
    + rewrite (proj2 (Z.eqb_neq t 0)) by done. cbn [negb andb]. destruct ((t =? c) || (c =? 46)) eqn:Ea.
      * eapply decides_iff; [by apply IH|]. split.
        -- intros (u & v & -> & Hu & Hv). exists (t :: u), v. split_and!; [done|constructor; [by apply accepts_atom|done]|done].
        -- intros ([|x u] & v & Ev & Hu & Hv); cbn in Ev; [subst v; by apply Hb in Hv|]. injection Ev as -> ->.
           apply Forall_cons in Hu as [_ Hu]. by exists u, v.
      * exists false. split; [done|]. split; [done|]. intros ([|x u] & v & Ev & Hu & Hv); cbn in Ev; [subst v; by apply Hb in Hv|].
        injection Ev as -> ->. apply Forall_cons in Hu as [Hx _]. apply accepts_atom in Hx. congruence.
Qed.

Lemma here_one a ps e text :
  here (One a :: ps, e) text ↔ match text with [] => False | t :: text => accepts a t ∧ here (ps, e) text end.
Proof.
  split.
  - intros (w & post & -> & (x & w' & -> & Hx & Hw) & He). cbn. split; [done|]. by exists w', post.
  - destruct text as [|t text]; [done|]. intros (Ha & w & post & -> & Hw & He). exists (t :: w), post.
    split_and!; [done| |done]. by exists t, w.
Qed.

Lemma here_many a ps e text :
  here (Many a :: ps, e) text ↔ ∃ u v, text = u ++ v ∧ Forall (accepts a) u ∧ here (ps, e) v.
Proof.
  split.
  - intros (w & post & -> & (u & v & -> & Hu & Hv) & He). exists u, (v ++ post). split_and!; [by rewrite app_assoc|done|]. by exists v, post.
  - intros (u & v & -> & Hu & w & post & -> & Hw & He). exists (u ++ w), post. split_and!; [by rewrite app_assoc| |done]. by exists u, w.
Qed.

Lemma here_nil text : here ([], false) text ↔ True.
Proof. split; [done|]. intros _. exists [], text. by split_and!. Qed.

Lemma here_end text : here ([], true) text ↔ text = [].
Proof.
  split; [|intros ->; by exists [], []]. intros (w & post & -> & Hw & He). cbn in Hw. subst w. by apply He.
Qed.

(** One character of the pattern, and the rest. *)
Lemma matchhere_one c mh ps e text y :
  0 ∉ text → c ≠ 0 → (∀ text, 0 ∉ text → decides (mh (text ++ 0 :: y)) (here (ps, e) text)) →
  decides (t ← head (text ++ 0 :: y); if negb (t =? 0) && ((c =? 46) || (c =? t)) then mh (tail (text ++ 0 :: y)) else Some false)
    (here (One (atom_of c) :: ps, e) text).
Proof.
  intros Hnul Hc Hmh. destruct text as [|t text]; cbn.
  - exists false. split; [done|]. by rewrite here_one.
  - apply not_elem_of_cons in Hnul as [Ht Hn]. rewrite (proj2 (Z.eqb_neq t 0)) by done. cbn [negb andb].
    rewrite (Z.eqb_sym c t), orb_comm. destruct (_ || _) eqn:E.
    + eapply decides_iff; [by apply Hmh|]. rewrite here_one, accepts_atom. tauto.
    + exists false. split; [done|]. rewrite here_one, accepts_atom, E. naive_solver.
Qed.

Lemma pieces_cons c d re2 :
  pieces (c :: d :: re2) =
    if d =? 42 then let '(ps, e) := pieces re2 in (Many (atom_of c) :: ps, e)
    else let '(ps, e) := pieces (d :: re2) in (One (atom_of c) :: ps, e).
Proof. reflexivity. Qed.

Lemma matchhere_cons c d re2 text :
  c ≠ 0 →
  matchhere (c :: d :: re2) text =
    if d =? 42 then matchstar_loop (matchhere re2) c text
    else if (c =? 36) && (d =? 0) then t ← head text; Some (t =? 0)
    else t ← head text; if negb (t =? 0) && ((c =? 46) || (c =? t)) then matchhere (d :: re2) (tail text) else Some false.
Proof. intros Hc. cbn [matchhere]. by rewrite (proj2 (Z.eqb_neq c 0)). Qed.

Lemma matchhere_ok n : ∀ re x text y, (length re ≤ n)%nat → 0 ∉ re → 0 ∉ text →
  decides (matchhere (re ++ 0 :: x) (text ++ 0 :: y)) (here (pieces re) text).
Proof.
  induction n as [|n IH]; intros re x text y Hn Hre Htext.
  - destruct re; [|cbn in Hn; lia]. cbn. eapply decides_iff; [apply decides_true|]. by rewrite here_nil.
  - destruct re as [|c re1]; cbn [length] in Hn.
    { cbn. eapply decides_iff; [apply decides_true|]. by rewrite here_nil. }
    apply not_elem_of_cons in Hre as [Hc Hre]. apply not_eq_sym in Hc.
    destruct re1 as [|d re2]; cbn [app]; rewrite matchhere_cons by done.
    + cbn [pieces]. change (0 =? 42) with false. cbv iota. rewrite Z.eqb_refl, andb_true_r. destruct (c =? 36).
      * destruct text as [|t text]; cbn.
        -- eapply decides_iff; [apply decides_true|]. by rewrite here_end.
        -- apply not_elem_of_cons in Htext as [Ht _]. exists false. split; [by rewrite (proj2 (Z.eqb_neq t 0))|]. by rewrite here_end.
      * apply (matchhere_one c (matchhere (0 :: x))); [done|done|]. intros text' Ht'. cbn.
        eapply decides_iff; [apply decides_true|]. by rewrite here_nil.
    + apply not_elem_of_cons in Hre as [Hd Hre]. apply not_eq_sym in Hd. cbn [length] in Hn. rewrite pieces_cons. destruct (Z.eqb_spec d 42) as [->|Hd42].
      * specialize (IH re2 x). destruct (pieces re2) as [ps e] eqn:Ep.
        eapply decides_iff; [apply (matchstar_ok _ c (here (ps, e)))|by rewrite here_many].
        -- intros text' y' Ht'. apply IH; [lia|done|done].
        -- done.
      * rewrite (proj2 (Z.eqb_neq d 0)), andb_false_r by done.
        specialize (IH (d :: re2) x). cbn [app] in IH. destruct (pieces (d :: re2)) as [ps e] eqn:Ep.
        apply (matchhere_one c (matchhere (d :: re2 ++ 0 :: x))); [done|done|]. intros text' Ht'.
        apply IH; [cbn; lia| |done]. by apply not_elem_of_cons.
Qed.

Lemma match_loop_ok re x : 0 ∉ re → ∀ text y, 0 ∉ text →
  decides (match_loop (re ++ 0 :: x) (text ++ 0 :: y)) (∃ pre v, text = pre ++ v ∧ here (pieces re) v).
Proof.
  intros Hre. induction text as [|t text IH]; intros y Hnul; (destruct (matchhere_ok _ re x _ y (Nat.le_refl _) Hre Hnul) as (b & E & Hb)).
  - exists b. cbn in *. rewrite E. split; [by destruct b|]. rewrite Hb. split; [by exists [], []|]. by intros ([|] & [|] & ? & H).
  - pose proof Hnul as Hnul'. apply not_elem_of_cons in Hnul' as [Ht Hn]. cbn in *. rewrite E. cbn. destruct b.
    + eapply decides_iff; [apply decides_true|]. split; [|done]. intros _. exists [], (t :: text). split; [done|by apply Hb].
    + rewrite (proj2 (Z.eqb_neq t 0)) by done. cbn [negb]. eapply decides_iff; [by apply IH|]. split.
      * intros (pre & v & -> & Hv). by exists (t :: pre), v.
      * intros ([|x' pre] & v & Ev & Hv); cbn in Ev; [subst v; by apply Hb in Hv|]. injection Ev as -> ->. by exists pre, v.
Qed.

Lemma match_ok re x text y : 0 ∉ re → 0 ∉ text → decides (match_ (re ++ 0 :: x) (text ++ 0 :: y)) (matches re text).
Proof.
  intros Hre Htext. unfold match_, matches. destruct re as [|r0 re]; cbn [app head mbind option_bind tail].
  - change (0 =? 94) with false. cbv iota. eapply decides_iff; [apply (match_loop_ok [] x); [apply not_elem_of_nil|done]|].
    split; [done|]. intros _. exists [], text. split; [done|]. by apply here_nil.
  - destruct (r0 =? 94).
    + apply not_elem_of_cons in Hre as [_ Hre]. by apply (matchhere_ok (length re)).
    + by apply (match_loop_ok (r0 :: re) x).
Qed.

(** C30. [match] decides the language of its pattern: on every pattern and
    text it returns, within both strings, true exactly when the text contains
    a word described by the pattern: a character stands for itself, ['.'] for
    any one, [c*] for any number of [c] (of any characters for [.*]), ['^']
    anchors the match at the beginning and a final ['$'] at the end. *)
Theorem match_decides_pattern re x text y :
  0 ∉ re → 0 ∉ text →
  ∃ b, match_ (re ++ 0 :: x) (text ++ 0 :: y) = Some b ∧ (b = true ↔ matches re text).
Proof. apply match_ok. Qed.

Lemma match_decides_pattern_witness :
  ∃ b, match_ [94; 97; 42; 46; 36; 0] [97; 97; 98; 0] = Some b ∧ (b = true ↔ matches [94; 97; 42; 46; 36] [97; 97; 98]).
Proof. apply (match_decides_pattern [94; 97; 42; 46; 36] [] [97; 97; 98] []); (apply (bool_decide_unpack _); vm_compute; exact I). Defined.

(** ** Lines *)

Definition plain (l : bytes) : Prop := 0 ∉ l ∧ 10 ∉ l.

(** Complete lines, and an incomplete last one. *)
Definition join (ls : list bytes) (r : bytes) : bytes := concat (map (λ l, l ++ [10]) ls) ++ r.

(** What is printed for these lines. *)
Inductive prints (re : bytes) : list bytes → bytes → Prop :=
  | prints_nil : prints re [] []
  | prints_match l ls o : matches re l → prints re ls o → prints re (l :: ls) (l ++ 10 :: o)
  | prints_skip l ls o : ¬ matches re l → prints re ls o → prints re (l :: ls) o.

Lemma prints_app re ls1 ls2 o1 o2 : prints re ls1 o1 → prints re ls2 o2 → prints re (ls1 ++ ls2) (o1 ++ o2).
Proof.
  intros H1 H2. induction H1 as [|l ls o Hm H1 IH|l ls o Hm H1 IH]; cbn [app]; [done| |by apply prints_skip].
  rewrite <- app_assoc. by apply (prints_match re l (ls ++ ls2) (o ++ o2)).
Qed.

Lemma join_cons l ls r : join (l :: ls) r = l ++ 10 :: join ls r.
Proof. unfold join. cbn. by rewrite <- !app_assoc. Qed.

Lemma join_app ls r x : join ls r ++ x = join ls (r ++ x).
Proof. unfold join. by rewrite app_assoc. Qed.

Lemma join_length ls : (length ls ≤ length (join ls []))%nat.
Proof. induction ls as [|l ls IH]; [cbn; lia|]. rewrite join_cons, length_app. cbn. lia. Qed.

Lemma join_split ls r : join ls r = join ls [] ++ r.
Proof. by rewrite join_app. Qed.

(** A prefix of a text, cut into lines. *)
Lemma join_prefix ls r : ∀ k, Forall plain ls → plain r → (k ≤ length (join ls r))%nat →
  ∃ ls1 ls2 r1, ls = ls1 ++ ls2 ∧ take k (join ls r) = join ls1 r1 ∧ r1 ++ drop k (join ls r) = join ls2 r ∧ plain r1 ∧
    match ls2 with [] => True | l :: _ => (length r1 ≤ length l)%nat end.
Proof.
  assert (∀ (l : bytes) k, plain l → plain (take k l)) as Htake.
  { intros l k [H0 H10]. rewrite <- (take_drop k l) in H0, H10. rewrite elem_of_app in H0, H10. split; tauto. }
  induction ls as [|l ls IH]; intros k Hls Hr Hk.
  - exists [], [], (take k r). split_and!; [done|done|apply take_drop|by apply Htake|done].
  - apply Forall_cons in Hls as [Hl Hls]. rewrite join_cons in *. destruct (decide (k ≤ length l)%nat) as [Hkl|Hkl].
    + exists [], (l :: ls), (take k l). rewrite take_app_le, drop_app_le by done. split_and!; [done|done| |by apply Htake|rewrite length_take; lia].
      by rewrite join_cons, app_assoc, take_drop.
    + rewrite length_app in Hk. cbn in Hk. assert (k = length l + S (k - length l - 1))%nat as Ek by lia.
      destruct (IH (k - length l - 1)%nat Hls Hr) as (ls1 & ls2 & r1 & -> & E1 & E2 & Hr1 & Hlen); [lia|].
      exists (l :: ls1), ls2, r1. rewrite take_app_ge, drop_app_ge by lia. replace (k - length l)%nat with (S (k - length l - 1)) by lia.
      cbn [take drop]. rewrite join_cons, E1. split_and!; done.
Qed.

Lemma strchr_newline l rest : plain l → strchr (l ++ 10 :: rest) 10 = Some (Some (10 :: rest)).
Proof.
  intros [H0 H10]. induction l as [|c l IH]; [done|]. apply not_elem_of_cons in H0 as [? ?], H10 as [? ?]. cbn [app strchr].
  rewrite (proj2 (Z.eqb_neq c 0)), (proj2 (Z.eqb_neq c 10)) by congruence. by apply IH.
Qed.
Lemma strchr_no_newline r junk : plain r → strchr (r ++ 0 :: junk) 10 = Some None.
Proof.
  intros [H0 H10]. induction r as [|c r IH]; [done|]. apply not_elem_of_cons in H0 as [? ?], H10 as [? ?]. cbn [app strchr].
  rewrite (proj2 (Z.eqb_neq c 0)), (proj2 (Z.eqb_neq c 10)) by congruence. by apply IH.
Qed.

Section Rules.
Context (t : bool) (re x : bytes) (Hre : 0 ∉ re).

Lemma wpg_grep_lines ls : ∀ fuel pre r junk s (Q : nat → gst → Prop),
  gbuf s = pre ++ join ls r ++ 0 :: junk → (length ls < fuel)%nat → Forall plain ls → plain r →
  (∀ pre' o, length pre' = (length pre + length (join ls []))%nat → prints re ls o →
     Q (length pre') (mkGst (pre' ++ r ++ 0 :: junk) (ginput s) (gsizes s) (gout s ++ o))) →
  wpg t (grep_lines (re ++ 0 :: x) fuel (length pre)) Q s.
Proof.
  induction ls as [|l ls IH]; intros fuel pre r junk s Q Hb Hfu Hls Hr HQ;
    (destruct fuel as [|fuel]; [cbn in Hfu; lia|]); cbn [grep_lines]; apply wpg_bind, wpg_gets; rewrite Hb, drop_app_length.
  - apply wpg_bind. eapply wpg_deref; [by apply strchr_no_newline|]. cbv beta iota. apply wpg_ret.
    specialize (HQ pre [] ltac:(cbn; lia) (prints_nil re)). rewrite app_nil_r in HQ. destruct s. cbn in *. by subst.
  - apply Forall_cons in Hls as [Hl Hls]. rewrite join_cons, <- app_assoc. cbn [app]. set (T := join ls r ++ 0 :: junk).
    apply wpg_bind. eapply wpg_deref; [by apply strchr_newline|]. cbv beta iota zeta.
    assert (length (pre ++ l ++ 10%Z :: T) - length (10%Z :: T) = length (pre ++ l))%nat as -> by (rewrite !length_app; cbn; lia).
    rewrite app_assoc, insert_at. apply wpg_bind, (wpg_modify t), wpg_bind, wpg_gets. cbn [set_gbuf gbuf].
    rewrite <- app_assoc, drop_app_length.
    destruct (match_ok re x l T Hre (proj1 Hl)) as (b & Em & Hm).
    apply wpg_bind. eapply wpg_deref; [exact Em|]. rewrite app_assoc, insert_at. apply wpg_bind.
    assert (∀ c o1 s', s' = mkGst ((pre ++ l) ++ c :: T) (ginput s) (gsizes s) (gout s ++ o1) →
      (∀ o, prints re ls o → prints re (l :: ls) (o1 ++ o)) → wpg t (grep_lines (re ++ 0 :: x) fuel (length (pre ++ l) + 1)) Q s') as Hrest.
    { intros c o1 s' -> Ho1. replace (length (pre ++ l) + 1)%nat with (length (pre ++ l ++ [c])) by (rewrite !length_app; cbn; lia).
      apply (IH fuel (pre ++ l ++ [c]) r junk); [cbn [gbuf]; by rewrite <- !app_assoc|cbn in Hfu; lia|done|done|].
      intros pre' o Hp' Ho. cbn [ginput gsizes gout]. rewrite <- app_assoc. apply HQ; [|by apply Ho1].
      rewrite Hp', join_cons, !length_app. cbn. lia. }
    destruct b.
    + apply wpg_when_true; [done|]. apply wpg_bind, (wpg_modify t), wpg_bind, wpg_gets, (wpg_modify t). cbn [set_gbuf gbuf gwrite].
      apply (Hrest 10 (l ++ [10])).
      * f_equal. replace (length (pre ++ l) + 1 - length pre)%nat with (length (l ++ [10])) by (rewrite !length_app; cbn; lia).
        replace ((pre ++ l) ++ 10 :: T) with (pre ++ (l ++ [10]) ++ T) by (by rewrite <- !app_assoc).
        f_equal. by rewrite drop_app_length, take_app_length.
      * intros o Ho. rewrite <- app_assoc. apply prints_match; [by apply Hm|done].
    + apply wpg_when_false; [done|]. apply (Hrest 0 []); [by rewrite app_nil_r|]. intros o Ho. apply prints_skip; [|done]. intros H. by apply Hm in H.
Qed.
End Rules.

Lemma prints_nil_inv re o : prints re [] o → o = [].
Proof. by inversion 1. Qed.

Lemma join_plain ls r : plain (join ls r) → ls = [].
Proof. destruct ls as [|l ls]; [done|]. rewrite join_cons. intros [_ H]. exfalso. apply H, elem_of_app. right. by left. Qed.

Lemma plain_app_r a b : plain (a ++ b) → plain b.
Proof. unfold plain. rewrite !elem_of_app. tauto. Qed.

(** The buffer holds the beginning [c] of a line, and the input the rest of
    the text. *)
Record line_start (s : gst) (c : bytes) (ls : list bytes) (r : bytes) : Prop := {
  gl_buf : ∃ junk, gbuf s = c ++ junk;
  gl_len : length (gbuf s) = 1024%nat;
  gl_carry : plain c ∧ (length c ≤ 1022)%nat;
  gl_text : c ++ ginput s = join ls r;
  gl_lines : Forall (λ l, plain l ∧ (length l ≤ 1022)%nat) ls;
  gl_rest : plain r;
  gl_sizes : gsizes s = []
}.

Lemma line_start_drop s c ls r r1 n buf o :
  line_start s c ls r → length buf = 1024%nat → (n = 1023 - length c ∨ n = length (ginput s))%nat → (n ≤ length (ginput s))%nat →
  r1 = c ++ take n (ginput s) → r1 ++ drop n (ginput s) = join ls r → plain r1 →
  match ls with [] => True | l :: _ => (length r1 ≤ length l)%nat end →
  ls = [] ∧ line_start (mkGst buf (drop n (ginput s)) [] o) [] [] (drop n (ginput s)).
Proof.
  intros [Hb Hl [Hc Hcl] Ht Hls Hr Hz] Hbuf Hn Hni Er1 Etext Hr1 Hlen. assert (ls = []) as ->.
  { destruct ls as [|l ls]; [done|]. exfalso. apply Forall_cons in Hls as [[_ Hll] _].
    assert (length r1 = length c + n)%nat as El by (rewrite Er1, length_app, length_take; lia).
    destruct Hn as [Hn|Hn]; [lia|]. rewrite drop_ge, app_nil_r in Etext by lia. rewrite Etext in Hr1. by apply join_plain in Hr1. }
  split; [done|]. split; try done; [by exists buf|by split; [split; apply not_elem_of_nil|cbn; lia]|].
  rewrite join_split in Etext. cbn in Etext. rewrite <- Etext in Hr. by apply plain_app_r in Hr.
Qed.

Section Loop.
Context (t : bool) (re x : bytes) (Hre : 0 ∉ re).

Lemma wpg_grep_loop fuel : ∀ s c ls r (Q : unit → gst → Prop),
  line_start s c ls r → (length (ginput s) < fuel)%nat →
  (∀ s' o, prints re ls o → gout s' = gout s ++ o → ginput s' = [] → Q tt s') →
  wpg t (grep_loop (re ++ 0 :: x) fuel (length c)) Q s.
Proof.
  induction fuel as [|fuel IH]; intros s c ls r Q Hs Hfu HQ; [lia|]. pose proof Hs as [(junk & Hb) Hl [Hc Hcl] Ht Hls Hr Hz].
  cbn [grep_loop]. apply wpg_bind. unfold wpg at 1, gread. rewrite Hz. cbv zeta.
  set (n := Nat.min (1024 - length c - 1) (length (ginput s))). assert (n = 1023 - length c ∨ n = length (ginput s))%nat as Hn by lia.
  assert (n ≤ length (ginput s))%nat as Hni by lia. destruct (Nat.ltb_spec 0 n) as [Hpos|Hzero].
  2:{ apply wpg_ret. assert (ginput s = []) as Ei by (apply nil_length_inv; lia). rewrite Ei, app_nil_r in Ht.
      assert (ls = []) as -> by (rewrite Ht in Hc; by apply join_plain in Hc).
      apply (HQ _ []); [constructor|by rewrite app_nil_r|by rewrite Ei, drop_nil]. }
  (* what has been read *)
  set (chunk := take n (ginput s)). assert (length chunk = n) as Hch by (unfold chunk; rewrite length_take; lia).
  assert (length (c ++ junk) = 1024%nat) as Hl' by (by rewrite <- Hb). rewrite length_app in Hl'.
  rewrite Hb, splice_app by lia. destruct (drop (length chunk) junk) as [|z junk'] eqn:Ej; [apply (f_equal length) in Ej; rewrite length_drop in Ej; cbn in Ej; lia|].
  apply (f_equal length) in Ej. rewrite length_drop in Ej. cbn in Ej.
  apply wpg_bind, wpg_gets, wpg_bind, (wpg_modify t). cbn [gbuf set_gbuf].
  replace (length c + n)%nat with (length (c ++ chunk)) by (rewrite length_app; lia). rewrite (app_assoc c), insert_at.
  (* its lines *)
  assert (Forall plain ls) as Hpl by (eapply Forall_impl; [exact Hls|by intros ? []]).
  assert (length c + length (ginput s) = length (join ls r))%nat as Etl by (by rewrite <- Ht, length_app).
  destruct (join_prefix ls r (length c + n) Hpl Hr) as (ls1 & ls2 & r1 & Els & E1 & E2 & Hr1 & Hlen); [lia|].
  rewrite <- Ht, take_app_ge in E1 by lia. rewrite <- Ht, drop_app_ge in E2 by lia. replace (length c + n - length c)%nat with n in E1, E2 by lia. fold chunk in E1.
  subst ls. apply Forall_app in Hls as [Hls1 Hls2]. apply Forall_app in Hpl as [Hpl1 Hpl2].
  assert (length (c ++ chunk) = length (join ls1 []) + length r1)%nat as Elen by (by rewrite E1, join_split, length_app).
  rewrite length_app in Elen. rewrite E1. apply wpg_bind. apply (wpg_grep_lines t re x Hre ls1 1025 [] r1 junk').
  { reflexivity. }
  { pose proof (join_length ls1). lia. }
  { done. }
  { done. }
  intros pre' o Hp' Ho. cbn [set_gbuf ginput gsizes gout] in *. cbn in Hp'.
  assert (length (pre' ++ r1 ++ 0%Z :: junk') = 1024%nat) as Hlb by (rewrite !length_app; cbn; lia).
  assert (∀ s' o', prints re ls2 o' → gout s' = (gout s ++ o) ++ o' → ginput s' = [] → Q tt s') as HQ'.
  { intros s' o' Ho' Eo. apply (HQ s' (o ++ o')); [by apply prints_app|by rewrite app_assoc]. }
  destruct (Nat.eqb_spec (length pre') 0) as [Ep0|Ep0]; cbv zeta.
  - change (0 <? 0)%nat with false. cbv iota. destruct ls1 as [|l ls1].
    2:{ rewrite Hp', join_cons, length_app in Ep0. cbn in Ep0. lia. }
    destruct (line_start_drop s c ls2 r r1 n (pre' ++ r1 ++ 0 :: junk') (gout s ++ o) Hs Hlb Hn Hni) as [-> Hs']; [exact (eq_sym E1)|exact E2|done|done|].
    apply (IH _ [] [] (drop n (ginput s))); [exact Hs'|cbn [ginput]; rewrite length_drop; lia|exact HQ'].
  - replace (0 <? length (join ls1 r1))%nat with true by (symmetry; apply Nat.ltb_lt; rewrite join_split, length_app; lia).
    replace (length (join ls1 r1) - length pre')%nat with (length r1) by (rewrite join_split, length_app; lia).
    apply wpg_bind, wpg_zoom. cbn [gbuf]. unfold wpg at 1, ulib_memmove. rewrite copy_up_ok by (rewrite ?Hlb; rewrite !length_app in *; cbn in *; lia).
    unfold moved. rewrite drop_app_length, take_app_length, splice_front by (rewrite !length_app; lia).
    apply (IH _ r1 ls2 r); [|cbn [set_gbuf ginput]; rewrite length_drop; lia|exact HQ'].
    split; cbn [set_gbuf gbuf ginput gsizes]; try done; [eauto| |split; [done|lia]].
    rewrite length_app, length_drop, Hlb. rewrite !length_app in Hlb. lia.
Qed.
End Loop.

(** C29. On an input whose complete lines fit the buffer (1022 bytes before
    the newline), read in full chunks as from a file, [grep] stops and prints
    exactly the lines that match, in order and each with its newline; an
    incomplete last line is not printed. *)
Theorem grep_prints_matching_lines re x ls r buf out :
  0 ∉ re → length buf = 1024%nat → Forall (λ l, plain l ∧ (length l ≤ 1022)%nat) ls → plain r →
  ∃ s' o, grep (re ++ 0 :: x) (mkGst buf (join ls r) [] out) = Ok (tt, s') ∧
    prints re ls o ∧ gout s' = out ++ o ∧ ginput s' = [].
Proof.
  intros Hre Hbuf Hls Hr. set (s := mkGst buf (join ls r) [] out).
  destruct (wp_ok (grep (re ++ 0 :: x)) (λ _ s', ∃ o, prints re ls o ∧ gout s' = out ++ o ∧ ginput s' = []) s) as ([] & s' & E & o & Ho); [|eauto].
  apply wpg_bind, wpg_gets. apply (wpg_grep_loop true re x Hre _ s [] ls r).
  - split; try done; [by exists buf|split; [split; apply not_elem_of_nil|cbn; lia]].
  - cbn [ginput]. lia.
  - eauto.
Qed.

Lemma grep_prints_matching_lines_witness :
  ∃ s' o, grep [98; 36; 0] (mkGst (replicate 1024 0) [97; 98; 10; 98; 97; 10; 98] [] []) = Ok (tt, s') ∧
    prints [98; 36] [[97; 98]; [98; 97]] o ∧ gout s' = o ∧ ginput s' = [].
Proof.
  apply (grep_prints_matching_lines [98; 36] [] [[97; 98]; [98; 97]] [98] (replicate 1024 0) []).
  - apply (bool_decide_unpack _). vm_compute. exact I.
  - apply length_replicate.
  - apply (bool_decide_unpack _). vm_compute. exact I.
  - split; apply (bool_decide_unpack _); vm_compute; exact I.
Defined.

(** A pipe delivers what there is: a line that arrives in two pieces is lost,
    since [grep] empties the buffer when it holds no newline. *)
Lemma grep_loses_split_lines :
  ∃ s', grep [97; 0] (mkGst (replicate 1024 0) [97; 98; 10] [1%nat] []) = Ok (tt, s') ∧ gout s' = [] ∧ matches [97] [97; 98].
Proof.
  eexists. split; [vm_compute; reflexivity|]. split; [reflexivity|]. exists [], [97; 98]. split; [done|].
  exists [97], [98]. split_and!; [done| |done]. by exists 97, [].
Qed.
