(* ===== verification/Shell.v ===== *)
(** * The command parser of the shell (sh.c)

    The line is a buffer of bytes and a [char *] an index into it.  The parsed
    commands are nodes of a heap, in the order of their allocation ([malloc] is
    taken to succeed), and a [struct cmd *] is the index of its node, so that
    the command that [parseexec] fills in while redirections already point to
    it is one shared node.  [panic] prints its message and exits. *)

From S2P Require Export CString.
Local Open Scope Z_scope.

Definition MAXARGS : nat := 10.
Definition O_RDONLY : Z := 0.
Definition O_WRONLY : Z := 1.
Definition O_CREATE : Z := 512.

Inductive node :=
  | EXEC (argv eargv : list (option nat))
  | REDIR (cmd file efile : nat) (mode fd : Z)
  | PIPE (left right : nat)
  | LIST (left right : nat)
  | BACK (cmd : nat).

(** The line, the parser's position [*ps] in it, and the heap. *)
Record shst := mkSh { sbuf : bytes; spos : nat; sheap : list node }.
Definition set_sbuf (b : bytes) (s : shst) : shst := mkSh b (spos s) (sheap s).
Definition set_spos (p : nat) (s : shst) : shst := mkSh (sbuf s) p (sheap s).
Definition set_sheap (h : list node) (s : shst) : shst := mkSh (sbuf s) (spos s) h.

Definition char_at (i : nat) : M shst Z := deref (λ s, sbuf s !! i).
Definition put_char (i : nat) (c : Z) : M shst unit :=
  b ← gets sbuf;
  if bool_decide (i < length b)%nat then modify (set_sbuf (<[i := c]> b)) else fault.

(** ** Constructors *)

Definition new_node (x : node) : M shst nat :=
  h ← gets sheap;
  modify (set_sheap (h ++ [x])) ;;
  mret (length h).
Definition execcmd : M shst nat := new_node (EXEC (replicate MAXARGS None) (replicate MAXARGS None)).
Definition redircmd (subcmd file efile : nat) (mode fd : Z) : M shst nat := new_node (REDIR subcmd file efile mode fd).
Definition pipecmd (left right : nat) : M shst nat := new_node (PIPE left right).
Definition listcmd (left right : nat) : M shst nat := new_node (LIST left right).
Definition backcmd (subcmd : nat) : M shst nat := new_node (BACK subcmd).

(** [cmd->argv[i] = q; cmd->eargv[i] = eq;] *)
Definition set_arg (cmd i : nat) (q eq : option nat) : M shst unit :=
  h ← gets sheap;
  match h !! cmd with
  | Some (EXEC argv eargv) =>
      if bool_decide (i < MAXARGS)%nat then modify (set_sheap (<[cmd := EXEC (<[i := q]> argv) (<[i := eq]> eargv)]> h)) else fault
  | _ => fault
  end.

(** ** Tokens *)

Definition whitespace : bytes := [32; 9; 13; 10; 11; 0].
Definition symbols : bytes := [60; 124; 62; 38; 59; 40; 41; 0].

(** [strchr(s, c) != 0]. *)
Definition in_str (s : bytes) (c : Z) : bool := match strchr s c with Some (Some _) => true | _ => false end.

(** A loop that advances [s] while it is before [es] and [test] holds of the
    character there; [n] is [es - s]. *)
Fixpoint scan (test : Z → bool) (n s : nat) : M shst nat :=
  match n with
  | O => mret s
  | S n => c ← char_at s; if test c then scan test n (S s) else mret s
  end.
Definition skip_white (s es : nat) : M shst nat := scan (in_str whitespace) (es - s) s.

(** The kind of token (['a'] for a word, ['+'] for [>>], 0 at the end) and
    where it begins and ends. *)
Definition gettoken (es : nat) : M shst (Z * nat * nat) :=
  s ← gets spos;
  s ← skip_white s es;
  let q := s in
  c ← char_at s;
  '(ret, s) ←
    (if c =? 0 then mret (c, s)
     else if bool_decide (c ∈ [124; 40; 41; 59; 38; 60]) then mret (c, S s)
     else if c =? 62 then
       c1 ← char_at (S s);
       if c1 =? 62 then mret (43, S (S s)) else mret (c, S s)
     else
       s ← scan (λ c, negb (in_str whitespace c) && negb (in_str symbols c)) (es - s) s;
       mret (97, s));
  let eq := s in
  s ← skip_white s es;
  modify (set_spos s) ;;
  mret (ret, q, eq).

Definition peek (es : nat) (toks : bytes) : M shst bool :=
  s ← gets spos;
  s ← skip_white s es;
  modify (set_spos s) ;;
  c ← char_at s;
  mret (negb (c =? 0) && in_str toks c).

(** ** The grammar *)

Fixpoint parseredirs (fuel : nat) (cmd es : nat) : M shst nat :=
  match fuel with
  | O => diverge
  | S fuel =>
      p ← peek es [60; 62; 0];
      if (p : bool) then
        '(tok, _, _) ← gettoken es;
        '(a, q, eq) ← gettoken es;
        if negb (a =? 97) then panic "missing file for redirection" else
        cmd ← (if tok =? 60 then redircmd cmd q eq O_RDONLY 0
               else if tok =? 62 then redircmd cmd q eq (Z.lor O_WRONLY O_CREATE) 1
               else if tok =? 43 then redircmd cmd q eq (Z.lor O_WRONLY O_CREATE) 1
               else mret cmd);
        parseredirs fuel cmd es
      else mret cmd
  end.

(** The loop of [parseexec] over the arguments. *)
Fixpoint parseexec_loop (fuel : nat) (cmd ret argc es : nat) : M shst nat :=
  match fuel with
  | O => diverge
  | S fuel =>
      p ← peek es [124; 41; 38; 59; 0];
      if (p : bool) then set_arg cmd argc None None ;; mret ret
      else
        '(tok, q, eq) ← gettoken es;
        if tok =? 0 then set_arg cmd argc None None ;; mret ret
        else if negb (tok =? 97) then panic "syntax"
        else
          set_arg cmd argc (Some q) (Some eq) ;;
          let argc := S argc in
          if bool_decide (MAXARGS ≤ argc)%nat then panic "too many args" else
          ret ← parseredirs (S es) ret es;
          parseexec_loop fuel cmd ret argc es
  end.

(** The loop of [parseline] over ['&']. *)
Fixpoint parseback (fuel : nat) (cmd es : nat) : M shst nat :=
  match fuel with
  | O => diverge
  | S fuel =>
      p ← peek es [38; 0];
      if (p : bool) then
        gettoken es ;;
        cmd ← backcmd cmd;
        parseback fuel cmd es
      else mret cmd
  end.

Fixpoint parseline (fuel es : nat) : M shst nat :=
  match fuel with
  | O => diverge
  | S fuel =>
      cmd ← parsepipe fuel es;
      cmd ← parseback (S es) cmd es;
      p ← peek es [59; 0];
      if (p : bool) then
        gettoken es ;;
        r ← parseline fuel es;
        listcmd cmd r
      else mret cmd
  end
with parsepipe (fuel es : nat) : M shst nat :=
  match fuel with
  | O => diverge
  | S fuel =>
      cmd ← parseexec fuel es;
      p ← peek es [124; 0];
      if (p : bool) then
        gettoken es ;;
        r ← parsepipe fuel es;
        pipecmd cmd r
      else mret cmd
  end
with parseexec (fuel es : nat) : M shst nat :=
  match fuel with
  | O => diverge
  | S fuel =>
      p ← peek es [40; 0];
      if (p : bool) then parseblock fuel es
      else
        ret ← execcmd;
        let cmd := ret in
        ret ← parseredirs (S es) ret es;
        parseexec_loop (S es) cmd ret 0 es
  end
with parseblock (fuel es : nat) : M shst nat :=
  match fuel with
  | O => diverge
  | S fuel =>
      p ← peek es [40; 0];
      if negb p then panic "parseblock" else
      gettoken es ;;
      cmd ← parseline fuel es;
      p ← peek es [41; 0];
      if negb p then panic "syntax - missing )" else
      gettoken es ;;
      parseredirs (S es) cmd es
  end.

(** ** Cutting the words *)

(** [for(i=0; argv[i]; i++) *eargv[i] = 0;] *)
Fixpoint nul_args (argv eargv : list (option nat)) : M shst unit :=
  match argv, eargv with
  | None :: _, _ => mret tt
  | Some _ :: argv, Some e :: eargv => put_char e 0 ;; nul_args argv eargv
  | _, _ => fault
  end.

(** A node is allocated after the nodes it points to, so that its index
    bounds the depth of the recursion. *)
Fixpoint nulterminate (fuel cmd : nat) : M shst unit :=
  match fuel with
  | O => diverge
  | S fuel =>
      x ← deref (λ s, sheap s !! cmd);
      match x with
      | EXEC argv eargv => nul_args argv eargv
      | REDIR c _ efile _ _ => nulterminate fuel c ;; put_char efile 0
      | PIPE l r => nulterminate fuel l ;; nulterminate fuel r
      | LIST l r => nulterminate fuel l ;; nulterminate fuel r
      | BACK c => nulterminate fuel c
      end
  end.

(** [parsecmd] of the line at [s]; each turn of the grammar's functions
    that does not consume a character goes to a smaller one. *)
Definition parsecmd (s : nat) : M shst nat :=
  n ← deref (λ t, strlen (drop s (sbuf t)));
  let es := (s + Z.to_nat n)%nat in
  modify (set_spos s) ;;
  cmd ← parseline (4 * (es - s) + 4) es;
  peek es [0] ;;
  s ← gets spos;
  if negb (bool_decide (s = es)) then panic "syntax" else
  nulterminate (S cmd) cmd ;;
  mret cmd.

(** ["echo a | (b >c &); d"]. *)
Definition demo_line : bytes :=
  [101; 99; 104; 111; 32; 97; 32; 124; 32; 40; 98; 32; 62; 99; 32; 38; 41; 59; 32; 100; 0].
Example demo_parse : parsecmd 0 (mkSh demo_line 0 []) =
  Ok (6%nat, mkSh [101; 99; 104; 111; 0; 97; 0; 124; 32; 40; 98; 0; 62; 99; 0; 38; 41; 59; 32; 100; 0] 20
    [EXEC (Some 0%nat :: Some 5%nat :: replicate 8 None) (Some 4%nat :: Some 6%nat :: replicate 8 None);
     EXEC (Some 10%nat :: replicate 9 None) (Some 11%nat :: replicate 9 None);
     REDIR 1 13 14 513 1; BACK 2; PIPE 0 3;
     EXEC (Some 19%nat :: replicate 9 None) (Some 20%nat :: replicate 9 None); LIST 4 5]).
Proof. vm_compute. reflexivity. Qed.
