(* ===== verification/ShellProps.v ===== *)
(** * The shell's parser accepts or rejects every line *)

From S2P Require Export Shell.
From S2P Require Export CStringProps.
Local Open Scope Z_scope.

(** ** Rules *)

Definition messages : list string := ["missing file for redirection"; "syntax"; "too many args"; "syntax - missing )"]%string.

(** The code returns, or gives up with one of the messages. *)
Definition safe {A} (m : M shst A) (Q : A → shst → Prop) (s : shst) : Prop :=
  match m s with Ok (a, s') => Q a s' | Panic e => e ∈ messages | _ => False end.

Lemma safe_bind {A B} (m : M shst A) (k : A → M shst B) Q s : safe m (λ a s', safe (k a) Q s') s → safe (m ≫= k) Q s.
Proof. unfold safe, mbind, M_bind. by destruct (m s) as [[a s']|e| |]. Qed.
Lemma safe_mono {A} (m : M shst A) (Q Q' : A → shst → Prop) s : safe m Q s → (∀ a s', Q a s' → Q' a s') → safe m Q' s.
Proof. unfold safe. destruct (m s) as [[a s']|e| |]; auto. Qed.
Lemma safe_wp {A} (m : M shst A) Q s : wp m Q s → safe m Q s.
Proof. unfold wpg, safe. by destruct (m s) as [[a s']|e| |]. Qed.
Lemma safe_panic {A} e (Q : A → shst → Prop) s : e ∈ messages → safe (panic e) Q s.
Proof. exact id. Qed.

(** The line ends at [es], and not before. *)
Definition line_ok (b : bytes) (es : nat) : Prop :=
  b !! es = Some 0 ∧ ∀ i, (i < es)%nat → ∃ c, b !! i = Some c ∧ c ≠ 0.

Section Rules.
Context (t : bool).

Lemma wpg_char_at i c (Q : Z → shst → Prop) s : sbuf s !! i = Some c → Q c s → wpg t (char_at i) Q s.
Proof. intros Hc HQ. by eapply wpg_deref. Qed.

Lemma wpg_put_char i c (Q : unit → shst → Prop) s :
  (i < length (sbuf s))%nat → Q tt (set_sbuf (<[i := c]> (sbuf s)) s) → wpg t (put_char i c) Q s.
Proof. intros Hi HQ. apply wpg_bind, wpg_gets. rewrite bool_decide_true by done. by apply (wpg_modify t). Qed.

Lemma wpg_new_node x (Q : nat → shst → Prop) s :
  Q (length (sheap s)) (set_sheap (sheap s ++ [x]) s) → wpg t (new_node x) Q s.
Proof. intros HQ. apply wpg_bind, wpg_gets, wpg_bind, (wpg_modify t), wpg_ret. exact HQ. Qed.

(** [scan] stops at the first character that fails the test. *)
Lemma wpg_scan test n : ∀ i s (Q : nat → shst → Prop),
  (∀ k, (i ≤ k < i + n)%nat → is_Some (sbuf s !! k)) →
  (∀ j, (i ≤ j ≤ i + n)%nat → (∀ k c, (i ≤ k < j)%nat → sbuf s !! k = Some c → test c = true) →
     ((j < i + n)%nat → ∃ c, sbuf s !! j = Some c ∧ test c = false) → Q j s) →
  wpg t (scan test n i) Q s.
Proof.
  induction n as [|n IH]; intros i s Q Hin HQ; cbn [scan].
  - apply wpg_ret, HQ; [lia|intros; lia|lia].
  - destruct (Hin i) as [c Hc]; [lia|]. apply wpg_bind. eapply wpg_char_at; [exact Hc|]. destruct (test c) eqn:Et.
    + apply IH; [intros; apply Hin; lia|]. intros j Hj Hall Hstop. apply HQ; [lia| |intros; apply Hstop; lia].
      intros k c' Hk Hc'. destruct (decide (k = i)) as [->|]; [congruence|]. apply (Hall k); [lia|done].
    + apply wpg_ret, HQ; [lia|intros; lia|]. intros _. eauto.
Qed.

Lemma in_str_spec s c : 0 ∉ s → in_str (s ++ [0]) c = bool_decide (c ∈ s).
Proof.
  unfold in_str. induction s as [|d s IH]; intros Hs.
  - cbn. symmetry. apply bool_decide_false, not_elem_of_nil.
  - apply not_elem_of_cons in Hs as [Hd Hs]. cbn. rewrite (proj2 (Z.eqb_neq d 0)) by done. destruct (Z.eqb_spec d c) as [->|Hne].
    + symmetry. apply bool_decide_true. by left.
    + rewrite IH by done. apply bool_decide_ext. rewrite elem_of_cons. naive_solver.
Qed.

Lemma in_symbols c : in_str symbols c = bool_decide (c ∈ [60; 124; 62; 38; 59; 40; 41]).
Proof. apply (in_str_spec [60; 124; 62; 38; 59; 40; 41]). apply (bool_decide_unpack _). vm_compute. exact I. Qed.

(** The parser has skipped white space: it is at the end of the line or at a
    visible character. *)
Definition at_char (es : nat) (s : shst) (c : Z) : Prop :=
  sbuf s !! spos s = Some c ∧ in_str whitespace c = false ∧ (spos s ≤ es)%nat ∧ (spos s = es ↔ c = 0).

Lemma wpg_skip_white es i s (Q : nat → shst → Prop) :
  line_ok (sbuf s) es → (i ≤ es)%nat →
  (∀ j c, (i ≤ j)%nat → at_char es (set_spos j s) c → (∀ c, sbuf s !! i = Some c → in_str whitespace c = false → j = i) → Q j s) →
  wpg t (skip_white i es) Q s.
Proof.
  intros [Hend Hin] Hi HQ. apply wpg_scan.
  - intros k Hk. destruct (Hin k) as (c & Hc & _); [lia|eauto].
  - intros j Hj Hall Hstop.
    assert (∀ c, sbuf s !! i = Some c → in_str whitespace c = false → j = i) as Hfst.
    { intros c Hc Hw. destruct (decide (j = i)); [done|]. rewrite (Hall i c) in Hw; [done|lia|done]. }
    destruct (decide (j = es)) as [->|Hne].
    + apply (HQ es 0); [lia|split_and!; done|done].
    + destruct Hstop as (c & Hc & Ht); [lia|]. destruct (Hin j) as (c' & Hc' & Hnz); [lia|].
      apply (HQ j c); [lia|split_and!; [done|done|cbn; lia|]|done]. cbn. split; congruence.
Qed.

Lemma wpg_peek es toks s (Q : bool → shst → Prop) :
  line_ok (sbuf s) es → (spos s ≤ es)%nat →
  (∀ j c, (spos s ≤ j)%nat → at_char es (set_spos j s) c → Q (negb (c =? 0) && in_str toks c) (set_spos j s)) →
  wpg t (peek es toks) Q s.
Proof.
  intros Hl Hp HQ. apply wpg_bind, wpg_gets, wpg_bind, wpg_skip_white; [done..|]. intros j c Hj Hc _.
  apply wpg_bind, (wpg_modify t), wpg_bind. eapply wpg_char_at; [apply Hc|]. by apply wpg_ret, HQ.
Qed.

(** After white space has been skipped, [peek] stays there. *)
Lemma wpg_peek_here es toks s c (Q : bool → shst → Prop) :
  line_ok (sbuf s) es → at_char es s c → Q (negb (c =? 0) && in_str toks c) s → wpg t (peek es toks) Q s.
Proof.
  intros Hl (Hc & Hw & Hle & He) HQ. apply wpg_bind, wpg_gets, wpg_bind, wpg_skip_white; [done..|]. intros j c' _ _ Hj.
  rewrite (Hj c Hc Hw). apply wpg_bind, (wpg_modify t), wpg_bind. eapply wpg_char_at; [exact Hc|]. apply wpg_ret. by destruct s.
Qed.

(** [gettoken] moves on, except at the end of the line. *)
Lemma wpg_gettoken es s c (Q : Z * nat * nat → shst → Prop) :
  line_ok (sbuf s) es → at_char es s c →
  (∀ tok eq j c', (spos s ≤ eq ≤ j)%nat → at_char es (set_spos j s) c' → (c ≠ 0 → (spos s < eq)%nat) → (c = 0 → tok = 0) →
     Q (tok, spos s, eq) (set_spos j s)) →
  wpg t (gettoken es) Q s.
Proof.
  intros Hl (Hc & Hw & Hp & He) HQ. pose proof Hl as [Hend Hin]. apply wpg_bind, wpg_gets, wpg_bind, wpg_skip_white; [done..|].
  intros q c' _ _ Hq. rewrite (Hq c Hc Hw). clear q c' Hq. set (q := spos s) in *. cbv zeta.
  apply wpg_bind. eapply wpg_char_at; [exact Hc|]. apply wpg_bind.
  assert (∀ tok eq, (q ≤ eq ≤ es)%nat → (c ≠ 0 → (q < eq)%nat) → (c = 0 → tok = 0) →
    wpg t (s0 ← skip_white eq es; modify (set_spos s0) ;; mret (tok, q, eq)) Q s) as Hrest.
  { intros tok eq Hr Hlt Htok. apply wpg_bind, wpg_skip_white; [done|lia|]. intros j c' Hj Hat _.
    apply wpg_bind, (wpg_modify t), wpg_ret. apply (HQ tok eq j c'); [lia|done..]. }
  destruct (Z.eqb_spec c 0) as [->|Hnz].
  - apply wpg_ret, Hrest; [lia|done|done].
  - assert (q < es)%nat as Hlt by (destruct (decide (q = es)); [tauto|lia]). case_bool_decide.
    + apply wpg_ret, Hrest; [lia|lia|done].
    + destruct (Z.eqb_spec c 62).
      * assert (∃ c1, sbuf s !! S q = Some c1 ∧ (c1 = 62 → (S q < es)%nat)) as (c1 & Hc1 & Hlt1).
        { destruct (decide (S q = es)) as [->|]; [exists 0; split; [done|lia]|]. destruct (Hin (S q)) as (c1 & Hc1 & _); [lia|].
          exists c1. split; [done|lia]. }
        apply wpg_bind. eapply wpg_char_at; [exact Hc1|]. destruct (Z.eqb_spec c1 62) as [E|]; apply wpg_ret, Hrest; try done; try lia.
      * apply wpg_bind, wpg_scan.
        { intros k Hk. destruct (Hin k) as (c' & Hc' & _); [lia|eauto]. }
        intros j Hj _ Hstop. apply wpg_ret, Hrest; [lia| |done]. intros _. destruct (decide (j = q)) as [->|]; [|lia]. exfalso.
        destruct Hstop as (c' & Hc' & Ht); [lia|]. assert (c' = c) as -> by congruence.
        rewrite Hw, in_symbols, bool_decide_false in Ht; [done|]. rewrite !not_elem_of_cons in *. tauto.
Qed.
End Rules.

(** ** Well-formed commands *)

(** The first arguments of a command and, from there on, null pointers. *)
Definition args (l : list nat) : list (option nat) := map Some l ++ replicate (MAXARGS - length l) None.

Definition node_ok (es i : nat) (x : node) : Prop :=
  match x with
  | EXEC a e => ∃ qs eqs, a = args qs ∧ e = args eqs ∧ length qs = length eqs ∧ (length qs < MAXARGS)%nat ∧ Forall (λ p, p ≤ es)%nat eqs
  | REDIR c _ efile _ _ => (c < i ∧ efile ≤ es)%nat
  | PIPE l r | LIST l r => (l < i ∧ r < i)%nat
  | BACK c => (c < i)%nat
  end.
(** Every node points to earlier nodes and into the line. *)
Definition heap_ok (es : nat) (h : list node) : Prop := ∀ i x, h !! i = Some x → node_ok es i x.

Lemma heap_ok_new es h x : heap_ok es h → node_ok es (length h) x → heap_ok es (h ++ [x]).
Proof.
  intros Hh Hx i y [Hi|[Hi Hy]]%lookup_app_Some; [by apply Hh|].
  apply list_lookup_singleton_Some in Hy as [Ei <-]. by replace i with (length h) by lia.
Qed.

Lemma args_nil : args [] = replicate MAXARGS None.
Proof. reflexivity. Qed.

Lemma args_set l x : (length l < MAXARGS)%nat → <[length l := Some x]> (args l) = args (l ++ [x]).
Proof.
  intros Hl. unfold args. rewrite map_app, length_app. cbn [map length]. rewrite <- app_assoc. cbn [app].
  replace (MAXARGS - length l)%nat with (S (MAXARGS - (length l + 1))) by lia. cbn [replicate].
  pose proof (insert_at (map Some l) None (Some x) (replicate (MAXARGS - (length l + 1)) None)) as E. by rewrite length_map in E.
Qed.
Lemma args_end l : (length l < MAXARGS)%nat → <[length l := None]> (args l) = args l.
Proof.
  intros Hl. unfold args. replace (MAXARGS - length l)%nat with (S (MAXARGS - (length l + 1))) by lia. cbn [replicate].
  pose proof (insert_at (map Some l) None None (replicate (MAXARGS - (length l + 1)) None)) as E. by rewrite length_map in E.
Qed.

(** The parser at work on the line [b]. *)
Record parsing (b : bytes) (es : nat) (s : shst) : Prop := {
  ps_buf : sbuf s = b;
  ps_pos : (spos s ≤ es)%nat;
  ps_heap : heap_ok es (sheap s)
}.

(** What a function of the grammar does: it moves on and allocates nodes. *)
Definition parsed (b : bytes) (es : nat) (s : shst) (p : nat) (s' : shst) : Prop :=
  parsing b es s' ∧ (spos s ≤ spos s')%nat ∧ (length (sheap s) ≤ length (sheap s'))%nat ∧ (p < length (sheap s'))%nat.

Section Grammar.
Context (b : bytes) (es : nat) (Hb : line_ok b es).
Implicit Types (Q : nat → shst → Prop).

Lemma safe_peek toks s (Q : bool → shst → Prop) :
  parsing b es s →
  (∀ j c, (spos s ≤ j)%nat → at_char es (set_spos j s) c → parsing b es (set_spos j s) →
     Q (negb (c =? 0) && in_str toks c) (set_spos j s)) →
  safe (peek es toks) Q s.
Proof.
  intros [<- Hp Hh] HQ. apply safe_wp, wpg_peek; [done|done|]. intros j c Hj Hc. apply HQ; try done. split; try done. apply Hc.
Qed.

Lemma safe_gettoken s c (Q : Z * nat * nat → shst → Prop) :
  parsing b es s → at_char es s c →
  (∀ tok eq j c', (spos s ≤ eq ≤ j)%nat → at_char es (set_spos j s) c' → (c ≠ 0 → (spos s < eq)%nat) → (c = 0 → tok = 0) →
     parsing b es (set_spos j s) → Q (tok, spos s, eq) (set_spos j s)) →
  safe (gettoken es) Q s.
Proof.
  intros [<- Hp Hh] Hc HQ. eapply safe_wp, wpg_gettoken; [done|exact Hc|]. intros tok eq j c' H1 H2 H3 H4.
  apply (HQ _ _ _ c'); try done. split; try done. apply H2.
Qed.

(** A symbol has been peeked, and is taken. *)
Lemma safe_take s c (Q : Z * nat * nat → shst → Prop) :
  parsing b es s → at_char es s c → c ≠ 0 →
  (∀ r j c', (spos s < j)%nat → at_char es (set_spos j s) c' → parsing b es (set_spos j s) → Q r (set_spos j s)) →
  safe (gettoken es) Q s.
Proof.
  intros Hs Hc Hnz HQ. eapply safe_gettoken; [done|exact Hc|]. intros tok eq j c' Hj Hc' Hlt _ Hs'. specialize (Hlt Hnz).
  apply (HQ _ _ c'); [lia|done|done].
Qed.

Lemma safe_new x s Q :
  parsing b es s → node_ok es (length (sheap s)) x →
  (parsed b es s (length (sheap s)) (set_sheap (sheap s ++ [x]) s) → Q (length (sheap s)) (set_sheap (sheap s ++ [x]) s)) → safe (new_node x) Q s.
Proof.
  intros [Hbuf Hp Hh] Hx HQ. apply safe_wp, wpg_new_node, HQ. split; [by split; [..|apply heap_ok_new]|].
  cbn. rewrite length_app. cbn. lia.
Qed.

Lemma parsed_trans s p s1 q s2 : parsed b es s p s1 → parsed b es s1 q s2 → parsed b es s q s2.
Proof.
  intros (H1 & Hp & Hn & Hl1) (H2 & Hp2 & Hn2 & Hl2). split_and!; [done|lia..].
Qed.

Lemma parsed_le s p s1 q : parsed b es s q s1 → (p < length (sheap s))%nat → (p < length (sheap s1))%nat.
Proof. intros (_ & _ & ? & _) Hp. lia. Qed.

(** Moving on only. *)
Lemma parsed_moved s j p s' : parsed b es (set_spos j s) p s' → (spos s ≤ j)%nat → parsed b es s p s'.
Proof. intros (H & Hp & Hn & Hl) Hj. cbn in *. split_and!; try done. lia. Qed.
Lemma parsed_here s j p : parsing b es (set_spos j s) → (spos s ≤ j)%nat → (p < length (sheap s))%nat → parsed b es s p (set_spos j s).
Proof. intros H Hj Hp. split_and!; [done|done|cbn; lia|done]. Qed.

Lemma safe_parseredirs fuel : ∀ p s Q,
  parsing b es s → (p < length (sheap s))%nat → (es - spos s < fuel)%nat →
  (∀ p' s', parsed b es s p' s' → (∃ new, sheap s' = sheap s ++ new) → Q p' s') → safe (parseredirs fuel p es) Q s.
Proof.
  induction fuel as [|fuel IH]; intros p s Q Hs Hp Hf HQ; [lia|]. cbn [parseredirs].
  apply safe_bind, safe_peek; [done|]. intros j c Hj Hc Hs1. destruct (negb (c =? 0) && _) eqn:Et.
  2:{ apply HQ; [by apply parsed_here|]. exists []. by rewrite app_nil_r. }
  apply andb_true_iff in Et as [Hnz%negb_true_iff%Z.eqb_neq _].
  apply safe_bind. eapply safe_gettoken; [exact Hs1|exact Hc|]. intros tok eq j1 c1 Hj1 Hc1 Hlt _ Hs2. specialize (Hlt Hnz).
  apply safe_bind. eapply safe_gettoken; [exact Hs2|exact Hc1|]. intros a eq2 j2 c2 Hj2 Hc2 _ _ Hs3. cbn [set_spos spos] in *.
  destruct (negb (a =? 97)); [apply safe_panic; by left|]. apply safe_bind. destruct Hc2 as (_ & _ & Hle & _). cbn in Hle.
  assert (∀ q sx, parsed b es s q sx → (∃ new, sheap sx = sheap s ++ new) → (j2 ≤ spos sx)%nat → safe (parseredirs fuel q es) Q sx) as Hrest.
  { intros q sx Hq [n1 Hnew] Hpos. pose proof Hq as (Hsx & _ & _ & Hl). apply IH; [done|done|lia|].
    intros p' s' Hp' [n2 Hnew']. apply HQ; [by eapply parsed_trans|]. exists (n1 ++ n2). by rewrite Hnew', Hnew, app_assoc. }
  assert (parsed b es s p (set_spos j2 s)) as Hmv by (apply parsed_here; [done|lia|done]).
  assert (∀ mode fd, safe (redircmd p (spos (set_spos j1 s)) eq2 mode fd) (λ q sx, safe (parseredirs fuel q es) Q sx) (set_spos j2 s)) as Hredir.
  { intros mode fd. apply safe_new; [done|cbn; lia|]. intros H. apply Hrest; [|by eexists|cbn; lia]. eapply parsed_trans; [exact Hmv|exact H]. }
  repeat case_match; [apply Hredir..|]. apply Hrest; [done| |cbn; lia]. exists []. by rewrite app_nil_r.
Qed.

(** The node of a command whose arguments are being read. *)
Lemma wpg_set_arg cmd qs eqs s o1 o2 (Q : unit → shst → Prop) i t :
  sheap s !! cmd = Some (EXEC (args qs) (args eqs)) → (i < MAXARGS)%nat →
  Q tt (set_sheap (<[cmd := EXEC (<[i := o1]> (args qs)) (<[i := o2]> (args eqs))]> (sheap s)) s) →
  wpg t (set_arg cmd i o1 o2) Q s.
Proof.
  intros Hc Hi HQ. apply wpg_bind, wpg_gets. rewrite Hc, bool_decide_true by done. by apply (wpg_modify t).
Qed.

Lemma heap_ok_insert h i x : heap_ok es h → node_ok es i x → heap_ok es (<[i := x]> h).
Proof.
  intros Hh Hx k y [(-> & <- & _)|[_ Hy]]%list_lookup_insert_Some; [done|by apply Hh].
Qed.

(** The end of the arguments. *)
Lemma safe_end_args cmd qs eqs s ret Q :
  parsing b es s → (ret < length (sheap s))%nat → sheap s !! cmd = Some (EXEC (args qs) (args eqs)) → length qs = length eqs → (length qs < MAXARGS)%nat →
  (parsed b es s ret s → Q ret s) → safe (set_arg cmd (length qs) None None ;; mret ret) Q s.
Proof.
  intros Hs Hret Hc Hl Hlt HQ. apply safe_bind, safe_wp. eapply wpg_set_arg; [exact Hc|done|]. rewrite (args_end qs) by done. rewrite Hl, args_end by lia. rewrite list_insert_id by done. destruct s. cbn. apply HQ. split_and!; done.
Qed.

Lemma safe_parseexec_loop fuel cmd : ∀ qs eqs s ret Q,
  parsing b es s → (ret < length (sheap s))%nat → (es - spos s < fuel)%nat →
  sheap s !! cmd = Some (EXEC (args qs) (args eqs)) → length qs = length eqs → (length qs < MAXARGS)%nat → Forall (λ p, p ≤ es)%nat eqs →
  (∀ p' s', parsed b es s p' s' → Q p' s') → safe (parseexec_loop fuel cmd ret (length qs) es) Q s.
Proof.
  induction fuel as [|fuel IH]; intros qs eqs s ret Q Hs Hret Hf Hcmd Hl Hlt Heqs HQ; [lia|]. cbn [parseexec_loop].
  apply safe_bind, safe_peek; [done|]. intros j c Hj Hc Hs1.
  assert (parsed b es s ret (set_spos j s)) as Hmv by (by apply parsed_here).
  assert (∀ j, parsed b es s ret (set_spos j s) → safe (set_arg cmd (length qs) None None ;; mret ret) Q (set_spos j s)) as Hend.
  { intros j' H. eapply safe_end_args; [apply H|done|exact Hcmd|done|done|]. intros _. by apply HQ. }
  destruct (negb (c =? 0) && _) eqn:Et; [by apply Hend|].
  apply safe_bind. eapply safe_gettoken; [exact Hs1|exact Hc|]. intros tok eq j1 c1 Hj1 Hc1 Hlt1 Htok Hs2. cbn [set_spos spos] in *.
  destruct (Z.eqb_spec tok 0) as [->|Htnz]; [apply Hend, parsed_here; [done|lia|done]|].
  assert (c ≠ 0) as Hnz by (intros ->; by apply Htnz, Htok). specialize (Hlt1 Hnz).
  destruct (negb (tok =? 97)); [apply safe_panic; by right; left|]. destruct Hc1 as (_ & _ & Hle & _). cbn in Hle.
  apply safe_bind, safe_wp. eapply wpg_set_arg; [exact Hcmd|done|].
  rewrite (args_set qs) by done. rewrite Hl, args_set, <- Hl by lia. cbn [sheap set_spos].
  case_bool_decide as Hmax; [apply safe_panic; by right; right; left|].
  set (s2 := set_sheap _ _). assert (parsing b es s2) as Hs2'.
  { destruct Hs2 as [Hbuf Hpos Hh]. split; [exact Hbuf|cbn; lia|]. cbn [s2 set_sheap sheap]. apply heap_ok_insert; [exact Hh|].
    exists (qs ++ [j]), (eqs ++ [eq]). rewrite !length_app. cbn. split_and!; [done|done|lia|lia|]. apply Forall_app. split; [done|]. constructor; [lia|constructor]. }
  assert (length (sheap s2) = length (sheap s)) as Hlen by (cbn; by rewrite length_insert).
  apply safe_bind. apply safe_parseredirs; [done|by rewrite Hlen|cbn; lia|]. intros r s3 Hr [new Hnew].
  replace (S (length qs)) with (length (qs ++ [j])) by (rewrite length_app; cbn; lia). pose proof Hr as (Hs3 & Hp3 & Hn3 & Hr3).
  apply (IH _ (eqs ++ [eq])); [done|done|cbn in Hp3; lia| |rewrite !length_app; cbn; lia|rewrite length_app; cbn; lia| |].
  - rewrite Hnew. apply lookup_app_l_Some. cbn. apply list_lookup_insert_eq. by eapply lookup_lt_Some.
  - apply Forall_app. split; [done|]. constructor; [lia|constructor].
  - intros p' s' (H1 & H2 & H3 & H4). apply HQ. split_and!; [done|cbn in Hp3; lia|lia|done].
Qed.

Lemma safe_parseback fuel : ∀ p s Q,
  parsing b es s → (p < length (sheap s))%nat → (es - spos s < fuel)%nat →
  (∀ p' s', parsed b es s p' s' → Q p' s') → safe (parseback fuel p es) Q s.
Proof.
  induction fuel as [|fuel IH]; intros p s Q Hs Hp Hf HQ; [lia|]. cbn [parseback].
  apply safe_bind, safe_peek; [done|]. intros j c Hj Hc Hs1. destruct (negb (c =? 0) && _) eqn:Et; [|by apply HQ, parsed_here].
  apply andb_true_iff in Et as [Hnz%negb_true_iff%Z.eqb_neq _].
  apply safe_bind. eapply safe_take; [exact Hs1|exact Hc|done|]. intros _ j1 c1 Hj1 (_ & _ & Hle & _) Hs2. cbn [set_spos spos] in *.
  apply safe_bind, safe_new; [done|done|]. intros H. eapply parsed_moved in H; [|cbn; exact (Nat.lt_le_incl _ _ Hj1)]. 
  apply IH; [apply H|apply H|cbn; lia|]. intros p' s' Hp'. apply HQ.
  eapply parsed_trans; [apply (parsed_here s j p); done|]. by eapply parsed_trans; [exact H|].
Qed.

(** The functions of the grammar, with the fuel they need. *)
Definition safe_fun (k : nat) (pre : shst → Prop) (f : nat → nat → M shst nat) (fuel : nat) : Prop :=
  ∀ s Q, parsing b es s → pre s → (4 * (es - spos s) + k ≤ fuel)%nat → (∀ p s', parsed b es s p s' → Q p s') → safe (f fuel es) Q s.

(** After a symbol: a subcommand, and the node that joins the two. *)
Lemma safe_join f mk fuel k s c p Q :
  parsing b es s → at_char es s c → c ≠ 0 → (p < length (sheap s))%nat →
  safe_fun k (λ _, True) f fuel → (k ≤ 4)%nat → (4 * (es - spos s) + k ≤ S fuel)%nat →
  (∀ r s, parsing b es s → (p < length (sheap s))%nat → (r < length (sheap s))%nat → node_ok es (length (sheap s)) (mk p r)) →
  (∀ p' s', parsed b es s p' s' → Q p' s') →
  safe (gettoken es ;; r ← f fuel es; new_node (mk p r)) Q s.
Proof.
  intros Hs Hc Hnz Hp Hf Hk Hfu Hmk HQ. pose proof Hc as (_ & _ & Hle & He). assert (spos s < es)%nat as Hlt by (destruct (decide (spos s = es)); [tauto|lia]).
  apply safe_bind. eapply safe_take; [done|exact Hc|done|]. intros _ j c' Hj Hc' Hs1.
  apply safe_bind, Hf; [done|done|cbn; lia|]. intros r s2 Hr. pose proof Hr as (Hs2 & _ & Hn2 & Hr2). cbn [sheap set_spos] in Hn2.
  apply safe_new; [done|apply Hmk; [done|lia|done]|]. intros H. apply HQ.
  eapply parsed_trans; [eapply parsed_moved; [exact Hr|lia]|exact H].
Qed.

Lemma safe_grammar fuel :
  safe_fun 4 (λ _, True) parseline fuel ∧ safe_fun 3 (λ _, True) parsepipe fuel ∧
  safe_fun 2 (λ _, True) parseexec fuel ∧ safe_fun 1 (λ s, at_char es s 40) parseblock fuel.
Proof.
  induction fuel as [|fuel (IHl & IHp & IHe & IHb)]; [split_and!; intros s Q _ _ H; lia|].
  split_and!; intros s Q Hs Hpre Hfu HQ; cbn [parseline parsepipe parseexec parseblock].
  - apply safe_bind, IHp; [done|done|lia|]. intros p s1 H1. pose proof H1 as (Hs1 & Hp1 & _ & Hl1).
    apply safe_bind, safe_parseback; [done|done|lia|]. intros p2 s2 H2. pose proof H2 as (Hs2 & Hp2 & _ & Hl2).
    apply safe_bind, safe_peek; [done|]. intros j c Hj Hc Hs3.
    assert (parsed b es s p2 (set_spos j s2)) as H3.
    { eapply parsed_trans; [exact H1|]. eapply parsed_trans; [exact H2|by apply parsed_here]. }
    destruct (negb (c =? 0) && _) eqn:Et; [|by apply HQ]. apply andb_true_iff in Et as [Hnz%negb_true_iff%Z.eqb_neq _].
    eapply (safe_join parseline LIST fuel 4); [exact Hs3|exact Hc|done|done|exact IHl|lia|cbn; lia|done|].
    intros p' s' H4. apply HQ. by eapply parsed_trans.
  - apply safe_bind, IHe; [done|done|lia|]. intros p s1 H1. pose proof H1 as (Hs1 & Hp1 & _ & Hl1).
    apply safe_bind, safe_peek; [done|]. intros j c Hj Hc Hs3.
    assert (parsed b es s p (set_spos j s1)) as H3 by (eapply parsed_trans; [exact H1|by apply parsed_here]).
    destruct (negb (c =? 0) && _) eqn:Et; [|by apply HQ]. apply andb_true_iff in Et as [Hnz%negb_true_iff%Z.eqb_neq _].
    eapply (safe_join parsepipe PIPE fuel 3); [exact Hs3|exact Hc|done|done|exact IHp|lia|cbn; lia|done|].
    intros p' s' H4. apply HQ. by eapply parsed_trans.
  - apply safe_bind, safe_peek; [done|]. intros j c Hj Hc Hs1. destruct (negb (c =? 0) && _) eqn:Et.
    + apply andb_true_iff in Et as [_ Ec]. assert (c = 40) as ->.
      { change [40; 0] with ([40] ++ [0]) in Ec. rewrite in_str_spec in Ec by (intros [?|[]%elem_of_nil]%elem_of_cons; done).
        apply bool_decide_eq_true in Ec. by apply list_elem_of_singleton in Ec. }
      apply IHb; [done|exact Hc|cbn; lia|]. intros p s' H. apply HQ. by eapply parsed_moved.
    + apply safe_bind, safe_new; [done| |].
      { exists [], []. rewrite args_nil. split_and!; [done|done|done|cbn; unfold MAXARGS; lia|constructor]. }
      intros H1. pose proof H1 as (Hs2 & _ & _ & Hl2). set (s2 := set_sheap _ _) in *.
      assert (sheap s2 !! length (sheap s) = Some (EXEC (args []) (args []))) as Hcmd by (cbn; by rewrite lookup_app_r, Nat.sub_diag by done).
      apply safe_bind, safe_parseredirs; [done|done|cbn; lia|]. intros r s3 H3 [new Hnew]. pose proof H3 as (Hs3 & Hp3 & Hn3 & Hl3).
      assert (parsed b es s r s3) as H4 by (eapply parsed_moved; [eapply parsed_trans; [exact H1|exact H3]|done]).
      apply (safe_parseexec_loop _ _ [] []); [done|done|destruct Hs3; lia| |done|cbn; unfold MAXARGS; lia|constructor|].
      { rewrite Hnew. by apply lookup_app_l_Some. }
      intros p s' H5. apply HQ. by eapply parsed_trans.
  - destruct Hpre as (Hc & Hw & Hle & He). assert (spos s < es)%nat as Hlt by (destruct (decide (spos s = es)) as [E|]; [by apply He in E|lia]).
    pose proof Hs as [Hbuf _ _].
    apply safe_bind. eapply safe_wp, wpg_peek_here; [by rewrite Hbuf|by split_and!|]. change (negb (40 =? 0) && in_str [40; 0] 40) with true. cbn [negb].
    apply safe_bind. eapply safe_take; [done|by split_and!|done|]. intros _ j c Hj Hc' Hs1.
    apply safe_bind, IHl; [done|done|cbn; lia|]. intros p s2 H2. pose proof H2 as (Hs2 & Hp2 & _ & Hl2).
    apply safe_bind, safe_peek; [done|]. intros j2 c2 Hj2 Hc2 Hs3. destruct (negb (c2 =? 0) && _) eqn:Et; cbn [negb].
    2:{ apply safe_panic. by right; right; right; left. }
    apply andb_true_iff in Et as [Hnz%negb_true_iff%Z.eqb_neq _].
    apply safe_bind. eapply safe_take; [exact Hs3|exact Hc2|done|]. intros _ j4 c4 Hj4 Hc4 Hs4. cbn [set_spos spos] in Hj4.
    apply safe_parseredirs; [done|done|cbn; lia|]. intros p' s' H5 _. apply HQ.
    eapply parsed_trans; [eapply parsed_moved; [exact H2|lia]|]. eapply parsed_moved; [exact H5|cbn; lia].
Qed.

(** ** Cutting the words *)

Lemma wpg_nul_args t eqs : ∀ (qs : list nat) s n (Q : unit → shst → Prop),
  length qs = length eqs → Forall (λ p, p < length (sbuf s))%nat eqs →
  (∀ bf, length bf = length (sbuf s) → Q tt (set_sbuf bf s)) →
  wpg t (nul_args (map Some qs ++ replicate (S n) None) (map Some eqs ++ replicate (S n) None)) Q s.
Proof.
  induction eqs as [|e eqs IH]; intros [|q qs] s n Q Hl He HQ; try (cbn in Hl; lia); cbn [map app].
  - cbn [replicate nul_args map app]. apply (wpg_ret t). specialize (HQ (sbuf s) eq_refl). by destruct s.
  - apply Forall_cons in He as [He Hes]. apply wpg_bind, wpg_put_char; [done|]. apply IH; [by injection Hl|cbn; by rewrite length_insert|].
    intros bf Hbf. cbn in Hbf. rewrite length_insert in Hbf. by apply (HQ bf).
Qed.

Lemma wpg_nulterminate t fuel : ∀ p s (Q : unit → shst → Prop),
  heap_ok es (sheap s) → (es < length (sbuf s))%nat → (p < length (sheap s))%nat → (p < fuel)%nat →
  (∀ bf, length bf = length (sbuf s) → Q tt (set_sbuf bf s)) → wpg t (nulterminate fuel p) Q s.
Proof.
  induction fuel as [|fuel IH]; intros p s Q Hh Hes Hp Hf HQ; [lia|]. cbn [nulterminate].
  destruct (lookup_lt_is_Some_2 _ _ Hp) as [x Hx]. apply wpg_bind. eapply wpg_deref; [exact Hx|]. pose proof (Hh p x Hx) as Hok.
  assert (∀ l r, (l < p ∧ r < p)%nat → wpg t (nulterminate fuel l ;; nulterminate fuel r) Q s) as Htwo.
  { intros l r Hlr. apply wpg_bind, IH; [done|done|lia|lia|]. intros bf Hbf. apply IH; [done|cbn; lia|cbn; lia|lia|].
    intros bf' Hbf'. apply (HQ bf'). cbn in Hbf'. by rewrite Hbf', Hbf. }
  destruct x as [a e|c f ef m fd|l r|l r|c]; cbn in Hok.
  - destruct Hok as (qs & eqs & -> & -> & Hl & Hlt & He). unfold args. rewrite <- Hl.
    replace (MAXARGS - length qs)%nat with (S (MAXARGS - length qs - 1)) by lia. apply wpg_nul_args; [done| |done].
    eapply Forall_impl; [exact He|]. cbn. lia.
  - apply wpg_bind, IH; [done|done|lia|lia|]. intros bf Hbf. apply wpg_put_char; [cbn; lia|]. apply (HQ (<[ef := 0]> bf)). by rewrite length_insert.
  - by apply Htwo.
  - by apply Htwo.
  - apply IH; [done|done|lia|lia|done].
Qed.
End Grammar.

Lemma line_ok_nul l x : 0 ∉ l → line_ok (l ++ 0 :: x) (length l).
Proof.
  intros Hl. split; [by rewrite lookup_app_r, Nat.sub_diag by done|]. intros i Hi.
  destruct (lookup_lt_is_Some_2 l i Hi) as [c Hc]. exists c. rewrite lookup_app_l by done. split; [done|].
  intros ->. apply Hl. by eapply list_elem_of_lookup_2.
Qed.

(** C33. The parser decides every line: on any bytes up to the NUL it stops
    within its fuel and without an access out of the line or of a command, and
    either gives up with one of four messages or returns a command all of
    whose nodes point to nodes allocated before them, having cut the words in
    place. *)
Theorem parsecmd_total line junk :
  0 ∉ line →
  match parsecmd 0 (mkSh (line ++ 0 :: junk) 0 []) with
  | Ok (cmd, s') => (cmd < length (sheap s'))%nat ∧ heap_ok (length line) (sheap s') ∧
                    length (sbuf s') = (length line + S (length junk))%nat
  | Panic e => e ∈ messages
  | _ => False
  end.
Proof.
  intros Hline. pose proof (line_ok_nul line junk Hline) as Hb. set (b := line ++ 0 :: junk) in *. set (es := length line) in *.
  assert (length b = es + S (length junk))%nat as Hlb by (unfold b; by rewrite length_app).
  enough (safe (parsecmd 0) (λ cmd s', (cmd < length (sheap s'))%nat ∧ heap_ok es (sheap s') ∧ length (sbuf s') = (es + S (length junk))%nat) (mkSh b 0 [])) as H.
  { unfold safe in H. by destruct (parsecmd 0 (mkSh b 0 [])) as [[cmd s']|e| |]. }
  apply safe_bind, safe_wp. eapply wpg_deref; [by apply strlen_nul|]. cbv zeta. rewrite Nat2Z.id. fold es. cbn [Nat.add].
  apply safe_bind, safe_wp, (wpg_modify true). set (s0 := set_spos 0 _).
  assert (parsing b es s0) as Hs0 by (split; [done|cbn; lia|intros i x Hx; done]).
  apply safe_bind. apply (proj1 (safe_grammar b es Hb _)); [done|done|cbn; lia|]. intros p s1 (Hs1 & _ & _ & Hp1).
  apply safe_bind, safe_peek with (b := b); [done|done|]. intros j c Hj Hc Hs2. apply safe_bind, safe_wp, wpg_gets. cbn [spos set_spos].
  case_bool_decide; cbn [negb]; [|apply safe_panic; by right; left].
  apply safe_bind, safe_wp. destruct Hs2 as [Hbuf _ Hh]. apply (wpg_nulterminate es true); [done|rewrite Hbuf; lia|done|lia|].
  intros bf Hbf. rewrite Hbuf in Hbf. split; [exact Hp1|split; [exact Hh|]]. cbn. by rewrite Hbf.
Qed.

Lemma parsecmd_total_witness :
  match parsecmd 0 (mkSh [108; 115; 32; 124; 40; 0; 9] 0 []) with
  | Ok (cmd, s') => (cmd < length (sheap s'))%nat ∧ heap_ok 5 (sheap s') ∧ length (sbuf s') = 7%nat
  | Panic e => e ∈ messages
  | _ => False
  end.
Proof. apply (parsecmd_total [108; 115; 32; 124; 40] [9]). apply (bool_decide_unpack _). vm_compute. exact I. Defined.
