(* ===== verification/ShellTree.v ===== *)
(** * Round trip through the shell's parser

    Command lines are printed from a syntax tree, token by token, and the
    commands that the parser builds are compared with the tree. *)

From S2P Require Export ShellProps.
Local Open Scope Z_scope.

(** ** Syntax *)

Inductive rop := RIn | ROut | RApp.
Record redir := { rd_op : rop; rd_file : bytes }.

Inductive line :=
  | LEnd (p : pipeline) (bg : nat)
  | LSeq (p : pipeline) (bg : nat) (l : line)
with pipeline :=
  | PEnd (e : exe)
  | PSeq (e : exe) (p : pipeline)
with exe :=
  | Simple (rs : list redir) (ws : list (bytes * list redir))
  | Block (l : line) (rs : list redir).

Scheme line_mut := Induction for line Sort Prop
  with pipeline_mut := Induction for pipeline Sort Prop
  with exe_mut := Induction for exe Sort Prop.
Combined Scheme syntax_mut from line_mut, pipeline_mut, exe_mut.

(** The text of a tree: every token is followed by a space. *)
Definition op_text (o : rop) : bytes := match o with RIn => [60] | ROut => [62] | RApp => [62; 62] end.
Definition redir_text (r : redir) : bytes := op_text (rd_op r) ++ 32 :: rd_file r ++ [32].
Definition redirs_text (rs : list redir) : bytes := concat (map redir_text rs).
Definition args_text (ws : list (bytes * list redir)) : bytes := concat (map (λ w, w.1 ++ 32 :: redirs_text w.2) ws).
Definition back_text (n : nat) : bytes := concat (replicate n [38; 32]).
Fixpoint line_text (l : line) : bytes :=
  match l with
  | LEnd p bg => pipeline_text p ++ back_text bg
  | LSeq p bg l => pipeline_text p ++ back_text bg ++ 59 :: 32 :: line_text l
  end
with pipeline_text (p : pipeline) : bytes :=
  match p with
  | PEnd e => exe_text e
  | PSeq e p => exe_text e ++ 124 :: 32 :: pipeline_text p
  end
with exe_text (e : exe) : bytes :=
  match e with
  | Simple rs ws => redirs_text rs ++ args_text ws
  | Block l rs => 40 :: 32 :: line_text l ++ 41 :: 32 :: redirs_text rs
  end.

(** Words, and at most nine of them in a command. *)
Definition word_char (c : Z) : bool := negb (c =? 0) && (negb (in_str whitespace c) && negb (in_str symbols c)).
Definition word_ok (w : bytes) : Prop := w ≠ [] ∧ Forall (λ c, word_char c = true) w.
Definition redir_ok (r : redir) : Prop := word_ok (rd_file r).
Definition arg_ok (w : bytes * list redir) : Prop := word_ok w.1 ∧ Forall redir_ok w.2.
Fixpoint line_wf (l : line) : Prop :=
  match l with LEnd p _ => pipeline_wf p | LSeq p _ l => pipeline_wf p ∧ line_wf l end
with pipeline_wf (p : pipeline) : Prop :=
  match p with PEnd e => exe_wf e | PSeq e p => exe_wf e ∧ pipeline_wf p end
with exe_wf (e : exe) : Prop :=
  match e with
  | Simple rs ws => Forall redir_ok rs ∧ Forall arg_ok ws ∧ (length ws < MAXARGS)%nat
  | Block l rs => line_wf l ∧ Forall redir_ok rs
  end.

(** ** Commands *)

Inductive tree :=
  | TExec (argv : list bytes)
  | TRedir (t : tree) (file : bytes) (mode fd : Z)
  | TPipe (l r : tree)
  | TList (l r : tree)
  | TBack (t : tree).

(** Redirections are applied from the inside out. *)
Definition mode_of (o : rop) : Z := match o with RIn => O_RDONLY | _ => Z.lor O_WRONLY O_CREATE end.
Definition fd_of (o : rop) : Z := match o with RIn => 0 | _ => 1 end.
Definition wrap (rs : list redir) (t : tree) : tree :=
  fold_left (λ t r, TRedir t (rd_file r) (mode_of (rd_op r)) (fd_of (rd_op r))) rs t.
Definition wrap_back (n : nat) (t : tree) : tree := Nat.iter n TBack t.
Fixpoint line_tree (l : line) : tree :=
  match l with
  | LEnd p bg => wrap_back bg (pipeline_tree p)
  | LSeq p bg l => TList (wrap_back bg (pipeline_tree p)) (line_tree l)
  end
with pipeline_tree (p : pipeline) : tree :=
  match p with PEnd e => exe_tree e | PSeq e p => TPipe (exe_tree e) (pipeline_tree p) end
with exe_tree (e : exe) : tree :=
  match e with
  | Simple rs ws => wrap (rs ++ concat (map snd ws)) (TExec (map fst ws))
  | Block l rs => wrap rs (line_tree l)
  end.

(** The command at [p] in the heap; [str w q e]: the word [w] is between the
    positions [q] and [e]. *)
Fixpoint rep (str : bytes → nat → nat → Prop) (h : list node) (p : nat) (t : tree) : Prop :=
  match t with
  | TExec ws => ∃ qs eqs, h !! p = Some (EXEC (args qs) (args eqs)) ∧ (length ws < MAXARGS)%nat ∧ Forall3 str ws qs eqs
  | TRedir t f m fd => ∃ c q e, h !! p = Some (REDIR c q e m fd) ∧ (c < p)%nat ∧ rep str h c t ∧ str f q e
  | TPipe t u => ∃ l r, h !! p = Some (PIPE l r) ∧ (l < p ∧ r < p)%nat ∧ rep str h l t ∧ rep str h r u
  | TList t u => ∃ l r, h !! p = Some (LIST l r) ∧ (l < p ∧ r < p)%nat ∧ rep str h l t ∧ rep str h r u
  | TBack t => ∃ c, h !! p = Some (BACK c) ∧ (c < p)%nat ∧ rep str h c t
  end.

(** Growing heaps. *)
Definition ext (h h' : list node) : Prop := ∀ i x, h !! i = Some x → h' !! i = Some x.

Lemma ext_refl h : ext h h.
Proof. by intros i x. Qed.
Lemma ext_trans h1 h2 h3 : ext h1 h2 → ext h2 h3 → ext h1 h3.
Proof. intros H H' i x Hi. by apply H', H. Qed.
Lemma ext_app h x : ext h (h ++ x).
Proof. intros i y. apply lookup_app_l_Some. Qed.

Lemma rep_mono (str str' : bytes → nat → nat → Prop) h h' t : ∀ p,
  (∀ w q e, str w q e → str' w q e) → ext h h' → rep str h p t → rep str' h' p t.
Proof.
  induction t as [ws|t IH f m fd|t IHt u IHu|t IHt u IHu|t IH]; intros p Hs He; cbn.
  - intros (qs & eqs & Hp & Hl & H). exists qs, eqs. split_and!; [by apply He|done|]. eapply Forall3_impl; [exact H|done].
  - intros (c & q & e & Hp & Hl & Hc & Hf). exists c, q, e. split_and!; [by apply He|done|by apply IH|by apply Hs].
  - intros (l & r & Hp & Hl & H1 & H2). exists l, r. split_and!; [by apply He|lia..|by apply IHt|by apply IHu].
  - intros (l & r & Hp & Hl & H1 & H2). exists l, r. split_and!; [by apply He|lia..|by apply IHt|by apply IHu].
  - intros (c & Hp & Hl & Hc). exists c. split_and!; [by apply He|done|by apply IH].
Qed.

Lemma rep_lt str h p t : rep str h p t → (p < length h)%nat.
Proof. destruct t; cbn; intros H; repeat (destruct H as [? H]); by eapply lookup_lt_Some. Qed.

(** ** Reading tokens *)

Definition solid (rest : bytes) : Prop :=
  match rest with [] => True | c :: _ => c ≠ 0 ∧ in_str whitespace c = false end.

(** The position of the parser: [rest] is what is left of the line. *)
Definition at_rest (b junk : bytes) (es : nat) (s : shst) (rest : bytes) : Prop :=
  sbuf s = b ∧ drop (spos s) b = rest ++ 0 :: junk ∧ es = (spos s + length rest)%nat ∧ solid rest.

(** The word [w] is between [q] and [e], and a space follows. *)
Definition span (b : bytes) (w : bytes) (q e : nat) : Prop :=
  word_ok w ∧ e = (q + length w)%nat ∧ ∃ j, drop q b = w ++ 32 :: j.

Lemma word_char_spec c : word_char c = true → c ≠ 0 ∧ in_str whitespace c = false ∧ in_str symbols c = false.
Proof. unfold word_char. rewrite !andb_true_iff, !negb_true_iff, Z.eqb_neq. tauto. Qed.

Section Tokens.
Context (t : bool) (b junk : bytes) (es : nat).
Abbreviation at_rest := (at_rest b junk es).

Lemma wpg_scan_exact test u : ∀ n i s tl (Q : nat → shst → Prop),
  drop i (sbuf s) = u ++ tl → Forall (λ c, test c = true) u → (length u ≤ n)%nat →
  (n = length u ∨ ∃ c r, tl = c :: r ∧ test c = false) → Q (i + length u)%nat s → wpg t (scan test n i) Q s.
Proof.
  assert (∀ i s c (l : bytes), drop i (sbuf s) = c :: l → sbuf s !! i = Some c) as Hat.
  { intros i s c l E. rewrite <- (Nat.add_0_r i), <- lookup_drop, E. done. }
  induction u as [|c u IH]; intros n i s tl Q Ed Hu Hn Hstop HQ; cbn [length app] in *.
  - rewrite Nat.add_0_r in HQ. destruct n as [|n]; [by apply wpg_ret|]. destruct Hstop as [|(c & r & -> & Hc)]; [done|].
    cbn [scan]. apply wpg_bind. eapply wpg_char_at; [by eapply Hat|]. rewrite Hc. by apply wpg_ret.
  - destruct n as [|n]; [lia|]. apply Forall_cons in Hu as [Hc Hu]. cbn [scan]. apply wpg_bind.
    eapply wpg_char_at; [by eapply Hat|]. rewrite Hc. apply (IH n (S i) s tl).
    + replace (S i) with (i + 1)%nat by lia. by rewrite <- drop_drop, Ed.
    + done.
    + lia.
    + destruct Hstop as [|?]; [left; lia|by right].
    + by replace (S i + length u)%nat with (i + S (length u))%nat by lia.
Qed.

Lemma at_rest_char s rest : at_rest s rest → sbuf s !! spos s = Some (default 0 (head rest)).
Proof.
  intros (-> & Hd & _ & _). rewrite <- (Nat.add_0_r (spos s)), <- lookup_drop, Hd. by destruct rest.
Qed.

(** White space up to [rest] is skipped. *)
Lemma wpg_skip_to s i u rest (Q : nat → shst → Prop) :
  sbuf s = b → drop i b = u ++ rest ++ 0 :: junk → es = (i + length (u ++ rest))%nat →
  Forall (λ c, in_str whitespace c = true) u → solid rest → Q (i + length u)%nat s → wpg t (skip_white i es) Q s.
Proof.
  intros Hb Hd He Hu Hr HQ. rewrite length_app in He. apply (wpg_scan_exact _ u _ _ _ (rest ++ 0 :: junk)); [by rewrite Hb|done|lia| |done].
  right. destruct rest as [|c rest]; [by exists 0, junk|]. exists c, (rest ++ 0 :: junk). by destruct Hr.
Qed.

Lemma wpg_peek_rest s rest toks (Q : bool → shst → Prop) :
  at_rest s rest → Q (match rest with [] => false | c :: _ => in_str toks c end) s → wpg t (peek es toks) Q s.
Proof.
  intros Hs HQ. pose proof (at_rest_char _ _ Hs) as Hc. pose proof Hs as (Hb & Hd & He & Hr).
  apply wpg_bind, wpg_gets, wpg_bind. apply (wpg_skip_to s _ [] rest); try done. cbn [length]. rewrite Nat.add_0_r.
  apply wpg_bind, (wpg_modify t), wpg_bind. eapply wpg_char_at; [exact Hc|]. apply wpg_ret.
  replace (set_spos (spos s) s) with s by (by destruct s). destruct rest as [|c rest]; [exact HQ|]. cbn.
  destruct Hr as [Hnz _]. by rewrite (proj2 (Z.eqb_neq c 0)).
Qed.

Lemma at_rest_move s u c rest :
  sbuf s = b → drop (spos s) b = u ++ c :: rest ++ 0 :: junk → es = (spos s + length (u ++ c :: rest))%nat → solid rest →
  at_rest (set_spos (spos s + length u + 1) s) rest.
Proof.
  intros Hb Hd He Hr. rewrite length_app in He. cbn in He. split; [exact Hb|split_and!; [|cbn; lia|done]]. cbn [spos set_spos].
  rewrite <- Nat.add_assoc, <- drop_drop, Hd.
  replace (u ++ c :: rest ++ 0 :: junk) with ((u ++ [c]) ++ rest ++ 0 :: junk) by (by rewrite <- app_assoc).
  replace (length u + 1)%nat with (length (u ++ [c])) by (rewrite length_app; cbn; lia). apply drop_app_length.
Qed.

(** A token [u] and the space after it. *)
Lemma wpg_gettoken_rest s u rest tok (Q : Z * nat * nat → shst → Prop) :
  at_rest s (u ++ 32 :: rest) → u ≠ [] → solid rest →
  (∀ Q' : Z * nat → shst → Prop, Q' (tok, spos s + length u)%nat s →
    wpg t (let c := default 0 (head u) in
           if c =? 0 then mret (c, spos s)
           else if bool_decide (c ∈ [124; 40; 41; 59; 38; 60]) then mret (c, S (spos s))
           else if c =? 62 then c1 ← char_at (S (spos s)); if c1 =? 62 then mret (43, S (S (spos s))) else mret (c, S (spos s))
           else s0 ← scan (λ c, negb (in_str whitespace c) && negb (in_str symbols c)) (es - spos s) (spos s); mret (97, s0)) Q' s) →
  (∀ s', at_rest s' rest → sheap s' = sheap s → Q (tok, spos s, spos s + length u)%nat s') →
  wpg t (gettoken es) Q s.
Proof.
  intros Hs Hu Hr Htok HQ. pose proof (at_rest_char _ _ Hs) as Hc. pose proof Hs as (Hb & Hd & He & Hsol).
  apply wpg_bind, wpg_gets, wpg_bind. apply (wpg_skip_to s _ [] (u ++ 32 :: rest)); try done. cbn [length]. rewrite Nat.add_0_r.
  cbv zeta. apply wpg_bind. eapply wpg_char_at; [exact Hc|]. replace (head (u ++ 32 :: rest)) with (head u) by (by destruct u).
  apply wpg_bind, Htok. rewrite <- app_assoc in Hd. cbn [app] in Hd. pose proof He as He'. rewrite length_app in He'. cbn in He'.
  apply wpg_bind. apply (wpg_skip_to s _ [32] rest); [done| |cbn; lia|by repeat constructor|done|].
  { by rewrite <- drop_drop, Hd, drop_app_length. }
  apply wpg_bind, (wpg_modify t), wpg_ret. apply HQ; [|done]. by eapply at_rest_move.
Qed.

Lemma wpg_gettoken_symbol s c rest (Q : Z * nat * nat → shst → Prop) :
  at_rest s (c :: 32 :: rest) → c ∈ [124; 40; 41; 59; 38; 60; 62] → solid rest →
  (∀ r s', at_rest s' rest → sheap s' = sheap s → r.1.1 = c → Q r s') → wpg t (gettoken es) Q s.
Proof.
  intros Hs Hc Hr HQ. pose proof Hs as (Hb & Hd & He & Hsol). destruct Hsol as [Hnz _].
  apply (wpg_gettoken_rest s [c] rest c); [exact Hs|done|exact Hr| |intros s' H1 H2; by apply HQ]. intros Q' HQ'. cbv zeta. cbn [head default from_option id].
  rewrite (proj2 (Z.eqb_neq c 0)) by done. cbn [length] in HQ'. rewrite Nat.add_1_r in HQ'.
  case_bool_decide as Hin; [by apply wpg_ret|]. assert (c = 62) as ->.
  { rewrite !not_elem_of_cons in Hin. rewrite !elem_of_cons in Hc. destruct Hin as (?&?&?&?&?&?&_). by destruct Hc as [?|[?|[?|[?|[?|[?|[?|[]%elem_of_nil]]]]]]]. }
  cbn. apply wpg_bind. eapply wpg_char_at.
  { rewrite Hb. replace (S (spos s)) with (spos s + 1)%nat by lia. rewrite <- lookup_drop, Hd. reflexivity. }
  cbn. by apply (wpg_ret t).
Qed.

Lemma wpg_gettoken_append s rest (Q : Z * nat * nat → shst → Prop) :
  at_rest s (62 :: 62 :: 32 :: rest) → solid rest →
  (∀ r s', at_rest s' rest → sheap s' = sheap s → r.1.1 = 43 → Q r s') → wpg t (gettoken es) Q s.
Proof.
  intros Hs Hr HQ. pose proof Hs as (Hb & Hd & He & Hsol).
  apply (wpg_gettoken_rest s [62; 62] rest 43); [exact Hs|done|exact Hr| |intros s' H1 H2; by apply HQ]. intros Q' HQ'. cbn.
  apply wpg_bind. eapply wpg_char_at.
  { rewrite Hb. replace (S (spos s)) with (spos s + 1)%nat by lia. rewrite <- lookup_drop, Hd. reflexivity. }
  cbn. apply (wpg_ret t). cbn [length] in HQ'. by replace (S (S (spos s))) with (spos s + 2)%nat by lia.
Qed.

Lemma wpg_gettoken_word s w rest (Q : Z * nat * nat → shst → Prop) :
  at_rest s (w ++ 32 :: rest) → word_ok w → solid rest →
  (∀ q e s', span b w q e → at_rest s' rest → sheap s' = sheap s → Q (97, q, e) s') → wpg t (gettoken es) Q s.
Proof.
  intros Hs Hw Hr HQ. pose proof Hs as (Hb & Hd & He & Hsol). rewrite <- app_assoc in Hd. cbn [app] in Hd.
  pose proof Hw as [Hne Hall].
  apply (wpg_gettoken_rest s w rest 97); [exact Hs|done|exact Hr| |].
  - intros Q' HQ'. destruct w as [|c w]; [done|]. cbv zeta. cbn [head default from_option id].
    pose proof Hall as Hall'. apply Forall_cons in Hall' as [Hc _]. apply word_char_spec in Hc as (Hnz & Hws & Hsy).
    rewrite in_symbols in Hsy. apply bool_decide_eq_false in Hsy. rewrite !not_elem_of_cons in Hsy.
    rewrite (proj2 (Z.eqb_neq c 0)), (proj2 (Z.eqb_neq c 62)) by tauto.
    rewrite bool_decide_false by (rewrite !not_elem_of_cons; split_and!; try tauto; apply not_elem_of_nil).
    apply wpg_bind. apply (wpg_scan_exact _ (c :: w) _ _ _ (32 :: rest ++ 0 :: junk)); [by rewrite Hb| | |right; by eexists _, _|by apply wpg_ret].
    + eapply Forall_impl; [exact Hall|]. cbv beta. intros d Hd'. unfold word_char in Hd'. by apply andb_true_iff in Hd' as [_ ?].
    + rewrite length_app in He. lia.
  - intros s' Hs' Hh. apply HQ; [|done|done]. split; [done|split; [done|eauto]].
Qed.
End Tokens.

(** ** Redirections and arguments *)

Definition follow (l : list Z) (rest : bytes) : Prop := match rest with [] => True | c :: _ => c ∈ l end.

Lemma follow_sub l l' rest : follow l rest → (∀ c, c ∈ l → c ∈ l') → follow l' rest.
Proof. destruct rest; cbn; auto. Qed.

(** No token of the set comes next. *)
Lemma follow_not l toks rest :
  follow l rest → 0 ∉ toks → (∀ c, c ∈ l → c ∉ toks) → match rest with [] => false | c :: _ => in_str (toks ++ [0]) c end = false.
Proof. intros Hf H0 Hd. destruct rest as [|c rest]; [done|]. rewrite in_str_spec by done. apply bool_decide_false. by apply Hd. Qed.

(** The set of a literal list of characters. *)
Ltac in_list := apply (bool_decide_unpack _); vm_compute; exact I.
Lemma disjoint_by (l l' : list Z) : forallb (λ c, bool_decide (c ∉ l')) l = true → ∀ c, c ∈ l → c ∉ l'.
Proof. intros H c Hc. rewrite forallb_forall in H. specialize (H c). rewrite <- list_elem_of_In in H. by apply bool_decide_eq_true in H. Qed.
Lemma subset_by (l l' : list Z) : forallb (λ c, bool_decide (c ∈ l')) l = true → ∀ c, c ∈ l → c ∈ l'.
Proof. intros H c Hc. rewrite forallb_forall in H. specialize (H c). rewrite <- list_elem_of_In in H. by apply bool_decide_eq_true in H. Qed.

Lemma follow_not_by l toks rest :
  follow l rest → forallb (λ c, bool_decide (c ∉ toks)) l = true → bool_decide (0 ∉ toks) = true →
  match rest with [] => false | c :: _ => in_str (toks ++ [0]) c end = false.
Proof. intros Hf Hd H0. eapply follow_not; [exact Hf|by apply bool_decide_eq_true in H0|by apply disjoint_by]. Qed.

Lemma solid_redirs rs rest : solid rest → solid (redirs_text rs ++ rest).
Proof. destruct rs as [|[[| |] f] rs]; cbn; intros; [done|done..]. Qed.
Lemma solid_word w rest : word_ok w → solid (w ++ rest).
Proof.
  intros [Hne Hw]. destruct w as [|c w]; [done|]. apply Forall_cons in Hw as [Hc _]. apply word_char_spec in Hc. cbn. tauto.
Qed.
Lemma solid_args ws rest : Forall arg_ok ws → solid rest → solid (args_text ws ++ rest).
Proof.
  intros Hws Hr. destruct ws as [|[w rs] ws]; [done|]. apply Forall_cons in Hws as [[Hw _] _]. unfold args_text. cbn [map concat fst].
  rewrite <- !app_assoc. by apply solid_word.
Qed.

Lemma word_not toks w r :
  word_ok w → bool_decide (0 ∉ toks) = true → forallb (λ c, bool_decide (c ∈ [60; 124; 62; 38; 59; 40; 41])) toks = true →
  match w ++ r with [] => false | c :: _ => in_str (toks ++ [0]) c end = false.
Proof.
  intros [Hne Hw] H0 Ht. destruct w as [|c w]; [done|]. apply Forall_cons in Hw as [Hc _]. apply word_char_spec in Hc as (_ & _ & Hc). cbn [app].
  rewrite in_symbols in Hc. apply bool_decide_eq_false in Hc. rewrite in_str_spec by (by apply bool_decide_eq_true in H0).
  apply bool_decide_false. intros Hin. apply Hc. by apply (subset_by toks).
Qed.

(** A command wrapped in redirections, from the inside out. *)
Fixpoint chain (str : bytes → nat → nat → Prop) (h : list node) (rs : list redir) (p p' : nat) : Prop :=
  match rs with
  | [] => p' = p
  | r :: rs => ∃ p1 q e, h !! p1 = Some (REDIR p q e (mode_of (rd_op r)) (fd_of (rd_op r))) ∧ (p < p1)%nat ∧
                         str (rd_file r) q e ∧ chain str h rs p1 p'
  end.

Lemma chain_app str h rs1 rs2 p p1 p2 : chain str h rs1 p p1 → chain str h rs2 p1 p2 → chain str h (rs1 ++ rs2) p p2.
Proof.
  revert p. induction rs1 as [|r rs IH]; intros p; cbn; [by intros ->|]. intros (p' & q & e & Hp & Hl & Hs & Hc) H2.
  exists p', q, e. split_and!; [done|done|done|]. by apply IH.
Qed.

Lemma chain_le str h rs p p' : chain str h rs p p' → (p ≤ p')%nat.
Proof. revert p. induction rs as [|r rs IH]; intros p; cbn; [lia|]. intros (p1 & q & e & _ & Hl & _ & Hc). apply IH in Hc. lia. Qed.

(** Nodes after [p0] are as they were. *)
Lemma chain_mono str h h' rs p0 p p' :
  (∀ i x, (p0 < i)%nat → h !! i = Some x → h' !! i = Some x) → (p0 ≤ p)%nat → chain str h rs p p' → chain str h' rs p p'.
Proof.
  intros He. revert p. induction rs as [|r rs IH]; intros p Hp; cbn; [done|]. intros (p1 & q & e & Hp1 & Hl & Hs & Hc).
  exists p1, q, e. split_and!; [apply He; [lia|done]|done|done|apply IH; [lia|done]].
Qed.

Lemma rep_wrap str h rs : ∀ p p' t, rep str h p t → chain str h rs p p' → rep str h p' (wrap rs t).
Proof.
  induction rs as [|r rs IH]; intros p p' t Ht; cbn; [by intros ->|]. intros (p1 & q & e & Hp1 & Hl & Hs & Hc).
  apply (IH p1); [|done]. cbn. exists p, q, e. done.
Qed.

Section Parse.
Context (t : bool) (b junk : bytes) (es : nat).
Abbreviation at_rest := (at_rest b junk es).
Abbreviation span := (span b).

Lemma wpg_parseredirs rs : ∀ fuel p s rest (Q : nat → shst → Prop),
  at_rest s (redirs_text rs ++ rest) → Forall redir_ok rs → solid rest → follow [40; 41; 38; 59; 124] rest ∨ (∃ w r, rest = w ++ r ∧ word_ok w) →
  (length rs < fuel)%nat → (p < length (sheap s))%nat →
  (∀ p' s', at_rest s' rest → ext (sheap s) (sheap s') → (p' < length (sheap s'))%nat → chain span (sheap s') rs p p' → Q p' s') →
  wpg t (parseredirs fuel p es) Q s.
Proof.
  induction rs as [|[op f] rs IH]; intros fuel p s rest Q Hs Hrs Hsol Hfol Hfu Hp HQ;
    (destruct fuel as [|fuel]; [cbn in Hfu; lia|]); cbn [parseredirs].
  - apply wpg_bind. eapply wpg_peek_rest; [exact Hs|]. cbn [redirs_text map concat app].
    replace (match rest with [] => false | c :: _ => in_str [60; 62; 0] c end) with false.
    + apply wpg_ret, HQ; [done|apply ext_refl|done|done].
    + symmetry. destruct Hfol as [Hfol|(w & r & -> & Hw)]; [by apply (follow_not_by [40; 41; 38; 59; 124] [60; 62])|by apply (word_not [60; 62])].
  - apply Forall_cons in Hrs as [Hf Hrs]. unfold redir_ok in Hf. cbn [rd_file] in Hf.
    assert (redirs_text ({| rd_op := op; rd_file := f |} :: rs) ++ rest = op_text op ++ 32 :: f ++ 32 :: redirs_text rs ++ rest) as Et.
    { unfold redirs_text. cbn [map concat]. unfold redir_text at 1. cbn [rd_op rd_file]. by rewrite <- !app_assoc, <- app_comm_cons, <- !app_assoc. }
    rewrite Et in Hs. assert (solid (redirs_text rs ++ rest)) as Hsol1 by (by apply solid_redirs).
    assert (solid (f ++ 32 :: redirs_text rs ++ rest)) as Hsol2 by (by apply solid_word).
    apply wpg_bind. eapply wpg_peek_rest; [exact Hs|].
    replace (match op_text op ++ _ with [] => false | c :: _ => in_str [60; 62; 0] c end) with true by (by destruct op).
    apply wpg_bind.
    assert (∀ (r : Z * nat * nat) s1, at_rest s1 (f ++ 32 :: redirs_text rs ++ rest) → sheap s1 = sheap s →
      r.1.1 = (match op with RIn => 60 | ROut => 62 | RApp => 43 end) →
      wpg t (let '(tok, _, _) := r in '(a, q, eq) ← gettoken es;
        if negb (a =? 97) then panic "missing file for redirection" else
        cmd ← (if tok =? 60 then redircmd p q eq O_RDONLY 0
               else if tok =? 62 then redircmd p q eq (Z.lor O_WRONLY O_CREATE) 1
               else if tok =? 43 then redircmd p q eq (Z.lor O_WRONLY O_CREATE) 1 else mret p);
        parseredirs fuel cmd es) Q s1) as Hrest.
    { intros [[tok q0] e0] s1 Hs1 Hh1 Etok. cbn [fst] in Etok. apply wpg_bind. eapply wpg_gettoken_word; [exact Hs1|done|done|].
      intros q e s2 Hspan Hs2 Hh2. change (negb (97 =? 97)) with false. cbv iota. apply wpg_bind.
      assert (wpg t (redircmd p q e (mode_of op) (fd_of op)) (λ cmd s', wpg t (parseredirs fuel cmd es) Q s') s2) as Hnew.
      { apply wpg_new_node. set (s3 := set_sheap _ s2). assert (sheap s3 = sheap s ++ [REDIR p q e (mode_of op) (fd_of op)]) as Eh by (cbn; by rewrite Hh2, Hh1).
        rewrite Hh2, Hh1. apply (IH fuel _ s3 rest); [exact Hs2|done|done|done|cbn in Hfu; lia|rewrite Eh, length_app; cbn; lia|].
        rewrite Eh. intros p' s4 Hs4 Hext Hp' Hch. apply HQ; [done|eapply ext_trans; [apply ext_app|exact Hext]|done|].
        exists (length (sheap s)), q, e. split_and!; [|done|done|done]. apply Hext. by rewrite lookup_app_r, Nat.sub_diag. }
      destruct op; rewrite Etok; exact Hnew. }
    destruct op; cbn [op_text app] in Hs.
    + eapply wpg_gettoken_symbol; [exact Hs|in_list|done|]. intros r s1 H1 H2 H3. by apply Hrest.
    + eapply wpg_gettoken_symbol; [exact Hs|in_list|done|]. intros r s1 H1 H2 H3. by apply Hrest.
    + eapply wpg_gettoken_append; [exact Hs|done|]. intros r s1 H1 H2 H3. by apply Hrest.
Qed.

Lemma redirs_text_length rs : (length rs ≤ length (redirs_text rs))%nat.
Proof.
  induction rs as [|[op f] rs IH]; [cbn; lia|]. unfold redirs_text in *. cbn [map concat]. unfold redir_text at 1. cbn.
  rewrite !length_app. cbn. lia.
Qed.

(** At the end of the line. *)
Lemma wpg_gettoken_end s (Q : Z * nat * nat → shst → Prop) :
  at_rest s [] → Q (0, spos s, spos s) s → wpg t (gettoken es) Q s.
Proof.
  intros Hs HQ. pose proof (at_rest_char _ _ _ _ _ Hs) as Hc. pose proof Hs as (Hb & Hd & He & _). cbn in Hc.
  assert (∀ Q' : nat → shst → Prop, Q' (spos s) s → wpg t (skip_white (spos s) es) Q' s) as Hskip.
  { intros Q' HQ'. apply (wpg_skip_to t b junk es s _ [] []); try done. cbn. by rewrite Nat.add_0_r. }
  apply wpg_bind, wpg_gets, wpg_bind, Hskip. cbv zeta. apply wpg_bind. eapply wpg_char_at; [exact Hc|]. cbn.
  apply wpg_bind, (wpg_ret t), wpg_bind, Hskip, wpg_bind, (wpg_modify t), wpg_ret. by destruct s.
Qed.

Lemma wpg_parseexec_loop ws cmd : ∀ fuel ret s qs eqs ws0 rs0 rest (Q : nat → shst → Prop),
  at_rest s (args_text ws ++ rest) → Forall arg_ok ws → solid rest → follow [41; 38; 59; 124] rest →
  (length ws < fuel)%nat → (length ws0 + length ws < MAXARGS)%nat →
  sheap s !! cmd = Some (EXEC (args qs) (args eqs)) → Forall3 span ws0 qs eqs →
  (cmd ≤ ret < length (sheap s))%nat → chain span (sheap s) rs0 cmd ret →
  (∀ p' s' qs' eqs', at_rest s' rest → (∀ i x, i ≠ cmd → sheap s !! i = Some x → sheap s' !! i = Some x) →
     sheap s' !! cmd = Some (EXEC (args qs') (args eqs')) → Forall3 span (ws0 ++ map fst ws) qs' eqs' →
     chain span (sheap s') (rs0 ++ concat (map snd ws)) cmd p' → Q p' s') →
  wpg t (parseexec_loop fuel cmd ret (length qs) es) Q s.
Proof.
  induction ws as [|[w rs] ws IH]; intros fuel ret s qs eqs ws0 rs0 rest Q Hs Hws Hsol Hfol Hfu Hmax Hcmd Hsp Hret Hch HQ;
    (destruct fuel as [|fuel]; [cbn in Hfu; lia|]); cbn [parseexec_loop];
    pose proof (Forall3_length_lm _ _ _ _ Hsp) as Hl1; pose proof (Forall3_length_lr _ _ _ _ Hsp) as Hl2.
  - cbn [args_text map concat app] in Hs. cbn [map concat] in HQ. rewrite !app_nil_r in HQ.
    assert (wpg t (set_arg cmd (length qs) None None ;; mret ret) Q s) as Hend.
    { apply wpg_bind. eapply wpg_set_arg; [exact Hcmd|lia|]. rewrite (args_end qs), <- Hl1, Hl2, args_end by lia.
      rewrite list_insert_id by done. apply wpg_ret. apply (HQ _ _ qs eqs); destruct s; done. }
    apply wpg_bind. eapply wpg_peek_rest; [exact Hs|]. destruct rest as [|c rest].
    + apply wpg_bind. apply wpg_gettoken_end; [exact Hs|]. exact Hend.
    + replace (in_str [124; 41; 38; 59; 0] c) with true; [exact Hend|]. symmetry. change [124; 41; 38; 59; 0] with ([124; 41; 38; 59] ++ [0]).
      rewrite in_str_spec by in_list. apply bool_decide_true. by apply (subset_by [41; 38; 59; 124]).
  - apply Forall_cons in Hws as [[Hw Hrs] Hws]. cbn [fst snd] in Hw, Hrs. cbn [length] in Hfu, Hmax.
    assert (args_text ((w, rs) :: ws) ++ rest = w ++ 32 :: redirs_text rs ++ args_text ws ++ rest) as Et.
    { unfold args_text. cbn [map concat fst snd]. rewrite <- !app_assoc. done. }
    rewrite Et in Hs. assert (solid (args_text ws ++ rest)) as Hsol1 by (by apply solid_args).
    assert (solid (redirs_text rs ++ args_text ws ++ rest)) as Hsol2 by (by apply solid_redirs).
    apply wpg_bind. eapply wpg_peek_rest; [exact Hs|]. rewrite (word_not [124; 41; 38; 59]) by done.
    apply wpg_bind. eapply wpg_gettoken_word; [exact Hs|done|done|]. intros q e s1 Hspan Hs1 Hh1. cbv iota beta.
    change (97 =? 0) with false. change (negb (97 =? 97)) with false. cbv iota.
    apply wpg_bind. rewrite <- Hh1 in Hcmd. eapply wpg_set_arg; [exact Hcmd|lia|].
    rewrite (args_set qs), <- Hl1, Hl2, args_set by lia. rewrite bool_decide_false by lia.
    set (s2 := set_sheap _ s1). assert (at_rest s2 (redirs_text rs ++ args_text ws ++ rest)) as Hs2 by exact Hs1.
    assert (sheap s2 = <[cmd := EXEC (args (qs ++ [q])) (args (eqs ++ [e]))]> (sheap s)) as Eh by (cbn; by rewrite Hh1).
    assert (length (sheap s2) = length (sheap s)) as Elh by (by rewrite Eh, length_insert).
    pose proof (redirs_text_length rs) as Hrl. assert (length rs < S es)%nat as Hres.
    { destruct Hs2 as (_ & _ & E & _). rewrite E, !length_app. lia. }
    apply wpg_bind. eapply wpg_parseredirs; [exact Hs2|done|done| |exact Hres|lia|].
    { destruct ws as [|[w' rs'] ws]; [left; by eapply follow_sub; [exact Hfol|]; apply subset_by|].
      right. apply Forall_cons in Hws as [[Hw' _] _]. unfold args_text. cbn [map concat fst]. rewrite <- !app_assoc. eauto. }
    intros p' s3 Hs3 Hext Hp' Hch3.
    replace (S (length eqs)) with (length (qs ++ [q])) by (rewrite length_app; cbn; lia).
    apply (IH fuel p' s3 (qs ++ [q]) (eqs ++ [e]) (ws0 ++ [w]) (rs0 ++ rs) rest); [exact Hs3|done|done|done|lia|rewrite length_app; cbn; lia| | | | |].
    + apply Hext. rewrite Eh. apply list_lookup_insert_eq. lia.
    + apply Forall3_app; [done|]. constructor; [exact Hspan|constructor].
    + split; [|done]. apply chain_le in Hch3. lia.
    + eapply chain_app; [|exact Hch3]. eapply (chain_mono _ (sheap s)); [|done|exact Hch]. intros i x Hi Hx. apply Hext. rewrite Eh.
      by rewrite list_lookup_insert_ne by lia.
    + intros p'' s4 qs' eqs' Hs4 Hkeep Hcmd' Hsp' Hch'. rewrite <- !app_assoc in Hsp', Hch'. apply (HQ _ _ qs' eqs'); try done.
      intros i x Hi Hx. apply Hkeep; [done|]. apply Hext. rewrite Eh. by rewrite list_lookup_insert_ne by done.
Qed.
End Parse.

(** ** The grammar *)

Lemma solid_back n rest : solid rest → solid (back_text n ++ rest).
Proof. by destruct n. Qed.

Lemma back_text_length n : (n ≤ length (back_text n))%nat.
Proof. unfold back_text. induction n as [|n IH]; cbn; [lia|]. cbn in IH. lia. Qed.

Lemma solid_syntax :
  (∀ l, line_wf l → ∀ rest, solid rest → solid (line_text l ++ rest)) ∧
  (∀ p, pipeline_wf p → ∀ rest, solid rest → solid (pipeline_text p ++ rest)) ∧
  (∀ e, exe_wf e → ∀ rest, solid rest → solid (exe_text e ++ rest)).
Proof.
  apply syntax_mut; cbn [line_wf pipeline_wf exe_wf line_text pipeline_text exe_text].
  - intros p IH bg Hwf rest Hr. rewrite <- app_assoc. by apply IH, solid_back.
  - intros p IH bg l IHl [Hwf _] rest Hr. rewrite <- !app_assoc. by apply IH, solid_back.
  - intros e IH Hwf rest Hr. by apply IH.
  - intros e IH p IHp [Hwf _] rest Hr. rewrite <- app_assoc. by apply IH.
  - intros rs ws (Hrs & Hws & _) rest Hr. rewrite <- app_assoc. by apply solid_redirs, solid_args.
  - intros l IH rs _ rest Hr. done.
Qed.

Lemma args_text_length ws : (length ws ≤ length (args_text ws))%nat.
Proof. induction ws as [|[w rs] ws IH]; [cbn; lia|]. unfold args_text in *. cbn [map concat length]. rewrite !length_app. cbn. lia. Qed.

Lemma simple_no_paren rs ws rest :
  Forall arg_ok ws → follow [124; 38; 59; 41] rest →
  match redirs_text rs ++ args_text ws ++ rest with [] => false | c :: _ => in_str [40; 0] c end = false.
Proof.
  intros Hws Hfol. destruct rs as [|[[| |] f] rs]; [|done..]. cbn [redirs_text map concat app].
  destruct ws as [|[w rs] ws]; [by apply (follow_not_by [124; 38; 59; 41] [40])|].
  apply Forall_cons in Hws as [[Hw _] _]. unfold args_text. cbn [map concat fst]. rewrite <- !app_assoc. by apply (word_not [40]).
Qed.

Section Grammar.
Context (t : bool) (b junk : bytes) (es : nat).
Abbreviation at_rest := (at_rest b junk es).
Abbreviation span := (span b).

(** The function [f] parses [text], before the tokens [fol], into [tr]. *)
Definition parses (k : nat) (fol : list Z) (text : bytes) (tr : tree) (f : nat → nat → M shst nat) : Prop :=
  ∀ fuel s rest Q, at_rest s (text ++ rest) → solid rest → follow fol rest → (4 * length (text ++ rest) + k ≤ fuel)%nat →
    (∀ p s', at_rest s' rest → ext (sheap s) (sheap s') → rep span (sheap s') p tr → Q p s') → wpg t (f fuel es) Q s.

Lemma wpg_parseback n : ∀ fuel p tr s rest (Q : nat → shst → Prop),
  at_rest s (back_text n ++ rest) → solid rest → follow [59; 41] rest → (n < fuel)%nat → rep span (sheap s) p tr →
  (∀ p' s', at_rest s' rest → ext (sheap s) (sheap s') → rep span (sheap s') p' (wrap_back n tr) → Q p' s') →
  wpg t (parseback fuel p es) Q s.
Proof.
  induction n as [|n IH]; intros fuel p tr s rest Q Hs Hsol Hfol Hfu Hp HQ;
    (destruct fuel as [|fuel]; [lia|]); cbn [parseback]; apply wpg_bind; (eapply wpg_peek_rest; [exact Hs|]).
  - cbn [back_text replicate concat app]. rewrite (follow_not_by [59; 41] [38]) by done. apply wpg_ret. apply HQ; [done|apply ext_refl|done].
  - change (back_text (S n) ++ rest) with (38 :: 32 :: back_text n ++ rest) in *. change (in_str [38; 0] 38) with true. cbv iota.
    apply wpg_bind. eapply wpg_gettoken_symbol; [exact Hs|in_list|by apply solid_back|]. intros r s1 Hs1 Hh1 _.
    apply wpg_bind, wpg_new_node. apply (IH fuel _ (TBack tr) _ rest); [exact Hs1|done|done|lia| |].
    + cbn [rep set_sheap sheap]. exists p. rewrite Hh1. split_and!; [by rewrite lookup_app_r, Nat.sub_diag by done|by eapply rep_lt|].
      eapply rep_mono; [|apply ext_app|exact Hp]. done.
    + intros p' s' Hs' Hext Hp'. apply HQ; [done| |unfold wrap_back; by rewrite Nat.iter_succ_r].
      cbn in Hext. rewrite Hh1 in Hext. eapply ext_trans; [apply ext_app|exact Hext].
Qed.

(** A symbol, a subcommand, and the node that joins it to the command [p]. *)
Lemma wpg_join k fol text tr tr0 trj f mk c fuel s rest p (Q : nat → shst → Prop) :
  parses k fol text tr f → at_rest s (c :: 32 :: text ++ rest) → c ∈ [124; 40; 41; 59; 38; 60; 62] → solid (text ++ rest) → solid rest → follow fol rest →
  (4 * length (text ++ rest) + k ≤ fuel)%nat → rep span (sheap s) p tr0 →
  (∀ h q, rep span h p tr0 → rep span h q tr → rep span (h ++ [mk p q]) (length h) trj) →
  (∀ p' s', at_rest s' rest → ext (sheap s) (sheap s') → rep span (sheap s') p' trj → Q p' s') →
  wpg t (gettoken es ;; r ← f fuel es; new_node (mk p r)) Q s.
Proof.
  intros Hf Hs Hc Hsol1 Hsol Hfol Hfu Hp Hj HQ.
  apply wpg_bind. eapply wpg_gettoken_symbol; [exact Hs|exact Hc|done|]. intros r s1 Hs1 Hh1 _.
  apply wpg_bind. eapply Hf; [exact Hs1|done|done|done|]. intros q s2 Hs2 Hext Hq. rewrite Hh1 in Hext.
  apply wpg_new_node. apply HQ; [exact Hs2|cbn; eapply ext_trans; [exact Hext|apply ext_app]|]. cbn. apply Hj; [|done]. by eapply rep_mono.
Qed.

Lemma rep_join h p q t1 t2 (mk : nat → nat → node) (tj : tree → tree → tree) :
  (mk = LIST ∧ tj = TList) ∨ (mk = PIPE ∧ tj = TPipe) → rep span h p t1 → rep span h q t2 → rep span (h ++ [mk p q]) (length h) (tj t1 t2).
Proof.
  intros Hmk Hp Hq. assert (rep span (h ++ [mk p q]) p t1 ∧ rep span (h ++ [mk p q]) q t2) as [Hp' Hq'].
  { split; (eapply rep_mono; [|apply ext_app|eassumption]; done). }
  pose proof (rep_lt _ _ _ _ Hp). pose proof (rep_lt _ _ _ _ Hq).
  destruct Hmk as [[-> ->]|[-> ->]]; cbn; exists p, q; (split_and!; [by rewrite lookup_app_r, Nat.sub_diag by done|done..]).
Qed.

Lemma parses_line_end p bg :
  parses 3 [38; 59; 41] (pipeline_text p) (pipeline_tree p) parsepipe →
  ∀ fuel s rest (Q : nat → shst → Prop), at_rest s (pipeline_text p ++ back_text bg ++ rest) → solid rest → follow [59; 41] rest →
    (4 * length (pipeline_text p ++ back_text bg ++ rest) + 3 ≤ fuel)%nat →
    (∀ p' s', at_rest s' rest → ext (sheap s) (sheap s') → rep span (sheap s') p' (wrap_back bg (pipeline_tree p)) → Q p' s') →
    wpg t (cmd ← parsepipe fuel es; parseback (S es) cmd es) Q s.
Proof.
  intros IH fuel s rest Q Hs Hsol Hfol Hfu HQ.
  apply wpg_bind. eapply IH; [exact Hs|by apply solid_back| |done|].
  { destruct bg; [|cbn; in_list]. by eapply follow_sub; [exact Hfol|]; apply subset_by. }
  intros p1 s1 Hs1 Hext Hp1. eapply wpg_parseback; [exact Hs1|done|done| |exact Hp1|].
  - destruct Hs1 as (_ & _ & E & _). rewrite length_app in E.
    pose proof (back_text_length bg). lia.
  - intros p' s' Hs' Hext' Hp'. apply HQ; [done|by eapply ext_trans|done].
Qed.

(** Each production of the grammar, given its parts. *)
Lemma parses_LEnd p bg :
  (pipeline_wf p → parses 3 [38; 59; 41] (pipeline_text p) (pipeline_tree p) parsepipe) →
  line_wf (LEnd p bg) → parses 4 [41] (line_text (LEnd p bg)) (line_tree (LEnd p bg)) parseline.
Proof.
  cbn [line_wf pipeline_wf exe_wf line_text pipeline_text exe_text line_tree pipeline_tree exe_tree].
  intros IH Hwf fuel s rest Q Hs Hsol Hfol Hfu HQ. destruct fuel as [|fuel]; [lia|]. cbn [parseline].
  rewrite <- app_assoc in Hs, Hfu. apply wpg_assoc. apply wpg_bind.
  eapply (parses_line_end p bg (IH Hwf)); [exact Hs|done|by eapply follow_sub; [exact Hfol|]; apply subset_by|lia|].
  intros p' s' Hs' Hext Hp'. apply wpg_bind. eapply wpg_peek_rest; [exact Hs'|].
  rewrite (follow_not_by [41] [59]) by done. apply wpg_ret. by apply HQ.
Qed.

Lemma parses_LSeq p bg l :
  (pipeline_wf p → parses 3 [38; 59; 41] (pipeline_text p) (pipeline_tree p) parsepipe) →
  (line_wf l → parses 4 [41] (line_text l) (line_tree l) parseline) →
  line_wf (LSeq p bg l) → parses 4 [41] (line_text (LSeq p bg l)) (line_tree (LSeq p bg l)) parseline.
Proof.
  destruct solid_syntax as (Sl & _ & _).
  cbn [line_wf pipeline_wf exe_wf line_text pipeline_text exe_text line_tree pipeline_tree exe_tree].
  intros IH IHl [Hwf Hwl] fuel s rest Q Hs Hsol Hfol Hfu HQ. destruct fuel as [|fuel]; [lia|]. cbn [parseline].
  rewrite <- !app_assoc in Hs, Hfu. rewrite <- !app_comm_cons in Hs, Hfu. apply wpg_assoc. apply wpg_bind.
  eapply (parses_line_end p bg (IH Hwf)); [exact Hs|done|cbn; in_list|lia|].
  intros p' s' Hs' Hext Hp'. apply wpg_bind. eapply wpg_peek_rest; [exact Hs'|]. change (in_str [59; 0] 59) with true. cbv iota.
  eapply (wpg_join 4 [41]); [exact (IHl Hwl)|exact Hs'|in_list|by apply Sl|done|done| |exact Hp'| |].
  + rewrite !length_app in *. cbn in Hfu. rewrite length_app in Hfu. lia.
  + intros h q. apply rep_join. by left.
  + intros p2 s2 Hs2 Hext2 Hp2. apply HQ; [done|by eapply ext_trans|done].
Qed.

Lemma parses_PEnd e :
  (exe_wf e → parses 2 [124; 38; 59; 41] (exe_text e) (exe_tree e) parseexec) →
  pipeline_wf (PEnd e) → parses 3 [38; 59; 41] (pipeline_text (PEnd e)) (pipeline_tree (PEnd e)) parsepipe.
Proof.
  cbn [line_wf pipeline_wf exe_wf line_text pipeline_text exe_text line_tree pipeline_tree exe_tree].
  intros IH Hwf fuel s rest Q Hs Hsol Hfol Hfu HQ. destruct fuel as [|fuel]; [lia|]. cbn [parsepipe].
  apply wpg_bind. eapply (IH Hwf); [exact Hs|done|by eapply follow_sub; [exact Hfol|]; apply subset_by|lia|].
  intros p' s' Hs' Hext Hp'. apply wpg_bind. eapply wpg_peek_rest; [exact Hs'|].
  rewrite (follow_not_by [38; 59; 41] [124]) by done. apply wpg_ret. by apply HQ.
Qed.

Lemma parses_PSeq e p :
  (exe_wf e → parses 2 [124; 38; 59; 41] (exe_text e) (exe_tree e) parseexec) →
  (pipeline_wf p → parses 3 [38; 59; 41] (pipeline_text p) (pipeline_tree p) parsepipe) →
  pipeline_wf (PSeq e p) → parses 3 [38; 59; 41] (pipeline_text (PSeq e p)) (pipeline_tree (PSeq e p)) parsepipe.
Proof.
  destruct solid_syntax as (_ & Sp & _).
  cbn [line_wf pipeline_wf exe_wf line_text pipeline_text exe_text line_tree pipeline_tree exe_tree].
  intros IH IHp [Hwf Hwp] fuel s rest Q Hs Hsol Hfol Hfu HQ. destruct fuel as [|fuel]; [lia|]. cbn [parsepipe].
  rewrite <- app_assoc in Hs, Hfu. rewrite <- app_comm_cons in Hs, Hfu.
  apply wpg_bind. eapply (IH Hwf); [exact Hs|done|cbn; in_list|cbn in *; lia|].
  intros p' s' Hs' Hext Hp'. apply wpg_bind. eapply wpg_peek_rest; [exact Hs'|]. change (in_str [124; 0] 124) with true. cbv iota.
  eapply (wpg_join 3 [38; 59; 41]); [exact (IHp Hwp)|exact Hs'|in_list|by apply Sp|done|done| |exact Hp'| |].
  + rewrite !length_app in *. cbn in Hfu. rewrite length_app in Hfu. lia.
  + intros h q. apply rep_join. by right.
  + intros p2 s2 Hs2 Hext2 Hp2. apply HQ; [done|by eapply ext_trans|done].
Qed.

Lemma parses_Simple rs ws :
  exe_wf (Simple rs ws) → parses 2 [124; 38; 59; 41] (exe_text (Simple rs ws)) (exe_tree (Simple rs ws)) parseexec.
Proof.
  cbn [line_wf pipeline_wf exe_wf line_text pipeline_text exe_text line_tree pipeline_tree exe_tree].
  intros (Hrs & Hws & Hmax) fuel s rest Q Hs Hsol Hfol Hfu HQ. destruct fuel as [|fuel]; [lia|]. cbn [parseexec].
  rewrite <- app_assoc in Hs, Hfu. apply wpg_bind. eapply wpg_peek_rest; [exact Hs|].
  rewrite (simple_no_paren rs ws rest) by done. apply wpg_bind, wpg_new_node. set (s1 := set_sheap _ s).
  apply wpg_bind. eapply (wpg_parseredirs t b junk es rs); [exact Hs|done|by apply solid_args| | | |].
  { destruct ws as [|[w rs'] ws]; [left; by eapply follow_sub; [exact Hfol|]; apply subset_by|].
    right. apply Forall_cons in Hws as [[Hw _] _]. unfold args_text. cbn [map concat fst]. rewrite <- !app_assoc. eauto. }
  { pose proof (redirs_text_length rs). destruct Hs as (_ & _ & E & _). rewrite length_app in E. lia. }
  { cbn. rewrite length_app. cbn. lia. }
  intros p2 s2 Hs2 Hext2 Hp2 Hch. change 0%nat with (length (@nil nat)).
  assert (sheap s2 !! length (sheap s) = Some (EXEC (args []) (args []))) as Hcmd.
  { apply Hext2. cbn. by rewrite lookup_app_r, Nat.sub_diag by done. }
  pose proof (chain_le _ _ _ _ _ Hch).
  eapply (wpg_parseexec_loop t b junk es ws (length (sheap s)) _ p2 s2 [] [] [] rs rest); [exact Hs2|done|done|by eapply follow_sub; [exact Hfol|]; apply subset_by| |done|exact Hcmd|constructor|lia|exact Hch|].
  { destruct Hs2 as (_ & _ & E & _). rewrite length_app in E. pose proof (args_text_length ws). lia. }
  intros p3 s3 qs eqs Hs3 Hkeep Hcmd3 Hsp Hch3. apply HQ; [done| |].
  + intros i x Hi. apply Hkeep; [apply lookup_lt_Some in Hi; lia|]. apply Hext2. by apply ext_app.
  + eapply rep_wrap; [|exact Hch3]. cbn. exists qs, eqs. split_and!; [done|by rewrite length_map|exact Hsp].
Qed.

Lemma parses_Block l rs :
  (line_wf l → parses 4 [41] (line_text l) (line_tree l) parseline) →
  exe_wf (Block l rs) → parses 2 [124; 38; 59; 41] (exe_text (Block l rs)) (exe_tree (Block l rs)) parseexec.
Proof.
  destruct solid_syntax as (Sl & _ & _).
  cbn [line_wf pipeline_wf exe_wf line_text pipeline_text exe_text line_tree pipeline_tree exe_tree].
  intros IH [Hwf Hrs] fuel s rest Q Hs Hsol Hfol Hfu HQ.
  assert ((40 :: 32 :: line_text l ++ 41 :: 32 :: redirs_text rs) ++ rest = 40 :: 32 :: line_text l ++ 41 :: 32 :: redirs_text rs ++ rest) as Et.
  { rewrite <- !app_comm_cons, <- app_assoc. done. }
  rewrite Et in Hs, Hfu. cbn [length] in Hfu. destruct fuel as [|[|fuel]]; [lia..|]. cbn [parseexec parseblock].
  assert (solid (line_text l ++ 41 :: 32 :: redirs_text rs ++ rest)) as Hsol1 by (by apply Sl).
  assert (solid (redirs_text rs ++ rest)) as Hsol2 by (by apply solid_redirs).
  apply wpg_bind. eapply wpg_peek_rest; [exact Hs|]. change (in_str [40; 0] 40) with true. cbv iota.
  apply wpg_bind. eapply wpg_peek_rest; [exact Hs|]. change (in_str [40; 0] 40) with true. cbn [negb].
  apply wpg_bind. eapply wpg_gettoken_symbol; [exact Hs|in_list|done|]. intros r s1 Hs1 Hh1 _.
  apply wpg_bind. eapply (IH Hwf); [exact Hs1|done|cbn; in_list|lia|]. intros p s2 Hs2 Hext2 Hp2. rewrite Hh1 in Hext2.
  apply wpg_bind. eapply wpg_peek_rest; [exact Hs2|]. change (in_str [41; 0] 41) with true. cbn [negb].
  apply wpg_bind. eapply wpg_gettoken_symbol; [exact Hs2|in_list|done|]. intros r3 s3 Hs3 Hh3 _.
  eapply (wpg_parseredirs t b junk es rs); [exact Hs3|done|done|left; by eapply follow_sub; [exact Hfol|]; apply subset_by| | |].
  { pose proof (redirs_text_length rs). destruct Hs3 as (_ & _ & E & _). rewrite length_app in E. lia. }
  { rewrite Hh3. by eapply rep_lt. }
  intros p4 s4 Hs4 Hext4 Hp4 Hch. rewrite Hh3 in Hext4. apply HQ; [done|by eapply ext_trans|].
  eapply rep_wrap; [|exact Hch]. eapply rep_mono; [|exact Hext4|exact Hp2]. done.
Qed.

Lemma parses_syntax :
  (∀ l, line_wf l → parses 4 [41] (line_text l) (line_tree l) parseline) ∧
  (∀ p, pipeline_wf p → parses 3 [38; 59; 41] (pipeline_text p) (pipeline_tree p) parsepipe) ∧
  (∀ e, exe_wf e → parses 2 [124; 38; 59; 41] (exe_text e) (exe_tree e) parseexec).
Proof.
  apply syntax_mut; intros;
    [by apply parses_LEnd|by apply parses_LSeq|by apply parses_PEnd|by apply parses_PSeq|
     by apply parses_Simple|by apply parses_Block].
Qed.
End Grammar.

(** ** Cutting the words *)

(** Spaces become NULs. *)
Definition cut (b b1 : bytes) : Prop := length b1 = length b ∧ ∀ i, b1 !! i = b !! i ∨ (b !! i = Some 32 ∧ b1 !! i = Some 0).

Lemma cut_refl b : cut b b.
Proof. split; [done|]. by left. Qed.
Lemma cut_trans b b1 b2 : cut b b1 → cut b1 b2 → cut b b2.
Proof.
  intros [L1 H1] [L2 H2]. split; [congruence|]. intros i. destruct (H2 i) as [E2|[E2 E2']], (H1 i) as [E1|[E1 E1']];
    rewrite ?E2, ?E2'; [by left; rewrite E1|by right|right; by rewrite <- E1|congruence].
Qed.
Lemma cut_zero b b1 i : cut b b1 → b !! i = Some 0 → b1 !! i = Some 0.
Proof. intros [_ H] Hi. destruct (H i) as [->|[? ?]]; congruence. Qed.

Lemma cut_insert b b0 e : cut b b0 → b !! e = Some 32 → cut b0 (<[e := 0]> b0) ∧ <[e := 0]> b0 !! e = Some 0.
Proof.
  intros [L H] He. apply lookup_lt_Some in He as Hlt. assert (<[e := 0]> b0 !! e = Some 0) as E by (apply list_lookup_insert_eq; lia).
  split; [|done]. split; [apply length_insert|]. intros i. destruct (decide (i = e)) as [->|]; [|left; by rewrite list_lookup_insert_ne].
  rewrite E. destruct (H e) as [->|[_ ->]]; [by right|by left].
Qed.

(** The string at [q] is [w], and ends at [e]. *)
Definition cstr (b : bytes) (w : bytes) (q e : nat) : Prop := e = (q + length w)%nat ∧ ∃ j, drop q b = w ++ 0 :: j.

Lemma span_end b w q e : span b w q e → b !! e = Some 32.
Proof. intros (_ & -> & j & Hj). by rewrite <- lookup_drop, Hj, lookup_app_r, Nat.sub_diag. Qed.

Lemma span_cut b b1 w q e : span b w q e → cut b b1 → b1 !! e = Some 0 → cstr b1 w q e.
Proof.
  intros ([_ Hw] & -> & j & Hj) [L H] He. split; [done|]. exists (drop (S (q + length w)) b1).
  rewrite <- (take_drop (length w) (drop q b1)), drop_drop. f_equal.
  - apply list_eq. intros i. destruct (decide (i < length w)%nat) as [Hi|Hi].
    + rewrite lookup_take_lt, lookup_drop by done. assert (b !! (q + i)%nat = w !! i) as E by (by rewrite <- lookup_drop, Hj, lookup_app_l).
      destruct (H (q + i)%nat) as [->|[E2 _]]; [done|]. rewrite E in E2. apply (Forall_lookup_1 _ _ _ _ Hw) in E2. done.
    + rewrite lookup_take_ge by lia. symmetry. apply lookup_ge_None. lia.
  - by apply drop_S.
Qed.

Section Cut.
Context (t : bool) (b : bytes).

(** A word whose end has been cut. *)
Definition ended (b1 : bytes) (w : bytes) (q e : nat) : Prop := span b w q e ∧ b1 !! e = Some 0.

Lemma ended_mono b1 b2 w q e : cut b1 b2 → ended b1 w q e → ended b2 w q e.
Proof. intros Hc [H He]. split; [done|]. by eapply cut_zero. Qed.

Lemma wpg_put_end w q e s (Q : unit → shst → Prop) :
  cut b (sbuf s) → span b w q e → (∀ b1, cut (sbuf s) b1 → ended b1 w q e → Q tt (set_sbuf b1 s)) → wpg t (put_char e 0) Q s.
Proof.
  intros Hc Hs HQ. pose proof (span_end _ _ _ _ Hs) as He. destruct (cut_insert _ _ _ Hc He) as [H1 H2].
  apply wpg_put_char; [destruct Hc as [-> _]; by eapply lookup_lt_Some|]. by apply HQ.
Qed.

Lemma wpg_nul_words ws qs eqs : Forall3 (span b) ws qs eqs → ∀ n s (Q : unit → shst → Prop),
  cut b (sbuf s) → (∀ b1, cut (sbuf s) b1 → Forall3 (ended b1) ws qs eqs → Q tt (set_sbuf b1 s)) →
  wpg t (nul_args (map Some qs ++ replicate (S n) None) (map Some eqs ++ replicate (S n) None)) Q s.
Proof.
  induction 1 as [|w q e ws qs eqs Hw Hws IH]; intros n s Q Hc HQ; cbn [map app replicate nul_args].
  - apply wpg_ret. specialize (HQ (sbuf s) (cut_refl _)). destruct s. apply HQ. constructor.
  - apply wpg_bind. eapply wpg_put_end; [done|exact Hw|]. intros b1 Hc1 He. apply (IH n); [by eapply cut_trans|].
    intros b2 Hc2 Hes. cbn in Hc2. apply (HQ b2); [by eapply cut_trans|]. constructor; [by eapply ended_mono|done].
Qed.

Lemma wpg_nul_rep tr : ∀ fuel p s (Q : unit → shst → Prop),
  rep (span b) (sheap s) p tr → (p < fuel)%nat → cut b (sbuf s) →
  (∀ b1, cut (sbuf s) b1 → rep (ended b1) (sheap s) p tr → Q tt (set_sbuf b1 s)) → wpg t (nulterminate fuel p) Q s.
Proof.
  assert (∀ b1 b2 h p u, cut b1 b2 → rep (ended b1) h p u → rep (ended b2) h p u) as Hmono.
  { intros b1 b2 h p u Hc. apply rep_mono; [|apply ext_refl]. intros w q e. by apply ended_mono. }
  induction tr as [ws|tr IH f m fd|t1 IH1 t2 IH2|t1 IH1 t2 IH2|tr IH]; intros fuel p s Q Hp Hf Hc HQ;
    (destruct fuel as [|fuel]; [lia|]); cbn [rep] in Hp, HQ; cbn [nulterminate]; apply wpg_bind.
  2: destruct Hp as (c & q & e & Hx & Hlt & Hr & Hsp). 3,4: destruct Hp as (l & r & Hx & Hlt & Hr1 & Hr2). 5: destruct Hp as (c & Hx & Hlt & Hr).
  - destruct Hp as (qs & eqs & Hx & Hlen & Hsp). eapply wpg_deref; [exact Hx|]. unfold args.
    pose proof (Forall3_length_lm _ _ _ _ Hsp). pose proof (Forall3_length_lr _ _ _ _ Hsp).
    replace (MAXARGS - length qs)%nat with (S (MAXARGS - length ws - 1)) by lia.
    replace (MAXARGS - length eqs)%nat with (S (MAXARGS - length ws - 1)) by lia.
    eapply wpg_nul_words; [exact Hsp|done|]. intros b1 Hc1 He. apply HQ; [done|]. by exists qs, eqs.
  - eapply wpg_deref; [exact Hx|]. apply wpg_bind. eapply IH; [exact Hr|lia|done|]. intros b1 Hc1 Hr1.
    eapply wpg_put_end; [by eapply cut_trans|exact Hsp|]. intros b2 Hc2 He. cbn in Hc2. apply (HQ b2); [by eapply cut_trans|].
    exists c, q, e. split_and!; [done|done|by eapply Hmono|done].
  - eapply wpg_deref; [exact Hx|]. apply wpg_bind. eapply IH1; [exact Hr1|lia|done|]. intros b1 Hc1 H1.
    eapply IH2; [exact Hr2|lia|by eapply cut_trans|]. intros b2 Hc2 H2. cbn in Hc2. apply (HQ b2); [by eapply cut_trans|].
    exists l, r. split_and!; [done|lia|lia|by eapply Hmono|done].
  - eapply wpg_deref; [exact Hx|]. apply wpg_bind. eapply IH1; [exact Hr1|lia|done|]. intros b1 Hc1 H1.
    eapply IH2; [exact Hr2|lia|by eapply cut_trans|]. intros b2 Hc2 H2. cbn in Hc2. apply (HQ b2); [by eapply cut_trans|].
    exists l, r. split_and!; [done|lia|lia|by eapply Hmono|done].
  - eapply wpg_deref; [exact Hx|]. eapply IH; [exact Hr|lia|done|]. intros b1 Hc1 H1. apply HQ; [done|]. by exists c.
Qed.
End Cut.

(** ** The round trip *)

Lemma text_no_nul :
  (∀ l, line_wf l → 0 ∉ line_text l) ∧ (∀ p, pipeline_wf p → 0 ∉ pipeline_text p) ∧ (∀ e, exe_wf e → 0 ∉ exe_text e).
Proof.
  assert (∀ w, word_ok w → 0 ∉ w) as Hword.
  { intros w [_ Hw] Hin. rewrite Forall_forall in Hw. by apply Hw in Hin. }
  assert (∀ rs, Forall redir_ok rs → 0 ∉ redirs_text rs) as Hrs.
  { induction 1 as [|[op f] rs Hf Hrs IH]; [apply not_elem_of_nil|]. unfold redirs_text. cbn [map concat].
    apply not_elem_of_app. split; [|exact IH]. unfold redir_text. cbn [rd_op rd_file].
    rewrite !not_elem_of_app, not_elem_of_cons, !not_elem_of_app. split_and!; [destruct op; in_list|done|by apply Hword|in_list]. }
  assert (∀ ws, Forall arg_ok ws → 0 ∉ args_text ws) as Hws.
  { induction 1 as [|[w rs] ws [Hw Hr] Hws IH]; [apply not_elem_of_nil|]. unfold args_text. cbn [map concat].
    apply not_elem_of_app. split; [|exact IH]. rewrite not_elem_of_app, not_elem_of_cons. split_and!; [by apply Hword|done|by apply Hrs]. }
  assert (∀ n, 0 ∉ back_text n) as Hback.
  { induction n as [|n IH]; [apply not_elem_of_nil|]. change (back_text (S n)) with (38 :: 32 :: back_text n). by rewrite !not_elem_of_cons. }
  apply syntax_mut; cbn [line_wf pipeline_wf exe_wf line_text pipeline_text exe_text]; intros; destruct_and?;
    rewrite ?not_elem_of_cons, ?not_elem_of_app, ?not_elem_of_cons, ?not_elem_of_app, ?not_elem_of_cons; split_and?; auto.
Qed.

(** C32. Parsing gives back what was printed: for every syntax tree of command
    lines (lists, background commands, pipelines, blocks, words and
    redirections in any order, with at most nine words in a command), the parser
    accepts the text of the tree and builds the commands that the tree
    describes, each argument and file name a NUL-terminated string of its own
    in the line. *)
Theorem parse_print_roundtrip l junk :
  line_wf l →
  ∃ p s', parsecmd 0 (mkSh (line_text l ++ 0 :: junk) 0 []) = Ok (p, s') ∧
    rep (cstr (sbuf s')) (sheap s') p (line_tree l).
Proof.
  intros Hwf. set (b := line_text l ++ 0 :: junk). set (es := length (line_text l)).
  destruct (wp_ok (parsecmd 0) (λ p s', rep (cstr (sbuf s')) (sheap s') p (line_tree l)) (mkSh b 0 [])) as (p & s' & E & H); [|eauto].
  apply wpg_bind. eapply wpg_deref; [by apply strlen_nul, (proj1 text_no_nul)|]. cbv zeta. rewrite Nat2Z.id. fold es. cbn [Nat.add].
  apply wpg_bind, (wpg_modify true). set (s0 := set_spos 0 _). rewrite Nat.sub_0_r.
  assert (at_rest b junk es s0 (line_text l ++ [])) as Hs0.
  { rewrite app_nil_r. split_and!; [done|done|done|]. rewrite <- (app_nil_r (line_text l)). by apply (proj1 solid_syntax). }
  apply wpg_bind. eapply (proj1 (parses_syntax true b junk es)); [exact Hwf|exact Hs0|done|done|rewrite app_nil_r; fold es; lia|].
  intros p s1 Hs1 _ Hp. apply wpg_bind. eapply wpg_peek_rest; [exact Hs1|].
  apply wpg_bind, wpg_gets. pose proof Hs1 as (Hb & _ & He & _). cbn in He. rewrite Nat.add_0_r in He. rewrite bool_decide_true by done. cbn [negb].
  apply wpg_bind. eapply wpg_nul_rep; [exact Hp|lia|rewrite Hb; apply cut_refl|]. intros b1 Hc Hr. rewrite Hb in Hc.
  apply wpg_ret. cbn. eapply rep_mono; [|apply ext_refl|exact Hr]. intros w q e [Hsp Hend]. by eapply span_cut.
Qed.

(** ["cat < f | ( wc > g & ) "]. *)
Definition demo_syntax : line :=
  LEnd (PSeq (Simple [] [([99; 97; 116], [{| rd_op := RIn; rd_file := [102] |}])])
    (PEnd (Block (LEnd (PEnd (Simple [] [([119; 99], [{| rd_op := ROut; rd_file := [103] |}])])) 1) []))) 0.

Lemma parse_print_roundtrip_witness :
  ∃ p s', parsecmd 0 (mkSh (line_text demo_syntax ++ [0]) 0 []) = Ok (p, s') ∧ rep (cstr (sbuf s')) (sheap s') p (line_tree demo_syntax).
Proof.
  apply (parse_print_roundtrip demo_syntax []). cbn. unfold arg_ok, redir_ok, word_ok, MAXARGS. cbn.
  repeat (apply Forall_cons || apply Forall_nil || split); try done; lia.
Defined.
