(* ===== verification/ShellRun.v ===== *)
(** * Running commands (runcmd and main of sh.c)

    What a process of the shell does is a [prog]: its system calls in order,
    each with what the process does with the answer.  The processes run
    concurrently: a [ps] is a process with its descriptors and its children,
    and [step] lets any process of the tree go on, so that a run is one
    interleaving of them.  A child goes on by itself after [fork]; only [wait]
    makes the parent wait.  A new descriptor is the lowest free one, a child has
    a copy of the table.  Whether a program or a file is there is answered at
    each call and may change while other programs run.  What a program does
    after [exec], but that it ends, is left out. *)

From S2P Require Export ShellTree.
Local Open Scope Z_scope.

(** ** Descriptors *)

(** What a descriptor refers to: a file opened by its name, an end of the
    pipe [n], or something the shell was started with. *)
Inductive fobj := Ofile (name : bytes) (mode : Z) | Oread (n : nat) | Owrite (n : nat) | Oinit (n : nat).
#[export] Instance fobj_eq_dec : EqDecision fobj.
Proof. solve_decision. Defined.

Notation fdt := (list (option fobj)).
Definition SH_NOFILE : nat := 16.
Definition fd_at (t : fdt) (fd : nat) : option fobj := mjoin (t !! fd).

Fixpoint lowest (t : fdt) (i : nat) : option nat :=
  match t with
  | [] => None
  | None :: _ => Some i
  | Some _ :: t => lowest t (S i)
  end.
(** [fdalloc] *)
Definition new_fd (o : fobj) (t : fdt) : option (nat * fdt) := i ← lowest t 0; Some (i, <[i := Some o]> t).
Definition close_fd (fd : Z) (t : fdt) : fdt :=
  match fd_at t (Z.to_nat fd) with
  | Some _ => if fd <? 0 then t else <[Z.to_nat fd := None]> t
  | None => t
  end.
Definition dup_fd (fd : Z) (t : fdt) : fdt :=
  match fd_at t (Z.to_nat fd) with
  | Some o => if fd <? 0 then t else from_option snd t (new_fd o t)
  | None => t
  end.

(** ** What a process does *)

(** [P_fork k]: the parent goes on with [k pid], or [k (-1)], the child with
    [k 0].  [P_exec] goes on with [k] when it fails.  The results of [close],
    [dup] and [wait] are not looked at.  [P_run]: another program. *)
Inductive prog :=
  | P_exit
  | P_stuck
  | P_run (path : bytes)
  | P_print (format arg : bytes) (k : prog)
  | P_exec (path : bytes) (argv : list bytes) (k : prog)
  | P_open (name : bytes) (mode : Z) (k : Z → prog)
  | P_close (fd : Z) (k : prog)
  | P_dup (fd : Z) (k : prog)
  | P_pipe (k : option (Z * Z) → prog)
  | P_fork (k : Z → prog)
  | P_wait (k : prog)
  | P_chdir (dir : bytes) (k : Z → prog).

(** [panic(msg)] of the shell: the process ends. *)
Definition sh_panic (text : bytes) : prog := P_print [37; 115; 10] text P_exit.
Definition fork1 (k : Z → prog) : prog :=
  P_fork (λ pid, if pid =? -1 then sh_panic [102; 111; 114; 107] else k pid).

(** ** [runcmd] *)

(** A read beyond an array is undefined. *)
Definition given {A} (o : option A) (k : A → prog) : prog := match o with Some a => k a | None => P_stuck end.

(** The string at [q] of the line [b]. *)
Definition str_at (b : bytes) (q : nat) : option bytes :=
  n ← strlen (drop q b); Some (take (Z.to_nat n) (drop q b)).
(** The arguments up to the null pointer. *)
Fixpoint argv_strs (b : bytes) (argv : list (option nat)) : option (list bytes) :=
  match argv with
  | [] => None
  | None :: _ => Some []
  | Some q :: argv => w ← str_at b q; ws ← argv_strs b argv; Some (w :: ws)
  end.

Definition exec_failed : bytes := [101; 120; 101; 99; 32; 37; 115; 32; 102; 97; 105; 108; 101; 100; 10].
Definition open_failed : bytes := [111; 112; 101; 110; 32; 37; 115; 32; 102; 97; 105; 108; 101; 100; 10].
Definition cannot_cd : bytes := [99; 97; 110; 110; 111; 116; 32; 99; 100; 32; 37; 115; 10].

(** [b] is the line, [h] the heap of commands; a command comes after its
    parts, and [fuel] is more than its place. *)
Fixpoint runcmd (fuel : nat) (b : bytes) (h : list node) (cmd : nat) : prog :=
  match fuel with
  | O => P_stuck
  | S fuel =>
      given (h !! cmd) (λ x,
      match x with
      | EXEC argv _ =>
          given (argv !! 0%nat) (λ a0,
          match a0 with
          | None => P_exit
          | Some q =>
              given (str_at b q) (λ path, given (argv_strs b argv) (λ ws,
              P_exec path ws (P_print exec_failed path P_exit)))
          end)
      | REDIR c file _ mode fd =>
          P_close fd
          (given (str_at b file) (λ name,
           P_open name mode (λ r, if r <? 0 then P_print open_failed name P_exit else runcmd fuel b h c)))
      | LIST l r =>
          fork1 (λ pid, if pid =? 0 then runcmd fuel b h l else
          P_wait (runcmd fuel b h r))
      | PIPE l r =>
          P_pipe (λ p,
          match p with
          | None => sh_panic [112; 105; 112; 101]
          | Some (p0, p1) =>
              fork1 (λ pid, if pid =? 0 then P_close 1 (P_dup p1 (P_close p0 (P_close p1 (runcmd fuel b h l)))) else
              fork1 (λ pid, if pid =? 0 then P_close 0 (P_dup p0 (P_close p0 (P_close p1 (runcmd fuel b h r)))) else
              P_close p0 (P_close p1 (P_wait (P_wait P_exit)))))
          end)
      | BACK c => fork1 (λ pid, if pid =? 0 then runcmd fuel b h c else P_exit)
      end)
  end.

(** ** [main] *)

Definition console_name : bytes := [99; 111; 110; 115; 111; 108; 101].
Definition O_RDWR : Z := 2.
(** [while((fd = open("console", O_RDWR)) >= 0) if(fd >= 3) ...] *)
Fixpoint open_console (fuel : nat) (next : prog) : prog :=
  match fuel with
  | O => P_stuck
  | S fuel =>
      P_open console_name O_RDWR (λ fd,
      if fd <? 0 then next
      else if 3 <=? fd then P_close fd next
      else open_console fuel next)
  end.

Definition str_bytes (m : string) : bytes := (λ c, Z.of_nat (Ascii.nat_of_ascii c)) <$> String.list_ascii_of_string m.
(** [runcmd(parsecmd(buf))] in the child; a panic of the parser prints its
    message and ends it (what the parser prints before it, the rest of the
    line, is left out). *)
Definition run_line (b : bytes) : prog :=
  match parsecmd 0 (mkSh b 0 []) with
  | Ok (cmd, sh) => runcmd (S cmd) (sbuf sh) (sheap sh) cmd
  | Panic m => sh_panic (str_bytes m)
  | _ => P_stuck
  end.

(** The loop of [main]: [getcmd] delivers the lines, each as [gets] leaves it
    in a buffer of 100 zeros; an empty one is the end of the file.  [next] is
    the loop from the next line on. *)
Definition main_turn (b : bytes) (next : prog) : prog :=
  given (b !! 0%nat) (λ c0, given (b !! 1%nat) (λ c1, given (b !! 2%nat) (λ c2,
  if (c0 =? 99) && (c1 =? 100) && (c2 =? 32) then
    given (strlen b) (λ n,
    given (str_at (<[Z.to_nat (n - 1) := 0]> b) 3) (λ dir,
    P_chdir dir (λ r, if r <? 0 then P_print cannot_cd dir next else next)))
  else
    fork1 (λ pid, if pid =? 0 then run_line b else P_wait next)))).
Fixpoint main_loop (lines : list bytes) : prog :=
  match lines with
  | [] => P_exit
  | b :: lines => given (b !! 0%nat) (λ c, if c =? 0 then P_exit else main_turn b (main_loop lines))
  end.
Definition sh_main (lines : list bytes) : prog := open_console (S SH_NOFILE) (main_loop lines).

(** ** Processes that run concurrently *)

(** What is observed: a program starts with its arguments and descriptors, or
    ends; a message on descriptor 2, its format and argument; a file is opened
    or made; a pipe, [n], is made; the kernel has no memory for a process or
    a pipe. *)
Inductive event :=
  | Started (path : bytes) (argv : list bytes) (fds : fdt)
  | Finished (path : bytes)
  | Message (format : bytes) (arg : bytes)
  | Opened (name : bytes) (mode : Z)
  | Piped (n : nat)
  | Refused.

(** A process with its children; one that has ended, whose parent has not
    waited for it yet; and one that its parent has waited for.  The children of
    a process that has ended go on. *)
Inductive ps := Run (p : prog) (fds : fdt) (kids : list ps) | Ended (kids : list ps) | Gone (kids : list ps).
Definition gone (k : ps) : Prop := match k with Gone _ => True | _ => False end.

Inductive step : ps → option event → ps → Prop :=
  | st_kid p d l k r e k' : step k e k' → step (Run p d (l ++ k :: r)) e (Run p d (l ++ k' :: r))
  | st_orphan l k r e k' : step k e k' → step (Ended (l ++ k :: r)) e (Ended (l ++ k' :: r))
  | st_left l k r e k' : step k e k' → step (Gone (l ++ k :: r)) e (Gone (l ++ k' :: r))
  | st_exit d ks : step (Run P_exit d ks) None (Ended ks)
  | st_end path d ks : step (Run (P_run path) d ks) (Some (Finished path)) (Ended ks)
  | st_print f a k d ks : step (Run (P_print f a k) d ks) (Some (Message f a)) (Run k d ks)
  | st_exec path argv k d ks : step (Run (P_exec path argv k) d ks) (Some (Started path argv d)) (Run (P_run path) d ks)
  | st_exec_fails path argv k d ks : step (Run (P_exec path argv k) d ks) None (Run k d ks)
  | st_open name mode k d ks i d' : new_fd (Ofile name mode) d = Some (i, d') →
      step (Run (P_open name mode k) d ks) (Some (Opened name mode)) (Run (k (Z.of_nat i)) d' ks)
  | st_open_fails name mode k d ks : step (Run (P_open name mode k) d ks) None (Run (k (-1)) d ks)
  | st_close fd k d ks : step (Run (P_close fd k) d ks) None (Run k (close_fd fd d) ks)
  | st_dup fd k d ks : step (Run (P_dup fd k) d ks) None (Run k (dup_fd fd d) ks)
  | st_pipe k d ks n i d1 j d2 : new_fd (Oread n) d = Some (i, d1) → new_fd (Owrite n) d1 = Some (j, d2) →
      step (Run (P_pipe k) d ks) (Some (Piped n)) (Run (k (Some (Z.of_nat i, Z.of_nat j))) d2 ks)
  | st_pipe_fails k d ks : step (Run (P_pipe k) d ks) (Some Refused) (Run (k None) d ks)
  | st_fork k d ks pid : 0 < pid → step (Run (P_fork k) d ks) None (Run (k pid) d (ks ++ [Run (k 0) d []]))
  | st_fork_fails k d ks : step (Run (P_fork k) d ks) (Some Refused) (Run (k (-1)) d ks)
  | st_wait k d l ks r : step (Run (P_wait k) d (l ++ Ended ks :: r)) None (Run k d (l ++ Gone ks :: r))
  | st_wait_none k d ks : Forall gone ks → step (Run (P_wait k) d ks) None (Run k d ks)
  | st_chdir dir k d ks r : r = 0 ∨ r = -1 → step (Run (P_chdir dir k) d ks) None (Run (k r) d ks).

(** A run, with what is observed of it. *)
Definition seen (e : option event) : list event := from_option (λ e, [e]) [] e.
Inductive srun : ps → list event → ps → Prop :=
  | sr_refl P : srun P [] P
  | sr_step P e P1 tr P2 : step P e P1 → srun P1 tr P2 → srun P (seen e ++ tr) P2.

(** ** What a command line means

    A [job] is what is left of a command: a tree to run with descriptors, a
    program, a message, the left side of a list with what follows, the two
    sides of a pipe, or something in the background.  It is [settled] when all
    of its foreground has ended. *)
Inductive job :=
  | J_done
  | J_run (t : tree) (d : fdt)
  | J_prog (path : bytes)
  | J_say (format arg : bytes)
  | J_seq (j : job) (t : tree) (d : fdt)
  | J_par (j1 j2 : job)
  | J_bg (j : job).

Fixpoint settled (j : job) : bool :=
  match j with
  | J_done | J_bg _ => true
  | J_par j1 j2 => settled j1 && settled j2
  | _ => false
  end.

Inductive jstep : job → option event → job → Prop :=
  | js_nothing d : jstep (J_run (TExec []) d) None J_done
  | js_start w ws d : jstep (J_run (TExec (w :: ws)) d) (Some (Started w (w :: ws) d)) (J_prog w)
  | js_no_prog w ws d : jstep (J_run (TExec (w :: ws)) d) None (J_say exec_failed w)
  | js_end w : jstep (J_prog w) (Some (Finished w)) J_done
  | js_say f a : jstep (J_say f a) (Some (Message f a)) J_done
  | js_file t f m fd d :
      jstep (J_run (TRedir t f m fd) d) (Some (Opened f m)) (J_run t (<[Z.to_nat fd := Some (Ofile f m)]> d))
  | js_no_file t f m fd d : jstep (J_run (TRedir t f m fd) d) None (J_say open_failed f)
  | js_list t u d : jstep (J_run (TList t u) d) None (J_seq (J_run t d) u d)
  | js_next j u d : settled j = true → jstep (J_seq j u d) None (J_par j (J_run u d))
  | js_pipe t u d n : jstep (J_run (TPipe t u) d) (Some (Piped n))
      (J_par (J_run t (<[1%nat := Some (Owrite n)]> d)) (J_run u (<[0%nat := Some (Oread n)]> d)))
  | js_back t d : jstep (J_run (TBack t) d) None (J_bg (J_run t d))
  | js_left j e j' u d : jstep j e j' → jstep (J_seq j u d) e (J_seq j' u d)
  | js_par1 j1 e j1' j2 : jstep j1 e j1' → jstep (J_par j1 j2) e (J_par j1' j2)
  | js_par2 j1 j2 e j2' : jstep j2 e j2' → jstep (J_par j1 j2) e (J_par j1 j2')
  | js_bg j e j' : jstep j e j' → jstep (J_bg j) e (J_bg j').

Inductive jrun : job → list event → job → Prop :=
  | jr_refl j : jrun j [] j
  | jr_step j e j1 tr j2 : jstep j e j1 → jrun j1 tr j2 → jrun j (seen e ++ tr) j2.

(** Words are C strings, and redirections are of the standard input and
    output. *)
Fixpoint tree_ok (t : tree) : Prop :=
  match t with
  | TExec ws => Forall (λ w : bytes, 0 ∉ w) ws
  | TRedir t f _ fd => tree_ok t ∧ 0 ∉ f ∧ (fd = 0 ∨ fd = 1)
  | TPipe t u | TList t u => tree_ok t ∧ tree_ok u
  | TBack t => tree_ok t
  end.

Lemma jrun_step1 j e j' : jstep j e j' → jrun j (seen e) j'.
Proof. intros H. rewrite <- (app_nil_r (seen e)). econstructor; [exact H|constructor]. Qed.

Lemma jrun_app j1 tr1 j2 tr2 j3 : jrun j1 tr1 j2 → jrun j2 tr2 j3 → jrun j1 (tr1 ++ tr2) j3.
Proof. induction 1 as [|j e j1 tr j2 Hs _ IH]; intros H2; [done|]. rewrite <- app_assoc. econstructor; [exact Hs|by apply IH]. Qed.

(** Runs of a part are runs of the whole. *)
Lemma jrun_left j tr j' u d : jrun j tr j' → jrun (J_seq j u d) tr (J_seq j' u d).
Proof. induction 1; econstructor; [by apply js_left|done]. Qed.
Lemma jrun_par1 j1 tr j1' j2 : jrun j1 tr j1' → jrun (J_par j1 j2) tr (J_par j1' j2).
Proof. induction 1; econstructor; [by apply js_par1|done]. Qed.
Lemma jrun_par2 j1 j2 tr j2' : jrun j2 tr j2' → jrun (J_par j1 j2) tr (J_par j1 j2').
Proof. induction 1; econstructor; [by apply js_par2|done]. Qed.
Lemma jrun_bg j tr j' : jrun j tr j' → jrun (J_bg j) tr (J_bg j').
Proof. induction 1; econstructor; [by apply js_bg|done]. Qed.

(** ** Descriptors *)

(** Descriptors 0, 1 and 2 are open, and two others are free. *)
Definition fds_ok (d : fdt) : Prop :=
  (∀ i, (i < 3)%nat → ∃ o, d !! i = Some (Some o)) ∧
  ∃ i j, (i < j)%nat ∧ d !! i = Some None ∧ d !! j = Some None.

Lemma lowest_from t : ∀ k i, t !! i = Some None →
  ∃ j, lowest t k = Some (k + j)%nat ∧ t !! j = Some None ∧ ∀ j', (j' < j)%nat → ∃ o, t !! j' = Some (Some o).
Proof.
  induction t as [|[o|] t IH]; intros k i Hi; [done| |].
  - destruct i as [|i]; [done|]. destruct (IH (S k) i Hi) as (j & E & Hj & Hlt).
    exists (S j). cbn [lowest]. rewrite E. split; [f_equal; lia|]. split; [done|].
    intros [|j'] Hj'; [by exists o|]. apply Hlt. lia.
  - exists 0%nat. cbn. split; [f_equal; lia|]. split; [done|]. lia.
Qed.

Lemma lowest_at t i :
  t !! i = Some None → (∀ j, (j < i)%nat → ∃ o, t !! j = Some (Some o)) → lowest t 0 = Some i.
Proof.
  intros Hi Hlt. destruct (lowest_from t 0 i Hi) as (j & -> & Hj & Hlt'). f_equal. cbn.
  destruct (Nat.lt_trichotomy i j) as [H|[H|H]]; [|done|].
  - destruct (Hlt' i H) as [o Ho]. by rewrite Hi in Ho.
  - destruct (Hlt j H) as [o Ho]. by rewrite Hj in Ho.
Qed.

(** The two descriptors that [pipe] takes. *)
Lemma fds_two d :
  fds_ok d → ∃ i j, (3 ≤ i < j)%nat ∧ d !! i = Some None ∧ d !! j = Some None ∧ lowest d 0 = Some i ∧
    ∀ o, lowest (<[i := Some o]> d) 0 = Some j.
Proof.
  intros [H3 (i0 & j0 & Hij & Hi0 & Hj0)]. destruct (lowest_from d 0 i0 Hi0) as (i & E & Hi & Hlt). cbn in E.
  assert (3 ≤ i)%nat as Hi3. { destruct (decide (i < 3)%nat) as [H|]; [|lia]. destruct (H3 i H) as [o Ho]. by rewrite Hi in Ho. }
  assert (i ≤ i0)%nat as Hle. { destruct (decide (i0 < i)%nat) as [H|]; [|lia]. destruct (Hlt i0 H) as [o Ho]. by rewrite Hi0 in Ho. }
  assert (∀ o, (<[i := Some o]> d) !! j0 = Some None) as Hj by (intros o; rewrite list_lookup_insert_ne; [done|lia]).
  destruct (lowest_from (<[i := Some (Oinit 0)]> d) 0 j0 (Hj _)) as (j & E' & Hj' & Hlt'). cbn in E'.
  destruct (decide (i = j)) as [->|Hne]; [by rewrite list_lookup_insert_eq in Hj' by (by eapply lookup_lt_Some)|].
  rewrite list_lookup_insert_ne in Hj' by done.
  assert (i < j)%nat as Hlt2. { destruct (decide (j < i)%nat) as [H|]; [|lia]. destruct (Hlt j H) as [o Ho]. by rewrite Hj' in Ho. }
  exists i, j. split_and!; [lia|lia|done|done|done|]. intros o. apply lowest_at; [by rewrite list_lookup_insert_ne|].
  intros k Hk. destruct (decide (k = i)) as [->|Hki]; [exists o; apply list_lookup_insert_eq; by eapply lookup_lt_Some|].
  destruct (Hlt' k Hk) as [o' Ho']. exists o'. rewrite list_lookup_insert_ne in Ho' |- * by done. done.
Qed.

Lemma fds_ok_insert d i o : fds_ok d → (i < 3)%nat → fds_ok (<[i := Some o]> d).
Proof.
  intros [H3 (a & b & Hab & Ha & Hb)] Hi. destruct (H3 i Hi) as [oi Hoi]. split.
  - intros k Hk. destruct (decide (k = i)) as [->|]; [exists o; apply list_lookup_insert_eq; by eapply lookup_lt_Some|].
    rewrite list_lookup_insert_ne by done. by apply H3.
  - exists a, b. assert (i ≠ a) by congruence. assert (i ≠ b) by congruence. by rewrite !list_lookup_insert_ne.
Qed.

(** Redirecting: the lowest free descriptor is the one just closed. *)
Lemma lowest_closed d x : fds_ok d → (x < 3)%nat → lowest (<[x := None]> d) 0 = Some x.
Proof.
  intros [H3 _] Hx. destruct (H3 x Hx) as [o Ho]. apply lowest_at.
  - apply list_lookup_insert_eq. by eapply lookup_lt_Some.
  - intros j Hj. rewrite list_lookup_insert_ne by lia. apply H3. lia.
Qed.

(** A call that only changes the descriptors. *)
Definition quiet (p : prog) (d : fdt) : option (prog * fdt) :=
  match p with
  | P_close fd k => Some (k, close_fd fd d)
  | P_dup fd k => Some (k, dup_fd fd d)
  | _ => None
  end.

Lemma close_fd_at i o d : d !! i = Some (Some o) → close_fd (Z.of_nat i) d = <[i := None]> d.
Proof. intros E. unfold close_fd, fd_at. rewrite Nat2Z.id, E. cbn. by rewrite (proj2 (Z.ltb_ge (Z.of_nat i) 0)) by lia. Qed.

Lemma dup_fd_at i o k d : d !! i = Some (Some o) → lowest d 0 = Some k → dup_fd (Z.of_nat i) d = <[k := Some o]> d.
Proof.
  intros E Ek. unfold dup_fd, fd_at, new_fd. rewrite Nat2Z.id, E. cbn. rewrite (proj2 (Z.ltb_ge (Z.of_nat i) 0)) by lia. by rewrite Ek.
Qed.

(** The end of a pipe becomes descriptor [x], and the pipe's own descriptors
    are closed. *)
Lemma take_end d i j x e o o1 o2 :
  fds_ok d → (3 ≤ i < j)%nat → d !! i = Some None → d !! j = Some None → (x < 3)%nat →
  (e = i ∧ o = o1) ∨ (e = j ∧ o = o2) →
  close_fd (Z.of_nat j) (close_fd (Z.of_nat i) (dup_fd (Z.of_nat e) (close_fd (Z.of_nat x) (<[j := Some o2]> (<[i := Some o1]> d))))) =
  <[x := Some o]> d.
Proof.
  intros Hd Hij Hi Hj Hx He. set (d1 := <[j := Some o2]> (<[i := Some o1]> d)).
  pose proof (lookup_lt_Some _ _ _ Hi) as Hli. pose proof (lookup_lt_Some _ _ _ Hj) as Hlj.
  assert (d1 !! i = Some (Some o1) ∧ d1 !! j = Some (Some o2)) as [H1 H2].
  { unfold d1. rewrite list_lookup_insert_ne by lia. rewrite !list_lookup_insert_eq by (rewrite ?length_insert; done). done. }
  destruct (proj1 Hd x Hx) as [ox Hox].
  assert (d1 !! x = Some (Some ox)) as Hx1 by (unfold d1; by rewrite !list_lookup_insert_ne by lia).
  rewrite (close_fd_at x ox) by done.
  assert (lowest (<[x := None]> d1) 0 = Some x) as Hlow.
  { apply lowest_at; [apply list_lookup_insert_eq; by eapply lookup_lt_Some|].
    intros k Hk. rewrite list_lookup_insert_ne by lia. unfold d1. rewrite !list_lookup_insert_ne by lia. apply Hd. lia. }
  assert (d1 !! e = Some (Some o)) as He1 by (destruct He as [[-> ->]|[-> ->]]; done).
  assert (x ≠ e ∧ x ≠ i ∧ x ≠ j) as (Hxe & Hxi & Hxj) by (destruct He as [[-> _]|[-> _]]; lia).
  rewrite (dup_fd_at e o x) by (by rewrite ?list_lookup_insert_ne).
  rewrite (close_fd_at i o1) by (by rewrite !list_lookup_insert_ne by done).
  rewrite (close_fd_at j o2) by (by rewrite !list_lookup_insert_ne by (done || lia)).
  rewrite list_insert_insert_eq. unfold d1. apply list_eq. intros k.
  rewrite !list_lookup_insert. rewrite ?length_insert.
  repeat case_decide; destruct_and?; subst; try lia; try done; tauto.
Qed.

(** ** The strings of the line *)

Lemma str_at_ok b w q e : cstr b w q e → 0 ∉ w → str_at b q = Some w.
Proof. intros (_ & j & E) Hw. unfold str_at. rewrite E, strlen_nul by done. cbn. by rewrite Nat2Z.id, take_app_length. Qed.

Lemma argv_strs_ok b ws qs eqs r :
  Forall3 (cstr b) ws qs eqs → Forall (λ w : bytes, 0 ∉ w) ws → argv_strs b (map Some qs ++ None :: r) = Some ws.
Proof.
  induction 1 as [|w q e ws qs eqs Hw H IH]; intros Hn; [done|]. apply Forall_cons in Hn as [Hw0 Hn].
  cbn [map app argv_strs]. rewrite (str_at_ok b w q e) by done. cbn. by rewrite IH.
Qed.

(** ** The commands of a tree *)

Section Commands.
Context (b : bytes) (h : list node) (fuel : nat).
Notation rep_at := (rep (cstr b) h).

Lemma cmd_exec c ws : rep_at c (TExec ws) → tree_ok (TExec ws) →
  runcmd (S fuel) b h c = match ws with [] => P_exit | w :: _ => P_exec w ws (P_print exec_failed w P_exit) end.
Proof.
  intros (qs & eqs & Hp & Hlen & H3) Hok. pose proof (Forall3_length_lm _ _ _ _ H3) as Hl.
  cbn [runcmd]. rewrite Hp. cbn [given].
  assert (args qs = map Some qs ++ None :: replicate (MAXARGS - length qs - 1) None) as Ea.
  { unfold args. f_equal. destruct (MAXARGS - length qs)%nat eqn:E; [lia|]. cbn. do 2 f_equal. lia. }
  rewrite Ea. destruct H3 as [|w q e ws qs eqs Hw H3]; [done|]. cbn [map app lookup list_lookup given].
  rewrite (str_at_ok b w q e) by (done || by apply Forall_cons in Hok as [? _]). cbn [given].
  pose proof (argv_strs_ok b (w :: ws) (q :: qs) (e :: eqs) (replicate (MAXARGS - length (q :: qs) - 1) None)
    ltac:(by constructor) Hok) as Ews. cbn [map app] in Ews. by rewrite Ews.
Qed.

Definition open_file (f : bytes) (m : Z) (c : nat) : prog :=
  P_open f m (λ r, if r <? 0 then P_print open_failed f P_exit else runcmd fuel b h c).
Lemma cmd_redir p t f m fd : rep_at p (TRedir t f m fd) → tree_ok (TRedir t f m fd) →
  ∃ c, (c < p)%nat ∧ rep_at c t ∧ runcmd (S fuel) b h p = P_close fd (open_file f m c).
Proof.
  intros (c & q & e & Hp & Hlt & Hc & Hf) (Ht & Hf0 & _). exists c. split; [done|]. split; [done|].
  cbn [runcmd]. rewrite Hp. cbn [given]. by rewrite (str_at_ok b f q e).
Qed.

Lemma cmd_list p t u : rep_at p (TList t u) →
  ∃ l r, (l < p ∧ r < p)%nat ∧ rep_at l t ∧ rep_at r u ∧
    runcmd (S fuel) b h p = fork1 (λ pid, if pid =? 0 then runcmd fuel b h l else P_wait (runcmd fuel b h r)).
Proof. intros (l & r & Hp & Hlt & Hl & Hr). exists l, r. split_and!; [lia|lia|done|done|]. cbn [runcmd]. by rewrite Hp. Qed.

Lemma cmd_back p t : rep_at p (TBack t) →
  ∃ c, (c < p)%nat ∧ rep_at c t ∧ runcmd (S fuel) b h p = fork1 (λ pid, if pid =? 0 then runcmd fuel b h c else P_exit).
Proof. intros (c & Hp & Hlt & Hc). exists c. split_and!; [lia|done|]. cbn [runcmd]. by rewrite Hp. Qed.

(** The writer and the reader of a pipe; the second fork, and the first. *)
Definition writer (p0 p1 : Z) (l : nat) : prog := P_close 1 (P_dup p1 (P_close p0 (P_close p1 (runcmd fuel b h l)))).
Definition reader (p0 p1 : Z) (r : nat) : prog := P_close 0 (P_dup p0 (P_close p0 (P_close p1 (runcmd fuel b h r)))).
Definition pipe_end (p0 p1 : Z) : prog := P_close p0 (P_close p1 (P_wait (P_wait P_exit))).
Definition second_fork (p0 p1 : Z) (r : nat) : prog :=
  fork1 (λ pid, if pid =? 0 then reader p0 p1 r else pipe_end p0 p1).
Definition first_fork (p0 p1 : Z) (l r : nat) : prog :=
  fork1 (λ pid, if pid =? 0 then writer p0 p1 l else second_fork p0 p1 r).
Lemma cmd_pipe p t u : rep_at p (TPipe t u) →
  ∃ l r, (l < p ∧ r < p)%nat ∧ rep_at l t ∧ rep_at r u ∧
    runcmd (S fuel) b h p = P_pipe (λ q, match q with None => sh_panic [112; 105; 112; 101] | Some (p0, p1) => first_fork p0 p1 l r end).
Proof. intros (l & r & Hp & Hlt & Hl & Hr). exists l, r. split_and!; [lia|lia|done|done|]. cbn [runcmd]. by rewrite Hp. Qed.
End Commands.

(** ** Families of processes *)

Definition cons_kid (k P : ps) : ps :=
  match P with Run p d ks => Run p d (k :: ks) | Ended ks => Ended (k :: ks) | Gone ks => Gone (k :: ks) end.
(** A process that has ended, whether its parent has waited for it or not. *)
Definition as_ended (P : ps) : ps := match P with Gone ks => Ended ks | _ => P end.
Definition unreaped (P : ps) : nat := match P with Gone _ => 0 | _ => 1 end.

(** One child among others. *)
Lemma cons_split {A} (g : A) ks l k r : g :: ks = l ++ k :: r → (l = [] ∧ k = g ∧ r = ks) ∨ ∃ l', l = g :: l' ∧ ks = l' ++ k :: r.
Proof. destruct l as [|x l]; intros [= -> ->]; [by left|right; by exists l]. Qed.

Lemma step_gone ks e P : step (Gone ks) e P → ∃ ks', P = Gone ks' ∧ step (Ended ks) e (Ended ks').
Proof. intros H. inversion H; subst. eexists. split; [done|by constructor]. Qed.

Lemma step_ended ks e P : step (Ended ks) e P → ∃ ks', P = Ended ks' ∧ step (Gone ks) e (Gone ks').
Proof. intros H. inversion H; subst. eexists. split; [done|by constructor]. Qed.

Lemma step_as_ended K e K' : step K e K' → step (as_ended K) e (as_ended K') ∧ unreaped K' = unreaped K.
Proof.
  intros H. destruct K as [p d ks|ks|ks]; cbn [as_ended unreaped].
  - by inversion H; subst.
  - apply step_ended in H as Hs. destruct Hs as (ks' & -> & _). by split.
  - apply step_gone in H as (ks' & -> & H). by split.
Qed.

(** A child that has been waited for and the rest of the family are apart. *)
Lemma step_cons_kid l P e P' : step (cons_kid (Gone l) P) e P' →
  (∃ l', step (Ended l) e (Ended l') ∧ P' = cons_kid (Gone l') P) ∨ (∃ P0, step P e P0 ∧ P' = cons_kid (Gone l) P0).
Proof.
  assert (∀ ks l0 k r k' (F : list ps → ps), Gone l :: ks = l0 ++ k :: r → step k e k' →
    (∀ l1 k1 r1 k1', step k1 e k1' → step (F (l1 ++ k1 :: r1)) e (F (l1 ++ k1' :: r1))) →
    (∃ l', step (Ended l) e (Ended l') ∧ F (l0 ++ k' :: r) = F (Gone l' :: ks)) ∨
    (∃ ks', step (F ks) e (F ks') ∧ F (l0 ++ k' :: r) = F (Gone l :: ks'))) as Hkid.
  { intros ks l0 k r k' F E Hs HF. apply cons_split in E as [(-> & -> & ->)|(l' & -> & ->)].
    - apply step_gone in Hs as (l' & -> & Hs). left. by exists l'.
    - right. exists (l' ++ k' :: r). split; [by apply HF|done]. }
  intros H. destruct P as [p d ks|ks|ks]; cbn [cons_kid] in H.
  - inversion H; subst; try (right; eexists; split; [by econstructor|done]).
    + destruct (Hkid ks l0 k r k' (Run p d) ltac:(done) ltac:(done) ltac:(by constructor)) as [(l' & HE & ->)|(ks' & HE & ->)];
        [left; by exists l'|right; by exists (Run p d ks')].
    + match goal with E : l0 ++ Ended _ :: _ = _ |- _ => symmetry in E; apply cons_split in E as [(_ & E & _)|(l' & -> & ->)] end; [done|].
      right. eexists. split; [by econstructor|done].
    + match goal with E : Forall gone (_ :: _) |- _ => apply Forall_cons in E as [_ E] end. right. eexists. split; [by apply st_wait_none|done].
  - inversion H; subst. destruct (Hkid ks l0 k r k' Ended ltac:(done) ltac:(done) ltac:(by constructor)) as [(l' & HE & ->)|(ks' & HE & ->)];
      [left; by exists l'|right; by exists (Ended ks')].
  - inversion H; subst. destruct (Hkid ks l0 k r k' Gone ltac:(done) ltac:(done) ltac:(by constructor)) as [(l' & HE & ->)|(ks' & HE & ->)];
      [left; by exists l'|right; by exists (Gone ks')].
Qed.

Lemma cons_kid_step l P e P' : step P e P' → step (cons_kid (Gone l) P) e (cons_kid (Gone l) P').
Proof.
  intros H. inversion H; subst; cbn [cons_kid]; try (by econstructor).
  - by apply (st_kid p d (Gone l :: l0)).
  - by apply (st_orphan (Gone l :: l0)).
  - by apply (st_left (Gone l :: l0)).
  - by apply (st_wait k d (Gone l :: l0)).
  - apply st_wait_none. by constructor.
Qed.

(** A process without children makes its own steps only. *)
Ltac step_cases H := inversion H; subst; try done; try (by (match goal with E : _ ++ _ :: _ = [] |- _ => by destruct (app_cons_not_nil _ _ _ (eq_sym E)) end)).

(** ** The simulation *)

(** What is left of the parent of a pipe: closing its ends, then [m] waits. *)
Inductive waits : nat → prog → Prop :=
  | w_exit : waits 0 P_exit
  | w_wait m p : waits m p → waits (S m) (P_wait p)
  | w_close m fd p : waits m p → waits m (P_close fd p).

Section Sim.
Context (b : bytes) (h : list node).
Notation rep_at := (rep (cstr b) h).

(** The descriptors with a new pipe. *)
Record piped (d : fdt) (n i j : nat) (d2 : fdt) : Prop := {
  pi_ok : fds_ok d;
  pi_lt : (3 ≤ i < j)%nat;
  pi_i : d !! i = Some None;
  pi_j : d !! j = Some None;
  pi_eq : d2 = <[j := Some (Owrite n)]> (<[i := Some (Oread n)]> d)
}.

(** The processes that work on a job. *)
Inductive sim : job → ps → Prop :=
  | sim_tree t d c fuel : rep_at c t → tree_ok t → fds_ok d → (c < fuel)%nat → sim (J_run t d) (Run (runcmd fuel b h c) d [])
  | sim_quiet j p d p' d' : quiet p d = Some (p', d') → sim j (Run p' d' []) → sim j (Run p d [])
  | sim_exit d : sim J_done (Run P_exit d [])
  | sim_done : sim J_done (Ended [])
  | sim_prog w d : sim (J_prog w) (Run (P_run w) d [])
  | sim_say f a d : sim (J_say f a) (Run (P_print f a P_exit) d [])
  | sim_open t f m x d c fuel : rep_at c t → tree_ok t → fds_ok d → (x < 3)%nat → (c < fuel)%nat →
      sim (J_run (TRedir t f m (Z.of_nat x)) d) (Run (open_file b h fuel f m c) (<[x := None]> d) [])
  | sim_wait j u d r fuel K : rep_at r u → tree_ok u → fds_ok d → (r < fuel)%nat → unreaped K = 1%nat → sim j K →
      sim (J_seq j u d) (Run (P_wait (runcmd fuel b h r)) d [K])
  | sim_gone j1 j2 l P : sim j1 (Ended l) → sim j2 P → sim (J_par j1 j2) (cons_kid (Gone l) P)
  | sim_bg j d K : unreaped K = 1%nat → sim j K → sim (J_bg j) (Run P_exit d [K])
  | sim_bg_end j K : sim j K → sim (J_bg j) (Ended [K])
  | sim_first t u d n i j d2 l r fuel : piped d n i j d2 → rep_at l t → tree_ok t → rep_at r u → tree_ok u → (l < fuel ∧ r < fuel)%nat →
      sim (J_par (J_run t (<[1%nat := Some (Owrite n)]> d)) (J_run u (<[0%nat := Some (Oread n)]> d)))
        (Run (first_fork b h fuel (Z.of_nat i) (Z.of_nat j) l r) d2 [])
  | sim_second j1 u d n i j d2 r fuel K : piped d n i j d2 → rep_at r u → tree_ok u → (r < fuel)%nat → unreaped K = 1%nat → sim j1 K →
      sim (J_par j1 (J_run u (<[0%nat := Some (Oread n)]> d))) (Run (second_fork b h fuel (Z.of_nat i) (Z.of_nat j) r) d2 [K])
  | sim_pipe m p d j1 j2 K1 K2 : waits m p → m = (unreaped K1 + unreaped K2)%nat → sim j1 (as_ended K1) → sim j2 (as_ended K2) →
      sim (J_par j1 j2) (Run p d [K1; K2])
  | sim_pipe_end j1 j2 l1 l2 : sim j1 (Ended l1) → sim j2 (Ended l2) → sim (J_par j1 j2) (Ended [Gone l1; Gone l2]).

(** When the process has ended, so has the foreground of its job. *)
Lemma sim_settled j P : sim j P → ∀ l, P = Ended l → settled j = true.
Proof.
  induction 1; intros l0 E; try done; cbn [settled].
  - destruct P; try done. by rewrite (IHsim1 _ eq_refl), (IHsim2 _ eq_refl).
  - by rewrite (IHsim1 _ eq_refl), (IHsim2 _ eq_refl).
Qed.

Lemma sim_not_gone j P : sim j P → ∀ l, P ≠ Gone l.
Proof. induction 1; intros l0; try done. destruct P; try done. by destruct (IHsim2 kids). Qed.

Lemma sim_writer t d n i j d2 l fuel : piped d n i j d2 → rep_at l t → tree_ok t → (l < fuel)%nat →
  sim (J_run t (<[1%nat := Some (Owrite n)]> d)) (Run (writer b h fuel (Z.of_nat i) (Z.of_nat j) l) d2 []).
Proof.
  intros [Hd Hij Hi Hj ->] Hr Ht Hf. do 4 (eapply sim_quiet; [reflexivity|]).
  erewrite (take_end d i j 1 j); [|done|done|done|done|lia|by right].
  apply sim_tree; try done. apply fds_ok_insert; [done|lia].
Qed.
Lemma sim_reader u d n i j d2 r fuel : piped d n i j d2 → rep_at r u → tree_ok u → (r < fuel)%nat →
  sim (J_run u (<[0%nat := Some (Oread n)]> d)) (Run (reader b h fuel (Z.of_nat i) (Z.of_nat j) r) d2 []).
Proof.
  intros [Hd Hij Hi Hj ->] Hr Ht Hf. do 4 (eapply sim_quiet; [reflexivity|]).
  erewrite (take_end d i j 0 i); [|done|done|done|done|lia|by left].
  apply sim_tree; try done. apply fds_ok_insert; [done|lia].
Qed.

(** Every step of the processes is a step of the job, or none. *)
Definition simulates (j : job) (P : ps) : Prop :=
  ∀ e P', step P e P' → e ≠ Some Refused → ∃ j', jrun j (seen e) j' ∧ sim j' P'.

Lemma simulates_stay j P' : sim j P' → ∃ j', jrun j (seen None) j' ∧ sim j' P'.
Proof. intros H. exists j. split; [constructor|done]. Qed.
Lemma simulates_go j e j' P' : jstep j e j' → sim j' P' → ∃ j', jrun j (seen e) j' ∧ sim j' P'.
Proof. intros H1 H2. exists j'. split; [by apply jrun_step1|done]. Qed.

Lemma tree_simulates t d c fuel :
  rep_at c t → tree_ok t → fds_ok d → (c < S fuel)%nat → simulates (J_run t d) (Run (runcmd (S fuel) b h c) d []).
Proof.
  intros Hr Ht Hd Hc e P' H He. destruct t as [ws|t f m fd|t u|t u|t].
  - rewrite (cmd_exec b h fuel c ws Hr Ht) in H. destruct ws as [|w ws]; step_cases H.
    + eapply simulates_go; [apply js_nothing|constructor].
    + eapply simulates_go; [apply js_start|constructor].
    + eapply simulates_go; [apply js_no_prog|constructor].
  - destruct (cmd_redir b h fuel c t f m fd Hr Ht) as (c' & Hlt & Hr' & E). rewrite E in H.
    destruct Ht as (Ht & _ & Hfd). assert (∃ x, (x < 3)%nat ∧ fd = Z.of_nat x) as (x & Hx & ->) by (destruct Hfd as [->| ->]; [exists 0%nat|exists 1%nat]; split; lia).
    destruct (proj1 Hd x Hx) as [o Ho]. step_cases H. rewrite (close_fd_at x o d Ho). apply simulates_stay. apply sim_open; try done. lia.
  - destruct (cmd_pipe b h fuel c t u Hr) as (l & r & Hlt & Hl & Hr' & E). rewrite E in H. destruct Ht as [Ht Hu].
    destruct (fds_two d Hd) as (i & j & Hij & Hi & Hj & L1 & L2). step_cases H.
    unfold new_fd in *. rewrite L1 in *. simplify_option_eq. pose proof (L2 (Oread n)). simplify_option_eq.
    eapply (simulates_go _ (Some (Piped n))); [apply js_pipe|]. eapply sim_first; [by split|done|done|done|done|lia].
  - destruct (cmd_list b h fuel c t u Hr) as (l & r & Hlt & Hl & Hr' & E). rewrite E in H. destruct Ht as [Ht Hu]. step_cases H.
    rewrite (proj2 (Z.eqb_neq pid (-1))), (proj2 (Z.eqb_neq pid 0)) by lia.
    eapply simulates_go; [apply js_list|]. apply sim_wait; try done; [lia|]. apply sim_tree; try done. lia.
  - destruct (cmd_back b h fuel c t Hr) as (c' & Hlt & Hr' & E). rewrite E in H. step_cases H.
    rewrite (proj2 (Z.eqb_neq pid (-1))), (proj2 (Z.eqb_neq pid 0)) by lia.
    eapply simulates_go; [apply js_back|]. apply sim_bg; [done|]. apply sim_tree; try done. lia.
Qed.

Lemma open_simulates t f m x d c fuel :
  rep_at c t → tree_ok t → fds_ok d → (x < 3)%nat → (c < fuel)%nat →
  simulates (J_run (TRedir t f m (Z.of_nat x)) d) (Run (open_file b h fuel f m c) (<[x := None]> d) []).
Proof.
  intros Hr Ht Hd Hx Hc e P' H He. step_cases H.
  - unfold new_fd in *. rewrite (lowest_closed d x Hd Hx) in *. simplify_option_eq.
    match goal with |- context [Z.of_nat ?y <? 0] => rewrite (proj2 (Z.ltb_ge (Z.of_nat y) 0)) by lia end. eapply (simulates_go _ (Some (Opened f m))); [apply js_file|]. rewrite Nat2Z.id, list_insert_insert_eq.
    apply sim_tree; try done. by apply fds_ok_insert.
  - eapply simulates_go; [apply js_no_file|constructor].
Qed.

(** The only child of a process. *)
Lemma split_one {A} (x : A) l k r : [x] = l ++ k :: r → l = [] ∧ k = x ∧ r = [].
Proof. destruct l as [|y [|z l]]; intros [= ? ?]; by subst. Qed.
Lemma split_two {A} (x y : A) l k r : [x; y] = l ++ k :: r → (l = [] ∧ k = x ∧ r = [y]) ∨ (l = [x] ∧ k = y ∧ r = []).
Proof. destruct l as [|z [|z' [|z'' l]]]; intros E; injection E as; subst; auto; try done. Qed.

Lemma wait_simulates j u d r fuel K :
  rep_at r u → tree_ok u → fds_ok d → (r < fuel)%nat → unreaped K = 1%nat → sim j K → simulates j K →
  simulates (J_seq j u d) (Run (P_wait (runcmd fuel b h r)) d [K]).
Proof.
  intros Hr Hu Hd Hf HK Hs IH e P' H He. inversion H; subst.
  - match goal with E : _ ++ _ :: _ = [_] |- _ => symmetry in E; apply split_one in E as (-> & -> & ->) end.
    match goal with Hk : step K _ _ |- _ => destruct (IH _ _ Hk He) as (j' & Hj & Hs'); destruct (step_as_ended _ _ _ Hk) as [_ Hun] end.
    exists (J_seq j' u d). split; [by apply jrun_left|]. apply sim_wait; try done. congruence.
  - match goal with E : _ ++ _ :: _ = [_] |- _ => symmetry in E; apply split_one in E as (-> & <- & ->) end.
    eapply simulates_go; [apply js_next; by eapply sim_settled|].
    apply (sim_gone _ _ ks (Run (runcmd fuel b h r) d [])); [done|]. by apply sim_tree.
  - match goal with E : Forall gone [K] |- _ => apply Forall_cons in E as [E _] end. by destruct K.
Qed.

Lemma gone_simulates j1 j2 l P :
  sim j1 (Ended l) → simulates j1 (Ended l) → sim j2 P → simulates j2 P → simulates (J_par j1 j2) (cons_kid (Gone l) P).
Proof.
  intros H1 IH1 H2 IH2 e P' H He. apply step_cons_kid in H as [(l' & Hs & ->)|(P0 & Hs & ->)].
  - destruct (IH1 _ _ Hs He) as (j' & Hj & Hs'). exists (J_par j' j2). split; [by apply jrun_par1|by apply sim_gone].
  - destruct (IH2 _ _ Hs He) as (j' & Hj & Hs'). exists (J_par j1 j'). split; [by apply jrun_par2|by apply sim_gone].
Qed.

Lemma bg_simulates j d K :
  unreaped K = 1%nat → sim j K → simulates j K → simulates (J_bg j) (Run P_exit d [K]) ∧ simulates (J_bg j) (Ended [K]).
Proof.
  intros HK Hs IH. split; intros e P' H He; inversion H; subst;
    try (match goal with E : _ ++ _ :: _ = [_] |- _ => symmetry in E; apply split_one in E as (-> & -> & ->) end;
         match goal with Hk : step K _ _ |- _ => destruct (IH _ _ Hk He) as (j' & Hj & Hs'); destruct (step_as_ended _ _ _ Hk) as [_ Hun] end;
         exists (J_bg j'); split; [by apply jrun_bg|]).
  - apply sim_bg; [congruence|done].
  - apply simulates_stay. by apply sim_bg_end.
  - by apply sim_bg_end.
Qed.

Lemma first_simulates t u d n i j d2 l r fuel :
  piped d n i j d2 → rep_at l t → tree_ok t → rep_at r u → tree_ok u → (l < fuel ∧ r < fuel)%nat →
  simulates (J_par (J_run t (<[1%nat := Some (Owrite n)]> d)) (J_run u (<[0%nat := Some (Oread n)]> d)))
    (Run (first_fork b h fuel (Z.of_nat i) (Z.of_nat j) l r) d2 []).
Proof.
  intros Hp Hl Ht Hr Hu Hf e P' H He. unfold first_fork, fork1 in H. step_cases H.
  rewrite (proj2 (Z.eqb_neq pid (-1))), (proj2 (Z.eqb_neq pid 0)) by lia. apply simulates_stay.
  apply (sim_second _ u d n i j d2 r fuel); [done..|lia|done|]. apply (sim_writer t d n i j d2); try done. lia.
Qed.

Lemma second_simulates j1 u d n i j d2 r fuel K :
  piped d n i j d2 → rep_at r u → tree_ok u → (r < fuel)%nat → unreaped K = 1%nat → sim j1 K → simulates j1 K →
  simulates (J_par j1 (J_run u (<[0%nat := Some (Oread n)]> d))) (Run (second_fork b h fuel (Z.of_nat i) (Z.of_nat j) r) d2 [K]).
Proof.
  intros Hp Hr Hu Hf HK Hs IH e P' H He. unfold second_fork, fork1 in H. inversion H; subst; try done.
  - match goal with E : _ ++ _ :: _ = [_] |- _ => symmetry in E; apply split_one in E as (-> & -> & ->) end.
    match goal with Hk : step K _ _ |- _ => destruct (IH _ _ Hk He) as (j' & Hj & Hs'); destruct (step_as_ended _ _ _ Hk) as [_ Hun] end.
    exists (J_par j' (J_run u (<[0%nat:=Some (Oread n)]> d))). split; [by apply jrun_par1|].
    eapply (sim_second _ u d n i j); try done. congruence.
  - rewrite (proj2 (Z.eqb_neq pid (-1))), (proj2 (Z.eqb_neq pid 0)) by lia. apply simulates_stay.
    apply (sim_pipe 2); [repeat constructor|cbn; lia| |].
    + destruct K; [done|done|discriminate].
    + by apply (sim_reader u d n i j d2).
Qed.

Lemma unreaped_two K1 K2 m : S m = (unreaped K1 + unreaped K2)%nat → unreaped K1 = 1%nat ∨ unreaped K2 = 1%nat.
Proof. destruct K1, K2; cbn; intros; lia. Qed.

(** A child of a pipe goes on, whether it has been waited for or not. *)
Lemma kid_simulates j K e K' :
  simulates j (as_ended K) → step K e K' → e ≠ Some Refused →
  ∃ j', jrun j (seen e) j' ∧ sim j' (as_ended K') ∧ unreaped K' = unreaped K.
Proof.
  intros IH H He. destruct (step_as_ended _ _ _ H) as [Hs Hun]. destruct (IH _ _ Hs He) as (j' & Hj & Hs'). by exists j'.
Qed.

Lemma pipe_simulates m p d j1 j2 K1 K2 :
  waits m p → m = (unreaped K1 + unreaped K2)%nat →
  sim j1 (as_ended K1) → simulates j1 (as_ended K1) → sim j2 (as_ended K2) → simulates j2 (as_ended K2) →
  simulates (J_par j1 j2) (Run p d [K1; K2]).
Proof.
  intros Hw Hm H1 IH1 H2 IH2 e P' H He. inversion H; subst; try (by inversion Hw).
  - match goal with E : _ ++ _ :: _ = [_; _] |- _ => symmetry in E; apply split_two in E as [(-> & -> & ->)|(-> & -> & ->)] end;
      match goal with Hk : step _ _ _ |- _ => idtac end.
    + destruct (kid_simulates j1 K1 e k' IH1) as (j' & Hj & Hs' & Hun); [done..|].
      exists (J_par j' j2). split; [by apply jrun_par1|]. eapply sim_pipe; [exact Hw|by rewrite Hun|done|done].
    + destruct (kid_simulates j2 K2 e k' IH2) as (j' & Hj & Hs' & Hun); [done..|].
      exists (J_par j1 j'). split; [by apply jrun_par2|]. eapply sim_pipe; [exact Hw|cbn; by rewrite Hun|done|done].
  - inversion Hw as [E| |]; subst. destruct K1 as [| |l1], K2 as [| |l2]; cbn in *; try lia.
    apply simulates_stay. by apply sim_pipe_end.
  - inversion Hw; subst. apply simulates_stay. by eapply sim_pipe.
  - inversion Hw; subst. match goal with E : _ ++ Ended _ :: _ = [_; _] |- _ => symmetry in E; apply split_two in E as [(-> & <- & ->)|(-> & <- & ->)] end;
      apply simulates_stay; (eapply sim_pipe; [eassumption|cbn in *; lia|done|done]).
  - match goal with E : Forall gone [K1; K2] |- _ => apply Forall_cons in E as [G1 [G2 _]%Forall_cons] end.
    inversion Hw; subst. destruct K1, K2; cbn in *; try done.
Qed.

Lemma pipe_end_simulates j1 j2 l1 l2 :
  sim j1 (Ended l1) → simulates j1 (Ended l1) → sim j2 (Ended l2) → simulates j2 (Ended l2) →
  simulates (J_par j1 j2) (Ended [Gone l1; Gone l2]).
Proof.
  intros H1 IH1 H2 IH2 e P' H He. inversion H; subst.
  match goal with E : _ ++ _ :: _ = [_; _] |- _ => symmetry in E; apply split_two in E as [(-> & -> & ->)|(-> & -> & ->)] end.
  - destruct (kid_simulates j1 (Gone l1) e k' IH1) as (j' & Hj & Hs' & Hun); [done..|]. destruct k' as [| |l']; try discriminate.
    exists (J_par j' j2). split; [by apply jrun_par1|by apply sim_pipe_end].
  - destruct (kid_simulates j2 (Gone l2) e k' IH2) as (j' & Hj & Hs' & Hun); [done..|]. destruct k' as [| |l']; try discriminate.
    exists (J_par j1 j'). split; [by apply jrun_par2|by apply sim_pipe_end].
Qed.

Lemma sim_simulates j P : sim j P → simulates j P.
Proof.
  induction 1.
  - destruct fuel as [|fuel]; [lia|]. by apply tree_simulates.
  - intros e P' Hs He. destruct p; try discriminate; cbn in *; simplify_eq; step_cases Hs; by apply simulates_stay.
  - intros e P' Hs He. step_cases Hs. apply simulates_stay. constructor.
  - intros e P' Hs He. step_cases Hs.
  - intros e P' Hs He. step_cases Hs. eapply (simulates_go _ (Some (Finished w))); constructor.
  - intros e P' Hs He. step_cases Hs. eapply (simulates_go _ (Some (Message f a))); constructor.
  - by apply open_simulates.
  - by apply wait_simulates.
  - by apply gone_simulates.
  - by apply bg_simulates.
  - intros e P' Hs He. inversion Hs; subst.
    match goal with E : _ ++ _ :: _ = [_] |- _ => symmetry in E; apply split_one in E as (-> & -> & ->) end.
    match goal with Hk : step K _ _ |- _ => destruct (IHsim _ _ Hk He) as (j' & Hj & Hs') end.
    exists (J_bg j'). split; [by apply jrun_bg|by apply sim_bg_end].
  - by eapply first_simulates.
  - by eapply second_simulates.
  - by eapply pipe_simulates.
  - by apply pipe_end_simulates.
Qed.
(** ** Progress *)

(** Some process can go on, and not only by a refusal. *)
Definition can_go (P : ps) : Prop := ∃ e P', step P e P' ∧ e ≠ Some Refused.

Lemma go_kid p d l k r : can_go k → can_go (Run p d (l ++ k :: r)).
Proof. intros (e & k' & Hs & He). exists e. eexists. split; [by apply st_kid|done]. Qed.
Lemma go_reap k d l ks r : can_go (Run (P_wait k) d (l ++ Ended ks :: r)).
Proof. exists None. eexists. split; [by apply st_wait|done]. Qed.
Lemma go_exit d ks : can_go (Run P_exit d ks).
Proof. exists None. eexists. split; [by apply st_exit|done]. Qed.
Lemma go_fork k d ks : can_go (Run (P_fork k) d ks).
Proof. exists None. eexists. split; [by apply (st_fork _ _ _ 1)|done]. Qed.

(** A parent that waits for a child at work goes on. *)
Lemma go_wait k d l K r :
  unreaped K = 1%nat → (∀ p d0 ks, K = Run p d0 ks → can_go K) → can_go (Run (P_wait k) d (l ++ K :: r)).
Proof. intros HK IH. destruct K as [p d0 ks|ks|ks]; [|apply go_reap|done]. apply go_kid. by eapply IH. Qed.

Lemma tree_goes t d c fuel ks :
  rep_at c t → tree_ok t → fds_ok d → (c < fuel)%nat → can_go (Run (runcmd fuel b h c) d ks).
Proof.
  intros Hr Ht Hd Hc. destruct fuel as [|fuel]; [lia|]. destruct t as [ws|t f m fd|t u|t u|t].
  - rewrite (cmd_exec b h fuel c ws Hr Ht). destruct ws; [apply go_exit|]. eexists _, _. split; [by constructor|done].
  - destruct (cmd_redir b h fuel c t f m fd Hr Ht) as (c' & _ & _ & ->). eexists _, _. split; [by constructor|done].
  - destruct (cmd_pipe b h fuel c t u Hr) as (l & r & _ & _ & _ & ->).
    destruct (fds_two d Hd) as (i & j & Hij & Hi & Hj & L1 & L2).
    exists (Some (Piped 0)). eexists. split; [|done]. eapply st_pipe; unfold new_fd; [by rewrite L1|by rewrite L2].
  - destruct (cmd_list b h fuel c t u Hr) as (l & r & _ & _ & _ & ->). apply go_fork.
  - destruct (cmd_back b h fuel c t Hr) as (c' & _ & _ & ->). apply go_fork.
Qed.

Lemma sim_goes j P : sim j P → ∀ p d ks, P = Run p d ks → can_go P.
Proof.
  induction 1; intros p0 d0 ks0 E; try done.
  - by eapply tree_goes.
  - destruct p; try done; cbn in *; simplify_eq; eexists _, _; (split; [by constructor|done]).
  - apply go_exit.
  - eexists _, _. split; [by constructor|done].
  - eexists _, _. split; [by constructor|done].
  - exists None. eexists. split; [by apply st_open_fails|done].
  - by apply (go_wait _ _ [] K []).
  - destruct P as [p d ks| |]; try done. destruct (IHsim2 _ _ _ eq_refl) as (e & P' & Hs & He).
    exists e. eexists. split; [by apply cons_kid_step|done].
  - apply go_exit.
  - apply go_fork.
  - apply go_fork.
  - match goal with Hw : waits _ _ |- _ => inversion Hw; subst end; [apply go_exit| |eexists _, _; split; [by constructor|done]].
    match goal with Hm : S _ = _ |- _ => destruct (unreaped_two _ _ _ Hm) as [HK|HK] end.
    + apply (go_wait _ _ [] K1 [K2]); [done|]. intros q1 d1 ks1 ->. by eapply IHsim1.
    + apply (go_wait _ _ [K1] K2 []); [done|]. intros q1 d1 ks1 ->. by eapply IHsim2.
Qed.
End Sim.

(** ** Every run is finite *)

Definition later (P' P : ps) : Prop := ∃ e, step P e P'.
(** One of the children goes on. *)
Definition kid_later (ks' ks : list ps) : Prop := ∃ l k k' r, ks = l ++ k :: r ∧ ks' = l ++ k' :: r ∧ later k' k.

Lemma kid_later_cons ks' k ks :
  kid_later ks' (k :: ks) → (∃ k', later k' k ∧ ks' = k' :: ks) ∨ (∃ ks0, kid_later ks0 ks ∧ ks' = k :: ks0).
Proof.
  intros (l & k0 & k' & r & E & -> & H). apply cons_split in E as [(-> & -> & ->)|(l' & -> & ->)].
  - left. by exists k'.
  - right. exists (l' ++ k' :: r). split; [|done]. by exists l', k0, k', r.
Qed.

Lemma kids_finite ks : Forall (Acc later) ks → Acc kid_later ks.
Proof.
  induction 1 as [|k ks Hk _ IH].
  - constructor. intros ks' (l & k & k' & r & E & _). by destruct l.
  - revert ks IH. induction Hk as [k _ IHk]. intros ks Hks. induction Hks as [ks Hks IHks].
    constructor. intros ks' [(k' & H & ->)|(ks0 & H & ->)]%kid_later_cons; [|by apply IHks]. apply IHk; [done|by constructor].
Qed.

Lemma kid_later_finite ks' ks : kid_later ks' ks → Forall (Acc later) ks → Forall (Acc later) ks'.
Proof.
  intros (l & k & k' & r & -> & -> & H) Hks. apply Forall_app in Hks as [Hl [Hk Hr]%Forall_cons].
  apply Forall_app. split; [done|]. constructor; [by apply Hk|done].
Qed.

Lemma kid_later_at l k r e k' : step k e k' → kid_later (l ++ k' :: r) (l ++ k :: r).
Proof. intros H. exists l, k, k', r. split_and!; [done..|by exists e]. Qed.
#[local] Hint Resolve kid_later_at : core.

Lemma ended_finite ks : Acc kid_later ks → Acc later (Ended ks) ∧ Acc later (Gone ks).
Proof.
  induction 1 as [ks _ IH]. split; constructor; intros P' [e H]; inversion H; subst; (edestruct IH; [eauto|done]).
Qed.

(** The children of a process that has ended still end. *)
Lemma gone_finite ks : Acc later (Ended ks) → Acc later (Gone ks).
Proof.
  intros H. remember (Ended ks) as P eqn:E. revert ks E. induction H as [P _ IH]. intros ks ->.
  constructor. intros P' [e H]. apply step_gone in H as (ks' & -> & H). by apply (IH (Ended ks')); [exists e|].
Qed.

Definition prog_finite (p : prog) : Prop := ∀ d ks, Forall (Acc later) ks → Acc later (Run p d ks).

(** It is enough that the process's own steps lead to finite runs. *)
Lemma own_finite p :
  (∀ d ks e P', Forall (Acc later) ks → step (Run p d ks) e P' → (∃ ks', kid_later ks' ks ∧ P' = Run p d ks') ∨ Acc later P') →
  prog_finite p.
Proof.
  intros H d ks Hks. pose proof (kids_finite ks Hks) as Ha. induction Ha as [ks _ IH]. constructor. intros P' [e Hs].
  destruct (H d ks e P' Hks Hs) as [(ks' & Hk & ->)|HP]; [|done]. apply IH; [done|]. by eapply kid_later_finite.
Qed.

Lemma reap_finite l ks r : Forall (Acc later) (l ++ Ended ks :: r) → Forall (Acc later) (l ++ Gone ks :: r).
Proof. rewrite !Forall_app, !Forall_cons. intros (Hl & Hk & Hr). split_and!; [done|by apply gone_finite|done]. Qed.

Lemma program_finite path : prog_finite (P_run path).
Proof.
  apply own_finite. intros d ks e P' Hks Hs. inversion Hs; subst.
  - left. eexists. split; [by eapply kid_later_at|done].
  - right. by apply ended_finite, kids_finite.
Qed.

Lemma run_finite p : prog_finite p.
Proof.
  induction p; apply own_finite; intros d ks e P' Hks Hs; inversion Hs; subst;
    try (left; eexists; split; [by eapply kid_later_at|done]); right;
    try (apply ended_finite, kids_finite; exact Hks);
    try (match goal with IH : prog_finite _ |- _ => apply IH; first [exact Hks|by apply reap_finite] end);
    try (match goal with IH : ∀ _, prog_finite _ |- _ => apply IH; first [exact Hks|by apply reap_finite] end).
  - by apply program_finite.
  - match goal with IH : ∀ _, prog_finite _ |- _ => apply IH, Forall_app; split; [done|]; constructor; [by apply IH|done] end.
Qed.

(** ** The descriptors of the programs *)

(** The same apart from the standard input and output. *)
Definition same_above (d d' : fdt) : Prop := ∀ i, (2 ≤ i)%nat → d' !! i = d !! i.
Fixpoint job_fds (d : fdt) (j : job) : Prop :=
  match j with
  | J_run t d' => tree_ok t ∧ same_above d d'
  | J_seq j t d' => job_fds d j ∧ tree_ok t ∧ same_above d d'
  | J_par j1 j2 => job_fds d j1 ∧ job_fds d j2
  | J_bg j => job_fds d j
  | _ => True
  end.

Lemma same_above_insert d d' x o : same_above d d' → (x < 2)%nat → same_above d (<[x := o]> d').
Proof. intros H Hx i Hi. rewrite list_lookup_insert_ne by lia. by apply H. Qed.

Lemma jstep_fds d j e j' :
  jstep j e j' → job_fds d j → job_fds d j' ∧ ∀ path argv d', e = Some (Started path argv d') → same_above d d'.
Proof.
  induction 1; cbn [job_fds tree_ok]; intros Hj; destruct_and?; split; try done; try tauto.
  - by intros ? ? ? [= _ _ <-].
  - split; [done|]. apply same_above_insert; [done|]. destruct_or?; subst; lia.
  - repeat split; try done; (apply same_above_insert; [done|lia]).
Qed.

Lemma jrun_fds d j tr j' :
  jrun j tr j' → job_fds d j → ∀ path argv d', Started path argv d' ∈ tr → same_above d d'.
Proof.
  induction 1 as [|j e j1 tr j2 Hs _ IH]; intros Hj path argv d'; [by intros ?%elem_of_nil|].
  destruct (jstep_fds d j e j1 Hs Hj) as [Hj1 He]. intros [Hin|Hin]%elem_of_app; [|by eapply IH].
  destruct e as [e|]; cbn in Hin; [|by apply elem_of_nil in Hin]. apply list_elem_of_singleton in Hin as <-. by eapply He.
Qed.

(** ** The shell waits for its child *)

Lemma sim_run b h P tr P' : srun P tr P' → ∀ j, sim b h j P → Refused ∉ tr → ∃ j', jrun j tr j' ∧ sim b h j' P'.
Proof.
  induction 1 as [P|P e P1 tr P2 Hs _ IH]; intros j Hj Hr; [exists j; split; [constructor|done]|].
  apply not_elem_of_app in Hr as [He Hr]. destruct (sim_simulates b h j P Hj e P1 Hs) as (j1 & Hj1 & Hs1).
  { intros ->. apply He. by left. }
  destruct (IH j1 Hs1 Hr) as (j' & Hj' & Hs'). exists j'. split; [by eapply jrun_app|done].
Qed.

Lemma gone_run P tr P' : srun P tr P' → ∀ l, P = Gone l → ∃ l', P' = Gone l' ∧ srun (Ended l) tr (Ended l').
Proof.
  induction 1 as [P|P e P1 tr P2 Hs _ IH]; intros l ->; [exists l; split; [done|constructor]|].
  apply step_gone in Hs as (l1 & -> & Hs). destruct (IH l1 eq_refl) as (l' & -> & Hl).
  exists l'. split; [done|]. by eapply sr_step.
Qed.

(** The shell has gone on after [tr], with [l] left of its child: the
    foreground has ended, and what [l] still does is what the tree leaves in
    the background. *)
Definition resumed (t : tree) (d : fdt) (tr : list event) (l : list ps) : Prop :=
  ∃ j, jrun (J_run t d) tr j ∧ settled j = true ∧
    ∀ tr' P, srun (Gone l) tr' P → Refused ∉ tr' → ∃ j', jrun j tr' j'.

(** The shell is about to fork, or waits while its child has done [tr]; some
    process can go on. *)
Definition at_work (start : ps) (t : tree) (d : fdt) (next : prog) (tr : list event) (S : ps) : Prop :=
  ((S = start ∧ tr = []) ∨ ∃ P j, S = Run (P_wait next) d [P] ∧ jrun (J_run t d) tr j) ∧ can_go S.

Lemma shell_waits b h t d next P0 tr S :
  srun P0 tr S → ∀ P j tr0, P0 = Run (P_wait next) d [P] → unreaped P = 1%nat → jrun (J_run t d) tr0 j → sim b h j P → Refused ∉ tr →
  (∃ P' j', S = Run (P_wait next) d [P'] ∧ unreaped P' = 1%nat ∧ jrun (J_run t d) (tr0 ++ tr) j' ∧ sim b h j' P') ∨
  ∃ tr1 tr2 l, tr = tr1 ++ tr2 ∧ srun P0 tr1 (Run next d [Gone l]) ∧ resumed t d (tr0 ++ tr1) l ∧ srun (Run next d [Gone l]) tr2 S.
Proof.
  induction 1 as [P0|P0 e P1 tr P2 Hs Hrun IH]; intros P j tr0 -> HP Hj Hsim Hr.
  - left. exists P, j. by rewrite app_nil_r.
  - apply not_elem_of_app in Hr as [He Hr]. inversion Hs; subst.
    + match goal with E : _ ++ _ :: _ = [_] |- _ => symmetry in E; apply split_one in E as (-> & -> & ->) end.
      match goal with Hk : step P _ _ |- _ => destruct (step_as_ended _ _ _ Hk) as [_ Hun]; destruct (sim_simulates b h j P Hsim _ _ Hk) as (j1 & Hj1 & Hs1) end.
      { intros ->. apply He. by left. }
      destruct (IH k' j1 (tr0 ++ seen e) eq_refl ltac:(congruence) ltac:(by eapply jrun_app) Hs1 Hr) as [(P' & j' & -> & H1 & H2 & H3)|(tr1 & tr2 & l & -> & H1 & H2 & H3)].
      * left. exists P', j'. by rewrite app_assoc.
      * right. exists (seen e ++ tr1), tr2, l. rewrite <- app_assoc. split_and!; [done| |by rewrite app_assoc|done]. by eapply sr_step.
    + match goal with E : _ ++ _ :: _ = [_] |- _ => symmetry in E; apply split_one in E as (-> & <- & ->) end.
      right. exists [], tr, ks. split_and!; [done|eapply (sr_step _ None); [exact Hs|constructor]| |done].
      rewrite app_nil_r. exists j. split_and!; [done|by eapply sim_settled|]. intros tr' P Hg Hr'. destruct (gone_run _ _ _ Hg ks eq_refl) as (l' & -> & Hl).
      destruct (sim_run b h _ _ _ Hl j Hsim Hr') as (j' & Hj' & _). by exists j'.
    + match goal with E : Forall gone [P] |- _ => apply Forall_cons in E as [E _] end. by destruct P.
Qed.

Lemma turn_forks b next :
  (3 ≤ length b)%nat → take 3 b ≠ [99; 100; 32] → main_turn b next = fork1 (λ pid, if pid =? 0 then run_line b else P_wait next).
Proof.
  destruct b as [|c0 [|c1 [|c2 b]]]; cbn [length]; [lia..|]. intros _ Hcd. cbn [main_turn lookup list_lookup given].
  destruct (Z.eqb_spec c0 99) as [->|]; [|done]. destruct (Z.eqb_spec c1 100) as [->|]; [|done].
  destruct (Z.eqb_spec c2 32) as [->|]; [|done]. done.
Qed.

Lemma line_parsed b p sh :
  parsecmd 0 (mkSh b 0 []) = Ok (p, sh) → run_line b = runcmd (S p) (sbuf sh) (sheap sh) p.
Proof. intros E. unfold run_line. by rewrite E. Qed.

(** The fork of [main]. *)
Lemma turn_step child next d e P :
  step (Run (fork1 (λ pid, if pid =? 0 then child else P_wait next)) d []) e P → e ≠ Some Refused →
  e = None ∧ P = Run (P_wait next) d [Run child d []].
Proof.
  intros Hs He. unfold fork1 in Hs. step_cases Hs.
  by rewrite (proj2 (Z.eqb_neq pid (-1))), (proj2 (Z.eqb_neq pid 0)) by lia.
Qed.


(** ** Runs on a schedule

    A schedule says which process goes on, by its place in the family, and
    whether its call succeeds. *)

Fixpoint reap (ks : list ps) : option (list ps) :=
  match ks with
  | [] => None
  | Ended l :: ks => Some (Gone l :: ks)
  | K :: ks => cons K <$> reap ks
  end.
Definition own_step (ok : bool) (p : prog) (d : fdt) (ks : list ps) : option (option event * ps) :=
  match p with
  | P_exit => Some (None, Ended ks)
  | P_stuck => None
  | P_run path => Some (Some (Finished path), Ended ks)
  | P_print f a k => Some (Some (Message f a), Run k d ks)
  | P_exec path argv k => Some (if ok then (Some (Started path argv d), Run (P_run path) d ks) else (None, Run k d ks))
  | P_open name mode k =>
      if ok then '(i, d') ← new_fd (Ofile name mode) d; Some (Some (Opened name mode), Run (k (Z.of_nat i)) d' ks)
      else Some (None, Run (k (-1)) d ks)
  | P_close fd k => Some (None, Run k (close_fd fd d) ks)
  | P_dup fd k => Some (None, Run k (dup_fd fd d) ks)
  | P_pipe k =>
      if ok then '(i, d1) ← new_fd (Oread 0) d; '(j, d2) ← new_fd (Owrite 0) d1;
        Some (Some (Piped 0), Run (k (Some (Z.of_nat i, Z.of_nat j))) d2 ks)
      else Some (Some Refused, Run (k None) d ks)
  | P_fork k => Some (if ok then (None, Run (k 1) d (ks ++ [Run (k 0) d []])) else (Some Refused, Run (k (-1)) d ks))
  | P_wait k =>
      match reap ks with
      | Some ks' => Some (None, Run k d ks')
      | None => if forallb (λ K, Nat.eqb (unreaped K) 0) ks then Some (None, Run k d ks) else None
      end
  | P_chdir dir k => Some (None, Run (k (if ok then 0 else -1)) d ks)
  end.

Fixpoint act (place : list nat) (ok : bool) (P : ps) : option (option event * ps) :=
  match place with
  | [] => match P with Run p d ks => own_step ok p d ks | _ => None end
  | i :: place =>
      let '(ks, whole) := match P with Run p d ks => (ks, Run p d) | Ended ks => (ks, Ended) | Gone ks => (ks, Gone) end in
      k ← ks !! i; '(e, k') ← act place ok k; Some (e, whole (<[i := k']> ks))
  end.
Fixpoint go (sched : list (list nat * bool)) (P : ps) : option (list event * ps) :=
  match sched with
  | [] => Some ([], P)
  | (place, ok) :: sched => '(e, P1) ← act place ok P; '(tr, P2) ← go sched P1; Some (seen e ++ tr, P2)
  end.

Lemma reap_ok ks : ∀ ks', reap ks = Some ks' → ∃ l x r, ks = l ++ Ended x :: r ∧ ks' = l ++ Gone x :: r.
Proof.
  induction ks as [|K ks IH]; intros ks' E; [done|]. destruct K as [p d l|l|l]; cbn [reap] in E.
  2: { injection E as <-. by exists [], l, ks. }
  all: destruct (reap ks) as [ks0|]; [|done]; injection E as <-; destruct (IH ks0 eq_refl) as (l0 & x & r & -> & ->).
  - by exists (Run p d l :: l0), x, r.
  - by exists (Gone l :: l0), x, r.
Qed.

Lemma own_wait_ok ok k d ks e P : own_step ok (P_wait k) d ks = Some (e, P) → step (Run (P_wait k) d ks) e P.
Proof.
  cbn [own_step]. destruct (reap ks) as [ks'|] eqn:E.
  - intros [= <- <-]. destruct (reap_ok ks ks' E) as (l & x & r & -> & ->). apply st_wait.
  - destruct (forallb _ ks) eqn:Eg; [|done]. intros [= <- <-]. apply st_wait_none, Forall_forall. intros K HK.
    rewrite forallb_forall in Eg. apply list_elem_of_In in HK. apply Eg in HK. by destruct K.
Qed.

Lemma own_step_ok ok p d ks e P : own_step ok p d ks = Some (e, P) → step (Run p d ks) e P.
Proof.
  destruct p; try apply own_wait_ok; cbn [own_step]; intros E; try (injection E as <- <-; by constructor).
  - done.
  - destruct ok; injection E as <- <-; by constructor.
  - destruct ok; [|injection E as <- <-; by constructor].
    destruct (new_fd _ d) as [[i d']|] eqn:Ei; [|done]. injection E as <- <-. by constructor.
  - destruct ok; [|injection E as <- <-; by constructor].
    destruct (new_fd _ d) as [[i d1]|] eqn:Ei; [|done]. cbn in E. destruct (new_fd _ d1) as [[j d2]|] eqn:Ej; [|done].
    injection E as <- <-. by econstructor.
  - destruct ok; injection E as <- <-; by constructor.
  - injection E as <- <-. constructor. destruct ok; auto.
Qed.

Lemma act_ok place : ∀ ok P e P', act place ok P = Some (e, P') → step P e P'.
Proof.
  induction place as [|i place IH]; intros ok P e P' E; cbn [act] in E.
  - destruct P; [by eapply own_step_ok|done..].
  - destruct P as [p d ks|ks|ks]; (destruct (ks !! i) as [k|] eqn:Hi; [|done]); cbn in E;
      (destruct (act place ok k) as [[e0 k']|] eqn:Ea; [|done]); injection E as <- <-;
      apply IH in Ea; rewrite <- (take_drop_middle ks i k Hi) at 1;
      rewrite insert_take_drop by (by eapply lookup_lt_Some); by constructor.
Qed.

Lemma go_ok sched : ∀ P tr P', go sched P = Some (tr, P') → srun P tr P'.
Proof.
  induction sched as [|[place ok] sched IH]; intros P tr P' E; cbn [go] in E; [injection E as <- <-; constructor|].
  destruct (act place ok P) as [[e P1]|] eqn:Ea; [|done]. cbn in E. destruct (go sched P1) as [[tr1 P2]|] eqn:Eg; [|done].
  injection E as <- <-. econstructor; [by eapply act_ok|by apply IH].
Qed.

(** ** An instance: ["cat <f | wc >g"] *)

Definition demo_buf : bytes := [99; 97; 116; 32; 60; 102; 32; 124; 32; 119; 99; 32; 62; 103; 10; 0].
Definition demo_tree : tree :=
  TPipe (TRedir (TExec [[99; 97; 116]]) [102] O_RDONLY 0) (TRedir (TExec [[119; 99]]) [103] 513 1).
Definition demo_sh : shst :=
  match parsecmd 0 (mkSh demo_buf 0 []) with Ok (_, sh) => sh | _ => mkSh [] 0 [] end.
Definition demo_fds : fdt := [Some (Oinit 0); Some (Oinit 0); Some (Oinit 0)] ++ replicate 13 None.

Lemma demo_cstr w q : take (S (length w)) (drop q (sbuf demo_sh)) = w ++ [0] → cstr (sbuf demo_sh) w q (q + length w).
Proof.
  intros E. split; [done|]. exists (drop (S (length w)) (drop q (sbuf demo_sh))).
  rewrite <- (take_drop (S (length w)) (drop q (sbuf demo_sh))) at 1. by rewrite E, <- app_assoc.
Qed.

Lemma demo_rep : rep (cstr (sbuf demo_sh)) (sheap demo_sh) 4 demo_tree.
Proof.
  assert (∀ w q, cstr (sbuf demo_sh) w q (q + length w) → Forall3 (cstr (sbuf demo_sh)) [w] [q] [(q + length w)%nat]) as H3.
  { intros w q H. constructor; [exact H|constructor]. }
  exists 1%nat, 3%nat. split; [vm_compute; reflexivity|]. split; [lia|]. split.
  - exists 0%nat, 5%nat, 6%nat. split; [vm_compute; reflexivity|]. split; [lia|]. split.
    + exists [0%nat], [3%nat]. split; [vm_compute; reflexivity|]. split; [cbn; unfold MAXARGS; lia|].
      apply H3, (demo_cstr [99; 97; 116] 0). vm_compute. reflexivity.
    + apply (demo_cstr [102] 5). vm_compute. reflexivity.
  - exists 2%nat, 13%nat, 14%nat. split; [vm_compute; reflexivity|]. split; [lia|]. split.
    + exists [9%nat], [11%nat]. split; [vm_compute; reflexivity|]. split; [cbn; unfold MAXARGS; lia|].
      apply H3, (demo_cstr [119; 99] 9). vm_compute. reflexivity.
    + apply (demo_cstr [103] 13). vm_compute. reflexivity.
Qed.

Lemma demo_tree_ok : tree_ok demo_tree.
Proof.
  assert (∀ l : bytes, forallb (λ c, negb (c =? 0)) l = true → 0 ∉ l) as H.
  { intros l Hl Hin. rewrite forallb_forall in Hl. apply list_elem_of_In in Hin. by apply Hl in Hin. }
  cbn. split_and!; [constructor; [by apply H|constructor]|by apply H|by left|constructor; [by apply H|constructor]|by apply H|by right].
Qed.

Lemma demo_fds_ok : fds_ok demo_fds.
Proof.
  split; [|by exists 3%nat, 4%nat; split; [lia|]]. intros i Hi. exists (Oinit 0).
  destruct i as [|[|[|i]]]; [reflexivity..|lia].
Qed.

(** Both sides are started, [wc] ends before [cat], and the shell goes on. *)
Definition demo_start : ps := Run (main_turn demo_buf P_exit) demo_fds [].
Definition demo_schedule : list (list nat * bool) :=
  let turns (n : nat) (place : list nat) := replicate n (place, true) in
  (turns 1 [] ++ turns 3 [0] ++ turns 7 [0; 0] ++ turns 8 [0; 1] ++ turns 3 [0] ++ turns 1 [0; 0] ++ turns 2 [0] ++ turns 1 [])%nat.
Definition demo_events : list event :=
  [Piped 0; Opened [102] 0;
   Started [99; 97; 116] [[99; 97; 116]] (<[0%nat := Some (Ofile [102] 0)]> (<[1%nat := Some (Owrite 0)]> demo_fds));
   Opened [103] 513;
   Started [119; 99] [[119; 99]] (<[1%nat := Some (Ofile [103] 513)]> (<[0%nat := Some (Oread 0)]> demo_fds));
   Finished [119; 99]; Finished [99; 97; 116]].

Lemma demo_run : srun demo_start demo_events (Run P_exit demo_fds [Gone [Gone []; Gone []]]).
Proof. apply (go_ok demo_schedule). vm_compute. reflexivity. Qed.

