(* ===== verification/Syscall.v ===== *)
(** * System call arguments (syscall.c)

    The kernel reads the arguments of a system call from the stack of the
    process, in its address space.  The memory of the process is the bytes at
    the addresses from 0 to its size; an access beyond is a page fault.  The
    theorem of this file: the arguments stay inside the process. *)

From S2P Require Export File.
Local Open Scope Z_scope.

(** The process that makes the call: its size, the stack pointer and [eax] of
    its trap frame, its memory and its open files, over the files. *)
Record scall (S : Type) := mkSc { sfl : fls S; usz : Z; uesp : Z; ueax : Z; umem : bytes; ofile : list (option nat) }.
Arguments mkSc {S}.
Arguments sfl {S}.
Arguments usz {S}.
Arguments uesp {S}.
Arguments ueax {S}.
Arguments umem {S}.
Arguments ofile {S}.

Section Syscall.
Context {S : Type}.

Definition set_sfl (x : fls S) (s : scall S) : scall S := mkSc x (usz s) (uesp s) (ueax s) (umem s) (ofile s).
Definition set_ueax (v : Z) (s : scall S) : scall S := mkSc (sfl s) (usz s) (uesp s) v (umem s) (ofile s).
Definition set_umem (m : bytes) (s : scall S) : scall S := mkSc (sfl s) (usz s) (uesp s) (ueax s) m (ofile s).
Definition set_ofile (l : list (option nat)) (s : scall S) : scall S := mkSc (sfl s) (usz s) (uesp s) (ueax s) (umem s) l.

(** [n] bytes of the process's memory at [a], and [b] stored there. *)
Definition uread (a : Z) (n : nat) : M (scall S) bytes :=
  deref (λ s, if bool_decide (0 ≤ a ∧ a + Z.of_nat n ≤ Z.of_nat (length (umem s))) then Some (take n (drop (Z.to_nat a) (umem s))) else None).
Definition uwrite (a : Z) (b : bytes) : M (scall S) unit :=
  uread a (length b) ;; modify (λ s, set_umem (splice (umem s) (Z.to_nat a) b) s).

(** A call that fails returns -1: [None]. *)
Definition fetchint (addr : Z) : M (scall S) (option Z) :=
  sz ← gets usz;
  if (addr >=? sz) || (u32 (addr + 4) >? sz) then mret None
  else b ← uread addr 4; mret (Some (i32 (le_combine b))).

Fixpoint fetchstr_loop (n : nat) (p s : Z) : M (scall S) (option (Z * Z)) :=
  match n with
  | O => mret None
  | Datatypes.S n =>
      c ← uread s 1;
      if le_combine c =? 0 then mret (Some (p, s - p)) else fetchstr_loop n p (s + 1)
  end.
(** The address of the string, and its length. *)
Definition fetchstr (addr : Z) : M (scall S) (option (Z * Z)) :=
  sz ← gets usz;
  if addr >=? sz then mret None
  else fetchstr_loop (Z.to_nat (sz - addr)) addr addr.

Definition argint (n : Z) : M (scall S) (option Z) :=
  esp ← gets uesp;
  fetchint (u32 (esp + 4 + 4 * n)).

Definition argptr (n size : Z) : M (scall S) (option Z) :=
  r ← argint n;
  match r with
  | None => mret None
  | Some i =>
      sz ← gets usz;
      if (size <? 0) || (u32 i >=? sz) || (u32 (u32 i + size) >? sz) then mret None
      else mret (Some (u32 i))
  end.

Definition argstr (n : Z) : M (scall S) (option (Z * Z)) :=
  r ← argint n;
  match r with
  | None => mret None
  | Some addr => fetchstr (u32 addr)
  end.

(** [syscall]: the table [syscalls], from 0 on, [None] where it is null. *)
Definition syscall (syscalls : list (option (M (scall S) Z))) : M (scall S) unit :=
  num ← gets (λ s, i32 (ueax s));
  if (num >? 0) && (num <? Z.of_nat (length syscalls)) then
    match syscalls !! Z.to_nat num with
    | Some (Some f) => r ← f; modify (set_ueax (u32 r))
    | _ => modify (set_ueax (u32 (-1)))
    end
  else modify (set_ueax (u32 (-1))).
End Syscall.

(** ** Arguments stay inside the process *)

(** All of the process's memory is there, below the kernel. *)
Record mapped {S} (s : scall S) : Prop := {
  mp_len : Z.of_nat (length (umem s)) = usz s;
  mp_max : usz s ≤ 2147483648;
  mp_bytes : is_bytes (umem s)
}.

Section Rules.
Context {S : Type} (t : bool).
Implicit Types (s : scall S).

Lemma wpg_uread s a n (Q : bytes → scall S → Prop) :
  0 ≤ a → a + Z.of_nat n ≤ Z.of_nat (length (umem s)) → Q (take n (drop (Z.to_nat a) (umem s))) s → wpg t (uread a n) Q s.
Proof. intros Ha Hn HQ. eapply wpg_deref; [|exact HQ]. by rewrite bool_decide_true. Qed.

Lemma wpg_fetchint s addr (Q : option Z → scall S → Prop) :
  mapped s → 0 ≤ addr < 2 ^ 32 →
  Q (if bool_decide (addr + 4 ≤ usz s) then Some (i32 (get32 (umem s) (Z.to_nat addr))) else None) s →
  wpg t (fetchint addr) Q s.
Proof.
  intros [Hl Hm Hb] Ha HQ. apply wpg_bind, wpg_gets. destruct ((addr >=? usz s) || (u32 (addr + 4) >? usz s)) eqn:E.
  - apply wpg_ret. rewrite bool_decide_false in HQ; [done|]. intros H. rewrite u32_id in E by lia. lia.
  - apply orb_false_iff in E as [E1 E2]. rewrite u32_id in E2 by lia. rewrite bool_decide_true in HQ by lia.
    apply wpg_bind, wpg_uread; [lia|lia|]. by apply wpg_ret.
Qed.

(** The string that starts at [p], as far as [a]. *)
Lemma wpg_fetchstr_loop p n : ∀ a s (Q : option (Z * Z) → scall S → Prop),
  mapped s → 0 ≤ a → a + Z.of_nat n = usz s →
  (∀ e, a ≤ e < usz s → umem s !! Z.to_nat e = Some 0 → (∀ i, a ≤ i < e → umem s !! Z.to_nat i ≠ Some 0) → Q (Some (p, e - p)) s) →
  ((∀ i, a ≤ i < usz s → umem s !! Z.to_nat i ≠ Some 0) → Q None s) →
  wpg t (fetchstr_loop n p a) Q s.
Proof.
  induction n as [|n IH]; intros a s Q Hs Ha Hn Hfound Hnone; cbn [fetchstr_loop].
  - apply wpg_ret, Hnone. lia.
  - pose proof Hs as [Hl _ Hb]. apply wpg_bind, wpg_uread; [lia|lia|].
    destruct (lookup_lt_is_Some_2 (umem s) (Z.to_nat a)) as [c Hc]; [lia|].
    rewrite (drop_S _ _ _ Hc). cbn [take le_combine]. rewrite Z.mul_0_r, Z.add_0_r. destruct (Z.eqb_spec c 0) as [->|Hne].
    + apply wpg_ret, Hfound; [lia|done|lia].
    + apply IH; [done|lia|lia| |].
      * intros e He Hz Hall. apply Hfound; [lia|done|]. intros i Hi. destruct (decide (i = a)) as [->|]; [congruence|apply Hall; lia].
      * intros Hall. apply Hnone. intros i Hi. destruct (decide (i = a)) as [->|]; [congruence|apply Hall; lia].
Qed.
End Rules.

(** C35. A system call reads its arguments inside the memory of the process:
    whatever the stack pointer and the words on the stack, [argint] returns the
    word exactly when it lies below the process's size, [argptr] accepts a
    pointer exactly when the block lies in the process, and [argstr] accepts
    one exactly when a NUL follows in the process, whose first occurrence ends
    the string; none of them faults or changes anything. *)
Theorem syscall_args_in_process {S} (s : scall S) :
  mapped s →
  let word n := let a := u32 (uesp s + 4 + 4 * n) in
                if bool_decide (a + 4 ≤ usz s) then Some (i32 (get32 (umem s) (Z.to_nat a))) else None in
  (∀ n, argint n s = Ok (word n, s)) ∧
  (∀ n size, size < 2 ^ 31 →
   argptr n size s = Ok (match word n with
                         | Some i => if bool_decide (0 ≤ size ∧ u32 i < usz s ∧ u32 i + size ≤ usz s) then Some (u32 i) else None
                         | None => None
                         end, s)) ∧
  (∀ n, ∃ r, argstr n s = Ok (r, s) ∧
   match r with
   | Some (p, len) => (∃ i, word n = Some i ∧ p = u32 i) ∧ 0 ≤ p ∧ 0 ≤ len ∧ p + len < usz s ∧
                      umem s !! Z.to_nat (p + len) = Some 0 ∧ ∀ i, p ≤ i < p + len → umem s !! Z.to_nat i ≠ Some 0
   | None => ∀ i, word n = Some i → ∀ a, u32 i ≤ a < usz s → umem s !! Z.to_nat a ≠ Some 0
   end).
Proof.
  intros Hs word. pose proof Hs as [Hl Hm Hb].
  assert (∀ t n (Q : option Z → scall S → Prop), Q (word n) s → wpg t (argint n) Q s) as Hint.
  { intros t n Q HQ. apply wpg_bind, wpg_gets, wpg_fetchint; [done|apply u32_range|done]. }
  split_and!.
  - intros n. destruct (wp_ok (argint n) (λ r s', r = word n ∧ s' = s) s) as (r & s' & E & -> & ->); [by apply Hint|done].
  - intros n size Hsz. destruct (wp_ok (argptr n size) (λ r s', r = match word n with
      | Some i => if bool_decide (0 ≤ size ∧ u32 i < usz s ∧ u32 i + size ≤ usz s) then Some (u32 i) else None | None => None end ∧ s' = s) s)
      as (r & s' & E & -> & ->); [|done].
    apply wpg_bind, Hint. destruct (word n) as [i|]; [|by apply wpg_ret]. apply wpg_bind, wpg_gets. pose proof (u32_range i) as Hi.
    destruct ((size <? 0) || (u32 i >=? usz s) || (u32 (u32 i + size) >? usz s)) eqn:Eb; apply wpg_ret; (split; [|done]).
    + rewrite bool_decide_false; [done|]. intros (H1 & H2 & H3). rewrite (u32_id (u32 i + size)) in Eb by lia. lia.
    + apply orb_false_iff in Eb as [Eb E3]. apply orb_false_iff in Eb as [E1 E2]. rewrite (u32_id (u32 i + size)) in E3 by lia.
      by rewrite bool_decide_true by lia.
  - intros n. lazymatch goal with |- ∃ r, _ ∧ @?R r =>
      destruct (wp_ok (argstr n) (λ r s', s' = s ∧ R r) s) as (r & s' & E & -> & HR); [|by exists r] end. cbv beta.
    apply wpg_bind, Hint. destruct (word n) as [i|]; [|by apply wpg_ret]. apply wpg_bind, wpg_gets. pose proof (u32_range i) as Hi.
    destruct (u32 i >=? usz s) eqn:Ege.
    + apply wpg_ret. split; [done|]. intros ? [= <-] a Ha. lia.
    + apply wpg_fetchstr_loop; [done|lia|lia| |].
      * intros e He Hz Hall. split; [done|]. split; [by exists i|]. replace (u32 i + (e - u32 i)) with e by lia. split_and!; try lia; done.
      * intros Hall. split; [done|]. intros ? [= <-]. exact Hall.
Qed.

(** Sixteen bytes of memory; the stack pointer is at 0, and the argument is a
    pointer to the string ["a"] at 12. *)
Definition demo_call : scall unit :=
  mkSc (mkFls (mkFst tt (mkCtx [] ∅ 1 0 []) (mkSb 0 0 0 0 0 0 0) [] 0) [] ∅ (mkCtx [] ∅ 1 0 []))
    16 0 0 [0; 0; 0; 0; 12; 0; 0; 0; 0; 0; 0; 0; 97; 0; 0; 0] (replicate 16 None).

Lemma syscall_args_in_process_witness : argptr 0 4 demo_call = Ok (Some 12, demo_call) ∧ argptr 0 5 demo_call = Ok (None, demo_call).
Proof.
  destruct (syscall_args_in_process demo_call) as (_ & H & _).
  - split; [reflexivity|by apply Z.leb_le|apply (bool_decide_unpack _); vm_compute; exact I].
  - split; [exact (H 0 4 eq_refl)|exact (H 0 5 eq_refl)].
Defined.
