(* ===== verification/Sysfile.v ===== *)
(** * File system calls (sysfile.c) *)

From S2P Require Export Syscall.
From S2P Require Import Shell.
Local Open Scope Z_scope.

Definition O_RDWR : Z := 2.

Section Sysfile.
Context {S : Type} `{BS : BlockStore S} {DV : DevSw S}.

Definition onfl {A} (m : M (fls S) A) : M (scall S) A := zoom sfl set_sfl m.
Definition onff {A} (m : M (fst S) A) : M (scall S) A := onfl (onfs m).
Definition sbegin_op : M (scall S) unit := onff (onblk st_begin_op).
Definition send_op : M (scall S) unit := onff (onblk st_end_op).

(** The descriptor and the file. *)
Definition argfd (n : Z) : M (scall S) (option (Z * nat)) :=
  r ← argint n;
  match r with
  | None => mret None
  | Some fd =>
      if (fd <? 0) || (fd >=? Z.of_nat NOFILE) then mret None
      else
        o ← deref (λ s, ofile s !! Z.to_nat fd);
        match o with None => mret None | Some f => mret (Some (fd, f)) end
  end.

(** [curproc->ofile[fd] = f]. *)
Definition ofile_set (fd : nat) (f : option nat) : M (scall S) unit := modify (λ s, set_ofile (<[fd := f]> (ofile s)) s).

Fixpoint free_fd (l : list (option nat)) (fd : nat) : option nat :=
  match l with
  | [] => None
  | None :: _ => Some fd
  | Some _ :: l => free_fd l (Datatypes.S fd)
  end.
Definition fdalloc (f : nat) : M (scall S) Z :=
  l ← gets ofile;
  match free_fd l 0 with
  | Some fd => ofile_set fd (Some f) ;; mret (Z.of_nat fd)
  | None => mret (-1)
  end.

Definition sys_dup : M (scall S) Z :=
  a ← argfd 0;
  match a with
  | None => mret (-1)
  | Some (_, f) =>
      fd ← fdalloc f;
      if fd <? 0 then mret (-1) else
      onfl (filedup f) ;;
      mret fd
  end.

(** A read or a write may have to wait. *)
Definition sys_read : M (scall S) (presult Z unit) :=
  a ← argfd 0;
  match a with None => mret (PRet (-1)) | Some (_, f) =>
    n ← argint 2;
    match n with None => mret (PRet (-1)) | Some n =>
      p ← argptr 1 n;
      match p with None => mret (PRet (-1)) | Some p =>
        r ← onfl (fileread f n);
        match r with
        | PRet (r, l) => uwrite p l ;; mret (PRet r)
        | PWait k => mret (PWait k)
        end
      end
    end
  end.

Definition sys_write : M (scall S) (presult Z bytes) :=
  a ← argfd 0;
  match a with None => mret (PRet (-1)) | Some (_, f) =>
    n ← argint 2;
    match n with None => mret (PRet (-1)) | Some n =>
      p ← argptr 1 n;
      match p with None => mret (PRet (-1)) | Some p =>
        src ← uread p (Z.to_nat n);
        onfl (filewrite f src n)
      end
    end
  end.

Definition sys_close : M (scall S) Z :=
  a ← argfd 0;
  match a with
  | None => mret (-1)
  | Some (fd, f) =>
      ofile_set (Z.to_nat fd) None ;;
      onfl (fileclose f) ;;
      mret 0
  end.

(** The fields of [struct stat] are at 0, 4, 8, 12 and 16. *)
Definition sys_fstat : M (scall S) Z :=
  a ← argfd 0;
  match a with None => mret (-1) | Some (_, f) =>
    p ← argptr 1 20;
    match p with None => mret (-1) | Some p =>
      r ← onfl (filestat f);
      match r with
      | None => mret (-1)
      | Some st =>
          uwrite (p + 4) (le_split 4 (u32 (st_dev st))) ;;
          uwrite (p + 8) (le_split 4 (st_ino st)) ;;
          uwrite p (le_split 2 (u16 (st_type st))) ;;
          uwrite (p + 12) (le_split 2 (u16 (st_nlink st))) ;;
          uwrite (p + 16) (le_split 4 (st_size st)) ;;
          mret 0
      end
    end
  end.

(** The bytes of a path. *)
Definition upath (a : Z * Z) : M (scall S) bytes := uread a.1 (Z.to_nat a.2).
(** An uninitialised [name] array; it is filled before it is read. *)
Definition no_name : bytes := replicate DIRSIZ 0.

(** [ip->nlink += d; iupdate(ip);] *)
Definition add_link (ip : nat) (d : Z) : M (fst S) unit :=
  ino_set ip (λ p, set_inlink (i16 (inlink p + d)) p) ;; iupdate ip.

(** [bad:] of [sys_link]. *)
Definition undo_link (ip : nat) : M (scall S) Z :=
  onff (ilock (Some ip)) ;;
  onff (add_link ip (-1)) ;;
  onff (iunlockput ip) ;;
  send_op ;;
  mret (-1).

Definition sys_link : M (scall S) Z :=
  old ← argstr 0;
  match old with None => mret (-1) | Some old =>
  new ← argstr 1;
  match new with None => mret (-1) | Some new =>
    sbegin_op ;;
    old ← upath old;
    ip ← onff (namei old);
    match ip with
    | None => send_op ;; mret (-1)
    | Some ip =>
        onff (ilock (Some ip)) ;;
        p ← onff (ino ip);
        if itype p =? T_DIR then onff (iunlockput ip) ;; send_op ;; mret (-1)
        else
          onff (add_link ip 1) ;;
          onff (iunlock (Some ip)) ;;
          new ← upath new;
          '(dp, name) ← onff (nameiparent new no_name);
          match dp with
          | None => undo_link ip
          | Some dp =>
              onff (ilock (Some dp)) ;;
              d ← onff (ino dp);
              p ← onff (ino ip);
              r ← (if negb (idev d =? idev p) then mret (-1) else onff (dirlink dp name (inum p)));
              if r <? 0 then onff (iunlockput dp) ;; undo_link ip
              else
                onff (iunlockput dp) ;;
                onff (iput ip) ;;
                send_op ;;
                mret 0
          end
    end
  end end.

Fixpoint isdirempty_loop (fuel : nat) (dp : nat) (off : Z) : M (fst S) bool :=
  match fuel with
  | O => diverge
  | Datatypes.S fuel =>
      p ← ino dp;
      if off <? isize p then
        '(r, de) ← readi dp off 16;
        if negb (r =? 16) then panic "isdirempty: readi" else
        if negb (de_inum de =? 0) then mret false else isdirempty_loop fuel dp (off + 16)
      else mret true
  end.
Definition isdirempty (dp : nat) : M (fst S) bool :=
  p ← ino dp;
  isdirempty_loop (Z.to_nat (isize p / 16) + 2) dp 32.

(** ["."] and [".."]. *)
Definition dot : bytes := [46; 0].
Definition dotdot : bytes := [46; 46; 0].

(** [bad:] of [sys_unlink]. *)
Definition unlink_bad (dp : nat) : M (scall S) Z := onff (iunlockput dp) ;; send_op ;; mret (-1).

Definition sys_unlink : M (scall S) Z :=
  path ← argstr 0;
  match path with None => mret (-1) | Some path =>
    sbegin_op ;;
    path ← upath path;
    '(dp, name) ← onff (nameiparent path no_name);
    match dp with
    | None => send_op ;; mret (-1)
    | Some dp =>
        onff (ilock (Some dp)) ;;
        c1 ← deref (λ _, namecmp name dot);
        c2 ← (if c1 =? 0 then mret 0 else deref (λ _, namecmp name dotdot));
        if (c1 =? 0) || (c2 =? 0) then unlink_bad dp else
        r ← onff (dirlookup dp name);
        match r with
        | None => unlink_bad dp
        | Some (ip, off) =>
            onff (ilock (Some ip)) ;;
            p ← onff (ino ip);
            if inlink p <? 1 then panic "unlink: nlink < 1" else
            full ← (if itype p =? T_DIR then e ← onff (isdirempty ip); mret (negb e) else mret false);
            if (full : bool) then onff (iunlockput ip) ;; unlink_bad dp
            else
              w ← onff (writei dp (memset 0 0 16) off 16);
              if negb (w =? 16) then panic "unlink: writei" else
              p ← onff (ino ip);
              when (itype p =? T_DIR) (onff (add_link dp (-1))) ;;
              onff (iunlockput dp) ;;
              onff (add_link ip (-1)) ;;
              onff (iunlockput ip) ;;
              send_op ;;
              mret 0
        end
    end
  end.

Definition create (path : bytes) (type major minor : Z) : M (fst S) (option nat) :=
  '(dp, name) ← nameiparent path no_name;
  match dp with
  | None => mret None
  | Some dp =>
      ilock (Some dp) ;;
      r ← dirlookup dp name;
      match r with
      | Some (ip, _) =>
          iunlockput dp ;;
          ilock (Some ip) ;;
          p ← ino ip;
          if (type =? T_FILE) && (itype p =? T_FILE) then mret (Some ip)
          else iunlockput ip ;; mret None
      | None =>
          d ← ino dp;
          ip ← ialloc (idev d) type;
          ilock (Some ip) ;;
          ino_set ip (set_numbers major minor) ;;
          ino_set ip (set_inlink 1) ;;
          iupdate ip ;;
          when (type =? T_DIR)
            (add_link dp 1 ;;
             p ← ino ip;
             r ← dirlink ip dot (inum p);
             d ← ino dp;
             r2 ← (if r <? 0 then mret (-1) else dirlink ip dotdot (inum d));
             if r2 <? 0 then panic "create dots" else mret tt) ;;
          p ← ino ip;
          r ← dirlink dp name (inum p);
          if r <? 0 then panic "create: dirlink" else
          iunlockput dp ;;
          mret (Some ip)
      end
  end.

(** The descriptor of an open inode, from the file on. *)
Definition open_file (ip : nat) (omode : Z) : M (scall S) Z :=
  let bad := onff (iunlockput ip) ;; send_op ;; mret (-1) in
  f ← onfl filealloc;
  match f with
  | None => bad
  | Some f =>
      fd ← fdalloc f;
      if fd <? 0 then onfl (fileclose f) ;; bad
      else
        onff (iunlock (Some ip)) ;;
        send_op ;;
        onfl (fset f (λ x, mkFile FD_INODE (fref x)
          (if Z.land omode O_WRONLY =? 0 then 1 else 0)
          (if negb (Z.land omode O_WRONLY =? 0) || negb (Z.land omode O_RDWR =? 0) then 1 else 0)
          (fpipe x) ip 0)) ;;
        mret fd
  end.

Definition sys_open : M (scall S) Z :=
  path ← argstr 0;
  match path with None => mret (-1) | Some path =>
  omode ← argint 1;
  match omode with None => mret (-1) | Some omode =>
    sbegin_op ;;
    path ← upath path;
    if negb (Z.land omode O_CREATE =? 0) then
      ip ← onff (create path T_FILE 0 0);
      match ip with
      | None => send_op ;; mret (-1)
      | Some ip => open_file ip omode
      end
    else
      ip ← onff (namei path);
      match ip with
      | None => send_op ;; mret (-1)
      | Some ip =>
          onff (ilock (Some ip)) ;;
          p ← onff (ino ip);
          if (itype p =? T_DIR) && negb (omode =? O_RDONLY) then onff (iunlockput ip) ;; send_op ;; mret (-1)
          else open_file ip omode
      end
  end end.

(** The end of [sys_mkdir] and [sys_mknod]. *)
Definition created (ip : option nat) : M (scall S) Z :=
  match ip with
  | None => send_op ;; mret (-1)
  | Some ip => onff (iunlockput ip) ;; send_op ;; mret 0
  end.

Definition sys_mkdir : M (scall S) Z :=
  sbegin_op ;;
  path ← argstr 0;
  match path with
  | None => created None
  | Some path => path ← upath path; ip ← onff (create path T_DIR 0 0); created ip
  end.

Definition sys_mknod : M (scall S) Z :=
  sbegin_op ;;
  path ← argstr 0;
  match path with None => created None | Some path =>
  major ← argint 1;
  match major with None => created None | Some major =>
  minor ← argint 2;
  match minor with None => created None | Some minor =>
    path ← upath path;
    ip ← onff (create path T_DEV (i16 major) (i16 minor));
    created ip
  end end end.

Definition sys_chdir : M (scall S) Z :=
  sbegin_op ;;
  path ← argstr 0;
  match path with None => send_op ;; mret (-1) | Some path =>
    path ← upath path;
    ip ← onff (namei path);
    match ip with
    | None => send_op ;; mret (-1)
    | Some ip =>
        onff (ilock (Some ip)) ;;
        p ← onff (ino ip);
        if negb (itype p =? T_DIR) then onff (iunlockput ip) ;; send_op ;; mret (-1)
        else
          onff (iunlock (Some ip)) ;;
          c ← onff (gets cwd);
          onff (iput c) ;;
          send_op ;;
          onff (modify (set_cwd ip)) ;;
          mret 0
    end
  end.

(** [NELEM(argv)]. *)
Definition MAXARG : nat := 32.

(** The loop of [sys_exec]: the arguments from the [i]-th on. *)
Fixpoint exec_args (n : nat) (uargv i : Z) : M (scall S) (option (list (Z * Z))) :=
  match n with
  | O => mret None
  | Datatypes.S n =>
      uarg ← fetchint (u32 (uargv + 4 * i));
      match uarg with
      | None => mret None
      | Some uarg =>
          if uarg =? 0 then mret (Some [])
          else
            a ← fetchstr (u32 uarg);
            match a with
            | None => mret None
            | Some a => l ← exec_args n uargv (i + 1); mret (option_map (cons a) l)
            end
      end
  end.

(** [exec] is called with the path and the arguments. *)
Definition sys_exec (exec : bytes → list bytes → M (scall S) Z) : M (scall S) Z :=
  path ← argstr 0;
  match path with None => mret (-1) | Some path =>
  uargv ← argint 1;
  match uargv with None => mret (-1) | Some uargv =>
    l ← exec_args MAXARG (u32 uargv) 0;
    match l with
    | None => mret (-1)
    | Some l =>
        path ← upath path;
        s ← gets id;
        exec path (map (λ a, take (Z.to_nat a.2) (drop (Z.to_nat a.1) (umem s))) l)
    end
  end end.

(** [page]: the page that [kalloc] returns for the pipe. *)
Definition sys_pipe (page : option (nat * bytes)) : M (scall S) Z :=
  a ← argptr 0 8;
  match a with None => mret (-1) | Some a =>
    r ← onfl (pipealloc page);
    match r with None => mret (-1) | Some (rf, wf) =>
      fd0 ← fdalloc rf;
      fd1 ← (if fd0 <? 0 then mret (-1) else fdalloc wf);
      if (fd0 <? 0) || (fd1 <? 0) then
        when (fd0 >=? 0) (ofile_set (Z.to_nat fd0) None) ;;
        onfl (fileclose rf) ;;
        onfl (fileclose wf) ;;
        mret (-1)
      else
        uwrite a (le_split 4 fd0) ;;
        uwrite (a + 4) (le_split 4 fd1) ;;
        mret 0
    end
  end.
End Sysfile.
