(* ===== verification/SysfileProps.v ===== *)
(** * File descriptors and reference counts

    The reference count of an open file is the number of descriptors that refer
    to it, over all processes: those of the calling process, and [ext i] others
    for file [i]. *)

From S2P Require Export Sysfile.
Local Open Scope Z_scope.

Definition nrefs (i : nat) (l : list (option nat)) : Z := Z.of_nat (length (filter (λ o, o = Some i) l)).
Definition ind (i j : nat) : Z := if bool_decide (i = j) then 1 else 0.

Lemma nrefs_insert i l fd a b :
  l !! fd = Some a →
  nrefs i (<[fd := b]> l) = nrefs i l - (if bool_decide (a = Some i) then 1 else 0) + (if bool_decide (b = Some i) then 1 else 0).
Proof.
  unfold nrefs. revert fd. induction l as [|o l IH]; intros [|fd] Ha; cbn in Ha; try done.
  - injection Ha as ->. change (<[0%nat := b]> (a :: l)) with (b :: l). rewrite !filter_cons. repeat case_decide; repeat case_bool_decide; cbn [length]; (done || congruence || lia).
  - change (<[S fd := b]> (o :: l)) with (o :: <[fd := b]> l). specialize (IH fd Ha). rewrite !filter_cons. destruct (decide (o = Some i)); cbn [length]; lia.
Qed.

Lemma nrefs_pos i l fd : l !! fd = Some (Some i) → 0 < nrefs i l.
Proof.
  intros H. unfold nrefs. assert (Some i ∈ filter (λ o, o = Some i) l) as Hin.
  { apply list_elem_of_filter. split; [done|by eapply list_elem_of_lookup_2]. }
  destruct (filter _ l); [by apply not_elem_of_nil in Hin|cbn; lia].
Qed.

(** Files [ft] and descriptors [ofl]; [X]: files that have just been allocated
    and have no type yet. *)
Record fd_ok (ext : nat → Z) (X : list nat) (ft : list file) (ofl : list (option nat)) : Prop := {
  fd_ref : ∀ i f, ft !! i = Some f → fref f = ext i + nrefs i ofl;
  fd_type : ∀ i f, ft !! i = Some f → i ∉ X → 0 ≤ fref f ∧ (fref f = 0 ↔ ftype f = FD_NONE);
  fd_new : ∀ i, i ∈ X → ∃ f, ft !! i = Some f ∧ fref f = 1;
  fd_valid : ∀ fd i, ofl !! fd = Some (Some i) → (i < NFILE)%nat;
  fd_files : length ft = NFILE;
  fd_slots : length ofl = NOFILE
}.

Lemma fd_ok_file ext ext' X X' ft ofl i f f' :
  fd_ok ext X ft ofl → ft !! i = Some f → fref f' - fref f = ext' i - ext i → (∀ j, j ≠ i → ext' j = ext j) →
  (∀ j, j ≠ i → j ∈ X' ↔ j ∈ X) → (i ∈ X' → fref f' = 1) → (i ∉ X' → 0 ≤ fref f' ∧ (fref f' = 0 ↔ ftype f' = FD_NONE)) →
  fd_ok ext' X' (<[i := f']> ft) ofl.
Proof.
  intros [H1 H2 H3 H4 H5 H6] Hf Hr He HX Hn Ht. assert (i < length ft)%nat as Hlt by (by eapply lookup_lt_Some). split.
  - intros j g. destruct (decide (j = i)) as [->|Hne].
    + rewrite list_lookup_insert_eq by done. intros [= <-]. specialize (H1 _ _ Hf). lia.
    + rewrite list_lookup_insert_ne by done. intros Hj. rewrite He by done. by apply H1.
  - intros j g. destruct (decide (j = i)) as [->|Hne].
    + rewrite list_lookup_insert_eq by done. by intros [= <-].
    + rewrite list_lookup_insert_ne by done. intros Hj Hx. apply (H2 j g Hj). intros Hin. apply Hx. by apply HX.
  - intros j Hj. destruct (decide (j = i)) as [->|Hne].
    + exists f'. rewrite list_lookup_insert_eq by done. split; [done|by apply Hn].
    + rewrite list_lookup_insert_ne by done. apply H3. by apply HX.
  - done.
  - by rewrite length_insert.
  - done.
Qed.

Lemma fd_ok_ext ext ext' X ft ofl : fd_ok ext X ft ofl → (∀ i, ext i = ext' i) → fd_ok ext' X ft ofl.
Proof. intros [H1 H2 H3 H4 H5 H6] E. split; try done. intros i f Hf. rewrite <- E. by apply H1. Qed.

(** One reference more, or less. *)
Definition plus (ext : nat → Z) (i : nat) : nat → Z := λ j, ext j + ind i j.
Definition minus (ext : nat → Z) (i : nat) : nat → Z := λ j, ext j - ind i j.
Lemma ind_eq i : ind i i = 1.
Proof. unfold ind. by rewrite bool_decide_true. Qed.
Lemma ind_ne i j : j ≠ i → ind i j = 0.
Proof. intros H. unfold ind. by rewrite bool_decide_false by congruence. Qed.

(** A descriptor is given to a file, or taken from it. *)
Lemma fd_ok_open ext X ft ofl fd i :
  fd_ok ext X ft ofl → ofl !! fd = Some None → (i < NFILE)%nat → fd_ok (minus ext i) X ft (<[fd := Some i]> ofl).
Proof.
  intros [H1 H2 H3 H4 H5 H6] Hfd Hi. split; [|done|done| |done|by rewrite length_insert].
  - intros j f Hf. rewrite (nrefs_insert j ofl fd None) by done. unfold minus, ind. rewrite (H1 j f Hf). repeat case_bool_decide; try done; try congruence; lia.
  - intros fd' j. destruct (decide (fd' = fd)) as [->|]; [|rewrite list_lookup_insert_ne by done; apply H4].
    rewrite list_lookup_insert_eq by (by eapply lookup_lt_Some). by intros [= <-].
Qed.
Lemma fd_ok_close ext X ft ofl fd i :
  fd_ok ext X ft ofl → ofl !! fd = Some (Some i) → fd_ok (plus ext i) X ft (<[fd := None]> ofl).
Proof.
  intros [H1 H2 H3 H4 H5 H6] Hfd. split; [|done|done| |done|by rewrite length_insert].
  - intros j f Hf. rewrite (nrefs_insert j ofl fd (Some i)) by done. unfold plus, ind. rewrite (H1 j f Hf). repeat case_bool_decide; try done; try congruence; lia.
  - intros fd' j. destruct (decide (fd' = fd)) as [->|]; [|rewrite list_lookup_insert_ne by done; apply H4].
    rewrite list_lookup_insert_eq by (by eapply lookup_lt_Some). done.
Qed.

Section Files.
Context {S : Type} `{BS : BlockStore S} {DV : DevSw S}.
Implicit Types (x : fls S) (ext : nat → Z) (X : list nat).

Lemma W_onfs {A} (m : M (fst S) A) (Q : A → fls S → Prop) x : (∀ a x', ftable x' = ftable x → Q a x') → wlp (onfs m) Q x.
Proof. intros HQ. apply wpg_zoom, wlp_true. intros a y. by apply HQ. Qed.
Lemma W_onlx {A} (m : M ctx A) (Q : A → fls S → Prop) x : (∀ a x', ftable x' = ftable x → Q a x') → wlp (onlx m) Q x.
Proof. intros HQ. apply wpg_zoom, wlp_true. intros a y. by apply HQ. Qed.
Lemma W_onpipe {A} i (m : M pst A) (Q : A → fls S → Prop) x : (∀ a x', ftable x' = ftable x → Q a x') → wlp (onpipe i m) Q x.
Proof. intros HQ. apply wpg_zoom, wlp_true. intros a y. by apply HQ. Qed.

Lemma W_fget i (Q : file → fls S → Prop) x : (∀ f, ftable x !! i = Some f → Q f x) → wlp (fget i) Q x.
Proof. intros HQ. unfold fget, wpg, deref. destruct (ftable x !! i) as [f|] eqn:E; [|done]. by apply HQ. Qed.
Lemma W_fset i g (Q : unit → fls S → Prop) x :
  (∀ f, ftable x !! i = Some f → Q tt (set_ftable (<[i := g f]> (ftable x)) x)) → wlp (fset i g) Q x.
Proof. intros HQ. apply wpg_bind, W_fget. intros f Hf. apply (wpg_modify false). by apply HQ. Qed.

Lemma free_file_spec l : ∀ k i, free_file l k = Some i → ∃ f, (k ≤ i)%nat ∧ l !! (i - k)%nat = Some f ∧ fref f = 0.
Proof.
  induction l as [|f l IH]; intros k i; cbn [free_file]; [done|]. destruct (Z.eqb_spec (fref f) 0) as [E|E].
  - intros [= <-]. exists f. by rewrite Nat.sub_diag.
  - intros H. apply IH in H as (g & Hk & Hg & Hz). exists g. split_and!; [lia| |done].
    by replace (i - k)%nat with (Datatypes.S (i - Datatypes.S k)) by lia.
Qed.

Lemma W_filealloc ext X ofl x (Q : option nat → fls S → Prop) :
  fd_ok ext X (ftable x) ofl →
  (∀ x', fd_ok ext X (ftable x') ofl → Q None x') →
  (∀ i x', i ∉ X → (i < NFILE)%nat → fd_ok (plus ext i) (i :: X) (ftable x') ofl → Q (Some i) x') →
  wlp filealloc Q x.
Proof.
  intros Hx Hnone Hsome. apply wpg_bind, W_onlx. intros [] x1 E1. apply wpg_bind, wpg_gets. rewrite E1.
  destruct (free_file (ftable x) 0) as [i|] eqn:Ef.
  - apply free_file_spec in Ef as (f & _ & Hf & Hz). rewrite Nat.sub_0_r in Hf.
    apply wpg_bind, W_fset. rewrite E1. intros f' Hf'. assert (f' = f) as -> by congruence.
    apply wpg_bind, W_onlx. intros [] x2 E2. cbn in E2. apply wpg_ret.
    assert (i ∉ X) as Hnew by (intros Hin; destruct (fd_new _ _ _ _ Hx i Hin) as (g & Hg & Hg1); congruence).
    apply Hsome; [done|rewrite <- (fd_files _ _ _ _ Hx); by eapply lookup_lt_Some|]. rewrite E2.
    apply (fd_ok_file ext _ X _ _ ofl i f); [done|done|unfold plus; rewrite ind_eq; cbn; lia| | |done|].
    + intros j Hj. unfold plus. rewrite ind_ne by done. lia.
    + intros j Hj. rewrite elem_of_cons. naive_solver.
    + intros H. exfalso. apply H. by left.
  - apply wpg_bind, W_onlx. intros [] x2 E2. apply wpg_ret, Hnone. by rewrite E2, E1.
Qed.

Lemma W_filedup ext X ofl x i (Q : nat → fls S → Prop) :
  fd_ok ext X (ftable x) ofl → i ∉ X → (∀ x', fd_ok (plus ext i) X (ftable x') ofl → Q i x') → wlp (filedup i) Q x.
Proof.
  intros Hx Hi HQ. apply wpg_bind, W_onlx. intros [] x1 E1. apply wpg_bind, W_fget. rewrite E1. intros f Hf.
  destruct (Z.ltb_spec (fref f) 1) as [|Hpos]; [done|].
  apply wpg_bind, W_fset. rewrite E1. intros f' Hf'. assert (f' = f) as -> by congruence.
  apply wpg_bind, W_onlx. intros [] x2 E2. cbn in E2. apply wpg_ret, HQ. rewrite E2.
  destruct (fd_type _ _ _ _ Hx i f Hf Hi) as [Hnn Hty].
  apply (fd_ok_file ext _ X _ _ ofl i f); [done|done|unfold plus; rewrite ind_eq; cbn; lia| |done|done|].
  - intros j Hj. unfold plus. rewrite ind_ne by done. lia.
  - intros _. cbn. split; [lia|]. rewrite <- Hty. lia.
Qed.

Lemma list_insert_twice {A} (l : list A) i a b : <[i := b]> (<[i := a]> l) = <[i := b]> l.
Proof. apply list_insert_insert_eq. Qed.

Lemma W_fileclose ext X ofl x i (Q : unit → fls S → Prop) :
  fd_ok ext X (ftable x) ofl → (∀ x', fd_ok (minus ext i) (List.filter (λ j, negb (j =? i)%nat) X) (ftable x') ofl → Q tt x') → wlp (fileclose i) Q x.
Proof.
  intros Hx HQ. apply wpg_bind, W_onlx. intros [] x1 E1. apply wpg_bind, W_fget. rewrite E1. intros f Hf.
  destruct (Z.ltb_spec (fref f) 1) as [|Hpos]; [done|]. apply wpg_bind, W_fset. rewrite E1. intros f1 Hf1. assert (f1 = f) as -> by congruence.
  assert (i < length (ftable x))%nat as Hlt by (by eapply lookup_lt_Some).
  assert (∀ j, j ≠ i → j ∈ List.filter (λ j, negb (j =? i)%nat) X ↔ j ∈ X) as HX.
  { intros j Hj. rewrite !list_elem_of_In, List.filter_In. rewrite (proj2 (Nat.eqb_neq j i)) by done. naive_solver. }
  assert (i ∉ List.filter (λ j, negb (j =? i)%nat) X) as Hni.
  { rewrite list_elem_of_In, List.filter_In, Nat.eqb_refl. by intros [_ ?]. }
  assert (∀ j, j ≠ i → minus ext i j = ext j) as Hoth by (intros j Hj; unfold minus; rewrite ind_ne by done; lia).
  destruct (fref f - 1 >? 0) eqn:E.
  - apply W_onlx. intros [] x2 E2. cbn in E2. apply HQ. rewrite E2.
    apply (fd_ok_file ext _ X _ _ ofl i f); [done|done|unfold minus; rewrite ind_eq; cbn; lia|done|done|done|]. intros _.
    destruct (decide (i ∈ X)) as [Hin|Hin]; [destruct (fd_new _ _ _ _ Hx i Hin) as (g & Hg & Hg1); assert (g = f) as -> by congruence; lia|].
    destruct (fd_type _ _ _ _ Hx i f Hf Hin) as [_ Hty]. cbn. split; [lia|]. rewrite <- Hty. lia.
  - apply wpg_bind, W_fget. intros ff Hff. cbn in Hff. rewrite list_lookup_insert_eq in Hff by done. injection Hff as <-.
    apply wpg_bind, W_fset. cbn. intros f2 Hf2. rewrite list_lookup_insert_eq in Hf2 by done. injection Hf2 as <-.
    apply wpg_bind, W_fset. cbn. rewrite list_insert_twice. intros f3 Hf3. rewrite list_lookup_insert_eq in Hf3 by done. injection Hf3 as <-.
    apply wpg_bind, W_onlx. intros [] x2 E2. cbn in E2. rewrite !list_insert_twice in E2.
    assert (fd_ok (minus ext i) (List.filter (λ j, negb (j =? i)%nat) X) (ftable x2) ofl) as Hfin.
    { rewrite E2. apply (fd_ok_file ext _ X _ _ ofl i f); [done|done|unfold minus; rewrite ind_eq; cbn; lia|done|done|done|]. intros _. cbn. split; [lia|done]. }
    cbn [ftype set_fref]. destruct (ftype f).
    + apply wpg_ret, HQ, Hfin.
    + apply W_onpipe. intros [] x3 E3. apply HQ. by rewrite E3.
    + apply wpg_bind, W_onfs. intros [] x3 E3. apply wpg_bind, W_onfs. intros [] x4 E4. apply W_onfs. intros [] x5 E5. apply HQ. by rewrite E5, E4, E3.
Qed.

(** A file that has just been allocated gets its type. *)
Lemma W_settype ext X ofl x i g (Q : unit → fls S → Prop) :
  fd_ok ext (i :: X) (ftable x) ofl → i ∉ X → (∀ f, fref (g f) = fref f ∧ ftype (g f) ≠ FD_NONE) →
  (∀ x', fd_ok ext X (ftable x') ofl → Q tt x') → wlp (fset i g) Q x.
Proof.
  intros Hx Hi Hg HQ. apply W_fset. intros f Hf. apply HQ. cbn. destruct (Hg f) as [E1 E2].
  destruct (fd_new _ _ _ _ Hx i ltac:(by left)) as (f' & Hf' & Hr). assert (f' = f) as -> by congruence.
  apply (fd_ok_file ext _ (i :: X) _ _ ofl i f); [done|done|lia|done| |done|].
  - intros j Hj. rewrite elem_of_cons. naive_solver.
  - intros _. rewrite E1. split; [lia|]. split; [lia|done].
Qed.
End Files.
