(* ===== verification/FdTable.v ===== *)
(** * Files and descriptors of all processes

    The file system calls over the table of open files and the descriptor
    tables of all processes, in any order: the reference count of a file is the
    number of descriptors that refer to it. *)

From S2P Require Export SysfileProps.
Local Open Scope Z_scope.

Section Calls.
Context {S : Type} `{BS : BlockStore S} {DV : DevSw S}.
Implicit Types (s : scall S) (x : fls S).

(** The files and the descriptors of the process. *)
Definition same_fds F O s : Prop := ftable (sfl s) = F ∧ ofile s = O.
Definition fds ext X s : Prop := fd_ok ext X (ftable (sfl s)) (ofile s).

Section Same.
Context (I : scall S → Prop) (HI : ∀ s s', ftable (sfl s') = ftable (sfl s) → ofile s' = ofile s → I s → I s').

Lemma keeps_onff {A} (m : M (fst S) A) : keeps I (onff m).
Proof using HI. intros s H. apply wpg_zoom, W_onfs. intros a x' E. by apply (HI s). Qed.
Lemma keeps_onpipe {A} i (m : M pst A) : keeps I (onfl (onpipe i m)).
Proof using HI. intros s H. apply wpg_zoom, W_onpipe. intros a x' E. by apply (HI s). Qed.
Lemma keeps_uread a n : keeps I (uread a n).
Proof. apply keeps_deref. Qed.
Lemma keeps_uwrite a b : keeps I (uwrite a b).
Proof using HI. apply keeps_bind; [apply keeps_uread|]. intros _. apply keeps_modify. intros s. by apply HI. Qed.
Lemma keeps_fetchint a : keeps I (fetchint a).
Proof. unfold fetchint, uread. keep. Qed.
Lemma keeps_fetchstr_loop n : ∀ p a, keeps I (fetchstr_loop n p a).
Proof. induction n as [|n IH]; intros p a; cbn [fetchstr_loop]; unfold uread; keep. Qed.
Lemma keeps_argint n : keeps I (argint n).
Proof. unfold argint, fetchint, uread. keep. Qed.
Lemma keeps_argptr n m : keeps I (argptr n m).
Proof. unfold argptr. keep. apply keeps_argint. Qed.
Lemma keeps_argstr n : keeps I (argstr n).
Proof. unfold argstr, fetchstr. keep; [apply keeps_argint|apply keeps_fetchstr_loop]. Qed.
Lemma keeps_upath a : keeps I (upath a).
Proof. apply keeps_uread. Qed.
Lemma keeps_sbegin_op : keeps I sbegin_op.
Proof using HI. apply keeps_onff. Qed.
Lemma keeps_send_op : keeps I send_op.
Proof using HI. apply keeps_onff. Qed.
End Same.

Lemma fds_same ext X s s' : ftable (sfl s') = ftable (sfl s) → ofile s' = ofile s → fds ext X s → fds ext X s'.
Proof. unfold fds. by intros -> ->. Qed.
End Calls.

#[export] Hint Resolve keeps_onff keeps_onpipe keeps_uread keeps_uwrite keeps_fetchint keeps_fetchstr_loop keeps_argint keeps_argptr keeps_argstr
  keeps_upath keeps_sbegin_op keeps_send_op fds_same : keep.

Section Fds.
Context {S : Type} `{BS : BlockStore S} {DV : DevSw S} (ext : nat → Z) (X : list nat).
Implicit Types (s : scall S) (x : fls S).
Notation IF ofl := (λ x : fls S, fd_ok ext X (ftable x) ofl).
Notation I := (fds (S := S) ext X).

(** ** The operations on open files that leave the descriptors alone *)

Lemma file_same ofl (x x' : fls S) : ftable x' = ftable x → fd_ok ext X (ftable x) ofl → fd_ok ext X (ftable x') ofl.
Proof. by intros ->. Qed.
Lemma keeps_onfs {A} (m : M (fst S) A) ofl : keeps (IF ofl) (onfs m).
Proof. intros x H. apply W_onfs. intros a x' E. by apply (file_same _ x). Qed.
Lemma keeps_pipe {A} i (m : M pst A) ofl : keeps (IF ofl) (onpipe i m).
Proof. intros x H. apply W_onpipe. intros a x' E. by apply (file_same _ x). Qed.
Lemma keeps_fget i ofl : keeps (IF ofl) (fget i).
Proof. apply keeps_deref. Qed.
Lemma keeps_fset i g ofl : (∀ f, fref (g f) = fref f ∧ ftype (g f) = ftype f) → keeps (IF ofl) (fset i g).
Proof.
  intros Hg x H. apply W_fset. intros f Hf. cbn. destruct (Hg f) as [E1 E2].
  apply (fd_ok_file ext _ X _ _ _ i f); try done; [lia| |].
  - intros Hin. destruct (fd_new _ _ _ _ H i Hin) as (f' & Hf' & Hr). congruence.
  - intros Hin. rewrite E1, E2. by apply (fd_type _ _ _ _ H i f).
Qed.
Lemma keeps_set_foff i v ofl : keeps (IF ofl) (fset i (set_foff v)).
Proof. by apply keeps_fset. Qed.

Hint Resolve keeps_onfs keeps_pipe keeps_fget keeps_set_foff : keep.
Lemma keeps_filestat i ofl : keeps (IF ofl) (filestat i).
Proof. unfold filestat. keep. Qed.
Lemma keeps_fileread i n ofl : keeps (IF ofl) (fileread i n).
Proof. unfold fileread. keep. Qed.
Lemma keeps_filewrite_loop fuel : ∀ i src n j ofl, keeps (IF ofl) (filewrite_loop fuel i src n j).
Proof. induction fuel as [|fuel IH]; intros i src n j ofl; cbn [filewrite_loop]; keep. Qed.
Hint Resolve keeps_filewrite_loop : keep.
Lemma keeps_filewrite i src n ofl : keeps (IF ofl) (filewrite i src n).
Proof. unfold filewrite. keep. Qed.

Lemma keeps_onfl {A} (m : M (fls S) A) : (∀ ofl, keeps (IF ofl) m) → keeps I (onfl m).
Proof. intros Hm s H. apply wpg_zoom. eapply wpg_mono; [apply Hm, H|]. intros a x' H'. done. Qed.
Hint Resolve keeps_onfl keeps_filestat keeps_fileread keeps_filewrite : keep.

(** ** The calls that leave the descriptors alone *)

Lemma keeps_argfd n : keeps I (argfd n).
Proof. unfold argfd. keep. Qed.
Hint Resolve keeps_argfd : keep.

Lemma keeps_sys_read : keeps I sys_read.
Proof. unfold sys_read. keep. Qed.
Lemma keeps_sys_write : keeps I sys_write.
Proof. unfold sys_write. keep. Qed.
Lemma keeps_sys_fstat : keeps I sys_fstat.
Proof. unfold sys_fstat. keep. Qed.
Lemma keeps_sys_link : keeps I sys_link.
Proof. unfold sys_link, undo_link. keep. Qed.
Lemma keeps_sys_unlink : keeps I sys_unlink.
Proof. unfold sys_unlink, unlink_bad. keep. Qed.
Lemma keeps_sys_mkdir : keeps I sys_mkdir.
Proof. unfold sys_mkdir, created. keep. Qed.
Lemma keeps_sys_mknod : keeps I sys_mknod.
Proof. unfold sys_mknod, created. keep. Qed.
Lemma keeps_sys_chdir : keeps I sys_chdir.
Proof. unfold sys_chdir. keep. Qed.
End Fds.

(** ** The calls that change the descriptors *)

Lemma fd_ok_eq ext ext' X X' ft ofl :
  fd_ok ext X ft ofl → (∀ j, ext j = ext' j) → (∀ j, j ∈ X ↔ j ∈ X') → fd_ok ext' X' ft ofl.
Proof.
  intros H E EX. pose proof (fd_ok_ext _ _ _ _ _ H E) as H'. clear H. destruct H' as [H1 H2 H3 H4 H5 H6].
  split; try done; [intros i f Hf Hi; apply (H2 i f Hf); by rewrite EX|intros i Hi; apply H3; by rewrite EX].
Qed.
Lemma plus_minus ext i j : minus (plus ext i) i j = ext j.
Proof. unfold plus, minus. lia. Qed.
Lemma minus_plus ext i j : plus (minus ext i) i j = ext j.
Proof. unfold plus, minus. lia. Qed.

Section Changes.
Context {S : Type} `{BS : BlockStore S} {DV : DevSw S}.
Implicit Types (s : scall S) (ext : nat → Z) (X : list nat).

Lemma W_argfd n (Q : option (Z * nat) → scall S → Prop) s :
  Q None s → (∀ fd f, ofile s !! Z.to_nat fd = Some (Some f) → Q (Some (fd, f)) s) → wlp (argfd n) Q s.
Proof.
  intros H0 HQ. apply wpg_bind. eapply wpg_mono; [apply (keeps_argint (λ s', s' = s)); reflexivity|]. intros [fd|] s' ->; [|by apply wpg_ret].
  destruct (_ || _); [by apply wpg_ret|]. apply wpg_bind. unfold wpg, deref. destruct (ofile s !! Z.to_nat fd) as [[f|]|] eqn:E; [|done|done].
  by apply HQ.
Qed.

Lemma free_fd_spec l : ∀ k i, free_fd l k = Some i → (k ≤ i)%nat ∧ l !! (i - k)%nat = Some None.
Proof.
  induction l as [|[f|] l IH]; intros k i; cbn [free_fd]; [done| |].
  - intros H%IH. replace (i - k)%nat with (Datatypes.S (i - Datatypes.S k)) by lia. cbn. destruct H. split; [lia|done].
  - intros [= <-]. by rewrite Nat.sub_diag.
Qed.

Lemma W_fdalloc ext X f (Q : Z → scall S → Prop) s :
  fds ext X s → (f < NFILE)%nat → Q (-1) s →
  (∀ fd s', 0 ≤ fd → ofile s' !! Z.to_nat fd = Some (Some f) → fds (minus ext f) X s' → Q fd s') →
  wlp (fdalloc f) Q s.
Proof.
  intros Hs Hf H0 HQ. apply wpg_bind, wpg_gets. destruct (free_fd (ofile s) 0) as [fd|] eqn:E; [|by apply wpg_ret].
  apply free_fd_spec in E as [_ E]. rewrite Nat.sub_0_r in E. apply wpg_bind, (wpg_modify false). cbv beta. apply wpg_ret, HQ; [lia| |].
  - rewrite Nat2Z.id. cbn. apply list_lookup_insert_eq. by eapply lookup_lt_Some.
  - by apply fd_ok_open.
Qed.

Lemma W_sclose ext X X' i (Q : unit → scall S → Prop) s :
  fds ext X s → (∀ j, j ∈ X' ↔ j ∈ X ∧ j ≠ i) → (∀ s', fds (minus ext i) X' s' → Q tt s') → wlp (onfl (fileclose i)) Q s.
Proof.
  intros Hs HX HQ. apply wpg_zoom. eapply W_fileclose; [exact Hs|]. intros x' Hx. apply HQ. eapply fd_ok_eq; [exact Hx|done|].
  intros j. rewrite HX, !list_elem_of_In, List.filter_In. destruct (Nat.eqb_spec j i); naive_solver.
Qed.
Lemma W_sdup ext i (Q : nat → scall S → Prop) s :
  fds ext [] s → (∀ s', fds (plus ext i) [] s' → Q i s') → wlp (onfl (filedup i)) Q s.
Proof. intros Hs HQ. apply wpg_zoom. eapply W_filedup; [exact Hs|apply not_elem_of_nil|]. intros x' Hx. by apply HQ. Qed.
Lemma W_salloc ext X (Q : option nat → scall S → Prop) s :
  fds ext X s → (∀ s', fds ext X s' → Q None s') →
  (∀ i s', i ∉ X → (i < NFILE)%nat → fds (plus ext i) (i :: X) s' → Q (Some i) s') →
  wlp (onfl filealloc) Q s.
Proof. intros Hs H0 HQ. apply wpg_zoom. eapply W_filealloc; [exact Hs| |]; intros; [by apply H0|by apply HQ]. Qed.

Lemma ofile_clear ext X fd f s :
  fds ext X s → ofile s !! fd = Some (Some f) → fds (plus ext f) X (set_ofile (<[fd := None]> (ofile s)) s).
Proof. intros Hs Hfd. by apply fd_ok_close. Qed.

Section Ext.
Context (ext : nat → Z).
Notation I := (fds (S := S) ext []).

Lemma keeps_sys_dup : keeps I sys_dup.
Proof.
  intros s Hs. apply wpg_bind, W_argfd; [by apply wpg_ret|]. intros fd f Hfd. apply wpg_bind.
  eapply W_fdalloc; [exact Hs|by eapply fd_valid| |].
  - by apply wpg_ret.
  - intros fd' s' Hpos _ Hs'. destruct (Z.ltb_spec fd' 0); [lia|]. apply wpg_bind. eapply W_sdup; [exact Hs'|]. intros s2 H2.
    apply wpg_ret. eapply fd_ok_eq; [exact H2|apply minus_plus|done].
Qed.

Lemma keeps_sys_close : keeps I sys_close.
Proof.
  intros s Hs. apply wpg_bind, W_argfd; [by apply wpg_ret|]. intros fd f Hfd.
  apply wpg_bind, (wpg_modify false). cbv beta. apply wpg_bind. eapply W_sclose; [by eapply ofile_clear|..].
  - intros j. split; [intros H; by apply not_elem_of_nil in H|by intros [? _]].
  - intros s' Hs'. apply wpg_ret. eapply fd_ok_eq; [exact Hs'|apply plus_minus|done].
Qed.

Hint Resolve fds_same keeps_argfd : keep.

Lemma W_keeps {A} (J : scall S → Prop) (m : M (scall S) A) (Q : A → scall S → Prop) s :
  keeps J m → J s → (∀ a s', J s' → Q a s') → wlp m Q s.
Proof. intros Hm Hs HQ. eapply wpg_mono; [by apply Hm|done]. Qed.

Lemma in_nil_iff {A} (i : A) j : j ∈ [] ↔ j ∈ [i] ∧ j ≠ i.
Proof. rewrite list_elem_of_singleton. split; [intros H; by apply not_elem_of_nil in H|by intros []]. Qed.
Lemma in_nil_iff' (i j : nat) : j ∈ [] ↔ j ∈ [] ∧ j ≠ i.
Proof. split; [intros H; by apply not_elem_of_nil in H|by intros []]. Qed.

(** [open_file], with the inode locked. *)
Lemma keeps_open_file ip omode : keeps I (open_file ip omode).
Proof.
  intros s Hs. unfold open_file. cbv zeta.
  assert (keeps I (onff (iunlockput ip) ;; send_op ;; mret (-1))) as Hbad by keep.
  apply wpg_bind. eapply W_salloc; [exact Hs|intros s' Hs'|intros f s' _ Hf Hs']; [by apply Hbad|].
  apply wpg_bind. eapply W_fdalloc; [exact Hs'|done| |].
  - cbn [Z.ltb]. apply wpg_bind. eapply W_sclose; [exact Hs'|apply in_nil_iff|]. intros s2 H2.
    apply Hbad. eapply fd_ok_eq; [exact H2|apply plus_minus|done].
  - intros fd s1 Hpos _ H1. destruct (Z.ltb_spec fd 0); [lia|].
    apply wpg_bind. eapply (W_keeps (fds (minus (plus ext f) f) [f])); [keep|exact H1|]. intros [] s2 H2.
    apply wpg_bind. eapply (W_keeps (fds (minus (plus ext f) f) [f])); [keep|exact H2|]. intros [] s3 H3.
    apply wpg_bind, wpg_zoom. eapply W_settype; [exact H3|apply not_elem_of_nil|done|]. intros x' Hx.
    apply wpg_ret. eapply fd_ok_eq; [exact Hx|apply plus_minus|done].
Qed.
Hint Resolve keeps_open_file : keep.
Lemma keeps_sys_open : keeps I sys_open.
Proof. unfold sys_open. keep. Qed.

(** [pipealloc] gives two files that no descriptor refers to yet. *)
Lemma W_pipealloc page (Q : option (nat * nat) → scall S → Prop) s :
  I s → (∀ s', I s' → Q None s') →
  (∀ f0 f1 s', (f0 < NFILE)%nat → (f1 < NFILE)%nat → fds (plus (plus ext f0) f1) [] s' → Q (Some (f0, f1)) s') →
  wlp (onfl (pipealloc page)) Q s.
Proof.
  intros Hs H0 HQ. apply wpg_zoom. apply wpg_bind. eapply W_filealloc; [exact Hs| |].
  { intros x' Hx. apply wpg_ret. by apply H0. }
  intros f0 x0 _ Hf0 Hx0. apply wpg_bind. eapply W_filealloc; [exact Hx0| |].
  { intros x1 Hx1. apply wpg_bind. eapply W_fileclose; [exact Hx1|]. intros x2 Hx2. apply wpg_ret, H0.
    eapply fd_ok_eq; [exact Hx2|apply plus_minus|]. cbn. rewrite Nat.eqb_refl. done. }
  intros f1 x1 Hne Hf1 Hx1. rewrite list_elem_of_singleton in Hne. destruct page as [[p garbage]|].
  - apply wpg_bind, (wpg_modify false). cbv beta. apply wpg_bind. eapply (W_settype _ [f1]); [|by rewrite list_elem_of_singleton|done|].
    { eapply fd_ok_eq; [exact Hx1|done|]. intros j. rewrite !elem_of_cons. tauto. }
    intros x2 Hx2. apply wpg_bind. eapply W_settype; [exact Hx2|apply not_elem_of_nil|done|]. intros x3 Hx3.
    apply wpg_ret. by apply HQ.
  - apply wpg_bind. eapply W_fileclose; [exact Hx1|]. intros x2 Hx2. cbn [List.filter] in Hx2. rewrite Nat.eqb_refl in Hx2.
    rewrite (proj2 (Nat.eqb_neq f1 f0) Hne) in Hx2. cbn [negb List.filter] in Hx2.
    apply wpg_bind. eapply W_fileclose; [exact Hx2|]. intros x3 Hx3. cbn in Hx3. rewrite Nat.eqb_refl in Hx3.
    apply wpg_ret, H0. eapply fd_ok_eq; [exact Hx3|intros j; unfold plus, minus; lia|done].
Qed.

Lemma keeps_sys_pipe page : keeps I (sys_pipe page).
Proof.
  intros s Hs. apply wpg_bind. eapply (W_keeps I); [keep|exact Hs|]. intros [a|] s0 Hs0; [|by apply wpg_ret].
  apply wpg_bind. apply W_pipealloc; [exact Hs0|intros s1 Hs1; by apply wpg_ret|]. intros rf wf s1 Hrf Hwf Hs1.
  (* the two files go again *)
  assert (∀ s2, fds (plus (plus ext rf) wf) [] s2 →
    wlp (onfl (fileclose rf) ;; onfl (fileclose wf) ;; mret (-1)) (λ _, I) s2) as Hbad.
  { intros s2 H2. apply wpg_bind. eapply W_sclose; [exact H2|apply in_nil_iff'|]. intros s3 H3.
    apply wpg_bind. eapply W_sclose; [exact H3|apply in_nil_iff'|]. intros s4 H4. apply wpg_ret.
    eapply fd_ok_eq; [exact H4|intros j; unfold plus, minus; lia|done]. }
  apply wpg_bind. eapply W_fdalloc; [exact Hs1|done| |].
  { apply wpg_bind. cbn. apply wpg_bind, wpg_ret, Hbad, Hs1. }
  intros fd0 s2 Hfd0 Hof Hs2. destruct (Z.ltb_spec fd0 0); [lia|]. apply wpg_bind. eapply W_fdalloc; [exact Hs2|done| |].
  - cbn [orb]. rewrite Z.geb_leb, (proj2 (Z.leb_le 0 fd0) Hfd0). cbn [Z.ltb when]. apply wpg_bind, (wpg_modify false). cbv beta.
    apply Hbad. eapply fd_ok_eq; [by eapply ofile_clear|apply minus_plus|done].
  - intros fd1 s3 Hfd1 _ Hs3. destruct (Z.ltb_spec fd1 0); [lia|]. cbn [orb].
    assert (I s3) as H3 by (eapply fd_ok_eq; [exact Hs3|intros j; unfold plus, minus; lia|done]).
    clear Hs3. revert s3 H3. match goal with |- ∀ s, I s → wlp ?m _ s => fold (keeps I m) end. keep.
Qed.
End Ext.
End Changes.

(** ** fork and exit *)

Section Fork.
Context {S : Type} `{BS : BlockStore S} {DV : DevSw S}.

(** The loops of [fork] and [exit] (proc.c) over the descriptors. *)
Fixpoint fork_files (l np : list (option nat)) : M (fls S) (list (option nat)) :=
  match l, np with
  | o :: l, n :: np =>
      n' ← match o with
           | Some f => f ← filedup f; mret (Some f)
           | None => mret n
           end;
      np' ← fork_files l np;
      mret (n' :: np')
  | _, _ => mret np
  end.
Definition exit_files : M (scall S) unit :=
  for_each (seq 0 NOFILE) (λ fd,
    o ← deref (λ s, ofile s !! fd);
    match o with
    | Some f => onfl (fileclose f) ;; ofile_set fd None
    | None => mret tt
    end).
End Fork.

Section ForkProps.
Context {S : Type} `{BS : BlockStore S} {DV : DevSw S}.
Implicit Types (s : scall S) (ext : nat → Z).

Lemma nrefs_cons i o l : nrefs i (o :: l) = (if bool_decide (o = Some i) then 1 else 0) + nrefs i l.
Proof. unfold nrefs. rewrite filter_cons. destruct (decide (o = Some i)); [rewrite bool_decide_true by done|rewrite bool_decide_false by done]; cbn [length]; lia. Qed.

(** The child's descriptors are the parent's; each counts once more. *)
Lemma W_fork_files l : ∀ ext ofl n (x : fls S) (Q : list (option nat) → fls S → Prop),
  length l = n → fd_ok ext [] (ftable x) ofl →
  (∀ x', fd_ok (λ i, ext i + nrefs i l) [] (ftable x') ofl → Q l x') →
  wlp (fork_files l (replicate n None)) Q x.
Proof.
  induction l as [|o l IH]; intros ext ofl n x Q <- Hx HQ; cbn [length replicate fork_files].
  - apply wpg_ret, HQ. eapply fd_ok_eq; [exact Hx|intros j; unfold nrefs; cbn; lia|done].
  - apply wpg_bind. assert (∀ o' x', fd_ok (λ i, ext i + (if bool_decide (o' = Some i) then 1 else 0)) [] (ftable x') ofl → o' = o →
      wlp (np' ← fork_files l (replicate (length l) None); mret (o' :: np')) Q x') as Hgo.
    { intros o' x' H' ->. apply wpg_bind. eapply IH; [done|exact H'|]. intros x2 H2. apply wpg_ret, HQ.
      eapply fd_ok_eq; [exact H2|intros j; rewrite nrefs_cons; lia|done]. }
    destruct o as [f|].
    + apply wpg_bind. eapply W_filedup; [exact Hx|apply not_elem_of_nil|]. intros x' Hx'. apply wpg_ret, Hgo; [|done].
      eapply fd_ok_eq; [exact Hx'|intros j; unfold plus, ind|done]. f_equal. repeat case_bool_decide; congruence.
    + apply wpg_ret, Hgo; [|done]. eapply fd_ok_eq; [exact Hx|intros j; rewrite bool_decide_false by done; lia|done].
Qed.

(** [exit] closes every descriptor. *)
Lemma W_exit_files ext s :
  fds ext [] s → wlp exit_files (λ _ s', fds ext [] s' ∧ ofile s' = replicate NOFILE None) s.
Proof.
  intros Hs. apply (wpg_for_seq _ _ (λ k s', fds ext [] s' ∧ ∀ fd, (fd < k)%nat → ofile s' !! fd = Some None)).
  - split; [done|]. intros fd Hfd. lia.
  - intros k s' Hk [H' Hc]. apply wpg_bind. unfold wpg, deref. destruct (ofile s' !! k) as [[f|]|] eqn:E; [|..|done].
    + apply wpg_bind. assert (wlp (onfl (fileclose f)) (λ _ s2, fds (minus ext f) [] s2 ∧ ofile s2 = ofile s') s') as Hclose.
      { apply wpg_zoom. eapply W_fileclose; [exact H'|]. intros x' Hx. split; [exact Hx|done]. }
      eapply wpg_mono; [exact Hclose|]. intros [] s2 [H2 E2]. apply (wpg_modify false). split.
      * eapply fd_ok_eq; [eapply ofile_clear; [exact H2|by rewrite E2]|apply minus_plus|done].
      * intros fd Hfd. cbn. rewrite E2. destruct (decide (fd = k)) as [->|]; [apply list_lookup_insert_eq; by eapply lookup_lt_Some|].
        rewrite list_lookup_insert_ne by done. apply Hc. lia.
    + apply wpg_ret. split; [done|]. intros fd Hfd. destruct (decide (fd = k)) as [->|]; [done|apply Hc; lia].
  - intros s' [H' Hc]. split; [done|]. pose proof (fd_slots _ _ _ _ H') as Hl. apply list_eq. intros fd.
    destruct (decide (fd < NOFILE)%nat); [rewrite Hc, lookup_replicate_2 by lia; done|].
    rewrite !lookup_ge_None_2; [done|rewrite length_replicate; lia|lia].
Qed.
End ForkProps.

(** ** All processes *)

Record uproc := mkUp { up_sz : Z; up_esp : Z; up_eax : Z; up_mem : bytes; up_ofile : list (option nat) }.
Record fsys (S : Type) := mkFsys { yfl : fls S; yprocs : list uproc }.
Arguments mkFsys {S}.
Arguments yfl {S}.
Arguments yprocs {S}.

Inductive fscall :=
  | Sys_dup | Sys_read | Sys_write | Sys_close | Sys_fstat | Sys_link | Sys_unlink | Sys_open | Sys_mkdir | Sys_mknod
  | Sys_chdir | Sys_pipe (page : option (nat * bytes)).

Section System.
Context {S : Type} `{BS : BlockStore S} {DV : DevSw S}.
Implicit Types (y : fsys S) (x : fls S) (u : uproc).

Definition call_of x u : scall S := mkSc x (up_sz u) (up_esp u) (up_eax u) (up_mem u) (up_ofile u).
Definition proc_of (s : scall S) : uproc := mkUp (usz s) (uesp s) (ueax s) (umem s) (ofile s).
Definition run_call (c : fscall) : M (scall S) unit :=
  match c with
  | Sys_dup => sys_dup ;; mret tt
  | Sys_read => sys_read ;; mret tt
  | Sys_write => sys_write ;; mret tt
  | Sys_close => sys_close ;; mret tt
  | Sys_fstat => sys_fstat ;; mret tt
  | Sys_link => sys_link ;; mret tt
  | Sys_unlink => sys_unlink ;; mret tt
  | Sys_open => sys_open ;; mret tt
  | Sys_mkdir => sys_mkdir ;; mret tt
  | Sys_mknod => sys_mknod ;; mret tt
  | Sys_chdir => sys_chdir ;; mret tt
  | Sys_pipe page => sys_pipe page ;; mret tt
  end.

(** A step of one process: a file system call; a pipe call that slept and goes
    on; a fork into a free slot; an exit; anything else that leaves the
    descriptors alone (the user program, other system calls). *)
Inductive fstep : fsys S → fsys S → Prop :=
  | FS_call x l p u c s : l !! p = Some u → run_call c (call_of x u) = Ok (tt, s) →
      fstep (mkFsys x l) (mkFsys (sfl s) (<[p := proc_of s]> l))
  | FS_pipe {A} x l i (m : M pst A) a x' : onpipe i m x = Ok (a, x') → fstep (mkFsys x l) (mkFsys x' l)
  | FS_fork x l p q u v v' d x' : l !! p = Some u → l !! q = Some v → p ≠ q → up_ofile v = replicate NOFILE None →
      fork_files (up_ofile u) (up_ofile v) x = Ok (d, x') → up_ofile v' = d →
      fstep (mkFsys x l) (mkFsys x' (<[q := v']> l))
  | FS_exit x l p u s : l !! p = Some u → exit_files (call_of x u) = Ok (tt, s) →
      fstep (mkFsys x l) (mkFsys (sfl s) (<[p := proc_of s]> l))
  | FS_user x l p u u' : l !! p = Some u → up_ofile u' = up_ofile u → fstep (mkFsys x l) (mkFsys x (<[p := u']> l)).

(** The descriptors that refer to file [i]. *)
Definition allrefs (i : nat) (l : list uproc) : Z := foldr (λ u n, nrefs i (up_ofile u) + n) 0 l.

Record files_ok y : Prop := {
  fo_ref : ∀ i f, ftable (yfl y) !! i = Some f → fref f = allrefs i (yprocs y);
  fo_type : ∀ i f, ftable (yfl y) !! i = Some f → fref f = 0 ↔ ftype f = FD_NONE;
  fo_files : length (ftable (yfl y)) = NFILE;
  fo_slots : ∀ p u, yprocs y !! p = Some u → length (up_ofile u) = NOFILE;
  fo_valid : ∀ p u fd i, yprocs y !! p = Some u → up_ofile u !! fd = Some (Some i) → (i < NFILE)%nat
}.

Lemma allrefs_insert i l : ∀ p u u',
  l !! p = Some u → allrefs i (<[p := u']> l) = allrefs i l - nrefs i (up_ofile u) + nrefs i (up_ofile u').
Proof.
  induction l as [|v l IH]; intros [|p] u u' Hp; cbn in Hp; try done.
  - injection Hp as ->. cbn. lia.
  - change (nrefs i (up_ofile v) + allrefs i (<[p := u']> l) = nrefs i (up_ofile v) + allrefs i l - nrefs i (up_ofile u) + nrefs i (up_ofile u')).
    rewrite (IH _ _ u' Hp). lia.
Qed.
Lemma nrefs_nonneg i l : 0 ≤ nrefs i l.
Proof. unfold nrefs. lia. Qed.
Lemma allrefs_nonneg i l : 0 ≤ allrefs i l.
Proof. induction l as [|u l IH]; cbn; [done|]. fold (allrefs i l). pose proof (nrefs_nonneg i (up_ofile u)). lia. Qed.
Lemma allrefs_pos i l p u fd : l !! p = Some u → up_ofile u !! fd = Some (Some i) → 0 < allrefs i l.
Proof.
  intros Hp Hfd. pose proof (nrefs_pos _ _ _ Hfd) as H. pose proof (allrefs_insert i l p u (mkUp 0 0 0 [] []) Hp) as E.
  pose proof (allrefs_nonneg i (<[p := mkUp 0 0 0 [] []]> l)). unfold nrefs at 2 in E. cbn in E. lia.
Qed.

(** What process [p] sees of it. *)
Definition others (l : list uproc) (p : nat) (i : nat) : Z :=
  allrefs i l - match l !! p with Some u => nrefs i (up_ofile u) | None => 0 end.

Lemma files_fds x l p u : files_ok (mkFsys x l) → l !! p = Some u → fd_ok (others l p) [] (ftable x) (up_ofile u).
Proof.
  intros [H1 H2 H3 H4 H5] Hp. cbn [yfl yprocs] in *. split.
  - intros i f Hf. unfold others. rewrite Hp, (H1 i f Hf). lia.
  - intros i f Hf _. split; [rewrite (H1 i f Hf); apply allrefs_nonneg|by eapply H2].
  - intros i Hi. by apply not_elem_of_nil in Hi.
  - intros fd i. by apply (H5 p u).
  - done.
  - by apply (H4 p).
Qed.
Lemma fds_files x x' l p u u' :
  files_ok (mkFsys x l) → l !! p = Some u → fd_ok (others l p) [] (ftable x') (up_ofile u') → files_ok (mkFsys x' (<[p := u']> l)).
Proof.
  intros [H1 H2 H3 H4 H5] Hp [G1 G2 _ G4 G5 G6]. cbn [yfl yprocs] in *. split; cbn [yfl yprocs].
  - intros i f Hf. rewrite (allrefs_insert _ _ _ u) by done. rewrite (G1 i f Hf). unfold others. rewrite Hp. lia.
  - intros i f Hf. apply (G2 i f Hf). apply not_elem_of_nil.
  - done.
  - intros q v. destruct (decide (q = p)) as [->|]; [rewrite list_lookup_insert_eq by (by eapply lookup_lt_Some); by intros [= <-]|].
    rewrite list_lookup_insert_ne by done. apply H4.
  - intros q v fd i. destruct (decide (q = p)) as [->|]; [rewrite list_lookup_insert_eq by (by eapply lookup_lt_Some); intros [= <-]; apply G4|].
    rewrite list_lookup_insert_ne by done. apply H5.
Qed.

Lemma keeps_run_call c ext : keeps (fds ext []) (run_call c).
Proof.
  destruct c; unfold run_call; (apply keeps_bind; [|intros ?; apply keeps_ret]).
  - apply keeps_sys_dup.
  - apply keeps_sys_read.
  - apply keeps_sys_write.
  - apply keeps_sys_close.
  - apply keeps_sys_fstat.
  - apply keeps_sys_link.
  - apply keeps_sys_unlink.
  - apply keeps_sys_open.
  - apply keeps_sys_mkdir.
  - apply keeps_sys_mknod.
  - apply keeps_sys_chdir.
  - apply keeps_sys_pipe.
Qed.

Lemma fstep_ok y y' : fstep y y' → files_ok y → files_ok y'.
Proof.
  intros [x l p u c s Hp E|A x l i m a x' E|x l p q u v v' d x' Hp Hq Hne Hv E <-|x l p u s Hp E|x l p u u' Hp Ho] H.
  - apply (fds_files x _ l p u); [done..|]. apply (wpg_ok_inv false _ (λ _, fds (others l p) []) (call_of x u) _ _ (keeps_run_call c _ (call_of x u) (files_fds x l p u H Hp)) E).
  - enough (ftable x' = ftable x) as Eq by (destruct H as [H1 H2 H3 H4 H5]; split; cbn [yfl yprocs] in *; rewrite ?Eq; done).
    exact (wpg_ok_inv false _ (λ _ x', ftable x' = ftable x) _ _ _ (W_onpipe i m (λ _ x', ftable x' = ftable x) x (λ _ _ e, e)) E).
  - apply (fds_files x _ l q v); [done..|]. pose proof (files_fds x l q v H Hq) as Hf. pose proof (fo_slots _ H p u Hp) as Hl.
    rewrite Hv in E. eapply (wpg_ok_inv false _ (λ d x', fd_ok (others l q) [] (ftable x') d) _ _ _); [|exact E].
    eapply W_fork_files; [done|exact Hf|]. intros x2 [G1 G2 G3 G4 G5 G6]. split; [|done..| |done|done].
    + intros i f Hfi. rewrite (G1 i f Hfi), Hv. replace (nrefs i (replicate NOFILE None)) with 0 by reflexivity. lia.
    + intros fd i. by apply (fo_valid _ H p u).
  - apply (fds_files x _ l p u); [done..|]. pose proof (W_exit_files _ (call_of x u) (files_fds x l p u H Hp)) as Hw.
    exact (proj1 (wpg_ok_inv false _ _ _ _ _ Hw E)).
  - apply (fds_files x _ l p u); [done..|]. rewrite Ho. by apply files_fds.
Qed.
End System.

(** C34. File system calls by any number of processes, with forks, exits and
    pipe calls that sleep and go on, in any order, keep the table of open files
    right: the reference count of every file is the number of descriptors of all
    processes that refer to it, a file without references is free and only such
    a file, and every descriptor refers to a file of the table.  So a descriptor
    never refers to a file that has been freed. *)
Theorem descriptors_counted {S} `{BS : BlockStore S} {DV : DevSw S} (y y' : fsys S) :
  files_ok y → rtc fstep y y' →
  files_ok y' ∧
  ∀ p u fd i, yprocs y' !! p = Some u → up_ofile u !! fd = Some (Some i) →
  ∃ f, ftable (yfl y') !! i = Some f ∧ 1 ≤ fref f ∧ ftype f ≠ FD_NONE.
Proof.
  intros H Hs. assert (files_ok y') as H' by (induction Hs as [|y1 y2 y3 Hst _ IH]; [done|by apply IH, (fstep_ok y1)]).
  split; [done|]. intros p u fd i Hp Hfd. pose proof (fo_valid _ H' _ _ _ _ Hp Hfd) as Hi. rewrite <- (fo_files _ H') in Hi.
  apply lookup_lt_is_Some_2 in Hi as [f Hf]. exists f. pose proof (allrefs_pos i _ _ _ _ Hp Hfd) as Hpos. rewrite <- (fo_ref _ H' _ _ Hf) in Hpos.
  split; [done|]. split; [lia|]. rewrite <- (fo_type _ H' _ _ Hf). lia.
Qed.

(** Two processes without open files; the first makes a pipe (the words at 4
    are its argument, the address 8), duplicates the descriptor at that address,
    and forks. *)
Definition free_entry : file := mkFile FD_NONE 0 0 0 0 0 0.
Definition fls0 : fls lst :=
  mkFls (mkFst (mkLst (mkBst ∅ None None ∅ 0 [] demo_ctx) fs_log) demo_ctx demo_sb [] 0) (replicate NFILE free_entry) ∅ demo_ctx.
Definition uproc0 : uproc := mkUp 16 0 0 [0; 0; 0; 0; 8; 0; 0; 0; 0; 0; 0; 0; 0; 0; 0; 0] (replicate NOFILE None).
Definition fsys0 : fsys lst := mkFsys fls0 [uproc0; uproc0].

Lemma fsys0_ok : files_ok fsys0.
Proof.
  split; cbn [fsys0 yfl yprocs fls0 ftable].
  - intros i f [-> Hi]%lookup_replicate. reflexivity.
  - by intros i f [-> _]%lookup_replicate.
  - done.
  - intros [|[|p]] u; cbn; try done; by intros [= <-].
  - intros p u fd i Hp Hfd. assert (up_ofile u = replicate NOFILE None) as E by (destruct p as [|[|p]]; cbn in Hp; try done; injection Hp as <-; reflexivity).
    rewrite E in Hfd. by apply lookup_replicate in Hfd as [? _].
Qed.

Definition at_sp (a : Z) (u : uproc) : uproc := mkUp (up_sz u) a (up_eax u) (up_mem u) (up_ofile u).
Lemma run_step {S} `{BS : BlockStore S} {DV : DevSw S} (y1 y2 y3 : fsys S) : fstep y1 y2 → rtc fstep y2 y3 → rtc fstep y1 y3.
Proof. apply rtc_l. Qed.

Lemma descriptors_counted_witness :
  ∃ y', rtc fstep fsys0 y' ∧ files_ok y' ∧ fref <$> take 3 (ftable (yfl y')) = [1; 4; 0] ∧
        map (λ u, take 4 (up_ofile u)) (yprocs y') = [[Some 0; Some 1; Some 1; None]; [None; Some 1; Some 1; None]]%nat.
Proof.
  assert (∃ y', rtc fstep fsys0 y' ∧ fref <$> take 3 (ftable (yfl y')) = [1; 4; 0] ∧
        map (λ u, take 4 (up_ofile u)) (yprocs y') = [[Some 0; Some 1; Some 1; None]; [None; Some 1; Some 1; None]]%nat) as (y' & H & E1 & E2).
  { eexists. split.
    - eapply run_step; [apply (FS_call fls0 [uproc0; uproc0] 0 uproc0 (Sys_pipe (Some (5%nat, [])))); [reflexivity|vm_compute; reflexivity]|].
      eapply run_step; [eapply (FS_user _ _ 0 _ (at_sp 8 _)); [reflexivity|reflexivity]|].
      eapply run_step; [eapply (FS_call _ _ 0 _ Sys_dup); [reflexivity|vm_compute; reflexivity]|].
      eapply run_step; [eapply (FS_fork _ _ 0 1 _ _ (mkUp 16 4 0 (replicate 16 0) _)); [reflexivity|reflexivity|done|reflexivity|vm_compute; reflexivity|reflexivity]|].
      eapply run_step; [eapply (FS_call _ _ 1 _ Sys_close); [reflexivity|vm_compute; reflexivity]|].
      apply rtc_refl.
    - split; reflexivity. }
  exists y'. split; [exact H|]. destruct (descriptors_counted fsys0 y' fsys0_ok H) as [Hok _]. split; [exact Hok|]. by split.
Defined.
