(* ===== verification/Umalloc.v ===== *)
(** * The user-level allocator (umalloc.c)

    The free list of Kernighan and Ritchie in the memory of a user program:
    a circular list of blocks in the order of their addresses, each with a
    header of two words, the next block and the size in units of a header.
    Memory is the bytes at the addresses from 0 to the size of the process. *)

From S2P Require Export Bytes.
Local Open Scope Z_scope.

(** The memory of the program and [freep]. *)
Record ust := mkUst { heap : bytes; freep : Z }.
Definition set_heap (m : bytes) (s : ust) : ust := mkUst m (freep s).
Definition set_freep (p : Z) (s : ust) : ust := mkUst (heap s) p.

(** [sizeof(Header)]. *)
Definition HDR : Z := 8.

Section Umalloc.
(** The address of [base], and what the kernel does to the memory of the process
    when [sbrk] asks for [n] more bytes: [None] when it refuses. *)
Context (base : Z) (growproc : bytes → Z → option bytes).

Definition load (a : Z) : M ust Z :=
  deref (λ s, if bool_decide (0 ≤ a ∧ a + 4 ≤ Z.of_nat (length (heap s))) then Some (get32 (heap s) (Z.to_nat a)) else None).
Definition store (a v : Z) : M ust unit :=
  load a ;; modify (λ s, set_heap (put32 (heap s) (Z.to_nat a) v) s).

(** [p->s.ptr] and [p->s.size]. *)
Definition s_ptr (p : Z) : M ust Z := load p.
Definition s_size (p : Z) : M ust Z := load (p + 4).
Definition set_s_ptr (p v : Z) : M ust unit := store p v.
Definition set_s_size (p v : Z) : M ust unit := store (p + 4) v.

(** [p + n] on headers. *)
Definition hadd (p n : Z) : Z := u32 (p + HDR * n).

Fixpoint free_loop (fuel : nat) (bp p : Z) : M ust Z :=
  match fuel with
  | O => diverge
  | S fuel =>
      q ← s_ptr p;
      if (bp >? p) && (bp <? q) then mret p
      else if (p >=? q) && ((bp >? p) || (bp <? q)) then mret p
      else free_loop fuel bp q
  end.

Definition free (ap : Z) : M ust unit :=
  let bp := hadd ap (-1) in
  fuel ← gets (λ s, length (heap s));
  p ← gets freep;
  p ← free_loop fuel bp p;
  n ← s_size bp;
  q ← s_ptr p;
  (if hadd bp n =? q then
     nq ← s_size q;
     set_s_size bp (u32 (n + nq)) ;;
     qq ← s_ptr q;
     set_s_ptr bp qq
   else set_s_ptr bp q) ;;
  np ← s_size p;
  (if hadd p np =? bp then
     nb ← s_size bp;
     set_s_size p (u32 (np + nb)) ;;
     b ← s_ptr bp;
     set_s_ptr p b
   else set_s_ptr p bp) ;;
  modify (set_freep p).

(** The system call: the old end of the memory, or -1. *)
Definition sbrk (n : Z) : M ust Z := λ s,
  match growproc (heap s) n with
  | Some m => Ok (Z.of_nat (length (heap s)), set_heap m s)
  | None => Ok (u32 (-1), s)
  end.

Definition morecore (nu : Z) : M ust Z :=
  let nu := if nu <? 4096 then 4096 else nu in
  p ← sbrk (i32 (u32 (nu * HDR)));
  if p =? u32 (-1) then mret 0
  else
    set_s_size p nu ;;
    free (hadd p 1) ;;
    gets freep.

Fixpoint malloc_loop (fuel : nat) (nunits prevp p : Z) : M ust Z :=
  match fuel with
  | O => diverge
  | S fuel =>
      n ← s_size p;
      if n >=? nunits then
        p ← (if n =? nunits then q ← s_ptr p; set_s_ptr prevp q ;; mret p
             else
               set_s_size p (u32 (n - nunits)) ;;
               n ← s_size p;
               set_s_size (hadd p n) nunits ;;
               mret (hadd p n));
        modify (set_freep prevp) ;;
        mret (hadd p 1)
      else
        fp ← gets freep;
        if p =? fp then
          p ← morecore nunits;
          if p =? 0 then mret 0
          else q ← s_ptr p; malloc_loop fuel nunits p q
        else q ← s_ptr p; malloc_loop fuel nunits p q
  end.

Definition malloc (nbytes : Z) : M ust Z :=
  let nunits := u32 (u32 (nbytes + HDR - 1) / HDR + 1) in
  prevp ← gets freep;
  prevp ← (if prevp =? 0 then
             modify (set_freep base) ;;
             set_s_ptr base base ;;
             set_s_size base 0 ;;
             mret base
           else mret prevp);
  p ← s_ptr prevp;
  fuel ← gets (λ s, 2 * length (heap s) + 4)%nat;
  malloc_loop fuel nunits prevp p.
End Umalloc.
