(* ===== verification/UmallocRep.v ===== *)
(** * The free list of the user-level allocator

    The circular list as a list of blocks, and what its loads and stores mean. *)

From S2P Require Export Umalloc.
Local Open Scope Z_scope.

Implicit Types (m : bytes) (L B U : list (Z * Z)) (a z : Z).

Definition ld m a : Z := get32 m (Z.to_nat a).
Definition st m a v : bytes := put32 m (Z.to_nat a) v.
Notation len m := (Z.of_nat (length m)).

Lemma st_length m a v : len (st m a v) = len m.
Proof. unfold st. by rewrite put_le_length. Qed.
Lemma ld_st m a v : 0 ≤ a → a + 4 ≤ len m → 0 ≤ v < 2 ^ 32 → ld (st m a v) a = v.
Proof. intros H0 H1 Hv. apply get_put_le; [lia|exact Hv]. Qed.
Lemma ld_st_ne m a b v : 0 ≤ a → 0 ≤ b → b + 4 ≤ a ∨ a + 4 ≤ b → ld (st m a v) b = ld m b.
Proof. intros Ha Hb H. apply get_put_le_ne. lia. Qed.
Lemma st_byte m a v i : 0 ≤ a → 0 ≤ i → i < a ∨ a + 4 ≤ i → st m a v !! Z.to_nat i = m !! Z.to_nat i.
Proof.
  intros Ha Hi H. unfold st, put_le. destruct H; [apply list_lookup_inserts_lt; lia|apply list_lookup_inserts_ge; rewrite le_split_length; lia].
Qed.

(** ** Blocks *)

Definition bend (x : Z * Z) : Z := x.1 + HDR * x.2.
Definition hd_addr L z : Z := match L with [] => z | (a, _) :: _ => a end.

(** The headers of the blocks [L], linked, the last to [z]. *)
Fixpoint chain m L z : Prop :=
  match L with
  | [] => True
  | (a, n) :: L => 0 ≤ a ∧ a + HDR ≤ len m ∧ 0 ≤ n < 2 ^ 32 ∧ ld m a = hd_addr L z ∧ ld m (a + 4) = n ∧ chain m L z
  end.

(** In the order of their addresses from [lo] on, and not touching. *)
Fixpoint apart lo L : Prop :=
  match L with
  | [] => True
  | x :: L => lo < x.1 ∧ 1 ≤ x.2 ∧ apart (bend x) L
  end.

Definition total L : Z := foldr (λ x n, x.2 + n) 0 L.
Definition disj (x y : Z * Z) : Prop := bend x ≤ y.1 ∨ bend y ≤ x.1.

Lemma hd_addr_app L1 L2 z : hd_addr (L1 ++ L2) z = hd_addr L1 (hd_addr L2 z).
Proof. by destruct L1 as [|[]]. Qed.
Lemma blocks_app m L1 L2 z : chain m (L1 ++ L2) z ↔ chain m L1 (hd_addr L2 z) ∧ chain m L2 z.
Proof. induction L1 as [|[a n] L1 IH]; cbn; [tauto|]. rewrite hd_addr_app, IH. tauto. Qed.

(** A store outside of the headers. *)
Lemma chain_st m L z a v :
  0 ≤ a → chain m L z → (∀ x, x ∈ L → x.1 + HDR ≤ a ∨ a + 4 ≤ x.1) → chain (st m a v) L z.
Proof.
  intros Ha. induction L as [|[x n] L IH]; cbn [chain]; [done|]. intros (H1 & H2 & H3 & H4 & H5 & H6) Hout.
  pose proof (Hout (x, n) ltac:(by left)) as Hx. cbn in Hx. unfold HDR in *.
  rewrite st_length, !ld_st_ne by lia. split_and!; try done; try lia. apply IH; [done|]. intros y Hy. apply Hout. by right.
Qed.
(** Memory that grows. *)
Lemma ld_grow m l a : 0 ≤ a → a + 4 ≤ len m → ld (m ++ l) a = ld m a.
Proof. intros Ha Hl. unfold ld, get_le. rewrite drop_app_le, take_app_le; [done|rewrite length_drop; lia|lia]. Qed.
Lemma chain_grow m l L z : chain m L z → chain (m ++ l) L z.
Proof.
  induction L as [|[x n] L IH]; cbn [chain]; [done|]. intros (H1 & H2 & H3 & H4 & H5 & H6). unfold HDR in *.
  rewrite length_app, !ld_grow by lia. split_and!; try done; try lia. by apply IH.
Qed.
Lemma chain_in m L z x : chain m L z → x ∈ L → 0 ≤ x.1 ∧ x.1 + HDR ≤ len m ∧ 0 ≤ x.2 < 2 ^ 32 ∧ ld m (x.1 + 4) = x.2.
Proof.
  induction L as [|[a n] L IH]; cbn [chain]; [by intros _ ?%not_elem_of_nil|]. intros (H1 & H2 & H3 & H4 & H5 & H6) [->|Hx]%elem_of_cons; [done|by apply IH].
Qed.

(** What [p->s.ptr] is, by the position in the circular list. *)
Lemma chain_next m L z i a n :
  chain m L z → L !! i = Some (a, n) → ld m a = match L !! S i with Some (b, _) => b | None => z end.
Proof.
  revert i. induction L as [|[x k] L IH]; intros [|i]; cbn [chain lookup list_lookup]; [done|done| |].
  - intros (_ & _ & _ & H & _) [= <- <-]. rewrite H. by destruct L as [|[]].
  - intros (_ & _ & _ & _ & _ & H) Hi. by apply IH.
Qed.

Lemma apart_app lo L1 L2 : apart lo (L1 ++ L2) ↔ apart lo L1 ∧ apart (match last L1 with Some x => bend x | None => lo end) L2.
Proof.
  revert lo. induction L1 as [|x L1 IH]; intros lo; cbn [app apart]; [cbn; tauto|].
  rewrite IH, last_cons. destruct (last L1); tauto.
Qed.
Lemma apart_weaken lo lo' L : lo' ≤ lo → apart lo L → apart lo' L.
Proof. destruct L as [|x L]; cbn; [done|]. intros. intuition lia. Qed.
Lemma apart_lb lo L x : apart lo L → x ∈ L → lo < x.1 ∧ 1 ≤ x.2.
Proof.
  revert lo. induction L as [|y L IH]; intros lo; cbn; [by intros _ ?%not_elem_of_nil|].
  intros (H1 & H2 & H3) [->|Hx]%elem_of_cons; [done|]. apply IH in H3 as [H3 H4]; [|done]. unfold bend, HDR in *. lia.
Qed.
Lemma apart_disj lo L x y : apart lo L → x ∈ L → y ∈ L → x ≠ y → disj x y.
Proof.
  revert lo. induction L as [|w L IH]; intros lo; cbn [apart]; [by intros _ ?%not_elem_of_nil|].
  intros (H1 & H2 & H3) [->|Hx]%elem_of_cons [->|Hy]%elem_of_cons Hne; [done|..|by eapply IH].
  - left. apply apart_lb with (x := y) in H3; [lia|done].
  - right. apply apart_lb with (x := x) in H3; [lia|done].
Qed.
Lemma apart_inj lo L i j x y : apart lo L → L !! i = Some x → L !! j = Some y → x.1 = y.1 → i = j.
Proof.
  revert lo i j. induction L as [|w L IH]; intros lo [|i] [|j]; cbn [apart lookup list_lookup]; try done.
  - intros (H1 & H2 & H3) [= <-] Hj%list_elem_of_lookup_2 E. apply apart_lb with (x := y) in H3; [|done]. unfold bend, HDR in *. lia.
  - intros (H1 & H2 & H3) Hi%list_elem_of_lookup_2 [= <-] E. apply apart_lb with (x := x) in H3; [|done]. unfold bend, HDR in *. lia.
  - intros (H1 & H2 & H3) Hi Hj E. f_equal. by eapply IH.
Qed.
Lemma total_app L1 L2 : total (L1 ++ L2) = total L1 + total L2.
Proof. unfold total. induction L1 as [|x L1 IH]; cbn; [done|]. lia. Qed.
Lemma total_cons x L : total (x :: L) = x.2 + total L.
Proof. done. Qed.
Lemma total_nonneg L : (∀ x, x ∈ L → 1 ≤ x.2) → 0 ≤ total L.
Proof.
  induction L as [|x L IH]; intros H; [done|]. rewrite total_cons. pose proof (H x ltac:(by left)).
  assert (0 ≤ total L) by (apply IH; intros y Hy; apply H; by right). lia.
Qed.
Lemma apart_length lo L : apart lo L → Z.of_nat (length L) ≤ total L.
Proof.
  revert lo. induction L as [|y L IH]; intros lo; cbn [apart length]; [done|]. intros (_ & ? & ?%IH). rewrite total_cons. lia.
Qed.
