(* ===== verification/UmallocProps.v ===== *)
(** * malloc and free keep the heap *)

From S2P Require Export UmallocRep.
Local Open Scope Z_scope.

Implicit Types (m : bytes) (L B U : list (Z * Z)).
Notation len m := (Z.of_nat (length m)).

(** A block before the blocks [L], merged with the first when they touch. *)
Definition glue (x : Z * Z) L : list (Z * Z) :=
  match L with
  | y :: L' => if bend x =? y.1 then (x.1, x.2 + y.2) :: L' else x :: L
  | [] => [x]
  end.

(** The bytes outside the header at [a] are those of [m]. *)
Definition same_but (a b : Z) (m m' : bytes) : Prop :=
  length m' = length m ∧ ∀ i, 0 ≤ i → (i < a ∨ b ≤ i) → m' !! Z.to_nat i = m !! Z.to_nat i.

Lemma same_but_ld a b m m' x : same_but a b m m' → 0 ≤ x → x + 4 ≤ a ∨ b ≤ x → ld m' x = ld m x.
Proof.
  intros [Hl H] Hx Hd. unfold ld, get_le. f_equal. apply list_eq. intros i. destruct (decide (i < 4)%nat); [|by rewrite !lookup_take_ge by lia].
  rewrite !lookup_take_lt, !lookup_drop by done. specialize (H (x + Z.of_nat i) ltac:(lia) ltac:(lia)).
  by replace (Z.to_nat (x + Z.of_nat i)) with (Z.to_nat x + i)%nat in H by lia.
Qed.
Lemma same_but_chain a b m m' L z : same_but a b m m' → chain m L z → (∀ x, x ∈ L → x.1 + HDR ≤ a ∨ b ≤ x.1) → chain m' L z.
Proof.
  intros Hs. pose proof Hs as [Hl _]. induction L as [|[x n] L IH]; cbn [chain]; [done|]. intros (H1 & H2 & H3 & H4 & H5 & H6) Hout.
  pose proof (Hout (x, n) ltac:(by left)) as Hx. cbn in Hx. unfold HDR in *. rewrite Hl, !(same_but_ld a b m m') by (done || lia).
  split_and!; try done; try lia. apply IH; [done|]. intros y Hy. apply Hout. by right.
Qed.
Lemma same_but_st m m0 a b c v : same_but a b m0 m → a ≤ c → c + 4 ≤ b → 0 ≤ a → same_but a b m0 (st m c v).
Proof.
  intros [Hl H] H1 H2 H3. split; [rewrite <- Hl; apply Nat2Z.inj, st_length|]. intros i Hi Hd. rewrite st_byte by lia. by apply H.
Qed.
Lemma same_but_refl a b m : same_but a b m m.
Proof. done. Qed.

(** The addresses go up. *)
Definition incr L : Prop := ∀ i j x y, (i < j)%nat → L !! i = Some x → L !! j = Some y → x.1 < y.1.

Section Rules.
Context (base : Z) (t : bool).
Implicit Types (s : ust).

Lemma W_load a (Q : Z → ust → Prop) s : 0 ≤ a → a + 4 ≤ len (heap s) → Q (ld (heap s) a) s → wpg t (load a) Q s.
Proof. intros H1 H2 HQ. eapply wpg_deref; [|exact HQ]. by rewrite bool_decide_true by done. Qed.
Lemma W_store a v (Q : unit → ust → Prop) s :
  0 ≤ a → a + 4 ≤ len (heap s) → Q tt (set_heap (st (heap s) a v) s) → wpg t (store a v) Q s.
Proof. intros H1 H2 HQ. apply wpg_bind, W_load; [done..|]. by apply (wpg_modify t). Qed.

(** The block is linked to what follows it. *)
Lemma W_right bp n L s (Q : unit → ust → Prop) :
  let m := heap s in
  0 ≤ bp → 1 ≤ n → bend (bp, n) ≤ len m → len m < 2 ^ 31 → ld m (bp + 4) = n → 0 ≤ base < bp →
  chain m L base → (∀ y, y ∈ L → bend (bp, n) ≤ y.1 ∧ 1 ≤ y.2 ∧ bend y ≤ len m) →
  (∀ m', same_but bp (bp + HDR) m m' → chain m' (glue (bp, n) L) base → Q tt (set_heap m' s)) →
  wpg t (if hadd bp n =? hd_addr L base then
           nq ← s_size (hd_addr L base); set_s_size bp (u32 (n + nq)) ;; qq ← s_ptr (hd_addr L base); set_s_ptr bp qq
         else set_s_ptr bp (hd_addr L base)) Q s.
Proof.
  intros m Hbp Hn Hend Hlen Hsz Hbase HL Hy HQ. unfold bend, HDR in Hend. cbn [fst snd] in Hend.
  assert (hadd bp n = bend (bp, n)) as -> by (unfold hadd, bend, HDR; apply u32_id; cbn; lia).
  destruct (Z.eqb_spec (bend (bp, n)) (hd_addr L base)) as [E|E].
  - destruct L as [|[b nb] L]; [cbn in E; unfold bend, HDR in E; cbn in E; lia|]. cbn [hd_addr] in *. cbn [chain] in HL. destruct HL as (H1 & H2 & H3 & H4 & H5 & H6).
    destruct (Hy (b, nb) ltac:(by left)) as (Hy1 & Hy2 & Hy3). unfold bend, HDR in *. cbn [fst snd] in *. fold m in H4, H5.
    apply wpg_bind, W_load; [lia|fold m; lia|]. fold m. rewrite H5, u32_id by lia. apply wpg_bind, W_store; [lia|fold m; lia|]. fold m.
    apply wpg_bind, W_load; cbn [heap set_heap]; [lia|rewrite st_length; lia|]. rewrite ld_st_ne, H4 by lia.
    apply W_store; cbn [heap set_heap]; [lia|rewrite st_length; lia|].
    assert (same_but bp (bp + 8) m (st (st m (bp + 4) (n + nb)) bp (hd_addr L base))) as Hs by (repeat apply same_but_st; try lia; apply same_but_refl).
    apply HQ; [exact Hs|]. unfold glue. cbn [fst snd]. unfold bend, HDR. cbn [fst snd]. rewrite (proj2 (Z.eqb_eq _ b)) by lia.
    cbn [chain]. rewrite !st_length. unfold HDR.
    assert (0 ≤ hd_addr L base < 2 ^ 32) as Hhd.
    { destruct L as [|[c nc] L]; cbn; [lia|]. destruct H6 as (? & ? & _). unfold HDR in *. lia. }
    rewrite (ld_st _ bp), (ld_st_ne _ bp (bp + 4)), (ld_st _ (bp + 4)) by (rewrite ?st_length; lia).
    split_and!; try lia. apply (same_but_chain bp (bp + 8) m); [done|done|]. intros y Hin. unfold HDR. destruct (Hy y ltac:(by right)). lia.
  - apply W_store; [lia|fold m; lia|]. fold m.
    assert (same_but bp (bp + 8) m (st m bp (hd_addr L base))) as Hs by (repeat apply same_but_st; try lia; apply same_but_refl).
    apply HQ; [exact Hs|].
    assert (0 ≤ hd_addr L base < 2 ^ 32) as Hhd.
    { destruct L as [|[c nc] L]; cbn; [lia|]. destruct HL as (? & ? & _). unfold HDR in *. lia. }
    assert (chain (st m bp (hd_addr L base)) ((bp, n) :: L) base) as Hc.
    { cbn [chain]. rewrite st_length. unfold HDR. rewrite (ld_st _ bp), ld_st_ne by lia. split_and!; try lia.
      apply (same_but_chain bp (bp + 8) m); [done|done|]. intros y Hin. unfold HDR. destruct (Hy y Hin) as (? & _). unfold bend, HDR in *; cbn in *; lia. }
    unfold glue. destruct L as [|[b nb] L]; [done|]. cbn [fst]. by rewrite (proj2 (Z.eqb_neq _ b)).
Qed.

(** The block before it is linked to it. *)
Lemma W_left p np bp n L s (Q : unit → ust → Prop) :
  let m := heap s in
  0 ≤ p → p + HDR ≤ bp → 0 ≤ np → bend (p, np) ≤ bp → len m < 2 ^ 31 → 0 ≤ base < 2 ^ 31 →
  chain m ((bp, n) :: L) base → bend (bp, n) ≤ len m → (∀ y, y ∈ L → bend (bp, n) ≤ y.1) → 1 ≤ n →
  (∀ m', same_but p (p + HDR) m m' → chain m' (glue (p, np) ((bp, n) :: L)) base → Q tt (set_heap m' s)) →
  ld m (p + 4) = np →
  wpg t (if hadd p np =? bp then
           nb ← s_size bp; set_s_size p (u32 (np + nb)) ;; b ← s_ptr bp; set_s_ptr p b
         else set_s_ptr p bp) Q s.
Proof.
  intros m Hp Hpb Hnp Hend Hlen Hbase HL Hbe Hy Hn HQ Hsz. pose proof HL as HL'. cbn [chain] in HL. destruct HL as (H1 & H2 & H3 & H4 & H5 & H6).
  unfold bend, HDR in *. cbn [fst snd] in *. assert (0 ≤ hd_addr L base < 2 ^ 32) as Hhd.
  { destruct L as [|[c nc] L]; cbn; [lia|]. destruct H6 as (? & ? & _). unfold HDR in *. lia. }
  assert (hadd p np = p + 8 * np) as -> by (unfold hadd, HDR; apply u32_id; lia).
  unfold glue, bend, HDR in HQ. cbn [fst snd] in HQ. destruct (Z.eqb_spec (p + 8 * np) bp) as [E|E].
  - apply wpg_bind, W_load; [lia|fold m; lia|]. fold m. rewrite H5, u32_id by lia. apply wpg_bind, W_store; [lia|fold m; lia|]. fold m.
    apply wpg_bind, W_load; cbn [heap set_heap]; [lia|rewrite st_length; lia|]. rewrite ld_st_ne, H4 by lia.
    apply W_store; cbn [heap set_heap]; [lia|rewrite st_length; lia|].
    assert (same_but p (p + 8) m (st (st m (p + 4) (np + n)) p (hd_addr L base))) as Hs by (repeat apply same_but_st; try lia; apply same_but_refl).
    apply HQ; [exact Hs|]. cbn [chain]. rewrite !st_length. unfold HDR.
    rewrite (ld_st _ p), (ld_st_ne _ p (p + 4)), (ld_st _ (p + 4)) by (rewrite ?st_length; lia).
    split_and!; try lia. apply (same_but_chain p (p + 8) m); [done|done|]. intros y Hin. unfold HDR. specialize (Hy y Hin). lia.
  - apply W_store; [lia|fold m; lia|]. fold m.
    assert (same_but p (p + 8) m (st m p bp)) as Hs by (repeat apply same_but_st; try lia; apply same_but_refl).
    apply HQ; [exact Hs|]. assert (chain (st m p bp) ((bp, n) :: L) base) as Hc.
    { apply (same_but_chain p (p + 8) m); [done|done|]. intros y [->|Hin]%elem_of_cons; unfold HDR; cbn; [lia|]. specialize (Hy y Hin). lia. }
    cbn [chain hd_addr] in Hc |- *. rewrite st_length. unfold HDR in *. rewrite (ld_st _ p), ld_st_ne by lia. split_and!; try lia; tauto.
Qed.

(** The search stops at the last block before [bp], wherever it starts. *)
Lemma W_free_loop L k p np bp (Q : Z → ust → Prop) s fuel : ∀ i a n,
  chain (heap s) L base → incr L → L !! 0%nat = Some (base, 0) →
  L !! k = Some (p, np) → p < bp → (∀ y, L !! S k = Some y → bp < y.1) →
  L !! i = Some (a, n) → (if decide (i ≤ k)%nat then k - i < fuel else length L - i + k < fuel)%nat →
  Q p s → wpg t (free_loop fuel bp a) Q s.
Proof.
  induction fuel as [|fuel IH]; intros i a n HL Hinc Hbase Hk Hp Hnext Hi Hfuel HQ; [destruct (decide _); lia|]. cbn [free_loop].
  destruct (chain_in _ _ _ (a, n) HL ltac:(by eapply list_elem_of_lookup_2)) as (Ha1 & Ha2 & _). unfold HDR in Ha2. cbn [fst] in *.
  apply wpg_bind, W_load; [lia..|]. rewrite (chain_next _ _ _ _ _ _ HL Hi).
  assert (∀ j x, L !! j = Some x → (j ≤ k)%nat → x.1 ≤ p) as Hlow.
  { intros j x Hj Hjk. destruct (decide (j = k)) as [->|]; [rewrite Hk in Hj; by injection Hj as <-|].
    pose proof (Hinc j k _ _ ltac:(lia) Hj Hk). cbn in *. lia. }
  assert (∀ j x, L !! j = Some x → (k < j)%nat → bp < x.1) as Hhigh.
  { intros j x Hj Hjk. destruct (decide (j = S k)) as [->|]; [by apply Hnext|].
    destruct (lookup_lt_is_Some_2 L (S k)) as [y Hy]; [apply lookup_lt_Some in Hj; lia|].
    pose proof (Hinc (S k) j _ _ ltac:(lia) Hy Hj). pose proof (Hnext y Hy). lia. }
  pose proof (Hlow 0%nat _ Hbase ltac:(lia)) as Hb0. cbn [fst] in Hb0. apply lookup_lt_Some in Hk as Hkl.
  destruct (L !! S i) as [[q nq]|] eqn:Eq.
  - pose proof (Hinc i (S i) _ _ ltac:(lia) Hi Eq) as Haq. cbn [fst] in Haq. destruct (decide (i = k)) as [->|Hne].
    + assert (a = p) as -> by congruence. pose proof (Hnext _ Eq). cbn [fst] in *.
      rewrite (proj2 (Z.gtb_lt bp p)), (proj2 (Z.ltb_lt bp q)) by lia. apply wpg_ret, HQ.
    + destruct (decide (i ≤ k)%nat) as [Hik|Hik].
      * pose proof (Hlow (S i) _ Eq ltac:(lia)). cbn [fst] in *. rewrite (proj2 (Z.ltb_ge bp q)) by lia. rewrite andb_false_r.
        rewrite Z.geb_leb, (proj2 (Z.leb_gt q a)) by lia. cbn [andb]. apply (IH (S i) q nq); try done. destruct (decide _); lia.
      * pose proof (Hhigh i _ Hi ltac:(lia)). cbn [fst] in *. rewrite Z.gtb_ltb, (proj2 (Z.ltb_ge a bp)) by lia. cbn [andb].
        rewrite Z.geb_leb, (proj2 (Z.leb_gt q a)) by lia. cbn [andb]. apply (IH (S i) q nq); try done. apply lookup_lt_Some in Eq. destruct (decide _); lia.
  - apply lookup_ge_None in Eq. apply lookup_lt_Some in Hi as Hil. destruct (decide (i = k)) as [->|Hne].
    + assert (a = p) as -> by congruence. rewrite (proj2 (Z.ltb_ge bp base)), andb_false_r by lia.
      rewrite Z.geb_leb, (proj2 (Z.leb_le base p)), (proj2 (Z.gtb_lt bp p)) by lia. apply wpg_ret, HQ.
    + assert (k < i)%nat as Hki by lia. pose proof (Hhigh i _ Hi Hki). cbn [fst] in *.
      rewrite (proj2 (Z.ltb_ge bp base)), andb_false_r by lia. rewrite Z.gtb_ltb, (proj2 (Z.ltb_ge a bp)), andb_false_r by lia.
      apply (IH 0%nat base 0); try done. destruct (decide (i ≤ k)%nat); [lia|]. destruct (decide _); lia.
Qed.
End Rules.

(** ** Merging *)

Lemma glue_hd x L z : hd_addr (glue x L) z = x.1.
Proof. destruct x as [a n], L as [|y L]; cbn; [done|]. by destruct (_ =? _). Qed.
Lemma glue_cons x L : ∃ n L', glue x L = (x.1, n) :: L'.
Proof. destruct x as [a n], L as [|y L]; cbn; [eauto|]. destruct (_ =? _); eauto. Qed.
Lemma glue_total x L : total (glue x L) = x.2 + total L.
Proof. unfold total. destruct L as [|y L]; cbn; [done|]. destruct (_ =? _); cbn; lia. Qed.
Lemma glue_apart lo x L : lo < x.1 → 1 ≤ x.2 → apart (bend x - 1) L → apart lo (glue x L).
Proof.
  intros H1 H2 HL. destruct L as [|y L]; cbn [glue apart] in *; [done|]. destruct HL as (H3 & H4 & H5).
  destruct (Z.eqb_spec (bend x) y.1) as [E|E]; cbn [apart fst snd]; [|split_and!; try done; lia].
  split_and!; [done|lia|]. replace (bend (x.1, x.2 + y.2)) with (bend y); [done|]. unfold bend, HDR in *. cbn. lia.
Qed.
Lemma glue_forall (P : Z * Z → Prop) x L :
  (∀ x y, bend x = y.1 → P x → P y → P (x.1, x.2 + y.2)) → P x → (∀ y, y ∈ L → P y) → ∀ y, y ∈ glue x L → P y.
Proof.
  intros Hm Hx HL. destruct L as [|y L]; cbn [glue]; [by intros y ->%list_elem_of_singleton|].
  destruct (Z.eqb_spec (bend x) y.1) as [E|E]; intros w [->|Hw]%elem_of_cons; [apply Hm; [done..|apply HL; by left]|apply HL; by right|done|by apply HL].
Qed.
Lemma glue_big x L : (∀ y, y ∈ L → 1 ≤ y.2) → ∃ y, y ∈ glue x L ∧ y.1 = x.1 ∧ x.2 ≤ y.2.
Proof.
  intros HL. destruct L as [|y L]; cbn [glue]; [exists x; split; [by left|lia]|]. destruct (_ =? _).
  - eexists. split; [by left|]. cbn. specialize (HL y ltac:(by left)). lia.
  - exists x. split; [by left|lia].
Qed.
Lemma glue_in x L y : y ∈ L → (∀ w, w ∈ L → 1 ≤ w.2) → 0 ≤ x.2 → ∃ w, w ∈ glue x L ∧ y.2 ≤ w.2.
Proof.
  intros Hy HL Hx. destruct L as [|v L]; [by apply not_elem_of_nil in Hy|]. cbn [glue]. destruct (_ =? _).
  - apply elem_of_cons in Hy as [->|Hy]; [eexists; split; [by left|cbn; lia]|exists y; split; [by right|lia]].
  - exists y. split; [by right|lia].
Qed.
Lemma disj_merge u x y : 1 ≤ u.2 → bend x = y.1 → disj x u → disj y u → disj (x.1, x.2 + y.2) u.
Proof. unfold disj, bend, HDR. cbn. lia. Qed.
Lemma disj_sym x y : disj x y → disj y x.
Proof. unfold disj. tauto. Qed.

(** Where a block that is not free would be. *)
Lemma apart_split lo B bp : apart lo B → (∀ y, y ∈ B → y.1 ≠ bp) →
  ∃ b1 b2, B = b1 ++ b2 ∧ (∀ y, y ∈ b1 → y.1 < bp) ∧ ∀ y, y ∈ b2 → bp < y.1.
Proof.
  revert lo. induction B as [|x B IH]; intros lo; cbn [apart]; [exists [], []; split_and!; [done|..]; by intros y ?%not_elem_of_nil|].
  intros (H1 & H2 & H3) Hne. destruct (Z.lt_trichotomy x.1 bp) as [Hlt|[E|Hgt]].
  - destruct (IH _ H3) as (b1 & b2 & -> & Hb1 & Hb2); [intros y Hy; apply Hne; by right|]. exists (x :: b1), b2.
    split_and!; [done| |done]. intros y [->|Hy]%elem_of_cons; [done|by apply Hb1].
  - by destruct (Hne x ltac:(by left)).
  - exists [], (x :: B). split_and!; [done|by intros y ?%not_elem_of_nil|]. intros y [->|Hy]%elem_of_cons; [done|].
    apply apart_lb with (x := y) in H3 as [H3 _]; [|done]. unfold bend, HDR in *. lia.
Qed.
Lemma apart_incr lo B base : apart lo B → base ≤ lo → incr ((base, 0) :: B).
Proof.
  intros HB Hlo. assert (∀ i j x y, (i < j)%nat → B !! i = Some x → B !! j = Some y → x.1 < y.1) as HI.
  { clear Hlo. revert lo HB. induction B as [|w B IH]; intros lo; cbn [apart]; [done|]. intros (H1 & H2 & H3) [|i] [|j] x y Hij; cbn [lookup list_lookup]; try lia.
    - intros [= <-] Hj%list_elem_of_lookup_2. apply apart_lb with (x := y) in H3 as [H3 _]; [|done]. unfold bend, HDR in *. lia.
    - intros Hi Hj. eapply (IH _ H3 i j); [lia|done|done]. }
  intros [|i] [|j] x y Hij; cbn [lookup list_lookup]; try lia.
  - intros [= <-] Hj%list_elem_of_lookup_2. apply apart_lb with (x := y) in HB as [HB _]; [|done]. cbn. lia.
  - intros Hi Hj. eapply (HI i j); [lia|done|done].
Qed.

(** ** The heap: the free blocks and the blocks in use *)

Implicit Types (s : ust).

Section Heap.
Context (base hs : Z).

(** The free list [B], beside the blocks in use [U]. *)
Record free_ok B U s : Prop := {
  fr_chain : chain (heap s) ((base, 0) :: B) base;
  fr_apart : apart (hs - 1) B;
  fr_end : ∀ x, x ∈ B → bend x ≤ len (heap s);
  fr_freep : ∃ i x, ((base, 0) :: B) !! i = Some x ∧ x.1 = freep s;
  fr_disj : ∀ x u, x ∈ B → u ∈ U → disj x u;
  fr_total : HDR * (total B + total U) = len (heap s) - hs
}.
(** The blocks in use. *)
Record used_ok U s : Prop := {
  us_mem : 0 < base ∧ base + HDR ≤ hs ∧ hs ≤ len (heap s) ∧ len (heap s) < 2 ^ 31;
  us_in : ∀ x, x ∈ U → 1 ≤ x.2 ∧ hs ≤ x.1 ∧ bend x ≤ len (heap s) ∧ ld (heap s) (x.1 + 4) = x.2;
  us_nodup : NoDup U;
  us_disj : ∀ x y, x ∈ U → y ∈ U → x ≠ y → disj x y
}.
(** Before the first call there is no free list. *)
Definition heap_ok U s : Prop :=
  used_ok U s ∧ ((freep s = 0 ∧ U = [] ∧ len (heap s) = hs) ∨ ∃ B, free_ok B U s).

(** The user's bytes: all but the headers of the allocator. *)
Definition user_byte U (i : Z) : Prop :=
  0 ≤ i ∧ (i < base ∨ base + HDR ≤ i < hs ∨ ∃ x, x ∈ U ∧ x.1 + HDR ≤ i < bend x).
Definition keeps_bytes U m m' : Prop := ∀ i, user_byte U i → m' !! Z.to_nat i = m !! Z.to_nat i.

Lemma keeps_bytes_trans U m1 m2 m3 : keeps_bytes U m1 m2 → keeps_bytes U m2 m3 → keeps_bytes U m1 m3.
Proof. intros H1 H2 i Hi. rewrite (H2 i Hi). by apply H1. Qed.

(** The free list with one block more. *)
Lemma insert_block B bp n :
  apart (hs - 1) B → (∀ y, y ∈ B → disj y (bp, n)) → 1 ≤ n → hs ≤ bp → base + HDR ≤ hs →
  ∃ l1 p np b2 B', (base, 0) :: B = l1 ++ (p, np) :: b2 ∧
    (p + HDR ≤ bp ∧ 0 ≤ np ∧ bend (p, np) ≤ bp) ∧ (∀ y, y ∈ b2 → bend (bp, n) ≤ y.1) ∧ (p = base ∨ hs ≤ p ∧ (p, np) ∈ B) ∧
    l1 ++ glue (p, np) (glue (bp, n) b2) = (base, 0) :: B' ∧ apart (bp - 1) (glue (bp, n) b2) ∧ apart (hs - 1) B' ∧ total B' = total B + n ∧
    (∃ y, y ∈ B' ∧ n ≤ y.2) ∧ (length B' ≤ S (length B))%nat ∧
    ∀ P : Z * Z → Prop, (∀ x y, bend x = y.1 → P x → P y → P (x.1, x.2 + y.2)) → P (bp, n) → (∀ y, y ∈ B → P y) → ∀ y, y ∈ B' → P y.
Proof.
  intros Hap Hdj Hn Hbp Hb.
  assert (∀ x L, length (glue x L) ≤ S (length L))%nat as Hgl by (intros x [|y L]; cbn; [lia|destruct (_ =? _); cbn; lia]).
  assert (∀ y, y ∈ B → y.1 ≠ bp) as Hne.
  { intros y Hy E. pose proof (Hdj y Hy) as Hd. pose proof (apart_lb _ _ _ Hap Hy). unfold disj, bend, HDR in Hd. cbn in Hd. lia. }
  destruct (apart_split _ _ _ Hap Hne) as (b1 & b2 & -> & Hlo & Hhi). apply apart_app in Hap as [Hap1 Hap2].
  assert (∀ y, y ∈ b2 → bend (bp, n) ≤ y.1 ∧ 1 ≤ y.2) as Hb2.
  { intros y Hy. pose proof (Hhi y Hy). pose proof (apart_lb _ _ _ Hap2 Hy) as [? ?].
    destruct (Hdj y) as [Hd|Hd]; [apply elem_of_app; by right| |split; [exact Hd|done]]. unfold bend, HDR in Hd. cbn in Hd. lia. }
  assert (apart (bend (bp, n) - 1) b2) as Hr.
  { destruct b2 as [|y b2]; cbn [apart] in *; [done|]. destruct (Hb2 y ltac:(by left)). split_and!; try lia. tauto. }
  assert (∀ y, y ∈ glue (bp, n) b2 → bp ≤ y.1 ∧ 1 ≤ y.2) as Hg.
  { apply glue_forall; [cbn; lia|cbn; lia|]. intros y Hy. destruct (Hb2 y Hy). unfold bend, HDR in *. cbn in *. lia. }
  destruct b1 as [|[p np] b1' _] using rev_ind.
  - exists [], base, 0, b2, (glue (bp, n) b2). cbn [app]. unfold HDR in *. split_and!; try done; try (unfold bend, HDR; cbn; lia); try by left.
    + intros y Hy. by apply Hb2.
    + destruct (glue (bp, n) b2) as [|y g] eqn:E; [by destruct (glue_cons (bp, n) b2) as (? & ? & ?); congruence|]. cbn [glue]. rewrite (proj2 (Z.eqb_neq _ _)); [done|].
      destruct (Hg y ltac:(by left)). unfold bend, HDR. cbn. lia.
    + apply glue_apart; [cbn; lia|done|done].
    + apply glue_apart; [cbn; lia|done|done].
    + rewrite glue_total. cbn. lia.
    + destruct (glue_big (bp, n) b2) as (y & Hy & _ & Hy2); [intros y Hy; by apply Hb2|]. by exists y.
    + intros P HP Hx HB. by apply glue_forall.
  - pose proof (Hlo (p, np) ltac:(apply elem_of_app; right; by left)) as Hp. cbn [fst] in Hp.
    apply apart_app in Hap1 as [Hap1 Hapx]. cbn [apart fst snd] in Hapx. destruct Hapx as (Hx1 & Hx2 & _).
    rewrite last_snoc in Hap2. assert (hs - 1 < p) as Hpp.
    { pose proof (apart_lb (hs - 1) (b1' ++ [(p, np)]) (p, np)) as H. apply H; [|apply elem_of_app; right; by left]. apply apart_app. split; [done|]. cbn [apart fst snd]. by split_and!. }
    assert (bend (p, np) ≤ bp) as Hpe.
    { destruct (Hdj (p, np)) as [Hd|Hd]; [rewrite !elem_of_app; left; right; by left|exact Hd|]. unfold bend, HDR in Hd. cbn in Hd. lia. }
    exists ((base, 0) :: b1'), p, np, b2, (b1' ++ glue (p, np) (glue (bp, n) b2)). split_and!.
    + cbn. by rewrite <- app_assoc.
    + unfold bend, HDR in *. cbn in *. lia.
    + lia.
    + done.
    + intros y Hy. by apply Hb2.
    + right. split; [lia|]. rewrite !elem_of_app. left. right. by left.
    + done.
    + apply glue_apart; [cbn; lia|done|done].
    + apply apart_app. split; [done|]. apply glue_apart; [done|done|]. apply glue_apart; [cbn; lia|done|done].
    + rewrite !total_app, !glue_total. cbn. lia.
    + destruct (glue_big (bp, n) b2) as (y & Hy & _ & Hy2); [intros y Hy; by apply Hb2|]. cbn [snd] in Hy2.
      destruct (glue_in (p, np) (glue (bp, n) b2) y) as (w & Hw & Hw2); [done|intros w Hw; by apply Hg|cbn; lia|].
      exists w. rewrite elem_of_app. split; [by right|lia].
    + rewrite !length_app. cbn [length]. pose proof (Hgl (p, np) (glue (bp, n) b2)). pose proof (Hgl (bp, n) b2). lia.
    + intros P HP Hx HB y [Hy|Hy]%elem_of_app; [apply HB; rewrite !elem_of_app; by left; left|]. revert y Hy.
      apply glue_forall; [done|apply HB; rewrite !elem_of_app; left; right; by left|]. apply glue_forall; [done|done|].
      intros w Hw. apply HB, elem_of_app. by right.
Qed.

(** A header outside of the blocks in use. *)
Lemma same_but_bytes U m m' a :
  same_but a (a + HDR) m m' → a = base ∨ (hs ≤ a ∧ ∀ u, u ∈ U → a + HDR ≤ u.1 ∨ bend u ≤ a) → base + HDR ≤ hs → (∀ u, u ∈ U → hs ≤ u.1) → keeps_bytes U m m'.
Proof.
  intros [_ Hs] Ha Hb HU i [Hi Hui]. apply Hs; [done|]. destruct Hui as [?|[?|(u & Hu & ?)]].
  - unfold HDR in *. destruct Ha as [->|[Ha _]]; lia.
  - destruct Ha as [->|[Ha _]]; lia.
  - pose proof (HU u Hu). destruct Ha as [->|[Ha Hd]]; [unfold HDR in *; lia|]. destruct (Hd u Hu); unfold HDR in *; lia.
Qed.

(** [free] on the block [(bp, n)]; [(p, np)] is the free block (or [base])
    before it, and two headers are written: first at [bp], then at [p]. *)
Section Free.
Context (U : list (Z * Z)) (bp n : Z) (B : list (Z * Z)) (s : ust).
Context (Hu : used_ok ((bp, n) :: U) s) (Hf : free_ok B ((bp, n) :: U) s).
Notation before p np := (p = base ∨ hs ≤ p ∧ (p, np) ∈ B).

Lemma free_block : 1 ≤ n ∧ hs ≤ bp ∧ bp + 8 * n ≤ len (heap s) ∧ ld (heap s) (bp + 4) = n.
Proof. destruct (us_in _ _ Hu (bp, n) ltac:(by left)) as (? & ? & He & ?). unfold bend, HDR in He. cbn in *. by split_and!. Qed.

Lemma free_used u : u ∈ U → hs ≤ u.1 ∧ 1 ≤ u.2 ∧ disj (bp, n) u.
Proof.
  intros Hin. split_and!; [apply (us_in _ _ Hu); by right..|].
  apply (us_disj _ _ Hu); [by left|by right|]. intros <-. by pose proof (us_nodup _ _ Hu) as [? _]%NoDup_cons.
Qed.

Lemma free_used_apart p np u : before p np → u ∈ U →
  (bp + 8 ≤ u.1 ∨ bend u ≤ bp) ∧ (p = base ∨ p + 8 ≤ u.1 ∨ bend u ≤ p).
Proof.
  intros Hp Hin. destruct (free_used u Hin) as (? & ? & Hd), free_block as (? & _).
  split; [unfold disj, bend, HDR in *; cbn in *; lia|]. destruct Hp as [->|[_ HpB]]; [by left|right].
  pose proof (fr_disj _ _ _ Hf _ u HpB ltac:(by right)) as Hd'.
  pose proof (apart_lb _ _ _ (fr_apart _ _ _ Hf) HpB). unfold disj, bend, HDR in *; cbn in *; lia.
Qed.

Lemma free_order l1 p np b2 : (base, 0) :: B = l1 ++ (p, np) :: b2 → before p np → ∀ y, y ∈ l1 → y.1 + 8 ≤ p.
Proof.
  intros EL Hp y [j Hj]%list_elem_of_lookup. pose proof (fr_apart _ _ _ Hf) as Hap.
  destruct (us_mem _ _ Hu) as (_ & Hb & _). unfold HDR in Hb.
  pose proof (lookup_lt_Some _ _ _ Hj) as Hjl.
  assert (((base, 0) :: B) !! j = Some y) as Hj' by (rewrite EL; by apply lookup_app_l_Some).
  assert (((base, 0) :: B) !! length l1 = Some (p, np)) as Hk by (rewrite EL; by rewrite list_lookup_middle).
  pose proof (apart_incr (hs - 1) B base Hap ltac:(lia) j (length l1) _ _ Hjl Hj' Hk) as Hlt. cbn [fst] in Hlt.
  destruct j as [|j]; cbn in Hj'; [injection Hj' as <-; cbn in *; destruct Hp as [->|[? _]]; lia|].
  apply list_elem_of_lookup_2 in Hj'. pose proof (apart_lb _ _ _ Hap Hj').
  destruct Hp as [->|[Hp HpB]]; [lia|]. pose proof (apart_lb _ _ _ Hap HpB). cbn [fst snd] in *.
  destruct (apart_disj _ _ y (p, np) Hap Hj' HpB) as [Hd|Hd]; [intros ->; cbn in *; lia|..];
    unfold bend, HDR in Hd; cbn in Hd; lia.
Qed.

Lemma free_keeps p np m1 m2 :
  before p np → same_but bp (bp + HDR) (heap s) m1 → same_but p (p + HDR) m1 m2 → keeps_bytes U (heap s) m2.
Proof.
  intros Hp Hs1 Hs2. destruct (us_mem _ _ Hu) as (_ & Hb & _), free_block as (_ & ? & _).
  eapply keeps_bytes_trans; [apply (same_but_bytes U _ m1 bp Hs1)|apply (same_but_bytes U m1 m2 p Hs2)]; try done.
  - right. split; [lia|]. intros u Hin. by apply (free_used_apart p np).
  - intros u Hin. by apply free_used.
  - destruct Hp as [->|[Hp HpB]]; [by left|]. right. split; [done|]. intros u Hin.
    destruct (free_used_apart p np u (or_intror (conj Hp HpB)) Hin) as (_ & [E|E]); [unfold HDR in *; lia|exact E].
  - intros u Hin. by apply free_used.
Qed.

Lemma free_leaves_used p np m1 m2 fp :
  before p np → same_but bp (bp + HDR) (heap s) m1 → same_but p (p + HDR) m1 m2 → used_ok U (mkUst m2 fp).
Proof.
  intros Hp Hs1 Hs2. pose proof Hs1 as [Hl1 _]. pose proof Hs2 as [Hl2 _]. destruct (us_mem _ _ Hu) as (? & Hb & ?).
  destruct free_block as (_ & ? & _). split; cbn [heap]; rewrite ?Hl2, ?Hl1; [done| | |].
  - intros u Hin. destruct (us_in _ _ Hu u ltac:(by right)) as (Hx1 & Hx2 & Hx3 & Hx4). split_and!; try done.
    destruct (free_used_apart p np u Hp Hin) as (Ha & Hc). unfold bend, HDR in Ha, Hb, Hc.
    rewrite (same_but_ld _ _ _ _ _ Hs2), (same_but_ld _ _ _ _ _ Hs1); unfold HDR; [done|lia..|]. lia.
  - by pose proof (us_nodup _ _ Hu) as [_ ?]%NoDup_cons.
  - intros x y Hx Hy. apply (us_disj _ _ Hu); by right.
Qed.

(** What [free] leaves. *)
Lemma wp_free t (Q : unit → ust → Prop) :
  (∀ B' s', used_ok U s' → free_ok B' U s' → length (heap s') = length (heap s) → keeps_bytes U (heap s) (heap s') →
     (∃ y, y ∈ B' ∧ n ≤ y.2) → (length B' ≤ S (length B))%nat → Q tt s') →
  wpg t (free (bp + HDR)) Q s.
Proof.
  intros HQ. pose proof Hf as [Hc Hap Hend (i & [fp fn] & Hi & Hfp) Hdj Htot]. cbn [fst] in Hfp. subst fp.
  destruct free_block as (Hn & Hbp & Hbe & Hsz). destruct (us_mem _ _ Hu) as (Hb1 & Hb2 & Hb3 & Hb4).
  set (m := heap s) in *.
  destruct (insert_block B bp n) as (l1 & p & np & b2 & B' & EL & (Hp1 & Hp2 & Hp3) & Hb2' & Hp & EB' & Hga & Hap' & Htot' & Hbig & Hlen & Hall);
    [done|intros y Hy; apply Hdj; [done|by left]|done..|].
  pose proof (free_order l1 p np b2 EL Hp) as Hl1.
  pose proof Hc as Hc0. rewrite EL in Hc. apply blocks_app in Hc as [Hc1 Hc2]. cbn [chain hd_addr] in Hc1, Hc2. destruct Hc2 as (Hq1 & Hq2 & Hq3 & Hq4 & Hq5 & Hc2).
  pose proof (apart_length _ _ Hap) as HlenB. rewrite total_cons in Htot. unfold HDR in *. cbn [snd] in Htot.
  assert (0 ≤ total U) as HtU by (apply total_nonneg; intros y Hy; by apply free_used).
  unfold free. replace (hadd (bp + 8) (-1)) with bp by (unfold hadd, HDR; rewrite u32_id; lia).
  apply wpg_bind, wpg_gets, wpg_bind, wpg_gets, wpg_bind.
  eapply (W_free_loop base t ((base, 0) :: B) (length l1) p np bp);
    [exact Hc0|apply (apart_incr (hs - 1)); [done|lia]|done|rewrite EL; by rewrite list_lookup_middle|lia| |exact Hi| |].
  { intros y Hy. rewrite EL, lookup_app_r in Hy by lia. replace (S (length l1) - length l1)%nat with 1%nat in Hy by lia. cbn in Hy.
    apply list_elem_of_lookup_2 in Hy. specialize (Hb2' y Hy). unfold bend, HDR in Hb2'. cbn in Hb2'. lia. }
  { apply lookup_lt_Some in Hi. cbn [length] in *. fold m. assert (length l1 ≤ length B)%nat by (apply (f_equal length) in EL; rewrite length_app in EL; cbn in EL; lia).
    destruct (decide _); lia. }
  apply wpg_bind, W_load; fold m; [lia|lia|]. rewrite Hsz. apply wpg_bind, W_load; fold m; [lia|lia|]. rewrite Hq4.
  assert (∀ y, y ∈ b2 → y ∈ B) as HbB.
  { clear - EL. intros y Hy. destruct l1 as [|z l1]; [injection EL as _ _ ->; done|injection EL as _ ->]. rewrite elem_of_app. right. by right. }
  apply wpg_bind. apply W_right; fold m; unfold bend, HDR; cbn [fst snd]; try done; [lia|lia| |].
  { intros y Hy. pose proof (Hb2' y Hy). pose proof (apart_lb _ _ _ Hap (HbB y Hy)). split_and!; [done|lia|by apply Hend, HbB]. }
  intros m1 Hs1 Hg1. pose proof Hs1 as [Hlen1 _]. unfold HDR in Hs1.
  destruct (glue_cons (bp, n) b2) as (n' & L2 & Eg). cbn [fst] in Eg. rewrite Eg in *.
  assert (∀ y, y ∈ (bp, n') :: L2 → bend y ≤ len m) as HgE.
  { rewrite <- Eg. apply glue_forall; [intros x y E _ Hy; unfold bend, HDR in *; cbn in *; lia|unfold bend, HDR; cbn; lia|]. intros y Hy. by apply Hend, HbB. }
  cbn [apart fst snd] in Hga. destruct Hga as (_ & Hn' & HgL).
  assert (chain m1 l1 p) as Hc1' by (apply (same_but_chain bp (bp + 8) m); [done|done|]; intros y Hy; left; unfold HDR; specialize (Hl1 y Hy); lia).
  apply wpg_bind, W_load; cbn [heap set_heap]; [lia|lia|]. rewrite (same_but_ld bp (bp + 8) m m1), Hq5 by (done || lia).
  apply wpg_bind. apply (W_left base t p np bp n' L2); cbn [heap set_heap]; unfold HDR; try done; [lia|lia|rewrite Hlen1; apply HgE; by left| | |by rewrite (same_but_ld bp (bp + 8) m m1), Hq5 by (done || lia)].
  { intros y Hy. pose proof (apart_lb _ _ _ HgL Hy). lia. }
  intros m2 Hs2 Hc2'. pose proof Hs2 as [Hlen2 _]. apply (wpg_modify t). cbv beta.
  apply (HQ B'); cbn [heap set_heap set_freep freep];
    [by apply (free_leaves_used p np m1)| |by rewrite Hlen2|by apply (free_keeps p np m1)|done|done].
  destruct (glue_cons (p, np) ((bp, n') :: L2)) as (np' & g & Ep). cbn [fst] in Ep. rewrite Ep in *.
  split; cbn [heap set_heap set_freep freep]; rewrite ?Hlen2, ?Hlen1; [|done| | | |unfold HDR; lia].
  - rewrite <- EB'. apply blocks_app. split; [|done].
    by apply (same_but_chain p (p + 8) m1); [| |intros y Hy; left; apply Hl1].
  - apply Hall; [|unfold bend, HDR; cbn; lia|done]. intros x y E _ Hy. unfold bend, HDR in *; cbn in *; lia.
  - rewrite <- EB'. exists (length l1), (p, np'). by rewrite list_lookup_middle.
  - intros x u Hx Hin. revert x Hx. destruct (free_used u Hin) as (_ & Hu1 & Hu2).
    apply Hall; [intros x y; by apply disj_merge|done|]. intros y Hy. apply Hdj; [done|by right].
Qed.
End Free.
End Heap.
