(* ===== verification/UmallocAlloc.v ===== *)
(** * malloc: taking a block from the free list, and getting more memory *)

From S2P Require Export UmallocProps.
Local Open Scope Z_scope.

Implicit Types (m : bytes) (L B U : list (Z * Z)) (s : ust).
Notation len m := (Z.of_nat (length m)).

(** Headers of different blocks do not overlap. *)
Lemma sep_nodes base hs B i j x y :
  apart (hs - 1) B → base + HDR ≤ hs → (i < j)%nat → ((base, 0) :: B) !! i = Some x → ((base, 0) :: B) !! j = Some y →
  x.1 + HDR ≤ y.1 ∧ bend x ≤ y.1.
Proof.
  intros Hap Hb Hij Hi Hj. destruct j as [|j]; [lia|]. cbn in Hj. pose proof (list_elem_of_lookup_2 _ _ _ Hj) as HyB.
  pose proof (apart_lb _ _ _ Hap HyB) as [H1 H2]. destruct i as [|i]; cbn in Hi.
  - injection Hi as <-. unfold bend, HDR in *. cbn. lia.
  - pose proof (list_elem_of_lookup_2 _ _ _ Hi) as HxB. pose proof (apart_lb _ _ _ Hap HxB) as [H3 H4].
    pose proof (apart_incr _ _ base Hap ltac:(unfold HDR in *; lia) (S i) (S j) x y Hij Hi Hj).
    destruct (apart_disj _ _ x y Hap HxB HyB) as [Hd|Hd]; [intros ->; lia|unfold bend, HDR in *; lia|unfold bend, HDR in *; lia].
Qed.

Section Alloc.
Context (base hs : Z) (growproc : bytes → Z → option bytes).
Notation used_ok := (used_ok base hs).
Notation free_ok := (free_ok base hs).
Notation keeps_bytes := (keeps_bytes base hs).

Lemma apart_shrink lo b1 a n k b2 : apart lo (b1 ++ (a, n) :: b2) → 1 ≤ k ≤ n → apart lo (b1 ++ (a, k) :: b2).
Proof.
  rewrite !apart_app. cbn [apart fst snd]. intros (H1 & H2 & H3 & H4) Hk. split_and!; try done; try lia.
  eapply apart_weaken; [|exact H4]. unfold bend, HDR. cbn. lia.
Qed.
Lemma apart_remove lo b1 x b2 : apart lo (b1 ++ x :: b2) → apart lo (b1 ++ b2).
Proof.
  rewrite !apart_app. cbn [apart]. intros (H1 & H2 & H3 & H4). split; [done|]. assert (x.1 ≤ bend x) by (unfold bend, HDR; lia). eapply apart_weaken; [|exact H4]. lia.
Qed.

(** A part of a free block is disjoint from what the block is disjoint from. *)
Lemma disj_part a n r k y : disj y (a, n) → a ≤ r → r + HDR * k ≤ a + HDR * n → disj y (r, k).
Proof. unfold disj, bend, HDR. cbn. lia. Qed.

(** The block [r] of [k] units at the end of the free block [(a, n)] goes into
    use; [B'] is what is left. *)
Lemma used_take U b1 a n b2 s m' k r fp :
  used_ok U s → free_ok (b1 ++ (a, n) :: b2) U s → 1 ≤ k ≤ n → r = a + HDR * (n - k) →
  length m' = length (heap s) → ld m' (r + 4) = k → (∀ u, u ∈ U → ld m' (u.1 + 4) = ld (heap s) (u.1 + 4)) →
  used_ok ((r, k) :: U) (mkUst m' fp).
Proof.
  intros [Hm Hin Hnd Hud] [Hc Hap Hend _ Hdj _] Hk -> Hl Hr Hld. assert ((a, n) ∈ b1 ++ (a, n) :: b2) as HB by (apply elem_of_app; right; by left).
  pose proof (apart_lb _ _ _ Hap HB) as [H1 H2]. pose proof (Hend _ HB) as H3. cbn [fst snd] in *.
  assert (∀ u, u ∈ U → disj (a + HDR * (n - k), k) u) as Hru.
  { intros u Hu. apply disj_sym, (disj_part a n); [apply disj_sym; by apply Hdj|unfold HDR; lia|unfold HDR; lia]. }
  split; cbn [heap]; rewrite ?Hl; [done| | |].
  - intros x [->|Hx]%elem_of_cons; [unfold bend, HDR in *; cbn in *; split_and!; try done; lia|]. rewrite Hld by done. by apply Hin.
  - apply NoDup_cons. split; [|done]. intros Hu. pose proof (Hru _ Hu) as Hd. unfold disj, bend, HDR in Hd. cbn in Hd. lia.
  - intros x y [->|Hx]%elem_of_cons [->|Hy]%elem_of_cons Hne; [done|by apply Hru|apply disj_sym; by apply Hru|by apply Hud].
Qed.

(** [malloc] takes [k] units of the free block [(a, n)]; [(prevp, nq)] is the
    block before it in the list. *)
Section Take.
Context (t : bool) (U b1 b2 l1 : list (Z * Z)) (a n k prevp nq : Z) (s : ust).
Context (Hu : used_ok U s) (Hf : free_ok (b1 ++ (a, n) :: b2) U s) (Hk : 1 ≤ k ≤ n).
Context (El : (base, 0) :: b1 = l1 ++ [(prevp, nq)]).
Notation m := (heap s).
Notation L := (l1 ++ (prevp, nq) :: (a, n) :: b2).

Lemma take_block : (a, n) ∈ b1 ++ (a, n) :: b2.
Proof. apply elem_of_app. right. by left. Qed.
Lemma take_nodes B : (base, 0) :: b1 ++ B = l1 ++ (prevp, nq) :: B.
Proof. by rewrite app_comm_cons, El, <- app_assoc. Qed.
Lemma take_rest x y : x ∈ b1 ++ b2 → x ∈ b1 ++ y :: b2.
Proof. clear. rewrite !elem_of_app, elem_of_cons. tauto. Qed.

Lemma take_range : 0 < base ∧ base + 8 ≤ hs ∧ hs ≤ a ∧ a + 8 * n ≤ len m ∧ len m < 2 ^ 31.
Proof.
  destruct Hu as [(? & ? & ? & ?) _ _ _]. pose proof (apart_lb _ _ _ (fr_apart _ _ _ _ _ Hf) take_block).
  pose proof (fr_end _ _ _ _ _ Hf _ take_block). unfold bend, HDR in *. cbn in *. lia.
Qed.

(** Addresses grow along the list. *)
Lemma take_order :
  prevp + 8 ≤ a ∧ (∀ y, y ∈ l1 → y.1 + 8 ≤ prevp) ∧ (∀ y, y ∈ b2 → a + 8 * n ≤ y.1) ∧
  (∀ y, y ∈ b1 ++ b2 → disj y (a, n)).
Proof.
  pose proof take_range as (_ & Hb & _).
  assert (∀ i j x y, (i < j)%nat → L !! i = Some x → L !! j = Some y →
    x.1 + 8 ≤ y.1 ∧ x.1 + 8 * x.2 ≤ y.1) as Hsep.
  { rewrite <- (take_nodes ((a, n) :: b2)). intros i j x y Hij Hi Hj.
    apply (sep_nodes base hs (b1 ++ (a, n) :: b2) i j); [apply Hf|done..]. }
  assert (∀ j x, L !! (length l1 + S j)%nat = Some x ↔ ((a, n) :: b2) !! j = Some x) as Hlk.
  { intros j x. rewrite lookup_app_r by lia. by replace (length l1 + S j - length l1)%nat with (S j) by lia. }
  assert (L !! length l1 = Some (prevp, nq)) as Hlq by by rewrite list_lookup_middle.
  assert (∀ y, y ∈ b2 → a + 8 * n ≤ y.1) as Hb2.
  { intros y [j Hj]%list_elem_of_lookup.
    apply (Hsep (length l1 + 1)%nat (length l1 + S (S j))%nat (a, n) y); [lia|by apply (Hlk 0%nat)|by apply (Hlk (S j))]. }
  split_and!; [| |done|].
  - apply (Hsep (length l1) (length l1 + 1)%nat (prevp, nq) (a, n)); [lia|done|by apply (Hlk 0%nat)].
  - intros y [j Hj]%list_elem_of_lookup.
    apply (Hsep j (length l1) y (prevp, nq)); [by eapply lookup_lt_Some|by apply lookup_app_l_Some|done].
  - intros y [[j Hj]%list_elem_of_lookup|Hy]%elem_of_app; [left|right; by apply Hb2].
    pose proof (lookup_lt_Some _ _ _ Hj) as Hjl.
    assert (length b1 = length l1) as Hlen by (apply (f_equal length) in El; rewrite length_app in El; cbn in El; lia).
    apply (Hsep (S j) (length l1 + 1)%nat y (a, n)); [lia| |by apply (Hlk 0%nat)].
    rewrite <- take_nodes. cbn. by apply lookup_app_l_Some.
Qed.

(** Blocks in use lie outside the free block and the header before it. *)
Lemma take_used u : u ∈ U → (a + 8 * n ≤ u.1 ∨ u.1 + 8 * u.2 ≤ a) ∧ hs ≤ u.1 ∧ 1 ≤ u.2.
Proof.
  intros Hu'. pose proof (fr_disj _ _ _ _ _ Hf _ u take_block Hu') as Hd. unfold disj, bend, HDR in Hd. cbn in Hd.
  split; [lia|by split; apply (us_in _ _ _ _ Hu)].
Qed.
Lemma take_used_prev :
  prevp = base ∨ hs ≤ prevp ∧ ∀ u, u ∈ U → prevp + 8 ≤ u.1 ∨ u.1 + 8 * u.2 ≤ prevp.
Proof.
  destruct l1 as [|z l]; injection El as E1 E2; [by left|right].
  assert ((prevp, nq) ∈ b1 ++ (a, n) :: b2) as Hin.
  { rewrite E2, !elem_of_app. left. right. by left. }
  pose proof (apart_lb _ _ _ (fr_apart _ _ _ _ _ Hf) Hin) as [H1 H2]. cbn in H1, H2. split; [lia|].
  intros u Hu'. pose proof (fr_disj _ _ _ _ _ Hf _ u Hin Hu') as Hd. unfold disj, bend, HDR in Hd. cbn in Hd. lia.
Qed.

(** The whole block: the block before it is linked to the one behind it. *)
Lemma W_take_whole (Q : Z → ust → Prop) :
  n = k →
  (∀ r B' s', used_ok ((r, k) :: U) s' → free_ok B' ((r, k) :: U) s' → keeps_bytes U m (heap s') →
     length (heap s') = length m → freep s' = prevp → Q (r + HDR) s') →
  wpg t (p ← (q ← s_ptr a; set_s_ptr prevp q ;; mret a); modify (set_freep prevp) ;; mret (hadd p 1)) Q s.
Proof.
  intros Hnk HQ. rewrite <- Hnk in HQ. pose proof Hf as [Hc Hap Hend _ Hdj Htot].
  destruct take_range as (? & ? & ? & ? & ?), take_order as (Hqa & Hl1 & Hb2y & HbA).
  pose proof take_used as HuA. pose proof take_used_prev as HuQ.
  rewrite take_nodes in Hc. apply blocks_app in Hc as [Hc1 Hc2]. cbn [chain hd_addr] in Hc1, Hc2.
  destruct Hc2 as (? & ? & ? & Hq4 & Hq5 & ? & ? & ? & Hp4 & ? & Hc2). unfold HDR in *.
  assert (0 ≤ hd_addr b2 base < 2 ^ 32) as Hhd.
  { destruct b2 as [|[c nc] ?]; cbn; [lia|]. cbn in Hc2. unfold HDR in Hc2. lia. }
  rewrite total_app, total_cons in Htot. cbn [snd] in Htot.
  apply wpg_bind, wpg_bind, W_load; [lia|lia|]. rewrite Hp4. apply wpg_bind. apply W_store; [lia|lia|]. apply wpg_ret.
  apply wpg_bind, (wpg_modify t). cbv beta. apply wpg_ret. replace (hadd a 1) with (a + 8) by (unfold hadd, HDR; rewrite u32_id; lia).
  set (m' := st m prevp (hd_addr b2 base)).
  assert (same_but prevp (prevp + 8) m m') as Hs by (apply same_but_st; [apply same_but_refl|lia..]). pose proof Hs as [Hl _].
  apply (HQ a (b1 ++ b2)); unfold set_heap, set_freep; cbn [heap freep]; fold m'; [|split; cbn [heap freep]|..|done|done].
  - apply (used_take U b1 a n b2 s); unfold HDR; try done; [lia|lia|rewrite (same_but_ld _ _ _ _ _ Hs); [done|lia|lia]|].
    intros u Hu'. apply (same_but_ld _ _ _ _ _ Hs); destruct (HuA u Hu') as (_ & ? & ?); [lia|].
    destruct HuQ as [->|[_ HuQ]]; [lia|specialize (HuQ u Hu'); lia].
  - rewrite take_nodes. apply blocks_app. split.
    + apply (same_but_chain prevp (prevp + 8) m); [done|done|]. intros y Hy. left. by apply Hl1.
    + cbn [app chain]. rewrite Hl. unfold HDR. assert (ld m' prevp = hd_addr b2 base) as -> by (apply ld_st; lia).
      assert (ld m' (prevp + 4) = nq) as -> by (unfold m'; rewrite ld_st_ne by lia; done).
      split_and!; try done; try lia. apply (same_but_chain prevp (prevp + 8) m); [done|done|].
      intros y Hy. right. specialize (Hb2y y Hy). lia.
  - by eapply apart_remove.
  - intros x Hx. rewrite Hl. by apply Hend, take_rest.
  - exists (length l1), (prevp, nq). split; [|done]. rewrite take_nodes. by rewrite list_lookup_middle.
  - intros x u Hx [->|Hu']%elem_of_cons; [by apply HbA|by apply Hdj; [apply take_rest|]].
  - rewrite Hl, total_app, total_cons. unfold HDR. cbn [snd]. lia.
  - apply (same_but_bytes _ _ _ _ _ prevp); unfold HDR, bend; [done|by destruct HuQ as [?|[? ?]]; [left|right]|lia|].
    intros u Hu'. by apply HuA.
Qed.

(** The end of the block: its header gets the size of what is left. *)
Lemma W_take_part (Q : Z → ust → Prop) :
  n ≠ k →
  (∀ r B' s', used_ok ((r, k) :: U) s' → free_ok B' ((r, k) :: U) s' → keeps_bytes U m (heap s') →
     length (heap s') = length m → freep s' = prevp → Q (r + HDR) s') →
  wpg t (p ← (set_s_size a (u32 (n - k)) ;; n ← s_size a; set_s_size (hadd a n) k ;; mret (hadd a n));
         modify (set_freep prevp) ;; mret (hadd p 1)) Q s.
Proof.
  intros Hne HQ. pose proof Hf as [Hc Hap Hend _ Hdj Htot].
  destruct take_range as (? & ? & ? & ? & ?), take_order as (Hqa & Hl1 & Hb2y & HbA).
  pose proof take_used as HuA.
  rewrite take_nodes in Hc. apply blocks_app in Hc as [Hc1 Hc2]. cbn [chain hd_addr] in Hc1, Hc2.
  destruct Hc2 as (? & ? & ? & Hq4 & Hq5 & ? & ? & ? & Hp4 & ? & Hc2). unfold HDR in *.
  rewrite total_app, total_cons in Htot. cbn [snd] in Htot. apply wpg_bind.
  set (r := a + 8 * (n - k)). assert (hadd a (n - k) = r) as Er by (unfold hadd, HDR, r; rewrite u32_id; lia).
  rewrite u32_id by lia. apply wpg_bind, W_store; [lia|lia|].
  apply wpg_bind, W_load; cbn [heap set_heap]; [lia|rewrite st_length; lia|]. rewrite ld_st by lia. rewrite Er.
  apply wpg_bind, W_store; cbn [heap set_heap]; [unfold r; lia|rewrite st_length; unfold r; lia|]. apply wpg_ret.
  apply wpg_bind, (wpg_modify t). cbv beta. apply wpg_ret. replace (hadd r 1) with (r + 8) by (unfold hadd, HDR; rewrite u32_id; unfold r; lia).
  set (m' := st (st m (a + 4) (n - k)) (r + 4) k).
  assert (same_but (a + 4) (a + 8 * n) m m') as Hs by (repeat apply same_but_st; [apply same_but_refl|unfold r; lia..]). pose proof Hs as [Hl _].
  apply (HQ r (b1 ++ (a, n - k) :: b2)); unfold set_heap, set_freep; cbn [heap freep]; fold m'; [|split; cbn [heap freep]|..|done|done].
  - apply (used_take U b1 a n b2 s); unfold HDR; try done.
    + apply ld_st; [unfold r; lia|rewrite st_length; unfold r; lia|lia].
    + intros u Hu'. apply (same_but_ld _ _ _ _ _ Hs); destruct (HuA u Hu') as (? & ? & ?); lia.
  - rewrite take_nodes. apply blocks_app. split; [|cbn [app chain hd_addr]; split_and!]; unfold HDR; rewrite ?Hl; try done; try lia.
    + apply (same_but_chain (a + 4) (a + 8 * n) m); [done|done|]. intros y Hy. left. specialize (Hl1 y Hy). unfold HDR. lia.
    + by rewrite (same_but_ld _ _ _ _ _ Hs) by lia.
    + by rewrite (same_but_ld _ _ _ _ _ Hs) by lia.
    + by rewrite (same_but_ld _ _ _ _ _ Hs) by lia.
    + unfold m'. rewrite ld_st_ne by (unfold r; lia). apply ld_st; lia.
    + apply (same_but_chain (a + 4) (a + 8 * n) m); [done|done|]. intros y Hy. right. specialize (Hb2y y Hy). lia.
  - eapply apart_shrink; [done|lia].
  - intros x Hx. rewrite Hl. apply elem_of_app in Hx as [Hx|[->|Hx]%elem_of_cons]; [apply Hend, elem_of_app; by left|unfold bend, HDR; cbn; lia|].
    apply Hend. rewrite elem_of_app, elem_of_cons. tauto.
  - exists (length l1), (prevp, nq). split; [|done]. rewrite take_nodes. by rewrite list_lookup_middle.
  - assert (∀ x, x ∈ b1 ++ (a, n - k) :: b2 → x = (a, n - k) ∨ x ∈ b1 ++ b2) as Hsplit.
    { intros x. rewrite !elem_of_app, elem_of_cons. tauto. }
    intros x u Hx [->|Hu']%elem_of_cons; destruct (Hsplit x Hx) as [->|Hx'].
    + left. unfold bend, HDR, r. cbn. lia.
    + apply (disj_part a n); [by apply HbA|unfold r; lia|unfold HDR, r; lia].
    + apply disj_sym, (disj_part a n); [apply disj_sym, Hdj; [apply take_block|done]|lia|unfold HDR; lia].
    + by apply Hdj; [apply take_rest|].
  - rewrite Hl, total_app, !total_cons. unfold HDR. cbn [snd]. lia.
  - intros j [Hj Hju]. apply Hs; [done|]. destruct Hju as [?|[?|(u & Hu' & ?)]]; [lia|unfold HDR in *; lia|]. destruct (HuA u Hu'). unfold bend, HDR in *. lia.
Qed.

Lemma W_take (Q : Z → ust → Prop) :
  (∀ r B' s', used_ok ((r, k) :: U) s' → free_ok B' ((r, k) :: U) s' → keeps_bytes U m (heap s') →
     length (heap s') = length m → freep s' = prevp → Q (r + HDR) s') →
  wpg t (p ← (if n =? k then q ← s_ptr a; set_s_ptr prevp q ;; mret a
              else set_s_size a (u32 (n - k)) ;; n ← s_size a; set_s_size (hadd a n) k ;; mret (hadd a n));
         modify (set_freep prevp) ;; mret (hadd p 1)) Q s.
Proof. destruct (Z.eqb_spec n k); [by apply W_take_whole|by apply W_take_part]. Qed.
End Take.

(** The kernel adds the bytes that are asked for at the end, or refuses. *)
Definition grow_law : Prop := ∀ m n m', 0 ≤ n → growproc m n = Some m' → ∃ l, m' = m ++ l ∧ len l = n ∧ len m' < 2 ^ 31.

(** The units that [morecore] asks for. *)
Definition more_units (k : Z) : Z := if k <? 4096 then 4096 else k.

Lemma wp_morecore t U B s k (Q : Z → ust → Prop) :
  grow_law → used_ok U s → free_ok B U s → 1 ≤ k → HDR * k < 2 ^ 31 →
  (growproc (heap s) (HDR * more_units k) = None → Q 0 s) →
  (∀ B' s', used_ok U s' → free_ok B' U s' → keeps_bytes U (heap s) (heap s') → (∃ y, y ∈ B' ∧ k ≤ y.2) →
     (length B' ≤ S (length B))%nat → (length (heap s) ≤ length (heap s'))%nat → Q (freep s') s') →
  wpg t (morecore growproc k) Q s.
Proof.
  intros Hg Hu Hf Hk Hk2 H0 HQ. unfold morecore. fold (more_units k). set (nu := more_units k) in *.
  assert (k ≤ nu ∧ 1 ≤ nu ∧ HDR * nu < 2 ^ 31) as (Hnu & Hnu1 & Hnu2) by (unfold nu, more_units; destruct (Z.ltb_spec k 4096); unfold HDR in *; lia).
  unfold HDR in *. cbv zeta. apply wpg_bind. unfold wpg at 1, sbrk. rewrite (Z.mul_comm nu 8), i32_u32, i32_id by lia.
  pose proof Hu as [(Hb1 & Hb2 & Hb3 & Hb4) Hin Hnd Hud]. change (base + 8 ≤ hs) in Hb2. destruct (growproc (heap s) (8 * nu)) as [m'|] eqn:Eg; [|change (u32 (-1) =? u32 (-1)) with true; apply wpg_ret; by apply H0].
  apply Hg in Eg as (l & -> & Hl & Hlen); [|lia]. rewrite length_app in Hlen. set (m := heap s) in *.
  assert (len m =? u32 (-1) = false) as -> by (apply Z.eqb_neq; change (u32 (-1)) with (2 ^ 32 - 1); lia).
  apply wpg_bind, W_store; cbn [heap set_heap]; [lia|rewrite length_app; lia|]. unfold set_heap. cbn [heap freep].
  set (m2 := st (m ++ l) (len m + 4) nu). assert (len m2 = len m + 8 * nu) as Hm2 by (unfold m2; rewrite st_length, length_app; lia).
  assert (∀ x, 0 ≤ x → x + 4 ≤ len m → ld m2 x = ld m x) as Hold by (intros x Hx0 Hx; unfold m2; rewrite ld_st_ne, ld_grow by lia; done).
  assert (∀ x, x ∈ U → x.1 + 8 ≤ bend x ∧ bend x ≤ len m ∧ hs ≤ x.1) as HU by (intros x Hx; destruct (Hin x Hx) as (? & ? & ? & _); unfold bend, HDR in *; lia).
  pose proof Hf as [Hc Hap Hend (i & x & Hi & Hx) Hdj Htot].
  replace (hadd (len m) 1) with (len m + 8) by (unfold hadd, HDR; rewrite u32_id; lia).
  apply wpg_bind. eapply (wp_free base hs U (len m) nu B (mkUst m2 (freep s))).
  - split; cbn [heap]; rewrite ?Hm2; [unfold HDR in *; lia| | |].
    + intros y [->|Hy]%elem_of_cons; cbn [fst snd].
      * split_and!; [done|done|unfold bend, HDR; cbn; lia|]. unfold m2. rewrite ld_st; [done|lia|rewrite length_app; lia|lia].
      * destruct (Hin y Hy) as (? & ? & ? & ?). destruct (HU y Hy) as (? & ? & ?). rewrite Hold by lia. split_and!; try done. lia.
    + apply NoDup_cons. split; [|done]. intros Hy. destruct (HU _ Hy) as (? & ? & ?). cbn [fst] in *. lia.
    + intros y z [->|Hy]%elem_of_cons [->|Hz]%elem_of_cons Hne; [done| | |by apply Hud].
      * right. cbn. by apply HU.
      * left. cbn. by apply HU.
  - split; cbn [heap]; rewrite ?Hm2; [|done|..].
    + apply chain_st; [lia|by apply chain_grow|]. intros y Hy. left. destruct (chain_in _ _ _ _ Hc Hy) as (_ & Hy2 & _). fold m in Hy2. unfold HDR in *. lia.
    + intros y Hy. pose proof (Hend y Hy) as He. fold m in He. lia.
    + by exists i, x.
    + intros y u Hy [->|Hu']%elem_of_cons; [left; cbn; by apply Hend|by apply Hdj].
    + rewrite total_cons. fold m in Htot. unfold HDR in *. cbn [snd]. lia.
  - intros B' s' Hu' Hf' Hl' Hk' Hbig HlB. cbn [heap] in *. apply wpg_gets, (HQ B'); try done.
    + intros j Hj. rewrite (Hk' j Hj). destruct Hj as [Hj Hju]. assert (j < len m) as Hjm.
      { destruct Hju as [?|[?|(u & Hu2 & ?)]]; [lia|lia|]. destruct (HU u Hu2) as (_ & ? & _). lia. }
      unfold m2. rewrite st_byte by lia. apply lookup_app_l. lia.
    + destruct Hbig as (y & Hy & ?). exists y. split; [done|lia].
    + apply Nat2Z.inj_le. rewrite Hl'. lia.
Qed.

(** Positions in the circular list: the next one, and how far it is from [i] to
    [f]. *)
Definition nxt (len i : nat) : nat := if decide (S i < len)%nat then S i else 0%nat.
Definition dist (len i f : nat) : nat := if decide (i ≤ f)%nat then (f - i)%nat else (len - i + f)%nat.
Definition between (i f j : nat) : Prop := if decide (i ≤ f)%nat then (i ≤ j ≤ f)%nat else (i ≤ j ∨ j ≤ f)%nat.

Lemma dist_nxt len i f : (i < len)%nat → (f < len)%nat → i ≠ f → (S (dist len (nxt len i) f) = dist len i f)%nat.
Proof. unfold dist, nxt. intros. repeat case_decide; lia. Qed.
Lemma dist_start len f : (f < len)%nat → (S (dist len (nxt len f) f) = len)%nat.
Proof. unfold dist, nxt. intros. repeat case_decide; lia. Qed.
Lemma between_nxt len i f j : (i < len)%nat → (f < len)%nat → (j < len)%nat → i ≠ f → j ≠ i → between i f j → between (nxt len i) f j.
Proof. unfold between, nxt. intros. repeat case_decide; lia. Qed.
Lemma between_start len f j : (f < len)%nat → (j < len)%nat → between (nxt len f) f j.
Proof. unfold between, nxt. intros. repeat case_decide; lia. Qed.
Lemma between_self f j : between f f j → j = f.
Proof. unfold between. case_decide; lia. Qed.

(** [p->s.ptr] is the next block. *)
Lemma W_next t U B s i a n (Q : Z → ust → Prop) :
  free_ok B U s → ((base, 0) :: B) !! i = Some (a, n) →
  (∀ b nb, ((base, 0) :: B) !! nxt (length ((base, 0) :: B)) i = Some (b, nb) → Q b s) →
  wpg t (s_ptr a) Q s.
Proof.
  intros Hf Hi HQ. pose proof (fr_chain _ _ _ _ _ Hf) as Hc.
  destruct (chain_in _ _ _ (a, n) Hc ltac:(by eapply list_elem_of_lookup_2)) as (Ha1 & Ha2 & _). unfold HDR in Ha2. cbn [fst] in *.
  apply W_load; [lia..|]. rewrite (chain_next _ _ _ _ _ _ Hc Hi). unfold nxt in HQ. destruct (decide _) as [Hlt|Hlt].
  - destruct (lookup_lt_is_Some_2 _ _ Hlt) as [[b nb] Hb]. rewrite Hb. by eapply HQ.
  - rewrite (proj2 (lookup_ge_None _ _)) by lia. by eapply HQ.
Qed.

(** What [malloc] does, for blocks [U] in use and [k] units. *)
Definition allocated U k s r s' : Prop :=
  keeps_bytes U (heap s) (heap s') ∧
  if r =? 0 then used_ok U s' ∧ (∃ B', free_ok B' U s') ∧ growproc (heap s') (HDR * more_units k) = None
  else ∃ B', used_ok ((r - HDR, k) :: U) s' ∧ free_ok B' ((r - HDR, k) :: U) s'.

Lemma W_malloc_loop t U k (Hg : grow_law) (Hk : 1 ≤ k) (Hk2 : HDR * k < 2 ^ 31) fuel : ∀ (big : bool) B s i f a n fn prevp (Q : Z → ust → Prop),
  used_ok U s → free_ok B U s → ((base, 0) :: B) !! i = Some (a, n) → ((base, 0) :: B) !! f = Some (freep s, fn) →
  match i with O => True | S j => ∃ x, ((base, 0) :: B) !! j = Some x ∧ x.1 = prevp end →
  (dist (S (length B)) i f + (if big then 0 else length B + 3) < fuel)%nat →
  (big = true → ∃ j y, ((base, 0) :: B) !! j = Some y ∧ k ≤ y.2 ∧ between i f j) →
  (∀ r s', allocated U k s r s' → Q r s') →
  wpg t (malloc_loop growproc fuel k prevp a) Q s.
Proof.
  induction fuel as [|fuel IH]; intros big B s i f a n fn prevp Q Hu Hf Hi Hfp Hprev Hfuel Hbig HQ; [lia|]. cbn [malloc_loop].
  pose proof (fr_chain _ _ _ _ _ Hf) as Hc. pose proof (fr_apart _ _ _ _ _ Hf) as Hap. pose proof (us_mem _ _ _ _ Hu) as (Hb1 & Hb2 & Hb3 & Hb4).
  destruct (chain_in _ _ _ (a, n) Hc ltac:(by eapply list_elem_of_lookup_2)) as (Ha1 & Ha2 & _ & Ha4). unfold HDR in Ha2. cbn [fst snd] in *.
  apply wpg_bind, W_load; [lia..|]. rewrite Ha4. pose proof (lookup_lt_Some _ _ _ Hi) as Hil. pose proof (lookup_lt_Some _ _ _ Hfp) as Hfl. cbn [length] in Hil, Hfl.
  rewrite Z.geb_leb. destruct (Z.leb_spec k n) as [Hkn|Hkn].
  - destruct i as [|j]; [cbn in Hi; injection Hi as <- <-; lia|]. cbn in Hi. apply list_elem_of_split_length in Hi as (b1 & b2 & -> & ->).
    destruct Hprev as ([x nx] & Hj & Hx). cbn [fst] in Hx. subst x.
    destruct (exists_last (l := (base, 0) :: b1)) as (l1 & y & El); [done|].
    assert (y = (prevp, nx)) as ->.
    { rewrite app_comm_cons, El, <- app_assoc in Hj. apply (f_equal length) in El as Hlen. rewrite length_app in Hlen. cbn in Hlen.
      replace (length b1) with (length l1) in Hj by lia. cbn [app] in Hj. rewrite list_lookup_middle in Hj by done. by injection Hj. }
    eapply (W_take t U b1 b2 l1 a n); [done|done|lia|done|].
    intros r B' s' H1 H2 H3 H4 H5. apply HQ. split; [done|]. pose proof (us_in _ _ _ _ H1 (r, k) ltac:(by left)) as (_ & Hr & _). cbn in Hr. unfold HDR in *.
      rewrite (proj2 (Z.eqb_neq (r + 8) 0)) by lia. exists B'. by replace (r + 8 - 8) with r by lia.
  - apply wpg_bind, wpg_gets. destruct (Z.eqb_spec a (freep s)) as [E|E].
    + assert (i = f) as ->.
      { destruct (lt_eq_lt_dec i f) as [[H|H]|H]; [|done|]; pose proof (apart_incr _ _ base Hap ltac:(unfold HDR in *; lia)) as Hinc.
        - pose proof (Hinc _ _ _ _ H Hi Hfp). cbn in *. lia.
        - pose proof (Hinc _ _ _ _ H Hfp Hi). cbn in *. lia. }
      destruct big.
      { destruct (Hbig eq_refl) as (j & y & Hj & Hky & Hbt). apply between_self in Hbt as ->. assert (y = (a, n)) as -> by congruence. cbn in Hky. lia. }
      apply wpg_bind. eapply (wp_morecore t U B s k); try done.
      * intros Hnone. change (0 =? 0) with true. apply wpg_ret, HQ. split; [done|]. change (0 =? 0) with true. split; [done|]. split; [by exists B|done].
      * intros B' s' Hu' Hf' Hk' (y & Hy & Hky) HlB _. pose proof (fr_freep _ _ _ _ _ Hf') as (f' & [z nz] & Hf1 & Hz). cbn [fst] in Hz. subst z.
        assert (0 < freep s') as Hpos.
        { pose proof (fr_apart _ _ _ _ _ Hf') as Hap'. destruct f' as [|f']; cbn in Hf1; [injection Hf1 as <- _; done|].
          apply list_elem_of_lookup_2 in Hf1. pose proof (apart_lb _ _ _ Hap' Hf1). cbn in *. unfold HDR in *. lia. }
        rewrite (proj2 (Z.eqb_neq (freep s') 0)) by lia. pose proof (lookup_lt_Some _ _ _ Hf1) as Hfl'. apply wpg_bind. eapply W_next; [exact Hf'|exact Hf1|]. intros b nb Hb.
        apply (IH true B' s' (nxt (length ((base, 0) :: B')) f') f' b nb nz (freep s')); try done.
        -- unfold nxt. destruct (decide _); [|done]. by exists (freep s', nz).
        -- pose proof (dist_start _ _ Hfl') as Hd. cbn [length] in Hd |- *. lia.
        -- intros _. apply list_elem_of_lookup in Hy as [j Hj]. exists (S j), y. split_and!; [done|done|]. apply between_start; [done|]. cbn [length]. apply lookup_lt_Some in Hj. lia.
        -- intros r s2 [H1 H2]. apply HQ. split; [by eapply keeps_bytes_trans|done].
    + assert (i ≠ f) as Hif by (intros ->; rewrite Hi in Hfp; injection Hfp as ? _; done). apply wpg_bind. eapply W_next; [exact Hf|exact Hi|]. intros b nb Hb.
      apply (IH big B s (nxt (length ((base, 0) :: B)) i) f b nb fn a); try done.
      * unfold nxt. destruct (decide _); [|done]. by exists (a, n).
      * pose proof (dist_nxt (S (length B)) i f Hil Hfl Hif). cbn [length]. lia.
      * intros Hb'. destruct (Hbig Hb') as (j & y & Hj & Hky & Hbt). exists j, y. split_and!; [done|done|]. cbn [length].
        apply between_nxt; [done|done|by apply lookup_lt_Some in Hj|done| |done]. intros ->. assert (y = (a, n)) as -> by congruence. cbn in Hky. lia.
Qed.
End Alloc.
