(* ===== verification/UmallocThm.v ===== *)
(** * malloc and free: the theorem *)

From S2P Require Export UmallocAlloc.
Local Open Scope Z_scope.

Implicit Types (m : bytes) (L B U : list (Z * Z)) (s : ust).
Notation len m := (Z.of_nat (length m)).

Lemma total_perm U U' : U ≡ₚ U' → total U = total U'.
Proof. induction 1 as [|x U U' _ IH|x y U|U1 U2 U3 _ IH1 _ IH2]; rewrite ?total_cons in *; lia. Qed.

Section Thm.
Context (base hs : Z) (growproc : bytes → Z → option bytes).
Notation heap_ok := (heap_ok base hs).
Notation used_ok := (used_ok base hs).
Notation free_ok := (free_ok base hs).
Notation keeps_bytes := (keeps_bytes base hs).

Lemma used_ok_perm U U' s : U ≡ₚ U' → used_ok U s → used_ok U' s.
Proof.
  intros HU [H1 H2 H3 H4]. split; [done| |by rewrite <- HU|]; [intros x|intros x y]; rewrite <- HU; [apply H2|apply H4].
Qed.
Lemma free_ok_perm B U U' s : U ≡ₚ U' → free_ok B U s → free_ok B U' s.
Proof. intros HU [H1 H2 H3 H4 H5 H6]. split; try done; [intros x u Hx; rewrite <- HU; by apply H5|by rewrite <- (total_perm _ _ HU)]. Qed.

(** [nunits] of [malloc]. *)
Definition units (nbytes : Z) : Z := u32 (u32 (nbytes + HDR - 1) / HDR + 1).

(** The list of the first call: the block [base] alone. *)
Definition base_list (m : bytes) : bytes := st (st m base base) (base + 4) 0.
Lemma first_list s :
  used_ok [] s → len (heap s) = hs →
  used_ok [] (mkUst (base_list (heap s)) base) ∧ free_ok [] [] (mkUst (base_list (heap s)) base) ∧
  keeps_bytes [] (heap s) (base_list (heap s)).
Proof.
  intros Hu Hlen. pose proof (us_mem _ _ _ _ Hu) as (Hb1 & Hb2 & Hb3 & Hb4). unfold base_list. unfold HDR in *.
  set (m' := st (st (heap s) base base) (base + 4) 0).
  assert (same_but base (base + 8) (heap s) m') as Hs by (repeat apply same_but_st; [apply same_but_refl|lia..]). pose proof Hs as [Hl _].
  split_and!.
  - split; cbn [heap]; rewrite ?Hl; [done|by intros x ?%not_elem_of_nil|by apply NoDup_nil|by intros x y ?%not_elem_of_nil].
  - split; cbn [heap freep]; rewrite ?Hl; [|done|by intros x ?%not_elem_of_nil| |by intros x u ?%not_elem_of_nil|cbn; lia].
    + cbn [chain hd_addr]. rewrite Hl. unfold HDR, m'. rewrite (ld_st_ne _ (base + 4)), !ld_st by (rewrite ?st_length; lia). split_and!; (done || lia).
    + by exists 0%nat, (base, 0).
  - apply (same_but_bytes _ _ _ _ _ base); unfold HDR; [done|by left|lia|by intros u ?%not_elem_of_nil].
Qed.

Lemma wp_malloc t U s nbytes (Q : Z → ust → Prop) :
  grow_law growproc → heap_ok U s → 1 ≤ units nbytes → HDR * units nbytes < 2 ^ 31 →
  (∀ r s', allocated base hs growproc U (units nbytes) s r s' → Q r s') →
  wpg t (malloc base growproc nbytes) Q s.
Proof.
  intros Hg [Hu Hf] Hk Hk2 HQ. pose proof (us_mem _ _ _ _ Hu) as (Hb1 & Hb2 & Hb3 & Hb4). unfold malloc. fold (units nbytes). set (k := units nbytes) in *.
  (* from a free list on *)
  assert (∀ s1 B, used_ok U s1 → free_ok B U s1 → keeps_bytes U (heap s) (heap s1) →
    wpg t (p ← s_ptr (freep s1); fuel ← gets (λ s, 2 * length (heap s) + 4)%nat; malloc_loop growproc fuel k (freep s1) p) Q s1) as Hrun.
  { intros s1 B Hu1 Hf1 Hkeep. pose proof (fr_freep _ _ _ _ _ Hf1) as (f & [z nz] & Hf2 & Hz). cbn [fst] in Hz. subst z.
    pose proof (lookup_lt_Some _ _ _ Hf2) as Hfl. pose proof (apart_length _ _ (fr_apart _ _ _ _ _ Hf1)) as HB. pose proof (fr_total _ _ _ _ _ Hf1) as Ht.
    pose proof (total_nonneg U ltac:(intros x Hx; by apply (us_in _ _ _ _ Hu1))) as HtU. pose proof (us_mem _ _ _ _ Hu1) as (_ & _ & Hlen1 & _).
    apply wpg_bind. eapply W_next; [exact Hf1|exact Hf2|]. intros b nb Hb. apply wpg_bind, wpg_gets.
    apply (W_malloc_loop base hs growproc t U k Hg Hk Hk2 _ false B s1 (nxt (length ((base, 0) :: B)) f) f b nb nz (freep s1)); try done.
    - unfold nxt. destruct (decide _); [|done]. by exists (freep s1, nz).
    - pose proof (dist_start _ _ Hfl) as Hd. cbn [length] in Hd |- *. unfold HDR in *. lia.
    - intros r s2 [H1 H2]. apply HQ. split; [by eapply keeps_bytes_trans|done]. }
  apply wpg_bind, wpg_gets, wpg_bind. destruct Hf as [(E & -> & Hlen)|(B & Hf)].
  - rewrite E. change (0 =? 0) with true. destruct (first_list s Hu Hlen) as (Hu1 & Hf1 & Hkeep). unfold HDR in *.
    apply wpg_bind, (wpg_modify t). cbv beta.
    apply wpg_bind, W_store; cbn [heap set_freep]; [lia|lia|]. apply wpg_bind, W_store; cbn [heap set_heap set_freep]; [lia|rewrite st_length; lia|].
    apply wpg_ret. by apply (Hrun (mkUst (base_list (heap s)) base) []).
  - assert (freep s =? 0 = false) as ->.
    { pose proof (fr_freep _ _ _ _ _ Hf) as (f & [z nz] & Hf2 & Hz). cbn [fst] in Hz. subst z. apply Z.eqb_neq.
      destruct f as [|f]; cbn in Hf2; [injection Hf2 as <- _; lia|]. apply list_elem_of_lookup_2 in Hf2. pose proof (apart_lb _ _ _ (fr_apart _ _ _ _ _ Hf) Hf2). cbn in *. unfold HDR in *. lia. }
    apply wpg_ret. by apply (Hrun _ B).
Qed.

(** ** Sizes that make [sbrk] negative *)

(** Asked for [n <= 0] bytes the kernel does not add any. *)
Definition shrink_law : Prop := ∀ m n m', n ≤ 0 → growproc m n = Some m' → len m' ≤ len m.

Lemma load_ok a s : 0 ≤ a → a + 4 ≤ len (heap s) → load a s = Ok (ld (heap s) a, s).
Proof. intros H1 H2. unfold load, deref. by rewrite bool_decide_true by done. Qed.
Lemma store_ok a v s : 0 ≤ a → a + 4 ≤ len (heap s) → store a v s = Ok (tt, set_heap (st (heap s) a v) s).
Proof. intros H1 H2. unfold store. by rewrite (bind_ok _ _ _ _ _ (load_ok a s H1 H2)). Qed.

(** What [sbrk] is asked for, for [k] units. *)
Definition asked (k : Z) : Z := i32 (u32 (k * HDR)).
Lemma asked_neg k : 2 ^ 28 ≤ k ≤ 2 ^ 29 → - 2 ^ 31 ≤ asked k ≤ 0.
Proof.
  intros Hk. unfold asked. rewrite i32_u32. unfold i32, HDR. destruct (decide (k = 2 ^ 29)) as [->|]; [by vm_compute|].
  replace (k * 8 + 2 ^ 31) with ((k * 8 - 2 ^ 31) + 1 * 2 ^ 32) by lia. rewrite Z_mod_plus_full, Z.mod_small; lia.
Qed.

Definition out_of_memory (k : Z) s : res (Z * ust) :=
  match growproc (heap s) (asked k) with None => Ok (0, s) | Some _ => Fault end.

Lemma morecore_huge k s :
  shrink_law → 2 ^ 28 ≤ k ≤ 2 ^ 29 → len (heap s) < 2 ^ 31 → morecore growproc k s = out_of_memory k s.
Proof.
  intros Hs Hk Hlen. unfold morecore, out_of_memory. rewrite (proj2 (Z.ltb_ge k 4096)) by lia. cbv zeta. fold (asked k).
  unfold mbind at 1, M_bind at 1, sbrk. destruct (growproc (heap s) (asked k)) as [m'|] eqn:E; [|done].
  apply Hs in E; [|by apply asked_neg]. rewrite (proj2 (Z.eqb_neq _ (u32 (-1)))) by (change (u32 (-1)) with (2 ^ 32 - 1); lia).
  unfold set_s_size, store, load, deref. unfold mbind, M_bind. cbn [heap set_heap]. by rewrite bool_decide_false by lia.
Qed.

(** No free block is large enough, so that the search ends at [morecore]. *)
Lemma malloc_loop_huge U k B s f fn (Hs : shrink_law) (Hk : 2 ^ 28 ≤ k ≤ 2 ^ 29)
  (Hu : used_ok U s) (Hf : free_ok B U s) (Hfp : ((base, 0) :: B) !! f = Some (freep s, fn)) fuel : ∀ i a n prevp,
  ((base, 0) :: B) !! i = Some (a, n) → (dist (S (length B)) i f < fuel)%nat →
  malloc_loop growproc fuel k prevp a s = out_of_memory k s.
Proof.
  pose proof (us_mem _ _ _ _ Hu) as (Hb1 & Hb2 & Hb3 & Hb4). pose proof (fr_chain _ _ _ _ _ Hf) as Hc.
  pose proof (lookup_lt_Some _ _ _ Hfp) as Hfl. cbn [length] in Hfl.
  induction fuel as [|fuel IH]; intros i a n prevp Hi Hfuel; [lia|]. cbn [malloc_loop].
  pose proof (lookup_lt_Some _ _ _ Hi) as Hil. cbn [length] in Hil.
  destruct (chain_in _ _ _ (a, n) Hc ltac:(by eapply list_elem_of_lookup_2)) as (Ha1 & Ha2 & _ & Ha4). unfold HDR in Ha2. cbn [fst snd] in *.
  rewrite (bind_ok _ _ _ _ _ (load_ok (a + 4) s ltac:(lia) ltac:(lia))), Ha4.
  assert (n < k) as Hnk.
  { destruct i as [|i]; [injection Hi as <- <-; lia|]. apply list_elem_of_lookup_2 in Hi as Hin.
    apply elem_of_cons in Hin as [[= -> ->]|Hin]; [lia|].
    pose proof (fr_end _ _ _ _ _ Hf _ Hin) as He. unfold bend, HDR in He. cbn [fst snd] in He. lia. }
  rewrite Z.geb_leb, (proj2 (Z.leb_gt k n)) by lia. unfold gets at 1, mbind at 1, M_bind at 1.
  destruct (Z.eqb_spec a (freep s)) as [E|E].
  - unfold mbind at 1, M_bind at 1. rewrite morecore_huge by done. unfold out_of_memory. by destruct (growproc _ _).
  - assert (i ≠ f) as Hif by (intros ->; rewrite Hi in Hfp; by injection Hfp).
    destruct (wp_ok (s_ptr a) (λ b s', s' = s ∧ ∃ nb, ((base, 0) :: B) !! nxt (length ((base, 0) :: B)) i = Some (b, nb)) s)
      as (b & s' & Eb & -> & nb & Hb).
    { eapply W_next; [exact Hf|exact Hi|]. eauto. }
    rewrite (bind_ok _ _ _ _ _ Eb). eapply IH; [exact Hb|].
    pose proof (dist_nxt (S (length B)) i f Hil Hfl Hif). cbn [length]. lia.
Qed.

Lemma malloc_huge U s nbytes :
  shrink_law → heap_ok U s → 2 ^ 28 ≤ units nbytes ≤ 2 ^ 29 →
  ∃ s', keeps_bytes U (heap s) (heap s') ∧ heap_ok U s' ∧ malloc base growproc nbytes s = out_of_memory (units nbytes) s'.
Proof.
  intros Hs [Hu Hf] Hk. pose proof (us_mem _ _ _ _ Hu) as (Hb1 & Hb2 & Hb3 & Hb4). unfold HDR in *.
  unfold malloc. fold (units nbytes). set (k := units nbytes) in *.
  assert (∀ s1 B, used_ok U s1 → free_ok B U s1 →
    (p ← s_ptr (freep s1); fuel ← gets (λ s, 2 * length (heap s) + 4)%nat; malloc_loop growproc fuel k (freep s1) p) s1 = out_of_memory k s1) as Hrun.
  { intros s1 B Hu1 Hf1. pose proof (fr_freep _ _ _ _ _ Hf1) as (f & [z nz] & Hf2 & Hz). cbn [fst] in Hz. subst z.
    pose proof (lookup_lt_Some _ _ _ Hf2) as Hfl. pose proof (apart_length _ _ (fr_apart _ _ _ _ _ Hf1)) as HB. pose proof (fr_total _ _ _ _ _ Hf1) as Ht.
    pose proof (total_nonneg U ltac:(intros x Hx; by apply (us_in _ _ _ _ Hu1))) as HtU. pose proof (us_mem _ _ _ _ Hu1) as (_ & _ & Hlen1 & _).
    destruct (wp_ok (s_ptr (freep s1)) (λ b s', s' = s1 ∧ ∃ nb, ((base, 0) :: B) !! nxt (length ((base, 0) :: B)) f = Some (b, nb)) s1)
      as (b & s' & Eb & -> & nb & Hb).
    { eapply W_next; [exact Hf1|exact Hf2|]. eauto. }
    rewrite (bind_ok _ _ _ _ _ Eb). erewrite bind_ok by reflexivity.
    eapply (malloc_loop_huge U k B s1 f nz); try done.
    pose proof (dist_start _ _ Hfl) as Hd. cbn [length] in Hd |- *. unfold HDR in *. lia. }
  erewrite bind_ok by reflexivity. destruct Hf as [(E & -> & Hlen)|(B & Hf)].
  - rewrite E. change (0 =? 0) with true. destruct (first_list s Hu Hlen) as (Hu1 & Hf1 & Hkeep).
    exists (mkUst (base_list (heap s)) base). split; [done|]. split; [split; [done|right; by exists []]|].
    erewrite bind_ok; [by apply (Hrun (mkUst (base_list (heap s)) base) [])|].
    erewrite bind_ok by reflexivity. unfold set_s_ptr, set_s_size.
    erewrite bind_ok by (apply store_ok; cbn [heap set_freep]; lia).
    erewrite bind_ok by (apply store_ok; cbn [heap set_freep set_heap]; rewrite ?st_length; lia). reflexivity.
  - exists s. split; [done|]. split; [split; [done|right; by exists B]|].
    assert (freep s =? 0 = false) as ->.
    { pose proof (fr_freep _ _ _ _ _ Hf) as (f & [z nz] & Hf2 & Hz). cbn [fst] in Hz. subst z. apply Z.eqb_neq.
      destruct f as [|f]; cbn in Hf2; [injection Hf2 as <- _; lia|]. apply list_elem_of_lookup_2 in Hf2. pose proof (apart_lb _ _ _ (fr_apart _ _ _ _ _ Hf) Hf2). cbn in *. unfold HDR in *. lia. }
    erewrite bind_ok by reflexivity. by apply (Hrun s B).
Qed.
End Thm.

(** C36. The allocator keeps the heap: its free blocks and the blocks in use are
    disjoint and together the whole heap, the free list is circular and sorted
    by address, and no two free blocks touch.  From such a heap, and from memory
    in which [malloc] has not run yet:
    - asked for up to [2 ^ 31 - 16] bytes, [malloc] returns a block with room for
      them that overlaps no block in use, or 0 when the kernel refuses more
      memory;
    - asked for more, up to [2 ^ 32 - 8], it calls [sbrk] with a number that is
      not positive: 0 when the kernel refuses, else it writes its header beyond
      the end of the memory and faults; it never returns a block;
    - asked for [2 ^ 32 - 7] or more, its size wraps around and it returns a block
      without any room;
    - [free] of a block in use gives it back;
    and neither changes a byte of the user. *)
Theorem malloc_free_keep_heap (base hs : Z) (growproc : bytes → Z → option bytes) U s :
  grow_law growproc → shrink_law growproc → heap_ok base hs U s →
  (∀ nbytes, (0 ≤ nbytes ≤ 2 ^ 31 - 16 ∨ 2 ^ 32 - 7 ≤ nbytes < 2 ^ 32) → ∃ r s', malloc base growproc nbytes s = Ok (r, s') ∧
     keeps_bytes base hs U (heap s) (heap s') ∧
     if r =? 0 then heap_ok base hs U s' ∧ growproc (heap s') (HDR * Z.max 4096 (units nbytes)) = None
     else ∃ n, heap_ok base hs ((r - HDR, n) :: U) s' ∧
          (if bool_decide (nbytes < 2 ^ 31) then nbytes ≤ bend (r - HDR, n) - r < nbytes + HDR else bend (r - HDR, n) = r)) ∧
  (∀ nbytes, 2 ^ 31 - 16 < nbytes < 2 ^ 32 - 7 → asked (units nbytes) ≤ 0 ∧ ∃ s',
     keeps_bytes base hs U (heap s) (heap s') ∧ heap_ok base hs U s' ∧
     malloc base growproc nbytes s =
       match growproc (heap s') (asked (units nbytes)) with None => Ok (0, s') | Some _ => Fault end) ∧
  (∀ p n U', U ≡ₚ (p - HDR, n) :: U' → ∃ s', free p s = Ok (tt, s') ∧
     keeps_bytes base hs U' (heap s) (heap s') ∧ heap_ok base hs U' s').
Proof.
  intros Hg Hsl Hok. split; [|split].
  - intros nbytes Hn. assert (1 ≤ units nbytes ∧ HDR * units nbytes < 2 ^ 31 ∧
      if bool_decide (nbytes < 2 ^ 31) then nbytes ≤ HDR * (units nbytes - 1) < nbytes + HDR else units nbytes = 1) as (Hk & Hk2 & Hsz).
    { unfold units, HDR in *. case_bool_decide.
      - rewrite (u32_id (nbytes + 8 - 1)) by lia. pose proof (Z.div_mod (nbytes + 8 - 1) 8 ltac:(lia)). pose proof (Z.mod_pos_bound (nbytes + 8 - 1) 8 ltac:(lia)).
        rewrite u32_id by lia. lia.
      - replace (u32 (nbytes + 8 - 1)) with (nbytes + 7 - 2 ^ 32) by (unfold u32; rewrite <- (Z_mod_plus_full _ (-1)), Z.mod_small; lia).
        rewrite Z.div_small by lia. split; [done|]. split; [done|reflexivity]. }
    destruct (wp_ok (malloc base growproc nbytes) (allocated base hs growproc U (units nbytes) s) s) as (r & s' & E & Hkeep & Hres).
    { by eapply wp_malloc. }
    exists r, s'. split; [exact E|]. split; [exact Hkeep|]. destruct (r =? 0).
    + destruct Hres as (Hu & HB & Hnone). split; [split; [done|by right]|]. unfold more_units in Hnone.
      destruct (Z.ltb_spec (units nbytes) 4096); [by rewrite Z.max_l by lia|by rewrite Z.max_r by lia].
    + destruct Hres as (B & Hu & HB). exists (units nbytes). split; [split; [done|right; by exists B]|]. unfold bend. cbn [fst snd].
      case_bool_decide; unfold HDR in *; lia.
  - intros nbytes Hn. assert (2 ^ 28 ≤ units nbytes ≤ 2 ^ 29) as Hk.
    { unfold units, HDR. rewrite (u32_id (nbytes + 8 - 1)) by lia. pose proof (Z.div_mod (nbytes + 8 - 1) 8 ltac:(lia)).
      pose proof (Z.mod_pos_bound (nbytes + 8 - 1) 8 ltac:(lia)). rewrite u32_id; lia. }
    split; [by apply asked_neg|]. destruct (malloc_huge base hs growproc U s nbytes Hsl Hok Hk) as (s' & H). by exists s'.
  - intros p n U' HU. destruct Hok as [Hu [(_ & -> & _)|(B & HB)]]; [by apply Permutation_nil_cons in HU|].
    apply (used_ok_perm _ _ _ _ _ HU) in Hu. apply (free_ok_perm _ _ _ _ _ _ HU) in HB.
    destruct (wp_ok (free p) (λ _ s', keeps_bytes base hs U' (heap s) (heap s') ∧ heap_ok base hs U' s') s) as ([] & s' & E & H).
    { replace p with (p - HDR + HDR) at 1 by lia. eapply wp_free; [exact Hu|exact HB|]. intros B' s' H1 H2 _ H3 _ _. split; [done|]. split; [done|right; by exists B']. }
    by exists s'.
Qed.

(** A heap that begins at 16, [base] at 8; the kernel grants everything below
    the limit, and gives memory back as [deallocuvm] does. *)
Definition demo_grow (m : bytes) (n : Z) : option bytes :=
  if n <? 0 then Some (if len m + n <? 0 then m else take (Z.to_nat (len m + n)) m)
  else if bool_decide (len m + n < 2 ^ 31) then Some (m ++ replicate (Z.to_nat n) 0) else None.
Lemma demo_grow_law : grow_law demo_grow.
Proof.
  intros m n m' Hn. unfold demo_grow. rewrite (proj2 (Z.ltb_ge n 0)) by done. case_bool_decide; [intros [= <-]|done].
  exists (replicate (Z.to_nat n) 0). rewrite length_app, length_replicate. split_and!; [done|lia|lia].
Qed.
Lemma demo_shrink_law : shrink_law demo_grow.
Proof.
  intros m n m' Hn. unfold demo_grow. destruct (Z.ltb_spec n 0).
  - intros [= <-]. destruct (len m + n <? 0); [done|]. rewrite length_take. lia.
  - case_bool_decide; [intros [= <-]|done]. rewrite length_app, length_replicate. lia.
Qed.
Definition demo_mem : ust := mkUst (replicate 16 0) 0.
Lemma demo_mem_ok : heap_ok 8 16 [] demo_mem.
Proof.
  split; [|by left]. split.
  - cbn. unfold HDR. lia.
  - by intros x ?%not_elem_of_nil.
  - by apply NoDup_nil.
  - by intros x y ?%not_elem_of_nil.
Qed.

Lemma malloc_free_keep_heap_witness :
  (∃ r s1 s2, malloc 8 demo_grow 20 demo_mem = Ok (r, s1) ∧ r ≠ 0 ∧ free r s1 = Ok (tt, s2) ∧ heap_ok 8 16 [] s2) ∧
  malloc 8 demo_grow (2 ^ 31) demo_mem = Fault.
Proof.
  destruct (malloc_free_keep_heap 8 16 demo_grow [] demo_mem demo_grow_law demo_shrink_law demo_mem_ok) as (Hm & Hh & _). split.
  - destruct (Hm 20 ltac:(lia)) as (r & s1 & E & _ & Hr). destruct (Z.eqb_spec r 0) as [->|Hne].
    + exfalso. assert (match malloc 8 demo_grow 20 demo_mem with Ok (r, _) => negb (r =? 0) | _ => false end = true) as H by (vm_compute; reflexivity).
      rewrite E in H. discriminate H.
    + destruct Hr as (n & Hok & _).
      destruct (malloc_free_keep_heap 8 16 demo_grow [(r - HDR, n)] s1 demo_grow_law demo_shrink_law Hok) as (_ & _ & Hf).
      destruct (Hf r n [] ltac:(reflexivity)) as (s2 & E2 & _ & H2). exists r, s1, s2. exact (conj E (conj Hne (conj E2 H2))).
  - destruct (Hh (2 ^ 31) ltac:(lia)) as (_ & s' & _ & _ & ->). unfold demo_grow.
    assert (asked (units (2 ^ 31)) <? 0 = true) as -> by (vm_compute; reflexivity). reflexivity.
Defined.
