(* ===== verification/Console.v ===== *)
(** * Console, serial port and keyboard (console.c, uart.c, kbd.c)

    The registers of the devices are the fields the code reads and writes: the
    cursor of the screen, the status and data of the serial port and of the
    keyboard controller.  [procdump], debug output, is left out: a result says
    when it is called. *)

From S2P Require Export Fs Printf Pipe.
Local Open Scope Z_scope.

Definition INPUT_BUF : Z := 128.
Definition BACKSPACE : Z := 256.
(** [C(x)]. *)
Definition CTRL (x : Z) : Z := x - 64.

(** [input], the screen ([crt] and the two bytes of the cursor register), the
    flags [panicked] and
    [cons.locking], the serial port (is it there, what it has received and sent), the keyboard
    (its data and [shift] of [kbdgetc]), and what the code needs of the kernel. *)
Record cst := mkCs {
  ibuf : bytes;
  ir : Z;
  iw : Z;
  ie : Z;
  crt : list Z;
  cur_hi : Z;
  cur_lo : Z;
  panicked : bool;
  locking : bool;
  uart : bool;
  uart_in : bytes;
  uart_out : list Z;
  kbd_in : bytes;
  kshift : Z;
  cx : ctx
}.
Definition set_input (b : bytes) (r w e : Z) (s : cst) : cst :=
  mkCs b r w e (crt s) (cur_hi s) (cur_lo s) (panicked s) (locking s) (uart s) (uart_in s) (uart_out s) (kbd_in s) (kshift s) (cx s).
Definition set_crt (l : list Z) (s : cst) : cst :=
  mkCs (ibuf s) (ir s) (iw s) (ie s) l (cur_hi s) (cur_lo s) (panicked s) (locking s) (uart s) (uart_in s) (uart_out s) (kbd_in s) (kshift s) (cx s).
Definition set_cursor (hi lo : Z) (s : cst) : cst :=
  mkCs (ibuf s) (ir s) (iw s) (ie s) (crt s) hi lo (panicked s) (locking s) (uart s) (uart_in s) (uart_out s) (kbd_in s) (kshift s) (cx s).
Definition set_uart (i : bytes) (o : list Z) (s : cst) : cst :=
  mkCs (ibuf s) (ir s) (iw s) (ie s) (crt s) (cur_hi s) (cur_lo s) (panicked s) (locking s) (uart s) i o (kbd_in s) (kshift s) (cx s).
Definition set_kbd (i : bytes) (k : Z) (s : cst) : cst :=
  mkCs (ibuf s) (ir s) (iw s) (ie s) (crt s) (cur_hi s) (cur_lo s) (panicked s) (locking s) (uart s) (uart_in s) (uart_out s) i k (cx s).
Definition set_cx (x : ctx) (s : cst) : cst :=
  mkCs (ibuf s) (ir s) (iw s) (ie s) (crt s) (cur_hi s) (cur_lo s) (panicked s) (locking s) (uart s) (uart_in s) (uart_out s) (kbd_in s) (kshift s) x.
Definition oncx {A} (m : M ctx A) : M cst A := zoom cx set_cx m.

(** ** Output *)

(** The wait for the transmitter has no effect but time. *)
Definition uartputc (c : Z) : M cst unit :=
  u ← gets uart;
  if negb u then mret tt
  else modify (λ s, set_uart (uart_in s) (uart_out s ++ [u8 c]) s).

Definition crt_put (pos v : Z) : M cst unit :=
  deref (λ s, crt s !! Z.to_nat pos) ;; modify (λ s, set_crt (<[Z.to_nat pos := v]> (crt s)) s).

Definition cgaputc (c : Z) : M cst unit :=
  hi ← gets cur_hi;
  lo ← gets cur_lo;
  let pos := Z.lor (Z.shiftl hi 8) lo in
  pos ← (if c =? 10 then mret (pos + (80 - pos mod 80))
         else if c =? BACKSPACE then mret (if pos >? 0 then pos - 1 else pos)
         else crt_put pos (Z.lor (Z.land c 255) 0x700) ;; mret (pos + 1));
  if (pos <? 0) || (pos >? 25 * 80) then panic "pos under/overflow"
  else
    pos ← (if pos / 80 >=? 24 then
             modify (λ s, set_crt (take (23 * 80) (drop 80 (crt s)) ++ drop (23 * 80) (crt s)) s) ;;
             let pos := pos - 80 in
             modify (λ s, set_crt (splice (crt s) (Z.to_nat pos) (replicate (Z.to_nat (24 * 80 - pos)) 0)) s) ;;
             mret pos
           else mret pos);
    modify (set_cursor (u8 (Z.shiftr pos 8)) (u8 pos)) ;;
    crt_put pos (Z.lor 32 0x700).

Definition consputc (c : Z) : M cst unit :=
  p ← gets panicked;
  if (p : bool) then diverge
  else
    (if c =? BACKSPACE then uartputc 8 ;; uartputc 32 ;; uartputc 8 else uartputc c) ;;
    cgaputc c.

(** ** Input *)

Definition uartgetc : M cst Z :=
  u ← gets uart;
  if negb u then mret (-1)
  else
    i ← gets uart_in;
    match i with
    | [] => mret (-1)
    | c :: i => modify (λ s, set_uart i (uart_out s) s) ;; mret c
    end.

(** [input.buf[(input.e-1) % INPUT_BUF]]. *)
Definition buf_at (i : Z) : M cst Z := deref (λ s, ibuf s !! Z.to_nat (i mod INPUT_BUF)).
(** [input.e--; consputc(BACKSPACE);] *)
Definition erase : M cst unit :=
  modify (λ s, set_input (ibuf s) (ir s) (iw s) (u32 (ie s - 1)) s) ;; consputc BACKSPACE.

(** Kill line. *)
Fixpoint kill_line (fuel : nat) : M cst unit :=
  match fuel with
  | O => diverge
  | S fuel =>
      e ← gets ie;
      w ← gets iw;
      if e =? w then mret tt
      else
        c ← buf_at (u32 (e - 1));
        if c =? 10 then mret tt else erase ;; kill_line fuel
  end.

(** The [default] case. *)
Definition put_char (c : Z) : M cst unit :=
  e ← gets ie;
  r ← gets ir;
  if negb (c =? 0) && (u32 (e - r) <? INPUT_BUF) then
    let c := if c =? 13 then 10 else c in
    modify (λ s, set_input (<[Z.to_nat (ie s mod INPUT_BUF) := u8 c]> (ibuf s)) (ir s) (iw s) (u32 (ie s + 1)) s) ;;
    consputc c ;;
    e ← gets ie;
    r ← gets ir;
    when ((c =? 10) || (c =? CTRL 68) || (e =? u32 (r + INPUT_BUF)))
      (modify (λ s, set_input (ibuf s) (ir s) (ie s) (ie s) s) ;; oncx (wakeup_ch W_input))
  else mret tt.

(** One turn of the loop of [consoleintr]: whether [procdump] is asked for. *)
Definition intr_char (c : Z) : M cst bool :=
  if c =? CTRL 80 then mret true
  else if c =? CTRL 85 then kill_line (Z.to_nat INPUT_BUF + 1) ;; mret false
  else if (c =? CTRL 72) || (c =? 127) then
    e ← gets ie;
    w ← gets iw;
    (if negb (e =? w) then erase else mret tt) ;; mret false
  else put_char c ;; mret false.

Fixpoint intr_loop (fuel : nat) (getc : M cst Z) (dump : bool) : M cst bool :=
  match fuel with
  | O => diverge
  | S fuel =>
      c ← getc;
      if c >=? 0 then d ← intr_char c; intr_loop fuel getc (dump || d) else mret dump
  end.

(** [getc] takes characters from a device that has at most [fuel - 1]. *)
Definition consoleintr (fuel : nat) (getc : M cst Z) : M cst bool :=
  oncx (acquire_lk L_cons) ;;
  dump ← intr_loop fuel getc false;
  oncx (release_lk L_cons) ;;
  mret dump.

Definition uartintr : M cst bool :=
  n ← gets (λ s, length (uart_in s)); consoleintr (S n) uartgetc.

(** ** Reading and writing *)

(** The loop of [consoleread], [n] bytes before the end of a read of [target]:
    [None] when the process is killed, or the bytes; what is left when it has
    to sleep. *)
Fixpoint read_loop (n : nat) (target : Z) : M cst (presult (option bytes) (bytes * nat)) :=
  match n with
  | O => mret (PRet (Some []))
  | S n' =>
      r ← gets ir;
      w ← gets iw;
      if r =? w then
        k ← gets (λ s, cur_killed (cx s));
        if negb (k =? 0) then oncx (release_lk L_cons) ;; mret (PRet None)
        else mret (PWait ([], n))
      else
        c ← buf_at r;
        modify (λ s, set_input (ibuf s) (u32 (ir s + 1)) (iw s) (ie s) s) ;;
        if c =? CTRL 68 then
          when (Z.of_nat n <? target) (modify (λ s, set_input (ibuf s) (u32 (ir s - 1)) (iw s) (ie s) s)) ;;
          mret (PRet (Some []))
        else if c =? 10 then mret (PRet (Some [c]))
        else
          l ← read_loop n' target;
          mret match l with
               | PRet (Some l) => PRet (Some (c :: l))
               | PRet None => PRet None
               | PWait (l, m) => PWait (c :: l, m)
               end
  end.

(** The console over the file system of the calling process. *)
Record con (S : Type) := mkCon { con_fs : fst S; con_c : cst }.
Arguments mkCon {S}.
Arguments con_fs {S}.
Arguments con_c {S}.

Section Calls.
Context {S : Type} `{BS : BlockStore S}.
Definition onconfs {A} (m : M (fst S) A) : M (con S) A := zoom con_fs (λ f s, mkCon f (con_c s)) m.
Definition oncon {A} (m : M cst A) : M (con S) A := zoom con_c (λ c s, mkCon (con_fs s) c) m.

(** From the loop on, with the lock held and [got] read. *)
Definition consoleread_from (ip : nat) (target : Z) (got : bytes) (n : nat) : M (con S) (presult (Z * bytes) (bytes * nat)) :=
  l ← oncon (read_loop n target);
  match l with
  | PWait (l, m) => mret (PWait (got ++ l, m))
  | PRet None => onconfs (ilock (Some ip)) ;; mret (PRet (-1, got))
  | PRet (Some l) =>
      oncon (oncx (release_lk L_cons)) ;;
      onconfs (ilock (Some ip)) ;;
      mret (PRet (Z.of_nat (length (got ++ l)), got ++ l))
  end.
Definition consoleread (ip : nat) (n : Z) : M (con S) (presult (Z * bytes) (bytes * nat)) :=
  onconfs (iunlock (Some ip)) ;;
  oncon (oncx (acquire_lk L_cons)) ;;
  consoleread_from ip (u32 n) [] (Z.to_nat n).

Definition consolewrite (ip : nat) (buf : bytes) (n : Z) : M (con S) Z :=
  onconfs (iunlock (Some ip)) ;;
  oncon (oncx (acquire_lk L_cons)) ;;
  oncon (for_each (seq 0 (Z.to_nat n)) (λ i, c ← deref (λ _, buf !! i); consputc (Z.land c 255))) ;;
  oncon (oncx (release_lk L_cons)) ;;
  onconfs (ilock (Some ip)) ;;
  mret n.
End Calls.

(** ** cprintf *)

(** ["0123456789abcdef"]. *)
Definition cdigit (k : Z) : Z := if k <? 10 then 48 + k else 87 + k.
Fixpoint cdigits_loop (fuel : nat) (x base : Z) : bytes :=
  match fuel with
  | O => []
  | S fuel => cdigit (x mod base) :: (if negb (x / base =? 0) then cdigits_loop fuel (x / base) base else [])
  end.
(** [printint] of console.c: the characters of [buf] from the last on. *)
Definition cprintint (xx base : Z) (sign : bool) : M cst unit :=
  let neg := sign && (xx <? 0) in
  let x := if neg then u32 (- xx) else u32 xx in
  for_each (rev (cdigits_loop 32 x base ++ (if neg then [45] else []))) consputc.

(** [for(; *s; s++) consputc( *s);] *)
Fixpoint cputs (s : bytes) : M cst unit :=
  match s with
  | [] => fault
  | c :: s => if c =? 0 then mret tt else consputc c ;; cputs s
  end.

Definition next_arg (ap : list Z) : M cst (Z * list Z) := deref (λ _, match ap with a :: ap => Some (a, ap) | [] => None end).

(** The loop of [cprintf]; [str] reads the string at an address. *)
Fixpoint cprintf_loop (str : Z → option bytes) (fmt : bytes) (ap : list Z) : M cst unit :=
  match fmt with
  | [] => fault
  | c :: fmt =>
      if c =? 0 then mret tt
      else if negb (c =? 37) then consputc c ;; cprintf_loop str fmt ap
      else
        match fmt with
        | [] => fault
        | c :: fmt =>
            if c =? 0 then mret tt
            else if c =? 100 then '(a, ap) ← next_arg ap; cprintint (i32 a) 10 true ;; cprintf_loop str fmt ap
            else if (c =? 120) || (c =? 112) then '(a, ap) ← next_arg ap; cprintint (i32 a) 16 false ;; cprintf_loop str fmt ap
            else if c =? 115 then
              '(a, ap) ← next_arg ap;
              s ← deref (λ _, if a =? 0 then Some null_string else str a);
              cputs s ;;
              cprintf_loop str fmt ap
            else if c =? 37 then consputc 37 ;; cprintf_loop str fmt ap
            else consputc 37 ;; consputc c ;; cprintf_loop str fmt ap
        end
  end.
Definition cprintf (str : Z → option bytes) (fmt : option bytes) (ap : list Z) : M cst unit :=
  l ← gets locking;
  when l (oncx (acquire_lk L_cons)) ;;
  match fmt with
  | None => panic "null fmt"
  | Some fmt => cprintf_loop str fmt ap
  end ;;
  when l (oncx (release_lk L_cons)).
