(* ===== verification/ConsoleProps.v ===== *)
(** * The console as a line discipline

    What has been typed is two strings: the characters that can be read, and
    the line being edited. *)

From S2P Require Export Console.
Local Open Scope Z_scope.

(** ** The screen *)

(** The screen holds 24 lines that are used, and the cursor is on one. *)
Definition cga_ok (s : cst) : Prop :=
  (25 * 80 ≤ length (crt s))%nat ∧ 0 ≤ cur_hi s < 256 ∧ 0 ≤ cur_lo s < 256 ∧ cur_hi s * 256 + cur_lo s < 24 * 80.

(** Output changes the screen and what the serial port has sent. *)
Definition shown (s : cst) (l : list Z) (hi lo : Z) (o : list Z) : cst :=
  mkCs (ibuf s) (ir s) (iw s) (ie s) l hi lo (panicked s) (locking s) (uart s) (uart_in s) o (kbd_in s) (kshift s) (cx s).
Definition echo (s : cst) (c : Z) : list Z :=
  if uart s then (if c =? BACKSPACE then [8; 32; 8] else [u8 c]) else [].

Section Output.
Context (t : bool).
Implicit Types (s : cst).

Lemma W_crt_put pos v (Q : unit → cst → Prop) s :
  0 ≤ pos → pos < Z.of_nat (length (crt s)) → Q tt (set_crt (<[Z.to_nat pos := v]> (crt s)) s) → wpg t (crt_put pos v) Q s.
Proof.
  intros H0 H1 HQ. destruct (lookup_lt_is_Some_2 (crt s) (Z.to_nat pos)) as [x Hx]; [lia|].
  apply wpg_bind. eapply wpg_deref; [exact Hx|]. by apply (wpg_modify t).
Qed.

Lemma lor_hi_lo hi lo : 0 ≤ hi → 0 ≤ lo < 256 → Z.lor (Z.shiftl hi 8) lo = hi * 256 + lo.
Proof.
  intros Hh Hl. replace (hi * 256) with (Z.shiftl hi 8) by (rewrite Z.shiftl_mul_pow2; lia).
  assert (Z.land (Z.shiftl hi 8) lo = 0) as E.
  { apply Z.bits_inj'. intros n Hn. rewrite Z.land_spec, Z.bits_0. destruct (Z.ltb_spec n 8).
    - by rewrite Z.shiftl_spec_low.
    - rewrite (Z.bits_above_log2 lo n); [by rewrite andb_false_r|lia|]. destruct (decide (lo = 0)) as [->|]; [cbn; lia|].
      pose proof (Z.log2_lt_pow2 lo 8). lia. }
  rewrite Z.add_nocarry_lxor by done. by rewrite Z.lxor_lor by done.
Qed.

Lemma W_cgaputc c (Q : unit → cst → Prop) s :
  cga_ok s → (∀ l hi lo, cga_ok (shown s l hi lo (uart_out s)) → Q tt (shown s l hi lo (uart_out s))) → wpg t (cgaputc c) Q s.
Proof.
  intros (Hlen & Hhi & Hlo & Hpos) HQ. unfold cgaputc. apply wpg_bind, wpg_gets, wpg_bind, wpg_gets. cbv zeta. rewrite lor_hi_lo by lia.
  set (pos := cur_hi s * 256 + cur_lo s) in *.
  (* from the new position on *)
  assert (∀ p l, 0 ≤ p ≤ 24 * 80 → length l = length (crt s) →
    wpg t (if (p <? 0) || (p >? 25 * 80) then panic "pos under/overflow"
           else pos ← (if p / 80 >=? 24 then
             modify (λ s, set_crt (take (23 * 80) (drop 80 (crt s)) ++ drop (23 * 80) (crt s)) s) ;;
             modify (λ s, set_crt (splice (crt s) (Z.to_nat (p - 80)) (replicate (Z.to_nat (24 * 80 - (p - 80))) 0)) s) ;;
             mret (p - 80)
           else mret p);
           modify (set_cursor (u8 (Z.shiftr pos 8)) (u8 pos)) ;; crt_put pos (Z.lor 32 0x700)) Q (set_crt l s)) as Hrest.
  { intros p l Hp Hl. replace ((p <? 0) || (p >? 25 * 80)) with false by lia. apply wpg_bind.
    assert (∀ p' l', 0 ≤ p' < 24 * 80 → length l' = length (crt s) →
      wpg t (modify (set_cursor (u8 (Z.shiftr p' 8)) (u8 p')) ;; crt_put p' (Z.lor 32 0x700)) Q (set_crt l' s)) as Hend.
    { intros p' l' Hp' Hl'. apply wpg_bind, (wpg_modify t). cbv beta. apply W_crt_put; cbn [crt set_cursor set_crt]; [lia|rewrite Hl'; lia|].
      apply HQ. split; [cbn; rewrite length_insert; lia|]. cbn. rewrite Z.shiftr_div_pow2 by lia. unfold u8. change (2 ^ 8) with 256.
      pose proof (Z.mod_pos_bound p' 256). pose proof (Z.mod_pos_bound (p' / 256) 256). pose proof (Z.div_mod p' 256).
      rewrite (Z.mod_small (p' / 256)); [lia|]. split; [apply Z.div_pos; lia|apply Z.div_lt_upper_bound; lia]. }
    pose proof (Z.div_mod p 80). pose proof (Z.mod_pos_bound p 80). rewrite Z.geb_leb. destruct (Z.leb_spec 24 (p / 80)).
    - apply wpg_bind, (wpg_modify t). cbv beta. apply wpg_bind, (wpg_modify t). cbv beta. apply wpg_ret. cbn [crt set_crt].
      apply Hend; [lia|]. rewrite splice_length, length_app, length_take, !length_drop, Hl. lia.
    - apply wpg_ret. by apply Hend; [lia|]. }
  apply wpg_bind. destruct (Z.eqb_spec c 10) as [|].
  - apply wpg_ret. pose proof (Z.div_mod pos 80). pose proof (Z.mod_pos_bound pos 80). assert (pos / 80 < 24) by (apply Z.div_lt_upper_bound; lia).
    pose proof (Hrest (pos + (80 - pos mod 80)) (crt s)) as Hr. destruct s; apply Hr; [lia|done].
  - destruct (Z.eqb_spec c BACKSPACE) as [|].
    + apply wpg_ret. pose proof (Hrest (if pos >? 0 then pos - 1 else pos) (crt s)) as Hr. destruct s; apply Hr; [|done]. destruct (Z.gtb_spec pos 0); lia.
    + apply wpg_bind, W_crt_put; [lia|lia|]. apply wpg_ret, Hrest; [lia|by rewrite length_insert].
Qed.
End Output.

Lemma cga_ok_shown s : cga_ok s → ∀ b r w e, cga_ok (set_input b r w e s).
Proof. done. Qed.

(** ** The line discipline *)

(** What can be read, and the line being edited. *)
Record line := mkLine { ready : bytes; editing : bytes }.

(** A character that is stored. *)
Definition typed (c : Z) (l : line) : line :=
  let e := editing l ++ [u8 c] in
  if (c =? 10) || (c =? 4) || (length (ready l ++ e) =? 128)%nat then mkLine (ready l ++ e) [] else mkLine (ready l) e.
(** Control-P, control-U, backspace, and the others. *)
Definition edit_char (c : Z) (l : line) : line :=
  if c =? 16 then l
  else if c =? 21 then mkLine (ready l) []
  else if (c =? 8) || (c =? 127) then mkLine (ready l) (take (length (editing l) - 1) (editing l))
  else if negb (c =? 0) && (length (ready l ++ editing l) <? 128)%nat then typed (if c =? 13 then 10 else c) l
  else l.

(** The ring buffer holds them. *)
Record line_in (l : line) (s : cst) : Prop := {
  li_len : length (ibuf s) = 128%nat;
  li_r : 0 ≤ ir s < 2 ^ 32;
  li_w : iw s = u32 (ir s + Z.of_nat (length (ready l)));
  li_e : ie s = u32 (ir s + Z.of_nat (length (ready l ++ editing l)));
  li_fit : (length (ready l ++ editing l) ≤ 128)%nat;
  li_at : ∀ i c, (ready l ++ editing l) !! i = Some c → ibuf s !! Z.to_nat ((ir s + Z.of_nat i) mod INPUT_BUF) = Some c;
  li_line : Forall (λ c, c ≠ 10) (editing l)
}.

Lemma u32_mod128 z : u32 z mod INPUT_BUF = z mod INPUT_BUF.
Proof. unfold u32, INPUT_BUF. change (2 ^ 32) with (128 * 2 ^ 25). rewrite Z.mul_comm, Z.mod_mod_divide; [done|]. exists (2 ^ 25). lia. Qed.
Lemma u32_add_sub z k : 0 ≤ z < 2 ^ 32 → 0 ≤ k < 2 ^ 32 → u32 (u32 (z + k) - z) = k.
Proof. intros Hz Hk. unfold u32. rewrite Zminus_mod_idemp_l. replace (z + k - z) with k by lia. by apply Z.mod_small. Qed.
Lemma u32_add_inj z j k : 0 ≤ j < 2 ^ 32 → 0 ≤ k < 2 ^ 32 → u32 (z + j) = u32 (z + k) → j = k.
Proof.
  unfold u32. intros Hj Hk E. pose proof (Z.div_mod (z + j) (2 ^ 32)). pose proof (Z.div_mod (z + k) (2 ^ 32)). nia.
Qed.
Lemma u32_pred z : u32 (u32 z - 1) = u32 (z - 1).
Proof. unfold u32. by rewrite Zminus_mod_idemp_l. Qed.
Lemma u32_succ z : u32 (u32 z + 1) = u32 (z + 1).
Proof. unfold u32. by rewrite Zplus_mod_idemp_l. Qed.
(** Places in the buffer. *)
Lemma slot_ne z i j : 0 ≤ i < 128 → 0 ≤ j < 128 → i ≠ j → Z.to_nat ((z + i) mod INPUT_BUF) ≠ Z.to_nat ((z + j) mod INPUT_BUF).
Proof.
  unfold INPUT_BUF. intros Hi Hj Hne E. pose proof (Z.mod_pos_bound (z + i) 128 ltac:(lia)). pose proof (Z.mod_pos_bound (z + j) 128 ltac:(lia)).
  assert ((z + i) mod 128 = (z + j) mod 128) as E' by lia. pose proof (Z.div_mod (z + i) 128). pose proof (Z.div_mod (z + j) 128). nia.
Qed.

(** The console works: nothing has panicked, the screen is right. *)
Record con_ok (s : cst) : Prop := { co_alive : panicked s = false; co_cga : cga_ok s }.

(** States that differ in the output only. *)
Definition out_only (s s' : cst) (o : list Z) : Prop :=
  con_ok s' ∧ uart_out s' = uart_out s ++ o ∧ s' = shown s (crt s') (cur_hi s') (cur_lo s') (uart_out s').

Lemma line_in_out l s s' o : line_in l s → out_only s s' o → line_in l s'.
Proof. intros [] (_ & _ & E). rewrite E. by split. Qed.
Lemma out_only_trans s1 s2 s3 o1 o2 : out_only s1 s2 o1 → out_only s2 s3 o2 → out_only s1 s3 (o1 ++ o2).
Proof.
  intros (H1 & H2 & H3) (G1 & G2 & G3). split; [done|]. split; [by rewrite G2, H2, app_assoc|]. rewrite G3 at 1. by rewrite H3.
Qed.

Lemma release_lk_held x l : held x = [l] → release_lk l x = Ok (tt, set_held [] x).
Proof. intros Hx. pose proof (release_lk_ok (set_held [] x) l eq_refl) as H. rewrite <- H. f_equal. destruct x; cbn in *; by subst. Qed.

Section Input.
Context (t : bool).
Implicit Types (s : cst).

Lemma W_uartputc c (Q : unit → cst → Prop) s :
  Q tt (shown s (crt s) (cur_hi s) (cur_lo s) (uart_out s ++ if uart s then [u8 c] else [])) → wpg t (uartputc c) Q s.
Proof.
  intros HQ. apply wpg_bind, wpg_gets. destruct (uart s); cbn [negb].
  - apply (wpg_modify t). exact HQ.
  - apply wpg_ret. rewrite app_nil_r in HQ. by destruct s.
Qed.

Lemma W_consputc c (Q : unit → cst → Prop) s :
  con_ok s → (∀ s', out_only s s' (echo s c) → Q tt s') → wpg t (consputc c) Q s.
Proof.
  intros [Hp Hc] HQ. apply wpg_bind, wpg_gets. rewrite Hp. apply wpg_bind.
  assert (∀ o, o = echo s c → wpg t (cgaputc c) Q (shown s (crt s) (cur_hi s) (cur_lo s) (uart_out s ++ o))) as Hcga.
  { intros o ->. apply W_cgaputc; [exact Hc|]. intros l hi lo Hok. apply HQ. split; [by split|done]. }
  unfold echo in Hcga. destruct (c =? BACKSPACE).
  - apply wpg_bind, W_uartputc, wpg_bind, W_uartputc, W_uartputc. cbn. destruct (uart s); rewrite <- !app_assoc; by apply Hcga.
  - apply W_uartputc. by apply Hcga.
Qed.

(** Erasing the last character of the line being edited. *)
Lemma W_erase r e c (Q : unit → cst → Prop) s :
  line_in (mkLine r (e ++ [c])) s → con_ok s →
  (∀ s', line_in (mkLine r e) s' → con_ok s' → uart_out s' = uart_out s ++ echo s BACKSPACE → cx s' = cx s → uart s' = uart s →
     uart_in s' = uart_in s → kbd_in s' = kbd_in s → kshift s' = kshift s → Q tt s') →
  wpg t erase Q s.
Proof.
  intros [H1 H2 H3 H4 H5 H6 H7] Hok HQ. cbn [ready editing] in *. apply wpg_bind, (wpg_modify t). cbv beta.
  apply W_consputc; [destruct Hok; by split|]. intros s' (G1 & G2 & G3). rewrite !length_app in *. cbn [length] in *.
  apply HQ; try (rewrite G3; done); [|done].
  rewrite G3. split; cbn [ibuf ir iw ie shown set_input ready editing]; try done; rewrite ?length_app.
  - rewrite H4, u32_pred. f_equal. lia.
  - lia.
  - intros i x Hi. apply H6. rewrite app_assoc. by apply lookup_app_l_Some.
  - by apply Forall_app in H7 as [? _].
Qed.

Lemma W_kill_line r fuel : ∀ e (Q : unit → cst → Prop) s,
  line_in (mkLine r e) s → con_ok s → (length e < fuel)%nat →
  (∀ s', line_in (mkLine r []) s' → con_ok s' → cx s' = cx s → uart s' = uart s → uart_in s' = uart_in s → kbd_in s' = kbd_in s → kshift s' = kshift s → Q tt s') →
  wpg t (kill_line fuel) Q s.
Proof.
  induction fuel as [|fuel IH]; intros e Q s Hl Hok Hf HQ; [lia|]. cbn [kill_line]. pose proof Hl as [H1 H2 H3 H4 H5 H6 H7]. cbn [ready editing] in *.
  rewrite length_app in *. apply wpg_bind, wpg_gets, wpg_bind, wpg_gets. rewrite H3, H4.
  destruct e as [|c e _] using rev_ind.
  - cbn [length]. rewrite Nat.add_0_r, Z.eqb_refl. apply wpg_ret. by apply HQ.
  - rewrite length_app in *. cbn [length] in *. rewrite (proj2 (Z.eqb_neq _ _)).
    2: { intros E. apply u32_add_inj in E; lia. }
    apply wpg_bind. eapply wpg_deref.
    { rewrite u32_pred, u32_mod128. replace (ir s + Z.of_nat (length r + (length e + 1)) - 1) with (ir s + Z.of_nat (length r + length e)) by lia.
      apply (H6 (length r + length e)%nat c). rewrite app_assoc, lookup_app_r by (rewrite length_app; lia). rewrite length_app, Nat.sub_diag. done. }
    assert (c ≠ 10) as Hc by (apply Forall_app in H7 as [_ H7]; by apply Forall_cons in H7 as [? _]). rewrite (proj2 (Z.eqb_neq c 10) Hc).
    apply wpg_bind. eapply (W_erase r e c); [done|done|]. intros s' Hs' Hok' _ E1 E2 E3 E4 E5. apply (IH e); [done|done|lia|].
    intros s2 G1 G2 G3 G4 G5 G6 G7. apply HQ; congruence.
Qed.

(** What a character from a device leaves alone. *)
Definition same_dev (s s' : cst) : Prop :=
  con_ok s' ∧ held (cx s') = held (cx s) ∧ uart s' = uart s ∧ uart_in s' = uart_in s ∧ kbd_in s' = kbd_in s ∧ kshift s' = kshift s.

Lemma W_put_char c l (Q : unit → cst → Prop) s :
  0 ≤ c < 256 → line_in l s → con_ok s →
  (∀ s', line_in (if negb (c =? 0) && (length (ready l ++ editing l) <? 128)%nat then typed (if c =? 13 then 10 else c) l else l) s' →
     same_dev s s' → Q tt s') →
  wpg t (put_char c) Q s.
Proof.
  intros Hcr Hl Hok HQ. pose proof Hl as [H1 H2 H3 H4 H5 H6 H7]. destruct l as [r e]. cbn [ready editing] in *.
  apply wpg_bind, wpg_gets, wpg_bind, wpg_gets. rewrite H4, u32_add_sub by lia.
  assert ((Z.of_nat (length (r ++ e)) <? INPUT_BUF) = (length (r ++ e) <? 128)%nat) as ->.
  { unfold INPUT_BUF. destruct (Nat.ltb_spec (length (r ++ e)) 128); lia. }
  destruct (negb (c =? 0) && (length (r ++ e) <? 128)%nat) eqn:Ec; [|apply wpg_ret, HQ; done].
  apply andb_true_iff in Ec as [_ Hroom%Nat.ltb_lt]. cbv zeta. set (c' := if c =? 13 then 10 else c) in *.
  apply wpg_bind, (wpg_modify t). cbv beta. apply wpg_bind, W_consputc; [destruct Hok; by split|]. intros s1 (G1 & _ & G3).
  apply wpg_bind, wpg_gets, wpg_bind, wpg_gets.
  assert (ir s1 = ir s ∧ ie s1 = u32 (ir s + Z.of_nat (length (r ++ e) + 1)) ∧ ibuf s1 = <[Z.to_nat (ie s mod INPUT_BUF) := u8 c']> (ibuf s) ∧ iw s1 = iw s) as (E1 & E2 & E3 & E4).
  { rewrite G3. cbn. split_and!; try done. rewrite H4, u32_succ. f_equal. lia. }
  assert (same_dev s s1) as Hdev by (rewrite G3; rewrite G3 in G1; by repeat split; try apply G1).
  assert (∀ i x, (r ++ e ++ [u8 c']) !! i = Some x → ibuf s1 !! Z.to_nat ((ir s1 + Z.of_nat i) mod INPUT_BUF) = Some x) as Hat.
  { intros i x Hi. rewrite E3, E1, H4, u32_mod128. rewrite app_assoc in Hi. apply lookup_app_Some in Hi as [Hi|[Hge Hi]].
    - pose proof (lookup_lt_Some _ _ _ Hi). rewrite list_lookup_insert_ne; [by apply H6|]. apply slot_ne; lia.
    - assert (i = length (r ++ e)) as ->.
      { apply lookup_lt_Some in Hi. cbn in Hi. lia. }
      rewrite Nat.sub_diag in Hi. injection Hi as <-. apply list_lookup_insert_eq. rewrite H1.
      pose proof (Z.mod_pos_bound (ir s + Z.of_nat (length (r ++ e))) INPUT_BUF). unfold INPUT_BUF in *. lia. }
  assert (ie s1 =? u32 (ir s1 + INPUT_BUF) = (length (r ++ e ++ [u8 c']) =? 128)%nat) as ->.
  { rewrite E1, E2, app_assoc, (length_app (r ++ e)). cbn [length]. destruct (Nat.eqb_spec (length (r ++ e) + 1) 128) as [->|Hne]; [by apply Z.eqb_eq|].
    apply Z.eqb_neq. intros E. apply u32_add_inj in E; unfold INPUT_BUF in *; lia. }
  unfold typed in HQ. cbn [ready editing] in HQ. change (CTRL 68) with 4. destruct ((c' =? 10) || (c' =? 4) || _) eqn:Ecom; cbn [when].
  - apply wpg_bind, (wpg_modify t). cbv beta. apply wpg_zoom, (wpg_modify t). apply HQ; [|].
    + split; cbn [ibuf ir iw ie set_cx set_input ready editing]; rewrite ?app_nil_r; try done.
      * rewrite E3, length_insert. done.
      * by rewrite E1.
      * rewrite E2, E1, app_assoc, (length_app (r ++ e)). done.
      * rewrite E2, E1, app_assoc, (length_app (r ++ e)). done.
      * rewrite app_assoc, length_app. cbn [length]. lia.
    + destruct Hdev as (K1 & K2 & K3 & K4 & K5 & K6). split; [destruct K1; by split|]. done.
  - apply wpg_ret, HQ; [|done]. split; cbn [ready editing]; try done.
    + by rewrite E3, length_insert.
    + by rewrite E1.
    + by rewrite E4, E1.
    + rewrite E2, E1, app_assoc, (length_app (r ++ e)). done.
    + rewrite app_assoc, length_app. cbn [length]. lia.
    + apply Forall_app. split; [done|]. apply Forall_singleton.
      assert (0 ≤ c' < 256) by (unfold c'; destruct (c =? 13); lia). unfold u8. rewrite Z.mod_small by lia. lia.
Qed.

Lemma W_intr_char c l (Q : bool → cst → Prop) s :
  0 ≤ c < 256 → line_in l s → con_ok s → (∀ s', line_in (edit_char c l) s' → same_dev s s' → Q (c =? 16) s') → wpg t (intr_char c) Q s.
Proof.
  intros Hc Hl Hok HQ. unfold intr_char. change (CTRL 80) with 16. change (CTRL 85) with 21. change (CTRL 72) with 8. unfold edit_char in HQ.
  destruct (Z.eqb_spec c 16) as [->|]; [apply wpg_ret; by apply HQ|]. destruct (Z.eqb_spec c 21) as [->|].
  - apply wpg_bind. destruct l as [r e]. cbn [ready editing] in *. eapply (W_kill_line r); [exact Hl|done| |].
    { pose proof (li_fit _ _ Hl) as Hfit. cbn [ready editing] in Hfit. rewrite length_app in Hfit. unfold INPUT_BUF. lia. }
    intros s' G1 G2 G3 G4 G5 G6 G7. apply wpg_ret, HQ; [done|]. split; [done|]. split_and!; congruence.
  - destruct ((c =? 8) || (c =? 127)).
    + apply wpg_bind, wpg_gets, wpg_bind, wpg_gets, wpg_bind. pose proof Hl as [H1 H2 H3 H4 H5 H6 H7]. destruct l as [r e]. cbn [ready editing] in *. rewrite H3, H4.
      rewrite length_app in *. destruct e as [|x e _] using rev_ind.
      * cbn [length] in *. rewrite Nat.add_0_r, Z.eqb_refl. apply wpg_ret, wpg_ret, HQ; [done|done].
      * rewrite length_app in *. cbn [length] in *. rewrite (proj2 (Z.eqb_neq _ _)) by (intros E; apply u32_add_inj in E; lia). cbn [negb].
        eapply (W_erase r e x); [done|done|]. intros s' G1 G2 _ G3 G4 G5 G6 G7. apply wpg_ret, HQ.
        -- replace (length e + 1 - 1)%nat with (length e) by lia. by rewrite take_app_length.
        -- split; [done|]. split_and!; congruence.
    + apply wpg_bind. eapply W_put_char; [done|exact Hl|done|]. intros s' G1 G2. by apply wpg_ret, HQ.
Qed.

(** The loop of [consoleintr], for a device [getc] that has [k s] characters;
    [next] is what one does to the line. *)
Lemma W_intr_loop (getc : M cst Z) (input : cst → list Z) (I : cst → Prop) fuel :
  (∀ s, I s → wp getc (λ c s', match input s with
                              | [] => c < 0 ∧ s' = s
                              | x :: i => c = x ∧ 0 ≤ c < 256 ∧ input s' = i ∧ I s' ∧ ibuf s' = ibuf s ∧ ir s' = ir s ∧ iw s' = iw s ∧ ie s' = ie s ∧
                                          crt s' = crt s ∧ cur_hi s' = cur_hi s ∧ cur_lo s' = cur_lo s ∧ panicked s' = panicked s ∧ cx s' = cx s
                              end) s) →
  (∀ s s', same_dev s s' → I s → I s' ∧ input s' = input s) →
  ∀ l dump (Q : bool → cst → Prop) s,
  I s → line_in l s → con_ok s → (length (input s) < fuel)%nat →
  (∀ s', line_in (foldl (λ l c, edit_char c l) l (input s)) s' → con_ok s' → held (cx s') = held (cx s) → I s' → input s' = [] →
     Q (dump || existsb (Z.eqb 16) (input s)) s') →
  wpg t (intr_loop fuel getc dump) Q s.
Proof.
  intros Hget Hdev. induction fuel as [|fuel IH]; intros l dump Q s HI Hl Hok Hf HQ; [lia|]. cbn [intr_loop].
  apply wpg_bind. eapply wpg_mono; [by apply wpg_total, Hget|]. intros c s1 H. destruct (input s) as [|x i] eqn:Ei.
  - destruct H as [Hc ->]. rewrite Z.geb_leb, (proj2 (Z.leb_gt 0 c)) by lia. apply wpg_ret. cbn in HQ. rewrite orb_false_r in HQ. by apply HQ.
  - destruct H as (-> & Hc & Hi & HI1 & E1 & E2 & E3 & E4 & E5 & E6 & E7 & E8 & E9). rewrite Z.geb_leb, (proj2 (Z.leb_le 0 x)) by lia.
    assert (line_in l s1) as Hl1 by (destruct Hl; split; rewrite ?E1, ?E2, ?E3, ?E4; done).
    assert (con_ok s1) as Hok1 by (destruct Hok as [Ha (Hb & Hd & He & Hg)]; split; [congruence|]; unfold cga_ok; rewrite E5, E6, E7; done).
    apply wpg_bind. eapply W_intr_char; [done|exact Hl1|done|]. intros s2 Hl2 Hd2. destruct (Hdev _ _ Hd2 HI1) as [HI2 Ei2].
    rewrite Hi in Ei2. destruct Hd2 as (Hok2 & Hh2 & _). apply (IH (edit_char x l)); try done; [rewrite Ei2; cbn in Hf; lia|].
    intros s3 G1 G2 G3 G4 G5. rewrite Ei2 in *. cbn [foldl existsb] in HQ. rewrite (Z.eqb_sym x 16), <- orb_assoc. apply HQ; try done. by rewrite G3, Hh2, E9.
Qed.

Lemma W_consoleintr (getc : M cst Z) (input : cst → list Z) (I : cst → Prop) fuel l (Q : bool → cst → Prop) s :
  (∀ s, I s → wp getc (λ c s', match input s with
                              | [] => c < 0 ∧ s' = s
                              | x :: i => c = x ∧ 0 ≤ c < 256 ∧ input s' = i ∧ I s' ∧ ibuf s' = ibuf s ∧ ir s' = ir s ∧ iw s' = iw s ∧ ie s' = ie s ∧
                                          crt s' = crt s ∧ cur_hi s' = cur_hi s ∧ cur_lo s' = cur_lo s ∧ panicked s' = panicked s ∧ cx s' = cx s
                              end) s) →
  (∀ s s', same_dev s s' → I s → I s' ∧ input s' = input s) →
  (∀ s x, I s → I (set_cx x s) ∧ input (set_cx x s) = input s) →
  I s → line_in l s → con_ok s → held (cx s) = [] → (length (input s) < fuel)%nat →
  (∀ s', line_in (foldl (λ l c, edit_char c l) l (input s)) s' → con_ok s' → held (cx s') = [] → I s' → input s' = [] →
     Q (existsb (Z.eqb 16) (input s)) s') →
  wpg t (consoleintr fuel getc) Q s.
Proof.
  intros Hget Hdev Hcx HI Hl Hok Hh Hf HQ. apply wpg_bind, wpg_zoom. eapply ok_wpg; [by apply acquire_lk_ok|]. apply wpg_bind.
  destruct (Hcx s (set_held [L_cons] (cx s)) HI) as [HI1 Ei1].
  eapply (W_intr_loop getc input I); try done; [by destruct Hl|by destruct Hok|by rewrite Ei1|]. intros s' G1 G2 G3 G4 G5.
  apply wpg_bind, wpg_zoom. eapply ok_wpg; [by apply release_lk_held|]. apply wpg_ret. rewrite Ei1 in *.
  destruct (Hcx s' (set_held [] (cx s')) G4) as [HI2 Ei2]. apply HQ; [by destruct G1|by destruct G2|done|done|by rewrite Ei2].
Qed.

(** ** Reading *)

(** What a read of [n] bytes, the last of [target], takes from the characters
    that can be read, and what it leaves; [None]: it has to wait. *)
Fixpoint line_of (n : nat) (target : Z) (l : bytes) : option (bytes * bytes) :=
  match n with
  | O => Some ([], l)
  | S n' =>
      match l with
      | [] => None
      | c :: r =>
          if c =? 4 then Some ([], if Z.of_nat n <? target then l else r)
          else if c =? 10 then Some ([c], r)
          else match line_of n' target r with Some (o, r) => Some (c :: o, r) | None => None end
      end
  end.

Lemma line_in_tail c r e s : line_in (mkLine (c :: r) e) s → line_in (mkLine r e) (set_input (ibuf s) (u32 (ir s + 1)) (iw s) (ie s) s).
Proof.
  intros [H1 H2 H3 H4 H5 H6 H7]. cbn [ready editing app length] in *. split; cbn [ibuf ir iw ie set_input ready editing]; try done.
  - apply u32_range.
  - rewrite H3. unfold u32. rewrite Zplus_mod_idemp_l. f_equal. lia.
  - rewrite H4. unfold u32. rewrite Zplus_mod_idemp_l. f_equal. lia.
  - lia.
  - intros i x Hi. specialize (H6 (S i) x Hi). rewrite <- u32_mod128 in H6 |- *. unfold u32 at 2. unfold u32 in H6 |- *.
    rewrite Zplus_mod_idemp_l. replace (ir s + 1 + Z.of_nat i) with (ir s + Z.of_nat (S i)) by lia. exact H6.
Qed.

(** The result of the loop of [consoleread], with the lock held. *)
Definition read_post (n : nat) (target : Z) (r e : bytes) (s : cst) (res : presult (option bytes) (bytes * nat)) (s' : cst) : Prop :=
  (con_ok s → con_ok s') ∧
  match line_of n target r with
  | Some (o, r') => res = PRet (Some o) ∧ line_in (mkLine r' e) s' ∧ cx s' = cx s
  | None =>
      line_in (mkLine [] e) s' ∧
      if cur_killed (cx s) =? 0 then res = PWait (r, n - length r)%nat ∧ cx s' = cx s
      else res = PRet None ∧ cx s' = set_held [] (cx s)
  end.

Lemma W_read_loop target e n : ∀ r s,
  line_in (mkLine r e) s → held (cx s) = [L_cons] → wpg t (read_loop n target) (read_post n target r e s) s.
Proof.
  induction n as [|n IH]; intros r s Hl Hh; cbn [read_loop]; [by apply wpg_ret|].
  apply wpg_bind, wpg_gets, wpg_bind, wpg_gets. pose proof Hl as [H1 H2 H3 H4 H5 H6 H7]. cbn [ready editing] in *. rewrite H3. destruct r as [|c r].
  - cbn [length]. rewrite Z.add_0_r, u32_id, Z.eqb_refl by done. apply wpg_bind, wpg_gets. unfold read_post. cbn [line_of length]. rewrite Nat.sub_0_r.
    destruct (cur_killed (cx s) =? 0); cbn [negb].
    + by apply wpg_ret.
    + apply wpg_bind, wpg_zoom. eapply ok_wpg; [by apply release_lk_held|]. apply wpg_ret. split; [intros []; by split|]. split; [by destruct Hl|done].
  - rewrite (proj2 (Z.eqb_neq _ _)).
    2: { intros E. assert (u32 (ir s + 0) = u32 (ir s + Z.of_nat (length (c :: r)))) as E' by (rewrite Z.add_0_r, u32_id; done).
         rewrite length_app in *. apply u32_add_inj in E'; cbn [length] in *; lia. }
    apply wpg_bind. eapply wpg_deref; [rewrite <- (Z.add_0_r (ir s)); by apply (H6 0%nat c)|].
    apply wpg_bind, (wpg_modify t). cbv beta. pose proof (line_in_tail _ _ _ _ Hl) as Hl2. set (s2 := set_input (ibuf s) (u32 (ir s + 1)) (iw s) (ie s) s) in *.
    assert (con_ok s → con_ok s2) as Hok2 by (intros []; by split). unfold read_post. cbn [line_of]. change (CTRL 68) with 4. destruct (c =? 4) eqn:E4.
    + apply wpg_bind. destruct (Z.of_nat (S n) <? target); cbn [when].
      * apply (wpg_modify t). cbv beta. apply wpg_ret. split; [intros []; by split|]. split; [done|]. split; [|done].
        assert (set_input (ibuf s2) (u32 (ir s2 - 1)) (iw s2) (ie s2) s2 = s) as ->; [|done].
        unfold s2. cbn [ibuf ir iw ie set_input]. rewrite u32_pred, Z.add_simpl_r, u32_id by done. by destruct s.
      * apply wpg_ret. apply wpg_ret. split_and!; done.
    + destruct (c =? 10); [apply wpg_ret; split_and!; done|]. apply wpg_bind. eapply wpg_mono; [by apply (IH r s2)|].
      intros res s3 [G1 G2]. apply wpg_ret. split; [tauto|]. destruct (line_of n target r) as [[o r']|].
      * destruct G2 as (-> & G3 & G4). split_and!; done.
      * change (cx s2) with (cx s) in G2. destruct (cur_killed (cx s) =? 0); destruct G2 as (G2 & -> & G3); split_and!; done.
Qed.
End Input.
