(* ===== verification/Kbd.v ===== *)
(** * The keyboard (kbd.h, kbd.c) *)

From S2P Require Export ConsoleProps.
Local Open Scope Z_scope.

Definition SHIFT : Z := 1.
Definition CTL : Z := 2.
Definition ALT : Z := 4.
Definition CAPSLOCK : Z := 8.
Definition NUMLOCK : Z := 16.
Definition SCROLLLOCK : Z := 32.
Definition E0ESC : Z := 64.

(** A table of 256 bytes: its first entries, and others by index. *)
Definition table (l : bytes) (at_ : list (Z * Z)) : bytes :=
  foldr (λ x t, <[Z.to_nat x.1 := x.2]> t) (l ++ replicate (256 - length l) 0) at_.

Definition shiftcode : bytes := table [] [(29, CTL); (42, SHIFT); (54, SHIFT); (56, ALT); (157, CTL); (184, ALT)].
Definition togglecode : bytes := table [] [(58, CAPSLOCK); (69, NUMLOCK); (70, SCROLLLOCK)].
(** [KEY_HOME] and the like, at their extended codes. *)
Definition keys : list (Z * Z) :=
  [(200, 0xE2); (208, 0xE3); (201, 0xE6); (209, 0xE7); (203, 0xE4); (205, 0xE5); (151, 0xE0); (207, 0xE1); (210, 0xE8); (211, 0xE9)].

Definition normalmap : bytes :=
  table [0; 27; 49; 50; 51; 52; 53; 54; 55; 56; 57; 48; 45; 61; 8; 9;
         113; 119; 101; 114; 116; 121; 117; 105; 111; 112; 91; 93; 10; 0; 97; 115;
         100; 102; 103; 104; 106; 107; 108; 59; 39; 96; 0; 92; 122; 120; 99; 118;
         98; 110; 109; 44; 46; 47; 0; 42; 0; 32; 0; 0; 0; 0; 0; 0;
         0; 0; 0; 0; 0; 0; 0; 55; 56; 57; 45; 52; 53; 54; 43; 49; 50; 51; 48; 46; 0; 0; 0; 0]
        ([(156, 10); (181, 47)] ++ keys).
Definition shiftmap : bytes :=
  table [0; 27; 33; 64; 35; 36; 37; 94; 38; 42; 40; 41; 95; 43; 8; 9;
         81; 87; 69; 82; 84; 89; 85; 73; 79; 80; 123; 125; 10; 0; 65; 83;
         68; 70; 71; 72; 74; 75; 76; 58; 34; 126; 0; 124; 90; 88; 67; 86;
         66; 78; 77; 60; 62; 63; 0; 42; 0; 32; 0; 0; 0; 0; 0; 0;
         0; 0; 0; 0; 0; 0; 0; 55; 56; 57; 45; 52; 53; 54; 43; 49; 50; 51; 48; 46; 0; 0; 0; 0]
        ([(156, 10); (181, 47)] ++ keys).
(** [C('/')] is negative and stored in an [uchar]. *)
Definition ctlmap : bytes :=
  table [0; 0; 0; 0; 0; 0; 0; 0; 0; 0; 0; 0; 0; 0; 0; 0;
         CTRL 81; CTRL 87; CTRL 69; CTRL 82; CTRL 84; CTRL 89; CTRL 85; CTRL 73; CTRL 79; CTRL 80; 0; 0; 13; 0; CTRL 65; CTRL 83;
         CTRL 68; CTRL 70; CTRL 71; CTRL 72; CTRL 74; CTRL 75; CTRL 76; 0; 0; 0; 0; CTRL 92; CTRL 90; CTRL 88; CTRL 67; CTRL 86;
         CTRL 66; CTRL 78; CTRL 77; 0; 0; u8 (CTRL 47); 0; 0]
        ([(156, 13); (181, u8 (CTRL 47))] ++ keys).
Definition charcode : list bytes := [normalmap; shiftmap; ctlmap; ctlmap].

(** [kbdgetc] on the byte [data]: the new [shift] and the result. *)
Definition kbd_byte (shift data : Z) : option (Z * Z) :=
  if data =? 0xE0 then Some (Z.lor shift E0ESC, 0)
  else if negb (Z.land data 0x80 =? 0) then
    let data := if negb (Z.land shift E0ESC =? 0) then data else Z.land data 0x7F in
    sc ← shiftcode !! Z.to_nat data;
    Some (Z.ldiff shift (Z.lor sc E0ESC), 0)
  else
    let '(data, shift) := if negb (Z.land shift E0ESC =? 0) then (Z.lor data 0x80, Z.ldiff shift E0ESC) else (data, shift) in
    sc ← shiftcode !! Z.to_nat data;
    tc ← togglecode !! Z.to_nat data;
    let shift := Z.lxor (Z.lor shift sc) tc in
    m ← charcode !! Z.to_nat (Z.land shift (Z.lor CTL SHIFT));
    c ← m !! Z.to_nat data;
    let c := if negb (Z.land shift CAPSLOCK =? 0) then
               if (97 <=? c) && (c <=? 122) then c + (65 - 97)
               else if (65 <=? c) && (c <=? 90) then c + (97 - 65) else c
             else c in
    Some (shift, c).

(** The controller has a byte ([KBS_DIB]) when there is one in [kbd_in]. *)
Definition kbdgetc : M cst Z :=
  k ← gets kbd_in;
  match k with
  | [] => mret (-1)
  | data :: k =>
      modify (λ s, set_kbd k (kshift s) s) ;;
      '(shift, c) ← deref (λ s, kbd_byte (kshift s) data);
      modify (λ s, set_kbd (kbd_in s) shift s) ;;
      mret c
  end.

Definition kbdintr : M cst bool :=
  n ← gets (λ s, length (kbd_in s)); consoleintr (S n) kbdgetc.

(** ** The keyboard never runs out of its tables *)

(** Every byte in every state: checked case by case. *)
Definition kbd_fine (shift data : Z) : bool :=
  match kbd_byte shift data with
  | Some (shift', c) => (0 <=? shift') && (shift' <? 128) && (0 <=? c) && (c <? 256)
  | None => false
  end.
Lemma kbd_byte_fine shift data :
  0 ≤ shift < 128 → 0 ≤ data < 256 → ∃ shift' c, kbd_byte shift data = Some (shift', c) ∧ 0 ≤ shift' < 128 ∧ 0 ≤ c < 256.
Proof.
  intros Hs Hd. assert (Forall (λ s, Forall (λ d, kbd_fine s d = true) (seqZ 0 256)) (seqZ 0 128)) as H.
  { apply (bool_decide_unpack _). vm_compute. exact I. }
  rewrite Forall_forall in H. specialize (H shift ltac:(apply elem_of_seqZ; lia)). rewrite Forall_forall in H.
  specialize (H data ltac:(apply elem_of_seqZ; lia)). unfold kbd_fine in H. destruct (kbd_byte shift data) as [[s' c]|]; [|done].
  rewrite !andb_true_iff, !Z.leb_le, !Z.ltb_lt in H. exists s', c. split; [done|lia].
Qed.

(** The characters of a sequence of key codes, and the last [shift]. *)
Fixpoint decode (shift : Z) (l : bytes) : list Z :=
  match l with
  | [] => []
  | d :: l => match kbd_byte shift d with Some (shift, c) => c :: decode shift l | None => [] end
  end.
Lemma decode_length l : ∀ shift, (length (decode shift l) ≤ length l)%nat.
Proof. induction l as [|d l IH]; intros shift; cbn; [lia|]. destruct (kbd_byte shift d) as [[s' c]|]; cbn; [specialize (IH s'); lia|lia]. Qed.

Definition kbd_ok (s : cst) : Prop := is_bytes (kbd_in s) ∧ 0 ≤ kshift s < 128.

Lemma kbd_getc s : kbd_ok s →
  wp kbdgetc (λ c s', match decode (kshift s) (kbd_in s) with
                      | [] => c < 0 ∧ s' = s
                      | x :: i => c = x ∧ 0 ≤ c < 256 ∧ decode (kshift s') (kbd_in s') = i ∧ kbd_ok s' ∧ ibuf s' = ibuf s ∧ ir s' = ir s ∧ iw s' = iw s ∧
                                  ie s' = ie s ∧ crt s' = crt s ∧ cur_hi s' = cur_hi s ∧ cur_lo s' = cur_lo s ∧ panicked s' = panicked s ∧ cx s' = cx s
                      end) s.
Proof.
  intros [Hb Hs]. apply wpg_bind, wpg_gets. destruct (kbd_in s) as [|d k] eqn:Ek; cbn [decode]; [apply wpg_ret; done|].
  apply Forall_cons in Hb as [Hd Hb]. destruct (kbd_byte_fine (kshift s) d Hs Hd) as (sh & c & E & Hsh & Hc). rewrite E.
  apply wpg_bind, (wpg_modify true). cbv beta. apply wpg_bind. eapply wpg_deref; [exact E|]. apply wpg_bind, (wpg_modify true). cbv beta.
  apply wpg_ret. split_and!; first [done | lia | by split].
Qed.

(** The serial port's characters. *)
Definition uart_chars (s : cst) : list Z := if uart s then uart_in s else [].
Definition uart_ok (s : cst) : Prop := is_bytes (uart_in s).
Lemma uart_getc s : uart_ok s →
  wp uartgetc (λ c s', match uart_chars s with
                       | [] => c < 0 ∧ s' = s
                       | x :: i => c = x ∧ 0 ≤ c < 256 ∧ uart_chars s' = i ∧ uart_ok s' ∧ ibuf s' = ibuf s ∧ ir s' = ir s ∧ iw s' = iw s ∧
                                  ie s' = ie s ∧ crt s' = crt s ∧ cur_hi s' = cur_hi s ∧ cur_lo s' = cur_lo s ∧ panicked s' = panicked s ∧ cx s' = cx s
                       end) s.
Proof.
  intros Hb. apply wpg_bind, wpg_gets. unfold uart_chars. destruct (uart s) eqn:Eu; cbn [negb]; [|apply wpg_ret; done].
  apply wpg_bind, wpg_gets. unfold uart_ok in Hb. destruct (uart_in s) as [|c k] eqn:Ek; [apply wpg_ret; done|].
  apply Forall_cons in Hb as [Hc Hb]. apply wpg_bind, (wpg_modify true). cbv beta. apply wpg_ret. cbn. rewrite Eu. split_and!; first [done | lia].
Qed.

(** The two interrupts. *)
Lemma uartintr_line l s : line_in l s → con_ok s → held (cx s) = [] → uart_ok s →
  ∃ d s', uartintr s = Ok (d, s') ∧ line_in (foldl (λ l c, edit_char c l) l (uart_chars s)) s' ∧ con_ok s' ∧ held (cx s') = [].
Proof.
  intros Hl Hok Hh Hu.
  destruct (wp_ok uartintr (λ _ s', line_in (foldl (λ l c, edit_char c l) l (uart_chars s)) s' ∧ con_ok s' ∧ held (cx s') = []) s) as (d & s' & E & H).
  { apply wpg_bind, wpg_gets. apply (W_consoleintr true uartgetc uart_chars uart_ok _ l); try done.
    - exact uart_getc.
    - intros s1 s2 (_ & _ & E1 & E2 & _) H1. unfold uart_ok, uart_chars. by rewrite E1, E2.
    - unfold uart_chars. destruct (uart s); cbn; lia. }
  by exists d, s'.
Qed.
Lemma kbdintr_line l s : line_in l s → con_ok s → held (cx s) = [] → kbd_ok s →
  ∃ d s', kbdintr s = Ok (d, s') ∧ line_in (foldl (λ l c, edit_char c l) l (decode (kshift s) (kbd_in s))) s' ∧ con_ok s' ∧ held (cx s') = [] ∧ kbd_ok s'.
Proof.
  intros Hl Hok Hh Hu.
  destruct (wp_ok kbdintr (λ _ s', line_in (foldl (λ l c, edit_char c l) l (decode (kshift s) (kbd_in s))) s' ∧ con_ok s' ∧ held (cx s') = [] ∧ kbd_ok s') s)
    as (d & s' & E & H).
  { apply wpg_bind, wpg_gets. apply (W_consoleintr true kbdgetc (λ s, decode (kshift s) (kbd_in s)) kbd_ok _ l); try done.
    - exact kbd_getc.
    - intros s1 s2 (_ & _ & _ & _ & E1 & E2) H1. unfold kbd_ok. by rewrite E1, E2.
    - pose proof (decode_length (kbd_in s) (kshift s)). cbn. lia. }
  by exists d, s'.
Qed.

(** C37. The console is a line discipline over a ring buffer whose 32-bit
    counters wrap around. An interrupt of the serial port or of the keyboard
    takes everything the device has, edits the line with each character
    (control-U and backspace erase, a newline, control-D or a full buffer hand
    the line over) and never leaves the buffer, the screen or the tables of the
    keyboard, whatever the codes are.  A read takes characters up to the end of
    a line, keeps a control-D that follows other characters for the next read,
    and waits exactly when no line is ready. *)
Theorem console_line_discipline (l : line) (s : cst) :
  line_in l s → con_ok s →
  let edit := foldl (λ l c, edit_char c l) l in
  (held (cx s) = [] → uart_ok s →
   ∃ d s', uartintr s = Ok (d, s') ∧ line_in (edit (uart_chars s)) s' ∧ con_ok s' ∧ held (cx s') = []) ∧
  (held (cx s) = [] → kbd_ok s →
   ∃ d s', kbdintr s = Ok (d, s') ∧ line_in (edit (decode (kshift s) (kbd_in s))) s' ∧ con_ok s' ∧ held (cx s') = [] ∧ kbd_ok s') ∧
  (held (cx s) = [L_cons] → ∀ n target, ∃ res s', read_loop n target s = Ok (res, s') ∧ con_ok s' ∧
   match line_of n target (ready l) with
   | Some (o, r) => res = PRet (Some o) ∧ line_in (mkLine r (editing l)) s' ∧ cx s' = cx s
   | None => line_in (mkLine [] (editing l)) s' ∧
       if cur_killed (cx s) =? 0 then res = PWait (ready l, n - length (ready l))%nat ∧ cx s' = cx s
       else res = PRet None ∧ cx s' = set_held [] (cx s)
   end).
Proof.
  intros Hl Hok edit. split_and!.
  - by apply uartintr_line.
  - by apply kbdintr_line.
  - intros Hh n target. destruct l as [r e]. destruct (wp_ok _ _ _ (W_read_loop true target e n r s Hl Hh)) as (res & s' & E & H1 & H2).
    exists res, s'. split; [done|]. split; [by apply H1|]. exact H2.
Qed.

(** A console just set up, the keys [h], [i], backspace and enter pressed and
    released. *)
Definition demo_con : cst :=
  mkCs (replicate 128 0) 0 0 0 (replicate 2000 0) 0 0 false true true [] [] [35; 163; 23; 151; 14; 142; 28; 156] 0 (mkCtx [] ∅ 1 0 []).
Lemma demo_con_line : line_in (mkLine [] []) demo_con.
Proof.
  split; try done. cbn. lia.
Qed.
Lemma demo_con_ok : con_ok demo_con.
Proof. split; [done|]. split_and!; cbn; try done; lia. Qed.

Lemma console_line_discipline_witness :
  ∃ d s', kbdintr demo_con = Ok (d, s') ∧ line_in (mkLine [104; 10] []) s' ∧ held (cx s') = [].
Proof.
  destruct (console_line_discipline (mkLine [] []) demo_con demo_con_line demo_con_ok) as (_ & H & _).
  destruct H as (d & s' & E & Hl & _ & Hh & _); [done|split; [apply (bool_decide_unpack _); vm_compute; exact I|cbn; lia]|].
  exists d, s'. split; [exact E|]. split; [exact Hl|exact Hh].
Defined.
