(* ===== verification/Exec.v ===== *)
(** * Loading programs (exec.c, loaduvm of vm.c)

    [exec] of Project1, and [exec] and [exec2] of Project2, which also ends the
    other threads of the process and holds off interrupts meanwhile, over the
    file system and the page tables. *)

From S2P Require Export Sysfile Vm.
Local Open Scope Z_scope.

(** Of the process: [pgdir], [sz], [tf->eip], [tf->esp], [name], [kstack] and,
    in Project2, [stacksize]. *)
Record eproc := mkEp {
  e_pgdir : Z;
  e_sz : Z;
  e_eip : Z;
  e_esp : Z;
  e_name : bytes;
  e_kstack : Z;
  e_stacksize : Z
}.

(** The file system, physical memory, the process, and the interrupt flag. *)
Record exst (S : Type) := mkEx { xfs : fst S; xkm : kmst; xproc : eproc; xif : bool }.
Arguments mkEx {S}.
Arguments xfs {S}.
Arguments xkm {S}.
Arguments xproc {S}.
Arguments xif {S}.

Definition ELF_MAGIC : Z := 0x464C457F.
Definition ELF_PROG_LOAD : Z := 1.
(** [sizeof(struct elfhdr)] and [sizeof(struct proghdr)]. *)
Definition ELFHDR : Z := 52.
Definition PROGHDR : Z := 32.

Section Exec.
Context {S : Type} `{BS : BlockStore S} {DV : DevSw S} {LD : KernelLd}.

Definition set_xproc (p : eproc) (s : exst S) : exst S := mkEx (xfs s) (xkm s) p (xif s).
Definition xf {A} (m : M (fst S) A) : M (exst S) A := zoom xfs (λ f s, mkEx f (xkm s) (xproc s) (xif s)) m.
Definition xk {A} (m : M kmst A) : M (exst S) A := zoom xkm (λ k s, mkEx (xfs s) k (xproc s) (xif s)) m.
Definition xbegin_op : M (exst S) unit := xf (onblk st_begin_op).
Definition xend_op : M (exst S) unit := xf (onblk st_end_op).

(** The loop of [loaduvm]. *)
Fixpoint loaduvm_loop (fuel : nat) (pgdir addr : Z) (ip : nat) (offset sz i : Z) : M (exst S) Z :=
  match fuel with
  | O => diverge
  | Datatypes.S fuel =>
      if i <? sz then
        pte ← xk (walkpgdir pgdir (u32 (addr + i)) false);
        match pte with
        | None => panic "loaduvm: address should exist"
        | Some pte =>
            v ← xk (load32 pte);
            let pa := PTE_ADDR v in
            let n := if u32 (sz - i) <? PGSIZE then u32 (sz - i) else PGSIZE in
            '(r, l) ← xf (readi ip (u32 (offset + i)) n);
            b ← xk (page (P2V pa));
            xk (page_put (P2V pa) (splice b 0 l)) ;;
            if negb (u32 r =? n) then mret (-1)
            else loaduvm_loop fuel pgdir addr ip offset sz (u32 (i + PGSIZE))
        end
      else mret 0
  end.
Definition loaduvm (pgdir addr : Z) (ip : nat) (offset sz : Z) : M (exst S) Z :=
  if negb (addr mod PGSIZE =? 0) then panic "loaduvm: addr must be page aligned"
  else loaduvm_loop (Z.to_nat (sz / PGSIZE) + 2) pgdir addr ip offset sz 0.

(** The program headers from [off] on, [n] of them: the size of the image, or
    [None] for [goto bad]. *)
Fixpoint load_segments (n : nat) (pgdir : Z) (ip : nat) (off sz : Z) : M (exst S) (option Z) :=
  match n with
  | O => mret (Some sz)
  | Datatypes.S n =>
      '(r, ph) ← xf (readi ip (u32 off) PROGHDR);
      if negb (r =? PROGHDR) then mret None
      else if negb (get32 ph 0 =? ELF_PROG_LOAD) then load_segments n pgdir ip (i32 (off + PROGHDR)) sz
      else
        let vaddr := get32 ph 8 in
        let filesz := get32 ph 16 in
        let memsz := get32 ph 20 in
        if memsz <? filesz then mret None
        else if u32 (vaddr + memsz) <? vaddr then mret None
        else
          sz ← xk (allocuvm pgdir sz (u32 (vaddr + memsz)));
          if sz =? 0 then mret None
          else if negb (vaddr mod PGSIZE =? 0) then mret None
          else
            r ← loaduvm pgdir vaddr ip (get32 ph 4) filesz;
            if r <? 0 then mret None else load_segments n pgdir ip (i32 (off + PROGHDR)) sz
  end.

(** The argument strings, pushed one after the other from [sp] down: where they
    are, and [sp]. *)
Fixpoint push_args (pgdir : Z) (argv : list bytes) (argc sp : Z) : M (exst S) (option (list Z * Z)) :=
  match argv with
  | [] => mret (Some ([], sp))
  | a :: argv =>
      if argc >=? Z.of_nat MAXARG then mret None
      else
        let sp := Z.land (u32 (sp - (Z.of_nat (length a) + 1))) (Z.lnot 3) in
        r ← xk (copyout pgdir sp (a ++ [0]));
        if r <? 0 then mret None
        else
          l ← push_args pgdir argv (argc + 1) sp;
          mret (option_map (λ x, (sp :: x.1, x.2)) l)
  end.

(** [bad:]; [sti] is what Project2 does before it returns. *)
Definition exec_bad (sti : M (exst S) unit) (pgdir : Z) (ip : option nat) : M (exst S) Z :=
  when (negb (pgdir =? 0)) (xk (freevm pgdir)) ;;
  match ip with
  | Some ip => xf (iunlockput ip) ;; xend_op
  | None => mret tt
  end ;;
  sti ;;
  mret (-1).

(** The name of the program: what follows the last slash. *)
Fixpoint last_elem (s last : bytes) : bytes :=
  match s with
  | [] => last
  | c :: s => last_elem s (if c =? 47 then s else last)
  end.

(** [switchuvm(curproc)]: the checks and the page table. *)
Definition xswitchuvm : M (exst S) unit :=
  p ← gets xproc;
  if e_kstack p =? 0 then panic "switchuvm: no kstack"
  else if e_pgdir p =? 0 then panic "switchuvm: no pgdir"
  else xk (modify (set_cr3 (V2P (e_pgdir p)))).

(** The stack and the new image: from the allocation of the stack on. [pagecnt]
    pages, the first of which is not accessible. *)
Definition exec_stack (sti : M (exst S) unit) (pagecnt stacksize : Z) (path : bytes) (argv : list bytes) (pgdir sz entry : Z) : M (exst S) Z :=
  let bad := exec_bad sti pgdir None in
  let sz := PGROUNDUP sz in
  sz ← xk (allocuvm pgdir sz (u32 (sz + pagecnt * PGSIZE)));
  if sz =? 0 then bad
  else
    xk (clearpteu pgdir (u32 (sz - pagecnt * PGSIZE))) ;;
    a ← push_args pgdir argv 0 sz;
    match a with
    | None => bad
    | Some (ptrs, sp) =>
        let argc := Z.of_nat (length argv) in
        let ustack := [0xffffffff; argc; u32 (sp - (argc + 1) * 4)] ++ ptrs ++ [0] in
        let sp := u32 (sp - (3 + argc + 1) * 4) in
        r ← xk (copyout pgdir sp (concat (le_split 4 <$> ustack)));
        if r <? 0 then bad
        else
          name ← deref (λ _, safestrcpy (last_elem path path ++ [0]) 16);
          p ← gets xproc;
          let oldpgdir := e_pgdir p in
          modify (set_xproc (mkEp pgdir sz entry sp (splice (e_name p) 0 name) (e_kstack p) stacksize)) ;;
          xswitchuvm ;;
          xk (freevm oldpgdir) ;;
          sti ;;
          mret 0
    end.

(** The body of [exec], from [begin_op] on. *)
Definition exec_from (sti : M (exst S) unit) (pagecnt stacksize : Z) (path : bytes) (argv : list bytes) : M (exst S) Z :=
  xbegin_op ;;
  ip ← xf (namei path);
  match ip with
  | None => xend_op ;; mret (-1)
  | Some ip =>
      xf (ilock (Some ip)) ;;
      '(r, elf) ← xf (readi ip 0 ELFHDR);
      if negb (r =? ELFHDR) then exec_bad sti 0 (Some ip)
      else if negb (get32 elf 0 =? ELF_MAGIC) then exec_bad sti 0 (Some ip)
      else
        pgdir ← xk setupkvm;
        if pgdir =? 0 then exec_bad sti 0 (Some ip)
        else
          sz ← load_segments (Z.to_nat (get16 elf 44)) pgdir ip (i32 (get32 elf 28)) 0;
          match sz with
          | None => exec_bad sti pgdir (Some ip)
          | Some sz =>
              xf (iunlockput ip) ;;
              xend_op ;;
              exec_stack sti pagecnt stacksize path argv pgdir sz (get32 elf 24)
          end
  end.

(** Project1: a guard page and one page of stack. [e_stacksize] is not used. *)
Definition exec (path : bytes) (argv : list bytes) : M (exst S) Z :=
  p ← gets xproc;
  exec_from (mret tt) 2 (e_stacksize p) path argv.

(** Project2. [kill_threads] is that of [Threads]. *)
Definition cli : M (exst S) unit := modify (λ s, mkEx (xfs s) (xkm s) (xproc s) false).
Definition sti : M (exst S) unit := modify (λ s, mkEx (xfs s) (xkm s) (xproc s) true).

Section Threads.
Context (kill_threads : M (exst S) Z).
Definition lwp_exec (path : bytes) (argv : list bytes) : M (exst S) Z :=
  cli ;;
  r ← kill_threads;
  if negb (r =? 0) then mret (-1) else exec_from sti 2 1 path argv.
Definition exec2 (path : bytes) (argv : list bytes) (stacksize : Z) : M (exst S) Z :=
  cli ;;
  r ← kill_threads;
  if negb (r =? 0) then mret (-1) else exec_from sti (1 + stacksize) stacksize path argv.
End Threads.
End Exec.
