(* ===== verification/ExecProps.v ===== *)
(** * exec replaces the image or leaves the process alone *)

From S2P Require Export Exec.
From S2P Require Import FsDemo.
Local Open Scope Z_scope.

(** ** The stack of the new program *)

(** Where the strings of the arguments go, from the top [sp] of the stack down:
    each below the one before, with its NUL, at a multiple of 4. *)
Definition push_sp (sp : Z) (a : bytes) : Z := Z.land (u32 (sp - (Z.of_nat (length a) + 1))) (Z.lnot 3).
Fixpoint arg_ptrs (argv : list bytes) (sp : Z) : list Z :=
  match argv with [] => [] | a :: argv => push_sp sp a :: arg_ptrs argv (push_sp sp a) end.
Definition args_end (argv : list bytes) (sp : Z) : Z := foldl push_sp sp argv.

(** Below them: the return address, [argc], [argv] and the pointers, the last
    one null; the stack pointer is their address. *)
Definition frame_sp (argv : list bytes) (top : Z) : Z := u32 (args_end argv top - (3 + Z.of_nat (length argv) + 1) * 4).
Definition frame (argv : list bytes) (top : Z) : list Z :=
  let argc := Z.of_nat (length argv) in
  [0xffffffff; argc; u32 (args_end argv top - (argc + 1) * 4)] ++ arg_ptrs argv top ++ [0].

Lemma push_sp_aligned sp a : push_sp sp a mod 4 = 0.
Proof.
  unfold push_sp. change 4 with (2 ^ 2) at 1. rewrite <- Z.land_ones by lia. rewrite <- Z.land_assoc.
  change (Z.land (Z.lnot 3) (Z.ones 2)) with 0. by rewrite Z.land_0_r.
Qed.
Lemma args_end_aligned argv : ∀ sp, sp mod 4 = 0 → args_end argv sp mod 4 = 0.
Proof. induction argv as [|a argv IH]; intros sp Hsp; [done|]. apply IH, push_sp_aligned. Qed.
Lemma u32_mod_4 z : u32 z mod 4 = z mod 4.
Proof. unfold u32. change (2 ^ 32) with (4 * 2 ^ 30). rewrite Z.mul_comm, Z.mod_mod_divide; [done|]. exists (2 ^ 30). lia. Qed.
Lemma frame_sp_aligned argv top : top mod 4 = 0 → frame_sp argv top mod 4 = 0.
Proof. intros H. unfold frame_sp. rewrite u32_mod_4, Zminus_mod, args_end_aligned, Z.mod_mul by done. done. Qed.

(** The size that [allocuvm] returns is one of its arguments, or 0. *)
Lemma W_allocuvm_result `{LD : KernelLd} pgdir o n s : wlp (allocuvm pgdir o n) (λ r _, r = 0 ∨ r = o ∨ r = n) s.
Proof.
  unfold allocuvm. destruct (n >=? KERNBASE); [apply wpg_ret; by left|]. destruct (n <? o); [apply wpg_ret; by right; left|].
  assert (∀ fuel a s, wlp (allocuvm_loop fuel pgdir o n a) (λ r _, r = 0 ∨ r = o ∨ r = n) s) as H; [|apply H].
  clear s. induction fuel as [|fuel IH]; intros a s; cbn [allocuvm_loop]; [done|]. destruct (a <? n); [|apply wpg_ret; by right; right].
  apply wpg_bind, wlp_true. intros mem s1. destruct (mem =? 0).
  - apply wpg_bind, wlp_true. intros _ s2. apply wpg_ret. by left.
  - apply wpg_bind, wlp_true. intros _ s2. apply wpg_bind, wlp_true. intros r s3. destruct (r <? 0); [|apply IH].
    apply wpg_bind, wlp_true. intros _ s4. apply wpg_bind, wlp_true. intros _ s5. apply wpg_ret. by left.
Qed.
Lemma roundup_aligned sz : PGROUNDUP sz mod 4 = 0.
Proof.
  unfold PGROUNDUP. change 4 with (2 ^ 2) at 1. rewrite <- Z.land_ones by lia. rewrite <- Z.land_assoc.
  change (Z.land (Z.lnot (PGSIZE - 1)) (Z.ones 2)) with 0. by rewrite Z.land_0_r.
Qed.
Lemma allocuvm_aligned `{LD : KernelLd} pgdir sz n s r s' :
  allocuvm pgdir (PGROUNDUP sz) (u32 (PGROUNDUP sz + n * PGSIZE)) s = Ok (r, s') → r mod 4 = 0.
Proof.
  intros E. destruct (wpg_ok_inv _ _ _ _ _ _ (W_allocuvm_result _ _ _ s) E) as [->|[->| ->]]; [done|apply roundup_aligned|].
  rewrite u32_mod_4, Z.add_mod, roundup_aligned by done. change (n * PGSIZE) with (n * (1024 * 4)). rewrite Z.mul_assoc, Z.mod_mul by done. done.
Qed.

Section Exec.
Context {S : Type} `{BS : BlockStore S} {DV : DevSw S} {LD : KernelLd}.
Implicit Types (s : exst S).

(** The argument strings are written to the user memory of [pgdir], one after
    the other: physical memory goes from [k] to [k']. *)
Fixpoint args_put (pgdir : Z) (argv : list bytes) (ptrs : list Z) (k k' : kmst) : Prop :=
  match argv, ptrs with
  | [], [] => k' = k
  | a :: argv, p :: ptrs => ∃ r k1, copyout pgdir p (a ++ [0]) k = Ok (r, k1) ∧ 0 ≤ r ∧ args_put pgdir argv ptrs k1 k'
  | _, _ => False
  end.

(** The file that [path] names, opened from the state [f] of the files: its
    inode, the header read from it, and the state after that. *)
Definition opened (path : bytes) (f : fst S) (ip : nat) (elf : bytes) (f4 : fst S) : Prop :=
  ∃ f1 f2 f3, onblk st_begin_op f = Ok (tt, f1) ∧ namei path f1 = Ok (Some ip, f2) ∧ ilock (Some ip) f2 = Ok (tt, f3) ∧
    readi ip 0 ELFHDR f3 = Ok ((ELFHDR, elf), f4) ∧ get32 elf 0 = ELF_MAGIC.
Definition closed (ip : nat) (f f' : fst S) : Prop := ∃ f1, iunlockput ip f = Ok (tt, f1) ∧ onblk st_end_op f1 = Ok (tt, f').

(** What [exec] has done when it succeeds. *)
Definition replaced (pagecnt stacksize : Z) (path : bytes) (argv : list bytes) (s s' : exst S) : Prop :=
  let p := xproc s in let p' := xproc s' in let pgdir := e_pgdir p' in let top := e_sz p' in
  ∃ ip elf f4 k1 sz s6 k7 k8 k9 r k10 name,
    (* the file, and an address space made from scratch with its segments *)
    opened path (xfs s) ip elf f4 ∧ pgdir ≠ 0 ∧ setupkvm (xkm s) = Ok (pgdir, k1) ∧
    load_segments (Z.to_nat (get16 elf 44)) pgdir ip (i32 (get32 elf 28)) 0 (mkEx f4 k1 p (xif s)) = Ok (Some sz, s6) ∧
    closed ip (xfs s6) (xfs s') ∧
    (* the stack behind them, its first page out of reach *)
    allocuvm pgdir (PGROUNDUP sz) (u32 (PGROUNDUP sz + pagecnt * PGSIZE)) (xkm s6) = Ok (top, k7) ∧ top ≠ 0 ∧
    clearpteu pgdir (u32 (top - pagecnt * PGSIZE)) k7 = Ok (tt, k8) ∧
    (length argv ≤ MAXARG)%nat ∧ args_put pgdir argv (arg_ptrs argv top) k8 k9 ∧
    copyout pgdir (frame_sp argv top) (concat (le_split 4 <$> frame argv top)) k9 = Ok (r, k10) ∧ 0 ≤ r ∧
    (* the old address space is given back once the new one is loaded *)
    freevm (e_pgdir p) (set_cr3 (V2P pgdir) k10) = Ok (tt, xkm s') ∧
    (* the registers and the name *)
    e_eip p' = get32 elf 24 ∧ e_esp p' = frame_sp argv top ∧ e_esp p' mod 4 = 0 ∧
    safestrcpy (last_elem path path ++ [0]) 16 = Some name ∧ e_name p' = splice (e_name p) 0 name ∧
    e_kstack p' = e_kstack p ∧ e_stacksize p' = stacksize.

(** What is left when it fails: the process is as it was, and an address space
    that was made has been freed. *)
Definition refused (s s' : exst S) : Prop :=
  xproc s' = xproc s ∧
  (xkm s' = xkm s ∨ setupkvm (xkm s) = Ok (0, xkm s') ∨
   ∃ pgdir k1 k, setupkvm (xkm s) = Ok (pgdir, k1) ∧ pgdir ≠ 0 ∧ freevm pgdir k = Ok (tt, xkm s')).

(** ** Runs of the parts *)

Lemma xf_inv {A} (m : M (fst S) A) s a s' :
  xf m s = Ok (a, s') → ∃ f, m (xfs s) = Ok (a, f) ∧ s' = mkEx f (xkm s) (xproc s) (xif s).
Proof. unfold xf, zoom. destruct (m (xfs s)) as [[a' f]|?| |]; [|done..]. intros [= <- <-]. eauto. Qed.
Lemma xk_inv {A} (m : M kmst A) s a s' :
  xk m s = Ok (a, s') → ∃ k, m (xkm s) = Ok (a, k) ∧ s' = mkEx (xfs s) k (xproc s) (xif s).
Proof. unfold xk, zoom. destruct (m (xkm s)) as [[a' k]|?| |]; [|done..]. intros [= <- <-]. eauto. Qed.

(** The process and the interrupt flag are as they were. *)
Definition same_proc (p : eproc) (b : bool) s : Prop := xproc s = p ∧ xif s = b.
Section Same.
Context (p : eproc) (b : bool).
Notation I := (same_proc p b).
Lemma keeps_xf {A} (m : M (fst S) A) : keeps I (xf m).
Proof. intros s H. apply wpg_zoom, wlp_true. intros a f. exact H. Qed.
Lemma keeps_xk {A} (m : M kmst A) : keeps I (xk m).
Proof. intros s H. apply wpg_zoom, wlp_true. intros a f. exact H. Qed.
Hint Resolve keeps_xf keeps_xk : keep.
Lemma keeps_loaduvm_loop fuel : ∀ pgdir addr ip offset sz i, keeps I (loaduvm_loop fuel pgdir addr ip offset sz i).
Proof. induction fuel as [|fuel IH]; intros; cbn [loaduvm_loop]; keep. Qed.
Hint Resolve keeps_loaduvm_loop : keep.
Lemma keeps_loaduvm pgdir addr ip offset sz : keeps I (loaduvm pgdir addr ip offset sz).
Proof. unfold loaduvm. keep. Qed.
Hint Resolve keeps_loaduvm : keep.
Lemma keeps_load_segments n : ∀ pgdir ip off sz, keeps I (load_segments n pgdir ip off sz).
Proof. induction n as [|n IH]; intros; cbn [load_segments]; keep. Qed.
End Same.

Lemma load_segments_proc n pgdir ip off sz s r s' :
  load_segments n pgdir ip off sz s = Ok (r, s') → xproc s' = xproc s ∧ xif s' = xif s.
Proof. intros E. exact (wpg_ok_inv _ _ _ _ _ _ (keeps_load_segments (xproc s) (xif s) n pgdir ip off sz s (conj eq_refl eq_refl)) E). Qed.

Lemma push_args_inv pgdir argv : ∀ argc sp s r s', push_args pgdir argv argc sp s = Ok (r, s') →
  ∃ k, s' = mkEx (xfs s) k (xproc s) (xif s) ∧
    match r with
    | Some (ptrs, sp') => ptrs = arg_ptrs argv sp ∧ sp' = args_end argv sp ∧ args_put pgdir argv ptrs (xkm s) k ∧
        (argv = [] ∨ argc + Z.of_nat (length argv) ≤ Z.of_nat MAXARG)
    | None => True
    end.
Proof.
  induction argv as [|a argv IH]; intros argc sp s r s'; cbn [push_args].
  - intros [= <- <-]. exists (xkm s). split; [by destruct s|]. split_and!; [done..|by left].
  - rewrite Z.geb_leb. destruct (Z.leb_spec (Z.of_nat MAXARG) argc); [intros [= <- <-]; exists (xkm s); split; [by destruct s|done]|].
    cbv zeta. fold (push_sp sp a). intros (r1 & s1 & E1 & E)%bind_ok_inv. apply xk_inv in E1 as (k1 & E1 & ->).
    destruct (Z.ltb_spec r1 0); [injection E as <- <-; by exists k1|].
    apply bind_ok_inv in E as (l & s2 & E2 & E). apply IH in E2 as (k2 & -> & Hl). injection E as <- <-.
    exists k2. split; [done|]. destruct l as [[l spl]|]; [|done]. cbn. destruct Hl as (-> & -> & Hput & Hlen). split_and!; [done|done|by exists r1, k1|].
    right. cbn [length]. destruct Hlen as [->|]; cbn [length]; lia.
Qed.

Section Body.
Context (fin : bool → bool) (stiM : M (exst S) unit) (Hsti : ∀ s s', stiM s = Ok (tt, s') → s' = mkEx (xfs s) (xkm s) (xproc s) (fin (xif s))).

Lemma bad_inv pgdir ip s r s' : exec_bad stiM pgdir ip s = Ok (r, s') →
  r = -1 ∧ xproc s' = xproc s ∧ xif s' = fin (xif s) ∧ (if pgdir =? 0 then xkm s' = xkm s else freevm pgdir (xkm s) = Ok (tt, xkm s')).
Proof using Hsti.
  intros ([] & s1 & E1 & E)%bind_ok_inv.
  assert (∃ k, s1 = mkEx (xfs s) k (xproc s) (xif s) ∧ if pgdir =? 0 then k = xkm s else freevm pgdir (xkm s) = Ok (tt, k)) as (k & -> & Hk).
  { destruct (pgdir =? 0); cbn [negb when] in E1; [injection E1 as <-; exists (xkm s); by destruct s|].
    apply xk_inv in E1 as (k & E1 & ->). by exists k. }
  apply bind_ok_inv in E as ([] & s2 & E2 & E).
  assert (∃ f, s2 = mkEx f k (xproc s) (xif s)) as (f & ->).
  { destruct ip as [ip|]; [|injection E2 as <-; by eexists]. apply bind_ok_inv in E2 as ([] & s3 & E3 & E2).
    apply xf_inv in E3 as (f3 & _ & ->). apply xf_inv in E2 as (f4 & _ & ->). by exists f4. }
  apply bind_ok_inv in E as ([] & s3 & E3 & E). apply Hsti in E3 as ->. injection E as <- <-. by split_and!.
Qed.
Lemma bad_refused pgdir ip s0 s r s' : exec_bad stiM pgdir ip s = Ok (r, s') → xproc s = xproc s0 →
  (∃ k1, setupkvm (xkm s0) = Ok (pgdir, k1)) ∧ pgdir ≠ 0 ∨ pgdir = 0 ∧ (xkm s = xkm s0 ∨ setupkvm (xkm s0) = Ok (0, xkm s)) →
  r = -1 ∧ refused s0 s' ∧ xif s' = fin (xif s).
Proof using Hsti.
  intros (-> & Hp & Hif & Hk)%bad_inv Hp0 Hcase. split; [done|]. split; [|done]. split; [by rewrite Hp|].
  destruct Hcase as [[(k1 & Hk1) Hne]|[-> Hcase]].
  - rewrite (proj2 (Z.eqb_neq _ _) Hne) in Hk. right. right. by exists pgdir, k1, (xkm s).
  - cbn in Hk. rewrite Hk. tauto.
Qed.

(** From the stack on: [s] is the state when the segments are loaded, after the
    file has been closed. *)
Lemma exec_stack_inv pagecnt stacksize path argv pgdir sz entry s0 s r s' :
  exec_stack stiM pagecnt stacksize path argv pgdir sz entry s = Ok (r, s') →
  pgdir ≠ 0 → (∃ k1, setupkvm (xkm s0) = Ok (pgdir, k1)) → xproc s = xproc s0 →
  xif s' = fin (xif s) ∧ (r = -1 ∧ refused s0 s' ∨
    r = 0 ∧ xfs s' = xfs s ∧
    let p' := xproc s' in let top := e_sz p' in
    e_pgdir p' = pgdir ∧ ∃ k7 k8 k9 r k10 name,
    allocuvm pgdir (PGROUNDUP sz) (u32 (PGROUNDUP sz + pagecnt * PGSIZE)) (xkm s) = Ok (top, k7) ∧ top ≠ 0 ∧
    clearpteu pgdir (u32 (top - pagecnt * PGSIZE)) k7 = Ok (tt, k8) ∧
    (length argv ≤ MAXARG)%nat ∧ args_put pgdir argv (arg_ptrs argv top) k8 k9 ∧
    copyout pgdir (frame_sp argv top) (concat (le_split 4 <$> frame argv top)) k9 = Ok (r, k10) ∧ 0 ≤ r ∧
    freevm (e_pgdir (xproc s0)) (set_cr3 (V2P pgdir) k10) = Ok (tt, xkm s') ∧
    e_eip p' = entry ∧ e_esp p' = frame_sp argv top ∧ e_esp p' mod 4 = 0 ∧
    safestrcpy (last_elem path path ++ [0]) 16 = Some name ∧ e_name p' = splice (e_name (xproc s0)) 0 name ∧
    e_kstack p' = e_kstack (xproc s0) ∧ e_stacksize p' = stacksize).
Proof using Hsti.
  intros E Hne Hk1 Hp. unfold exec_stack in E. cbv zeta in E.
  assert (∀ s r s', exec_bad stiM pgdir None s = Ok (r, s') → xproc s = xproc s0 →
    r = -1 ∧ refused s0 s' ∧ xif s' = fin (xif s)) as Hbad.
  { intros s1 r1 s1' E1 Hp1. eapply bad_refused; [exact E1|done|by left]. }
  apply bind_ok_inv in E as (top & s7 & E7 & E). apply xk_inv in E7 as (k7 & E7 & ->).
  destruct (Z.eqb_spec top 0) as [|Htop]; [apply Hbad in E as (-> & Hrf & Hif); [split; [done|by left]|done]|].
  apply bind_ok_inv in E as ([] & s8 & E8 & E). apply xk_inv in E8 as (k8 & E8 & ->).
  apply bind_ok_inv in E as (a & s9 & E9 & E). apply push_args_inv in E9 as (k9 & -> & Ha).
  destruct a as [[ptrs sp]|]; [|apply Hbad in E as (-> & Hrf & Hif); [split; [done|by left]|done]].
  destruct Ha as (-> & -> & Hput & Hlen). cbn [xfs xkm xproc xif] in *.
  apply bind_ok_inv in E as (r1 & s10 & E10 & E). apply xk_inv in E10 as (k10 & E10 & ->). cbn [xfs xkm xproc xif] in *.
  destruct (Z.ltb_spec r1 0) as [|Hr1]; [apply Hbad in E as (-> & Hrf & Hif); [split; [done|by left]|done]|].
  apply bind_ok_inv in E as (name & s11 & E11 & E). unfold deref in E11.
  destruct (safestrcpy _ 16) as [name'|] eqn:En; [|done]. injection E11 as <- <-.
  apply bind_ok_inv in E as (p & s11 & E11 & E). injection E11 as <- <-. apply bind_ok_inv in E as ([] & s12 & E12 & E). injection E12 as <-.
  cbn [xproc] in E. set (p' := mkEp _ _ _ _ _ _ _) in E.
  apply bind_ok_inv in E as ([] & s13 & E13 & E). apply bind_ok_inv in E13 as (p1 & s14 & E14 & E13). injection E14 as <- <-.
  cbn [xproc set_xproc] in E13. destruct (e_kstack p' =? 0); [done|]. destruct (e_pgdir p' =? 0); [done|].
  apply xk_inv in E13 as (k13 & E13 & ->). injection E13 as <-. cbn [xfs xkm xproc xif set_xproc] in *.
  apply bind_ok_inv in E as ([] & s15 & E15 & E). apply xk_inv in E15 as (k15 & E15 & ->). cbn [xfs xkm xproc xif] in *.
  apply bind_ok_inv in E as ([] & s16 & E16 & E). apply Hsti in E16 as ->. injection E as <- <-. cbn [xfs xkm xproc xif].
  split; [done|right]. split; [done|]. split; [done|]. split; [done|]. rewrite <- Hp. exists k7, k8, k9, r1, k10, name'.
  split_and!; try done.
  - destruct Hlen as [->|]; [cbn; unfold MAXARG; lia|lia].
  - apply frame_sp_aligned. by eapply allocuvm_aligned.
Qed.

(** The body of [exec], from [begin_op] on. *)
Lemma exec_from_inv pagecnt stacksize path argv s r s' :
  exec_from stiM pagecnt stacksize path argv s = Ok (r, s') →
  r = -1 ∧ refused s s' ∧ (xif s' = fin (xif s) ∨ xif s' = xif s) ∨
  r = 0 ∧ xif s' = fin (xif s) ∧ replaced pagecnt stacksize path argv s s'.
Proof using Hsti.
  intros E. unfold exec_from in E. apply bind_ok_inv in E as ([] & s1 & E1 & E). apply xf_inv in E1 as (f1 & E1 & ->).
  apply bind_ok_inv in E as (ip & s2 & E2 & E). apply xf_inv in E2 as (f2 & E2 & ->). cbn [xfs xkm xproc xif] in *.
  destruct ip as [ip|].
  2: { apply bind_ok_inv in E as ([] & s3 & E3 & E). apply xf_inv in E3 as (f3 & E3 & ->). injection E as <- <-.
       left. split; [done|]. split; [split; [done|by left]|by right]. }
  apply bind_ok_inv in E as ([] & s3 & E3 & E). apply xf_inv in E3 as (f3 & E3 & ->). cbn [xfs xkm xproc xif] in *.
  apply bind_ok_inv in E as ([n elf] & s4 & E4 & E). apply xf_inv in E4 as (f4 & E4 & ->). cbn [xfs xkm xproc xif] in *.
  assert (∀ pgdir s1 r s', exec_bad stiM pgdir (Some ip) s1 = Ok (r, s') → xproc s1 = xproc s → xif s1 = xif s →
    (∃ k1, setupkvm (xkm s) = Ok (pgdir, k1)) ∧ pgdir ≠ 0 ∨ pgdir = 0 ∧ (xkm s1 = xkm s ∨ setupkvm (xkm s) = Ok (0, xkm s1)) →
    r = -1 ∧ refused s s' ∧ (xif s' = fin (xif s) ∨ xif s' = xif s)) as Hbad.
  { intros pgdir s5 r5 s5' E5 Hp5 Hif5 Hc. destruct (bad_refused _ _ s _ _ _ E5 Hp5 Hc) as (-> & Hrf & Hif). rewrite Hif5 in Hif. auto. }
  destruct (Z.eqb_spec n ELFHDR) as [->|]; cbn [negb] in E; [|left; eapply (Hbad 0); [exact E|done|done|right; split; [done|by left]]].
  destruct (Z.eqb_spec (get32 elf 0) ELF_MAGIC) as [Hmagic|]; cbn [negb] in E; [|left; eapply (Hbad 0); [exact E|done|done|right; split; [done|by left]]].
  apply bind_ok_inv in E as (pgdir & s5 & E5 & E). apply xk_inv in E5 as (k1 & E5 & ->). cbn [xfs xkm xproc xif] in *.
  destruct (Z.eqb_spec pgdir 0) as [->|Hpg]; [left; eapply (Hbad 0); [exact E|done|done|right; split; [done|by right]]|].
  apply bind_ok_inv in E as (sz & s6 & E6 & E). destruct (load_segments_proc _ _ _ _ _ _ _ _ E6) as [Hp6 Hif6]. cbn [xproc xif] in *.
  destruct sz as [sz|]; [|left; eapply (Hbad pgdir); [exact E|done|done|left; eauto]].
  apply bind_ok_inv in E as ([] & s7 & E7 & E). apply xf_inv in E7 as (f7 & E7 & ->). cbn [xfs xkm xproc xif] in *.
  apply bind_ok_inv in E as ([] & s8 & E8 & E). apply xf_inv in E8 as (f8 & E8 & ->). cbn [xfs xkm xproc xif] in *.
  apply (exec_stack_inv _ _ _ _ _ _ _ s) in E as (Hif & [(-> & Hrf)|(-> & Hfs & Hpd & k7 & k8 & k9 & r9 & k10 & name & Hrf)]);
    [| |done|by exists k1|done].
  - left. split; [done|]. split; [done|]. left. by rewrite Hif; cbn; rewrite Hif6.
  - right. split; [done|]. split; [by rewrite Hif; cbn; rewrite Hif6|]. cbn [xfs xkm xproc xif] in *.
    unfold replaced. cbv zeta. rewrite Hpd. exists ip, elf, f4, k1, sz, s6, k7, k8, k9, r9, k10, name.
    split; [by exists f1, f2, f3|]. split; [done|]. split; [done|]. split; [exact E6|]. split; [exists f7; by rewrite Hfs|]. exact Hrf.
Qed.
End Body.
End Exec.


(** The disk of [FsDemo], whose file ["f"] is not a program. *)
Definition demo_bst : bst := match binit (bboot fs_img 14 demo_ctx) with Ok (_, b) => b | _ => bboot fs_img 14 demo_ctx end.
#[local] Instance demo_ld : KernelLd := {| kend := 0x80108000; kdata := 0x80109000 |}.
Definition idle_inode : inode := mkInode 0 0 0 0 0 0 0 0 0 (replicate 13 0).
Definition demo_files : fst lst := mkFst (mkLst demo_bst fs_log) demo_ctx demo_sb (replicate NINODE idle_inode) 0.
Definition demo_proc : eproc := mkEp 0x8dfff000 4096 0 4096 (replicate 16 0) 0x8dffe000 1.
Definition demo_exst : exst lst := mkEx demo_files (mkKm 1 0 ∅ 0 0 demo_ctx) demo_proc true.

