(* ===== verification/Pmanager.v ===== *)
(** * The process manager (Project2: pmanager.c, sys_exec2 of sysfile.c)

    The command line of [pmanager], its commands, and the system call that its
    [execute] makes. *)

From S2P Require Export Sysfile Printf.
From S2P Require Import FsDemo.
Local Open Scope Z_scope.

(** ** Parsing *)

(** [tmp] and [words] of [parsecmd]; a write beyond an array is undefined. *)
Record pmst := mkPm { tmp : bytes; words : list bytes }.
Definition set_tmp (b : bytes) (s : pmst) : pmst := mkPm b (words s).
Definition set_words (l : list bytes) (s : pmst) : pmst := mkPm (tmp s) l.

Definition put_tmp (i : nat) (c : Z) : M pmst unit :=
  deref (λ s, tmp s !! i) ;; modify (λ s, set_tmp (<[i := c]> (tmp s)) s).
(** [tmp[tmpidx] = '\0'; strcpy(words[wordcnt], tmp);] *)
Definition end_word (tmpidx wordcnt : nat) : M pmst unit :=
  put_tmp tmpidx 0 ;;
  w ← deref (λ s, strcpy (tmp s));
  old ← deref (λ s, words s !! wordcnt);
  if bool_decide (length w ≤ length old)%nat then modify (λ s, set_words (<[wordcnt := splice old 0 w]> (words s)) s) else fault.

(** The loop, up to the NUL of [input]. *)
Fixpoint parse_loop (input : bytes) (tmpidx wordcnt : nat) : M pmst (nat * nat) :=
  match input with
  | [] => fault
  | c :: input =>
      if c =? 0 then mret (tmpidx, wordcnt)
      else if c =? 32 then end_word tmpidx wordcnt ;; parse_loop input 0 (S wordcnt)
      else if negb (c =? 10) then put_tmp tmpidx c ;; parse_loop input (S tmpidx) wordcnt
      else parse_loop input tmpidx wordcnt
  end.

Definition parsecmd (input : bytes) : M pmst unit :=
  for_each (seq 0 4) (λ i, deref (λ s, words s !! i) ;; modify (λ s, set_words (<[i := memset 0 0 100]> (words s)) s)) ;;
  '(tmpidx, wordcnt) ← parse_loop input 0 0;
  end_word tmpidx wordcnt.

(** ** Commands *)

Inductive pcmd :=
  | LIST
  | KILL (pid : Z)
  | EXECUTE (path : Z) (stacksize : Z)
  | LIMIT (pid limit : Z)
  | BACK (c : pcmd).

(** [malloc] is taken to succeed: the code does not test it.  [path] is the
    address of the path: a command keeps the pointer, not the characters. *)
Definition executecmd (path : Z) (stacksize : Z) : pcmd := BACK (EXECUTE path stacksize).

(** [Some None]: no such command, the program exits.  The words are the rows
    of the array at [words_at]. *)
Definition makecmd (words_at : Z) (ws : list bytes) : option (option pcmd) :=
  w0 ← ws !! 0%nat;
  w1 ← ws !! 1%nat;
  w2 ← ws !! 2%nat;
  c ← strcmp w0 [108; 105; 115; 116; 0];
  if c =? 0 then Some (Some LIST) else
  c ← strcmp w0 [107; 105; 108; 108; 0];
  if c =? 0 then pid ← atoi w1; Some (Some (KILL pid)) else
  c ← strcmp w0 [101; 120; 101; 99; 117; 116; 101; 0];
  if c =? 0 then n ← atoi w2; Some (Some (executecmd (words_at + 100) n)) else
  c ← strcmp w0 [109; 101; 109; 108; 105; 109; 0];
  if c =? 0 then pid ← atoi w1; lim ← atoi w2; Some (Some (LIMIT pid lim)) else
  Some None.

(** The system calls, and the messages: [true] for success, of a kill, of an
    [execute] and of a limit. *)
Class PmCalls (E : Type) := {
  u_list : M E unit;
  u_kill : Z → M E Z;
  u_exec2 : Z → Z → Z → M E Z;
  u_setmemorylimit : Z → Z → M E Z;
  u_fork : M E Z;
  u_report : pcmd → bool → M E unit
}.
Fixpoint runcmd {E} `{PC : PmCalls E} (c : pcmd) : M E unit :=
  match c with
  | LIST => u_list
  | KILL pid => r ← u_kill pid; u_report c (r =? 0)
  | EXECUTE path stacksize => r ← u_exec2 path path stacksize; when (r <? 0) (u_report c false)
  | LIMIT pid limit => r ← u_setmemorylimit pid limit; u_report c (r =? 0)
  | BACK c =>
      pid ← u_fork;
      if pid =? -1 then panic "fork"
      else when (pid =? 0) (runcmd c)
  end.

(** ** sys_exec2 *)

Section Exec2.
Context {S : Type}.
(** [exec2] is called with the path, the arguments and the stack size;
    [memory_limit] is that of the process. *)
Definition sys_exec2 (memory_limit : Z) (exec2 : bytes → list bytes → Z → M (scall S) Z) : M (scall S) Z :=
  path ← argstr 0;
  match path with None => mret (-1) | Some path =>
  uargv ← argint 1;
  match uargv with None => mret (-1) | Some uargv =>
  stacksize ← argint 2;
  match stacksize with None => mret (-1) | Some stacksize =>
    if (stacksize <? 0) || (stacksize >? 100) then mret (-1)
    else if (memory_limit >? 0) && (memory_limit <? stacksize * 4096) then mret (-1)
    else
      l ← exec_args MAXARG (u32 uargv) 0;
      match l with
      | None => mret (-1)
      | Some l =>
          path ← upath path;
          s ← gets id;
          exec2 path (map (λ a, take (Z.to_nat a.2) (drop (Z.to_nat a.1) (umem s))) l) stacksize
      end
  end end end.

(** The call as the program makes it: the arguments and the return address are
    pushed on the stack of the process, below its stack pointer, and popped
    when the kernel has returned. *)
Definition set_uesp (v : Z) (s : scall S) : scall S := mkSc (sfl s) (usz s) v (ueax s) (umem s) (ofile s).
Definition call_exec2 (memory_limit : Z) (exec2 : bytes → list bytes → Z → M (scall S) Z) (ret path argv stacksize : Z) : M (scall S) Z :=
  esp ← gets uesp;
  uwrite (esp - 16) (concat (le_split 4 <$> [ret; path; argv; u32 stacksize])) ;;
  modify (set_uesp (esp - 16)) ;;
  r ← sys_exec2 memory_limit exec2;
  modify (set_uesp esp) ;; mret r.

(** A process that runs a command: the calls of a process whose forks answer 0
    (the child's side), with the reports it prints; the calls other than
    [exec2] are those of [others]. *)
Record pmproc := mkPmp { pm_call : scall S; pm_out : list (pcmd * bool) }.
Definition on_call {A} (m : M (scall S) A) : M pmproc A :=
  zoom pm_call (λ x q, mkPmp x (pm_out q)) m.
Definition child_calls (others : PmCalls (scall S)) (memory_limit : Z) (exec2 : bytes → list bytes → Z → M (scall S) Z) (ret : Z) : PmCalls pmproc := {|
  u_list := on_call (u_list (PmCalls := others));
  u_kill pid := on_call (u_kill (PmCalls := others) pid);
  u_exec2 path argv n := on_call (call_exec2 memory_limit exec2 ret path argv n);
  u_setmemorylimit pid l := on_call (u_setmemorylimit (PmCalls := others) pid l);
  u_fork := mret 0;
  u_report c b := modify (λ q, mkPmp (pm_call q) (pm_out q ++ [(c, b)]))
|}.
End Exec2.
Arguments pmproc : clear implicits.


(** ** What the parser does *)

(** The words of a line, between single spaces; newlines are dropped. *)
Fixpoint wordsof (l cur : bytes) : list bytes :=
  match l with
  | [] => [cur]
  | c :: l => if c =? 32 then cur :: wordsof l [] else if c =? 10 then wordsof l cur else wordsof l (cur ++ [c])
  end.
(** A word in its array of 100 bytes. *)
Definition pad (w : bytes) : bytes := w ++ replicate (100 - length w) 0.
Definition no_word : bytes := replicate 100 0.

Lemma put_tmp_ok t W i c : (i < length t)%nat → put_tmp i c (mkPm t W) = Ok (tt, mkPm (<[i := c]> t) W).
Proof. intros [x Hx]%lookup_lt_is_Some_2. unfold put_tmp. erewrite bind_ok by (unfold deref; cbn; by rewrite Hx). reflexivity. Qed.

Lemma strcpy_word (w : bytes) rest : Forall (λ c, c ≠ 0) w → strcpy (w ++ 0 :: rest) = Some (w ++ [0]).
Proof.
  induction 1 as [|c w Hc _ IH]; [done|]. cbn [app strcpy]. rewrite (proj2 (Z.eqb_neq c 0) Hc), IH. done.
Qed.

Lemma end_word_ok t done_ w k :
  length t = 100%nat → (length w < 100)%nat → take (length w) t = w → Forall (λ c, c ≠ 0) w → length done_ = k → (k ≤ 4)%nat →
  end_word (length w) k (mkPm t (done_ ++ replicate (4 - k) no_word)) =
    if bool_decide (k < 4)%nat then Ok (tt, mkPm (<[length w := 0]> t) (done_ ++ pad w :: replicate (3 - k) no_word)) else Fault.
Proof.
  intros Ht Hw Et Hz Hk H4. unfold end_word. rewrite (bind_ok _ _ _ _ _ (put_tmp_ok t _ (length w) 0 ltac:(lia))).
  assert (<[length w := 0]> t = w ++ 0 :: drop (S (length w)) t) as E.
  { rewrite <- (take_drop (length w) t) at 1. rewrite Et. destruct (lookup_lt_is_Some_2 t (length w)) as [x Hx]; [lia|].
    rewrite (drop_S _ _ _ Hx). apply insert_at. }
  erewrite bind_ok by (unfold deref; cbn [tmp]; rewrite E, strcpy_word by done; reflexivity). unfold deref at 1, mbind at 1, M_bind at 1. cbn [words].
  rewrite lookup_app_r by lia. rewrite Hk, Nat.sub_diag. case_bool_decide as Hk4.
  - replace (4 - k)%nat with (S (3 - k)) by lia. cbn [replicate lookup list_lookup]. rewrite bool_decide_true by (rewrite length_app; cbn; lia).
    unfold modify, set_words. cbn [tmp words]. rewrite <- Hk, insert_at. assert (splice no_word 0 (w ++ [0]) = pad w) as ->; [|by rewrite E].
    unfold pad, no_word.
    rewrite splice_front by (rewrite length_app, length_replicate; cbn; lia). rewrite drop_replicate, length_app, <- app_assoc. cbn [length app].
    f_equal. replace (100 - length w)%nat with (S (100 - (length w + 1))) by lia. done.
  - replace (4 - k)%nat with 0%nat by lia. done.
Qed.

Lemma parse_ok l : ∀ w t done_ k rest,
  Forall (λ c, c ≠ 0) (w ++ l) → (length (w ++ l) < 100)%nat → length t = 100%nat → take (length w) t = w → length done_ = k → (k ≤ 4)%nat →
  ∃ t', (p ← parse_loop (l ++ 0 :: rest) (length w) k; end_word p.1 p.2) (mkPm t (done_ ++ replicate (4 - k) no_word)) =
    let ws := wordsof l w in
    if bool_decide (k + length ws ≤ 4)%nat then Ok (tt, mkPm t' (done_ ++ (pad <$> ws) ++ replicate (4 - (k + length ws)) no_word)) else Fault.
Proof.
  induction l as [|c l IH]; intros w t done_ k rest Hz Hlen Ht Et Hk H4; rewrite length_app in Hlen.
  - cbn [app parse_loop wordsof length fmap list_fmap Z.eqb]. exists (<[length w := 0]> t). erewrite bind_ok by reflexivity. cbn [Datatypes.fst Datatypes.snd].
    rewrite app_nil_r in Hz. rewrite (end_word_ok t done_ w k Ht ltac:(cbn in Hlen; lia) Et Hz Hk H4).
    destruct (decide (k < 4)%nat); [rewrite !bool_decide_true by lia|by rewrite !bool_decide_false by lia].
    replace (4 - (k + 1))%nat with (3 - k)%nat by lia. done.
  - cbn [app parse_loop wordsof]. assert (c ≠ 0) as Hc by (apply Forall_app in Hz as [_ Hz]; by apply Forall_cons in Hz as [? _]).
    assert (Forall (λ c, c ≠ 0) w) as Hzw by by apply Forall_app in Hz as [? _].
    assert (Forall (λ c, c ≠ 0) l) as Hzl by (apply Forall_app in Hz as [_ Hz]; by apply Forall_cons in Hz as [_ ?]). cbn [length] in Hlen.
    rewrite (proj2 (Z.eqb_neq c 0) Hc). destruct (c =? 32).
    + pose proof (end_word_ok t done_ w k Ht ltac:(lia) Et Hzw Hk H4) as Hew. cbn [length].
      destruct (decide (k < 4)%nat) as [Hk4|Hk4].
      * rewrite bool_decide_true in Hew by done.
        destruct (IH [] (<[length w := 0]> t) (done_ ++ [pad w]) (S k) rest) as [t' E]; [done|cbn; lia|by rewrite length_insert|done|rewrite length_app; cbn; lia|lia|].
        exists t'. unfold mbind at 1, M_bind at 1. rewrite (bind_ok _ _ _ _ _ Hew). cbn zeta. cbn [length] in E.
        replace (done_ ++ pad w :: replicate (3 - k) no_word) with ((done_ ++ [pad w]) ++ replicate (4 - S k) no_word) by (rewrite <- app_assoc; done).
        etrans; [exact E|]. cbn zeta. cbn [fmap list_fmap]. replace (k + S (length (wordsof l [])))%nat with (S k + length (wordsof l []))%nat by lia.
        case_bool_decide; [|done]. rewrite <- app_assoc. done.
      * rewrite bool_decide_false in Hew by done. exists t. unfold mbind at 1, M_bind at 1. unfold mbind at 1, M_bind at 1. rewrite Hew. cbn zeta.
        rewrite bool_decide_false by lia. done.
    + destruct (c =? 10); cbn [negb].
      * apply IH; try done; [by apply Forall_app|rewrite length_app; lia].
      * destruct (IH (w ++ [c]) (<[length w := c]> t) done_ k rest) as [t' E].
        -- by rewrite <- app_assoc.
        -- rewrite !length_app. cbn. lia.
        -- by rewrite length_insert.
        -- rewrite length_app. cbn [length]. rewrite Nat.add_1_r, take_S_r with (x := c) by (apply list_lookup_insert_eq; lia).
           rewrite take_insert_ge by lia. by rewrite Et.
        -- done.
        -- done.
        -- exists t'. etrans; [|exact E]. rewrite length_app, Nat.add_1_r. unfold mbind at 1, M_bind at 1.
           rewrite (bind_ok _ _ _ _ _ (put_tmp_ok t _ (length w) c ltac:(lia))). done.
Qed.

(** [parsecmd] splits the line: a line of less than 100 characters with at
    most three spaces fills the four arrays with its words, each ended and filled
    up by NULs; with more spaces it writes beyond the arrays. *)
Theorem parsecmd_splits l rest (s : pmst) :
  Forall (λ c, c ≠ 0) l → (length l < 100)%nat → length (tmp s) = 100%nat → length (words s) = 4%nat →
  ∃ t', parsecmd (l ++ 0 :: rest) s =
    if bool_decide (length (wordsof l []) ≤ 4)%nat
    then Ok (tt, mkPm t' ((pad <$> wordsof l []) ++ replicate (4 - length (wordsof l [])) no_word))
    else Fault.
Proof.
  intros Hz Hl Ht Hw. destruct s as [t W]. cbn [tmp words] in *.
  destruct W as [|w0 [|w1 [|w2 [|w3 [|]]]]]; try done. clear Hw.
  destruct (parse_ok l [] t [] 0 rest Hz Hl Ht eq_refl eq_refl ltac:(lia)) as [t' E]. exists t'.
  etrans; [|exact E]. unfold parsecmd. rewrite (bind_ok _ _ _ tt (mkPm t (replicate 4 no_word))) by reflexivity.
  cbn [length app Nat.sub]. unfold mbind, M_bind. by destruct (parse_loop (l ++ 0 :: rest) 0 0 _) as [[[i k] s']|m| |].
Qed.

(** ["kill 12"] and a newline. *)
Lemma parsecmd_splits_witness :
  ∃ t', parsecmd [107; 105; 108; 108; 32; 49; 50; 10; 0] (mkPm no_word (replicate 4 [])) =
    Ok (tt, mkPm t' [pad [107; 105; 108; 108]; pad [49; 50]; no_word; no_word]) ∧
  makecmd 0 [pad [107; 105; 108; 108]; pad [49; 50]; no_word; no_word] = Some (Some (KILL 12)).
Proof.
  destruct (parsecmd_splits [107; 105; 108; 108; 32; 49; 50; 10] [] (mkPm no_word (replicate 4 []))) as [t' E];
    [apply (bool_decide_unpack _); vm_compute; exact I|apply (bool_decide_unpack _); vm_compute; exact I|reflexivity|reflexivity|].
  exists t'. split; [exact E|vm_compute; reflexivity].
Defined.

(** *** [execute] *)

(** The array [char words[4][100]] at [wa] in the memory of the process. *)
Record words_in {S} (wa : Z) (ws : list bytes) (s : scall S) : Prop := {
  wi_words : length ws = 4%nat ∧ Forall (λ w, length w = 100%nat) ws;
  wi_in : 0 ≤ wa ∧ wa + 400 ≤ usz s;
  wi_mem : ∀ k w i, ws !! k = Some w → (i < 100)%nat → umem s !! (Z.to_nat wa + 100 * k + i)%nat = w !! i
}.
(** The frame of a call of [exec2]. *)
Definition exec2_frame (ret path argv n : Z) : bytes := concat (le_split 4 <$> [ret; path; argv; u32 n]).

Lemma concat_split_bytes l : is_bytes (concat (le_split 4 <$> l)).
Proof. induction l as [|x l IH]; cbn -[le_split]; [apply Forall_nil_2|]. apply Forall_app_2; [apply le_split_bytes|done]. Qed.

Section Execute.
Context {S : Type}.
Implicit Types (s : scall S).

Lemma argint_ok s n : mapped s → 0 ≤ uesp s + 4 + 4 * n → uesp s + 8 + 4 * n ≤ usz s →
  argint n s = Ok (Some (i32 (get32 (umem s) (Z.to_nat (uesp s + 4 + 4 * n)))), s).
Proof.
  intros Hs H0 H1. pose proof (mp_max _ Hs) as Hm.
  destruct (wp_ok (argint n) (λ r s', r = Some (i32 (get32 (umem s) (Z.to_nat (uesp s + 4 + 4 * n)))) ∧ s' = s) s) as (r & s' & E & -> & ->); [|done].
  apply wpg_bind, wpg_gets. rewrite u32_id by lia. apply wpg_fetchint; [done|lia|]. by rewrite bool_decide_true by lia.
Qed.

Lemma fetchstr_ok s (w : bytes) p : mapped s → 0 ≤ p → p + Z.of_nat (length w) < usz s → Forall (λ c, c ≠ 0) w →
  (∀ i, (i ≤ length w)%nat → umem s !! (Z.to_nat p + i)%nat = (w ++ [0]) !! i) →
  fetchstr p s = Ok (Some (p, Z.of_nat (length w)), s).
Proof.
  intros Hs Hp Hlt Hw Hmem.
  assert (∀ i, p ≤ i < p + Z.of_nat (length w) → umem s !! Z.to_nat i ≠ Some 0) as Hnz.
  { intros i Hi E. replace (Z.to_nat i) with (Z.to_nat p + Z.to_nat (i - p))%nat in E by lia. rewrite Hmem in E by lia.
    rewrite lookup_app_l in E by lia. exact (proj1 (Forall_lookup _ _) Hw _ _ E eq_refl). }
  assert (umem s !! Z.to_nat (p + Z.of_nat (length w)) = Some 0) as Hz.
  { replace (Z.to_nat (p + Z.of_nat (length w))) with (Z.to_nat p + length w)%nat by lia. rewrite Hmem by lia.
    by rewrite lookup_app_r, Nat.sub_diag by lia. }
  destruct (wp_ok (fetchstr p) (λ r s', r = Some (p, Z.of_nat (length w)) ∧ s' = s) s) as (r & s' & E & -> & ->); [|done].
  apply wpg_bind, wpg_gets. rewrite Z.geb_leb, (proj2 (Z.leb_gt (usz s) p)) by lia. apply wpg_fetchstr_loop; [done|done|lia| |].
  - intros e He Hez Hall. split; [|done]. do 2 f_equal.
    destruct (Z.lt_trichotomy (e - p) (Z.of_nat (length w))) as [Hlt'|[Heq|Hgt]]; [|exact Heq|].
    + by destruct (Hnz e ltac:(lia)).
    + by destruct (Hall (p + Z.of_nat (length w)) ltac:(lia)).
  - intros Hall. by destruct (Hall (p + Z.of_nat (length w)) ltac:(lia)).
Qed.

(** A word of four bytes of which the last is not 0 is at least 2^24. *)
Lemma get32_big s p c : mapped s → 0 ≤ p → p + 4 ≤ usz s → umem s !! (Z.to_nat p + 3)%nat = Some c → c ≠ 0 →
  2 ^ 24 ≤ get32 (umem s) (Z.to_nat p) < 2 ^ 32.
Proof.
  intros [Hl _ Hb] Hp Hin Hc Hcz. pose proof (get_le_range 4 (umem s) (Z.to_nat p) Hb ltac:(lia)) as Hr. split; [|apply Hr]. unfold get_le.
  destruct (lookup_lt_is_Some_2 (umem s) (Z.to_nat p)) as [a0 E0]; [lia|]. destruct (lookup_lt_is_Some_2 (umem s) (Datatypes.S (Z.to_nat p))) as [a1 E1]; [lia|].
  destruct (lookup_lt_is_Some_2 (umem s) (Datatypes.S (Datatypes.S (Z.to_nat p)))) as [a2 E2]; [lia|]. replace (Z.to_nat p + 3)%nat with (Datatypes.S (Datatypes.S (Datatypes.S (Z.to_nat p)))) in Hc by lia.
  rewrite (drop_S _ _ _ E0), (drop_S _ _ _ E1), (drop_S _ _ _ E2), (drop_S _ _ _ Hc). cbn [take le_combine]. rewrite take_0. cbn [le_combine].
  assert (∀ i x, umem s !! i = Some x → 0 ≤ x < 256) as Hbyte by (intros i x Hx; exact (proj1 (Forall_lookup _ _) Hb i x Hx)).
  pose proof (Hbyte _ _ E0). pose proof (Hbyte _ _ E1). pose proof (Hbyte _ _ E2). pose proof (Hbyte _ _ Hc). lia.
Qed.

(** An argument vector whose first word is an address beyond the process. *)
Lemma exec_args_refused s p : mapped s → usz s ≤ 2 ^ 24 → 0 ≤ p → p + 4 ≤ usz s → 2 ^ 24 ≤ get32 (umem s) (Z.to_nat p) < 2 ^ 32 →
  exec_args MAXARG p 0 s = Ok (None, s).
Proof.
  intros Hs Hsz Hp Hin Hv. destruct (wp_ok (exec_args MAXARG p 0) (λ r s', r = None ∧ s' = s) s) as (r & s' & E & -> & ->); [|done].
  change MAXARG with (Datatypes.S 31). cbn [exec_args]. rewrite Z.mul_0_r, Z.add_0_r, (u32_id p) by lia.
  apply wpg_bind, wpg_fetchint; [done|lia|]. rewrite bool_decide_true by lia. set (v := get32 (umem s) (Z.to_nat p)) in *. assert (u32 (i32 v) = v) as Ev.
  { unfold u32, i32. rewrite Zminus_mod_idemp_l, Z.add_simpl_r. apply Z.mod_small. lia. }
  assert (i32 v ≠ 0) as Hv0 by (intros E0; rewrite E0 in Ev; change (u32 0) with 0 in Ev; lia). rewrite (proj2 (Z.eqb_neq _ 0) Hv0).
  apply wpg_bind, wpg_bind, wpg_gets. rewrite Ev, Z.geb_leb, (proj2 (Z.leb_le (usz s) v)) by lia. by apply wpg_ret, wpg_ret.
Qed.

(** The call with the path for its arguments. *)
Lemma sys_exec2_refused s lim exec2 (w : bytes) p n :
  mapped s → usz s ≤ 2 ^ 24 → 0 ≤ uesp s → uesp s + 16 ≤ usz s →
  get32 (umem s) (Z.to_nat (uesp s + 4)) = p → get32 (umem s) (Z.to_nat (uesp s + 8)) = p → get32 (umem s) (Z.to_nat (uesp s + 12)) = n →
  0 ≤ p → p + Z.of_nat (length w) < usz s → Forall (λ c, c ≠ 0) w → (4 ≤ length w)%nat →
  (∀ i, (i ≤ length w)%nat → umem s !! (Z.to_nat p + i)%nat = (w ++ [0]) !! i) →
  sys_exec2 lim exec2 s = Ok (-1, s).
Proof.
  intros Hs Hsz He0 He1 G0 G1 G2 Hp Hin Hw H4 Hmem. unfold sys_exec2.
  assert (i32 p = p) as Ei by (apply i32_id; lia).
  assert (argstr 0 s = Ok (Some (p, Z.of_nat (length w)), s)) as E0.
  { unfold argstr. rewrite (bind_ok _ _ _ _ _ (argint_ok s 0 Hs ltac:(lia) ltac:(lia))). rewrite Z.mul_0_r, Z.add_0_r, G0, Ei, u32_id by lia.
    by apply fetchstr_ok. }
  rewrite (bind_ok _ _ _ _ _ E0). cbv iota. erewrite bind_ok by (apply argint_ok; [done|lia|lia]). cbv iota. erewrite bind_ok by (apply argint_ok; [done|lia|lia]).
  replace (uesp s + 4 + 4 * 1) with (uesp s + 8) by lia. replace (uesp s + 4 + 4 * 2) with (uesp s + 12) by lia. rewrite G1, G2, Ei, u32_id by lia.
  destruct ((i32 n <? 0) || (i32 n >? 100)); [done|]. destruct ((lim >? 0) && (lim <? i32 n * 4096)); [done|].
  destruct (lookup_lt_is_Some_2 w 3) as [c Hc]; [lia|].
  rewrite (bind_ok _ _ s None s); [done|]. apply exec_args_refused; [done..|lia|]. apply (get32_big s p c); [done|lia|lia| |].
  - rewrite Hmem by lia. by apply lookup_app_l_Some.
  - exact (proj1 (Forall_lookup _ _) Hw _ _ Hc).
Qed.
End Execute.

(** C39. [pmanager]'s [execute] hands the path itself to [exec2] as the argument
    vector.  Take the process that runs the command, with the words of the line
    in the array at [words_at] of its memory ([execute], a path of four
    characters or more, the stack size) and its stack below that array.  Then
    [makecmd] makes a command, and the process that [runcmd] forks for it
    reports that [execute] failed, whatever [exec2] does: the kernel takes
    the first four characters of the path for the address of an argument, which
    is beyond any process of up to 16 megabytes, and [sys_exec2] returns -1
    without calling [exec2].  Nothing changes but the frame of the call, below
    the stack pointer. *)
Theorem execute_passes_path_as_arguments {S} (others : PmCalls (scall S)) lim exec2 ret (q : pmproc S) words_at path size w3 n :
  let s := pm_call q in
  let ws := [pad [101; 120; 101; 99; 117; 116; 101]; pad path; size; w3] in
  mapped s → usz s ≤ 2 ^ 24 → 16 ≤ uesp s ≤ words_at → words_in words_at ws s →
  Forall (λ c, c ≠ 0) path → (4 ≤ length path < 100)%nat → atoi size = Some n → 0 ≤ ret < 2 ^ 32 →
  ∃ c, makecmd words_at ws = Some (Some c) ∧
    runcmd (PC := child_calls others lim exec2 ret) c q =
      Ok (tt, mkPmp (set_umem (splice (umem s) (Z.to_nat (uesp s - 16)) (exec2_frame ret (words_at + 100) (words_at + 100) n)) s)
                    (pm_out q ++ [(EXECUTE (words_at + 100) n, false)])).
Proof.
  intros s ws Hs Hsz Hesp [_ [Hw0 Hw1] Hmem] Hz Hlen Hn Hret. exists (BACK (EXECUTE (words_at + 100) n)). split.
  { unfold makecmd, ws. cbn. by rewrite Hn. }
  set (p := words_at + 100). set (fr := exec2_frame ret p p n). pose proof Hs as [Hl Hm Hb].
  assert (length fr = 16%nat) as Hfr by apply concat_split_length.
  set (s1 := set_uesp (uesp s - 16) (set_umem (splice (umem s) (Z.to_nat (uesp s - 16)) fr) s)).
  assert (mapped s1) as Hs1.
  { pose proof (eq_refl : umem s1 = splice (umem s) (Z.to_nat (uesp s - 16)) fr) as Em.
    split; rewrite ?Em; change (usz s1) with (usz s); [by rewrite splice_length|done|]. apply list_inserts_bytes; [done|]. apply concat_split_bytes. }
  assert (∀ k, (k < 4)%nat → get32 (umem s1) (Z.to_nat (uesp s1 + 4 * Z.of_nat k)) = [ret; p; p; u32 n] !!! k) as Hget.
  { intros k Hk. change (umem s1) with (splice (umem s) (Z.to_nat (uesp s - 16)) fr). change (uesp s1) with (uesp s - 16). replace (Z.to_nat (uesp s - 16 + 4 * Z.of_nat k)) with (Z.to_nat (uesp s - 16) + 4 * k)%nat by lia.
    rewrite get_splice_in by lia. apply get32_concat; [|done]. pose proof (u32_range n). repeat constructor; lia. }
  assert (sys_exec2 lim exec2 s1 = Ok (-1, s1)) as E1.
  { apply (sys_exec2_refused s1 lim exec2 path p (u32 n)); try done; change (usz s1) with (usz s); change (uesp s1) with (uesp s - 16); try lia.
    - exact (Hget 1%nat ltac:(lia)).
    - exact (Hget 2%nat ltac:(lia)).
    - exact (Hget 3%nat ltac:(lia)).
    - intros i Hi. change (umem s1) with (splice (umem s) (Z.to_nat (uesp s - 16)) fr). unfold splice. rewrite list_lookup_inserts_ge by lia.
      replace (Z.to_nat p + i)%nat with (Z.to_nat words_at + 100 * 1 + i)%nat by lia. rewrite (Hmem 1%nat (pad path)) by (done || lia).
      unfold pad. replace (100 - length path)%nat with (Datatypes.S (99 - length path)) by lia. cbn [replicate].
      destruct (decide (i < length path)%nat); [by rewrite !lookup_app_l by lia|]. by replace i with (length path) by lia; rewrite !lookup_app_r, Nat.sub_diag by lia. }
  assert (call_exec2 lim exec2 ret p p n s = Ok (-1, set_umem (splice (umem s) (Z.to_nat (uesp s - 16)) fr) s)) as E.
  { unfold call_exec2. rewrite (bind_ok _ _ s (uesp s) s) by done. fold fr.
    rewrite (bind_ok _ _ s tt (set_umem (splice (umem s) (Z.to_nat (uesp s - 16)) fr) s)).
    2:{ unfold uwrite, uread. erewrite bind_ok; [reflexivity|]. unfold deref. rewrite bool_decide_true by (fold (exec2_frame ret p p n); fold fr; lia). reflexivity. }
    rewrite (bind_ok _ _ _ tt s1) by done. rewrite (bind_ok _ _ _ _ _ E1). done. }
  cbn [runcmd]. rewrite (bind_ok _ _ q 0 q) by done. change (0 =? -1) with false. change (0 =? 0) with true. cbv iota. unfold when. cbv iota.
  rewrite (bind_ok _ _ q (-1) (mkPmp (set_umem (splice (umem s) (Z.to_nat (uesp s - 16)) fr) s) (pm_out q))); [reflexivity|].
  change (on_call (call_exec2 lim exec2 ret p p n) q = Ok (-1, mkPmp (set_umem (splice (umem s) (Z.to_nat (uesp s - 16)) fr) s) (pm_out q))).
  unfold on_call, zoom. fold s. by rewrite E.
Qed.

(** A process of 432 bytes: the words of ["execute loop 1"] at 32, below them the
    stack.  [exec2] would succeed. *)
Definition demo_words : list bytes := [pad [101; 120; 101; 99; 117; 116; 101]; pad [108; 111; 111; 112]; pad [49]; no_word].
Definition demo_execute : pmproc unit :=
  mkPmp (mkSc (mkFls (mkFst tt (mkCtx [] ∅ 1 0 []) (mkSb 0 0 0 0 0 0 0) [] 0) [] ∅ (mkCtx [] ∅ 1 0 []))
    432 32 0 (replicate 32 0 ++ concat demo_words) (replicate 16 None)) [].
Definition demo_calls : PmCalls (scall unit) :=
  {| u_list := mret tt; u_kill _ := mret 0; u_exec2 _ _ _ := mret 0; u_setmemorylimit _ _ := mret 0; u_fork := mret 0; u_report _ _ := mret tt |}.

Lemma execute_passes_path_as_arguments_witness :
  ∃ c q, makecmd 32 demo_words = Some (Some c) ∧
    runcmd (PC := child_calls demo_calls 0 (λ _ _ _, mret 0) 0) c demo_execute = Ok (tt, q) ∧ pm_out q = [(EXECUTE 132 1, false)].
Proof.
  destruct (execute_passes_path_as_arguments demo_calls 0 (λ _ _ _, mret 0) 0 demo_execute 32 [108; 111; 111; 112] (pad [49]) no_word 1) as (c & Hc & Hr).
  - split; [reflexivity|by apply Z.leb_le|apply (bool_decide_unpack _); vm_compute; exact I].
  - by apply Z.leb_le.
  - split; by apply Z.leb_le.
  - split; [|split; by apply Z.leb_le|].
    + split; [reflexivity|]. apply (bool_decide_unpack _). vm_compute. exact I.
    + intros k w i Hk Hi. assert (Forall (λ k, Forall (λ i, umem (pm_call demo_execute) !! (Z.to_nat 32 + 100 * k + i)%nat = (demo_words !!! k) !! i) (seq 0 100)) (seq 0 4)) as HF
        by (apply (bool_decide_unpack _); vm_compute; exact I).
      rewrite Forall_forall in HF. specialize (HF k). rewrite elem_of_seq in HF. pose proof (lookup_lt_Some _ _ _ Hk) as Hlt.
      rewrite Forall_forall in HF. fold demo_words in Hk |- *. rewrite (HF ltac:(cbn in Hlt; lia) i) by (apply elem_of_seq; lia).
      by rewrite (list_lookup_total_correct _ _ _ Hk).
  - apply (bool_decide_unpack _). vm_compute. exact I.
  - cbn. lia.
  - reflexivity.
  - lia.
  - exists c. eexists. split; [exact Hc|]. split; [exact Hr|reflexivity].
Defined.
