(* ===== verification/Mkfs.v ===== *)
(** * Making a file system (mkfs.c)

    The program that builds the disk image from a list of files, over the
    sectors of the image.  It runs on a little-endian host; [read] of the host
    delivers a file in pieces of 1 to 512 bytes. *)

From S2P Require Export FsNamei.
Local Open Scope Z_scope.

Definition NINODES : Z := 200.
Definition nbitmap : Z := FSSIZE / (BSIZE * 8) + 1.
Definition ninodeblocks : Z := NINODES / IPB + 1.
Definition nlog : Z := LOGSIZE.
Definition nmeta : Z := 2 + nlog + ninodeblocks + nbitmap.
Definition nblocks : Z := FSSIZE - nmeta.

(** Little-endian, read back on a little-endian host. *)
Definition xshort (x : Z) : Z := le_combine (le_split 2 x).
Definition xint (x : Z) : Z := le_combine (le_split 4 x).

(** [sb]. *)
Definition mk_sb : superblock :=
  mkSb (xint FSSIZE) (xint nblocks) (xint NINODES) (xint nlog) (xint 2) (xint (2 + nlog)) (xint (2 + nlog + ninodeblocks)).
Definition sb_bytes (b : superblock) : bytes :=
  concat (le_split 4 <$> [sb_size b; sb_nblocks b; sb_ninodes b; sb_nlog b; sb_logstart b; sb_inodestart b; sb_bmapstart b]).

(** The sectors of the image, [freeinode] and [freeblock]. *)
Record mkst := mkMk { img : gmap Z block; freeinode : Z; freeblock : Z }.
Definition set_img (m : gmap Z block) (s : mkst) : mkst := mkMk m (freeinode s) (freeblock s).
Definition set_freeinode (v : Z) (s : mkst) : mkst := mkMk (img s) v (freeblock s).
Definition set_freeblock (v : Z) (s : mkst) : mkst := mkMk (img s) (freeinode s) v.

(** A sector beyond the end of the image cannot be read. *)
Definition rsect (sec : Z) : M mkst block :=
  m ← gets img;
  match m !! sec with Some b => mret b | None => panic "read" end.
Definition wsect (sec : Z) (b : block) : M mkst unit := modify (λ s, set_img (<[sec := b]> (img s)) s).

(** A [struct dinode] is an [inode] without the fields before [type]. *)
Definition dinode0 : inode := mkInode 0 0 0 0 0 0 0 0 0 (replicate 13 0).
Definition winode (inum : Z) (ip : inode) : M mkst unit :=
  let bn := IBLOCK inum mk_sb in
  buf ← rsect bn;
  wsect bn (dinode_store ip buf (dinode_at inum)).
Definition rinode (inum : Z) : M mkst inode :=
  buf ← rsect (IBLOCK inum mk_sb);
  mret (dinode_load buf (dinode_at inum) dinode0).

Definition ialloc (type : Z) : M mkst Z :=
  inum ← gets freeinode;
  modify (set_freeinode (inum + 1)) ;;
  winode inum (set_isize (xint 0) (set_inlink (i16 (xshort 1)) (set_itype (i16 (xshort type)) dinode0))) ;;
  mret inum.

(** The bits of the bitmap block. *)
Definition balloc_buf (used : Z) : block :=
  foldl (λ buf i, <[Z.to_nat (i / 8) := Z.lor (buf !!! Z.to_nat (i / 8)) (Z.shiftl 1 (i mod 8))]> buf) (replicate 512 0) (seqZ 0 used).
Definition balloc (used : Z) : M mkst unit :=
  if negb (used <? BSIZE * 8) then panic "assert" else
  wsect (sb_bmapstart mk_sb) (balloc_buf used).

(** [freeblock++]. *)
Definition take_block : M mkst Z :=
  b ← gets freeblock; modify (set_freeblock (b + 1)) ;; mret b.

(** The sector of block [fbn] of the file, allocated if need be. *)
Definition append_block (din : inode) (fbn : Z) : M mkst (inode * Z) :=
  if fbn <? NDIRECT then
    let k := Z.to_nat fbn in
    din ← (if xint (iaddrs din !!! k) =? 0 then b ← take_block; mret (set_iaddr k (xint b) din) else mret din);
    mret (din, xint (iaddrs din !!! k))
  else
    let k := Z.to_nat NDIRECT in
    din ← (if xint (iaddrs din !!! k) =? 0 then b ← take_block; mret (set_iaddr k (xint b) din) else mret din);
    let ind := xint (iaddrs din !!! k) in
    let o := (4 * Z.to_nat (fbn - NDIRECT))%nat in
    indirect ← rsect ind;
    indirect ← (if get32 indirect o =? 0 then
                  b ← take_block;
                  let indirect := put32 indirect o (xint b) in
                  wsect ind indirect ;; mret indirect
                else mret indirect);
    mret (din, xint (get32 indirect o)).

(** The loop of [iappend], at offset [off] with the bytes [p] to go. *)
Fixpoint iappend_loop (fuel : nat) (din : inode) (off : Z) (p : bytes) : M mkst (inode * Z) :=
  match fuel with
  | O => diverge
  | S fuel =>
      match p with
      | [] => mret (din, off)
      | _ =>
          let fbn := off / BSIZE in
          if negb (fbn <? MAXFILE) then panic "assert" else
          '(din, x) ← append_block din fbn;
          let n1 := Z.min (Z.of_nat (length p)) ((fbn + 1) * BSIZE - off) in
          buf ← rsect x;
          wsect x (splice buf (Z.to_nat (off - fbn * BSIZE)) (take (Z.to_nat n1) p)) ;;
          iappend_loop fuel din (off + n1) (drop (Z.to_nat n1) p)
      end
  end.
Definition iappend (inum : Z) (p : bytes) : M mkst unit :=
  din ← rinode inum;
  '(din, off) ← iappend_loop (S (length p)) din (xint (isize din)) p;
  winode inum (set_isize (xint off) din).

(** A [struct dirent]. *)
Definition dirent_bytes (inum : Z) (name : bytes) : bytes := le_split 2 (xshort inum) ++ name.
(** [strcpy] of ["."] and [".."] into a zeroed name. *)
Definition dot_name : bytes := 46 :: replicate 13 0.
Definition dotdot_name : bytes := 46 :: 46 :: replicate 12 0.

(** One file: its name, and the pieces that [read] delivers. *)
Definition skip_underscore (name : bytes) : bytes := match name with 95 :: n => n | _ => name end.
Definition add_file (rootino : Z) (f : bytes * list bytes) : M mkst unit :=
  if bool_decide (47 ∈ f.1) then panic "assert" else
  inum ← ialloc T_FILE;
  name ← deref (λ _, strncpy (skip_underscore f.1 ++ [0]) DIRSIZ);
  iappend rootino (dirent_bytes inum name) ;;
  for_each f.2 (iappend inum).

(** [main], from the superblock on: first up to the last file. *)
Definition mkfs_files (files : list (bytes * list bytes)) : M mkst Z :=
  modify (set_freeblock nmeta) ;;
  for_each (seqZ 0 FSSIZE) (λ i, wsect i (replicate 512 0)) ;;
  wsect 1 (splice (replicate 512 0) 0 (sb_bytes mk_sb)) ;;
  rootino ← ialloc T_DIR;
  if negb (rootino =? ROOTINO) then panic "assert" else
  iappend rootino (dirent_bytes rootino dot_name) ;;
  iappend rootino (dirent_bytes rootino dotdot_name) ;;
  for_each files (add_file rootino) ;;
  mret rootino.
Definition mkfs (files : list (bytes * list bytes)) : M mkst unit :=
  rootino ← mkfs_files files;
  din ← rinode rootino;
  let off := (xint (isize din) / BSIZE + 1) * BSIZE in
  winode rootino (set_isize (xint off) din) ;;
  b ← gets freeblock;
  balloc b.
