(* ===== verification/MkfsRep.v ===== *)
(** * The image that mkfs builds

    What the sectors, the inode table and the blocks of each file hold while
    [mkfs] runs: a file is described by its inode, the number of its blocks
    and its bytes, and no block belongs to two files. *)

From S2P Require Export Mkfs.
Local Open Scope Z_scope.

(** ** Fields of an inode in a block *)

(** The fields are in the range of their types. *)
Record fields_ok (p : inode) : Prop := {
  fi_type : 0 ≤ itype p < 2 ^ 15;
  fi_major : imajor p = 0;
  fi_minor : iminor p = 0;
  fi_link : 0 ≤ inlink p < 2 ^ 15;
  fi_size : 0 ≤ isize p < 2 ^ 32;
  fi_len : length (iaddrs p) = 13%nat;
  fi_addr : Forall (λ x, 0 ≤ x < 2 ^ 32) (iaddrs p)
}.

Lemma load_store p d o q :
  fields_ok p → (o + 64 ≤ length d)%nat →
  dinode_load (dinode_store p d o) o q =
    mkInode (idev q) (inum q) (iref q) (valid q) (itype p) (imajor p) (iminor p) (inlink p) (isize p) (iaddrs p).
Proof.
  intros [H1 H2 H3 H4 H5 H6 H7] Hl. pose proof (concat_split_length (iaddrs p)) as Hc. rewrite H6 in Hc.
  unfold dinode_load, dinode_type, dinode_store. f_equal.
  - rewrite get_splice_ne by (rewrite Hc; lia). rewrite !get_put_le_ne by lia. rewrite get_put_le by (lia || apply (Z.mod_pos_bound _ (2 ^ 16)); lia).
    apply i16_u16. lia.
  - rewrite get_splice_ne by (rewrite Hc; lia). rewrite !get_put_le_ne by lia.
    rewrite get_put_le by (rewrite ?put_le_length; lia || apply (Z.mod_pos_bound _ (2 ^ 16)); lia). apply i16_u16. lia.
  - rewrite get_splice_ne by (rewrite Hc; lia). rewrite !get_put_le_ne by lia.
    rewrite get_put_le by (rewrite ?put_le_length; lia || apply (Z.mod_pos_bound _ (2 ^ 16)); lia). apply i16_u16. lia.
  - rewrite get_splice_ne by (rewrite Hc; lia). rewrite !get_put_le_ne by lia.
    rewrite get_put_le by (rewrite ?put_le_length; lia || apply (Z.mod_pos_bound _ (2 ^ 16)); lia). apply i16_u16. lia.
  - rewrite get_splice_ne by (rewrite Hc; lia). by rewrite get_put_le by (rewrite ?put_le_length; done || lia).
  - unfold dinode_addrs. apply list_eq. intros k. rewrite list_lookup_fmap. destruct (decide (k < 13)%nat) as [Hk|Hk].
    + rewrite lookup_seq_lt by done. cbn [fmap option_fmap option_map Nat.add].
      rewrite get_splice_in by (rewrite ?put_le_length, ?Hc; lia). rewrite get32_concat by (done || lia).
      symmetry. apply list_lookup_lookup_total_lt. lia.
    + rewrite lookup_seq_ge by lia. symmetry. apply lookup_ge_None. lia.
Qed.

Lemma load_store_ne p d o o' q :
  length (iaddrs p) = 13%nat → (o' + 64 ≤ o ∨ o + 64 ≤ o')%nat → dinode_load (dinode_store p d o) o' q = dinode_load d o' q.
Proof.
  intros H6 Hd. pose proof (concat_split_length (iaddrs p)) as Hc. rewrite H6 in Hc.
  unfold dinode_load, dinode_type, dinode_store. f_equal; try (rewrite get_splice_ne by (rewrite Hc; lia); by rewrite !get_put_le_ne by lia).
  unfold dinode_addrs. apply list_fmap_ext. intros i k Hk. apply lookup_seq in Hk as [-> Hk]. cbn [Nat.add].
  rewrite get_splice_ne by (rewrite Hc; lia). by rewrite !get_put_le_ne by lia.
Qed.

Lemma dinode_store_length p d o : length (dinode_store p d o) = length d.
Proof. unfold dinode_store. by rewrite splice_length, !put_le_length. Qed.

(** ** The blocks of a file *)

(** Slot [-1] of an inode is its indirect block, slot [k] its block [k]. *)
Definition slot (V : gmap Z block) (p : inode) (k : Z) : Z := if k =? -1 then iaddrs p !!! 12%nat else blk_addr V p k.
Definition slots (n k : Z) : Prop := 0 ≤ k < n ∨ (k = -1 ∧ 12 < n).
(** The number of blocks that [n] blocks of data take. *)
Definition need (n : Z) : Z := n + (if 12 <? n then 1 else 0).
Definition nblk (len : Z) : Z := (len + 511) / 512.

(** The file [p] has [n] blocks, between [nmeta] and [fb], and consists of
    the bytes [data] and zeros to the end of its last block. *)
Record frep (V : gmap Z block) (fb : Z) (p : inode) (n : Z) (data : bytes) : Prop := {
  fr_len : length (iaddrs p) = 13%nat;
  fr_num : Z.of_nat (length data) ≤ n * 512 ∧ 0 ≤ n ≤ 140;
  fr_range : ∀ k, slots n k → nmeta ≤ slot V p k < fb;
  fr_inj : ∀ j k, slots n j → slots n k → slot V p j = slot V p k → j = k;
  fr_ind : n ≤ 12 → iaddrs p !!! 12%nat = 0;
  fr_null : ∀ k, n ≤ k < 140 → (k < 12 ∨ 12 < n) → blk_addr V p k = 0;
  fr_byte : ∀ k, 0 ≤ k < n * 512 → file_byte V p k = default 0 (data !! Z.to_nat k)
}.

(** All sectors are there, and those from [fb] on are still zero. *)
Definition sized (V : gmap Z block) : Prop := ∀ b, 0 ≤ b < FSSIZE → ∃ d, V !! b = Some d ∧ length d = 512%nat.
Definition fresh (V : gmap Z block) (fb : Z) : Prop := ∀ b, fb ≤ b < FSSIZE → V !! b = Some (replicate 512 0).

(** [V'] is [V] below [fb] except in the blocks of [p]. *)
Definition outside (V V' : gmap Z block) (fb : Z) (p : inode) (n : Z) : Prop :=
  ∀ b, b < fb → (∀ k, slots n k → slot V p k ≠ b) → V' !! b = V !! b.

Lemma slots_block n k : 0 ≤ k < n → slots n k.
Proof. by left. Qed.
Lemma slot_block V p k : 0 ≤ k → slot V p k = blk_addr V p k.
Proof. intros H. unfold slot. by rewrite (proj2 (Z.eqb_neq k (-1))) by lia. Qed.
Lemma slot_ind V p : slot V p (-1) = iaddrs p !!! 12%nat.
Proof. done. Qed.

Lemma lookup_total_same (V V' : gmap Z block) b : V' !! b = V !! b → V' !!! b = V !!! b.
Proof. intros H. by rewrite !lookup_total_alt, H. Qed.

Lemma blk_addr_same V V' p k :
  (12 ≤ k → V' !! (iaddrs p !!! 12%nat) = V !! (iaddrs p !!! 12%nat)) → blk_addr V' p k = blk_addr V p k.
Proof.
  intros H. unfold blk_addr. change NDIRECT with 12. destruct (Z.ltb_spec k 12); [done|]. by rewrite (lookup_total_same V V') by auto.
Qed.

(** A change of other blocks keeps the file. *)
Lemma frep_frame V V' fb fb' p n data :
  frep V fb p n data → fb ≤ fb' → (∀ k, slots n k → V' !! slot V p k = V !! slot V p k) →
  frep V' fb' p n data ∧ ∀ k, slots n k → slot V' p k = slot V p k.
Proof.
  intros [H1 H2 H3 H4 H5 H6 H7] Hfb HV.
  assert (∀ k, (k < 12 ∨ 12 < n) → blk_addr V' p k = blk_addr V p k) as Ha.
  { intros k Hk. apply blk_addr_same. intros H. rewrite <- (slot_ind V p). apply HV. right. lia. }
  assert (∀ k, slots n k → slot V' p k = slot V p k) as Hs.
  { intros k Hk. unfold slot. destruct (Z.eqb_spec k (-1)); [done|]. apply Ha. destruct Hk; lia. }
  split; [|done]. split; try done.
  - intros k Hk. rewrite Hs by done. specialize (H3 k Hk). lia.
  - intros j k Hj Hk. rewrite !Hs by done. by apply H4.
  - intros k Hk Hd. rewrite Ha by done. by apply H6.
  - intros k Hk. rewrite <- H7 by done. unfold file_byte, file_block.
    assert (0 ≤ k / BSIZE < n) as Hb.
    { change BSIZE with 512. split; [apply Z.div_pos; lia|apply Z.div_lt_upper_bound; lia]. }
    rewrite Ha by lia. f_equal. apply lookup_total_same. rewrite <- slot_block by lia. by apply HV, slots_block.
Qed.

(** ** One more block *)

(** The file [p] of [n] blocks has one more block in [p'], full of zeros; its
    old blocks are where they were and the new ones are at [fb] and above. *)
Record grows (V : gmap Z block) (fb : Z) (p : inode) (n : Z) (V' : gmap Z block) (fb' : Z) (p' : inode) : Prop := {
  gr_len : length (iaddrs p') = 13%nat;
  gr_fb : fb ≤ fb';
  gr_old : ∀ k, slots n k → slot V' p' k = slot V p k;
  gr_new : ∀ k, slots (n + 1) k → ¬ slots n k → fb ≤ slot V' p' k < fb';
  gr_inj : slots (n + 1) (-1) → ¬ slots n (-1) → slot V' p' (-1) ≠ slot V' p' n;
  gr_ind : n + 1 ≤ 12 → iaddrs p' !!! 12%nat = 0;
  gr_null : ∀ k, n + 1 ≤ k < 140 → (k < 12 ∨ 12 < n + 1) → blk_addr V' p' k = 0;
  gr_same : ∀ k, 0 ≤ k < n → V' !! slot V p k = V !! slot V p k;
  gr_zero : V' !! slot V' p' n = Some (replicate 512 0)
}.

Lemma slots_dec n k : slots n k ∨ ¬ slots n k.
Proof. unfold slots. destruct (decide (0 ≤ k < n)); [tauto|]. destruct (decide (k = -1)); [|tauto]. destruct (decide (12 < n)); tauto. Qed.

Lemma slots_new n k : slots (n + 1) k → ¬ slots n k → 0 ≤ n → k = n ∨ k = -1.
Proof. unfold slots. lia. Qed.

Lemma zeros_byte i : (i < 512)%nat → replicate 512 0 !!! i = (0 : Z).
Proof. intros H. apply list_lookup_total_correct. by apply lookup_replicate_2. Qed.

Lemma frep_grow V fb p n data V' fb' p' :
  frep V fb p n data → nmeta ≤ fb → n < 140 → grows V fb p n V' fb' p' → frep V' fb' p' (n + 1) data.
Proof.
  intros [H1 H2 H3 H4 H5 H6 H7] Hfb Hn [G1 G2 G3 G4 G5 G6 G7 G8 G9].
  assert (∀ j k, slots n j → slots (n + 1) k → ¬ slots n k → slot V' p' j ≠ slot V' p' k) as Hon.
  { intros j k Hj Hk Hk'. rewrite G3 by done. pose proof (H3 j Hj). pose proof (G4 k Hk Hk'). lia. }
  split; [done|lia| | |done|done|].
  - intros k Hk. destruct (slots_dec n k) as [Ho|Ho].
    + rewrite G3 by done. pose proof (H3 k Ho). lia.
    + pose proof (G4 k Hk Ho). lia.
  - intros j k Hj Hk E. destruct (slots_dec n j) as [Hoj|Hoj], (slots_dec n k) as [Hok|Hok].
    + rewrite !G3 in E by done. by apply H4.
    + by destruct (Hon j k Hoj Hk Hok).
    + by destruct (Hon k j Hok Hj Hoj).
    + destruct (slots_new n j Hj Hoj) as [->| ->], (slots_new n k Hk Hok) as [->| ->]; try done; try lia.
      * by destruct (G5 Hk Hok).
      * by destruct (G5 Hj Hoj).
  - intros k Hk. unfold file_byte, file_block. change BSIZE with 512. pose proof (Z.div_mod k 512 ltac:(lia)) as Ek.
    pose proof (Z.mod_pos_bound k 512 ltac:(lia)) as Hm. set (q := k / 512) in *. destruct (decide (q = n)) as [->|Hq].
    + rewrite <- slot_block, (lookup_total_correct _ _ _ G9) by lia. rewrite lookup_ge_None_2 by lia. apply zeros_byte. lia.
    + rewrite <- H7 by lia. unfold file_byte, file_block. change BSIZE with 512. fold q. f_equal.
      rewrite <- !(slot_block _ _ q) by lia. rewrite G3 by (apply slots_block; lia). apply lookup_total_same, G8. lia.
Qed.

Lemma zero_get32 o : get32 (replicate 512 0) o = 0.
Proof.
  unfold get_le. rewrite drop_replicate, take_replicate. induction (4 `min` (512 - o))%nat as [|k IH]; [done|].
  cbn [replicate le_combine]. by rewrite IH.
Qed.

Lemma blk_addr_direct V p k : k < 12 → blk_addr V p k = iaddrs p !!! Z.to_nat k.
Proof. intros H. unfold blk_addr. change NDIRECT with 12. by rewrite (proj2 (Z.ltb_lt _ _)). Qed.
Lemma blk_addr_ind V p k d : 12 ≤ k → V !! (iaddrs p !!! 12%nat) = Some d → blk_addr V p k = get32 d (4 * Z.to_nat (k - 12)).
Proof.
  intros H Hd. unfold blk_addr. change NDIRECT with 12. rewrite (proj2 (Z.ltb_ge _ _)) by done.
  by rewrite (lookup_total_correct _ _ _ Hd).
Qed.

Section Grow.
Context (V : gmap Z block) (fb : Z) (p : inode) (n : Z) (data : bytes).
Context (Hp : frep V fb p n data) (Hs : sized V) (Hf : fresh V fb) (Hfb : nmeta ≤ fb).


(** A direct block. *)
Lemma grow_direct : n < 12 → fb < FSSIZE → grows V fb p n V (fb + 1) (set_iaddr (Z.to_nat n) fb p).
Proof.
  intros Hn Hlt. destruct Hp as [H1 H2 H3 H4 H5 H6 H7].
  assert (∀ k, 0 ≤ k < 12 → blk_addr V (set_iaddr (Z.to_nat n) fb p) k = if decide (k = n) then fb else blk_addr V p k) as Ha.
  { intros k Hk. rewrite !blk_addr_direct by lia. cbn [iaddrs set_iaddr]. case_decide as E.
    - subst k. rewrite list_lookup_total_insert_eq by lia. done.
    - by rewrite list_lookup_total_insert_ne by lia. }
  assert (slot V (set_iaddr (Z.to_nat n) fb p) n = fb) as En.
  { rewrite slot_block, Ha by lia. by rewrite decide_True. }
  split.
  - cbn [iaddrs set_iaddr]. by rewrite length_insert.
  - lia.
  - intros k [Hk|Hk]; [|lia]. rewrite !slot_block, Ha by lia. by rewrite decide_False by lia.
  - intros k Hk Hk'. destruct (slots_new n k Hk Hk') as [->| ->]; [lia|rewrite En; lia|]. destruct Hk; lia.
  - intros [?|?]; lia.
  - intros _. cbn [iaddrs set_iaddr]. rewrite list_lookup_total_insert_ne by lia. by apply H5; lia.
  - intros k Hk [Hd|?]; [|lia]. rewrite Ha, decide_False by lia. apply H6; lia.
  - done.
  - rewrite En. apply Hf. lia.
Qed.

(** The indirect block and the first block it leads to. *)
Lemma grow_indirect :
  n = 12 → fb + 1 < FSSIZE → grows V fb p n (<[fb := put32 (replicate 512 0) 0 (fb + 1)]> V) (fb + 2) (set_iaddr 12 fb p).
Proof.
  intros Hn Hlt. destruct Hp as [H1 H2 H3 H4 H5 H6 H7]. set (V' := <[fb := _]> V). set (p' := set_iaddr 12 fb p).
  assert (iaddrs p' !!! 12%nat = fb) as Ei by (cbn [iaddrs set_iaddr p']; by rewrite list_lookup_total_insert_eq by lia).
  assert (∀ k, 0 ≤ k < 12 → blk_addr V' p' k = blk_addr V p k) as Ha.
  { intros k Hk. rewrite !blk_addr_direct by lia. cbn [iaddrs set_iaddr p']. by rewrite list_lookup_total_insert_ne by lia. }
  assert (∀ k, 12 ≤ k < 140 → blk_addr V' p' k = if decide (k = 12) then fb + 1 else 0) as Hb.
  { intros k Hk. erewrite blk_addr_ind; [|lia|rewrite Ei; apply lookup_insert_eq]. case_decide as E.
    - subst k. change (4 * Z.to_nat (12 - 12))%nat with 0%nat. apply get_put_le; [rewrite length_replicate; lia|].
      change (256 ^ Z.of_nat 4) with (2 ^ 32). change nmeta with 59 in Hfb. change FSSIZE with 1000 in Hlt. lia.
    - rewrite get_put_le_ne by lia. apply zero_get32. }
  assert (slot V' p' n = fb + 1) as En by (rewrite slot_block, Hb by lia; by rewrite decide_True).
  split.
  - cbn [iaddrs set_iaddr p']. by rewrite length_insert.
  - lia.
  - intros k [Hk|Hk]; [|lia]. rewrite !slot_block, Ha by lia. done.
  - intros k Hk Hk'. destruct (slots_new n k Hk Hk') as [->| ->]; [lia|rewrite En; lia|]. rewrite slot_ind, Ei. lia.
  - intros _ _. rewrite En, slot_ind, Ei. lia.
  - lia.
  - intros k Hk _. rewrite Hb, decide_False by lia. done.
  - intros k Hk. pose proof (H3 k (slots_block n k Hk)). unfold V'. by rewrite lookup_insert_ne by lia.
  - rewrite En. unfold V'. rewrite lookup_insert_ne by lia. apply Hf. lia.
Qed.

(** A block that the indirect block leads to. *)
Lemma grow_more d :
  12 < n < 140 → fb < FSSIZE → V !! (iaddrs p !!! 12%nat) = Some d → length d = 512%nat →
  grows V fb p n (<[iaddrs p !!! 12%nat := put32 d (4 * Z.to_nat (n - 12)) fb]> V) (fb + 1) p.
Proof.
  intros Hn Hlt Hd Hl. destruct Hp as [H1 H2 H3 H4 H5 H6 H7]. set (i := iaddrs p !!! 12%nat) in *. set (V' := <[i := _]> V).
  assert (slots n (-1)) as Hi by (right; lia).
  pose proof (H3 (-1) Hi) as Hri. rewrite slot_ind in Hri. fold i in Hri.
  assert (∀ k, 0 ≤ k < 140 → blk_addr V' p k = if decide (k = n) then fb else blk_addr V p k) as Ha.
  { intros k Hk. destruct (decide (k < 12)) as [Hk'|Hk'].
    - rewrite !blk_addr_direct, decide_False by lia. done.
    - erewrite blk_addr_ind; [|lia|apply lookup_insert_eq]. case_decide as E.
      + subst k. apply get_put_le; [lia|]. change (256 ^ Z.of_nat 4) with (2 ^ 32).
        change nmeta with 59 in Hfb. change FSSIZE with 1000 in Hlt. lia.
      + rewrite get_put_le_ne by lia. symmetry. apply blk_addr_ind; [lia|exact Hd]. }
  assert (slot V' p n = fb) as En by (rewrite slot_block, Ha by lia; by rewrite decide_True).
  split.
  - done.
  - lia.
  - intros k [Hk|[-> _]]; [|done]. rewrite !slot_block, Ha, decide_False by lia. done.
  - intros k Hk Hk'. destruct (slots_new n k Hk Hk') as [->| ->]; [lia|rewrite En; lia|done].
  - done.
  - lia.
  - intros k Hk _. rewrite Ha, decide_False by lia. apply H6; lia.
  - intros k Hk. apply lookup_insert_ne. intros E. assert (k = -1); [|lia]. apply H4; [by left|done|]. by rewrite slot_ind.
  - rewrite En. unfold V'. rewrite lookup_insert_ne by lia. apply Hf. lia.
Qed.
End Grow.

(** ** Writing in a block *)

(** [src] stored after the end of the data, in the block it falls in. *)
Lemma frep_write V fb p n data src d :
  frep V fb p n data →
  let fbn := Z.of_nat (length data) / 512 in let o := Z.to_nat (Z.of_nat (length data) mod 512) in
  fbn < n → (o + length src ≤ 512)%nat → V !! blk_addr V p fbn = Some d → length d = 512%nat →
  frep (<[blk_addr V p fbn := splice d o src]> V) fb p n (data ++ src).
Proof.
  intros [H1 H2 H3 H4 H5 H6 H7] fbn o Hn Ho Hd Hl. set (len := Z.of_nat (length data)) in *.
  pose proof (Z.div_mod len 512 ltac:(lia)) as El. pose proof (Z.mod_pos_bound len 512 ltac:(lia)) as Hm. fold fbn in El.
  assert (0 ≤ fbn) as Hfbn by (apply Z.div_pos; lia).
  assert (slots n fbn) as Hsf by (apply slots_block; lia). rewrite <- (slot_block V p fbn) in * by lia.
  set (x := slot V p fbn) in *. set (V' := <[x := _]> V).
  assert (∀ k, (k < 12 ∨ 12 < n) → blk_addr V' p k = blk_addr V p k) as Ha.
  { intros k Hk. apply blk_addr_same. intros Hk'. apply lookup_insert_ne. intros E.
    assert (fbn = -1); [|lia]. apply H4; [done|right; lia|]. by rewrite slot_ind. }
  assert (∀ k, slots n k → slot V' p k = slot V p k) as Hsl.
  { intros k Hk. unfold slot. destruct (Z.eqb_spec k (-1)); [done|]. apply Ha. destruct Hk; lia. }
  split; [done|rewrite length_app; lia| | |done| |].
  - intros k Hk. rewrite Hsl by done. by apply H3.
  - intros j k Hj Hk. rewrite !Hsl by done. by apply H4.
  - intros k Hk Hd'. rewrite Ha by done. by apply H6.
  - intros k Hk. specialize (H7 k Hk). revert H7. unfold file_byte, file_block. change BSIZE with 512.
    pose proof (Z.div_mod k 512 ltac:(lia)) as Ek. pose proof (Z.mod_pos_bound k 512 ltac:(lia)) as Hmk.
    set (q := k / 512) in *. set (r := k mod 512) in *. rewrite Ha by lia. intros H7.
    rewrite <- !(slot_block V p q) in * by lia. destruct (decide (q = fbn)) as [->|Hq].
    + fold x in H7. fold x. rewrite (lookup_total_correct _ _ _ Hd) in H7. unfold V'. rewrite lookup_total_insert_eq. unfold splice.
      rewrite lookup_app. destruct (decide (Z.to_nat r < o)%nat) as [Hr|Hr].
      * rewrite list_lookup_total_alt, list_lookup_inserts_lt, <- list_lookup_total_alt by lia. rewrite H7.
        by destruct (lookup_lt_is_Some_2 data (Z.to_nat k) ltac:(lia)) as [y ->].
      * rewrite lookup_ge_None_2 in * by lia. destruct (decide (Z.to_nat r < o + length src)%nat) as [Hr2|Hr2].
        -- rewrite list_lookup_total_alt, list_lookup_inserts by lia. replace (Z.to_nat k - length data)%nat with (Z.to_nat r - o)%nat by lia.
           destruct (lookup_lt_is_Some_2 src (Z.to_nat r - o)%nat ltac:(lia)) as [y ->]. done.
        -- rewrite list_lookup_total_alt, list_lookup_inserts_ge, <- list_lookup_total_alt by lia. rewrite H7.
           by rewrite lookup_ge_None_2 by lia.
    + assert (slot V p q ≠ x) as Hne. { intros E. apply Hq. apply H4; [apply slots_block; lia|done|done]. }
      unfold V'. rewrite lookup_total_insert_ne by congruence. rewrite H7, lookup_app.
      destruct (decide (q < fbn)) as [Hlt|Hlt].
      * destruct (lookup_lt_is_Some_2 data (Z.to_nat k) ltac:(lia)) as [y ->]. done.
      * rewrite !lookup_ge_None_2 by lia. done.
Qed.
