(* ===== verification/MkfsOps.v ===== *)
(** * Appending to a file of the image *)

From S2P Require Export MkfsRep.
Local Open Scope Z_scope.

Definition with_addrs (l : list Z) (p : inode) : inode :=
  mkInode (idev p) (inum p) (iref p) (valid p) (itype p) (imajor p) (iminor p) (inlink p) (isize p) l.
Lemma with_addrs_id p : with_addrs (iaddrs p) p = p.
Proof. by destruct p. Qed.

Lemma xint_id x : 0 ≤ x < 2 ^ 32 → xint x = x.
Proof. intros H. unfold xint. rewrite le_combine_split. by apply Z.mod_small. Qed.
Lemma xshort_id x : 0 ≤ x < 2 ^ 16 → xshort x = x.
Proof. intros H. unfold xshort. rewrite le_combine_split. by apply Z.mod_small. Qed.

(** All sectors are there; the free ones are zero. *)
Record disk (s : mkst) : Prop := {
  dk_sized : sized (img s);
  dk_fresh : fresh (img s) (freeblock s);
  dk_meta : nmeta ≤ freeblock s
}.

(** From [s] to [s'] the file [p] of [n] blocks has become [p'] of [n']
    blocks, and nothing else has changed below [freeblock]. *)
Record appended (s : mkst) (p : inode) (n : Z) (s' : mkst) (p' : inode) (n' : Z) : Prop := {
  ap_disk : disk s';
  ap_inode : freeinode s' = freeinode s;
  ap_block : freeblock s' = freeblock s + need n' - need n;
  ap_le : n ≤ n';
  ap_addrs : ∃ l, p' = with_addrs l p;
  ap_out : outside (img s) (img s') (freeblock s) p n;
  ap_slots : ∀ k, slots n' k → (slots n k ∧ slot (img s') p' k = slot (img s) p k) ∨ freeblock s ≤ slot (img s') p' k
}.

Lemma need_mono n n' : n ≤ n' → need n ≤ need n'.
Proof. intros H. unfold need. destruct (Z.ltb_spec 12 n), (Z.ltb_spec 12 n'); lia. Qed.

Lemma appended_refl s p n : disk s → appended s p n s p n.
Proof.
  intros H. split; try done; try lia.
  - exists (iaddrs p). by rewrite with_addrs_id.
  - intros k Hk. by left.
Qed.

Lemma appended_trans s1 p1 n1 s2 p2 n2 s3 p3 n3 :
  appended s1 p1 n1 s2 p2 n2 → appended s2 p2 n2 s3 p3 n3 → appended s1 p1 n1 s3 p3 n3.
Proof.
  intros [A1 A2 A3 A4 (l & ->) A6 A7] [B1 B2 B3 B4 (l' & ->) B6 B7]. pose proof (need_mono n1 n2 A4).
  split; try done; try lia.
  - by exists l'.
  - intros b Hb Hout. rewrite B6, A6; [done|done|done|lia|]. intros k Hk E. destruct (A7 k Hk) as [[Hk1 Hs1]|Hge].
    + apply (Hout k Hk1). congruence.
    + lia.
  - intros k Hk. destruct (B7 k Hk) as [[Hk2 Hs2]|Hge].
    + rewrite Hs2. destruct (A7 k Hk2) as [[Hk1 Hs1]|Hge]; [by left|by right].
    + right. lia.
Qed.

Section Rules.
Context (t : bool).
Implicit Types (s : mkst).

Lemma K_rsect s sec d (Q : block → mkst → Prop) : img s !! sec = Some d → Q d s → wpg t (rsect sec) Q s.
Proof. intros H HQ. unfold rsect. apply wpg_bind, wpg_gets. rewrite H. by apply wpg_ret. Qed.
Lemma K_wsect s sec d (Q : unit → mkst → Prop) : Q tt (set_img (<[sec := d]> (img s)) s) → wpg t (wsect sec d) Q s.
Proof. intros HQ. by apply wpg_modify. Qed.
Lemma K_take s (Q : Z → mkst → Prop) : Q (freeblock s) (set_freeblock (freeblock s + 1) s) → wpg t take_block Q s.
Proof. intros HQ. by apply wpg_bind, wpg_gets, wpg_bind, wpg_modify, wpg_ret. Qed.

(** What a grown file means for the image. *)
Lemma grows_appended s p n data V' fb' p' :
  frep (img s) (freeblock s) p n data → disk s → n < 140 → grows (img s) (freeblock s) p n V' fb' p' →
  fb' = freeblock s + need (n + 1) - need n → (∃ l, p' = with_addrs l p) →
  outside (img s) V' (freeblock s) p n → sized V' → fresh V' fb' →
  appended s p n (set_freeblock fb' (set_img V' s)) p' (n + 1) ∧ frep V' fb' p' (n + 1) data.
Proof.
  intros Hp [D1 D2 D3] Hn Hg Hfb Hl Hout Hs Hf. split; [|by eapply frep_grow].
  split; try done; cbn.
  - split; cbn; [done|done|]. pose proof (gr_fb _ _ _ _ _ _ _ Hg). lia.
  - lia.
  - intros k Hk. destruct (slots_dec n k) as [Ho|Ho].
    + left. split; [done|]. by apply (gr_old _ _ _ _ _ _ _ Hg).
    + right. pose proof (gr_new _ _ _ _ _ _ _ Hg k Hk Ho). lia.
Qed.

Lemma sized_insert V b d : sized V → length d = 512%nat → sized (<[b := d]> V).
Proof.
  intros Hs Hl b' Hb'. destruct (decide (b' = b)) as [->|].
  - rewrite lookup_insert_eq. eauto.
  - rewrite lookup_insert_ne by done. by apply Hs.
Qed.
Lemma fresh_insert V b d fb fb' : fresh V fb → fb ≤ fb' → b < fb' → fresh (<[b := d]> V) fb'.
Proof. intros Hf Hle Hb b' Hb'. rewrite lookup_insert_ne by lia. apply Hf. lia. Qed.
Lemma outside_insert V b d fb p n : (fb ≤ b ∨ ∃ k, slots n k ∧ slot V p k = b) → outside V (<[b := d]> V) fb p n.
Proof.
  intros H b' Hb' Hk. apply lookup_insert_ne. intros ->. destruct H as [?|(k & Hk1 & Hk2)]; [lia|by apply (Hk k)].
Qed.

Lemma set_img_id s : set_img (img s) s = s.
Proof. by destruct s. Qed.

Lemma slot_xint V fb p n data k : frep V fb p n data → fb ≤ FSSIZE → slots n k →
  xint (slot V p k) = slot V p k ∧ 59 ≤ slot V p k < fb.
Proof.
  intros Hp Hf Hk. pose proof (fr_range _ _ _ _ _ Hp k Hk) as Hr. change nmeta with 59 in Hr. change FSSIZE with 1000 in Hf.
  split; [apply xint_id; lia|done].
Qed.
Lemma addr_xint V fb p n data k : frep V fb p n data → fb ≤ FSSIZE → 0 ≤ k < n →
  xint (blk_addr V p k) = blk_addr V p k ∧ 59 ≤ blk_addr V p k < fb.
Proof. intros Hp Hf Hk. rewrite <- (slot_block V p k) by lia. eapply slot_xint; [done..|]. by left. Qed.
Lemma free_xint s x : disk s → freeblock s ≤ x < FSSIZE → xint x = x.
Proof. intros HD Hx. pose proof (dk_meta _ HD) as H. change nmeta with 59 in H. change FSSIZE with 1000 in Hx. apply xint_id. lia. Qed.

Section Append.
Context (s : mkst) (p : inode) (n : Z) (data : bytes) (Q : inode * Z → mkst → Prop).
Context (Hp : frep (img s) (freeblock s) p n data) (HD : disk s) (Hfs : freeblock s ≤ FSSIZE).

(** A block that the file has. *)
Lemma K_append_old fbn : 0 ≤ fbn < n → Q (p, blk_addr (img s) p fbn) s → wpg t (append_block p fbn) Q s.
Proof.
  intros Hfbn HQ. destruct (addr_xint _ _ _ _ _ fbn Hp Hfs Hfbn) as [Hx Hr].
  unfold append_block. change NDIRECT with 12. destruct (Z.ltb_spec fbn 12) as [Hd|Hd].
  - rewrite <- (blk_addr_direct (img s)), Hx by lia. rewrite (proj2 (Z.eqb_neq _ 0)) by lia.
    apply wpg_bind, wpg_ret. rewrite <- (blk_addr_direct (img s)), Hx by lia. by apply wpg_ret.
  - change (Z.to_nat 12) with 12%nat. assert (slots n (-1)) as Hi by (right; lia).
    destruct (slot_xint _ _ _ _ _ (-1) Hp Hfs Hi) as [Hxi Hri]. rewrite slot_ind in Hxi, Hri. set (i := iaddrs p !!! 12%nat) in *.
    destruct (dk_sized _ HD i ltac:(lia)) as (d & Hdd & Hdl). cbv zeta. rewrite Hxi, (proj2 (Z.eqb_neq _ 0)) by lia.
    apply wpg_bind, wpg_ret. fold i. rewrite Hxi. apply wpg_bind. eapply K_rsect; [exact Hdd|].
    rewrite <- (blk_addr_ind (img s) p fbn d) by done. rewrite (proj2 (Z.eqb_neq _ 0)) by lia. apply wpg_bind, wpg_ret.
    rewrite <- (blk_addr_ind (img s) p fbn d), Hx by done. by apply wpg_ret.
Qed.

Context (HQ : ∀ s' p', appended s p n s' p' (n + 1) → frep (img s') (freeblock s') p' (n + 1) data →
  Q (p', blk_addr (img s') p' n) s').
Context (Hn : n < 140) (Hspace : freeblock s + need (n + 1) - need n ≤ FSSIZE).

(** A direct block, the indirect block, a block in the indirect block. *)
Lemma K_append_direct : n < 12 → wpg t (append_block p n) Q s.
Proof.
  intros Hd. pose proof (fr_num _ _ _ _ _ Hp) as Hnum. pose proof (fr_len _ _ _ _ _ Hp) as Hlen.
  assert (need (n + 1) - need n = 1) as Hnd. { unfold need. rewrite !(proj2 (Z.ltb_ge _ _)) by lia. lia. }
  unfold append_block. change NDIRECT with 12. rewrite (proj2 (Z.ltb_lt _ _)) by done. cbv zeta.
  rewrite <- (blk_addr_direct (img s) p n), (fr_null _ _ _ _ _ Hp) by lia. change (xint 0 =? 0) with true. cbv iota.
  apply wpg_bind, wpg_bind, K_take, wpg_ret, wpg_ret. rewrite (free_xint s (freeblock s)) by (done || lia).
  pose proof (grow_direct _ _ _ _ _ Hp (dk_fresh _ HD) Hd ltac:(lia)) as Hg.
  destruct (grows_appended s p n data _ _ _ Hp HD ltac:(lia) Hg) as [HA HF]; [lia|by eexists|done|apply HD| |].
  { intros b Hb. apply (dk_fresh _ HD). lia. }
  rewrite set_img_id in HA. specialize (HQ _ _ HA HF). rewrite <- (blk_addr_direct (img s)) by lia.
  destruct (addr_xint _ _ _ _ _ n HF ltac:(lia) ltac:(lia)) as [-> _]. exact HQ.
Qed.

Lemma K_append_twelve : n = 12 → wpg t (append_block p n) Q s.
Proof.
  intros En. pose proof (fr_len _ _ _ _ _ Hp) as Hlen. rewrite En in Hspace.
  change (need (12 + 1)) with 14 in Hspace. change (need 12) with 12 in Hspace.
  unfold append_block. change NDIRECT with 12. rewrite (proj2 (Z.ltb_ge _ _)) by lia. change (Z.to_nat 12) with 12%nat. cbv zeta.
  rewrite (fr_ind _ _ _ _ _ Hp) by lia. change (xint 0 =? 0) with true. cbv iota.
  apply wpg_bind, wpg_bind, K_take, wpg_ret. cbv beta zeta. rewrite (free_xint s (freeblock s)) by (done || lia). cbn [iaddrs set_iaddr].
  rewrite list_lookup_total_insert_eq by lia. rewrite (free_xint s (freeblock s)) by (done || lia). assert ((4 * Z.to_nat (n - 12))%nat = 0%nat) as E0 by lia. rewrite !E0.
  apply wpg_bind. eapply K_rsect; [cbn; apply (dk_fresh _ HD); lia|]. rewrite zero_get32. change (0 =? 0) with true. cbv iota.
  apply wpg_bind, wpg_bind, K_take. cbv beta zeta. cbn [freeblock set_freeblock]. rewrite (free_xint s (freeblock s + 1)) by (done || lia).
  apply wpg_bind, K_wsect, wpg_ret, wpg_ret. cbn [set_img set_freeblock img freeinode freeblock].
  pose proof (grow_indirect _ _ _ _ _ Hp (dk_fresh _ HD) (dk_meta _ HD) En ltac:(lia)) as Hg.
  destruct (grows_appended s p n data _ _ _ Hp HD ltac:(lia) Hg) as [HA HF].
  - rewrite En. change (need (12 + 1)) with 14. change (need 12) with 12. lia.
  - by eexists.
  - apply outside_insert. by left.
  - apply sized_insert; [apply HD|]. by rewrite put_le_length, length_replicate.
  - eapply fresh_insert; [apply HD|lia|lia].
  - specialize (HQ _ _ HA HF). destruct (addr_xint _ _ _ _ _ n HF ltac:(lia) ltac:(lia)) as [Hx _].
    assert (∀ d V, blk_addr (<[freeblock s := d]> V) (set_iaddr 12 (freeblock s) p) n = get32 d (4 * Z.to_nat (n - 12))) as Hb.
    { intros d V. apply blk_addr_ind; [lia|]. cbn [iaddrs set_iaddr]. rewrite list_lookup_total_insert_eq by lia. apply lookup_insert_eq. }
    cbn [set_img set_freeblock img freeinode freeblock] in HQ. rewrite Hb in HQ, Hx.
    rewrite E0 in HQ, Hx. rewrite Hx.
    replace (freeblock s + 1 + 1) with (freeblock s + 2) by lia. exact HQ.
Qed.

Lemma K_append_more : 12 < n → wpg t (append_block p n) Q s.
Proof.
  intros Hgt. assert (slots n (-1)) as Hi by (right; lia). destruct (slot_xint _ _ _ _ _ (-1) Hp Hfs Hi) as [Hxi Hri].
  assert (need (n + 1) - need n = 1) as Hnd. { unfold need. rewrite !(proj2 (Z.ltb_lt _ _)) by lia. lia. }
  unfold append_block. change NDIRECT with 12. rewrite (proj2 (Z.ltb_ge _ _)) by lia. change (Z.to_nat 12) with 12%nat. cbv zeta.
  rewrite slot_ind in Hxi, Hri. set (i := iaddrs p !!! 12%nat) in *.
  destruct (dk_sized _ HD i ltac:(lia)) as (d & Hdd & Hdl). rewrite Hxi, (proj2 (Z.eqb_neq _ 0)) by lia.
  apply wpg_bind, wpg_ret. fold i. rewrite Hxi. apply wpg_bind. eapply K_rsect; [exact Hdd|].
  rewrite <- (blk_addr_ind (img s) p n d) by (done || lia). rewrite (fr_null _ _ _ _ _ Hp) by lia. change (0 =? 0) with true. cbv iota.
  apply wpg_bind, wpg_bind, K_take. cbv beta zeta. rewrite (free_xint s (freeblock s)) by (done || lia).
  apply wpg_bind, K_wsect, wpg_ret, wpg_ret. cbn [set_img set_freeblock img freeinode freeblock].
  pose proof (grow_more _ _ _ _ _ Hp (dk_fresh _ HD) (dk_meta _ HD) d ltac:(lia) ltac:(lia) Hdd Hdl) as Hg. fold i in Hg.
  destruct (grows_appended s p n data _ _ _ Hp HD ltac:(lia) Hg) as [HA HF].
  - lia.
  - exists (iaddrs p). by rewrite with_addrs_id.
  - apply outside_insert. right. by exists (-1).
  - apply sized_insert; [apply HD|]. by rewrite put_le_length.
  - eapply fresh_insert; [apply HD|lia|lia].
  - specialize (HQ _ _ HA HF). destruct (addr_xint _ _ _ _ _ n HF ltac:(lia) ltac:(lia)) as [Hx _].
    cbn [set_img set_freeblock img freeinode freeblock] in HQ.
    assert (∀ d V, blk_addr (<[i := d]> V) p n = get32 d (4 * Z.to_nat (n - 12))) as Hb.
    { intros d' V. apply blk_addr_ind; [lia|]. apply lookup_insert_eq. }
    rewrite Hb in HQ, Hx. rewrite Hx. exact HQ.
Qed.
End Append.

(** The block [fbn] of the file, with a new block when [fbn = n]. *)
Lemma K_append s p n data fbn (Q : inode * Z → mkst → Prop) :
  frep (img s) (freeblock s) p n data → disk s → 0 ≤ fbn ≤ n → fbn < 140 →
  freeblock s + need (Z.max n (fbn + 1)) - need n ≤ FSSIZE →
  (∀ s' p', appended s p n s' p' (Z.max n (fbn + 1)) → frep (img s') (freeblock s') p' (Z.max n (fbn + 1)) data →
     Q (p', blk_addr (img s') p' fbn) s') →
  wpg t (append_block p fbn) Q s.
Proof.
  intros Hp HD Hfbn Hmax Hspace HQ. pose proof (need_mono n (Z.max n (fbn + 1)) ltac:(lia)).
  destruct (decide (fbn = n)) as [->|Hne].
  - replace (Z.max n (n + 1)) with (n + 1) in * by lia. destruct (Z.lt_trichotomy n 12) as [Hd|[Hd|Hd]].
    + eapply K_append_direct; first [done|lia].
    + eapply K_append_twelve; first [done|lia].
    + eapply K_append_more; first [done|lia].
  - replace (Z.max n (fbn + 1)) with n in * by lia. eapply K_append_old; [done|done|lia|lia|].
    apply HQ; [by apply appended_refl|done].
Qed.

(** A store in a block of the file. *)
Lemma write_appended s p n data x d :
  frep (img s) (freeblock s) p n data → disk s → length d = 512%nat → 0 ≤ x < n →
  (∀ k, slots n k → slot (<[blk_addr (img s) p x := d]> (img s)) p k = slot (img s) p k) →
  appended s p n (set_img (<[blk_addr (img s) p x := d]> (img s)) s) p n.
Proof.
  intros Hp [D1 D2 D3] Hl Hx Hs. pose proof (slots_block n x Hx) as Hsx. pose proof (fr_range _ _ _ _ _ Hp x Hsx) as Hr.
  rewrite slot_block in Hr by lia. split; try done; try lia.
  - split; cbn [img set_img freeblock]; [by apply sized_insert|eapply fresh_insert; [done|lia|lia]|done].
  - cbn. lia.
  - exists (iaddrs p). by rewrite with_addrs_id.
  - apply outside_insert. right. exists x. split; [done|]. apply slot_block; lia.
  - intros k Hk. left. split; [done|]. by apply Hs.
Qed.

Lemma nblk_step len c : 0 ≤ len → 0 < c ≤ 512 - len mod 512 → nblk (len + c) = len / 512 + 1 ∧ Z.max (nblk len) (len / 512 + 1) = len / 512 + 1 ∧ len / 512 ≤ nblk len.
Proof.
  intros Hl Hc. unfold nblk. pose proof (Z.div_mod len 512 ltac:(lia)) as E. pose proof (Z.mod_pos_bound len 512 ltac:(lia)) as Hm.
  set (q := len / 512) in *. set (r := len mod 512) in *. clearbody q r. subst len.
  replace (512 * q + r + c + 511) with ((q + 1) * 512 + (r + c - 1)) by lia. rewrite Z.div_add_l, (Z.div_small (r + c - 1)) by lia.
  replace (512 * q + r + 511) with (q * 512 + (r + 511)) by lia. rewrite Z.div_add_l by lia.
  assert (0 ≤ (r + 511) / 512 ≤ 1); [|lia]. split; [apply Z.div_pos; lia|]. apply Z.lt_succ_r, Z.div_lt_upper_bound; lia.
Qed.

Lemma nblk_mono a b : a ≤ b → nblk a ≤ nblk b.
Proof. intros H. apply Z.div_le_mono; lia. Qed.
Lemma nblk_nonneg a : 0 ≤ a → 0 ≤ nblk a.
Proof. intros H. apply Z.div_pos; lia. Qed.

Lemma match_cons {A} (l : bytes) (x y : A) : l ≠ [] → match l with [] => x | _ => y end = y.
Proof. by destruct l. Qed.

(** The loop of [iappend] appends all of [src]. *)
Lemma K_iappend_loop fuel : ∀ s p data src (Q : inode * Z → mkst → Prop),
  let len := Z.of_nat (length data) in let len' := len + Z.of_nat (length src) in
  frep (img s) (freeblock s) p (nblk len) data → disk s → len' ≤ 71680 →
  freeblock s + need (nblk len') - need (nblk len) ≤ FSSIZE → (length src < fuel)%nat →
  (∀ s' p', appended s p (nblk len) s' p' (nblk len') → frep (img s') (freeblock s') p' (nblk len') (data ++ src) → Q (p', len') s') →
  wpg t (iappend_loop fuel p len src) Q s.
Proof.
  induction fuel as [|fuel IH]; intros s p data src Q len len' Hp HD Hmax Hspace Hfu HQ; [lia|]. cbn [iappend_loop].
  destruct (decide (src = [])) as [->|Hne].
  { assert (len' = len) as E by (unfold len'; cbn; lia). rewrite E in *. rewrite app_nil_r in HQ. apply wpg_ret, HQ; [by apply appended_refl|done]. }
  rewrite (match_cons src) by done. assert (0 < length src)%nat as Hpos by (destruct src; [done|cbn; lia]).
  change BSIZE with 512. change MAXFILE with 140. set (fbn := len / 512).
  pose proof (Z.div_mod len 512 ltac:(lia)) as El. pose proof (Z.mod_pos_bound len 512 ltac:(lia)) as Hm. fold fbn in El.
  assert (0 ≤ fbn) as Hfbn by (apply Z.div_pos; lia). assert (fbn < 140) as Hfbn2 by lia.
  rewrite (proj2 (Z.ltb_lt _ _)) by done. cbn [negb]. cbv zeta. set (n1 := Z.min _ _).
  assert (0 < n1 ≤ 512 - len mod 512) as Hn1 by lia.
  destruct (nblk_step len n1 ltac:(lia) Hn1) as (En & Emax & Hle). fold fbn in En, Emax, Hle.
  pose proof (need_mono _ _ (nblk_mono (len + n1) len' ltac:(lia))) as Hneed. rewrite En in Hneed.
  apply wpg_bind. eapply K_append; [exact Hp|exact HD|lia|done|rewrite Emax; lia|]. rewrite Emax.
  intros s1 p1 HA1 HF1. pose proof (ap_disk _ _ _ _ _ _ HA1) as HD1. pose proof (ap_block _ _ _ _ _ _ HA1) as Hfb1.
  pose proof (fr_range _ _ _ _ _ HF1 fbn ltac:(apply slots_block; lia)) as Hr. rewrite slot_block in Hr by lia. change nmeta with 59 in Hr.
  destruct (dk_sized _ HD1 (blk_addr (img s1) p1 fbn) ltac:(lia)) as (d & Hd & Hdl).
  apply wpg_bind. eapply K_rsect; [exact Hd|]. apply wpg_bind, K_wsect.
  replace (len - fbn * 512) with (len mod 512) by lia.
  assert (length (take (Z.to_nat n1) src) = Z.to_nat n1) as Hlt by (rewrite length_take; lia).
  pose proof (frep_write _ _ _ _ _ (take (Z.to_nat n1) src) d HF1) as HF2. fold len fbn in HF2. cbv zeta in HF2.
  specialize (HF2 ltac:(lia) ltac:(lia) Hd Hdl). set (d2 := splice _ _ _) in *.
  assert (length d2 = 512%nat) as Hd2 by (unfold d2; by rewrite splice_length). clearbody d2.
  assert (appended s1 p1 (fbn + 1) (set_img (<[blk_addr (img s1) p1 fbn := d2]> (img s1)) s1) p1 (fbn + 1)) as HA2.
  { eapply write_appended; [exact HF1|done|done|lia|]. intros k Hk. unfold slot. destruct (Z.eqb_spec k (-1)); [done|].
    apply blk_addr_same. intros Hk12. apply lookup_insert_ne. intros E. assert (fbn = -1); [|lia].
    apply (fr_inj _ _ _ _ _ HF1); [apply slots_block; lia|right; destruct Hk; lia|]. by rewrite slot_block by lia. }
  set (s2 := set_img _ s1) in *. pose proof (appended_trans _ _ _ _ _ _ _ _ _ HA1 HA2) as HA.
  set (data2 := data ++ take (Z.to_nat n1) src) in *.
  assert (Z.of_nat (length data2) = len + n1) as Hl2 by (unfold data2; rewrite length_app; lia).
  rewrite <- Hl2. assert (length (drop (Z.to_nat n1) src) = (length src - Z.to_nat n1)%nat) as Hld by apply length_drop.
  assert (Z.of_nat (length data2) + Z.of_nat (length (drop (Z.to_nat n1) src)) = len') as Hl3 by lia.
  apply IH; rewrite ?Hl3, ?Hl2, ?En; try done; try lia.
  - by apply HA.
  - change (freeblock s2) with (freeblock s1). lia.
  - intros s' p' HA3 HF3. apply HQ.
    + by eapply appended_trans.
    + unfold data2 in HF3. by rewrite <- app_assoc, take_drop in HF3.
Qed.
End Rules.
