(* ===== verification/MkfsImage.v ===== *)
(** * The inode table of the image

    The image as a list of files; [ialloc] adds an empty one and [iappend]
    extends one. *)

From S2P Require Export MkfsOps.
Local Open Scope Z_scope.

(** Inode [n] as [rinode] reads it. *)
Definition ino_at (V : gmap Z block) (n : Z) : inode := dinode_load (V !!! IBLOCK n mk_sb) (dinode_at n) dinode0.

(** Inode [n] is a file of type [ty] with one link and the bytes [data]. *)
Record node (V : gmap Z block) (fb n ty : Z) (data : bytes) : Prop := {
  nd_type : itype (ino_at V n) = ty;
  nd_numbers : imajor (ino_at V n) = 0 ∧ iminor (ino_at V n) = 0;
  nd_link : inlink (ino_at V n) = 1;
  nd_size : isize (ino_at V n) = Z.of_nat (length data);
  nd_rep : frep V fb (ino_at V n) (nblk (Z.of_nat (length data))) data
}.

(** The slots of a file of these bytes, and the number of blocks of all files. *)
Abbreviation data_slots := (λ data : bytes, slots (nblk (Z.of_nat (length data)))).
Definition blocks_of (f : Z * bytes) : Z := need (nblk (Z.of_nat (length f.2))).
Fixpoint total (nds : list (Z * bytes)) : Z := match nds with [] => 0 | f :: nds => blocks_of f + total nds end.

(** The image holds the files [nds]: file [i] is inode [i + 1]. *)
Record image (s : mkst) (nds : list (Z * bytes)) : Prop := {
  im_disk : disk s;
  im_next : freeinode s = 1 + Z.of_nat (length nds);
  im_max : (length nds ≤ 207)%nat;
  im_types : ∀ i ty data, nds !! i = Some (ty, data) → 0 ≤ ty < 2 ^ 15;
  im_node : ∀ i ty data, nds !! i = Some (ty, data) → node (img s) (freeblock s) (1 + Z.of_nat i) ty data;
  im_disj : ∀ i j f g a b, i ≠ j → nds !! i = Some f → nds !! j = Some g → data_slots f.2 a → data_slots g.2 b →
    slot (img s) (ino_at (img s) (1 + Z.of_nat i)) a ≠ slot (img s) (ino_at (img s) (1 + Z.of_nat j)) b;
  im_free : ∀ n, freeinode s ≤ n < 208 → itype (ino_at (img s) n) = 0;
  im_block : freeblock s = nmeta + total nds
}.

Lemma files_total_app l l' : total (l ++ l') = total l + total l'.
Proof. induction l as [|x l IH]; cbn; [done|]. rewrite IH. lia. Qed.
Lemma files_total_insert nds : ∀ i f g, nds !! i = Some f → total (<[i := g]> nds) = total nds + blocks_of g - blocks_of f.
Proof.
  induction nds as [|x nds IH]; intros [|i] f g Hi; [done..| |].
  - injection Hi as ->. cbn. lia.
  - change (<[S i := g]> (x :: nds)) with (x :: <[i := g]> nds). cbn [total]. rewrite (IH i f g Hi). lia.
Qed.
Lemma files_total_nonneg nds : 0 ≤ total nds.
Proof.
  induction nds as [|x nds IH]; cbn; [done|]. unfold blocks_of, need. pose proof (nblk_nonneg (Z.of_nat (length x.2)) ltac:(lia)).
  destruct (_ <? _); lia.
Qed.

(** ** The sectors of the inode table *)

Lemma iblock n : 0 ≤ n < 208 → 32 ≤ IBLOCK n mk_sb < 58.
Proof.
  intros Hn. unfold IBLOCK. change (sb_inodestart mk_sb) with 32. change IPB with 8. pose proof (Z.div_pos n 8).
  assert (n / 8 < 26) by (apply Z.div_lt_upper_bound; lia). lia.
Qed.
Lemma dinode_at_fits n : (dinode_at n + 64 ≤ 512)%nat.
Proof. unfold dinode_at. change IPB with 8. pose proof (Z.mod_pos_bound n 8 ltac:(lia)). lia. Qed.
Lemma dinode_at_ne n m : IBLOCK n mk_sb = IBLOCK m mk_sb → n ≠ m → (dinode_at m + 64 ≤ dinode_at n ∨ dinode_at n + 64 ≤ dinode_at m)%nat.
Proof.
  unfold IBLOCK, dinode_at. change IPB with 8. intros E Hne. pose proof (Z.mod_pos_bound n 8 ltac:(lia)).
  pose proof (Z.mod_pos_bound m 8 ltac:(lia)). pose proof (Z.div_mod n 8). pose proof (Z.div_mod m 8). lia.
Qed.

(** The same inode, whatever the fields that are not on the disk. *)
Definition on_disk (p q : inode) : Prop :=
  itype p = itype q ∧ imajor p = imajor q ∧ iminor p = iminor q ∧ inlink p = inlink q ∧ isize p = isize q ∧ iaddrs p = iaddrs q.

Lemma ino_write V n p d :
  fields_ok p → length d = 512%nat → on_disk (ino_at (<[IBLOCK n mk_sb := dinode_store p d (dinode_at n)]> V) n) p.
Proof.
  intros Hp Hl. unfold ino_at. rewrite lookup_total_insert_eq, load_store by (done || rewrite Hl; apply dinode_at_fits). by split_and!.
Qed.
Lemma ino_write_ne V n m p d :
  fields_ok p → V !! IBLOCK n mk_sb = Some d → n ≠ m →
  ino_at (<[IBLOCK n mk_sb := dinode_store p d (dinode_at n)]> V) m = ino_at V m.
Proof.
  intros Hp Hd Hne. unfold ino_at. destruct (decide (IBLOCK n mk_sb = IBLOCK m mk_sb)) as [E|E].
  - rewrite <- E, lookup_total_insert_eq, (lookup_total_correct _ _ _ Hd). apply load_store_ne; [apply Hp|].
    by apply dinode_at_ne.
  - by rewrite lookup_total_insert_ne.
Qed.
Lemma ino_at_same V V' n : V' !! IBLOCK n mk_sb = V !! IBLOCK n mk_sb → ino_at V' n = ino_at V n.
Proof. intros E. unfold ino_at. by rewrite (lookup_total_same V V'). Qed.

Lemma slot_ext V p q k : iaddrs p = iaddrs q → slot V p k = slot V q k.
Proof. intros E. unfold slot. by rewrite (addr_ext V p q k E), E. Qed.
Lemma frep_ext V fb p q n data : iaddrs p = iaddrs q → frep V fb p n data → frep V fb q n data.
Proof.
  intros E [H1 H2 H3 H4 H5 H6 H7]. split; rewrite <- ?E; try done.
  - intros k. rewrite <- (slot_ext V p q k E). apply H3.
  - intros j k. rewrite <- !(slot_ext V p q _ E). apply H4.
  - intros k. rewrite <- (addr_ext V p q k E). apply H6.
  - intros k. rewrite <- (byte_ext V p q k E). apply H7.
Qed.

(** The addresses of a file are those of sectors. *)
Lemma frep_addrs V fb p n data : frep V fb p n data → fb ≤ FSSIZE → Forall (λ x, 0 ≤ x < 2 ^ 32) (iaddrs p).
Proof.
  intros Hp Hf. change FSSIZE with 1000 in Hf. pose proof (fr_len _ _ _ _ _ Hp) as Hl. pose proof (fr_num _ _ _ _ _ Hp) as Hn.
  apply Forall_lookup. intros k x Hk. pose proof (lookup_lt_Some _ _ _ Hk) as Hlt.
  apply list_lookup_total_correct in Hk. subst x. change nmeta with 59 in *.
  destruct (decide (k = 12%nat)) as [->|Hne].
  - destruct (decide (n ≤ 12)) as [H12|H12]; [rewrite (fr_ind _ _ _ _ _ Hp) by done; lia|].
    pose proof (fr_range _ _ _ _ _ Hp (-1) ltac:(right; lia)) as Hr. rewrite slot_ind in Hr. change nmeta with 59 in Hr. lia.
  - replace k with (Z.to_nat (Z.of_nat k)) by lia. rewrite <- (blk_addr_direct V p) by lia. destruct (decide (Z.of_nat k < n)) as [Hkn|Hkn].
    + pose proof (fr_range _ _ _ _ _ Hp (Z.of_nat k) ltac:(left; lia)) as Hr. rewrite slot_block in Hr by lia. change nmeta with 59 in Hr. lia.
    + rewrite (fr_null _ _ _ _ _ Hp) by lia. lia.
Qed.

Section Image.
Context (t : bool).
Implicit Types (s : mkst).

Lemma K_winode s n p (Q : unit → mkst → Prop) :
  disk s → 0 ≤ n < 208 →
  (∀ d, img s !! IBLOCK n mk_sb = Some d → length d = 512%nat →
     Q tt (set_img (<[IBLOCK n mk_sb := dinode_store p d (dinode_at n)]> (img s)) s)) →
  wpg t (winode n p) Q s.
Proof.
  intros HD Hn HQ. pose proof (iblock n Hn) as Hb. destruct (dk_sized _ HD (IBLOCK n mk_sb)) as (d & Hd & Hl); [change FSSIZE with 1000; lia|].
  unfold winode. apply wpg_bind. eapply K_rsect; [exact Hd|]. apply K_wsect. by apply HQ.
Qed.
Lemma K_rinode s n (Q : inode → mkst → Prop) : disk s → 0 ≤ n < 208 → Q (ino_at (img s) n) s → wpg t (rinode n) Q s.
Proof.
  intros HD Hn HQ. pose proof (iblock n Hn) as Hb. destruct (dk_sized _ HD (IBLOCK n mk_sb)) as (d & Hd & Hl); [change FSSIZE with 1000; lia|].
  unfold rinode. apply wpg_bind. eapply K_rsect; [exact Hd|]. apply wpg_ret. unfold ino_at in HQ.
  by rewrite (lookup_total_correct _ _ _ Hd) in HQ.
Qed.

(** The image after a change of the file [i]. *)
Lemma image_update s s' nds i ty data data' :
  image s nds → nds !! i = Some (ty, data) →
  disk s' → freeinode s' = freeinode s →
  freeblock s' = freeblock s + blocks_of (ty, data') - blocks_of (ty, data) →
  freeblock s ≤ freeblock s' →
  node (img s') (freeblock s') (1 + Z.of_nat i) ty data' →
  (∀ n, 0 ≤ n < 208 → n ≠ 1 + Z.of_nat i → ino_at (img s') n = ino_at (img s) n) →
  (∀ b, 59 ≤ b < freeblock s → (∀ k, data_slots data k → slot (img s) (ino_at (img s) (1 + Z.of_nat i)) k ≠ b) → img s' !! b = img s !! b) →
  (∀ k, data_slots data' k → (data_slots data k ∧ slot (img s') (ino_at (img s') (1 + Z.of_nat i)) k = slot (img s) (ino_at (img s) (1 + Z.of_nat i)) k)
     ∨ freeblock s ≤ slot (img s') (ino_at (img s') (1 + Z.of_nat i)) k) →
  image s' (<[i := (ty, data')]> nds).
Proof.
  intros Him Hi HD Hfi Hfb Hle Hnode Hino Hout Hsl. pose proof (lookup_lt_Some _ _ _ Hi) as Hlt. pose proof (im_max _ _ Him) as Hmax.
  assert (∀ j f, j ≠ i → nds !! j = Some f → (1 + Z.of_nat j < 208) ∧ ino_at (img s') (1 + Z.of_nat j) = ino_at (img s) (1 + Z.of_nat j) ∧
    node (img s') (freeblock s') (1 + Z.of_nat j) f.1 f.2 ∧
    ∀ k, data_slots f.2 k → slot (img s') (ino_at (img s') (1 + Z.of_nat j)) k = slot (img s) (ino_at (img s) (1 + Z.of_nat j)) k) as Hother.
  { intros j [tj dj] Hj Hf. cbn [Datatypes.fst snd]. pose proof (lookup_lt_Some _ _ _ Hf) as Hltj.
    assert (1 + Z.of_nat j < 208) as Hj208 by lia. split; [done|].
    pose proof (Hino (1 + Z.of_nat j) ltac:(lia) ltac:(lia)) as E. destruct (im_node _ _ Him j tj dj Hf) as [N1 N2 N3 N4 N5].
    destruct (frep_frame (img s) (img s') (freeblock s) (freeblock s') _ _ _ N5 Hle) as [F1 F2].
    { intros k Hk. apply Hout.
      - pose proof (fr_range _ _ _ _ _ N5 k Hk) as Hr. change nmeta with 59 in Hr. lia.
      - intros k' Hk'. by eapply (im_disj _ _ Him i j (ty, data) (tj, dj)). }
    split; [done|]. rewrite <- E in F1, F2. split; [|intros k Hk; rewrite F2 by done; by rewrite E]. split; rewrite ?E; try done. by rewrite E in F1. }
  assert (∀ j f a b, j ≠ i → nds !! j = Some f → data_slots data' a → data_slots f.2 b →
    slot (img s') (ino_at (img s') (1 + Z.of_nat i)) a ≠ slot (img s') (ino_at (img s') (1 + Z.of_nat j)) b) as Hdisj.
  { intros j f a b Hj Hf Ha Hb. destruct (Hother j f Hj Hf) as (_ & Ej & _ & Es). rewrite (Es b Hb).
    destruct (Hsl a Ha) as [[Ha' ->]|Hge]; [by eapply (im_disj _ _ Him i j (ty, data) f)|].
    destruct f as [tj dj]. pose proof (fr_range _ _ _ _ _ (nd_rep _ _ _ _ _ (im_node _ _ Him j tj dj Hf)) b Hb). lia. }
  split; try done.
  - rewrite length_insert, Hfi. apply Him.
  - by rewrite length_insert.
  - intros j tj dj Hj. apply list_lookup_insert_Some in Hj as [(-> & [= <- <-] & _)|[_ Hj]]; by eapply im_types.
  - intros j tj dj Hj. apply list_lookup_insert_Some in Hj as [(<- & [= <- <-] & _)|[Hne Hj]]; [done|].
    by apply (Hother j (tj, dj)).
  - intros j k f g a b Hjk Hf Hg Ha Hb.
    apply list_lookup_insert_Some in Hf as [(<- & <- & _)|[Hnf Hf]]; apply list_lookup_insert_Some in Hg as [(<- & <- & _)|[Hng Hg]]; try done.
    + by apply (Hdisj k g).
    + intros E. by apply (Hdisj j f b a).
    + destruct (Hother j f) as (_ & _ & _ & E1); [done..|]. destruct (Hother k g) as (_ & _ & _ & E2); [done..|].
      rewrite E1, E2 by done. by eapply (im_disj _ _ Him j k f g).
  - intros n Hn. rewrite Hfi in Hn. pose proof (im_next _ _ Him). rewrite Hino by lia. by apply Him.
  - rewrite (files_total_insert nds i (ty, data)) by done. pose proof (im_block _ _ Him). lia.
Qed.

(** [iappend] extends a file. *)
Lemma K_iappend s nds i ty data src (Q : unit → mkst → Prop) :
  image s nds → nds !! i = Some (ty, data) → Z.of_nat (length data) + Z.of_nat (length src) ≤ 71680 →
  nmeta + total (<[i := (ty, data ++ src)]> nds) ≤ FSSIZE →
  (∀ s', image s' (<[i := (ty, data ++ src)]> nds) → img s' !! 1 = img s !! 1 → Q tt s') →
  wpg t (iappend (1 + Z.of_nat i) src) Q s.
Proof.
  intros Him Hi Hmax Hspace HQ. pose proof (lookup_lt_Some _ _ _ Hi) as Hlt. pose proof (im_max _ _ Him) as Hm. pose proof (im_disk _ _ Him) as HD.
  pose proof (im_block _ _ Him) as Hfb. rewrite (files_total_insert nds i _ _ Hi) in Hspace.
  pose proof (im_types _ _ Him i ty data Hi) as Hty.
  unfold iappend. set (n := 1 + Z.of_nat i) in *. set (p := ino_at (img s) n) in *. destruct (im_node _ _ Him i ty data Hi) as [N1 [N2a N2b] N3 N4 N5].
  fold n p in N1, N2a, N2b, N3, N4, N5. set (len := Z.of_nat (length data)) in *. set (len' := len + Z.of_nat (length src)) in *.
  assert (blocks_of (ty, data) = need (nblk len)) as Eb1 by done.
  assert (blocks_of (ty, data ++ src) = need (nblk len')) as Eb2.
  { unfold blocks_of. cbn [snd]. rewrite length_app. do 2 f_equal. lia. }
  apply wpg_bind, K_rinode; [done|lia|]. fold p. rewrite N4, xint_id by lia.
  apply wpg_bind. unfold len. eapply K_iappend_loop; [exact N5|exact HD|fold len len'; lia|fold len len'; lia|lia|]. fold len len'.
  intros s1 p1 HA HF. rewrite xint_id by lia. destruct HA as [A1 A2 A3 A4 (l & ->) A6 A7]. set (p1 := with_addrs l p) in *.
  assert (fields_ok (set_isize len' p1)) as Hfields.
  { split; [change (0 ≤ itype p < 2 ^ 15); by rewrite N1|exact N2a|exact N2b|change (0 ≤ inlink p < 2 ^ 15); by rewrite N3| | |].
    - change (0 ≤ len' < 2 ^ 32). lia.
    - apply HF.
    - eapply (frep_addrs _ _ p1); [exact HF|]. lia. }
  apply K_winode; [done|lia|]. intros d Hd Hdl. set (V2 := <[_ := _]> (img s1)).
  pose proof (iblock n ltac:(lia)) as Hib.
  assert (∀ b, b < 32 ∨ 58 ≤ b → V2 !! b = img s1 !! b) as HV2 by (intros b Hb; apply lookup_insert_ne; lia).
  assert (∀ b, 0 ≤ b < 59 → img s1 !! b = img s !! b) as HV1.
  { intros b Hb. pose proof (dk_meta _ HD) as Hmeta. change nmeta with 59 in *. apply A6; [lia|]. intros k Hk E.
    pose proof (fr_range _ _ _ _ _ N5 k Hk) as Hr. change nmeta with 59 in *. lia. }
  destruct (ino_write (img s1) n (set_isize len' p1) d Hfields Hdl) as (E1 & E2 & E3 & E4 & E5 & E6). fold V2 in E1, E2, E3, E4, E5, E6.
  destruct (frep_frame (img s1) V2 (freeblock s1) (freeblock s1) p1 (nblk len') (data ++ src) HF ltac:(lia)) as [F1 F2].
  { intros k Hk. apply HV2. pose proof (fr_range _ _ _ _ _ HF k Hk) as Hr. change nmeta with 59 in Hr. lia. }
  apply HQ; [|cbn [img set_img]; rewrite HV2, HV1 by lia; done].
  apply (image_update s _ nds i ty data (data ++ src)); try done; cbn [img set_img freeblock freeinode].
  - split; cbn [img set_img freeblock]; [apply sized_insert; [apply A1|by rewrite dinode_store_length]| |apply A1].
    eapply fresh_insert; [apply A1|lia|]. pose proof (dk_meta _ A1) as H. change nmeta with 59 in H. lia.
  - lia.
  - pose proof (need_mono _ _ A4). lia.
  - split.
    + exact (eq_trans E1 N1).
    + split; [exact (eq_trans E2 N2a)|exact (eq_trans E3 N2b)].
    + exact (eq_trans E4 N3).
    + fold n. rewrite E5, length_app. change (len' = Z.of_nat (length data + length src)). lia.
    + fold n. rewrite length_app. replace (Z.of_nat (length data + length src)) with len' by lia. exact (frep_ext _ _ p1 _ _ _ (eq_sym E6) F1).
  - intros m Hm208 Hne. unfold V2. rewrite (ino_write_ne (img s1) n m) by done. apply ino_at_same, HV1. pose proof (iblock m Hm208). lia.
  - intros b Hb Hk. rewrite HV2 by lia. apply A6; [lia|done].
  - intros k Hk. rewrite length_app in Hk. replace (Z.of_nat (length data + length src)) with len' in Hk by lia.
    fold n. rewrite (slot_ext V2 _ p1 k E6), F2 by done. fold p. by apply A7.
Qed.

Lemma zero_iaddrs (k : nat) : (k < 13)%nat → replicate 13 0 !!! k = (0 : Z).
Proof. intros H. apply list_lookup_total_correct. by apply lookup_replicate_2. Qed.

Lemma empty_frep V fb p : iaddrs p = replicate 13 0 → frep V fb p 0 [].
Proof.
  intros E. split; rewrite ?E; try done.
  - intros k [?|?]; lia.
  - intros j k [?|?]; lia.
  - intros k Hk [H|H]; [|lia]. rewrite blk_addr_direct, E by done. apply zero_iaddrs. lia.
  - intros k Hk. lia.
Qed.

(** [ialloc] adds an empty file. *)
Lemma K_ialloc s nds ty (Q : Z → mkst → Prop) :
  image s nds → (length nds < 207)%nat → 0 ≤ ty < 2 ^ 15 →
  (∀ s', image s' (nds ++ [(ty, [])]) → img s' !! 1 = img s !! 1 → Q (1 + Z.of_nat (length nds)) s') →
  wpg t (ialloc ty) Q s.
Proof.
  intros Him Hm Hty HQ. pose proof (im_disk _ _ Him) as HD. pose proof (im_next _ _ Him) as Hnx.
  unfold ialloc. apply wpg_bind, wpg_gets, wpg_bind, wpg_modify, wpg_bind. rewrite (xshort_id ty) by lia.
  assert (i16 ty = ty) as Hi16 by (unfold i16; rewrite Z.mod_small; lia). rewrite Hi16. change (i16 (xshort 1)) with 1. change (xint 0) with 0.
  set (p := set_isize 0 _). set (n := freeinode s) in *. assert (0 ≤ n < 208) as Hn208 by lia.
  assert (disk (set_freeinode (n + 1) s)) as HD' by (split; apply HD).
  apply K_winode; [done|done|]. cbn [img set_freeinode]. intros d Hd Hdl. apply wpg_ret. set (V' := <[_ := _]> (img s)).
  pose proof (iblock n Hn208) as Hib. pose proof (dk_meta _ HD) as Hmeta. change nmeta with 59 in Hmeta.
  assert (fields_ok p) as Hp by (split; [cbn; lia|done|done|done|done|done|apply (bool_decide_unpack _); by vm_compute]).
  destruct (ino_write (img s) n p d Hp Hdl) as (E1 & E2 & E3 & E4 & E5 & E6). fold V' in E1, E2, E3, E4, E5, E6.
  assert (∀ b, b < 32 ∨ 58 ≤ b → V' !! b = img s !! b) as HV by (intros b Hb; apply lookup_insert_ne; lia).
  assert (∀ m, m ≠ n → ino_at V' m = ino_at (img s) m) as Hne by (intros m Hne; apply ino_write_ne; done).
  assert (∀ i f, nds !! i = Some f → 1 + Z.of_nat i ≠ n ∧ node V' (freeblock s) (1 + Z.of_nat i) f.1 f.2 ∧
    ∀ k, data_slots f.2 k → slot V' (ino_at V' (1 + Z.of_nat i)) k = slot (img s) (ino_at (img s) (1 + Z.of_nat i)) k) as Hold.
  { intros i [ti di] Hi. cbn [Datatypes.fst snd]. pose proof (lookup_lt_Some _ _ _ Hi) as Hlt. split; [lia|].
    destruct (im_node _ _ Him i ti di Hi) as [N1 N2 N3 N4 N5]. rewrite !Hne by lia.
    destruct (frep_frame (img s) V' (freeblock s) (freeblock s) _ _ _ N5 ltac:(lia)) as [F1 F2].
    { intros k Hk. apply HV. pose proof (fr_range _ _ _ _ _ N5 k Hk) as Hr. change nmeta with 59 in Hr. lia. }
    split; [|done]. by split; rewrite ?Hne by lia. }
  rewrite Hnx. apply HQ; [|cbn [img set_img set_freeinode]; apply HV; lia].
  assert (∀ k, ¬ data_slots [] k) as Hnos by (intros k [?|?]; change (nblk (Z.of_nat (length []))) with 0 in *; lia).
  split; cbn [img set_img set_freeinode freeblock freeinode].
  - split; cbn [img set_img set_freeinode freeblock freeinode]; [apply sized_insert; [apply HD|by rewrite dinode_store_length]| |apply HD].
    eapply fresh_insert; [apply HD|lia|lia].
  - rewrite length_app. cbn. lia.
  - rewrite length_app. cbn. lia.
  - intros i ti di Hi. apply lookup_snoc_Some in Hi as [[_ Hi]|[_ [= <- <-]]]; [by eapply im_types|done].
  - intros i ti di Hi. apply lookup_snoc_Some in Hi as [[_ Hi]|[-> [= <- <-]]]; [by apply (Hold i (ti, di))|].
    rewrite <- Hnx. split; [by rewrite E1|by rewrite E2, E3|by rewrite E4|by rewrite E5|]. apply empty_frep. by rewrite E6.
  - intros i j f g a b Hij Hf Hg Ha Hb.
    apply lookup_snoc_Some in Hf as [[_ Hf]|[-> <-]]; [|by destruct (Hnos a)].
    apply lookup_snoc_Some in Hg as [[_ Hg]|[-> <-]]; [|by destruct (Hnos b)].
    destruct (Hold i f Hf) as (_ & _ & Hs1). destruct (Hold j g Hg) as (_ & _ & Hs2). rewrite Hs1, Hs2 by done.
    by eapply (im_disj _ _ Him i j f g).
  - intros m Hm'. rewrite Hne by lia. apply Him. lia.
  - rewrite files_total_app. cbn. change (blocks_of (ty, [])) with 0. pose proof (im_block _ _ Him). lia.
Qed.
End Image.
