(* ===== verification/MkfsMain.v ===== *)
(** * The main program of mkfs

    From an empty image to the image of all files: the root directory and its
    entries, then file after file. *)

From S2P Require Export MkfsImage.
Local Open Scope Z_scope.

Definition mk_boot : mkst := mkMk ∅ 1 0.

(** ** What the image is to hold *)

Definition name_of (f : bytes * list bytes) : bytes := skip_underscore f.1.
Definition data_of (f : bytes * list bytes) : bytes := concat f.2.
(** A name in its field. *)
Definition field_of (nm : bytes) : bytes := take DIRSIZ nm ++ replicate (DIRSIZ - length nm) 0.

(** The entries of the root directory. *)
Definition file_entries (k : Z) (files : list (bytes * list bytes)) : list bytes :=
  imap (λ i f, dirent_bytes (k + Z.of_nat i) (field_of (name_of f))) files.
Definition entries (files : list (bytes * list bytes)) : list bytes :=
  dirent_bytes 1 dot_name :: dirent_bytes 1 dotdot_name :: file_entries 2 files.
Definition root_data (files : list (bytes * list bytes)) : bytes := concat (entries files).
Definition nodes (files : list (bytes * list bytes)) : list (Z * bytes) :=
  (T_DIR, root_data files) :: ((λ f, (T_FILE, data_of f)) <$> files).

(** Names without slashes or NULs that differ in the field of an entry and
    from the names ["."] and [".."]; inodes and blocks for all files. *)
Record files_ok (files : list (bytes * list bytes)) : Prop := {
  fk_names : Forall (λ f, 47 ∉ f.1 ∧ 0 ∉ f.1) files;
  fk_nodup : NoDup ([46] :: [46; 46] :: ((λ f, take DIRSIZ (name_of f)) <$> files));
  fk_inodes : 1 + Z.of_nat (length files) < NINODES;
  fk_sizes : Forall (λ f, Z.of_nat (length (data_of f)) ≤ MAXFILE * BSIZE) files;
  fk_space : nmeta + total (nodes files) ≤ FSSIZE
}.

Lemma file_entries_snoc k files f :
  file_entries k (files ++ [f]) = file_entries k files ++ [dirent_bytes (k + Z.of_nat (length files)) (field_of (name_of f))].
Proof. unfold file_entries. rewrite imap_app. cbn. by rewrite Nat.add_0_r. Qed.

Lemma dirent_bytes_length n nm : length nm = 14%nat → length (dirent_bytes n nm) = 16%nat.
Proof. intros H. unfold dirent_bytes. by rewrite length_app, le_split_length, H. Qed.
Lemma field_length nm : length (field_of nm) = 14%nat.
Proof. unfold field_of. rewrite length_app, length_take, length_replicate. change DIRSIZ with 14%nat. lia. Qed.

Lemma entries_length files : length (entries files) = (2 + length files)%nat.
Proof. unfold entries, file_entries. cbn [length]. by rewrite length_imap. Qed.
Lemma entries_16 files : Forall (λ e, length e = 16%nat) (entries files).
Proof.
  unfold entries. constructor; [done|]. constructor; [done|]. apply Forall_lookup. intros i e He.
  unfold file_entries in He. rewrite list_lookup_imap in He. destruct (files !! i); [|done]. injection He as <-.
  apply dirent_bytes_length, field_length.
Qed.
Lemma concat_16 (l : list bytes) : Forall (λ e, length e = 16%nat) l → length (concat l) = (16 * length l)%nat.
Proof. induction 1 as [|e l He Hl IH]; [done|]. cbn [concat length]. rewrite length_app, IH, He. lia. Qed.
Lemma root_length files : length (root_data files) = (16 * (2 + length files))%nat.
Proof. unfold root_data. by rewrite concat_16, entries_length by apply entries_16. Qed.

(** ** The files that are there so far need no more than all of them *)

Definition below (nds nds' : list (Z * bytes)) : Prop :=
  ∀ i f, nds !! i = Some f → ∃ g, nds' !! i = Some g ∧ (length f.2 ≤ length g.2)%nat.
Lemma total_below nds : ∀ nds', below nds nds' → total nds ≤ total nds'.
Proof.
  induction nds as [|f nds IH]; intros nds' H; [apply files_total_nonneg|].
  destruct (H 0%nat f eq_refl) as (g & Hg & Hl). destruct nds' as [|g' nds']; [done|]. injection Hg as ->. cbn [total].
  assert (total nds ≤ total nds') as Ht. { apply IH. intros i x Hx. by apply (H (S i)). }
  assert (blocks_of f ≤ blocks_of g) as Hb. { apply need_mono, nblk_mono. lia. } lia.
Qed.

Lemma below_refl_app nds nds' : below nds (nds ++ nds').
Proof. intros i f Hf. exists f. split; [|done]. by apply lookup_app_l_Some. Qed.

Lemma root_prefix files files' : (length (root_data files) ≤ length (root_data (files ++ files')))%nat.
Proof. rewrite !root_length, length_app. lia. Qed.

Section Main.
Context (t : bool).
Implicit Types (s : mkst).

(** ** The loop over the sectors *)

Lemma K_clear z (xs : list Z) : ∀ s (Q : unit → mkst → Prop),
  (∀ V, (∀ b, V !! b = if decide (b ∈ xs) then Some z else img s !! b) → Q tt (set_img V s)) →
  wpg t (for_each xs (λ i, wsect i z)) Q s.
Proof.
  induction xs as [|x xs IH]; intros s Q HQ; cbn [for_each].
  - apply wpg_ret. rewrite <- (set_img_id s). apply HQ. intros b. by rewrite decide_False by apply not_elem_of_nil.
  - apply wpg_bind, K_wsect. apply IH. intros V HV. apply HQ. intros b. rewrite HV. cbn [img set_img].
    destruct (decide (b ∈ xs)) as [H|H].
    + by rewrite decide_True by (by right).
    + destruct (decide (b = x)) as [->|Hne].
      * rewrite lookup_insert_eq, decide_True by (by left). done.
      * rewrite lookup_insert_ne, decide_False by (done || by intros [?|?]%elem_of_cons). done.
Qed.

Lemma zero_type d o : d = replicate 512 0 → (o + 64 ≤ 512)%nat → dinode_type d o = 0.
Proof.
  intros -> Ho. unfold dinode_type, get_le. rewrite drop_replicate, take_replicate.
  replace (2 `min` (512 - o))%nat with 2%nat by lia. done.
Qed.

(** The empty image. *)
Lemma empty_image V d :
  (∀ b, 0 ≤ b < FSSIZE → b ≠ 1 → V !! b = Some (replicate 512 0)) → V !! 1 = Some d → length d = 512%nat →
  image (mkMk V 1 nmeta) [].
Proof.
  intros HV H1 Hl. split; cbn [img freeinode freeblock]; try done.
  - split; cbn [img freeblock].
    + intros b Hb. destruct (decide (b = 1)) as [->|Hne]; [eauto|]. exists (replicate 512 0). by rewrite HV by done.
    + intros b Hb. change nmeta with 59 in Hb. apply HV; lia.
    + done.
  - cbn. lia.
  - intros n Hn. pose proof (iblock n ltac:(lia)) as Hib. apply zero_type; [|apply dinode_at_fits].
    apply lookup_total_correct, HV; [change FSSIZE with 1000|]; lia.
Qed.

(** ** One file *)

Lemma K_pieces ps : ∀ s nds i ty data (Q : unit → mkst → Prop),
  image s nds → nds !! i = Some (ty, data) → Z.of_nat (length data) + Z.of_nat (length (concat ps)) ≤ 71680 →
  nmeta + total (<[i := (ty, data ++ concat ps)]> nds) ≤ FSSIZE →
  (∀ s', image s' (<[i := (ty, data ++ concat ps)]> nds) → img s' !! 1 = img s !! 1 → Q tt s') →
  wpg t (for_each ps (iappend (1 + Z.of_nat i))) Q s.
Proof.
  induction ps as [|p ps IH]; intros s nds i ty data Q Him Hi Hmax Hsp HQ; cbn [for_each concat] in *.
  - apply wpg_ret, HQ; [|done]. by rewrite app_nil_r, list_insert_id by done.
  - pose proof (lookup_lt_Some _ _ _ Hi) as Hlt. rewrite length_app in Hmax. rewrite app_assoc in Hsp, HQ.
    apply wpg_bind. eapply K_iappend; [exact Him|exact Hi|lia| |].
    + rewrite (files_total_insert nds i _ _ Hi) in Hsp. rewrite (files_total_insert nds i _ _ Hi). unfold blocks_of in *. cbn [snd] in *.
      pose proof (need_mono _ _ (nblk_mono (Z.of_nat (length (data ++ p))) (Z.of_nat (length ((data ++ p) ++ concat ps))) ltac:(rewrite !length_app; lia))). lia.
    + intros s1 Him1 H1. eapply IH; [exact Him1|by apply list_lookup_insert_eq|rewrite length_app; lia|by rewrite list_insert_insert_eq|].
      intros s2 Him2 H2. rewrite list_insert_insert_eq in Him2. apply HQ; [done|]. by rewrite H2.
Qed.

Lemma strncpy_field nm : 0 ∉ nm → strncpy (nm ++ [0]) DIRSIZ = Some (field_of nm).
Proof.
  intros H. rewrite strncpy_ok by (right; set_solver). unfold field_of. f_equal.
  destruct (decide (length nm < DIRSIZ)%nat) as [Hl|Hl].
  - rewrite (upto_nul_app nm [] DIRSIZ H Hl). by rewrite take_ge by lia.
  - assert (upto_nul DIRSIZ (nm ++ [0]) = take DIRSIZ nm) as ->.
    { rewrite <- (take_drop DIRSIZ nm) at 1. rewrite <- app_assoc. generalize (drop DIRSIZ nm ++ [0]). intros r.
      assert (length (take DIRSIZ nm) = DIRSIZ) as Hlt by (rewrite length_take; lia).
      assert (0 ∉ take DIRSIZ nm) as Hn by (intros (i & Hi & _)%elem_of_take; by apply H; eapply list_elem_of_lookup_2).
      revert Hn Hlt. generalize (take DIRSIZ nm) as l. generalize DIRSIZ as k. clear. intros k l. revert k.
      induction l as [|c l IH]; intros [|k] Hn Hl; try done. apply not_elem_of_cons in Hn as [Hc Hn]. cbn.
      rewrite (proj2 (Z.eqb_neq c 0)) by congruence. by rewrite IH by (done || by injection Hl). }
    rewrite length_take. do 2 f_equal. lia.
Qed.

Lemma root_snoc fs f :
  root_data fs ++ dirent_bytes (2 + Z.of_nat (length fs)) (field_of (name_of f)) = root_data (fs ++ [f]).
Proof.
  unfold root_data, entries. rewrite file_entries_snoc. cbn [concat]. rewrite concat_app. cbn [concat].
  by rewrite app_nil_r, !app_assoc.
Qed.

Lemma skip_nul nm : 0 ∉ nm → 0 ∉ skip_underscore nm.
Proof. destruct nm as [|c nm]; [done|]. cbn. repeat case_match; try done; subst; by intros [_ ?]%not_elem_of_cons. Qed.

(** The image while a file is added. *)
Lemma nodes_step fs f data :
  <[S (length fs) := (T_FILE, data)]> (<[0%nat := (T_DIR, root_data (fs ++ [f]))]> (nodes fs ++ [(T_FILE, [])])) =
  (T_DIR, root_data (fs ++ [f])) :: ((λ f, (T_FILE, data_of f)) <$> fs) ++ [(T_FILE, data)].
Proof.
  unfold nodes. cbn [app]. change (<[0%nat := ?x]> (?y :: ?l)) with (x :: l). change (<[S ?n := ?x]> (?y :: ?l)) with (y :: <[n := x]> l).
  f_equal. rewrite <- (length_fmap (λ f, (T_FILE, data_of f)) fs). apply insert_at.
Qed.
Lemma nodes_app fs f : nodes (fs ++ [f]) = (T_DIR, root_data (fs ++ [f])) :: ((λ f, (T_FILE, data_of f)) <$> fs) ++ [(T_FILE, data_of f)].
Proof. unfold nodes. by rewrite fmap_app. Qed.
Lemma nodes_length fs : length (nodes fs) = S (length fs).
Proof. unfold nodes. cbn. by rewrite length_fmap. Qed.

Lemma below_nodes fs f rest nds :
  length nds = S (S (length fs)) → nds !! 0%nat = Some (T_DIR, root_data (fs ++ [f])) →
  (∀ i g, nds !! S i = Some g → ∃ h, (fs ++ [f]) !! i = Some h ∧ (length g.2 ≤ length (data_of h))%nat) →
  below nds (nodes (fs ++ f :: rest)).
Proof.
  intros Hl H0 HS [|i] g Hg.
  - rewrite H0 in Hg. injection Hg as <-. eexists. split; [done|]. cbn [snd].
    replace (fs ++ f :: rest) with ((fs ++ [f]) ++ rest) by (by rewrite <- app_assoc). apply root_prefix.
  - destruct (HS i g Hg) as (h & Hh & Hle). exists (T_FILE, data_of h). split; [|done].
    change (nodes ?l !! S i) with (((λ f, (T_FILE, data_of f)) <$> l) !! i). rewrite list_lookup_fmap.
    replace (fs ++ f :: rest) with ((fs ++ [f]) ++ rest) by (by rewrite <- app_assoc).
    erewrite lookup_app_l_Some by done. done.
Qed.

Lemma below_step fs f rest data :
  (length data ≤ length (data_of f))%nat →
  below ((T_DIR, root_data (fs ++ [f])) :: ((λ f, (T_FILE, data_of f)) <$> fs) ++ [(T_FILE, data)]) (nodes (fs ++ f :: rest)).
Proof.
  intros Hd. eapply below_nodes; [cbn; rewrite length_app, length_fmap; cbn; lia|done|].
  intros i g Hg. change ((?x :: ?l) !! S i) with (l !! i) in Hg. apply lookup_snoc_Some in Hg as [[Hi Hg]|[-> <-]].
  - rewrite length_fmap in Hi. apply list_lookup_fmap_Some in Hg as (h & -> & Hh). exists h. split; [|done]. by apply lookup_app_l_Some.
  - rewrite length_fmap. exists f. split; [|done]. by apply list_lookup_middle.
Qed.

Lemma K_add_file s fs f rest (Q : unit → mkst → Prop) :
  files_ok (fs ++ f :: rest) → image s (nodes fs) →
  (∀ s', image s' (nodes (fs ++ [f])) → img s' !! 1 = img s !! 1 → Q tt s') → wpg t (add_file 1 f) Q s.
Proof.
  intros [F1 F2 F3 F4 F5] Him HQ. apply Forall_app in F1 as [_ [[F1a F1b] _]%Forall_cons].
  apply Forall_app in F4 as [_ [F4 _]%Forall_cons]. change (MAXFILE * BSIZE) with 71680 in F4. change NINODES with 200 in F3.
  rewrite length_app in F3. cbn [length] in F3. pose proof (nodes_length fs) as Hlen.
  unfold add_file. rewrite bool_decide_false by done. apply wpg_bind. eapply K_ialloc; [exact Him|lia|done|].
  intros s1 Him1 H1. rewrite Hlen in *. apply wpg_bind. eapply wpg_deref; [apply strncpy_field, skip_nul, F1b|]. fold (name_of f).
  replace (1 + Z.of_nat (S (length fs))) with (2 + Z.of_nat (length fs)) by lia.
  set (nds := nodes fs ++ [(T_FILE, [])]) in *.
  assert (nds !! 0%nat = Some (T_DIR, root_data fs)) as H0 by done.
  assert (nds !! S (length fs) = Some (T_FILE, [])) as HS.
  { unfold nds. rewrite <- Hlen. by apply list_lookup_middle. }
  pose proof (root_length (fs ++ [f])) as Hrl. rewrite length_app in Hrl. cbn [length] in Hrl.
  apply wpg_bind. change 1 with (1 + Z.of_nat 0) at 1. eapply K_iappend; [exact Him1|exact H0| |rewrite root_snoc|].
  { rewrite <- Nat2Z.inj_add, <- length_app, root_snoc, Hrl. lia. }
  { pose proof (total_below _ _ (below_step fs f rest [] ltac:(cbn; lia))) as Hb. rewrite <- nodes_step in Hb. fold nds in Hb.
    rewrite list_insert_id in Hb; [lia|]. by rewrite list_lookup_insert_ne. }
  rewrite root_snoc. intros s2 Him2 H2. set (nds2 := <[0%nat := _]> nds) in *.
  assert (nds2 !! S (length fs) = Some (T_FILE, [])) as HS2 by (unfold nds2; by rewrite list_lookup_insert_ne).
  replace (2 + Z.of_nat (length fs)) with (1 + Z.of_nat (S (length fs))) by lia.
  eapply K_pieces; [exact Him2|exact HS2|exact F4| |].
  - unfold nds2, nds. rewrite nodes_step. pose proof (total_below _ _ (below_step fs f rest (data_of f) ltac:(lia))) as Hb. fold (data_of f). cbn [app] in *. lia.
  - intros s3 Him3 H3. apply HQ.
    + unfold nds2, nds in Him3. rewrite nodes_step in Him3. by rewrite nodes_app.
    + by rewrite H3, H2, H1.
Qed.

(** All files. *)
Lemma K_add_files rest : ∀ s fs (Q : unit → mkst → Prop),
  files_ok (fs ++ rest) → image s (nodes fs) →
  (∀ s', image s' (nodes (fs ++ rest)) → img s' !! 1 = img s !! 1 → Q tt s') → wpg t (for_each rest (add_file 1)) Q s.
Proof.
  induction rest as [|f rest IH]; intros s fs Q Hok Him HQ; cbn [for_each].
  - apply wpg_ret, HQ; [|done]. by rewrite app_nil_r.
  - apply wpg_bind. eapply K_add_file; [exact Hok|exact Him|]. intros s1 Him1 H1.
    replace (fs ++ f :: rest) with ((fs ++ [f]) ++ rest) in * by (by rewrite <- app_assoc).
    eapply IH; [exact Hok|exact Him1|]. intros s2 Him2 H2. apply HQ; [done|]. by rewrite H2.
Qed.

(** The superblock's sector. *)
Definition sb_block : block := splice (replicate 512 0) 0 (sb_bytes mk_sb).

Lemma root_start : root_data [] = ([] ++ dirent_bytes 1 dot_name) ++ dirent_bytes 1 dotdot_name.
Proof. unfold root_data, entries. cbn [concat file_entries imap]. by rewrite app_nil_r. Qed.

Lemma K_mkfs_files files (Q : Z → mkst → Prop) :
  files_ok files → (∀ s, image s (nodes files) → img s !! 1 = Some sb_block → Q 1 s) → wpg t (mkfs_files files) Q mk_boot.
Proof.
  intros Hok HQ. unfold mkfs_files. apply wpg_bind, wpg_modify, wpg_bind, K_clear. intros V HV. cbn [img set_freeblock mk_boot] in HV.
  apply wpg_bind, K_wsect. fold sb_block. cbn [img set_img set_freeblock freeinode freeblock mk_boot]. set (V1 := <[1 := sb_block]> V).
  assert (image (mkMk V1 1 nmeta) []) as Him0.
  { apply (empty_image V1 sb_block); [|by apply lookup_insert_eq|by vm_compute].
    intros b Hb Hne. unfold V1. rewrite lookup_insert_ne, HV, decide_True by (done || by apply elem_of_seqZ). done. }
  apply wpg_bind. eapply K_ialloc; [exact Him0|cbn; lia|done|]. intros s1 Him1 H1. cbn [app length Z.of_nat] in *. change (1 + 0) with 1.
  change (1 =? ROOTINO) with true. cbn [negb].
  pose proof (total_below [(T_DIR, root_data [])] (nodes files)) as Hb. pose proof (fk_space _ Hok) as Hsp.
  assert (total [(T_DIR, root_data [])] ≤ total (nodes files)) as Ht.
  { apply Hb. intros [|i] g Hg; [|done]. injection Hg as <-. eexists. split; [done|]. cbn [snd]. apply (root_prefix [] files). }
  assert (total [(T_DIR, root_data [])] = 1) as Et by by vm_compute. rewrite Et in Ht. clear Hb.
  apply wpg_bind. change 1 with (1 + Z.of_nat 0) at 1. eapply K_iappend; [exact Him1|done|by vm_compute| |].
  { change (total _) with 1. lia. }
  intros s2 Him2 H2. apply wpg_bind. change 1 with (1 + Z.of_nat 0) at 1. eapply K_iappend; [exact Him2|done|by vm_compute| |].
  { change (total _) with 1. lia. }
  intros s3 Him3 H3. apply wpg_bind. eapply (K_add_files files s3 []); [exact Hok| |].
  { unfold nodes. cbn [fmap list_fmap]. rewrite root_start. exact Him3. }
  intros s4 Him4 H4. apply wpg_ret, HQ; [exact Him4|]. rewrite H4, H3, H2, H1. apply lookup_insert_eq.
Qed.
End Main.
