(* ===== verification/MkfsProps.v ===== *)
(** * The file system that mkfs makes

    The image is one that the kernel's file system can use: its superblock,
    its bitmap, its inodes and its root directory satisfy what fs.c relies
    on, and every file is found under its name with its contents. *)

From S2P Require Export MkfsMain.
Local Open Scope Z_scope.

(** ** The bitmap *)

Lemma balloc_buf_bits used j :
  0 ≤ used ≤ BPB → 0 ≤ j < BPB → length (balloc_buf used) = 512%nat ∧ bit (balloc_buf used) j = (j <? used).
Proof.
  intros Hu Hj. unfold balloc_buf.
  change (λ buf i, <[Z.to_nat (i / 8) := Z.lor (buf !!! Z.to_nat (i / 8)) (Z.shiftl 1 (i mod 8))]> buf) with (λ buf i, mark i buf).
  assert (∃ k, used = Z.of_nat k) as [k ->] by (exists (Z.to_nat used); lia). induction k as [|k IH].
  - change (seqZ 0 (Z.of_nat 0)) with (@nil Z). cbn [foldl]. split; [by rewrite length_replicate|]. unfold bit. rewrite zeros_byte by (by apply bit_index).
    rewrite Z.bits_0. symmetry. apply Z.ltb_ge. lia.
  - destruct IH as [IHl IHb]; [lia|]. rewrite Nat2Z.inj_succ, <- Z.add_1_r, seqZ_app by lia. rewrite foldl_app. set (d := foldl _ _ _) in *. change (seqZ (0 + Z.of_nat k) 1) with [0 + (0 + Z.of_nat k)].
    cbn [foldl]. rewrite !Z.add_0_l. split; [unfold mark; by rewrite length_insert|].
    rewrite bit_mark by (done || lia). rewrite IHb. case_bool_decide; destruct (Z.ltb_spec j (Z.of_nat k)), (Z.ltb_spec j (Z.of_nat k + 1)); try done; lia.
Qed.

(** ** Files on the disk *)

Lemma disk_ino V n : on_disk (disk_inode V mk_sb n) (ino_at V n).
Proof. by split_and!. Qed.

Lemma frep_file_ok V fb p n data :
  frep V fb p n data → idev p = 1 → sized V → fb ≤ FSSIZE → file_ok V p n.
Proof.
  intros Hp Hd Hs Hfb. pose proof (fr_num _ _ _ _ _ Hp) as Hn.
  assert (∀ k, slots n k → 59 ≤ slot V p k < fb) as Hr by exact (fr_range _ _ _ _ _ Hp). split.
  - done.
  - apply Hp.
  - change MAXFILE with 140. lia.
  - intros k Hk. pose proof (Hr k (slots_block n k Hk)) as H. rewrite slot_block in H by lia. lia.
  - change NDIRECT with 12. intros Hgt. pose proof (Hr (-1) ltac:(right; lia)) as H. rewrite slot_ind in H. split; [lia|].
    destruct (Hs (iaddrs p !!! 12%nat)) as (d & Hdd & _); [lia|]. by exists d.
  - intros k Hk. pose proof (Hr k (slots_block n k Hk)) as H. rewrite slot_block in H by lia. apply Hs. lia.
Qed.

(** Bytes of the file, and zeros after them. *)
Lemma frep_slice V fb p n data off len :
  frep V fb p n data → 0 ≤ off → 0 ≤ len → off + len ≤ n * 512 →
  file_slice V p off len = take (Z.to_nat len) (drop (Z.to_nat off) (data ++ replicate (Z.to_nat (n * 512) - length data) 0)).
Proof.
  intros Hp Ho Hl Hmax. unfold file_slice. apply list_eq. intros i. rewrite list_lookup_fmap.
  destruct (decide (i < Z.to_nat len)%nat) as [Hi|Hi].
  - rewrite lookup_seqZ_lt, lookup_take_lt, lookup_drop by lia. cbn [fmap option_fmap option_map].
    rewrite (fr_byte _ _ _ _ _ Hp) by lia. replace (Z.to_nat (off + Z.of_nat i)) with (Z.to_nat off + i)%nat by lia.
    rewrite lookup_app. destruct (data !! _) eqn:E; [done|]. apply lookup_ge_None in E. symmetry. apply lookup_replicate_2. lia.
  - rewrite lookup_seqZ_ge, lookup_take_ge by lia. done.
Qed.

Lemma frep_contents V fb p n data : frep V fb p n data → file_slice V p 0 (Z.of_nat (length data)) = data.
Proof.
  intros Hp. pose proof (fr_num _ _ _ _ _ Hp). rewrite (frep_slice V fb p n data) by (done || lia).
  rewrite drop_0, Nat2Z.id. by rewrite take_app_length.
Qed.

(** ** Directory entries *)

Lemma concat_entry (l : list bytes) k e r :
  Forall (λ e, length e = 16%nat) l → l !! k = Some e → take 16 (drop (16 * k) (concat l ++ r)) = e.
Proof.
  intros Hl. revert k. induction Hl as [|x l Hx Hl IH]; intros k Hk; [done|]. cbn [concat]. rewrite <- app_assoc. destruct k as [|k].
  - injection Hk as ->. rewrite drop_0. by apply take_app_length'.
  - rewrite drop_app_ge by lia. rewrite Hx. replace (16 * S k - 16)%nat with (16 * k)%nat by lia. by apply IH.
Qed.

Lemma dirent_fields n nm : 0 ≤ n < 2 ^ 16 → de_inum (dirent_bytes n nm) = n ∧ de_name (dirent_bytes n nm) = nm.
Proof.
  intros Hn. unfold de_inum, de_name, dirent_bytes, get_le. rewrite xshort_id by done. split.
  - rewrite drop_0, take_app_length' by (by rewrite le_split_length). rewrite le_combine_split. by apply Z.mod_small.
  - by apply drop_app_length'; rewrite le_split_length.
Qed.

Lemma field_name nm : 0 ∉ nm → upto_nul DIRSIZ (field_of nm) = take DIRSIZ nm.
Proof.
  intros H. unfold field_of. destruct (decide (length nm < DIRSIZ)%nat) as [Hl|Hl].
  - destruct (DIRSIZ - length nm)%nat as [|k] eqn:E; [lia|]. cbn [replicate].
    rewrite !take_ge by lia. by apply upto_nul_app.
  - replace (DIRSIZ - length nm)%nat with 0%nat by lia. cbn [replicate]. rewrite app_nil_r, upto_nul_take, take_take, Nat.min_id; [done|].
    intros (i & Hi & _)%elem_of_take. apply H. by eapply list_elem_of_lookup_2.
Qed.

(** The first entry of a name. *)
Lemma dir_find_first V p key k fuel : ∀ k0,
  k0 ≤ k → (Z.to_nat (k - k0) < fuel)%nat → (∀ j, k0 ≤ j < k → dirent_is V p key j = false) → dirent_is V p key k = true →
  dir_find_from V p key fuel k0 = Some k.
Proof.
  induction fuel as [|fuel IH]; intros k0 Hle Hfu Hno Hk; [lia|]. cbn [dir_find_from]. destruct (decide (k0 = k)) as [->|Hne].
  - by rewrite Hk.
  - rewrite Hno by lia. apply IH; [lia|lia|intros j Hj; apply Hno; lia|done].
Qed.

(** The names of the root directory, in order. *)
Definition names (files : list (bytes * list bytes)) : list bytes := [46] :: [46; 46] :: ((λ f, take DIRSIZ (name_of f)) <$> files).
Definition inum_of (k : nat) : Z := Z.max 1 (Z.of_nat k).

Lemma names_length files : length (names files) = (2 + length files)%nat.
Proof. unfold names. cbn. by rewrite length_fmap. Qed.

Lemma entry_at files k nm :
  files_ok files → names files !! k = Some nm →
  ∃ e, entries files !! k = Some e ∧ de_inum e = inum_of k ∧ upto_nul DIRSIZ (de_name e) = nm.
Proof.
  intros Hok Hk. destruct k as [|[|k]].
  - injection Hk as <-. eexists. split; [done|]. by vm_compute.
  - injection Hk as <-. eexists. split; [done|]. by vm_compute.
  - change (names files !! S (S k)) with (((λ f, take DIRSIZ (name_of f)) <$> files) !! k) in Hk.
    apply list_lookup_fmap_Some in Hk as (f & -> & Hf). pose proof (lookup_lt_Some _ _ _ Hf) as Hlt.
    exists (dirent_bytes (2 + Z.of_nat k) (field_of (name_of f))). split.
    + change (entries files !! S (S k)) with (file_entries 2 files !! k). unfold file_entries. by rewrite list_lookup_imap, Hf.
    + pose proof (fk_inodes _ Hok) as Hi. change NINODES with 200 in Hi. destruct (dirent_fields (2 + Z.of_nat k) (field_of (name_of f)) ltac:(lia)) as [-> ->].
      split; [unfold inum_of; lia|]. apply field_name, skip_nul.
      pose proof (fk_names _ Hok) as Hn. rewrite Forall_lookup in Hn. by apply (Hn k f).
Qed.

(** ** The image that is left *)

Definition holds (V : gmap Z block) (n ty : Z) (data : bytes) (size : Z) : Prop :=
  let p := disk_inode V mk_sb n in
  itype p = ty ∧ inlink p = 1 ∧ isize p = size ∧ file_ok V p (nblk (Z.of_nat (length data))) ∧
  file_slice V p 0 (Z.of_nat (length data)) = data.

Definition root_size (files : list (bytes * list bytes)) : Z := (16 * (2 + Z.of_nat (length files)) / BSIZE + 1) * BSIZE.
Definition used_blocks (files : list (bytes * list bytes)) : Z := nmeta + total (nodes files).
Definition used_inodes (files : list (bytes * list bytes)) : gset Z := list_to_set (seqZ 1 (1 + Z.of_nat (length files))).

Record made (V : gmap Z block) (files : list (bytes * list bytes)) : Prop := {
  md_sb : ∃ d, V !! 1 = Some d ∧ decode_sb d = mk_sb;
  md_bitmap : bitmap_ok V mk_sb ∧ ∀ b, 0 ≤ b < FSSIZE → alloc V mk_sb b = (b <? used_blocks files);
  md_root : holds V ROOTINO T_DIR (root_data files) (root_size files);
  md_files : ∀ i f, files !! i = Some f → holds V (2 + Z.of_nat i) T_FILE (data_of f) (Z.of_nat (length (data_of f)));
  md_dots : walk V mk_sb ROOTINO [[46]] = Some ROOTINO ∧ walk V mk_sb ROOTINO [[46; 46]] = Some ROOTINO;
  md_names : ∀ i f, files !! i = Some f → walk V mk_sb ROOTINO [name_of f] = Some (2 + Z.of_nat i);
  md_apart : ∀ i j f g a b, i ≠ j → nodes files !! i = Some f → nodes files !! j = Some g →
    0 ≤ a < nblk (Z.of_nat (length f.2)) → 0 ≤ b < nblk (Z.of_nat (length g.2)) →
    blk_addr V (disk_inode V mk_sb (1 + Z.of_nat i)) a ≠ blk_addr V (disk_inode V mk_sb (1 + Z.of_nat j)) b;
  md_free : ∀ n, 2 + Z.of_nat (length files) ≤ n < NINODES → itype (disk_inode V mk_sb n) = 0;
  md_disk : (2 + Z.of_nat (length files)) mod 32 ≠ 0 → disk_ok V mk_sb (used_inodes files);
  md_hole : (2 + Z.of_nat (length files)) mod 32 = 0 →
    let p := disk_inode V mk_sb ROOTINO in let n := nblk (Z.of_nat (length (root_data files))) in
    isize p = (n + 1) * BSIZE ∧ blk_addr V p n = 0
}.

(** What the last steps of [main] change: the size of the root and the
    bitmap's sector. *)
Record finished (s : mkst) (V : gmap Z block) (files : list (bytes * list bytes)) : Prop := {
  fi_image : image s (nodes files);
  fi_sb : V !! 1 = Some sb_block;
  fi_sized : sized V;
  fi_data : ∀ b, 59 ≤ b → V !! b = img s !! b;
  fi_map : V !! 58 = Some (balloc_buf (freeblock s));
  fi_ino : ∀ n, 0 ≤ n < 208 → n ≠ 1 → ino_at V n = ino_at (img s) n;
  fi_root : on_disk (ino_at V 1) (set_isize (root_size files) (ino_at (img s) 1))
}.

Section Final.
Context (s : mkst) (V : gmap Z block) (files : list (bytes * list bytes)).
Context (Hok : files_ok files) (HF : finished s V files).

Lemma final_block : freeblock s = used_blocks files.
Proof. exact (im_block _ _ (fi_image _ _ _ HF)). Qed.
Lemma final_space : freeblock s ≤ FSSIZE.
Proof. rewrite final_block. apply Hok. Qed.

Lemma final_addrs n : 0 ≤ n < 208 → iaddrs (ino_at V n) = iaddrs (ino_at (img s) n).
Proof.
  intros Hn. destruct (decide (n = 1)) as [->|Hne].
  - apply (fi_root _ _ _ HF).
  - by rewrite (fi_ino _ _ _ HF) by done.
Qed.

Lemma node_index i ty data : nodes files !! i = Some (ty, data) → 0 ≤ 1 + Z.of_nat i < 208.
Proof.
  intros Hi. apply lookup_lt_Some in Hi. rewrite nodes_length in Hi. pose proof (fk_inodes _ Hok) as H. change NINODES with 200 in H. lia.
Qed.

Lemma final_frep i ty data :
  nodes files !! i = Some (ty, data) →
  let p := disk_inode V mk_sb (1 + Z.of_nat i) in
  frep V (freeblock s) p (nblk (Z.of_nat (length data))) data ∧
  ∀ k, data_slots data k → slot V p k = slot (img s) (ino_at (img s) (1 + Z.of_nat i)) k.
Proof.
  intros Hi p. pose proof (node_index _ _ _ Hi) as Hn. destruct (im_node _ _ (fi_image _ _ _ HF) i ty data Hi) as [N1 N2 N3 N4 N5].
  destruct (frep_frame _ V _ (freeblock s) _ _ _ N5 ltac:(lia)) as [F1 F2].
  { intros k Hk. apply (fi_data _ _ _ HF). exact (proj1 (fr_range _ _ _ _ _ N5 k Hk)). }
  pose proof (final_addrs _ Hn) as E. split.
  - eapply frep_ext; [symmetry; exact E|exact F1].
  - intros k Hk. rewrite <- F2 by done. by apply slot_ext.
Qed.

Lemma final_holds i ty data :
  nodes files !! i = Some (ty, data) → holds V (1 + Z.of_nat i) ty data (if decide (i = 0%nat) then root_size files else Z.of_nat (length data)).
Proof.
  intros Hi. pose proof (node_index _ _ _ Hi) as Hn. destruct (final_frep i ty data Hi) as [Hp _].
  destruct (im_node _ _ (fi_image _ _ _ HF) i ty data Hi) as [N1 N2 N3 N4 N5].
  destruct (disk_ino V (1 + Z.of_nat i)) as (D1 & _ & _ & D4 & D5 & _). unfold holds.
  assert (itype (ino_at V (1 + Z.of_nat i)) = ty ∧ inlink (ino_at V (1 + Z.of_nat i)) = 1 ∧
    isize (ino_at V (1 + Z.of_nat i)) = if decide (i = 0%nat) then root_size files else Z.of_nat (length data)) as (E1 & E2 & E3).
  { case_decide as E.
    - subst i. destruct (fi_root _ _ _ HF) as (R1 & _ & _ & R4 & R5 & _). change (1 + Z.of_nat 0) with 1 in *.
      split_and!; [exact (eq_trans R1 N1)|exact (eq_trans R4 N3)|exact R5].
    - by rewrite (fi_ino _ _ _ HF) by lia. }
  split_and!; [by rewrite D1|by rewrite D4|by rewrite D5| |by eapply frep_contents].
  eapply frep_file_ok; [exact Hp|done|apply HF|apply final_space].
Qed.

(** ** The root directory *)

Let root : inode := disk_inode V mk_sb ROOTINO.
Let len : Z := 16 * (2 + Z.of_nat (length files)).

Lemma root_node : nodes files !! 0%nat = Some (T_DIR, root_data files).
Proof. done. Qed.
Lemma root_len : Z.of_nat (length (root_data files)) = len.
Proof. rewrite root_length. unfold len. lia. Qed.
Lemma root_isize : isize root = root_size files.
Proof. destruct (final_holds 0 _ _ root_node) as (_ & _ & H & _). exact H. Qed.
Lemma root_blocks : len ≤ nblk len * 512 ∧ nblk len * 512 ≤ root_size files ∧ (len mod 512 ≠ 0 → root_size files = nblk len * 512).
Proof.
  unfold root_size. change BSIZE with 512. fold len. unfold nblk. pose proof (Z.div_mod len 512 ltac:(lia)) as E.
  pose proof (Z.mod_pos_bound len 512 ltac:(lia)) as Hm. set (q := len / 512) in *. set (r := len mod 512) in *.
  rewrite E. replace (512 * q + r + 511) with (q * 512 + (r + 511)) by lia. rewrite Z.div_add_l by lia.
  assert ((r + 511) / 512 = if decide (r = 0) then 0 else 1) as ->.
  { case_decide as H; [by rewrite H|]. replace (r + 511) with (1 * 512 + (r - 1)) by lia. rewrite Z.div_add_l, Z.div_small by lia. done. }
  case_decide; lia.
Qed.

(** An entry of the directory, and what is after the entries. *)
Lemma root_dirent k : 0 ≤ k → 16 * k + 16 ≤ nblk len * 512 →
  dirent V root k = match entries files !! Z.to_nat k with Some e => e | None => replicate 16 0 end.
Proof.
  intros Hk Hmax. destruct (final_frep 0 _ _ root_node) as [Hp _]. rewrite root_len in Hp. unfold dirent.
  change (1 + Z.of_nat 0) with ROOTINO in Hp. fold root in Hp.
  rewrite (frep_slice V _ _ _ _ (16 * k) 16 Hp) by lia. change (Z.to_nat 16) with 16%nat. replace (Z.to_nat (16 * k)) with (16 * Z.to_nat k)%nat by lia.
  destruct (entries files !! Z.to_nat k) as [e|] eqn:E.
  - apply concat_entry; [apply entries_16|done].
  - apply lookup_ge_None in E. rewrite entries_length in E. rewrite drop_app_ge by (rewrite root_length; lia).
    rewrite drop_replicate, take_replicate. f_equal. pose proof root_len. rewrite root_length in *. lia.
Qed.

Lemma root_entry k nm : names files !! k = Some nm →
  de_inum (dirent V root (Z.of_nat k)) = inum_of k ∧ upto_nul DIRSIZ (de_name (dirent V root (Z.of_nat k))) = nm.
Proof.
  intros Hk. pose proof (lookup_lt_Some _ _ _ Hk) as Hlt. rewrite names_length in Hlt. pose proof root_blocks as (Hb & _).
  destruct (entry_at files k nm Hok Hk) as (e & He & H1 & H2).
  rewrite root_dirent by (unfold len in *; lia). by rewrite Nat2Z.id, He.
Qed.

Lemma root_walk k e nm : names files !! k = Some nm → take DIRSIZ e = nm → walk V mk_sb ROOTINO [e] = Some (inum_of k).
Proof.
  intros Hk He. cbn [walk]. fold root. destruct (final_holds 0 _ _ root_node) as (Ht & _). change (1 + Z.of_nat 0) with ROOTINO in Ht. fold root in Ht.
  rewrite Ht. change (T_DIR =? T_DIR) with true. cbv iota. pose proof (lookup_lt_Some _ _ _ Hk) as Hlt. rewrite names_length in Hlt.
  assert (dir_find V root (take DIRSIZ e) = Some (Z.of_nat k)) as ->.
  { unfold dir_find. apply dir_find_first; [lia| | |].
    - rewrite Z.sub_0_r. rewrite root_isize. pose proof root_blocks as (H1 & H2 & _). rewrite Nat2Z.id.
      assert (Z.of_nat k < root_size files / 16); [|lia]. apply (Z.lt_le_trans _ (len / 16)); [unfold len; rewrite Z.mul_comm, Z.div_mul; lia|].
      apply Z.div_le_mono; lia.
    - intros j Hj. assert (is_Some (names files !! Z.to_nat j)) as [nm' Hnm'] by (apply lookup_lt_is_Some_2; rewrite names_length; lia).
      pose proof (root_entry _ _ Hnm') as [_ H2]. rewrite Z2Nat.id in H2 by lia. unfold dirent_is. rewrite H2.
      apply andb_false_iff. right. apply bool_decide_eq_false. rewrite He. intros ->.
      pose proof (fk_nodup _ Hok) as Hnd. fold (names files) in Hnd. pose proof (NoDup_lookup _ _ _ _ Hnd Hnm' Hk). lia.
    - pose proof (root_entry _ _ Hk) as [H1 H2]. unfold dirent_is. rewrite H1, H2, He. rewrite bool_decide_true by done.
      rewrite (proj2 (Z.eqb_neq _ 0)) by (unfold inum_of; lia). done. }
  cbn [walk]. by rewrite (proj1 (root_entry _ _ Hk)).
Qed.

(** ** The whole disk *)

Lemma final_type n : 1 ≤ n < 2 + Z.of_nat (length files) →
  itype (disk_inode V mk_sb n) = (if n =? 1 then T_DIR else T_FILE) ∧ inlink (disk_inode V mk_sb n) = 1.
Proof.
  intros Hn. assert (is_Some (nodes files !! Z.to_nat (n - 1))) as [[ty data] Hi] by (apply lookup_lt_is_Some_2; rewrite nodes_length; lia).
  destruct (final_holds _ _ _ Hi) as (H1 & H2 & _). replace (1 + Z.of_nat (Z.to_nat (n - 1))) with n in * by lia. rewrite H1, H2. split; [|done].
  destruct (Z.eqb_spec n 1) as [->|Hne]; [by injection Hi as <- _|].
  destruct (Z.to_nat (n - 1)) as [|i] eqn:E; [lia|]. change (nodes files !! S i) with (((λ f, (T_FILE, data_of f)) <$> files) !! i) in Hi.
  apply list_lookup_fmap_Some in Hi as (f & [= -> _] & _). done.
Qed.

Lemma final_sector n : 0 ≤ n < 208 → is_Some (V !! IBLOCK n mk_sb).
Proof.
  intros Hn. pose proof (iblock n Hn). destruct (fi_sized _ _ _ HF (IBLOCK n mk_sb)) as (d & Hd & _); [change FSSIZE with 1000; lia|]. by exists d.
Qed.

Lemma final_disk_ok : (2 + Z.of_nat (length files)) mod 32 ≠ 0 → disk_ok V mk_sb (used_inodes files).
Proof.
  intros Hmod n Hn. apply elem_of_list_to_set, elem_of_seqZ in Hn. destruct (final_type n ltac:(lia)) as [Ht Hl].
  pose proof (fk_inodes _ Hok) as Hin. change NINODES with 200 in Hin.
  assert (len mod 512 ≠ 0) as Hmod2. { unfold len. change 512 with (16 * 32). rewrite Z.mul_mod_distr_l by lia. lia. }
  pose proof root_blocks as (Hb1 & Hb2 & Hb3). specialize (Hb3 Hmod2).
  assert (itype (disk_inode V mk_sb n) = T_DIR → n = 1) as Hdir. { rewrite Ht. by destruct (Z.eqb_spec n 1). }
  split.
  - split; [by apply final_sector; lia|rewrite Ht; by destruct (_ =? _)|by rewrite Hl|].
    intros Hd. rewrite (Hdir Hd). exists (nblk len). destruct (final_holds 0 _ _ root_node) as (_ & _ & Hs & Hfo & _).
    rewrite root_len in Hfo. split; [exact Hfo|]. change (1 + Z.of_nat 0) with 1 in Hs. rewrite Hs. rewrite decide_True by done. rewrite Hb3.
    change BSIZE with 512. split; [lia|]. change 512 with (32 * 16) at 1. by rewrite Z.mul_assoc, Z.mod_mul.
  - intros Hd k Hk. rewrite (Hdir Hd) in *. fold root in Hk |- *. change (disk_inode V mk_sb 1) with root in *. rewrite root_isize, Hb3 in Hk.
    assert (16 * k + 16 ≤ nblk len * 512) as Hk2.
    { replace (nblk len * 512) with (nblk len * 32 * 16) in * by lia. rewrite Z.div_mul in Hk by done. lia. }
    destruct (decide (k < 2 + Z.of_nat (length files))) as [Hlt|Hge].
    + right. assert (is_Some (names files !! Z.to_nat k)) as [nm Hnm] by (apply lookup_lt_is_Some_2; rewrite names_length; lia).
      pose proof (root_entry _ _ Hnm) as [H1 _]. rewrite Z2Nat.id in H1 by lia. rewrite H1.
      apply elem_of_list_to_set, elem_of_seqZ. unfold inum_of. lia.
    + left. rewrite root_dirent by lia. rewrite lookup_ge_None_2 by (rewrite entries_length; lia). done.
Qed.

Lemma final_alloc b : 0 ≤ b < FSSIZE → BBLOCK b mk_sb = 58 ∧ alloc V mk_sb b = (b <? used_blocks files).
Proof.
  intros Hb. change FSSIZE with 1000 in Hb. unfold alloc.
  assert (BBLOCK b mk_sb = 58) as ->. { unfold BBLOCK. change (sb_bmapstart mk_sb) with 58. rewrite Z.div_small; [done|]. change BPB with 4096. lia. }
  split; [done|]. rewrite (lookup_total_correct _ _ _ (fi_map _ _ _ HF)), Z.mod_small by (change BPB with 4096; lia).
  pose proof final_space as Hs. rewrite final_block in *. unfold used_blocks in *. change nmeta with 59 in *. change FSSIZE with 1000 in *.
  pose proof (files_total_nonneg (nodes files)). apply balloc_buf_bits; change BPB with 4096; lia.
Qed.

Lemma final_made : made V files.
Proof.
  split.
  - exists sb_block. split; [apply HF|]. by vm_compute.
  - split; [|intros b Hb; by apply final_alloc]. pose proof (files_total_nonneg (nodes files)) as Ht.
    split; change (sb_size mk_sb) with FSSIZE; intros b Hb; destruct (final_alloc b Hb) as [E Ea].
    + rewrite E. by apply HF.
    + rewrite E. rewrite (proj2 (final_alloc 58 ltac:(change FSSIZE with 1000; lia))). unfold used_blocks. change nmeta with 59. lia.
    + intros _. destruct (fi_sized _ _ _ HF b Hb) as (d & Hd & _). by exists d.
  - exact (final_holds 0 _ _ root_node).
  - intros i f Hf. assert (nodes files !! S i = Some (T_FILE, data_of f)) as Hi.
    { change (nodes files !! S i) with (((λ f, (T_FILE, data_of f)) <$> files) !! i). by rewrite list_lookup_fmap, Hf. }
    pose proof (final_holds _ _ _ Hi) as H. rewrite decide_False in H by lia. by replace (1 + Z.of_nat (S i)) with (2 + Z.of_nat i) in H by lia.
  - split; [by apply (root_walk 0 [46] [46])|by apply (root_walk 1 [46; 46] [46; 46])].
  - intros i f Hf. erewrite (root_walk (S (S i))); [unfold inum_of; f_equal; lia| |done].
    change (names files !! S (S i)) with (((λ f, take DIRSIZ (name_of f)) <$> files) !! i). by rewrite list_lookup_fmap, Hf.
  - intros i j [ti di] [tj dj] a b Hij Hi Hj Ha Hb. destruct (final_frep i _ _ Hi) as [_ Ei]. destruct (final_frep j _ _ Hj) as [_ Ej].
    rewrite <- !slot_block by lia. rewrite Ei, Ej by (by apply slots_block).
    eapply (im_disj _ _ (fi_image _ _ _ HF)); [exact Hij|exact Hi|exact Hj|by apply slots_block..].
  - intros n Hn. change NINODES with 200 in Hn. destruct (disk_ino V n) as (-> & _). rewrite (fi_ino _ _ _ HF) by lia.
    apply (im_free _ _ (fi_image _ _ _ HF)). rewrite (im_next _ _ (fi_image _ _ _ HF)), nodes_length. lia.
  - apply final_disk_ok.
  - intros Hmod. fold root. cbv zeta. rewrite root_len, root_isize. change BSIZE with 512.
    pose proof (fk_inodes _ Hok) as Hin. change NINODES with 200 in Hin.
    assert (len mod 512 = 0) as Hmod2. { unfold len. change 512 with (16 * 32). rewrite Z.mul_mod_distr_l by lia. lia. }
    pose proof (Z.div_mod len 512 ltac:(lia)) as E. assert (nblk len = len / 512) as En.
    { unfold nblk. rewrite E at 1. rewrite Hmod2. replace (512 * (len / 512) + 0 + 511) with (len / 512 * 512 + 511) by lia.
      rewrite Z.div_add_l by done. change (511 / 512) with 0. lia. }
    split; [unfold root_size; change BSIZE with 512; fold len; by rewrite En|].
    destruct (final_frep 0 _ _ root_node) as [Hp _]. rewrite root_len in Hp. change (1 + Z.of_nat 0) with ROOTINO in Hp. fold root in Hp.
    apply (fr_null _ _ _ _ _ Hp); unfold len in *; lia.
Qed.
End Final.

(** The last steps of [main]. *)
Lemma K_finish t s files (Q : unit → mkst → Prop) :
  files_ok files → image s (nodes files) → img s !! 1 = Some sb_block →
  (∀ s', finished s (img s') files → Q tt s') →
  wpg t (din ← rinode 1; let off := (xint (isize din) / BSIZE + 1) * BSIZE in
    winode 1 (set_isize (xint off) din) ;; b ← gets freeblock; balloc b) Q s.
Proof.
  intros Hok Him Hsb HQ. pose proof (im_disk _ _ Him) as HD. pose proof (fk_inodes _ Hok) as Hin. change NINODES with 200 in Hin.
  destruct (im_node _ _ Him 0 _ _ eq_refl) as [N1 [N2a N2b] N3 N4 N5]. change (1 + Z.of_nat 0) with 1 in *. set (p := ino_at (img s) 1) in *.
  pose proof (im_block _ _ Him) as Hfb. pose proof (fk_space _ Hok) as Hsp. pose proof (dk_meta _ HD) as Hmeta. change nmeta with 59 in Hmeta.
  assert (Z.of_nat (length (root_data files)) = 16 * (2 + Z.of_nat (length files))) as Hrl by (rewrite root_length; lia).
  apply wpg_bind, K_rinode; [done|lia|]. fold p. cbv zeta. rewrite N4, Hrl. rewrite (xint_id (16 * _)) by lia. fold (root_size files).
  assert (0 ≤ root_size files < 2 ^ 32) as Hrs.
  { unfold root_size. change BSIZE with 512. pose proof (Z.div_mod (16 * (2 + Z.of_nat (length files))) 512 ltac:(lia)).
    pose proof (Z.mod_pos_bound (16 * (2 + Z.of_nat (length files))) 512 ltac:(lia)). lia. }
  rewrite xint_id by done. set (p1 := set_isize (root_size files) p).
  assert (fields_ok p1) as Hf.
  { split; [change (0 ≤ itype p < 2 ^ 15); by rewrite N1|exact N2a|exact N2b|change (0 ≤ inlink p < 2 ^ 15); by rewrite N3|exact Hrs|apply N5|].
    eapply (frep_addrs _ _ p); [exact N5|]. lia. }
  apply wpg_bind, K_winode; [done|lia|]. intros d Hd Hdl. apply wpg_bind, wpg_gets. unfold balloc.
  rewrite (proj2 (Z.ltb_lt _ _)) by (change FSSIZE with 1000 in Hsp; change (BSIZE * 8) with 4096; cbn [freeblock set_img]; lia).
  apply K_wsect. change (sb_bmapstart mk_sb) with 58. cbn [img set_img freeblock]. pose proof (iblock 1 ltac:(lia)) as Hib. apply HQ.
  set (V1 := <[IBLOCK 1 mk_sb := _]> (img s)). cbn [img set_img]. set (V := <[58 := _]> V1).
  assert (∀ n, 0 ≤ n < 208 → ino_at V n = ino_at V1 n) as HV.
  { intros n Hn. apply ino_at_same, lookup_insert_ne. pose proof (iblock n Hn). lia. }
  split; try done.
  - unfold V, V1. rewrite !lookup_insert_ne by lia. exact Hsb.
  - apply sized_insert; [apply sized_insert; [apply HD|by rewrite dinode_store_length]|].
    change FSSIZE with 1000 in *. apply (balloc_buf_bits _ 0); change BPB with 4096; lia.
  - intros b Hb. unfold V, V1. by rewrite !lookup_insert_ne by lia.
  - apply lookup_insert_eq.
  - intros n Hn Hne. rewrite HV by done. by apply ino_write_ne.
  - rewrite HV by lia. by apply ino_write.
Qed.

(** C40. From slash-free names that differ in the fourteen bytes of a directory
    entry, fewer than two hundred inodes, files of at most 140 blocks and
    enough room on the disk, [mkfs] builds an image on which the kernel's file
    system works: the superblock decodes to the layout that [mkfs] used; the
    bitmap marks exactly the blocks in use; every file is the inode that the
    kernel's path lookup finds under its name, of type [T_FILE] with one link,
    its size and its bytes, all of whose blocks are allocated; the root is a
    directory in which ["."] and [".."] lead back to it; no block is in two
    files; the remaining inodes are free.  When the number of entries of the
    root is not a multiple of 32 the disk is well formed as path lookup needs
    it; when it is, the rounded size of the root covers a block that the root
    does not have. *)
Theorem mkfs_makes_file_system files :
  files_ok files → ∃ s, mkfs files mk_boot = Ok (tt, s) ∧ made (img s) files.
Proof.
  intros Hok. destruct (wp_ok (mkfs files) (λ _ s, made (img s) files) mk_boot) as ([] & s & E & H); [|eauto].
  unfold mkfs. apply wpg_bind. apply (K_mkfs_files true files); [done|]. intros s Him Hsb.
  apply (K_finish true s files); [done..|]. intros s' Hfin. by eapply final_made.
Qed.

(** The files [_f], in two pieces, and [g], empty. *)
Definition demo_files : list (bytes * list bytes) := [([95; 102], [replicate 512 7; [104; 105]]); ([103], [])].

Lemma demo_files_ok : files_ok demo_files.
Proof.
  split.
  - apply (bool_decide_unpack _). by vm_compute.
  - apply (bool_decide_unpack _). by vm_compute.
  - by vm_compute.
  - apply (bool_decide_unpack _). by vm_compute.
  - apply Z.leb_le. by vm_compute.
Qed.

Lemma mkfs_makes_file_system_witness :
  ∃ s, mkfs demo_files mk_boot = Ok (tt, s) ∧ walk (img s) mk_sb ROOTINO [[102]] = Some 2 ∧
    isize (disk_inode (img s) mk_sb 2) = 514 ∧ disk_ok (img s) mk_sb {[1; 2; 3]}.
Proof.
  destruct (mkfs_makes_file_system demo_files demo_files_ok) as (s & E & H). exists s. split; [exact E|].
  split; [exact (md_names _ _ H 0%nat _ eq_refl)|]. split.
  - destruct (md_files _ _ H 0%nat _ eq_refl) as (_ & _ & Hs & _). exact Hs.
  - pose proof (md_disk _ _ H) as Hd. replace {[1; 2; 3]} with (used_inodes demo_files) by (vm_compute; reflexivity).
    apply Hd. vm_compute. discriminate.
Defined.
