(* ===== verification/Trap.v ===== *)
(** * Traps and the system calls on processes (trap.c, sysproc.c, syscall.c)

    The entry points of the kernel of Project1, over the process management of
    [Mlfq]: the interrupts, and the dispatch of system calls to the process and
    scheduler calls.  The calls on files and the work of the disk, the
    keyboard and the serial port are given by an interface, [TrapEnv]: what
    their handlers do to the processes, taking a lock, waking sleepers up and
    releasing the lock, is here ([device_intr]); what they do to their own
    data is in [Ide], [Console] and [Kbd].

    A call that gives the core up ends here with what is left to do when the
    scheduler comes back to the process ([blocked], [In_tick]); [trap_resume]
    does that. *)

From S2P Require Export Bytes MlfqSystem.
Local Open Scope Z_scope.

Definition T_IRQ0 : Z := 32.
Definition IRQ_TIMER : Z := 0.
Definition IRQ_KBD : Z := 1.
Definition IRQ_COM1 : Z := 4.
Definition IRQ_IDE : Z := 14.
Definition IRQ_SPURIOUS : Z := 31.
Definition T_SYSCALL : Z := 64.
Definition T_MLFQLOCK : Z := 129.
Definition T_MLFQUNLOCK : Z := 130.
Definition DPL_USER : Z := 3.

(** What is left of a system call that sleeps: in [wait], in the loop of
    [sys_sleep], in [yield], or in a call on files. *)
Inductive blocked := B_wait | B_sleep (n ticks0 : Z) | B_yield | B_file.
(** A system call returned a value, gave the core up, or does not return. *)
Inductive call := Done (v : Z) | Blocked (b : blocked) | Gone.
(** A trap went back to what it interrupted, ended the process, or gave the
    core up in a system call or at a clock tick. *)
Inductive stage := Back | Left | In_call (b : blocked) | In_tick.

(** The processes, [ticks], the memory of each process and the devices. *)
Record tst {KE : KernelEnv} (dev : Type) := mkTst { tk : kst; gticks : Z; umem : nat → bytes; devs : dev }.
Arguments mkTst {KE dev}.
Arguments tk {KE dev}.
Arguments gticks {KE dev}.
Arguments umem {KE dev}.
Arguments devs {KE dev}.

(** The addresses of [ticks], [idelock] and [cons.lock]; the devices, which
    know nothing of the processes: the end of an interrupt, and what [ideintr]
    and [consoleintr] do between [acquire] and [release], with the channels they
    wake up, in order; the system calls that are not here. *)
Class TrapEnv {KE : KernelEnv} (dev : Type) := {
  ticks_addr : Z;
  idelock : Z;
  cons_lock : Z;
  lapiceoi : nat → M dev unit;
  ide_service : M dev (list chan);
  kbd_service : M dev (list chan);
  uart_service : M dev (list chan);
  file_call : Z → nat → M (tst dev) call;
  file_resume : nat → M (tst dev) call
}.

Section Trap.
Context {KE : KernelEnv} {dev : Type} {TE : TrapEnv dev}.

Definition set_tk (k : kst) (s : tst dev) : tst dev := mkTst k (gticks s) (umem s) (devs s).
Definition set_gticks (v : Z) (s : tst dev) : tst dev := mkTst (tk s) v (umem s) (devs s).
Definition set_devs (d : dev) (s : tst dev) : tst dev := mkTst (tk s) (gticks s) (umem s) d.
Definition ontk {A} (m : M kst A) : M (tst dev) A := zoom tk set_tk m.
Definition ondev {A} (m : M dev A) : M (tst dev) A := zoom devs set_devs m.

Definition cur (c : nat) : M (tst dev) ptr := ontk (onm (myproc c)).
Definition getp (p : ptr) : M (tst dev) proc := ontk (pget p).

(** ** Arguments *)

Definition fetchint (c : nat) (addr : Z) : M (tst dev) (option Z) :=
  p ← cur c;
  pr ← getp p;
  if (addr >=? sz pr) || (u32 (addr + 4) >? sz pr) then mret None
  else
    i ← deref (λ _, p);
    b ← deref (λ s, if bool_decide (0 ≤ addr ∧ addr + 4 ≤ Z.of_nat (length (umem s i))) then Some (umem s i) else None);
    mret (Some (i32 (get32 b (Z.to_nat addr)))).
Definition argint (c : nat) (n : Z) : M (tst dev) (option Z) :=
  p ← cur c;
  pr ← getp p;
  fetchint c (u32 (tf_esp (tf pr) + 4 + 4 * n)).

(** ** The system calls *)

Definition sys_fork (c : nat) : M (tst dev) call := r ← ontk (fork c); mret (Done r).
Definition sys_exit (c : nat) : M (tst dev) call := ontk (exit c) ;; mret Gone.

Definition wait_call (r : option Z) : call := match r with Some v => Done v | None => Blocked B_wait end.
Definition sys_wait (c : nat) : M (tst dev) call := r ← ontk (wait c); mret (wait_call r).

Definition sys_kill (c : nat) : M (tst dev) call :=
  a ← argint c 0;
  match a with
  | None => mret (Done (-1))
  | Some pid => r ← ontk (kill c pid); mret (Done r)
  end.
Definition sys_getpid (c : nat) : M (tst dev) call := p ← cur c; pr ← getp p; mret (Done (pid pr)).

Definition sys_sbrk (c : nat) : M (tst dev) call :=
  a ← argint c 0;
  match a with
  | None => mret (Done (-1))
  | Some n =>
      p ← cur c;
      pr ← getp p;
      let addr := i32 (sz pr) in
      r ← ontk (growproc c n);
      if r <? 0 then mret (Done (-1)) else mret (Done addr)
  end.

(** The loop of [sys_sleep], with [tickslock] held: [ticks - ticks0 < n]
    compares unsigned numbers. *)
Definition sleep_turn (c : nat) (n ticks0 : Z) : M (tst dev) call :=
  t ← gets gticks;
  if u32 (t - ticks0) <? u32 n then
    p ← cur c;
    pr ← getp p;
    if negb (killed pr =? 0) then
      ontk (onm (release c tickslock)) ;;
      mret (Done (-1))
    else
      ontk (sleep c (ch_addr ticks_addr) tickslock (K_sleep tickslock)) ;;
      mret (Blocked (B_sleep n ticks0))
  else
    ontk (onm (release c tickslock)) ;;
    mret (Done 0).
Definition sys_sleep (c : nat) : M (tst dev) call :=
  a ← argint c 0;
  match a with
  | None => mret (Done (-1))
  | Some n =>
      ontk (onm (acquire c tickslock)) ;;
      ticks0 ← gets gticks;
      sleep_turn c n ticks0
  end.

Definition sys_uptime (c : nat) : M (tst dev) call :=
  ontk (onm (acquire c tickslock)) ;;
  xticks ← gets gticks;
  ontk (onm (release c tickslock)) ;;
  mret (Done (i32 xticks)).

Definition sys_yield (c : nat) : M (tst dev) call := ontk (yield c) ;; mret (Blocked B_yield).
Definition sys_getLevel (c : nat) : M (tst dev) call := p ← cur c; pr ← getp p; mret (Done (queuelevel pr)).
Definition sys_setPriority (c : nat) : M (tst dev) call :=
  a ← argint c 0;
  match a with
  | None => mret (Done (-1))
  | Some pid =>
      b ← argint c 1;
      match b with
      | None => mret (Done (-1))
      | Some priority => ontk (setPrioity_arrangeQueue c pid priority) ;; mret (Done 0)
      end
  end.
(** A wrong password ends the process. *)
Definition sys_schedulerLock (c : nat) : M (tst dev) call :=
  a ← argint c 0;
  match a with
  | None => mret (Done (-1))
  | Some password =>
      ontk (schedulerLock c password) ;;
      mret (if password =? scheduler_password then Done 0 else Gone)
  end.
Definition sys_schedulerUnlock (c : nat) : M (tst dev) call :=
  a ← argint c 0;
  match a with
  | None => mret (Done (-1))
  | Some password =>
      ontk (schedulerUnlock c password) ;;
      mret (if password =? scheduler_password then Done 0 else Gone)
  end.

(** ** [syscall] *)

Definition NSYSCALLS : Z := 28.
(** The table [syscalls]. *)
Definition syscalls (num : Z) (c : nat) : M (tst dev) call :=
  match num with
  | 1 => sys_fork c
  | 2 => sys_exit c
  | 3 => sys_wait c
  | 6 => sys_kill c
  | 11 => sys_getpid c
  | 12 => sys_sbrk c
  | 13 => sys_sleep c
  | 14 => sys_uptime c
  | 23 => sys_yield c
  | 24 => sys_getLevel c
  | 25 => sys_setPriority c
  | 26 => sys_schedulerLock c
  | 27 => sys_schedulerUnlock c
  | num => file_call num c
  end.

(** [curproc->tf->eax = ...], when the call returns. *)
Definition set_result (curproc : ptr) (r : call) : M (tst dev) unit :=
  match r with
  | Done v => pr ← getp curproc; ontk (pset curproc (set_tf (tf_set_eax (u32 v) (tf pr))))
  | _ => mret tt
  end.
Definition syscall (c : nat) : M (tst dev) call :=
  curproc ← cur c;
  pr ← getp curproc;
  let num := i32 (tf_eax (tf pr)) in
  r ← (if (num >? 0) && (num <? NSYSCALLS) then syscalls num c else mret (Done (-1)));
  set_result curproc r ;;
  mret r.

(** ** [trap] *)

(** [if(myproc()->killed) exit();] after a system call. *)
Definition syscall_return (c : nat) (r : call) : M (tst dev) stage :=
  match r with
  | Done _ =>
      p ← cur c;
      pr ← getp p;
      if negb (killed pr =? 0) then ontk (exit c) ;; mret Left else mret Back
  | Blocked b => mret (In_call b)
  | Gone => mret Left
  end.

(** [myproc() && myproc()->killed && (tf->cs&3) == DPL_USER] *)
Definition killed_in_user (c : nat) (tf : trapframe) : M (tst dev) bool :=
  p ← cur c;
  if ptr_eqb p None then mret false else
  p ← cur c;
  pr ← getp p;
  mret (negb (killed pr =? 0) && (Z.land (tf_cs tf) 3 =? DPL_USER)).

(** The end of [trap], after [yield]. *)
Definition trap_end (c : nat) (tf : trapframe) : M (tst dev) stage :=
  k ← killed_in_user c tf;
  if (k : bool) then ontk (exit c) ;; mret Left else mret Back.

(** The handler of a device: its data and its registers are apart from the
    processes, so that the sleepers can be woken up when it has done its work.
    [procdump], which [consoleintr] may call at the end, only prints. *)
Definition device_intr (c : nat) (lk : Z) (service : M dev (list chan)) : M (tst dev) unit :=
  ontk (onm (acquire c (lock_at lk))) ;;
  woken ← ondev service;
  for_each woken (λ ch, ontk (wakeup c ch)) ;;
  ontk (onm (release c (lock_at lk))).
Definition ideintr (c : nat) : M (tst dev) unit := device_intr c idelock ide_service.
Definition kbdintr (c : nat) : M (tst dev) unit := device_intr c cons_lock kbd_service.
Definition uartintr (c : nat) : M (tst dev) unit := device_intr c cons_lock uart_service.

(** [case T_IRQ0 + IRQ_TIMER] *)
Definition clock_tick (c : nat) : M (tst dev) unit :=
  i ← ontk (onm (mycpu c));
  when (bool_decide (i = 0%nat))
    (ontk (onm (acquire c tickslock)) ;;
     t ← gets gticks;
     modify (set_gticks (u32 (t + 1))) ;;
     ontk (wakeup c (ch_addr ticks_addr)) ;;
     ontk (onm (release c tickslock))) ;;
  ondev (lapiceoi c).

(** The [switch] of [trap]. *)
Definition trap_cause (c : nat) (tf : trapframe) : M (tst dev) unit :=
  let n := tf_trapno tf in
  if n =? T_MLFQLOCK then ontk (schedulerLock c 2017029416)
  else if n =? T_MLFQUNLOCK then ontk (schedulerUnlock c 2017029416)
  else if n =? T_IRQ0 + IRQ_TIMER then clock_tick c
  else if n =? T_IRQ0 + IRQ_IDE then ideintr c ;; ondev (lapiceoi c)
  else if n =? T_IRQ0 + IRQ_IDE + 1 then mret tt
  else if n =? T_IRQ0 + IRQ_KBD then kbdintr c ;; ondev (lapiceoi c)
  else if n =? T_IRQ0 + IRQ_COM1 then uartintr c ;; ondev (lapiceoi c)
  else if (n =? T_IRQ0 + 7) || (n =? T_IRQ0 + IRQ_SPURIOUS) then ondev (lapiceoi c)
  else
    p ← cur c;
    if ptr_eqb p None || (Z.land (tf_cs tf) 3 =? 0) then panic "trap"
    else
      p ← cur c;
      ontk (pset p (set_killed 1)).

(** [myproc() && myproc()->state == RUNNING && tf->trapno == T_IRQ0+IRQ_TIMER] *)
Definition preempts (c : nat) (tf : trapframe) : M (tst dev) bool :=
  p ← cur c;
  if ptr_eqb p None then mret false else
  p ← cur c;
  pr ← getp p;
  mret (bool_decide (state pr = RUNNING) && (tf_trapno tf =? T_IRQ0 + IRQ_TIMER)).

Definition trap (c : nat) (tf : trapframe) : M (tst dev) stage :=
  if tf_trapno tf =? T_SYSCALL then
    p ← cur c;
    pr ← getp p;
    if negb (killed pr =? 0) then ontk (exit c) ;; mret Left else
    p ← cur c;
    ontk (pset p (set_tf tf)) ;;
    r ← syscall c;
    syscall_return c r
  else
    trap_cause c tf ;;
    k ← killed_in_user c tf;
    if (k : bool) then ontk (exit c) ;; mret Left else
    y ← preempts c tf;
    if (y : bool) then ontk (yield c) ;; mret In_tick else
    trap_end c tf.

(** The process [curproc] goes on; [r] is the result of [wait] if it was
    there. *)
Definition call_resume (c : nat) (b : blocked) (r : option Z) : M (tst dev) call :=
  match b with
  | B_wait => mret (wait_call r)
  | B_sleep n ticks0 => sleep_turn c n ticks0
  | B_yield => mret (Done 0)
  | B_file => file_resume c
  end.
Definition trap_resume (c : nat) (curproc : ptr) (tf : trapframe) (st : stage) (r : option Z) : M (tst dev) stage :=
  match st with
  | In_tick => trap_end c tf
  | In_call b =>
      r ← call_resume c b r;
      set_result curproc r ;;
      syscall_return c r
  | _ => fault
  end.
End Trap.
