(* ===== verification/TrapSteps.v ===== *)
(** * Traps as sequences of kernel steps: the logic of paths

    [path m Q s]: from [s], [m] returns, its changes to the processes are a
    sequence of steps of [MlfqSystem], and [Q] holds; or it stops with one of
    the two panics that the code means to make.  There is no fault and no
    endless loop.  The last section puts the models of the devices ([Ide],
    [Kbd]) under the handlers and shows that they return. *)

From S2P Require Export Trap.
From S2P Require Ide Kbd.
Local Open Scope Z_scope.

(** The calls of the process management into the rest of the kernel return. *)
Definition returns {S A} (m : M S A) : Prop := ∀ s, ∃ a s', m s = Ok (a, s').
Class KernelReturns (KE : KernelEnv) : Prop := {
  kr_kalloc : returns kalloc;
  kr_kfree k : returns (kfree k);
  kr_copyuvm d n : returns (copyuvm d n);
  kr_allocuvm d o n : returns (allocuvm d o n);
  kr_deallocuvm d o n : returns (deallocuvm d o n);
  kr_freevm d : returns (freevm d);
  kr_filedup f : returns (filedup f);
  kr_fileclose f : returns (fileclose f);
  kr_idup i : returns (idup i);
  kr_iput i : returns (iput i);
  kr_begin_op : returns begin_op;
  kr_end_op : returns end_op
}.
(** So do the devices, from the states [dev_ok]. *)
Class DevReturns {KE : KernelEnv} {dev : Type} (TE : TrapEnv dev) := {
  dev_ok : dev → Prop;
  dr_eoi c : returns (lapiceoi c);
  dr_ide d : dev_ok d → ∃ l d', ide_service d = Ok (l, d');
  dr_kbd d : dev_ok d → ∃ l d', kbd_service d = Ok (l, d');
  dr_uart d : dev_ok d → ∃ l d', uart_service d = Ok (l, d')
}.

(** The panics of a trap: an exception in the kernel, and the end of init. *)
Definition stops (msg : string) : Prop := msg = "trap"%string ∨ msg = "init exiting"%string.

Section Returns.
Context {KE : KernelEnv} {HL : KernelEnvLaws KE} {HT : KernelReturns KE}.

Lemma wp_returns {S A} (m : M S A) s : returns m → wp m (λ _ _, True) s.
Proof. intros H. destruct (H s) as (a & s' & E). by eapply ok_wpg. Qed.

Lemma fork_env_ok d : fork_env true (λ _, True) (λ _, True) d.
Proof.
  destruct HL as [Hf Hd]. split; intros.
  - eapply wpg_mono; [apply wp_returns, HT|]. done.
  - eapply wpg_mono; [apply wp_returns, HT|]. done.
  - eapply wpg_mono; [apply wp_returns, HT|]. done.
  - destruct (kr_filedup f e) as (g & e' & E). eapply ok_wpg; [exact E|]. split; [by eapply Hf|done].
  - destruct (kr_idup (cwd d) e) as (g & e' & E). eapply ok_wpg; [exact E|]. split; [by eapply Hd|done].
Qed.
Lemma exit_env_ok d : exit_env true (λ _, True) d.
Proof. split; intros; (eapply wpg_mono; [apply wp_returns, HT|done]). Qed.
Lemma reap_runs_ok A d : reap_runs true A d.
Proof. eapply wpg_mono; [apply wp_returns, HT|]. intros [] e _. apply wp_returns, HT. Qed.
End Returns.

Section Paths.
Context {KE : KernelEnv} {dev : Type} {TE : TrapEnv dev} {HL : KernelEnvLaws KE} {HT : KernelReturns KE} {DR : DevReturns TE}.
Implicit Types (s : tst dev) (c p : nat) (o : ptr).

Definition path {T} (m : M (tst dev) T) (Q : T → tst dev → Prop) s : Prop :=
  match m s with
  | Ok (r, s') => rtc kstep (tk s) (tk s') ∧ Q r s'
  | Panic msg => stops msg
  | _ => False
  end.

(** Between sections, core [c] running [o]; or inside the section of [lk]. *)
Definition here c o s : Prop := KInv (tk s) ∧ cprocs (kmach (tk s)) !! c = Some o.
Definition inside c o lk s : Prop :=
  SInv (tk s) ∧ in_crit c lk (kmach (tk s)) ∧ cprocs (kmach (tk s)) !! c = Some o.

Lemma path_ret {T} (r : T) (Q : T → tst dev → Prop) s : Q r s → path (mret r) Q s.
Proof. intros H. by split. Qed.

Lemma path_bind {T U} (m : M (tst dev) T) (k : T → M (tst dev) U) (Q : U → tst dev → Prop) s :
  path m (λ r, path (k r) Q) s → path (m ≫= k) Q s.
Proof.
  unfold path, mbind, M_bind. destruct (m s) as [[a s1]|?| |]; [|done..]. intros [H1 H].
  destruct (k a s1) as [[b s2]|?| |]; [|done..]. destruct H as [H2 HQ]. split; [by etrans|done].
Qed.

Lemma path_mono {T} (m : M (tst dev) T) (Q Q' : T → tst dev → Prop) s :
  path m Q s → (∀ r s', Q r s' → Q' r s') → path m Q' s.
Proof. unfold path. intros H HQ. destruct (m s) as [[a s1]|?| |]; [|done..]. destruct H. split; eauto. Qed.

(** A call of the process management that is one step. *)
Lemma path_step {T} (m : M kst T) (P : T → kst → Prop) (Q : T → tst dev → Prop) s :
  wp m P (tk s) → (∀ r k, m (tk s) = Ok (r, k) → P r k → kstep (tk s) k ∧ Q r (set_tk k s)) → path (ontk m) Q s.
Proof.
  intros (r & k & E & HP)%wp_ok H. destruct (H r k E HP) as [Hs HQ]. unfold path, ontk, zoom. rewrite E. split; [by apply rtc_once|done].
Qed.

(** Code that does not change the processes. *)
Lemma path_same {T} (m : M (tst dev) T) (Q : T → tst dev → Prop) s r s' :
  m s = Ok (r, s') → tk s' = tk s → Q r s' → path m Q s.
Proof. intros E Et HQ. unfold path. rewrite E, Et. split; [reflexivity|done]. Qed.

Lemma path_gets {T} (f : tst dev → T) (Q : T → tst dev → Prop) s : Q (f s) s → path (gets f) Q s.
Proof. intros H. by eapply path_same. Qed.

Lemma path_panic {T} msg (Q : T → tst dev → Prop) s : stops msg → path (panic msg) Q s.
Proof. done. Qed.

Lemma here_idle c o s : here c o s → idle (kmach (tk s)).
Proof. intros [(A & HR & Hi) _]. by eapply sinv_idle. Qed.

Lemma here_sinv c o s : here c o s → SInv (tk s).
Proof. intros [H _]. by apply kinv_sinv. Qed.

Lemma here_abs c o s : here c o s → ∃ A, R (tk s) A ∧ Inv idle A ∧ cprocs (amach A) !! c = Some o.
Proof. intros [(A & HR & Hi) Hc]. exists A. rewrite (R_kmach _ _ HR). done. Qed.

(** The running process: its slot, its stack and its page table. *)
Definition runs_ok (d : proc) : Prop := kstack d ≠ 0 ∧ pgdir d ≠ 0.
Lemma sinv_proc c p k : SInv k → runs k c p → ∃ d, procs k !! p = Some d ∧ runs_ok d.
Proof.
  intros (A & HR & Hcase) Hr. pose proof (R_runs _ _ _ _ HR Hr) as Ha.
  assert (∃ I, Inv I A) as [I Hi] by (destruct Hcase as [?|(? & ? & ? & ?)]; eauto).
  destruct (inv_running _ _ _ _ Hi Ha) as (d & Hd & Hst). destruct (R_procs _ _ _ _ HR Hd) as (pr & Hp & <-).
  exists pr. split; [done|]. destruct (inv_live _ _ Hi p _ Hd) as [_ H]. rewrite Hst in H. exact H.
Qed.

Lemma path_getp_at p d (Q : proc → tst dev → Prop) s :
  procs (tk s) !! p = Some d → Q d s → path (getp (Some p)) Q s.
Proof.
  intros Hd H. assert (getp (Some p) s = Ok (d, s)) as E; [|by eapply path_same].
  unfold getp, ontk, zoom, pget, deref, mbind, M_bind. cbn. rewrite Hd. by destruct s.
Qed.
Lemma path_getp c p (Q : proc → tst dev → Prop) s :
  here c (Some p) s → (∀ d, procs (tk s) !! p = Some d → runs_ok d → Q d s) → path (getp (Some p)) Q s.
Proof.
  intros Hh H. destruct (sinv_proc c p (tk s) (here_sinv _ _ _ Hh)) as (d & Hd & Hr); [apply Hh|].
  eapply path_getp_at; [exact Hd|by apply H].
Qed.

(** ** Steps of the machine *)

(** [myproc] is a step: it moves the nesting count. *)
Lemma path_cur c o (Q : ptr → tst dev → Prop) s :
  here c o s → (∀ m, let s' := set_tk (set_kmach m (tk s)) s in here c o s' → Q o s') → path (cur c) Q s.
Proof.
  intros Hh HQ. pose proof (here_idle _ _ _ Hh) as Hid. destruct Hh as [Hk Hc].
  destruct (myproc_idle c _ _ Hc Hid) as (m' & Hm & Hid' & Hcp & _).
  eapply (path_step _ (λ r k, r = o ∧ k = set_kmach m' (tk s))).
  - apply wpg_zoom. by eapply ok_wpg.
  - intros r k _ [-> ->]. split; [by eapply k_local|]. apply HQ. split; [by apply kinv_local|]. cbn. by rewrite Hcp.
Qed.

Lemma path_cur_crit c o lk (Q : ptr → tst dev → Prop) s :
  inside c o lk s → Q o s → path (cur c) Q s.
Proof.
  intros (_ & Hcr & Hc) HQ. assert (cur c s = Ok (o, s)) as E; [|by eapply path_same].
  unfold cur, ontk, onm, zoom. rewrite (myproc_crit _ _ _ _ Hc Hcr). by destruct s as [[]].
Qed.

Lemma path_acquire c o lk (Q : unit → tst dev → Prop) s :
  here c o s → lk ≠ ptable_lock → (∀ k, inside c o lk (set_tk k s) → Q tt (set_tk k s)) → path (ontk (onm (acquire c lk))) Q s.
Proof.
  intros Hh Hne HQ. pose proof (here_idle _ _ _ Hh) as Hid. destruct Hh as [Hk Hc].
  destruct (acquire_idle c lk _ _ Hc Hid) as (m' & Hm & Hcr & Hcp).
  eapply (path_step _ (λ _ k, k = set_kmach m' (tk s))); [apply wpg_zoom; by eapply ok_wpg|].
  intros [] k E ->. split; [by eapply k_acquire|].
  apply HQ. split; [by eapply sinv_acquire|]. split; [exact Hcr|]. cbn. by rewrite Hcp.
Qed.

Lemma path_release c o lk (Q : unit → tst dev → Prop) s :
  inside c o lk s → (∀ k, here c o (set_tk k s) → Q tt (set_tk k s)) → path (ontk (onm (release c lk))) Q s.
Proof.
  intros (Hs & Hcr & Hc) HQ. destruct (release_crit c lk _ Hcr) as (m' & Hm & Hid & Hcp).
  eapply (path_step _ (λ _ k, k = set_kmach m' (tk s))); [apply wpg_zoom; by eapply ok_wpg|].
  intros [] k E ->. split; [by eapply k_release|].
  apply HQ. split; [by eapply kinv_release|]. cbn. by rewrite Hcp.
Qed.

(** ** Steps of the processes *)

Lemma reaches_here A' c o o0 A k s :
  cprocs (amach A) !! c = Some o0 → reaches A' c o A k → here c o (set_tk k s).
Proof.
  intros Hc (m' & HR & Hi & Hcp). split; [eexists; eauto|]. change (tk (set_tk k s)) with k.
  rewrite <- (R_kmach _ _ HR). unfold amach; cbn. rewrite Hcp. apply list_lookup_insert_eq. by eapply lookup_lt_Some.
Qed.

#[local] Opaque zombie_child has_kids proc_table areap aleave asleep.
Lemma wait_res_here c p i A r k s :
  cprocs (amach A) !! c = Some (Some p) → wait_res c p i A r k → r ≠ None → here c (Some p) (set_tk k s).
Proof.
  intros Hc Hw Hr. unfold wait_res in Hw. destruct (zombie_child _ _ _) as [[x d]|].
  - destruct Hw as [_ [e Hw]]. exact (reaches_here _ _ _ _ _ _ _ Hc Hw).
  - destruct (_ || _); destruct Hw as [Er Hw]; [exact (reaches_here _ _ _ _ _ _ _ Hc Hw)|exact (False_ind _ (Hr Er))].
Qed.

Section Ops.
Context (s : tst dev) (c p : nat) (Hh : here c (Some p) s).

Lemma path_yield : path (ontk (yield c)) (λ _ s', KInv (tk s')) s.
Proof.
  destruct (here_abs _ _ _ Hh) as (A & HR & Hi & Hc). eapply path_step; [by eapply R_yield|].
  intros [] k E H. split; [eapply k_yield; eauto using here_idle; apply Hh|]. by eapply reaches_kinv.
Qed.

Lemma path_kill n : path (ontk (kill c n)) (λ _, here c (Some p)) s.
Proof.
  destruct (here_abs _ _ _ Hh) as (A & HR & Hi & Hc). eapply path_step; [by eapply R_kill|].
  intros r k E [H _]. split; [eapply k_kill; eauto using here_idle; apply Hh|]. eapply reaches_here; [exact Hc|exact H].
Qed.

Lemma path_fork : path (ontk (fork c)) (λ _, here c (Some p)) s.
Proof.
  destruct (here_abs _ _ _ Hh) as (A & HR & Hi & Hc). destruct (inv_running _ _ _ _ Hi Hc) as (d & Hdp & _).
  eapply (path_step _ (fork_res p d A)); [eapply (R_fork true (λ _, True) (λ _, True)); try done; apply fork_env_ok|].
  intros r k E (m & e & Hcp & Hcase). split; [eapply k_fork; eauto using here_idle; apply Hh|].
  assert (KInv k ∧ kmach k = m) as [Hk Hm].
  { destruct Hcase as [(x & l & d' & k0 & pg & _ & _ & _ & _ & _ & HR' & Hi')|(_ & A' & HR' & Hi' & Hm & _)].
    - split; [eexists; eauto|]. by rewrite <- (R_kmach _ _ HR').
    - split; [eexists; eauto|]. by rewrite <- (R_kmach _ _ HR'). }
  split; [exact Hk|]. cbn. by rewrite Hm, Hcp.
Qed.

Lemma path_exit : path (ontk (exit c)) (λ _ s', KInv (tk s')) s.
Proof.
  destruct (here_abs _ _ _ Hh) as (A & HR & Hi & Hc). destruct (inv_running _ _ _ _ Hi Hc) as (d & Hdp & _).
  destruct (decide (initproc (tk s) = Some p)) as [Hini|Hini].
  - unfold path, ontk, zoom. destruct (myproc_idle c _ _ (proj2 Hh) (here_idle _ _ _ Hh)) as (m' & Hm & _).
    unfold exit. erewrite bind_ok by (unfold onm, zoom; rewrite Hm; reflexivity).
    erewrite bind_ok by reflexivity. cbn [initproc set_kmach]. rewrite Hini, ptr_eqb_true by done. by right.
  - eapply (path_step _ (λ _, KInv)).
    + eapply wpg_mono; [eapply (R_exit_call true (λ _, True)); try done; [by rewrite (proj2 HR)|apply exit_env_ok]|].
      intros _ s1 (m & e & _ & H). by eapply reaches_kinv.
    + intros [] k E Hk. split; [eapply k_exit; eauto using here_idle; apply Hh|exact Hk].
Qed.

Lemma path_wait :
  path (ontk (wait c)) (λ r s', KInv (tk s') ∧ (r ≠ None → here c (Some p) s')) s.
Proof.
  destruct (here_abs _ _ _ Hh) as (A & HR & Hi & Hc).
  eapply path_step; [exact (R_wait true _ _ c p HR Hi Hc (λ _ d _, reap_runs_ok A d))|].
  intros r k E Hw. split; [eapply k_wait; eauto using here_idle; apply Hh|]. split; [exact (wait_res_kinv _ _ _ _ _ _ Hw)|].
  intros Hr. exact (wait_res_here _ _ _ _ _ _ s Hc Hw Hr).
Qed.

Lemma path_pw (m : M kst unit) A' :
  (∀ A, R (tk s) A → Inv idle A → aruns A c p → wp m (λ _, reaches (A' A) c (Some p) A) (tk s)) →
  (∀ k, m (tk s) = Ok (tt, k) → kstep (tk s) k) → path (ontk m) (λ _, here c (Some p)) s.
Proof.
  intros H Hs. destruct (here_abs _ _ _ Hh) as (A & HR & Hi & Hc). eapply path_step; [by apply (H A)|].
  intros [] k E HP. split; [by apply Hs|]. exact (reaches_here _ _ _ _ _ _ s Hc HP).
Qed.

Lemma path_lock : path (ontk (schedulerLock c scheduler_password)) (λ _, here c (Some p)) s.
Proof.
  eapply path_pw; [intros; by eapply R_schedulerLock|]. intros k E. exact (k_lock _ _ c p (here_idle _ _ _ Hh) (proj2 Hh) E).
Qed.
Lemma path_unlock : path (ontk (schedulerUnlock c scheduler_password)) (λ _, here c (Some p)) s.
Proof.
  eapply path_pw; [intros; by eapply R_schedulerUnlock|]. intros k E. exact (k_unlock _ _ c p (here_idle _ _ _ Hh) (proj2 Hh) E).
Qed.
Lemma path_setprio n prio :
  (∀ A, R (tk s) A → all_settled A) → path (ontk (setPrioity_arrangeQueue c n prio)) (λ _, here c (Some p)) s.
Proof.
  intros Hset. eapply path_pw; [intros; eapply R_setPrioity; eauto using all_target_settled|].
  intros k E. eapply k_setprio; eauto using here_idle. apply Hh.
Qed.
End Ops.
End Paths.

(** ** Process data, arguments and memory *)

Section Calls.
Context {KE : KernelEnv} {dev : Type} {TE : TrapEnv dev} {HL : KernelEnvLaws KE} {HT : KernelReturns KE} {DR : DevReturns TE}.
Implicit Types (s : tst dev) (c p : nat) (o : ptr).

(** ** The process's own data *)

Lemma pset_ok p f (k : kst) d :
  procs k !! p = Some d → pset (Some p) f k = Ok (tt, set_procs (<[p := f d]> (procs k)) k).
Proof. intros H. unfold pset, pget, deref, modify, mbind, M_bind. cbn. by rewrite H. Qed.

Lemma path_pset c p f (Q : unit → tst dev → Prop) s :
  here c (Some p) s → own_data f →
  (∀ d, procs (tk s) !! p = Some d → let s' := set_tk (set_procs (<[p := f d]> (procs (tk s))) (tk s)) s in
     here c (Some p) s' → Q tt s') →
  path (ontk (pset (Some p) f)) Q s.
Proof.
  intros Hh Hf HQ. destruct (sinv_proc c p (tk s) (here_sinv _ _ _ Hh)) as (d & Hd & _); [apply Hh|].
  eapply (path_step _ (λ _ k, k = set_procs (<[p := f d]> (procs (tk s))) (tk s))); [eapply ok_wpg; [by apply pset_ok|done]|].
  intros [] k E ->. split; [exact (k_data _ _ c p f (here_idle _ _ _ Hh) (proj2 Hh) Hf E)|].
  apply (HQ d Hd). split; [exact (kinv_data _ _ _ _ _ (proj1 Hh) (proj2 Hh) Hf E)|exact (proj2 Hh)].
Qed.

Lemma own_data_sz v : own_data (set_sz v).
Proof. split; [by intros ?|]. intros d. by split_and!. Qed.
Lemma own_data_tf v : own_data (set_tf v).
Proof. split; [by intros ?|]. intros d. by split_and!. Qed.
Lemma own_data_killed v : own_data (set_killed v).
Proof. split; [by intros ?|]. intros d. by split_and!. Qed.

(** ** The side condition of setPriority *)

Definition queues_settled (k : kst) : Prop := ∀ A, R k A → all_settled A.

Lemma queues_settled_local m k : queues_settled k → queues_settled (set_kmach m k).
Proof.
  intros H A HR. apply (H (amod (set_kmach (kmach k)) A)). destruct HR as [[] Hb]. split; [by split|].
  cbn. rewrite Hb. by destruct k.
Qed.

Lemma queues_settled_tf p v d k :
  queues_settled k → procs k !! p = Some d → queues_settled (set_procs (<[p := set_tf v d]> (procs k)) k).
Proof.
  intros H Hd A HR x e He Hl. assert (procs (set_procs (<[p := set_tf v d]> (procs k)) k) !! p = Some (set_tf v d)) as Hp
    by apply lookup_insert_eq.
  pose proof (R_aprocs _ _ _ _ HR Hp) as Ha.
  destruct (wp_ok _ _ _ (R_pset true _ _ HR p _ (set_tf (tf d)) (λ _ k', R k' (aput p (set_tf (tf d) (unlink (set_tf v d))) A))
    ltac:(by intros ?) Ha (λ _ H0, H0))) as ([] & k' & E & HR').
  rewrite (pset_ok _ _ _ _ Hp) in E. injection E as <-.
  assert (set_procs (<[p:=set_tf (tf d) (set_tf v d)]> (<[p:=set_tf v d]> (procs k))) (set_procs (<[p:=set_tf v d]> (procs k)) k) = k) as Ek.
  { rewrite insert_insert_eq. assert (set_tf (tf d) (set_tf v d) = d) as -> by (by destruct d).
    rewrite insert_id by done. by destruct k. }
  cbn in HR'. unfold set_procs in Ek, HR'. cbn in Ek, HR'. rewrite Ek in HR'.
  destruct (decide (x = p)) as [->|Hne].
  - rewrite Ha in He. injection He as <-. apply (H _ HR' p (set_tf (tf d) (unlink (set_tf v d)))); [apply aprocs_aput_eq|exact Hl].
  - apply (H _ HR' x e); [by rewrite aprocs_aput_ne|exact Hl].
Qed.

(** ** Arguments *)

(** [argint] only moves the nesting count. *)
Definition only_mach s s' : Prop := ∃ m, s' = set_tk (set_kmach m (tk s)) s.

Lemma only_mach_refl s : only_mach s s.
Proof. exists (kmach (tk s)). by destruct s as [[]]. Qed.
Lemma only_mach_trans s s1 s2 : only_mach s s1 → only_mach s1 s2 → only_mach s s2.
Proof. intros [m1 ->] [m2 ->]. by exists m2. Qed.

Lemma path_me c o s : here c o s → path (cur c) (λ o' s', o' = o ∧ here c o s' ∧ only_mach s s') s.
Proof. intros Hh. eapply path_cur; [exact Hh|]. intros m s' Hh'. split; [done|]. split; [exact Hh'|]. by exists m. Qed.

(** The memory of the process is there, below the kernel. *)
Definition mem_ok p s : Prop :=
  ∀ d, procs (tk s) !! p = Some d → sz d ≤ 2 ^ 31 ∧ sz d ≤ Z.of_nat (length (umem s p)).
Lemma mem_ok_mach p s s' : only_mach s s' → mem_ok p s → mem_ok p s'.
Proof. by intros [m ->]. Qed.

Lemma path_fetchint c p a s :
  here c (Some p) s → mem_ok p s → 0 ≤ a < 2 ^ 32 → path (fetchint c a) (λ _ s', here c (Some p) s' ∧ only_mach s s') s.
Proof.
  intros Hh Hmem Ha. apply path_bind. eapply path_mono; [by apply path_me|]. cbn beta. intros o s1 (-> & Hh1 & Hm1).
  apply path_bind. eapply path_getp; [exact Hh1|]. intros d Hd _. destruct (_ || _) eqn:Eb; [by apply path_ret|].
  apply orb_false_iff in Eb as [E1 E2]. destruct (mem_ok_mach p _ _ Hm1 Hmem d Hd) as [Hsz Hlen].
  rewrite u32_id in E2 by lia. apply path_bind. eapply path_same; [reflexivity|done|].
  apply path_bind. eapply path_same; [unfold deref; rewrite bool_decide_true by lia; reflexivity|done|].
  by apply path_ret.
Qed.

Lemma path_argint c p n s :
  here c (Some p) s → mem_ok p s → path (argint c n) (λ _ s', here c (Some p) s' ∧ only_mach s s') s.
Proof.
  intros Hh Hmem. apply path_bind. eapply path_mono; [by apply path_me|]. cbn beta. intros o s1 (-> & Hh1 & Hm1).
  apply path_bind. eapply path_getp; [exact Hh1|]. intros d Hd _.
  eapply path_mono; [apply path_fetchint; [exact Hh1|by eapply mem_ok_mach|apply u32_range]|]. cbn beta.
  intros r s2 [Hh2 Hm2]. split; [done|]. by eapply only_mach_trans.
Qed.

(** ** [growproc] *)

Lemma path_env {T} c o (m : M env T) (Q : T → tst dev → Prop) s :
  returns m → here c o s → (∀ r e, here c o (set_tk (set_kenv e (tk s)) s) → Q r (set_tk (set_kenv e (tk s)) s)) →
  path (ontk (one m)) Q s.
Proof.
  intros Hret Hh HQ. eapply (path_step _ (λ _ k, ∃ e, k = set_kenv e (tk s))).
  - apply wpg_zoom. destruct (Hret (kenv (tk s))) as (r & e & E). eapply ok_wpg; [exact E|]. by exists e.
  - intros r k _ [e ->]. split; [by eapply k_env|]. apply HQ. pose proof (here_idle _ _ _ Hh) as Hid. destruct Hh as [Hk Hc].
    split; [|done]. apply sinv_kinv; [by apply sinv_env, kinv_sinv|exact Hid].
Qed.

Lemma ontk_bind {T U} (m : M kst T) (k : T → M kst U) s :
  ontk (m ≫= k) s = (ontk m ≫= λ r, ontk (k r)) s.
Proof.
  unfold ontk, zoom, mbind, M_bind. destruct (m (tk s)) as [[r k']|?| |]; [|done..]. cbn.
  by destruct (k r k') as [[]|?| |].
Qed.

Lemma path_ontk_ret {T} (r : T) (Q : T → tst dev → Prop) s : Q r s → path (ontk (mret r)) Q s.
Proof. intros H. destruct s. by apply (path_ret r Q). Qed.

Lemma path_ontk_bind {T U} (m : M kst T) (k : T → M kst U) (Q : U → tst dev → Prop) s :
  path (ontk m) (λ r, path (ontk (k r)) Q) s → path (ontk (m ≫= k)) Q s.
Proof.
  intros H. apply path_bind in H. unfold path in *. by rewrite ontk_bind.
Qed.

Lemma path_switchuvm c p s : here c (Some p) s → path (ontk (switchuvm c (Some p))) (λ _, here c (Some p)) s.
Proof.
  intros Hh. unfold switchuvm. rewrite ptr_eqb_false by done. apply path_ontk_bind. eapply path_getp; [exact Hh|]. intros d _ [Hk Hp].
  rewrite (proj2 (Z.eqb_neq _ _) Hk), (proj2 (Z.eqb_neq _ _) Hp).
  destruct (push_pop_idle c _ _ (proj2 Hh) (here_idle _ _ _ Hh)) as (m1 & m' & H1 & H2 & Hid & Hcp).
  eapply (path_step _ (λ _ k, k = set_kmach m' (tk s))).
  { apply wpg_bind, wpg_zoom. eapply ok_wpg; [exact H1|]. apply wpg_zoom. by eapply ok_wpg. }
  intros [] k _ ->. split; [exact (k_local _ _ m' (here_idle _ _ _ Hh) Hid Hcp eq_refl)|].
  split; [exact (kinv_local (tk s) m' (proj1 Hh) Hid Hcp)|]. cbn. rewrite Hcp. apply Hh.
Qed.

Lemma path_growproc c p n s : here c (Some p) s → path (ontk (growproc c n)) (λ _, here c (Some p)) s.
Proof.
  intros Hh. unfold growproc. apply path_ontk_bind. eapply path_mono; [exact (path_me _ _ _ Hh)|]. cbn beta.
  intros o s1 (-> & Hh1 & _). apply path_ontk_bind. eapply path_getp; [exact Hh1|]. intros d _ _.
  assert (∀ v s, here c (Some p) s →
    path (ontk (pset (Some p) (set_sz v) ;; switchuvm c (Some p) ;; mret 0)) (λ _, here c (Some p)) s) as Hfin.
  { intros v s2 Hh2. apply path_ontk_bind. eapply path_pset; [done|apply own_data_sz|]. intros d' _ s3 Hh3.
    apply path_ontk_bind. eapply path_mono; [by apply path_switchuvm|]. intros [] s4 Hh4.
    by apply path_ontk_ret. }
  assert (∀ m : M env Z, returns m → path (ontk (s ← one m; if s =? 0 then mret (-1) else pset (Some p) (set_sz s) ;; switchuvm c (Some p) ;; mret 0))
    (λ _, here c (Some p)) s1) as Hg.
  { intros m Hret. apply path_ontk_bind. eapply path_env; [exact Hret|exact Hh1|]. intros r e Hh2.
    destruct (r =? 0); [|by apply Hfin]. by apply path_ontk_ret. }
  destruct (n >? 0); [apply Hg, HT|]. destruct (n <? 0); [apply Hg, HT|by apply Hfin].
Qed.
End Calls.

(** ** System calls and traps *)

Section Ends.
Context {KE : KernelEnv} {dev : Type} {TE : TrapEnv dev} {DR : DevReturns TE}.

(** After a call of process [p] on core [c]. *)
Definition call_end (c p : nat) (r : call) (s : tst dev) : Prop :=
  match r with Done _ => here c (Some p) s | _ => KInv (tk s) end.
(** When the scheduler comes back to it; [r] is the result of [wait]. *)
Definition call_start (c p : nat) (b : blocked) (r : option Z) (s : tst dev) : Prop :=
  match b with
  | B_wait => here c (Some p) s ∧ r ≠ None
  | B_sleep _ _ => inside c (Some p) tickslock s
  | B_yield => here c (Some p) s
  | B_file => False
  end.
Definition trap_end_at (c : nat) (o : ptr) (st : stage) (s : tst dev) : Prop :=
  match st with Back => here c o s | _ => KInv (tk s) end.
End Ends.

Section Props.
Context {KE : KernelEnv} {dev : Type} {TE : TrapEnv dev} {HL : KernelEnvLaws KE} {HT : KernelReturns KE} {DR : DevReturns TE}.
Implicit Types (s : tst dev) (c p : nat) (o : ptr).

(** ** System calls *)

Lemma path_done c p v s : here c (Some p) s → path (mret (Done v)) (call_end c p) s.
Proof. intros Hh. by apply path_ret. Qed.

(** [myproc()->field] *)
Lemma path_my_field {T} c p (k : ptr → proc → M (tst dev) T) (Q : T → tst dev → Prop) s :
  here c (Some p) s →
  (∀ d s', here c (Some p) s' → only_mach s s' → procs (tk s') !! p = Some d → path (k (Some p) d) Q s') →
  path (q ← cur c; pr ← getp q; k q pr) Q s.
Proof.
  intros Hh HQ. apply path_bind. eapply path_mono; [by apply path_me|]. cbn beta. intros o s1 (-> & Hh1 & Hm1).
  apply path_bind. eapply path_getp; [exact Hh1|]. intros d Hd _. by apply HQ.
Qed.

Lemma path_with_arg c p n (k : Z → M (tst dev) call) s :
  here c (Some p) s → mem_ok p s →
  (∀ v s', here c (Some p) s' → only_mach s s' → path (k v) (call_end c p) s') →
  path (a ← argint c n; match a with None => mret (Done (-1)) | Some v => k v end) (call_end c p) s.
Proof.
  intros Hh Hmem Hk. apply path_bind. eapply path_mono; [by apply path_argint|]. cbn beta. intros [v|] s1 [Hh1 Hm1].
  - by apply Hk.
  - by apply path_done.
Qed.

Lemma path_sleep_turn c p n t0 s : inside c (Some p) tickslock s → path (sleep_turn c n t0) (call_end c p) s.
Proof.
  intros Hin. unfold sleep_turn. apply path_bind, path_gets.
  assert (∀ v, path (ontk (onm (release c tickslock)) ;; mret (Done v)) (call_end c p) s) as Hrel.
  { intros v. apply path_bind. eapply path_release; [done|]. intros k Hh. by apply path_done. }
  destruct (_ <? _); [|apply Hrel].
  apply path_bind. eapply path_cur_crit; [done|]. pose proof Hin as (Hs & Hcr & Hc).
  destruct (sinv_proc _ _ _ Hs Hc) as (d & Hd & _). apply path_bind. eapply path_getp_at; [exact Hd|].
  destruct (negb _); [apply Hrel|]. destruct (sinv_crit _ _ _ Hs Hcr) as (A & HR & Hi).
  apply path_bind. eapply path_step; [eapply R_sleep; [exact HR|exact Hi|discriminate|by eapply R_runs|done]|].
  intros [] k E _. split; [by eapply (k_sleep _ _ c p)|].
  apply path_ret. exact (kinv_sleep _ _ _ p _ _ Hs Hcr ltac:(discriminate) Hc E).
Qed.

Lemma path_sched_call c p pw (m : M kst unit) s :
  here c (Some p) s →
  (pw = scheduler_password → path (ontk m) (λ _, here c (Some p)) s) →
  (pw ≠ scheduler_password → path (ontk m) (λ _ s', KInv (tk s')) s) →
  path (ontk m ;; mret (if pw =? scheduler_password then Done 0 else Gone)) (call_end c p) s.
Proof.
  intros Hh H1 H2. apply path_bind. destruct (Z.eqb_spec pw scheduler_password) as [E|E].
  - eapply path_mono; [by apply H1|]. intros [] s' Hh'. by apply path_done.
  - eapply path_mono; [exact (H2 E)|]. intros [] s' Hk. by apply path_ret.
Qed.

Lemma path_wrong_password c p s :
  here c (Some p) s → path (ontk (p ← onm (myproc c); pget p ;; exit c)) (λ _ s', KInv (tk s')) s.
Proof.
  intros Hh. apply path_ontk_bind. eapply path_mono; [exact (path_me _ _ _ Hh)|]. cbn beta. intros o s1 (-> & Hh1 & _).
  apply path_ontk_bind. eapply path_getp; [exact Hh1|]. intros d _ _. exact (path_exit _ _ p Hh1).
Qed.

Lemma path_schedulerLock c p pw s :
  here c (Some p) s → pw ≠ scheduler_password → path (ontk (schedulerLock c pw)) (λ _ s', KInv (tk s')) s.
Proof.
  intros Hh Hne. apply path_wrong_password in Hh. unfold schedulerLock.
  rewrite (proj2 (Z.eqb_neq _ _) Hne). exact Hh.
Qed.
Lemma path_schedulerUnlock c p pw s :
  here c (Some p) s → pw ≠ scheduler_password → path (ontk (schedulerUnlock c pw)) (λ _ s', KInv (tk s')) s.
Proof.
  intros Hh Hne. apply path_wrong_password in Hh. unfold schedulerUnlock.
  rewrite (proj2 (Z.eqb_neq _ _) Hne). exact Hh.
Qed.

Lemma path_setPriority c p s :
  here c (Some p) s → mem_ok p s → queues_settled (tk s) → path (sys_setPriority c) (call_end c p) s.
Proof.
  intros Hh Hmem Hs. apply path_with_arg; [done..|]. intros pid s1 Hh1 [m1 ->].
  apply path_with_arg; [done..|]. intros prio s2 Hh2 [m2 ->].
  apply path_bind. eapply path_mono; [eapply path_setprio; [exact Hh2|]|].
  - apply queues_settled_local, queues_settled_local. exact Hs.
  - intros [] s3 Hh3. by apply path_done.
Qed.

Lemma path_sbrk c p s : here c (Some p) s → mem_ok p s → path (sys_sbrk c) (call_end c p) s.
Proof.
  intros Hh Hmem. apply path_with_arg; [done..|]. intros n s1 Hh1 _. apply (path_my_field c p); [done|]. intros d s2 Hh2 _ _.
  apply path_bind. eapply path_mono; [by apply path_growproc|]. intros r s3 Hh3. destruct (_ <? _); by apply path_done.
Qed.

Lemma path_uptime c p s : here c (Some p) s → path (sys_uptime c) (call_end c p) s.
Proof.
  intros Hh. apply path_bind. eapply path_acquire; [done..|]. intros k Hin. apply path_bind, path_gets.
  apply path_bind. eapply path_release; [done|]. intros k' Hh'. by apply path_done.
Qed.

Lemma path_sys_sleep c p s : here c (Some p) s → mem_ok p s → path (sys_sleep c) (call_end c p) s.
Proof.
  intros Hh Hmem. apply path_with_arg; [done..|]. intros n s1 Hh1 _.
  apply path_bind. eapply path_acquire; [done..|]. intros k Hin. apply path_bind, path_gets. by apply path_sleep_turn.
Qed.

Lemma path_sys_wait c p s : here c (Some p) s → path (sys_wait c) (call_end c p) s.
Proof.
  intros Hh. apply path_bind. eapply path_mono; [by eapply path_wait|]. cbn beta. intros r s' [Hk Hr]. apply path_ret.
  destruct r; [by apply Hr|exact Hk].
Qed.

(** The calls on processes, and the numbers that are no call. *)
Definition process_call (n : Z) : Prop :=
  n ∈ [1; 2; 3; 6; 11; 12; 13; 14; 23; 24; 25; 26; 27] ∨ n ≤ 0 ∨ NSYSCALLS ≤ n.

Lemma path_syscalls n c p s :
  here c (Some p) s → mem_ok p s → n ∈ [1; 2; 3; 6; 11; 12; 13; 14; 23; 24; 25; 26; 27] → (n = 25 → queues_settled (tk s)) →
  path (syscalls n c) (call_end c p) s.
Proof.
  intros Hh Hmem Hn Hset. rewrite !elem_of_cons in Hn.
  destruct Hn as [->|[->|[->|[->|[->|[->|[->|[->|[->|[->|[->|[->|[->|Hn]]]]]]]]]]]]]; [..|by apply elem_of_nil in Hn]; unfold syscalls.
  - apply path_bind. eapply path_mono; [by eapply path_fork|]. intros r s' Hh'. by apply path_done.
  - apply path_bind. eapply path_mono; [exact (path_exit _ _ p Hh)|]. intros r s' Hk. by apply path_ret.
  - by apply path_sys_wait.
  - apply path_with_arg; [done..|]. intros v s1 Hh1 _. apply path_bind. eapply path_mono; [by eapply path_kill|].
    intros r s' Hh'. by apply path_done.
  - apply (path_my_field c p); [done|]. intros d s1 Hh1 _ _. by apply path_done.
  - by apply path_sbrk.
  - by apply path_sys_sleep.
  - by apply path_uptime.
  - apply path_bind. eapply path_mono; [exact (path_yield _ _ p Hh)|]. intros r s' Hk. by apply path_ret.
  - apply (path_my_field c p); [done|]. intros d s1 Hh1 _ _. by apply path_done.
  - by apply path_setPriority; [..|apply Hset].
  - apply path_with_arg; [done..|]. intros v s1 Hh1 _. apply path_sched_call; [done|intros ->; by apply path_lock|].
    intros Hne. exact (path_schedulerLock _ p _ _ Hh1 Hne).
  - apply path_with_arg; [done..|]. intros v s1 Hh1 _. apply path_sched_call; [done|intros ->; by apply path_unlock|].
    intros Hne. exact (path_schedulerUnlock _ p _ _ Hh1 Hne).
Qed.

Lemma path_set_result c p r s : call_end c p r s → path (set_result (Some p) r) (λ _, call_end c p r) s.
Proof.
  intros Hr. destruct r as [v|b|]; [|by apply path_ret..].
  apply path_bind. eapply path_getp; [exact Hr|]. intros d _ _. eapply path_pset; [exact Hr|apply own_data_tf|]. intros d' _ s' Hh'. exact Hh'.
Qed.

(** The call is one on processes, and not [setPriority] with a process of
    level 2 on another queue than queue 2. *)
Definition may_call c p s : Prop :=
  ∀ d, procs (tk s) !! p = Some d → process_call (i32 (tf_eax (tf d))) ∧ (i32 (tf_eax (tf d)) = 25 → queues_settled (tk s)).

Lemma path_syscall c p s : here c (Some p) s → mem_ok p s → may_call c p s → path (syscall c) (call_end c p) s.
Proof.
  intros Hh Hmem Hset. apply (path_my_field c p); [done|]. intros d s1 Hh1 Hm1 Hd.
  apply path_bind. eapply (path_mono _ (call_end c p)).
  - destruct (_ && _) eqn:E; [|by apply path_done]. pose proof (mem_ok_mach p _ _ Hm1 Hmem). destruct Hm1 as [m ->].
    destruct (Hset d Hd) as [Hpc Hs]. apply path_syscalls; [exact Hh1|done| |].
    + destruct Hpc as [?|Hpc]; [done|]. unfold NSYSCALLS in *. exfalso. lia.
    + intros E25. apply queues_settled_local. by apply Hs.
  - intros r s2 Hr. apply path_bind. eapply path_mono; [by apply path_set_result|]. intros [] s3 Hr3. by apply path_ret.
Qed.

(** ** Traps *)

Lemma path_exit_left c p o s : here c (Some p) s → path (ontk (exit c) ;; mret Left) (trap_end_at c o) s.
Proof.
  intros Hh. apply path_bind. eapply path_mono; [exact (path_exit _ _ p Hh)|]. intros [] s' Hk. by apply path_ret.
Qed.

Lemma path_syscall_return c p r s : call_end c p r s → path (syscall_return c r) (trap_end_at c (Some p)) s.
Proof.
  intros Hr. destruct r as [v|b|]; [|by apply path_ret..].
  apply (path_my_field c p); [exact Hr|]. intros d s1 Hh1 _ _. destruct (negb _); [by eapply path_exit_left|by apply path_ret].
Qed.

Definition of_running c o (b : bool) s : Prop := here c o s ∧ (b = true → ∃ p, o = Some p).

Lemma path_killed_in_user c tf o s : here c o s → path (killed_in_user c tf) (of_running c o) s.
Proof.
  intros Hh. apply path_bind. eapply path_mono; [by apply path_me|]. cbn beta. intros o' s1 (-> & Hh1 & _).
  destruct o as [p|]; [|by apply path_ret]. rewrite ptr_eqb_false by done.
  apply (path_my_field c p); [exact Hh1|]. intros d s2 Hh2 _ _. apply path_ret. split; [done|]. eauto.
Qed.

Lemma path_preempts c tf o s : here c o s → path (preempts c tf) (of_running c o) s.
Proof.
  intros Hh. apply path_bind. eapply path_mono; [by apply path_me|]. cbn beta. intros o' s1 (-> & Hh1 & _).
  destruct o as [p|]; [|by apply path_ret]. rewrite ptr_eqb_false by done.
  apply (path_my_field c p); [exact Hh1|]. intros d s2 Hh2 _ _. apply path_ret. split; [done|]. eauto.
Qed.

(** [if(k) exit();] and the rest of the trap. *)
Lemma path_exit_or c o (b : bool) (m : M (tst dev) stage) s :
  of_running c o b s → (here c o s → path m (trap_end_at c o) s) →
  path (if b then ontk (exit c) ;; mret Left else m) (trap_end_at c o) s.
Proof.
  intros [Hh Hb] Hm. destruct b; [|by apply Hm]. destruct (Hb eq_refl) as [p ->]. by eapply path_exit_left.
Qed.

Lemma path_trap_end c tf o s : here c o s → path (trap_end c tf) (trap_end_at c o) s.
Proof.
  intros Hh. apply path_bind. eapply path_mono; [by apply path_killed_in_user|]. intros b s1 H1.
  apply path_exit_or; [done|]. intros Hh1. by apply path_ret.
Qed.

Lemma path_ondev {T} (m : M dev T) (Q : T → tst dev → Prop) s r d :
  m (devs s) = Ok (r, d) → Q r (set_devs d s) → path (ondev m) Q s.
Proof. intros E HQ. eapply path_same; [unfold ondev, zoom; by rewrite E|done|exact HQ]. Qed.

Lemma path_eoi c o s : here c o s → path (ondev (lapiceoi c)) (λ _, here c o) s.
Proof.
  intros Hh. destruct (dr_eoi c (devs s)) as ([] & d & E). by eapply path_ondev.
Qed.

(** With interrupts off; otherwise [mycpu] panics. *)
Lemma path_cpuid c o s : here c o s → irq_on (kmach (tk s)) c = false → path (ontk (onm (mycpu c))) (λ _, here c o) s.
Proof.
  intros Hh Hq. pose proof (here_idle _ _ _ Hh) as Hid. pose proof Hh as [_ Hc].
  destruct (cpu_at_exists _ _ _ (idle_ok _ Hid) Hc) as (k & cp & Hat & _).
  rewrite (irq_at _ _ _ _ Hat), (idle_cores _ Hid c _ _ Hat), Z.eqb_refl in Hq.
  pose proof (mycpu_ok (kmach (tk s)) c k cp (idle_ok _ Hid) Hat Hq) as E.
  eapply path_same; [unfold ontk, onm, zoom; rewrite E; reflexivity|by destruct s as [[]]|]. by destruct s as [[]].
Qed.

Lemma path_wakeup_crit c o lk ch s :
  inside c o lk s → lk ≠ ptable_lock → path (ontk (wakeup c ch)) (λ _, inside c o lk) s.
Proof.
  intros (Hs & Hcr & Hc) Hne. destruct (sinv_crit _ _ lk Hs Hcr) as (A & HR & Hi).
  pose proof Hc as Hc'. rewrite <- (R_kmach _ _ HR) in Hc'.
  eapply path_step; [by eapply R_wakeup_crit|]. intros [] k E (m' & HR' & Hi' & Hcp & _).
  split; [exact (k_wakeup_crit _ _ c o ch lk Hcr Hne Hc E)|].
  split; [eexists; split; [exact HR'|]; right; by exists c, lk|].
  change (tk (set_tk k s)) with k. rewrite <- (R_kmach _ _ HR'). split; [exact (inv_m _ _ Hi')|].
  change (cprocs m' !! c = Some o). by rewrite Hcp.
Qed.

Lemma path_wakeups c o lk l : ∀ s,
  inside c o lk s → lk ≠ ptable_lock → path (for_each l (λ ch, ontk (wakeup c ch))) (λ _, inside c o lk) s.
Proof.
  induction l as [|ch l IH]; intros s Hin Hne; cbn [for_each]; [by apply path_ret|].
  apply path_bind. eapply path_mono; [by apply path_wakeup_crit|]. intros [] s1 Hin1. by apply IH.
Qed.

(** The handler of a device, and the end of the interrupt. *)
Lemma path_device c o lk m s :
  (∃ l d', m (devs s) = Ok (l, d')) → here c o s →
  path (device_intr c lk m ;; ondev (lapiceoi c)) (λ _, here c o) s.
Proof.
  intros Hm Hh. apply path_bind. eapply (path_mono _ (λ _, here c o)); [|intros [] s2 Hh2; by apply path_eoi].
  apply path_bind. eapply (path_acquire c o); [exact Hh|discriminate|]. intros k Hin. destruct Hm as (l & d & E).
  apply path_bind. eapply path_ondev; [exact E|]. apply path_bind.
  eapply path_mono; [apply (path_wakeups c o (lock_at lk)); [exact Hin|discriminate]|].
  intros [] s3 Hin3. eapply path_release; [exact Hin3|]. intros k' Hh'. exact Hh'.
Qed.

Lemma path_clock_tick c o s : here c o s → irq_on (kmach (tk s)) c = false → path (clock_tick c) (λ _, here c o) s.
Proof.
  intros Hh Hq. apply path_bind. eapply path_mono; [by apply path_cpuid|]. intros i s1 Hh1.
  apply path_bind. eapply (path_mono _ (λ _, here c o)); [|intros [] s2 Hh2; by apply path_eoi].
  case_bool_decide; [|by apply path_ret]. cbn [when].
  apply path_bind. eapply (path_acquire c o); [exact Hh1|discriminate|]. intros k Hin. apply path_bind, path_gets.
  apply path_bind. eapply path_same; [reflexivity|done|].
  apply path_bind. eapply path_mono; [by apply (path_wakeup_crit c o tickslock)|]. intros [] s3 Hin3.
  eapply path_release; [exact Hin3|]. intros k' Hh'. exact Hh'.
Qed.

Lemma path_trap_cause c tf o s :
  here c o s → dev_ok (devs s) → (tf_trapno tf = T_IRQ0 + IRQ_TIMER → irq_on (kmach (tk s)) c = false) → (tf_trapno tf = T_MLFQLOCK ∨ tf_trapno tf = T_MLFQUNLOCK → o ≠ None) →
  path (trap_cause c tf) (λ _, here c o) s.
Proof.
  intros Hh Hdev Hq Ho. unfold trap_cause. destruct (Z.eqb_spec (tf_trapno tf) T_MLFQLOCK) as [E1|_].
  { destruct o as [p|]; [|exfalso; apply Ho; auto]. by apply path_lock. }
  destruct (Z.eqb_spec (tf_trapno tf) T_MLFQUNLOCK) as [E2|_].
  { destruct o as [p|]; [|exfalso; apply Ho; auto]. by apply path_unlock. }
  destruct (Z.eqb_spec (tf_trapno tf) (T_IRQ0 + IRQ_TIMER)) as [E3|_]; [by apply path_clock_tick; [|apply Hq]|].
  repeat case_match; try (by apply path_ret); try (by apply path_eoi).
  - apply path_device; [by apply dr_ide|done].
  - apply path_device; [by apply dr_kbd|done].
  - apply path_device; [by apply dr_uart|done].
  - apply path_bind. eapply path_mono; [by apply path_me|]. cbn beta. intros o' s1 (-> & Hh1 & _).
    destruct o as [p|]; [|rewrite ptr_eqb_true by done; by left].
    destruct (ptr_eqb _ _ || _); [by left|].
    apply path_bind. eapply path_mono; [by apply path_me|]. cbn beta. intros o' s2 (-> & Hh2 & _).
    eapply path_pset; [exact Hh2|apply own_data_killed|]. intros d _ s3 Hh3. exact Hh3.
Qed.

(** The traps this is about.  The devices are ready; the gate of the timer turns interrupts off; the
    system calls and the MLFQ traps come from a process; a system call is one on
    processes, the memory of the process is there, and [setPriority] finds the
    queues settled (see [mlfq_invariant]). *)
Record trap_ok c tf o s : Prop := {
  to_dev : dev_ok (devs s);
  to_irq : tf_trapno tf = T_IRQ0 + IRQ_TIMER → irq_on (kmach (tk s)) c = false;
  to_user : tf_trapno tf = T_SYSCALL ∨ tf_trapno tf = T_MLFQLOCK ∨ tf_trapno tf = T_MLFQUNLOCK → o ≠ None;
  to_mem p : tf_trapno tf = T_SYSCALL → o = Some p → mem_ok p s;
  to_call : tf_trapno tf = T_SYSCALL → process_call (i32 (tf_eax tf));
  to_settled : tf_trapno tf = T_SYSCALL → i32 (tf_eax tf) = 25 → queues_settled (tk s)
}.

Lemma mem_ok_tf p v d s :
  mem_ok p s → procs (tk s) !! p = Some d → mem_ok p (set_tk (set_procs (<[p := set_tf v d]> (procs (tk s))) (tk s)) s).
Proof. intros H Hd e He. cbn in He. rewrite lookup_insert_eq in He. injection He as <-. exact (H d Hd). Qed.

Lemma path_trap c tf o s : here c o s → trap_ok c tf o s → path (trap c tf) (trap_end_at c o) s.
Proof.
  intros Hh [Hdev Hq Ho Hmem Hcall Hset]. unfold trap. destruct (Z.eqb_spec (tf_trapno tf) T_SYSCALL) as [E|E].
  - destruct o as [p|]; [|exfalso; apply Ho; auto].
    apply (path_my_field c p); [exact Hh|]. intros d s1 Hh1 Hm1 Hd.
    destruct (negb _); [by eapply path_exit_left|].
    apply path_bind. eapply path_mono; [by apply path_me|]. cbn beta. intros o' s2 (-> & Hh2 & Hm2).
    pose proof (mem_ok_mach p _ _ Hm2 (mem_ok_mach p _ _ Hm1 (Hmem p E eq_refl))) as Hmem2.
    apply path_bind. eapply path_pset; [exact Hh2|apply own_data_tf|]. intros d' Hd' s3 Hh3.
    apply path_bind. eapply path_mono; [apply path_syscall; [exact Hh3|by apply mem_ok_tf|]|].
    + intros e He. subst s3. destruct Hm1 as [m1 ->], Hm2 as [m2 ->].
      change (procs _ !! p) with (<[p:=set_tf tf d']> (procs (tk s)) !! p) in He.
      rewrite lookup_insert_eq in He. injection He as <-. split; [by apply Hcall|]. intros E25.
      refine (queues_settled_tf p tf d' _ _ Hd'). by apply queues_settled_local, queues_settled_local, Hset.
    + intros r s4 Hr. by apply path_syscall_return.
  - apply path_bind. eapply path_mono; [apply path_trap_cause; [exact Hh|exact Hdev|exact Hq|tauto]|]. intros [] s1 Hh1.
    apply path_bind. eapply path_mono; [by apply path_killed_in_user|]. intros b s2 H2.
    apply path_exit_or; [done|]. intros Hh2.
    apply path_bind. eapply path_mono; [by apply path_preempts|]. intros b' s3 [Hh3 Hb'].
    destruct b'; [|by apply path_trap_end]. destruct (Hb' eq_refl) as [p ->].
    apply path_bind. eapply path_mono; [exact (path_yield _ _ p Hh3)|]. intros [] s4 Hk. by apply path_ret.
Qed.

Lemma path_resume c p tf b r s : call_start c p b r s → path (trap_resume c (Some p) tf (In_call b) r) (trap_end_at c (Some p)) s.
Proof.
  intros Hst. apply path_bind. eapply (path_mono _ (call_end c p)).
  - destruct b; cbn [call_resume call_start] in *; [| |by apply path_done|done].
    + destruct Hst as [Hh Hr]. apply path_ret. by destruct r.
    + by apply path_sleep_turn.
  - intros r' s1 Hr1. apply path_bind. eapply path_mono; [by apply path_set_result|]. intros [] s2 Hr2.
    by apply path_syscall_return.
Qed.

(** After the yield at a clock tick. *)
Lemma path_tick_resume c p tf s : here c (Some p) s → path (trap_resume c (Some p) tf In_tick None) (trap_end_at c (Some p)) s.
Proof. apply path_trap_end. Qed.
End Props.

(** ** The devices of the machine

    The disk of [Ide] and the console of [Console] and [Kbd] are such devices:
    their interrupt handlers, with the channels they wake up. *)

Record devices (hw : Type) := mkDevices { d_ide : Ide.ist hw; d_con : Console.cst }.
Arguments mkDevices {hw}.
Arguments d_ide {hw}.
Arguments d_con {hw}.

Section Machine.
Context {hw : Type} {ID : Ide.IdeDev hw} {KE : KernelEnv} (addr : Kctx.waitchan → Z) (ticksa idea consa : Z).

Definition forget (x : Kctx.ctx) : Kctx.ctx := Kctx.mkCtx (Kctx.held x) (Kctx.sleeps x) (Kctx.cur_pid x) (Kctx.cur_killed x) [].
(** The context records the channels woken up, the last one first. *)
Definition channels (x : Kctx.ctx) : list chan := rev ((λ w, ch_addr (addr w)) <$> Kctx.woken x).

Definition ide_work : M (devices hw) (list chan) :=
  zoom d_ide (λ i d, mkDevices i (d_con d))
    (modify (λ i, Ide.set_ictx (forget (Ide.ictx i)) i) ;; Ide.ideintr ;; gets (λ i, channels (Ide.ictx i))).
Definition con_work (intr : M Console.cst bool) : M (devices hw) (list chan) :=
  zoom d_con (λ x d, mkDevices (d_ide d) x)
    (modify (λ x, Console.set_cx (forget (Console.cx x)) x) ;; intr ;; gets (λ x, channels (Console.cx x))).

Definition machine_env (files : Z → nat → M (tst (devices hw)) call) (resume : nat → M (tst (devices hw)) call) : TrapEnv (devices hw) := {|
  ticks_addr := ticksa;
  idelock := idea;
  cons_lock := consa;
  lapiceoi := λ _, mret tt;
  ide_service := ide_work;
  kbd_service := con_work Kbd.kbdintr;
  uart_service := con_work Console.uartintr;
  file_call := files;
  file_resume := resume
|}.

Context {IL : Ide.IdeLaws ID}.

(** No request is queued, or the disk has finished the first one; the console
    works. *)
Definition ide_ready (i : Ide.ist hw) : Prop :=
  Kctx.held (Ide.ictx i) = [] ∧ ∃ q, Ide.queue_is q i ∧
  match q with [] => True | j :: _ => ∃ b, Ide.ibufs i !! j = Some b ∧ Ide.finished b i end.
Definition con_ready (x : Console.cst) : Prop :=
  Kctx.held (Console.cx x) = [] ∧ ConsoleProps.con_ok x ∧ Kbd.kbd_ok x ∧ Kbd.uart_ok x ∧ ∃ l, ConsoleProps.line_in l x.

Lemma ide_work_ok d : ide_ready (d_ide d) → ∃ l d', ide_work d = Ok (l, d').
Proof.
  destruct d as [i x]. cbn. intros (Hh & q & Hq & Hf). set (i1 := Ide.set_ictx (forget (Ide.ictx i)) i).
  assert (Ide.queue_is q i1) as Hq1 by (by eapply Ide.queue_state).
  assert (∃ i2, Ide.ideintr i1 = Ok (tt, i2)) as [i2 E].
  { destruct q as [|j q]; [exists i1; by apply Ide.ideintr_idle|]. destruct Hf as (b & Hb & Hf).
    destruct (Ide.ideintr_ok q j b i1 Hq1 Hb Hf Hh) as (i2 & E & _). by exists i2. }
  eexists _, _. unfold ide_work, zoom. cbn [d_ide]. rewrite (bind_ok _ _ i tt i1) by done. rewrite (bind_ok _ _ _ _ _ E). reflexivity.
Qed.

Lemma con_work_ok intr d :
  (∀ x, con_ready x → ∃ b x', intr x = Ok (b, x')) → con_ready (d_con d) → ∃ l d', con_work intr d = Ok (l, d').
Proof.
  destruct d as [i x]. cbn. intros Hintr (Hh & Ho & Hk & Hu & l & Hl). set (x1 := Console.set_cx (forget (Console.cx x)) x).
  destruct (Hintr x1) as (b & x' & E).
  { split; [exact Hh|]. split; [by destruct Ho|]. split; [exact Hk|]. split; [exact Hu|]. exists l. by destruct Hl. }
  eexists _, _. unfold con_work, zoom. cbn [d_con]. rewrite (bind_ok _ _ x tt x1) by done. rewrite (bind_ok _ _ _ _ _ E). reflexivity.
Qed.

(** So every interrupt of these devices returns. *)
Definition machine_returns files resume : DevReturns (machine_env files resume).
Proof.
  refine {| dev_ok d := ide_ready (d_ide d) ∧ con_ready (d_con d) |}; cbn.
  - intros c d. by exists tt, d.
  - intros d [H _]. by apply ide_work_ok.
  - intros d [_ H]. apply con_work_ok; [|exact H]. intros x (Hh & Ho & Hk & Hu & l & Hl).
    destruct (Kbd.kbdintr_line l x) as (b & x' & E & _); [done..|]. by exists b, x'.
  - intros d [_ H]. apply con_work_ok; [|exact H]. intros x (Hh & Ho & Hk & Hu & l & Hl).
    destruct (Kbd.uartintr_line l x) as (b & x' & E & _); [done..|]. by exists b, x'.
Defined.
End Machine.
