(* ===== verification/TrapProps.v ===== *)
(** * Traps keep the kernel's invariant, and the clock preempts *)

From S2P Require Export TrapSteps MlfqProps.
Local Open Scope Z_scope.

Section Clock.
Context {KE : KernelEnv} {dev : Type} {TE : TrapEnv dev}.
Context (c p : nat) (tf : trapframe) (A : ast).

(** During a trap of core [c], between sections: the processes are as in [B]. *)
Definition tick_at (B : ast) (t : Z) (d : dev) (s : tst dev) : Prop :=
  ∃ m, R (tk s) (amod (set_kmach m) B) ∧ Inv idle (amod (set_kmach m) B) ∧
    cprocs m = cprocs (amach A) ∧ irq_on m c = false ∧ gticks s = t ∧ devs s = d.

Context (Hrun : aruns A c p).

Lemma wp_ontk {T} (m : M kst T) (Q : T → tst dev → Prop) s :
  wp m (λ r k, Q r (set_tk k s)) (tk s) → wp (ontk m) Q s.
Proof. apply wpg_zoom. Qed.

Lemma tick_cur B t d s (Q : ptr → tst dev → Prop) :
  tick_at B t d s → (∀ s', tick_at B t d s' → Q (Some p) s') → wp (cur c) Q s.
Proof.
  intros (m & HR & Hi & Hcp & Hq & Ht & Hd) HQ. apply wp_ontk.
  eapply R_me_irq; [exact HR|exact Hi|unfold aruns, amach; cbn; rewrite Hcp; exact Hrun|].
  intros k m' HR' Hi' Hcp' Hq'. apply HQ. exists m'. split_and!; [exact HR'|exact Hi'| | |exact Ht|exact Hd].
  - rewrite Hcp'. exact Hcp.
  - rewrite Hq'. exact Hq.
Qed.

Lemma tick_getp B t d s e (Q : proc → tst dev → Prop) :
  tick_at B t d s → aprocs B !! p = Some e → (∀ pr, unlink pr = e → Q pr s) → wp (getp (Some p)) Q s.
Proof.
  intros (m & HR & _) He HQ. apply wp_ontk. eapply R_pget; [exact HR|exact He|].
  intros pr Hpr. destruct s. by apply HQ.
Qed.

(** The process has not been killed, or runs in the kernel. *)
Lemma tick_not_killed B t d s e (Q : bool → tst dev → Prop) :
  tick_at B t d s → aprocs B !! p = Some e → killed e = 0 ∨ Z.land (tf_cs tf) 3 ≠ DPL_USER →
  (∀ s', tick_at B t d s' → Q false s') → wp (killed_in_user c tf) Q s.
Proof.
  intros Ht He Hk HQ. apply wpg_bind. eapply tick_cur; [exact Ht|]. intros s1 Ht1. rewrite ptr_eqb_false by done.
  apply wpg_bind. eapply tick_cur; [exact Ht1|]. intros s2 Ht2.
  apply wpg_bind. eapply tick_getp; [exact Ht2|exact He|]. intros pr Hpr. apply wpg_ret.
  assert (killed pr = killed e) as -> by (by rewrite <- Hpr).
  assert (negb (killed e =? 0) && (Z.land (tf_cs tf) 3 =? DPL_USER) = false) as ->; [|by apply HQ].
  destruct Hk as [->|Hne]; [done|]. by rewrite (proj2 (Z.eqb_neq _ _) Hne), andb_false_r.
Qed.

Lemma tick_preempts B t d s e (Q : bool → tst dev → Prop) :
  tick_at B t d s → aprocs B !! p = Some e → state e = RUNNING → tf_trapno tf = T_IRQ0 + IRQ_TIMER →
  (∀ s', tick_at B t d s' → Q true s') → wp (preempts c tf) Q s.
Proof.
  intros Ht He Hst Hno HQ. apply wpg_bind. eapply tick_cur; [exact Ht|]. intros s1 Ht1. rewrite ptr_eqb_false by done.
  apply wpg_bind. eapply tick_cur; [exact Ht1|]. intros s2 Ht2.
  apply wpg_bind. eapply tick_getp; [exact Ht2|exact He|]. intros pr Hpr. apply wpg_ret.
  assert (state pr = RUNNING) as -> by (rewrite <- Hst; by rewrite <- Hpr).
  rewrite bool_decide_true, Hno, Z.eqb_refl by done. by apply HQ.
Qed.

Lemma tick_cpuid B t d s (Q : nat → tst dev → Prop) :
  tick_at B t d s → Q c s → wp (ontk (onm (mycpu c))) Q s.
Proof.
  intros (m & HR & Hi & Hcp & Hq & _) HQ. apply wp_ontk. apply wpg_zoom.
  assert (kmach (tk s) = m) as Em by (by rewrite <- (R_kmach _ _ HR)). rewrite Em.
  assert (cprocs m !! c = Some (Some p)) as Hc by (rewrite Hcp; exact Hrun).
  pose proof (inv_m _ _ Hi) as Hid. change (idle m) in Hid.
  destruct (cpu_at_exists _ _ _ (idle_ok _ Hid) Hc) as (k & cp & Hat & _).
  rewrite (irq_at _ _ _ _ Hat), (idle_cores _ Hid c _ _ Hat), Z.eqb_refl in Hq.
  eapply ok_wpg; [exact (mycpu_ok m c k cp (idle_ok _ Hid) Hat Hq)|].
  subst m. by destruct s as [[]].
Qed.

(** The part of the clock interrupt that counts the tick. *)
Lemma tick_count t d s (Q : unit → tst dev → Prop) :
  tick_at A t d s → (∀ s', tick_at (awakeup (ch_addr ticks_addr) A) (u32 (t + 1)) d s' → Q tt s') →
  wp (ontk (onm (acquire c tickslock)) ;;
      t ← gets gticks;
      modify (set_gticks (u32 (t + 1))) ;;
      ontk (wakeup c (ch_addr ticks_addr)) ;;
      ontk (onm (release c tickslock))) Q s.
Proof.
  intros (m & HR & Hi & Hcp & Hq & Ht & Hd) HQ. set (ch := ch_addr ticks_addr) in *.
  assert (cprocs m !! c = Some (Some p)) as Hc by (rewrite Hcp; exact Hrun).
  pose proof (inv_m _ _ Hi) as Hid. change (idle m) in Hid.
  destruct (acquire_idle c tickslock _ _ Hc Hid) as (m1 & E1 & Hcr & Hcp1).
  apply wpg_bind, wp_ontk. eapply R_onm; [exact HR|]. eapply ok_wpg; [exact E1|]. intros k1 HR1.
  assert (Inv (in_crit c tickslock) (amod (set_kmach m1) A)) as Hi1 by (by eapply (inv_amod idle _ (amod (set_kmach m) A))).
  apply wpg_bind, wpg_gets, wpg_bind, wpg_modify, wpg_bind, wp_ontk.
  eapply wpg_mono; [eapply (R_wakeup_crit true _ (amod (set_kmach m1) A)); [exact HR1|exact Hi1|discriminate|by unfold amach; cbn; rewrite Hcp1]|].
  cbn beta. intros [] k2 (m2 & HR2 & Hi2 & Hcp2 & Hq2). change (cprocs m2 = cprocs m1) in Hcp2.
  assert (amod (set_kmach m2) (awakeup ch (amod (set_kmach m1) A)) = amod (set_kmach m2) (awakeup ch A)) as Ea.
  { unfold awakeup. change (aq (amod (set_kmach m1) A)) with (aq A). by rewrite abase_wake_list_mach. }
  rewrite Ea in HR2, Hi2. destruct (release_crit c tickslock _ (inv_m _ _ Hi2)) as (m3 & E3 & Hid3 & Hcp3).
  change (release c tickslock m2 = Ok (tt, m3)) in E3. change (cprocs m3 = cprocs m2) in Hcp3.
  apply wp_ontk. eapply R_onm; [exact HR2|]. eapply ok_wpg; [exact E3|]. intros k3 HR3.
  apply HQ. exists m3. split_and!; [exact HR3| | | | |exact Hd].
  - by eapply (inv_amod _ _ (amod (set_kmach m2) (awakeup ch A))).
  - by rewrite Hcp3, Hcp2, Hcp1.
  - rewrite (release_irq c tickslock m2 m3 c (inv_m _ _ Hi2) E3), Hq2. change (irq_on m1 c = false).
    rewrite (acquire_irq c tickslock m m1 _ c Hc Hid E1). exact Hq.
  - by cbn; rewrite Ht.
Qed.

Lemma tick_clock t d d' s (Q : unit → tst dev → Prop) :
  tick_at A t d s → lapiceoi c d = Ok (tt, d') →
  (∀ s', tick_at (if decide (c = 0%nat) then awakeup (ch_addr ticks_addr) A else A)
           (if decide (c = 0%nat) then u32 (t + 1) else t) d' s' → Q tt s') →
  wp (clock_tick c) Q s.
Proof.
  intros Ht He HQ. apply wpg_bind. eapply tick_cpuid; [exact Ht|]. apply wpg_bind.
  assert (∀ B t1 s1, tick_at B t1 d s1 → (∀ s', tick_at B t1 d' s' → Q tt s') → wp (ondev (lapiceoi c)) Q s1) as Heoi.
  { intros B t1 s1 (m & HR & Hi & Hcp & Hq & Ht1 & Hd) HQ1. apply wpg_zoom. rewrite Hd.
    eapply ok_wpg; [exact He|]. apply HQ1. by exists m. }
  destruct (decide (c = 0%nat)) as [E|E].
  - rewrite bool_decide_true by done. cbn [when]. apply (tick_count t d); [exact Ht|]. intros s1 H1. by eapply Heoi.
  - rewrite bool_decide_false by done. cbn [when]. apply wpg_ret. by eapply Heoi.
Qed.
End Clock.

Lemma ayield_mach {KE : KernelEnv} p i m m' A :
  amod (set_kmach m') (aleave (ayield p i (amod (set_kmach m) A))) = amod (set_kmach m') (aleave (ayield p i A)).
Proof.
  unfold ayield. change (aprocs (amod (set_kmach m) A)) with (aprocs A). destruct (aprocs A !! p) as [d|].
  - apply aleave_yield_mach.
  - apply aleave_mach.
Qed.

Section Props.
Context {KE : KernelEnv} {dev : Type} {TE : TrapEnv dev}.
Implicit Types (s : tst dev) (c p : nat) (o : ptr).

(** What a trap ends with. *)
Definition trap_result c o (s : tst dev) (r : res (stage * tst dev)) : Prop :=
  match r with
  | Ok (st, s') => rtc kstep (tk s) (tk s') ∧ KInv (tk s') ∧ (st = Back → cprocs (kmach (tk s')) !! c = Some o)
  | Panic msg => stops msg
  | _ => False
  end.

Lemma path_result c o (m : M (tst dev) stage) s (DR : DevReturns TE) :
  path m (trap_end_at c o) s → trap_result c o s (m s).
Proof.
  unfold path, trap_result. destruct (m s) as [[st s']|?| |]; [|done..]. intros [H1 H2]. split; [done|].
  destruct st; cbn in H2; [destruct H2; by split|by split..].
Qed.

(** C2. Every trap but the system calls on files runs to its end as a sequence
    of kernel steps: an interrupt of the clock, the disk, the keyboard or the
    serial port on a core that runs a process or none, the MLFQ traps, an
    exception, a system call on processes, and what is left of a call, or of
    the clock interrupt, when the scheduler comes back to it.  It neither
    faults nor loops, the invariant of the kernel holds again at the end, and the
    core still runs the same process when it goes back to it; or it stops with
    one of the two panics the code means to make, for an exception in the
    kernel and for the end of init.  What it takes for this: the calls into the
    allocator and the file system return, and so do the devices (as
    [machine_returns] shows of the models of the disk and the console); the
    memory of the process is there; a [setPriority] finds no process of level 2
    on another queue (the case that [mlfq_invariant] singles out). *)
Theorem traps_are_steps c o tf s (DR : DevReturns TE) :
  KernelEnvLaws KE → KernelReturns KE →
  (here c o s → trap_ok c tf o s → trap_result c o s (trap c tf s)) ∧
  (∀ p b r, call_start c p b r s → trap_result c (Some p) s (trap_resume c (Some p) tf (In_call b) r s)) ∧
  (∀ p, here c (Some p) s → trap_result c (Some p) s (trap_resume c (Some p) tf In_tick None s)).
Proof.
  intros HL HT. split_and!.
  - intros Hh Hok. by apply (path_result _ _ _ _ DR), path_trap.
  - intros p b r Hst. by apply (path_result _ _ _ _ DR), path_resume.
  - intros p Hh. by apply (path_result _ _ _ _ DR), path_tick_resume.
Qed.

(** C3. The clock preempts: an interrupt of the timer on the core of a running
    process (one that has not been killed, or is in the kernel) counts a tick
    if the core is the first, modulo 2^32, wakes the processes that sleep on
    [ticks], and makes the process give up the core as [yield] does, with
    interrupts off. *)
Theorem clock_preempts c p tf s A d d' :
  R (tk s) A → Inv idle A → runs (tk s) c p → irq_on (kmach (tk s)) c = false →
  tf_trapno tf = T_IRQ0 + IRQ_TIMER → lapiceoi c (devs s) = Ok (tt, d') →
  aprocs A !! p = Some d → killed d = 0 ∨ Z.land (tf_cs tf) 3 ≠ DPL_USER →
  ∃ s', trap c tf s = Ok (In_tick, s') ∧ devs s' = d' ∧
    gticks s' = (if decide (c = 0%nat) then u32 (gticks s + 1) else gticks s) ∧
    reaches (aleave (ayield p false (if decide (c = 0%nat) then awakeup (ch_addr ticks_addr) A else A))) c None A (tk s').
Proof.
  intros HR Hi Hr Hq Hno Heoi Hd Hk. pose proof (R_runs _ _ _ _ HR Hr) as Ha.
  destruct (inv_running _ _ _ _ Hi Ha) as (d0 & Hd0 & Hst). rewrite Hd in Hd0. injection Hd0 as <-.
  set (B := if decide (c = 0%nat) then awakeup (ch_addr ticks_addr) A else A).
  set (t1 := if decide (c = 0%nat) then u32 (gticks s + 1) else gticks s).
  assert (aprocs B !! p = Some d) as HdB.
  { unfold B. destruct (decide _); [|done].
    rewrite (wk_no _ _ _ _ _ _ (awakeup_woken [] (ch_addr ticks_addr) A (R_qdisj _ _ HR) (inv_q _ _ Hi))); [done|].
    left. intros Hin. destruct (qi_fits _ _ (inv_q _ _ Hi) _ _ Hin) as (d1 & Hd1 & Hf). rewrite Hd in Hd1. injection Hd1 as <-.
    cbn in Hf. by rewrite Hst in Hf. }
  assert (tick_at c A A (gticks s) (devs s) s) as H0.
  { exists (kmach (tk s)). rewrite <- (R_kmach _ _ HR).
    assert (amod (set_kmach (amach A)) A = A) as -> by (by destruct A as [[] ?]).
    rewrite (R_kmach _ _ HR). by split_and!. }
  assert (wp (trap c tf) (λ st s', st = In_tick ∧ devs s' = d' ∧ gticks s' = t1 ∧ reaches (aleave (ayield p false B)) c None A (tk s')) s) as H.
  2:{ destruct (wp_ok _ _ _ H) as (st & s' & E & -> & H1). by exists s'. }
  assert (trap_cause c tf = clock_tick c) as Ec by (unfold trap_cause; rewrite Hno; reflexivity).
  unfold trap. rewrite Ec, Hno. change (T_IRQ0 + IRQ_TIMER =? T_SYSCALL) with false.
  apply wpg_bind. eapply (tick_clock c p A Ha _ _ d'); [exact H0|exact Heoi|]. fold B t1. intros s1 H1.
  apply wpg_bind. eapply (tick_not_killed c p); [exact Ha|exact H1|exact HdB|exact Hk|]. intros s2 H2.
  apply wpg_bind. eapply (tick_preempts c p); [exact Ha|exact H2|exact HdB|exact Hst|exact Hno|]. intros s3 H3.
  apply wpg_bind, wp_ontk. destruct H3 as (m & HR3 & Hi3 & Hcp3 & Hq3 & Ht3 & Hd3).
  eapply wpg_mono; [eapply (R_yield true _ _ c p); [exact HR3|exact Hi3|]|].
  { unfold aruns, amach; cbn. rewrite Hcp3. exact Ha. }
  cbn beta. intros [] k (m' & HR' & Hi' & Hcp'). change (irq_on (amach (amod (set_kmach m) B)) c) with (irq_on m c) in *.
  rewrite Hq3, ayield_mach in *. apply wpg_ret. split; [done|]. split; [exact Hd3|]. split; [exact Ht3|].
  exists m'. split; [exact HR'|]. split; [exact Hi'|]. rewrite Hcp'. change (amach (amod (set_kmach m) B)) with m. by rewrite Hcp3.
Qed.
End Props.

(** ** An instance *)

(** A keyboard on which keys are waiting, and no other device and no files: the
    interrupt of the keyboard wakes up who waits at [input.r], here address
    8192, when a key is there. *)
#[export] Instance demo_trap_env : TrapEnv nat := {|
  ticks_addr := 4096;
  idelock := 12288;
  cons_lock := 16384;
  lapiceoi := λ _, mret tt;
  ide_service := mret [];
  kbd_service := λ n, Ok (if (n =? 0)%nat then [] else [ch_addr 8192], 0%nat);
  uart_service := mret [];
  file_call := λ _ _, mret (Done (-1));
  file_resume := λ _, fault
|}.

#[export] Instance demo_returns : KernelReturns demo_env.
Proof. split; cbn; intros; intros s; eexists _, _; reflexivity. Qed.

#[export] Instance demo_dev_returns : DevReturns demo_trap_env.
Proof. refine {| dev_ok _ := True |}; cbn; [intros c s|..]; eauto. Defined.

(** init on core 0, with the interrupts of the core off. *)
Definition d_irq : kst := set_kmach (set_core 0 (mkCore false 0) (kmach (d_after up_run))) (d_after up_run).
Definition d_tst : tst nat := mkTst d_irq (2 ^ 32 - 1) (λ _, replicate 4096 0) 1%nat.

Lemma d_irq_kinv : KInv d_irq.
Proof.
  apply kinv_local; [apply (d_after_kinv up_run); vm_compute; reflexivity|apply idleb_sound; vm_compute; reflexivity|vm_compute; reflexivity].
Qed.

Definition tf_of (trapno eax cs : Z) : trapframe := mkTf 0 0 0 0 0 0 0 eax 0 0 0 0 trapno 0 0 cs 0 0 0.
(** A process that calls [getpid]. *)
Definition tf_getpid : trapframe := tf_of 64 11 27.

Lemma d_tst_here : here 0 (Some 0%nat) d_tst.
Proof. split; [exact d_irq_kinv|vm_compute; reflexivity]. Qed.

(** The state after a trap on core 0. *)
Definition d_trap (tf : trapframe) : tst nat := match trap 0 tf d_tst with Ok (_, s) => s | _ => d_tst end.

(** A system call that returns, and an interrupt of the keyboard. *)
Lemma traps_are_steps_witness :
  (∃ s', trap 0 tf_getpid d_tst = Ok (Back, s') ∧ rtc kstep (tk d_tst) (tk s') ∧ KInv (tk s') ∧ runs (tk s') 0 0) ∧
  ∃ s', trap 0 (tf_of 33 0 8) d_tst = Ok (Back, s') ∧ devs s' = 0%nat ∧ rtc kstep (tk d_tst) (tk s') ∧ KInv (tk s').
Proof.
  assert (mem_ok 0 d_tst) as Hmem.
  { intros d Hd. assert (sz <$> procs (tk d_tst) !! 0%nat = Some 4096) as H by (vm_compute; reflexivity). rewrite Hd in H. injection H as ->.
    split; [lia|]. cbn [umem d_tst]. rewrite length_replicate. lia. }
  assert (∀ tf, trap_ok 0 tf (Some 0%nat) d_tst → trap 0 tf d_tst = Ok (Back, d_trap tf) →
    ∃ s', trap 0 tf d_tst = Ok (Back, s') ∧ devs s' = devs (d_trap tf) ∧ rtc kstep (tk d_tst) (tk s') ∧ KInv (tk s') ∧ runs (tk s') 0 0) as H.
  { intros tf Hok E. exists (d_trap tf). split; [exact E|]. split; [reflexivity|].
    pose proof (proj1 (traps_are_steps 0 (Some 0%nat) tf d_tst demo_dev_returns demo_laws demo_returns) d_tst_here Hok) as H.
    rewrite E in H. destruct H as (H1 & H2 & H3). exact (conj H1 (conj H2 (H3 eq_refl))). }
  split.
  - destruct (H tf_getpid) as (s' & H1 & _ & H2).
    + split; [exact I|discriminate|discriminate|by intros p _ [= <-]|intros _; left|intros _ H1; vm_compute in H1; discriminate H1].
      vm_compute. do 4 right. left.
    + vm_compute. reflexivity.
    + exists s'. split; assumption.
  - destruct (H (tf_of 33 0 8)) as (s' & H1 & Hd & H2 & H3 & _).
    + split; [exact I|discriminate|intros [H1|[H1|H1]]; discriminate H1|intros p H1; discriminate H1|intros H1; discriminate H1|intros H1; discriminate H1].
    + vm_compute. reflexivity.
    + exists s'. split; [exact H1|]. split; [|split; assumption]. rewrite Hd. vm_compute. reflexivity.
Defined.

Lemma clock_preempts_witness :
  ∃ A s', trap 0 (tf_of 32 0 8) d_tst = Ok (In_tick, s') ∧ devs s' = 1%nat ∧ gticks s' = 0 ∧
    reaches (aleave (ayield 0 false (awakeup (ch_addr 4096) A))) 0 None A (tk s').
Proof.
  destruct d_irq_kinv as (A & HR & Hi). exists A.
  assert (runs d_irq 0 0) as Hr by (vm_compute; reflexivity).
  destruct (inv_running _ _ _ _ Hi (R_runs _ _ _ _ HR Hr)) as (d & Hd & _).
  assert (Z.land (tf_cs (tf_of 32 0 8)) 3 ≠ DPL_USER) as Hcs by (vm_compute; discriminate).
  assert (irq_on (kmach (tk d_tst)) 0 = false) as Hq by (vm_compute; reflexivity).
  assert (lapiceoi 0 (devs d_tst) = Ok (tt, 1%nat)) as He by (vm_compute; reflexivity).
  destruct (clock_preempts 0 0 (tf_of 32 0 8) d_tst A d 1%nat HR Hi Hr Hq eq_refl He Hd (or_intror Hcs)) as (s' & H1 & H2 & H3 & H4).
  exists s'. exact (conj H1 (conj H2 (conj H3 H4))).
Defined.
