(* ===== verification/LwpTrap.v ===== *)
(** * Traps and system calls of the LWP kernel (Project2: trap.c, sysproc.c, syscall.c)

    The entry points of the kernel of Project2, over the processes and threads
    of [Threads]: the interrupts, the arguments of system calls on the user
    stack, the calls on processes and threads, and their dispatch.  The calls
    on files (with [exec] and [exec2]) and the device interrupts other than
    the clock are given by an interface, [LwpEnv].  As in [Trap], a call that
    gives the core up ends with what is left to do when its process runs
    again, and [trap_resume] does that. *)

From S2P Require Export ThreadsDemo Bytes.
From S2P Require Trap.
Local Open Scope Z_scope.

(** What is left of a call that sleeps: in [wait], in [thread_join], in the
    loop of [sys_sleep], or in a call on files. *)
Inductive blocked := B_wait | B_join | B_sleep (n ticks0 : Z) | B_file.
(** A system call returned a value, gave the core up, or does not return. *)
Inductive call := Done (v : Z) | Blocked (b : blocked) | Gone.
(** A trap went back to what it interrupted, ended the process or thread, or
    gave the core up in a system call or at a clock tick. *)
Inductive stage := Back | Left | In_call (b : blocked) | In_tick.

(** The processes and threads, [ticks], and the devices. *)
Record lst {KE : KernelEnv} (dev : Type) := mkLst { lk : kst; gticks : Z; devs : dev }.
Arguments mkLst {KE dev}.
Arguments lk {KE dev}.
Arguments gticks {KE dev}.
Arguments devs {KE dev}.

(** [&ticks]; [load_user d a], the word at address [a] of the memory that page
    directory [d] maps (what [store_user] writes); the interrupts of the
    devices and the system calls that are not here. *)
Class LwpEnv {KE : KernelEnv} (dev : Type) := {
  ticks_addr : Z;
  load_user : Z → Z → env → option Z;
  lapiceoi : nat → M dev unit;
  ideintr : nat → M (lst dev) unit;
  kbdintr : nat → M (lst dev) unit;
  uartintr : nat → M (lst dev) unit;
  file_call : Z → nat → M (lst dev) call;
  file_resume : nat → M (lst dev) call
}.

Section LwpTrap.
Context {KE : KernelEnv} {dev : Type} {LE : LwpEnv dev}.

Definition set_lk (k : kst) (s : lst dev) : lst dev := mkLst k (gticks s) (devs s).
Definition set_gticks (v : Z) (s : lst dev) : lst dev := mkLst (lk s) v (devs s).
Definition set_devs (d : dev) (s : lst dev) : lst dev := mkLst (lk s) (gticks s) d.
Definition onlk {A} (m : M kst A) : M (lst dev) A := zoom lk set_lk m.
Definition ondev {A} (m : M dev A) : M (lst dev) A := zoom devs set_devs m.

Definition cur (c : nat) : M (lst dev) ptr := onlk (onm (myproc c)).
Definition getp (p : ptr) : M (lst dev) proc := onlk (pget p).

(** ** Arguments *)

Definition fetchint (c : nat) (addr : Z) : M (lst dev) (option Z) :=
  curproc ← cur c;
  pr ← getp curproc;
  sh ← onlk (sget c (shared_info pr));
  if (addr >=? sz sh) || (u32 (addr + 4) >? sz sh) then mret None
  else
    v ← deref (λ s, load_user (pgdir pr) addr (kenv (lk s)));
    mret (Some (i32 v)).
Definition argint (c : nat) (n : Z) : M (lst dev) (option Z) :=
  p ← cur c;
  pr ← getp p;
  fetchint c (u32 (tf_esp (tf pr) + 4 + 4 * n)).

(** [if(argint(n, &x) < 0) return -1;] *)
Definition with_arg (c : nat) (n : Z) (k : Z → M (lst dev) call) : M (lst dev) call :=
  a ← argint c n;
  match a with None => mret (Done (-1)) | Some x => k x end.

(** ** The system calls on processes *)

Definition sys_fork (c : nat) : M (lst dev) call := r ← onlk (fork c); mret (Done r).
Definition sys_exit (c : nat) : M (lst dev) call := onlk (exit c) ;; mret Gone.

(** The result of a call that may sleep. *)
Definition slept (b : blocked) (r : option Z) : call :=
  match r with Some v => Done v | None => Blocked b end.
Definition sys_wait (c : nat) : M (lst dev) call := r ← onlk (wait c); mret (slept B_wait r).

Definition sys_kill (c : nat) : M (lst dev) call :=
  with_arg c 0 (λ pid, r ← onlk (kill c pid); mret (Done r)).
Definition sys_getpid (c : nat) : M (lst dev) call := p ← cur c; pr ← getp p; mret (Done (pid pr)).

Definition sys_sbrk (c : nat) : M (lst dev) call :=
  with_arg c 0 (λ n,
    p ← cur c;
    pr ← getp p;
    sh ← onlk (sget c (shared_info pr));
    let addr := i32 (sz sh) in
    r ← onlk (growproc c n);
    if r <? 0 then mret (Done (-1)) else mret (Done addr)).

(** The loop of [sys_sleep], with [tickslock] held: [ticks - ticks0 < n]
    compares unsigned numbers. *)
Definition sleep_turn (c : nat) (n ticks0 : Z) : M (lst dev) call :=
  t ← gets gticks;
  if u32 (t - ticks0) <? u32 n then
    p ← cur c;
    pr ← getp p;
    if negb (killed pr =? 0) then
      onlk (onm (release c tickslock)) ;;
      mret (Done (-1))
    else
      onlk (sleep c (ch_addr ticks_addr) tickslock (T_sleep tickslock)) ;;
      mret (Blocked (B_sleep n ticks0))
  else
    onlk (onm (release c tickslock)) ;;
    mret (Done 0).
Definition sys_sleep (c : nat) : M (lst dev) call :=
  with_arg c 0 (λ n,
    onlk (onm (acquire c tickslock)) ;;
    ticks0 ← gets gticks;
    sleep_turn c n ticks0).

Definition sys_uptime (c : nat) : M (lst dev) call :=
  onlk (onm (acquire c tickslock)) ;;
  xticks ← gets gticks;
  onlk (onm (release c tickslock)) ;;
  mret (Done (i32 xticks)).

(** [list]: what it reads; the lines it prints are left out. *)
Definition list_procs (c : nat) : M kst unit :=
  for_each proc_table (λ p,
    pr ← pget (Some p);
    when (bool_decide (state pr ∈ [RUNNABLE; RUNNING; SLEEPING; ZOMBIE]))
      (sget c (shared_info pr) ;; mret tt)).
Definition sys_list (c : nat) : M (lst dev) call := onlk (list_procs c) ;; mret (Done 0).

(** A negative limit is refused. *)
Definition sys_setmemorylimit (c : nat) : M (lst dev) call :=
  with_arg c 0 (λ pid,
  with_arg c 1 (λ limit,
    if limit <? 0 then mret (Done (-1))
    else r ← onlk (setmemorylimit c pid limit); mret (Done r))).

(** ** The system calls on threads *)

Definition sys_thread_create (c : nat) : M (lst dev) call :=
  with_arg c 0 (λ thread,
  with_arg c 1 (λ start_routine,
  with_arg c 2 (λ arg,
    r ← onlk (thread_create c (u32 thread) (u32 start_routine) (u32 arg));
    mret (Done r)))).
(** [thread_exit] returns to the main thread of a process only. *)
Definition sys_thread_exit (c : nat) : M (lst dev) call :=
  with_arg c 0 (λ retval,
    gone ← onlk (thread_exit c (u32 retval));
    mret (if gone : bool then Gone else Done 0)).
Definition sys_thread_join (c : nat) : M (lst dev) call :=
  with_arg c 0 (λ thread,
  with_arg c 1 (λ retval,
    r ← onlk (thread_join c (u32 thread) (u32 retval));
    mret (slept B_join r))).

(** ** [syscall] *)

Definition NSYSCALLS : Z := 28.
(** The table [syscalls]. *)
Definition syscalls (num : Z) (c : nat) : M (lst dev) call :=
  match num with
  | 1 => sys_fork c
  | 2 => sys_exit c
  | 3 => sys_wait c
  | 6 => sys_kill c
  | 11 => sys_getpid c
  | 12 => sys_sbrk c
  | 13 => sys_sleep c
  | 14 => sys_uptime c
  | 23 => sys_setmemorylimit c
  | 24 => sys_list c
  | 25 => sys_thread_create c
  | 26 => sys_thread_exit c
  | 27 => sys_thread_join c
  | num => file_call num c
  end.

(** [curproc->tf->eax = ...], when the call returns. *)
Definition set_result (curproc : ptr) (r : call) : M (lst dev) unit :=
  match r with
  | Done v => pr ← getp curproc; onlk (pset curproc (set_tf (tf_set_eax (u32 v) (tf pr))))
  | _ => mret tt
  end.
Definition syscall (c : nat) : M (lst dev) call :=
  curproc ← cur c;
  pr ← getp curproc;
  let num := i32 (tf_eax (tf pr)) in
  r ← (if (num >? 0) && (num <? NSYSCALLS) then syscalls num c else mret (Done (-1)));
  set_result curproc r ;;
  mret r.

(** ** [trap] *)

(** [if(myproc()->killed) exit();] after a system call. *)
Definition syscall_return (c : nat) (r : call) : M (lst dev) stage :=
  match r with
  | Done _ =>
      p ← cur c;
      pr ← getp p;
      if negb (killed pr =? 0) then onlk (exit c) ;; mret Left else mret Back
  | Blocked b => mret (In_call b)
  | Gone => mret Left
  end.

(** [myproc() && myproc()->killed && (tf->cs&3) == DPL_USER] *)
Definition killed_in_user (c : nat) (tf : trapframe) : M (lst dev) bool :=
  p ← cur c;
  if ptr_eqb p None then mret false else
  p ← cur c;
  pr ← getp p;
  mret (negb (killed pr =? 0) && (Z.land (tf_cs tf) 3 =? Trap.DPL_USER)).

(** The end of [trap], after [yield]. *)
Definition trap_end (c : nat) (tf : trapframe) : M (lst dev) stage :=
  k ← killed_in_user c tf;
  if (k : bool) then onlk (exit c) ;; mret Left else mret Back.

(** [case T_IRQ0 + IRQ_TIMER] *)
Definition clock_tick (c : nat) : M (lst dev) unit :=
  i ← onlk (onm (mycpu c));
  when (bool_decide (i = 0%nat))
    (onlk (onm (acquire c tickslock)) ;;
     t ← gets gticks;
     modify (set_gticks (u32 (t + 1))) ;;
     onlk (wakeup c (ch_addr ticks_addr)) ;;
     onlk (onm (release c tickslock))) ;;
  ondev (lapiceoi c).

(** The [switch] of [trap]. *)
Definition trap_cause (c : nat) (tf : trapframe) : M (lst dev) unit :=
  let n := tf_trapno tf in
  if n =? Trap.T_IRQ0 + Trap.IRQ_TIMER then clock_tick c
  else if n =? Trap.T_IRQ0 + Trap.IRQ_IDE then ideintr c ;; ondev (lapiceoi c)
  else if n =? Trap.T_IRQ0 + Trap.IRQ_IDE + 1 then mret tt
  else if n =? Trap.T_IRQ0 + Trap.IRQ_KBD then kbdintr c ;; ondev (lapiceoi c)
  else if n =? Trap.T_IRQ0 + Trap.IRQ_COM1 then uartintr c ;; ondev (lapiceoi c)
  else if (n =? Trap.T_IRQ0 + 7) || (n =? Trap.T_IRQ0 + Trap.IRQ_SPURIOUS) then ondev (lapiceoi c)
  else
    p ← cur c;
    if ptr_eqb p None || (Z.land (tf_cs tf) 3 =? 0) then panic "trap"
    else
      p ← cur c;
      onlk (pset p (set_killed 1)).

(** [myproc() && myproc()->state == RUNNING && tf->trapno == T_IRQ0+IRQ_TIMER] *)
Definition preempts (c : nat) (tf : trapframe) : M (lst dev) bool :=
  p ← cur c;
  if ptr_eqb p None then mret false else
  p ← cur c;
  pr ← getp p;
  mret (bool_decide (state pr = RUNNING) && (tf_trapno tf =? Trap.T_IRQ0 + Trap.IRQ_TIMER)).

Definition trap (c : nat) (tf : trapframe) : M (lst dev) stage :=
  if tf_trapno tf =? Trap.T_SYSCALL then
    p ← cur c;
    pr ← getp p;
    if negb (killed pr =? 0) then onlk (exit c) ;; mret Left else
    p ← cur c;
    onlk (pset p (set_tf tf)) ;;
    r ← syscall c;
    syscall_return c r
  else
    trap_cause c tf ;;
    k ← killed_in_user c tf;
    if (k : bool) then onlk (exit c) ;; mret Left else
    y ← preempts c tf;
    if (y : bool) then onlk (yield c) ;; mret In_tick else
    trap_end c tf.

(** The process [curproc] goes on; [r] is the result of [wait] or
    [thread_join] if it was there. *)
Definition call_resume (c : nat) (b : blocked) (r : option Z) : M (lst dev) call :=
  match b with
  | B_wait => mret (slept B_wait r)
  | B_join => mret (slept B_join r)
  | B_sleep n ticks0 => sleep_turn c n ticks0
  | B_file => file_resume c
  end.
Definition trap_resume (c : nat) (curproc : ptr) (tf : trapframe) (st : stage) (r : option Z) : M (lst dev) stage :=
  match st with
  | In_tick => trap_end c tf
  | In_call b =>
      r ← call_resume c b r;
      set_result curproc r ;;
      syscall_return c r
  | _ => fault
  end.
End LwpTrap.

(** ** [sbrk] under a memory limit *)

Section Rules.
Context {KE : KernelEnv} {dev : Type} {LE : LwpEnv dev} (t : bool).
Context (ps : gmap nat proc) (shs : gmap nat share) (e : env) (k : kst) (s : lst dev).
Notation at_ m := (set_lk (st ps shs m e k) s).

Lemma wpg_onlk {A} (f : M kst A) (Q : A → lst dev → Prop) k' :
  wpg t f (λ a k'', Q a (set_lk k'' s)) k' → wpg t (onlk f) Q (set_lk k' s).
Proof. intros H. by apply wpg_zoom. Qed.

Lemma wpg_getp m i pr (Q : proc → lst dev → Prop) :
  ps !! i = Some pr → Q pr (at_ m) → wpg t (getp (Some i)) Q (at_ m).
Proof. intros Hp HQ. apply wpg_onlk. by eapply tw_pget. Qed.

Lemma wpg_cur m c o (Q : ptr → lst dev → Prop) :
  idle m → cprocs m !! c = Some o → (∀ m', idle m' → cprocs m' = cprocs m → Q o (at_ m')) →
  wpg t (cur c) Q (at_ m).
Proof. intros Hi Hc HQ. apply wpg_onlk. by eapply wpg_myproc_idle. Qed.

(** The address of argument [n] of a call with trap frame [tf]; the argument
    is there when it lies below the size of the process. *)
Definition arg_addr (tf : trapframe) (n : Z) : Z := u32 (tf_esp tf + 4 + 4 * n).
Definition arg_in (tf : trapframe) (n : Z) (sh : share) : Prop :=
  arg_addr tf n < sz sh ∧ u32 (arg_addr tf n + 4) ≤ sz sh.
#[export] Instance arg_in_dec tf n sh : Decision (arg_in tf n sh).
Proof. apply _. Defined.

Lemma wpg_argint m c me cur q sh n w (Q : option Z → lst dev → Prop) :
  idle m → cprocs m !! c = Some (Some me) → ps !! me = Some cur →
  shared_info cur = Some q → shs !! q = Some sh →
  (arg_in (tf cur) n sh → load_user (pgdir cur) (arg_addr (tf cur) n) e = Some w) →
  (∀ m', idle m' → cprocs m' = cprocs m → Q (if decide (arg_in (tf cur) n sh) then Some (i32 w) else None) (at_ m')) →
  wpg t (argint c n) Q (at_ m).
Proof.
  intros Hi Hc Hp Hq Hsh Hw HQ. unfold argint, fetchint. fold (arg_addr (tf cur) n).
  apply wpg_bind. eapply wpg_cur; [done|done|]. intros m1 Hi1 Hc1.
  apply wpg_bind. eapply wpg_getp; [exact Hp|]. fold (arg_addr (tf cur) n).
  apply wpg_bind. eapply wpg_cur; [done|by rewrite Hc1|]. intros m2 Hi2 Hc2.
  apply wpg_bind. eapply wpg_getp; [exact Hp|]. rewrite Hq.
  apply wpg_bind, wpg_onlk. eapply wpg_sget; [exact Hsh|].
  assert ((arg_addr (tf cur) n >=? sz sh) || (u32 (arg_addr (tf cur) n + 4) >? sz sh) =
    negb (bool_decide (arg_in (tf cur) n sh))) as ->.
  { unfold arg_in. rewrite Z.geb_leb, Z.gtb_ltb.
    destruct (Z.leb_spec (sz sh) (arg_addr (tf cur) n)); [by rewrite bool_decide_false by lia|].
    destruct (Z.ltb_spec (sz sh) (u32 (arg_addr (tf cur) n + 4))); [by rewrite bool_decide_false by lia|].
    by rewrite bool_decide_true by lia. }
  specialize (HQ m2 Hi2 ltac:(by rewrite Hc2, Hc1)). destruct (decide (arg_in (tf cur) n sh)) as [Ha|Ha].
  - rewrite bool_decide_true by done. cbn [negb]. apply wpg_bind. eapply wpg_deref; [by apply Hw|]. by apply wpg_ret.
  - rewrite bool_decide_false by done. cbn [negb]. by apply wpg_ret.
Qed.
End Rules.

Section Sbrk.
Context {KE : KernelEnv} {dev : Type} {LE : LwpEnv dev}.

(** A system call of a process that is not killed: up to the call, and from
    its return on. *)
Lemma wpg_trap_call t c fr me cur ps shs m e k (s : lst dev) (Q : stage → lst dev → Prop) :
  idle m → cprocs m !! c = Some (Some me) → ps !! me = Some cur → killed cur = 0 →
  tf_trapno fr = Trap.T_SYSCALL → 0 < i32 (tf_eax fr) < NSYSCALLS →
  (∀ m', idle m' → cprocs m' = cprocs m →
     wpg t (syscalls (i32 (tf_eax fr)) c)
       (λ r, wpg t (set_result (Some me) r ;; syscall_return c r) Q)
       (set_lk (st (<[me := set_tf fr cur]> ps) shs m' e k) s)) →
  wpg t (trap c fr) Q (set_lk (st ps shs m e k) s).
Proof.
  intros Hi Hc Hp Hk Htn Hnum HQ. unfold trap. rewrite Htn, Z.eqb_refl.
  apply wpg_bind. eapply wpg_cur; [done|done|]. intros m1 Hi1 Hc1.
  apply wpg_bind. eapply wpg_getp; [exact Hp|]. rewrite Hk. cbn [Z.eqb negb].
  apply wpg_bind. eapply wpg_cur; [done|by rewrite Hc1|]. intros m2 Hi2 Hc2.
  apply wpg_bind, wpg_onlk. eapply tw_pset; [exact Hp|].
  apply wpg_bind. unfold syscall. apply wpg_bind. eapply wpg_cur; [done|by rewrite Hc2, Hc1|]. intros m3 Hi3 Hc3.
  apply wpg_bind. eapply wpg_getp; [apply lookup_insert_eq|]. cbv zeta. cbn [tf set_tf].
  rewrite (proj2 (Z.gtb_lt _ _)), (proj2 (Z.ltb_lt _ _)) by lia. cbn [andb]. apply wpg_bind.
  eapply wpg_mono; [apply HQ; [done|by rewrite Hc3, Hc2, Hc1]|].
  intros r s' H. apply wpg_bind. apply wpg_bind_inv in H. eapply wpg_mono; [exact H|].
  intros [] s'' H'. by apply wpg_ret.
Qed.

Lemma wpg_call_done t c me p v ps shs m e k (s : lst dev) (Q : stage → lst dev → Prop) :
  idle m → cprocs m !! c = Some (Some me) → ps !! me = Some p → killed p = 0 →
  (∀ m', idle m' → Q Back (set_lk (st (<[me := set_tf (tf_set_eax (u32 v) (tf p)) p]> ps) shs m' e k) s)) →
  wpg t (set_result (Some me) (Done v) ;; syscall_return c (Done v)) Q (set_lk (st ps shs m e k) s).
Proof.
  intros Hi Hc Hp Hk HQ. cbn [set_result syscall_return].
  apply wpg_bind, wpg_bind. eapply wpg_getp; [exact Hp|]. apply wpg_onlk. eapply tw_pset; [exact Hp|].
  apply wpg_bind. eapply wpg_cur; [done|done|]. intros m1 Hi1 Hc1.
  apply wpg_bind. eapply wpg_getp; [apply lookup_insert_eq|]. cbn [killed set_tf]. rewrite Hk. cbn [Z.eqb negb].
  by apply wpg_ret, HQ.
Qed.

(** What the trap of a call leaves: the result [r] in [eax]. *)
Definition returned (me : nat) (cur : proc) (fr : trapframe) (r : Z) (shs : gmap nat share)
    (m : mach) (e : env) (s : lst dev) : res (stage * lst dev) :=
  Ok (Back, set_lk (st (<[me := set_tf (tf_set_eax (u32 r) fr) cur]> (procs (lk s))) shs m e (lk s)) s).

(** C18. A process under a memory limit that makes the system call [sbrk]
    gets what the limit allows.  The trap reads the (signed) increment from
    the user stack, if that lies inside the process, and returns to the
    program: with -1 in [eax] and no change when the stack pointer is bad or
    the new size would be above the limit (although the comparison wraps at 32
    bits); with -1 when memory runs out; and otherwise with the old size in
    [eax] and a size within the limit. *)
Theorem sbrk_respects_limit {UL : UvmLaws KE} c fr s me cur q sh w v e' :
  idle (kmach (lk s)) → cprocs (kmach (lk s)) !! c = Some (Some me) →
  procs (lk s) !! me = Some cur → killed cur = 0 → kstack cur ≠ 0 → pgdir cur ≠ 0 →
  shared_info cur = Some q → shares (lk s) !! q = Some sh →
  0 ≤ sz sh → 0 < memory_limit sh < 2 ^ 31 → sz sh ≤ memory_limit sh →
  tf_trapno fr = Trap.T_SYSCALL → tf_eax fr = 12 →
  (arg_in fr 0 sh → load_user (pgdir cur) (arg_addr fr 0) (kenv (lk s)) = Some w) →
  let n := i32 w in
  (n > 0 → allocuvm (pgdir cur) (sz sh) (u32 (sz sh + n)) (kenv (lk s)) = Ok (v, e')) →
  (n < 0 → deallocuvm (pgdir cur) (sz sh) (u32 (sz sh + n)) (kenv (lk s)) = Ok (v, e')) →
  (n = 0 → v = sz sh ∧ e' = kenv (lk s)) →
  ∃ m', idle m' ∧
    (trap c fr s = returned me cur fr (-1) (shares (lk s)) m' (kenv (lk s)) s ∧
       (¬ arg_in fr 0 sh ∨ u32 (sz sh + n) > memory_limit sh)
     ∨ trap c fr s = returned me cur fr (-1) (shares (lk s)) m' e' s ∧ arg_in fr 0 sh ∧ v = 0
     ∨ trap c fr s = returned me cur fr (sz sh) (<[q := set_sz v sh]> (shares (lk s))) m' e' s ∧
       arg_in fr 0 sh ∧ v ≤ memory_limit sh).
Proof.
  intros Hi Hc Hp Hk Hks Hpd Hq Hsh Hsz Hlim Hle Htn Hax Hw n Hpos Hneg Hzero.
  set (k := lk s) in *. set (frame := λ r, <[me := set_tf (tf_set_eax (u32 r) fr) cur]> (procs k)).
  destruct (wp_ok (trap c fr) (λ r s', r = Back ∧ ∃ m', idle m' ∧
     (s' = set_lk (st (frame (-1)) (shares k) m' (kenv k) k) s ∧ (¬ arg_in fr 0 sh ∨ u32 (sz sh + n) > memory_limit sh)
      ∨ s' = set_lk (st (frame (-1)) (shares k) m' e' k) s ∧ arg_in fr 0 sh ∧ v = 0
      ∨ s' = set_lk (st (frame (sz sh)) (<[q := set_sz v sh]> (shares k)) m' e' k) s ∧
        arg_in fr 0 sh ∧ v ≤ memory_limit sh)) s)
    as (r & s' & E & -> & m' & Hm & H).
  2:{ exists m'. split; [done|]. unfold returned. fold k. fold (frame (-1)) (frame (sz sh)). rewrite E. naive_solver. }
  assert (s = set_lk (st (procs k) (shares k) (kmach k) (kenv k) k) s) as -> by (unfold k; rewrite <- st_id; by destruct s).
  eapply wpg_trap_call; [done..|by rewrite Hax|]. intros m1 Hi1 Hc1.
  rewrite Hax. change (syscalls (i32 12) c) with (sys_sbrk c). unfold sys_sbrk, with_arg.
  assert (∀ m2, idle m2 → cprocs m2 = cprocs (kmach k) → cprocs m2 !! c = Some (Some me)) as Hcm by (by intros m2 _ ->).
  apply wpg_bind. eapply (wpg_argint _ _ _ _ _ _ _ c me (set_tf fr cur) q sh 0 w);
    [done|by apply Hcm|apply lookup_insert_eq|done..|]. intros m2 Hi2 Hc2. rewrite Hc1 in Hc2. cbn [tf set_tf].
  destruct (decide (arg_in fr 0 sh)) as [Ha|Ha].
  - apply wpg_bind. eapply wpg_cur; [done|by apply Hcm|]. intros m3 Hi3 Hc3. rewrite Hc2 in Hc3.
    apply wpg_bind. eapply wpg_getp; [apply lookup_insert_eq|]. cbn [shared_info set_tf]. rewrite Hq.
    apply wpg_bind, wpg_onlk. eapply wpg_sget; [exact Hsh|]. cbv zeta. rewrite (i32_id (sz sh)) by lia.
    apply wpg_bind, wpg_onlk. eapply (wpg_growproc _ _ _ me (set_tf fr cur) q sh v _ _ _ _ e');
      [done|by apply Hcm|apply lookup_insert_eq|done..|]. intros m4 Hi4 Hc4. rewrite Hc3 in Hc4.
    assert (∀ r shs e'' (Q : stage → lst dev → Prop),
      (∀ m5, idle m5 → Q Back (set_lk (st (frame r) shs m5 e'' k) s)) →
      wpg true (set_result (Some me) (Done r) ;; syscall_return c (Done r)) Q
        (set_lk (st (<[me := set_tf fr cur]> (procs k)) shs m4 e'' k) s)) as Hret.
    { intros r shs e'' Q HQ. eapply wpg_call_done; [done|by apply Hcm|apply lookup_insert_eq|done|].
      intros m5 Hi5. rewrite insert_insert_eq. by apply HQ. }
    split_and!; intros Hv; apply wpg_ret, Hret; intros m5 Hi5; (split; [done|]); exists m5; (split; [done|]).
    + left. split; [done|by right].
    + right; left. done.
    + right; right. done.
  - apply wpg_ret. eapply wpg_call_done; [done|by apply Hcm|apply lookup_insert_eq|done|].
    intros m5 Hi5. rewrite insert_insert_eq. split; [done|]. exists m5. split; [done|]. left. split; [done|by left].
Qed.
End Sbrk.

(** A machine without devices, whose user memory holds 4096 everywhere. *)
#[export] Instance demo_lwp : @LwpEnv demo_env unit := {|
  ticks_addr := 0;
  load_user := λ _ _ _, Some 4096;
  lapiceoi := λ _, mret tt;
  ideintr := λ _, mret tt;
  kbdintr := λ _, mret tt;
  uartintr := λ _, mret tt;
  file_call := λ _ _, mret (Done (-1));
  file_resume := λ _, mret (Done (-1))
|}.
Definition sbrk_frame : trapframe := mkTf 0 0 0 0 0 0 0 12 0 0 0 0 64 0 0 27 512 100 0.
Definition lwp_limited : lst unit := mkLst (th_limited 1 16000) 0 tt.

(** [P] asks for a page more under a limit of 16000 bytes: it had 4097. *)
Lemma sbrk_respects_limit_witness :
  ∃ s', trap 1 sbrk_frame lwp_limited = Ok (Back, s') ∧
    sz <$> shares (lk s') !! 1%nat = Some 8193 ∧
    (λ p, tf_eax (tf p)) <$> procs (lk s') !! 1%nat = Some 4097.
Proof.
  set (s := lwp_limited).
  assert (idle (kmach (lk s))) as Hi by th_idle.
  assert (cprocs (kmach (lk s)) !! 1%nat = Some (Some 1%nat)) as Hc by vm.
  destruct (slot_fact (λ p, (killed p, kstack p, pgdir p, shared_info p)) (procs (lk s)) 1 (0, 12288, 16384, Some 1%nat))
    as (cur & Hcur & E); [vm|]. injection E as Hkl Hk Hd Hq.
  destruct (share_fact (λ sh, (sz sh, memory_limit sh)) (shares (lk s)) 1 (4097, 16000)) as (sh & Hsh & E); [vm|].
  injection E as Hsz Hlim.
  assert (arg_in sbrk_frame 0 sh) as Ha.
  { split; rewrite Hsz; [apply Z.ltb_lt|apply Z.leb_le]; reflexivity. }
  destruct (sbrk_respects_limit 1 sbrk_frame s 1 cur 1 sh 4096 8193 (kenv (lk s)))
    as (m' & _ & [[_ [H|H]]|[[_ [_ H]]|[H _]]]);
    [exact Hi|exact Hc|exact Hcur|exact Hkl|rewrite Hk; discriminate|rewrite Hd; discriminate|exact Hq|exact Hsh
    |lia|lia|lia|reflexivity|reflexivity|intros _; reflexivity|intros _; rewrite Hsz; reflexivity|discriminate|discriminate| | | |].
  - destruct (H Ha).
  - rewrite Hsz, Hlim in H. vm_compute in H. discriminate H.
  - discriminate H.
  - eexists. split; [exact H|]. cbn [lk set_lk procs shares st]. rewrite !lookup_insert_eq, Hsz. split; reflexivity.
Defined.
