(* ===== verification/UserProgs.v ===== *)
(** * Small user programs (cat.c, wc.c, echo.c, kill.c, ln.c, mkdir.c, rm.c, ls.c)

    Each program is its [main] over the system calls it makes, [UserSys].  The
    arguments are strings up to and beyond their NUL, as in [CString]; a
    function of a program answers whether it returns or called [exit].
    [printf] writes its bytes one at a time.

    The theorems: [wc] counts the lines, words and bytes of its input, however
    the calls of [read] cut it up; [cat] copies its input; [rm] and [mkdir]
    stop at the first name that fails. *)

From S2P Require Export Printf.
Local Open Scope Z_scope.

Definition T_DIR : Z := 1.
Definition T_FILE : Z := 2.
Definition DIRSIZ : nat := 14.
(** The fields of [struct stat] that [ls] prints, and of [struct dirent]. *)
Record ustat := mkStat { st_type : Z; st_ino : Z; st_size : Z }.
Record udirent := mkDe { de_inum : Z; de_name : bytes }.

(** The system calls.  [u_read fd n] is [read] of at most [n] bytes: an error,
    or the bytes it delivers, none at the end of the file; [u_readdir] is the
    [read] of one [struct dirent], [None] when it does not deliver a whole
    one. *)
Class UserSys := {
  usys : Type;
  u_open : bytes → Z → M usys Z;
  u_close : Z → M usys unit;
  u_read : Z → nat → M usys (option bytes);
  u_readdir : Z → M usys (option udirent);
  u_write : Z → bytes → M usys Z;
  u_fstat : Z → M usys (option ustat);
  u_stat : bytes → M usys (option ustat);
  u_link : bytes → bytes → M usys Z;
  u_unlink : bytes → M usys Z;
  u_mkdir : bytes → M usys Z;
  u_kill : Z → M usys Z
}.

(** A C string literal. *)
Definition lit (m : string) : bytes :=
  ((λ c, Z.of_nat (Ascii.nat_of_ascii c)) <$> String.list_ascii_of_string m) ++ [0].

Section Programs.
Context {US : UserSys}.

(** An argument of [printf]: a number or a string. *)
Inductive uarg := Num (n : Z) | Str (b : bytes).

(** [printf(fd, fmt, args)]: the string that is argument [i] has the address
    [i + 1]. *)
Definition u_printf (fd : Z) (fmt : string) (args : list uarg) : M usys unit :=
  let ap := imap (λ i a, match a with Num n => n | Str _ => Z.of_nat i + 1 end) args in
  let str a := match args !! Z.to_nat (a - 1) with Some (Str b) => Some b | _ => None end in
  o ← deref (λ _, printf str (lit fmt) ap);
  for_each o (λ c, u_write fd [c] ;; mret tt).

(** [for(i = 1; i < argc; i++) body], where [body] says whether to go on. *)
Fixpoint for_args (args : list bytes) (body : bytes → M usys bool) : M usys unit :=
  match args with
  | [] => mret tt
  | a :: args => ok ← body a; if (ok : bool) then for_args args body else mret tt
  end.

(** ** cat.c *)

(** The [char buf[512]] of [cat] and [wc]. *)
Definition UBUF : nat := 512.

Fixpoint cat_loop (fuel : nat) (fd : Z) : M usys bool :=
  match fuel with
  | O => diverge
  | S fuel =>
      r ← u_read fd UBUF;
      match r with
      | None => u_printf 1 "cat: read error
" [] ;; mret false
      | Some [] => mret true
      | Some b =>
          n ← u_write 1 b;
          if negb (n =? Z.of_nat (length b)) then
            u_printf 1 "cat: write error
" [] ;; mret false
          else cat_loop fuel fd
      end
  end.

(** ** wc.c *)

Record counts := mkCounts { nl : Z; nw : Z; nc : Z; inword : bool }.

(** [strchr(" \r\t\n\v", c)] *)
Definition is_space (c : Z) : option bool :=
  r ← strchr [32; 13; 9; 10; 11; 0] c; Some (match r with Some _ => true | None => false end).

Definition wc_byte (c : Z) (s : counts) : option counts :=
  sp ← is_space c;
  let l := if c =? 10 then i32 (nl s + 1) else nl s in
  if (sp : bool) then Some (mkCounts l (nw s) (i32 (nc s + 1)) false)
  else if negb (inword s) then Some (mkCounts l (i32 (nw s + 1)) (i32 (nc s + 1)) true)
  else Some (mkCounts l (nw s) (i32 (nc s + 1)) (inword s)).
Fixpoint wc_bytes (b : bytes) (s : counts) : option counts :=
  match b with
  | [] => Some s
  | c :: b => s ← wc_byte c s; wc_bytes b s
  end.

Fixpoint wc_loop (fuel : nat) (fd : Z) (s : counts) (name : bytes) : M usys bool :=
  match fuel with
  | O => diverge
  | S fuel =>
      r ← u_read fd UBUF;
      match r with
      | None => u_printf 1 "wc: read error
" [] ;; mret false
      | Some [] =>
          u_printf 1 "%d %d %d %s
" [Num (nl s); Num (nw s); Num (nc s); Str name] ;;
          mret true
      | Some b => s ← deref (λ _, wc_bytes b s); wc_loop fuel fd s name
      end
  end.
Definition wc (fuel : nat) (fd : Z) (name : bytes) : M usys bool :=
  wc_loop fuel fd (mkCounts 0 0 0 false) name.

(** [main] of [cat] and [wc], with [what] their function and [cannot] the
    message when a file cannot be opened. *)
Definition each_file (what : Z → bytes → M usys bool) (cannot : string) (args : list bytes) : M usys unit :=
  match args with
  | [] => what 0 [0] ;; mret tt
  | _ =>
      for_args args (λ a,
        fd ← u_open a 0;
        if fd <? 0 then u_printf 1 cannot [Str a] ;; mret false
        else
          ok ← what fd a;
          if (ok : bool) then u_close fd ;; mret true else mret false)
  end.
Definition cat_main (fuel : nat) : list bytes → M usys unit :=
  each_file (λ fd _, cat_loop fuel fd) "cat: cannot open %s
".
Definition wc_main (fuel : nat) : list bytes → M usys unit :=
  each_file (wc fuel) "wc: cannot open %s
".

(** ** echo.c, kill.c, ln.c, mkdir.c, rm.c *)

Fixpoint echo_main (args : list bytes) : M usys unit :=
  match args with
  | [] => mret tt
  | [a] => u_printf 1 "%s%s" [Str a; Str [10; 0]]
  | a :: args => u_printf 1 "%s%s" [Str a; Str [32; 0]] ;; echo_main args
  end.

Definition kill_main (args : list bytes) : M usys unit :=
  match args with
  | [] => u_printf 2 "usage: kill pid...
" []
  | _ => for_each args (λ a, n ← deref (λ _, atoi a); u_kill n ;; mret tt)
  end.

Definition ln_main (args : list bytes) : M usys unit :=
  match args with
  | [old; new] =>
      r ← u_link old new;
      when (r <? 0) (u_printf 2 "link %s %s: failed
" [Str old; Str new])
  | _ => u_printf 2 "Usage: ln old new
" []
  end.

Definition each_name (call : bytes → M usys Z) (failed : string) (args : list bytes) : M usys unit :=
  for_args args (λ a,
    r ← call a;
    if r <? 0 then u_printf 2 failed [Str a] ;; mret false else mret true).
Definition mkdir_main (args : list bytes) : M usys unit :=
  match args with
  | [] => u_printf 2 "Usage: mkdir files...
" []
  | _ => each_name u_mkdir "mkdir: %s failed to create
" args
  end.
Definition rm_main (args : list bytes) : M usys unit :=
  match args with
  | [] => u_printf 2 "Usage: rm files...
" []
  | _ => each_name u_unlink "rm: %s failed to delete
" args
  end.

(** ** ls.c *)

(** [for(p = path + strlen(path); p >= path && *p != '/'; p--); p++], from
    [p = path + n]. *)
Fixpoint after_slash (path : bytes) (n : nat) : option bytes :=
  c ← path !! n;
  if c =? 47 then Some (drop (S n) path)
  else match n with O => Some path | S n => after_slash path n end.
(** The byte that ends the static [buf] is never written: it stays 0. *)
Definition fmtname (path : bytes) : option bytes :=
  n ← strlen path;
  p ← after_slash path (Z.to_nat n);
  k ← strlen p;
  if Z.of_nat DIRSIZ <=? k then Some p
  else Some (take (Z.to_nat k) p ++ replicate (DIRSIZ - Z.to_nat k) 32 ++ [0]).

Definition ls_line (name : bytes) (st : ustat) : M usys unit :=
  f ← deref (λ _, fmtname name);
  u_printf 1 "%s %d %d %d
" [Str f; Num (st_type st); Num (st_ino st); Num (st_size st)].

(** The loop over the entries of a directory; [p] is [buf] up to the slash. *)
Fixpoint ls_entries (fuel : nat) (fd : Z) (p : bytes) : M usys unit :=
  match fuel with
  | O => diverge
  | S fuel =>
      r ← u_readdir fd;
      match r with
      | None => mret tt
      | Some de =>
          if de_inum de =? 0 then ls_entries fuel fd p
          else
            let buf := p ++ take DIRSIZ (de_name de) ++ [0] in
            r ← u_stat buf;
            match r with
            | None => u_printf 1 "ls: cannot stat %s
" [Str buf]
            | Some st => ls_line buf st
            end ;;
            ls_entries fuel fd p
      end
  end.

Definition ls (fuel : nat) (path : bytes) : M usys unit :=
  fd ← u_open path 0;
  if fd <? 0 then u_printf 2 "ls: cannot open %s
" [Str path]
  else
    r ← u_fstat fd;
    match r with
    | None => u_printf 2 "ls: cannot stat %s
" [Str path] ;; u_close fd
    | Some st =>
        (if st_type st =? T_FILE then ls_line path st
         else if st_type st =? T_DIR then
           n ← deref (λ _, strlen path);
           if 512 <? n + 1 + Z.of_nat DIRSIZ + 1 then u_printf 1 "ls: path too long
" []
           else ls_entries fuel fd (take (Z.to_nat n) path ++ [47])
         else mret tt) ;;
        u_close fd
    end.

Definition ls_main (fuel : nat) (args : list bytes) : M usys unit :=
  match args with
  | [] => ls fuel [46; 0]
  | _ => for_each args (ls fuel)
  end.

(** ** Theorems *)

(** The calls of [read] on [fd] from [s] on deliver [chunks], then the end of
    the file. *)
Inductive fed (fd : Z) : list bytes → usys → usys → Prop :=
  | fed_eof s s' : u_read fd UBUF s = Ok (Some [], s') → fed fd [] s s'
  | fed_more b bs s s1 s' :
      b ≠ [] → u_read fd UBUF s = Ok (Some b, s1) → fed fd bs s1 s' → fed fd (b :: bs) s s'.

Definition white (c : Z) : bool := (32 =? c) || (13 =? c) || (9 =? c) || (10 =? c) || (11 =? c).
Lemma is_space_white c : is_space c = Some (white c).
Proof.
  unfold is_space, white. unfold strchr. change (32 =? 0) with false. change (13 =? 0) with false. change (9 =? 0) with false.
  change (10 =? 0) with false. change (11 =? 0) with false. change (0 =? 0) with true. cbv iota.
  by destruct (32 =? c), (13 =? c), (9 =? c), (10 =? c), (11 =? c).
Qed.

(** The pieces of a text between the spaces; its words are the pieces that
    are not empty. *)
Fixpoint pieces (b : bytes) : bytes * list bytes :=
  match b with
  | [] => ([], [])
  | c :: b => let '(w, ws) := pieces b in if white c then ([], w :: ws) else (c :: w, ws)
  end.
Definition nonempty (w : bytes) : bool := match w with [] => false | _ => true end.
Definition words (b : bytes) : list bytes := let '(w, ws) := pieces b in List.filter nonempty (w :: ws).
(** The words that start in [b], when its first piece continues a word. *)
Definition new_words (iw : bool) (b : bytes) : Z :=
  let '(w, ws) := pieces b in
  Z.of_nat (length (List.filter nonempty (if iw then ws else w :: ws))).
Definition newlines (b : bytes) : Z := Z.of_nat (length (List.filter (Z.eqb 10) b)).

Lemma i32_add a b : i32 (i32 a + b) = i32 (a + b).
Proof.
  unfold i32. f_equal. replace ((a + 2 ^ 31) `mod` 2 ^ 32 - 2 ^ 31 + b + 2 ^ 31) with ((a + 2 ^ 31) `mod` 2 ^ 32 + b) by lia.
  rewrite Zplus_mod_idemp_l. f_equal. lia.
Qed.

Lemma wc_bytes_app a b s : wc_bytes (a ++ b) s = wc_bytes a s ≫= wc_bytes b.
Proof. revert s. induction a as [|c a IH]; intros s; [done|]. cbn [app wc_bytes]. destruct (wc_byte c s); [apply IH|done]. Qed.

Lemma wc_bytes_counts b l w n iw : ∃ iw',
  wc_bytes b (mkCounts (i32 l) (i32 w) (i32 n) iw) =
  Some (mkCounts (i32 (l + newlines b)) (i32 (w + new_words iw b)) (i32 (n + Z.of_nat (length b))) iw').
Proof.
  revert l w n iw. induction b as [|c b IH]; intros l w n iw.
  - exists iw. unfold newlines, new_words. destruct iw; cbn; by rewrite !Z.add_0_r.
  - set (l' := l + if c =? 10 then 1 else 0).
    set (w' := w + if white c then 0 else if iw then 0 else 1).
    destruct (IH l' w' (n + 1) (negb (white c))) as [iw' E]. exists iw'.
    assert (wc_byte c (mkCounts (i32 l) (i32 w) (i32 n) iw) = Some (mkCounts (i32 l') (i32 w') (i32 (n + 1)) (negb (white c)))) as Ec.
    { unfold wc_byte. rewrite is_space_white. subst l' w'. cbn. rewrite !i32_add.
      destruct (c =? 10), (white c), iw; cbn; by rewrite ?Z.add_0_r. }
    cbn [wc_bytes]. rewrite Ec. cbn [mbind option_bind]. rewrite E. do 2 f_equal; subst l' w'; f_equal.
    + unfold newlines. cbn [List.filter]. rewrite (Z.eqb_sym 10). destruct (c =? 10); cbn [length]; lia.
    + unfold new_words. cbn. destruct (pieces b) as [x xs]. destruct (white c), iw; cbn; destruct x; cbn [nonempty length]; lia.
    + cbn. lia.
Qed.

(** [wc] prints the number of newlines, of words and of bytes of its input as
    C's [int]s, however the calls of [read] cut the input up. *)
Theorem wc_counts fuel fd name bs s s' :
  fed fd bs s s' → (length bs < fuel)%nat →
  let text := concat bs in
  wc fuel fd name s =
  (u_printf 1 "%d %d %d %s
" [Num (i32 (newlines text)); Num (i32 (Z.of_nat (length (words text)))); Num (i32 (Z.of_nat (length text))); Str name] ;;
   mret true) s'.
Proof.
  intros H Hf text. destruct (wc_bytes_counts text 0 0 0 false) as [iw' E]. rewrite !Z.add_0_l in E.
  assert (Z.of_nat (length (words text)) = new_words false text) as ->.
  { unfold words, new_words. by destruct (pieces text). }
  change (mkCounts (i32 0) (i32 0) (i32 0) false) with (mkCounts 0 0 0 false) in E.
  unfold wc. set (z := mkCounts 0 0 0 false) in *. clearbody z.
  set (n1 := i32 (newlines text)) in *. set (n2 := i32 (new_words false text)) in *.
  set (n3 := i32 (Z.of_nat (length text))) in *. clearbody n1 n2 n3. subst text. revert fuel z Hf E.
  induction H as [s s' E1|b bs s s1 s' Hb E1 H IH]; intros [|fuel] z Hf E; try (cbn in Hf; lia);
    cbn [wc_loop]; unfold mbind at 1, M_bind at 1; rewrite E1.
  - cbn in E. by simplify_eq.
  - cbn [concat] in E. rewrite wc_bytes_app in E. destruct (wc_bytes b z) as [z1|] eqn:E2; [|done].
    destruct b as [|c b]; [done|]. unfold mbind at 1, M_bind at 1, deref.
    apply IH; [cbn in Hf; lia|exact E].
Qed.

(** Reads on [fd] and writes of what they deliver, in full, up to the end of
    the file. *)
Inductive piped (fd : Z) : usys → usys → Prop :=
  | piped_eof s s' : u_read fd UBUF s = Ok (Some [], s') → piped fd s s'
  | piped_more b s s1 s2 s' :
      b ≠ [] → u_read fd UBUF s = Ok (Some b, s1) → u_write 1 b s1 = Ok (Z.of_nat (length b), s2) →
      piped fd s2 s' → piped fd s s'.

Lemma u_printf_fails fd m s s' : (u_printf fd m [] ;; mret false) s ≠ Ok (true, s').
Proof. unfold mbind, M_bind. by destruct (u_printf fd m [] s) as [[? ?]| | |]. Qed.

(** [cat] succeeds exactly when each piece that [read] delivers is written in
    full, in order, up to the end of the file. *)
Theorem cat_copies fd s s' : (∃ fuel, cat_loop fuel fd s = Ok (true, s')) ↔ piped fd s s'.
Proof.
  split.
  - intros [fuel H]. revert s H. induction fuel as [|fuel IH]; intros s; cbn [cat_loop]; [done|].
    unfold mbind at 1, M_bind at 1. destruct (u_read fd UBUF s) as [[[[|c b]|] s1]| | |] eqn:E1; try done.
    + unfold mret, M_ret. intros H. simplify_eq. by apply piped_eof.
    + unfold mbind at 1, M_bind at 1. destruct (u_write 1 (c :: b) s1) as [[n s2]| | |] eqn:E2; try done.
      destruct (Z.eqb_spec n (Z.of_nat (length (c :: b)))) as [->|]; cbn [negb]; intros H; [|by apply u_printf_fails in H].
      by eapply piped_more; [|exact E1|exact E2|apply IH].
    + intros H. by apply u_printf_fails in H.
  - induction 1 as [s s' E|b s s1 s2 s' Hb E1 E2 H [fuel IH]].
    + exists 1%nat. cbn [cat_loop]. unfold mbind at 1, M_bind at 1. by rewrite E.
    + exists (S fuel). cbn [cat_loop]. unfold mbind at 1, M_bind at 1. rewrite E1. destruct b as [|c b]; [done|].
      unfold mbind at 1, M_bind at 1. by rewrite E2, Z.eqb_refl.
Qed.

(** [call] succeeds on each of [names]. *)
Inductive succeeds (call : bytes → M usys Z) : list bytes → usys → usys → Prop :=
  | succeeds_nil s : succeeds call [] s s
  | succeeds_cons a names r s s1 s' :
      call a s = Ok (r, s1) → 0 ≤ r → succeeds call names s1 s' → succeeds call (a :: names) s s'.

Lemma each_name_cons call failed a names r s s1 :
  call a s = Ok (r, s1) →
  each_name call failed (a :: names) s =
  (if r <? 0 then u_printf 2 failed [Str a] ;; mret tt else each_name call failed names) s1.
Proof.
  intros E. unfold each_name. cbn [for_args]. unfold mbind, M_bind. rewrite E. destruct (r <? 0); [|done].
  by destruct (u_printf 2 failed [Str a] s1) as [[? ?]| | |].
Qed.

(** [rm] and [mkdir] go on while their call succeeds; at the first name where
    it does not they print a message and leave the rest alone. *)
Theorem each_name_first_failure call failed names s s1 :
  succeeds call names s s1 →
  each_name call failed names s = Ok (tt, s1) ∧
  ∀ a rest r s2, call a s1 = Ok (r, s2) → r < 0 →
    each_name call failed (names ++ a :: rest) s = (u_printf 2 failed [Str a] ;; mret tt) s2.
Proof.
  induction 1 as [s|a names r s s1 s' E Hr H [IH1 IH2]]; (split; [|intros a' rest r' s2 E' Hr'; cbn [app]]).
  - done.
  - by rewrite (each_name_cons _ _ _ _ _ _ _ E'), (proj2 (Z.ltb_lt r' 0)).
  - by rewrite (each_name_cons _ _ _ _ _ _ _ E), (proj2 (Z.ltb_ge r 0)).
  - rewrite (each_name_cons _ _ _ _ _ _ _ E), (proj2 (Z.ltb_ge r 0)) by done. by eapply IH2.
Qed.

(** ** [fmtname] *)

Lemma after_slash_last dir name x : 47 ∉ name →
  after_slash (dir ++ 47 :: name ++ x) (length dir + length name) = Some (name ++ x).
Proof.
  intros Hn. assert (∀ k, (k ≤ length name)%nat →
    after_slash (dir ++ 47 :: name ++ x) (length dir + k) = Some (name ++ x)) as H; [|by apply H].
  induction k as [|k IH]; intros Hk.
  - assert ((dir ++ 47 :: name ++ x) !! (length dir + 0)%nat = Some 47) as E by by rewrite Nat.add_0_r, list_lookup_middle.
    destruct (length dir + 0)%nat as [|n] eqn:En; cbn [after_slash]; rewrite E; cbn [mbind option_bind]; change (47 =? 47) with true; cbv iota; rewrite <- En.
    all: f_equal; replace (S (length dir + 0)) with (length (dir ++ [47])) by (rewrite length_app; cbn; lia).
    all: replace (dir ++ 47 :: name ++ x) with ((dir ++ [47]) ++ name ++ x) by by rewrite <- app_assoc.
    all: apply drop_app_length.
  - destruct (lookup_lt_is_Some_2 name k) as [c Ec]; [lia|].
    replace (length dir + S k)%nat with (S (length dir + k)) by lia. cbn [after_slash].
    assert ((dir ++ 47 :: name ++ x) !! S (length dir + k) = Some c) as ->.
    { rewrite lookup_app_r by lia. replace (S (length dir + k) - length dir)%nat with (S k) by lia.
      change ((name ++ x) !! k = Some c). by rewrite lookup_app_l by lia. }
    cbn [mbind option_bind]. rewrite (proj2 (Z.eqb_neq c 47)); [apply IH; lia|].
    intros ->. apply Hn, list_elem_of_lookup. by exists k.
Qed.

(** [fmtname] is the last component of a path, padded with blanks to the 14
    columns of a directory entry. *)
Theorem fmtname_last dir name junk :
  0 ∉ dir → 0 ∉ name → 47 ∉ name →
  fmtname (dir ++ 47 :: name ++ 0 :: junk) =
  Some (name ++ if (length name <? DIRSIZ)%nat then replicate (DIRSIZ - length name) 32 ++ [0] else 0 :: junk).
Proof.
  intros Hd Hn Hs. unfold fmtname.
  assert (strlen (dir ++ 47 :: name ++ 0 :: junk) = Some (Z.of_nat (length dir + length (name ++ [0])))) as ->.
  { replace (dir ++ 47 :: name ++ 0 :: junk) with ((dir ++ 47 :: name) ++ 0 :: junk) by by rewrite <- app_assoc.
    rewrite strlen_nul by (rewrite elem_of_app, elem_of_cons; naive_solver). f_equal. rewrite !length_app. cbn [length]. lia. }
  cbn [mbind option_bind]. rewrite Nat2Z.id. replace (name ++ 0 :: junk) with ((name ++ [0]) ++ junk) by by rewrite <- app_assoc.
  rewrite after_slash_last by (rewrite elem_of_app, list_elem_of_singleton; naive_solver lia).
  rewrite <- app_assoc. cbn [mbind option_bind app]. rewrite strlen_nul by done. cbn [mbind option_bind]. rewrite Nat2Z.id.
  destruct (Nat.ltb_spec (length name) DIRSIZ).
  - rewrite (proj2 (Z.leb_gt _ _)), take_app_length by lia. done.
  - rewrite (proj2 (Z.leb_le _ _)) by lia. done.
Qed.
End Programs.

(** ** A system whose reads deliver a list of chunks *)

#[local] Instance ChunkSys : UserSys := {
  usys := list bytes * bytes;
  u_open _ _ := mret 3;
  u_close _ := mret tt;
  u_read _ n := λ '(cs, o),
    Ok (match cs with [] => (Some [], ([], o)) | c :: cs => (Some (take n c), (cs, o)) end);
  u_readdir _ := mret None;
  u_write _ b := λ '(cs, o), Ok (Z.of_nat (length b), (cs, o ++ b));
  u_fstat _ := mret (Some (mkStat T_FILE 7 12));
  u_stat _ := mret None;
  u_link _ _ := mret (-1);
  u_unlink _ := mret (-1);
  u_mkdir _ := mret 0;
  u_kill _ := mret 0
}.
Definition ran (m : M usys unit) (cs : list string) : option bytes :=
  match m ((λ c, removelast (lit c)) <$> cs, []) with Ok (_, (_, o)) => Some o | _ => None end.

Example wc_run :
  ran (wc_main 5 [lit "f"]) ["one tw"; "o
"; " three"] = Some (removelast (lit "1 3 14 f
")).
Proof. vm_compute. reflexivity. Qed.
Example cat_run : ran (cat_main 5 []) ["ab"; "c"] = Some (removelast (lit "abc")).
Proof. vm_compute. reflexivity. Qed.
Example ls_run :
  ran (ls_main 5 [lit "d/f"]) [] = Some (removelast (lit "f              2 7 12
")).
Proof. vm_compute. reflexivity. Qed.
Example rm_run :
  ran (rm_main [lit "x"; lit "y"]) [] = Some (removelast (lit "rm: x failed to delete
")).
Proof. vm_compute. reflexivity. Qed.
